(* ===== verification/_CoqProject ===== *)
-Q . S2P
Prelude.v
Frame.v
Paging.v
PagingTheory.v
PagingProps.v
PagingMapping.v
PagingUnmap.v
PagingClaims.v
FrameAllocator.v
FrameTheory.v
FrameProps.v
FrameClaims.v
Buffer.v
BufferProps.v
Time.v
Varint.v
Hashmap.v
HashmapProps.v
HashmapClaims.v
Strings.v
Base64.v
Base64Props.v
Crc.v
Sync.v
SyncProps.v
SemaphoreProps.v
LinkedList.v
LinkedListTheory.v
LinkedListInsert.v
LinkedListDelete.v
LinkedListClaims.v
FrameList.v
SimpleHeap.v
SimpleHeapTheory.v
SimpleHeapProps.v
SimpleHeapAlloc.v
SimpleHeapFree.v
SimpleHeapClaims.v
RbTree.v
RbTreeTheory.v
RbTreeInsert.v
RbTreeDelete.v
RbTreeRemove.v
RbTreeSearch.v
RbTreeTraverse.v
RbTreeClaims.v
BigInt.v
BigIntArith.v
BigIntDigits.v
BigIntTheory.v
BigIntRun.v
BigIntSum.v
BigIntBits.v
BigIntShift.v
BigIntMul.v
BigIntDiv.v
BigIntPow.v
BigIntPrime.v
BigIntText.v
BigIntClaims.v
BigIntRuns.v
Quicksort.v
Deflate.v
DeflateEncode.v
DeflateBits.v
DeflateHuffman.v
DeflateBlock.v
DeflateFixed.v
DeflateMatch.v
DeflateLevels.v
DeflateTable.v
DeflateHeader.v
DeflateStream.v
DeflateClaims.v
DeflateRuns.v
Zpack.v
ZpackProps.v
