(* ===== verification/Prelude.v ===== *)
(** * Turnstone OS: a verification library for the core of the kernel

    Turnstone is a 64-bit operating system written in C.  This library models
    the parts of it on which everything else stands - physical memory, page
    tables, the heap, the containers, locks, big integers, and the codecs, sums and
    compression formats of its library - as executable definitions translated from [src/], and proves
    what makes them correct.

    ** Parts and how they interact

    The frame allocator hands out physical memory in blocks of 4 KiB frames.
    It keeps its blocks in indexes by address and in a sorted list by size.
    The paging code takes frames from it for page tables and maps frames to
    virtual addresses.  The heap gives out memory of a mapped region.  Lists,
    hash maps and buffers take their memory from a heap.  All of them are used
    under locks.

    ** Files

    - [Prelude]: machine integers ([u8] ... [u64], [i64]), the command monad
      [cmd] with its outcomes (a result, a fault of the program, no more fuel),
      its weakest preconditions [wp], and lemmas on bits and lists.
    - [Frame]: frames and the operations the paging code needs of an allocator,
      as a type class ([includes/memory/frame.h]).
    - [Paging], [PagingTheory], [PagingProps], [PagingMapping], [PagingUnmap],
      [PagingClaims]: [cc/memory/paging.64.c].  The memory of tables is a map
      from frame addresses to 512 entries; an entry has the fields of
      [memory_page_entry_t].  One definition per C function; the levels of a
      walk are definitions of their own ([add_page_p3], [add_page_p2], ...).
    - [FrameAllocator], [FrameTheory], [FrameProps], [FrameClaims]:
      [cc/memory/frame_allocator.64.c].  The indexes by address and the list by
      size are type classes with laws ([FrameIndexLaws], [SizeListLaws]), and so
      are the heap of descriptors and iterators ([FrameHeap]) and the page through
      which released frames are cleared ([PageWindow], [PageWindowLaws]);
      instances show that the laws can hold.
    - [LinkedList], [LinkedListTheory], [LinkedListInsert], [LinkedListDelete],
      [LinkedListClaims]: [cc/lib/list_linked.64.c], with items linked by
      pointers in a memory and the cached middle item.  [FrameList] shows that
      such a list is a correct list by size for the frame allocator.
    - [SimpleHeap], [SimpleHeapTheory], [SimpleHeapProps], [SimpleHeapAlloc],
      [SimpleHeapFree], [SimpleHeapClaims]: [cc/memory/memory_simple.xx.c], the
      heap with headers in front of its blocks.
    - [Hashmap], [HashmapProps], [HashmapClaims]: [cc/lib/hashmap.64.c].
      [Strings]: string and memory comparison ([cc/lib/strings.xx.c],
      [cc/memory/memory.xx.c]) and hash maps with string keys.
    - [Buffer], [BufferProps]: [cc/lib/buffer.64.c].
    - [Sync], [SyncProps], [SemaphoreProps]: [cc/cpu/sync.64.c], locks and
      semaphores as programs of threads whose single accesses to the lock and the
      count interleave; locks also as calls of one thread.
    - [Time], [Varint], [Base64], [Base64Props], [Crc]: the files of these names
      under [cc/lib].
    - [RbTree], [RbTreeTheory], [RbTreeInsert], [RbTreeDelete], [RbTreeRemove],
      [RbTreeSearch], [RbTreeTraverse], [RbTreeClaims]: [cc/lib/rbtree.64.c], with
      nodes linked to children and parents in a memory.
    - [BigInt], [BigIntArith]: [cc/lib/bigint.64.c], one definition per function,
      on chains of 48-bit items in a store of objects; [BigIntDigits],
      [BigIntTheory]: the number that a chain, a sign and the complement flag
      stand for; [BigIntRun], [BigIntSum], [BigIntBits], [BigIntShift],
      [BigIntMul], [BigIntDiv], [BigIntPow], [BigIntPrime], [BigIntText]: what
      each operation does to the numbers of the store ([exec]); [BigIntClaims],
      [BigIntRuns]: the theorems and concrete runs.
    - [Quicksort]: [quicksort2] of [cc/lib/quicksort.64.c].
    - [Deflate], [DeflateEncode]: the decoder and the encoder of
      [cc/lib/deflate.64.c], on buffers as lists of bytes with the bits that wait
      in the bit buffer.  [DeflateBits]: buffers as sequences of bits;
      [DeflateHuffman]: canonical codes; [DeflateBlock], [DeflateFixed]: the words
      of a block and what they decode to; [DeflateMatch]: the search for matches;
      [DeflateLevels], [DeflateTable]: lengths and codes of the dynamic trees;
      [DeflateHeader]: the header of a dynamic block; [DeflateStream]: a sequence
      of blocks; [DeflateClaims], [DeflateRuns]: the theorems and concrete runs.
    - [Zpack], [ZpackProps]: [cc/lib/zpack.64.c].

    ** What the theorems show

    - Paging: mapping a page makes exactly its addresses translate, to the frame
      that was asked for; a range of frames is mapped linearly; unmapping makes
      exactly the page untranslatable and undoes mapping; changes of attributes
      keep every translation.  These hold while the cache of internal frames is
      not at its reserve of 16: below it, a refill whose mapping needs a table
      calls itself until the frame allocator has nothing left, and halts, which is
      proved as such.
    - Frame allocator: the blocks of the indexes never overlap and together keep
      the same pages; every operation moves pages between free, allocated and
      reserved as it says, on success and on failure; the block taken is the
      smallest that fits; released frames are cleared; the memory map of the
      firmware is filed run by run, without its last run.
    - Heap: in every state a program can reach with requests without alignment,
      of sizes from 1 to 2^63, and frees that the code does not refuse, the blocks it holds lie in the
      heap and are disjoint from each other and from all free blocks; [malloc]
      ends, never follows a null pointer, returns zeroed memory of the size asked
      for, and fails only if no block of the free chain fits; [free] takes a block
      back, and a second [free] of it changes nothing.
    - Linked lists: each operation is the operation on sequences that its name
      says; sorted lists stay sorted, lists are queues and stacks.
    - Hash maps: insertion, lookup and deletion of keys, iteration over all items
      exactly once, and refinement of finite maps for integer and string keys;
      [strcmp] is the lexicographic order.
    - Locks: mutual exclusion and absence of deadlock for any number of threads
      and any interleaving, if nested sections are released at their outer end
      only; semaphores with a lock keep the number of their slots under any
      interleaving.
    - Codecs: round trips of base64, varint and calendar dates; CRC and Adler
      sums equal to their definitions by polynomials and by sums.
    - Red-black trees: after any insertions and deletions the tree answers as the
      sorted association list of the same operations, its height is logarithmic,
      and searches give exactly the items that meet their criterion.
    - Big integers: programs of sums, differences, products, quotients, powers,
      modular powers and greatest common divisors compute the arithmetic of [Z]
      within stated guards, with any aliasing the code allows; the primality test
      accepts every prime whatever the random numbers; text round trips.
    - Compression: the lists of matches of deflate expand to the block; the codes
      built from any frequencies within the guard decode to their symbols; what
      [deflate_deflate] writes, with stored, fixed and dynamic blocks,
      [deflate_inflate] turns back into the input; the same for zpack.
    - [quicksort2] sorts: a permutation of its input in the order of the comparator.

    ** Bounds and fuel

    Loops whose end is not evident from the data take fuel, and every theorem
    about them gives a result, with the fuel the definitions pass themselves:
    a walk over a chain in memory gets the number of records in that memory, a
    loop over a range gets its length.  Integers are kept at their width where the
    code may wrap; theorems that need that they do not wrap say so.

    ** Left out

    Locks inside the operations of containers and allocators (each operation is
    one step; [Sync] treats the locks), logging, privileged instructions ([cr3],
    [invlpg]), boot-time walks over linker data, the hash heap, b+ trees,
    the linker, drivers, the hypervisor, the database, the
    compiler, graphics and the EFI loader.  Memory outside a component (allocation
    of items, frames for tables) is a parameter with laws stated as a type class
    or as hypotheses, and instances show that they can hold.

    Where the code does not do what it means to, the theorem states the condition
    under which it does, and an example states what happens otherwise; these
    examples stand at the end of the files of theorems. *)

From stdpp Require Export base tactics numbers list gmap.
From Stdlib Require Export ZArith Lia Sorted.

#[global] Set Default Goal Selector "!".
#[global] Open Scope Z_scope.

(** ** Machine integers

    A [w]-bit integer of the C code is a [Z]; its wrap-around is written out
    with the functions below, named after the C types of [includes/types.h]. *)

Definition u8 (z : Z) : Z := z mod 2 ^ 8.
Definition u16 (z : Z) : Z := z mod 2 ^ 16.
Definition u32 (z : Z) : Z := z mod 2 ^ 32.
Definition u64 (z : Z) : Z := z mod 2 ^ 64.

(** Reinterpretation of a 64-bit pattern as the signed type [int64_t]. *)
Definition i64 (z : Z) : Z :=
  let r := z mod 2 ^ 64 in if r <? 2 ^ 63 then r else r - 2 ^ 64.

(** Reinterpretation of a 32-bit pattern as the signed type [int32_t]. *)
Definition i32 (z : Z) : Z :=
  let r := z mod 2 ^ 32 in if r <? 2 ^ 31 then r else r - 2 ^ 32.

(** Reinterpretation of an 8-bit pattern as the signed type [int8_t]. *)
Definition i8 (z : Z) : Z :=
  let r := z mod 2 ^ 8 in if r <? 2 ^ 7 then r else r - 2 ^ 8.

Definition in_u8 (z : Z) : Prop := 0 <= z < 2 ^ 8.
Definition in_u64 (z : Z) : Prop := 0 <= z < 2 ^ 64.

Lemma u64_small z : 0 <= z < 2 ^ 64 -> u64 z = z.
Proof. apply Z.mod_small. Qed.

Lemma u32_small z : 0 <= z < 2 ^ 32 -> u32 z = z.
Proof. apply Z.mod_small. Qed.

Lemma i32_small z : 0 <= z < 2 ^ 31 -> i32 z = z.
Proof.
  intros Hz. unfold i32. rewrite Z.mod_small by lia. cbn zeta. by rewrite (proj2 (Z.ltb_lt _ _)) by lia.
Qed.

Lemma u64_add_l a b : u64 (u64 a + b) = u64 (a + b).
Proof. apply Zplus_mod_idemp_l. Qed.

Lemma i8_id z : - 128 <= z < 128 -> i8 z = z.
Proof.
  intros Hz. unfold i8. destruct (Z.lt_ge_cases z 0).
  - rewrite <- (Z_mod_plus_full z 1), Z.mod_small by lia. destruct (Z.ltb_spec (z + 1 * 2 ^ 8) (2 ^ 7)); lia.
  - rewrite Z.mod_small by lia. destruct (Z.ltb_spec z (2 ^ 7)); lia.
Qed.

(** [flag_set t f]: the C test [t & f] of a flag word against a mask. *)
Definition flag_set (t f : Z) : bool := negb (Z.land t f =? 0).

Create HintDb word discriminated.

(** ** Commands: code that threads a state, may halt the processor, or loops

    [Halted] is the outcome of a call of [cpu_hlt] and of an access through a
    pointer that is [NULL] or freed; [OutOfFuel] only arises in the model,
    where a recursion runs on fuel.  A command is stdpp's monad
    interface over state passing, so code reads [x ← c; k] and [c ;; k]. *)

Inductive outcome (A : Type) : Type :=
| Done (a : A)
| Halted
| OutOfFuel.
Arguments Done {A} a.
Arguments Halted {A}.
Arguments OutOfFuel {A}.

Definition cmd (S A : Type) : Type := S -> outcome (A * S).

#[export] Instance cmd_ret S : MRet (cmd S) := fun A (x : A) s => Done (x, s).
#[export] Instance cmd_bind S : MBind (cmd S) := fun A B (k : A -> cmd S B) c s =>
  match c s with
  | Done (x, s') => k x s'
  | Halted => Halted
  | OutOfFuel => OutOfFuel
  end.

Definition get_state {S} : cmd S S := fun s => Done (s, s).
Definition put_state {S} (s : S) : cmd S unit := fun _ => Done (tt, s).
Definition cpu_hlt {S A} : cmd S A := fun _ => Halted.
Definition out_of_fuel {S A} : cmd S A := fun _ => OutOfFuel.

(** Symbolic execution of a command. *)
Lemma cmd_bind_done {S A B} (c : cmd S A) (k : A -> cmd S B) s x s' :
  c s = Done (x, s') -> mbind k c s = k x s'.
Proof. intros H. unfold mbind, cmd_bind. by rewrite H. Qed.

(** The weakest precondition of a command: [Q] holds of the result and the
    final state, [E] if the processor halts; fuel does not run out. *)
Definition wp {S A} (c : cmd S A) (s : S) (Q : A -> S -> Prop) (E : Prop) : Prop :=
  match c s with
  | Done (a, s') => Q a s'
  | Halted => E
  | OutOfFuel => False
  end.

Section WP.
Context {S : Type}.

Lemma wp_ret {A} (x : A) (s : S) Q E : Q x s -> wp (mret x) s Q E.
Proof. done. Qed.

Lemma wp_bind {A B} (c : cmd S A) (k : A -> cmd S B) s Q E :
  wp c s (fun a s' => wp (k a) s' Q E) E -> wp (mbind k c) s Q E.
Proof. unfold wp, mbind, cmd_bind. by destruct (c s) as [[a s']| |]. Qed.

Lemma wp_mono {A} (c : cmd S A) s (Q Q' : A -> S -> Prop) E :
  wp c s Q E -> (forall a s', Q a s' -> Q' a s') -> wp c s Q' E.
Proof. unfold wp. destruct (c s) as [[a s']| |]; auto. Qed.

(** A run of a command that has a weakest precondition. *)
Lemma wp_result {A} (c : cmd S A) s (Q : A -> S -> Prop) E a s' :
  wp c s Q E -> c s = Done (a, s') -> Q a s'.
Proof. unfold wp. intros Hw Hc. by rewrite Hc in Hw. Qed.

Lemma wp_done {A} (c : cmd S A) s (Q : A -> S -> Prop) :
  wp c s Q False -> exists a s', c s = Done (a, s') /\ Q a s'.
Proof. unfold wp. destruct (c s) as [[a s']| |]; [by exists a, s'|done..]. Qed.

Lemma wp_get (s : S) (Q : S -> S -> Prop) E : Q s s -> wp get_state s Q E.
Proof. done. Qed.

Lemma wp_put (s s' : S) (Q : unit -> S -> Prop) E : Q tt s' -> wp (put_state s') s Q E.
Proof. done. Qed.
End WP.

Create HintDb wp discriminated.
#[export] Hint Resolve wp_ret wp_get wp_put : wp.

(** ** Memory accesses

    A result, or an access outside the memory the object owns (past the end of
    a block, or through a pointer to freed memory). *)
Inductive access (A : Type) : Type :=
| Val (a : A)
| Fault.
Arguments Val {A} a.
Arguments Fault {A}.

(** ** Bit operations as arithmetic *)

Lemma lor_low_add n a b :
  0 <= n -> a mod 2 ^ n = 0 -> 0 <= b < 2 ^ n -> Z.lor a b = a + b.
Proof.
  intros Hn Ha Hb.
  assert (Z.land a b = 0) as Hland.
  { rewrite (Z.div_mod a (2 ^ n)), Ha, Z.add_0_r by lia.
    rewrite Z.mul_comm, <- Z.shiftl_mul_pow2 by lia.
    apply Z.bits_inj'. intros k Hk. rewrite Z.land_spec, Z.bits_0.
    destruct (Z.lt_ge_cases k n).
    - by rewrite Z.shiftl_spec_low.
    - rewrite <- (Z.mod_small b (2 ^ n)) by lia.
      rewrite Z.mod_pow2_bits_high by lia. by rewrite andb_false_r. }
  by rewrite Z.add_nocarry_lxor, Z.lxor_lor.
Qed.

Lemma land_ones_mod a n m : 0 <= n -> m = Z.ones n -> Z.land a m = a mod 2 ^ n.
Proof. intros ? ->. by apply Z.land_ones. Qed.
