(* ===== verification/Frame.v ===== *)
(** * Physical frames: data shared by the paging code and the frame allocator

    [includes/memory/frame.h]: the frame descriptor, its enumerations, and the
    operations table [frame_allocator_t] through which the paging code calls
    the allocator, as an operational type class. *)

From S2P Require Import Prelude.

(** [FRAME_SIZE]. *)
Definition FRAME_SIZE : Z := 4096.

(** Frame attributes, [FRAME_ATTRIBUTE_*]. *)
Definition FRAME_ATTRIBUTE_OLD_RESERVED : Z := 0x0000000100000000.
Definition FRAME_ATTRIBUTE_ACPI_RECLAIM_MEMORY : Z := 0x0000000200000000.
Definition FRAME_ATTRIBUTE_ACPI : Z := 0x0000000400000000.
Definition FRAME_ATTRIBUTE_RESERVED_PAGE_MAPPED : Z := 0x0000000800000000.

Inductive frame_type_t :=
| FRAME_TYPE_FREE
| FRAME_TYPE_USED
| FRAME_TYPE_RESERVED
| FRAME_TYPE_ACPI_RECLAIM_MEMORY
| FRAME_TYPE_ACPI_CODE
| FRAME_TYPE_ACPI_DATA.

#[export] Instance frame_type_eq_dec : EqDecision frame_type_t.
Proof. solve_decision. Defined.

(** Allocation request flags, [frame_allocation_type_t]. *)
Definition FRAME_ALLOCATION_TYPE_RELAX : Z := Z.shiftl 1 1.
Definition FRAME_ALLOCATION_TYPE_BLOCK : Z := Z.shiftl 1 2.
Definition FRAME_ALLOCATION_TYPE_UNDER_4G : Z := Z.shiftl 1 3.
Definition FRAME_ALLOCATION_TYPE_USED : Z := Z.shiftl 1 7.
Definition FRAME_ALLOCATION_TYPE_RESERVED : Z := Z.shiftl 1 8.
Definition FRAME_ALLOCATION_TYPE_OLD_RESERVED : Z := Z.shiftl 1 15.

(** [frame_t]: [frame_count] frames of 4 KiB from [frame_address] on. *)
Record frame_t := mk_frame {
  frame_address : Z;
  frame_count : Z;
  frame_type : frame_type_t;
  frame_attributes : Z;
}.

#[export] Instance frame_eq_dec : EqDecision frame_t.
Proof. solve_decision. Defined.

(** The members of [frame_allocator_t] that the paging code calls.
    [allocate_frame_by_count] answers [None] when the C function returns a
    value different from 0, and the allocated block otherwise. *)
Class FrameAllocatorOps (A : Type) := {
  allocate_frame_by_count : A -> Z -> Z -> option (frame_t * A);
  release_frame : A -> frame_t -> Z * A;
}.
