(* ===== verification/Paging.v ===== *)
(** * Page tables ([cc/memory/paging.64.c], [includes/memory/paging.h])

    The four-level page table code of the kernel build
    ([___KERNELBUILD == 1]): mapping, unmapping, attribute changes and
    translation, with the cache of frames from which new tables are taken. *)

From S2P Require Import Prelude Frame.

(** ** Constants and macros of [paging.h] *)

Definition MEMORY_PAGING_INDEX_COUNT : Z := 512.
Definition MEMORY_PAGING_PAGE_SIZE : Z := 0x1000.
Definition MEMORY_PAGING_INTERNAL_FRAMES_MAX_COUNT : Z := 0x200.
Definition MEMORY_PAGING_PAGE_LENGTH_4K : Z := Z.shiftl 1 12.
Definition MEMORY_PAGING_PAGE_LENGTH_2M : Z := Z.shiftl 1 21.

Definition MEMORY_PAGING_PAGE_TYPE_4K : Z := Z.shiftl 1 0.
Definition MEMORY_PAGING_PAGE_TYPE_2M : Z := Z.shiftl 1 1.
Definition MEMORY_PAGING_PAGE_TYPE_1G : Z := Z.shiftl 1 2.
Definition MEMORY_PAGING_PAGE_TYPE_READONLY : Z := Z.shiftl 1 4.
Definition MEMORY_PAGING_PAGE_TYPE_NOEXEC : Z := Z.shiftl 1 5.
Definition MEMORY_PAGING_PAGE_TYPE_USER_ACCESSIBLE : Z := Z.shiftl 1 6.
Definition MEMORY_PAGING_PAGE_TYPE_WRITE_THROUGH : Z := Z.shiftl 1 7.
Definition MEMORY_PAGING_PAGE_TYPE_DISABLE_CACHE : Z := Z.shiftl 1 8.
Definition MEMORY_PAGING_PAGE_TYPE_GLOBAL : Z := Z.shiftl 1 9.

Definition MEMORY_PAGING_CLEAR_TYPE_DIRTY : Z := 1.
Definition MEMORY_PAGING_CLEAR_TYPE_ACCESSED : Z := 2.

Definition MEMORY_PT_GET_P4_INDEX (v : Z) : Z := Z.land (Z.shiftr v 39) 0x1FF.
Definition MEMORY_PT_GET_P3_INDEX (v : Z) : Z := Z.land (Z.shiftr v 30) 0x1FF.
Definition MEMORY_PT_GET_P2_INDEX (v : Z) : Z := Z.land (Z.shiftr v 21) 0x1FF.
Definition MEMORY_PT_GET_P1_INDEX (v : Z) : Z := Z.land (Z.shiftr v 12) 0x1FF.

Definition MEMORY_PAGING_GET_FA_FOR_RESERVED_VA (va : Z) : Z :=
  Z.land (Z.shiftl 64 40 - 1) va.
Definition MEMORY_PAGING_GET_VA_FOR_RESERVED_FA (fa : Z) : Z :=
  Z.lor (Z.shiftl 64 40) fa.

(** ** Data *)

(** [memory_page_entry_t]: the bit-fields of a 64-bit entry.  The fourteen
    bits available to the system are one field, no operation reads them. *)
Record memory_page_entry_t := mk_entry {
  present : bool;
  writable : bool;
  user_accessible : bool;
  write_through_caching : bool;
  disable_cache : bool;
  accessed : bool;
  dirty : bool;
  hugepage : bool;
  global : bool;
  os_avail : Z;
  physical_address : Z;
  no_execute : bool;
}.

(** An entry after [memory_memclean(&t->pages[i], sizeof(memory_page_entry_t))]. *)
Definition zero_entry : memory_page_entry_t :=
  mk_entry false false false false false false false false false 0 0 false.

(** Assignments to the bit-fields.  [physical_address] is 40 bits wide. *)
Definition set_present (e : memory_page_entry_t) (b : bool) :=
  mk_entry b (writable e) (user_accessible e) (write_through_caching e)
    (disable_cache e) (accessed e) (dirty e) (hugepage e) (global e)
    (os_avail e) (physical_address e) (no_execute e).
Definition set_writable (e : memory_page_entry_t) (b : bool) :=
  mk_entry (present e) b (user_accessible e) (write_through_caching e)
    (disable_cache e) (accessed e) (dirty e) (hugepage e) (global e)
    (os_avail e) (physical_address e) (no_execute e).
Definition set_user_accessible (e : memory_page_entry_t) (b : bool) :=
  mk_entry (present e) (writable e) b (write_through_caching e)
    (disable_cache e) (accessed e) (dirty e) (hugepage e) (global e)
    (os_avail e) (physical_address e) (no_execute e).
Definition set_write_through_caching (e : memory_page_entry_t) (b : bool) :=
  mk_entry (present e) (writable e) (user_accessible e) b
    (disable_cache e) (accessed e) (dirty e) (hugepage e) (global e)
    (os_avail e) (physical_address e) (no_execute e).
Definition set_disable_cache (e : memory_page_entry_t) (b : bool) :=
  mk_entry (present e) (writable e) (user_accessible e) (write_through_caching e)
    b (accessed e) (dirty e) (hugepage e) (global e)
    (os_avail e) (physical_address e) (no_execute e).
Definition set_accessed (e : memory_page_entry_t) (b : bool) :=
  mk_entry (present e) (writable e) (user_accessible e) (write_through_caching e)
    (disable_cache e) b (dirty e) (hugepage e) (global e)
    (os_avail e) (physical_address e) (no_execute e).
Definition set_dirty (e : memory_page_entry_t) (b : bool) :=
  mk_entry (present e) (writable e) (user_accessible e) (write_through_caching e)
    (disable_cache e) (accessed e) b (hugepage e) (global e)
    (os_avail e) (physical_address e) (no_execute e).
Definition set_hugepage (e : memory_page_entry_t) (b : bool) :=
  mk_entry (present e) (writable e) (user_accessible e) (write_through_caching e)
    (disable_cache e) (accessed e) (dirty e) b (global e)
    (os_avail e) (physical_address e) (no_execute e).
Definition set_global (e : memory_page_entry_t) (b : bool) :=
  mk_entry (present e) (writable e) (user_accessible e) (write_through_caching e)
    (disable_cache e) (accessed e) (dirty e) (hugepage e) b
    (os_avail e) (physical_address e) (no_execute e).
Definition set_physical_address (e : memory_page_entry_t) (v : Z) :=
  mk_entry (present e) (writable e) (user_accessible e) (write_through_caching e)
    (disable_cache e) (accessed e) (dirty e) (hugepage e) (global e)
    (os_avail e) (v mod 2 ^ 40) (no_execute e).
Definition set_no_execute (e : memory_page_entry_t) (b : bool) :=
  mk_entry (present e) (writable e) (user_accessible e) (write_through_caching e)
    (disable_cache e) (accessed e) (dirty e) (hugepage e) (global e)
    (os_avail e) (physical_address e) b.

(** The memory that holds page tables: from the pointer to a table
    ([memory_page_table_t*], a virtual address of the reserved window) to its
    entries by index.  A missing entry reads as zero. *)
Abbreviation memory := (gmap Z (gmap Z memory_page_entry_t)).

Definition read (m : memory) (t i : Z) : memory_page_entry_t :=
  default zero_entry (default ∅ (m !! t) !! i).
Definition write (m : memory) (t i : Z) (e : memory_page_entry_t) : memory :=
  <[t := <[i := e]> (default ∅ (m !! t))]> m.
(** [memory_memclean(t, FRAME_SIZE)]. *)
Definition memclean_table (m : memory) (t : Z) : memory := <[t := ∅]> m.

Inductive memory_paging_internal_frame_init_state_t :=
| INIT_STATE_UNINITIALIZED
| INIT_STATE_INITIALIZING
| INIT_STATE_INITIALIZED.

Record memory_page_table_context_t := mk_context {
  page_table : Z;
  internal_frame_init_state : memory_paging_internal_frame_init_state_t;
  internal_frames_1_current : Z;
  internal_frames_1_start : Z;
  internal_frames_1_count : Z;
  internal_frames_2_start : Z;
  internal_frames_2_count : Z;
  internal_frames_helper_frame : Z;
}.

(** The state of the paging code: the memory of the tables, the context the
    operation works on, and the allocator behind [frame_get_allocator()]. *)
Record paging_state (A : Type) := mk_paging {
  mem : memory;
  ctx : memory_page_table_context_t;
  alloc : A;
}.
Arguments mk_paging {A} mem ctx alloc.
Arguments mem {A} p.
Arguments ctx {A} p.
Arguments alloc {A} p.

(** [x.physical_address << 12] on the 40-bit bit-field itself.  The precision
    in which a C implementation evaluates the shift is its own choice: gcc
    keeps the width of the bit-field (40), clang converts to the declared type
    (64).  Code that first copies the field into a [uint64_t] shifts in 64
    bits in both. *)
Class BitfieldPrecision := {
  bf_prec : Z;
  bf_prec_range : 40 <= bf_prec <= 64;
}.

Section Operations.
Context `{BF : BitfieldPrecision} {A : Type} `{FA : FrameAllocatorOps A}.

Definition shl12 (v : Z) : Z := Z.shiftl v 12 mod 2 ^ bf_prec.

(** The pointer to the table a (present) entry refers to, as the walking
    operations compute it. *)
Definition entry_table (e : memory_page_entry_t) : Z :=
  MEMORY_PAGING_GET_VA_FOR_RESERVED_FA (shl12 (physical_address e)).

(** The same in [memory_paging_add_page_ext], through [uint64_t tmp_pa]. *)
Definition entry_table64 (e : memory_page_entry_t) : Z :=
  MEMORY_PAGING_GET_VA_FOR_RESERVED_FA (u64 (Z.shiftl (physical_address e) 12)).

Abbreviation state := (paging_state A).
Abbreviation M := (cmd state).

Definition write_entry (t i : Z) (e : memory_page_entry_t) : M unit :=
  s ← get_state; put_state (mk_paging (write (mem s) t i e) (ctx s) (alloc s)).
Definition read_entry (t i : Z) : M memory_page_entry_t :=
  s ← get_state; mret (read (mem s) t i).
Definition clean_table (t : Z) : M unit :=
  s ← get_state; put_state (mk_paging (memclean_table (mem s) t) (ctx s) (alloc s)).
Definition set_ctx (c : memory_page_table_context_t) : M unit :=
  s ← get_state; put_state (mk_paging (mem s) c (alloc s)).
Definition set_alloc (a : A) : M unit :=
  s ← get_state; put_state (mk_paging (mem s) (ctx s) a).

(** *** Adding a page *)

(** The attribute bits of a leaf entry, from the page type flags. *)
Definition leaf_attributes (e : memory_page_entry_t) (type : Z) : memory_page_entry_t :=
  let e := set_writable e (negb (flag_set type MEMORY_PAGING_PAGE_TYPE_READONLY)) in
  let e := set_no_execute e (flag_set type MEMORY_PAGING_PAGE_TYPE_NOEXEC) in
  let e := set_user_accessible e (flag_set type MEMORY_PAGING_PAGE_TYPE_USER_ACCESSIBLE) in
  let e := set_write_through_caching e (flag_set type MEMORY_PAGING_PAGE_TYPE_WRITE_THROUGH) in
  let e := set_disable_cache e (flag_set type MEMORY_PAGING_PAGE_TYPE_DISABLE_CACHE) in
  set_global e (flag_set type MEMORY_PAGING_PAGE_TYPE_GLOBAL).

(** A new table for entry [i] of [t]: a frame of the cache, cleaned and
    linked.  The other bits of the entry keep their value. *)
Definition new_table (get_internal_frame : M Z) (t i : Z) : M Z :=
  p_addr ← get_internal_frame;
  let t_p := MEMORY_PAGING_GET_VA_FOR_RESERVED_FA p_addr in
  clean_table t_p ;;
  e ← read_entry t i;
  write_entry t i
    (set_physical_address (set_writable (set_present e true) true) (Z.shiftr p_addr 12)) ;;
  mret t_p.

(** Lowest level: a present entry is left alone. *)
Definition add_page_p1 (t_p1 virtual_address frame_address type : Z) : M Z :=
  let p1idx := MEMORY_PT_GET_P1_INDEX virtual_address in
  if MEMORY_PAGING_INDEX_COUNT <=? p1idx then mret (-1) else
  e ← read_entry t_p1 p1idx;
  if negb (present e) then
    write_entry t_p1 p1idx
      (set_physical_address (leaf_attributes (set_present e true) type)
         (Z.shiftr frame_address 12)) ;;
    mret 0
  else mret 0.

Definition add_page_p2 (get_internal_frame : M Z)
    (t_p2 virtual_address frame_address type : Z) : M Z :=
  let p2idx := MEMORY_PT_GET_P2_INDEX virtual_address in
  if MEMORY_PAGING_INDEX_COUNT <=? p2idx then mret (-1) else
  e ← read_entry t_p2 p2idx;
  if negb (present e) then
    if flag_set type MEMORY_PAGING_PAGE_TYPE_2M then
      write_entry t_p2 p2idx
        (set_physical_address
           (leaf_attributes (set_hugepage (set_present e true) true) type)
           (Z.land (Z.shiftr frame_address 12) 0xFFFFFFFE00)) ;;
      mret 0
    else
      t_p1 ← new_table get_internal_frame t_p2 p2idx;
      add_page_p1 t_p1 virtual_address frame_address type
  else
    if flag_set type MEMORY_PAGING_PAGE_TYPE_2M then mret 0
    else add_page_p1 (entry_table64 e) virtual_address frame_address type.

Definition add_page_p3 (get_internal_frame : M Z)
    (t_p3 virtual_address frame_address type : Z) : M Z :=
  let p3idx := MEMORY_PT_GET_P3_INDEX virtual_address in
  if MEMORY_PAGING_INDEX_COUNT <=? p3idx then mret (-1) else
  e ← read_entry t_p3 p3idx;
  if negb (present e) then
    if flag_set type MEMORY_PAGING_PAGE_TYPE_1G then
      write_entry t_p3 p3idx
        (set_physical_address
           (leaf_attributes (set_hugepage (set_present e true) true) type)
           (Z.land (Z.shiftr frame_address 12) 0xFFFFFC0000)) ;;
      mret 0
    else
      t_p2 ← new_table get_internal_frame t_p3 p3idx;
      add_page_p2 get_internal_frame t_p2 virtual_address frame_address type
  else
    if flag_set type MEMORY_PAGING_PAGE_TYPE_1G then mret 0
    else add_page_p2 get_internal_frame (entry_table64 e) virtual_address frame_address type.

(** [memory_paging_add_page_ext] with the context already resolved. *)
Definition memory_paging_add_page_ext (get_internal_frame : M Z)
    (virtual_address frame_address type : Z) : M Z :=
  s ← get_state;
  let p4 := page_table (ctx s) in
  let p4idx := MEMORY_PT_GET_P4_INDEX virtual_address in
  if MEMORY_PAGING_INDEX_COUNT <=? p4idx then mret (-1) else
  e ← read_entry p4 p4idx;
  if negb (present e) then
    t_p3 ← new_table get_internal_frame p4 p4idx;
    add_page_p3 get_internal_frame t_p3 virtual_address frame_address type
  else
    add_page_p3 get_internal_frame (entry_table64 e) virtual_address frame_address type.

(** *** Mapping a block of frames *)

(** The loop of [memory_paging_add_va_for_frame_ext]; every iteration takes at
    least one frame off [frm_cnt], so [Z.to_nat frm_cnt] iterations suffice. *)
Fixpoint add_va_loop (fuel : nat) (add_page : Z -> Z -> Z -> M Z)
    (va_start frm_addr frm_cnt type : Z) : M Z :=
  match fuel with
  | O => if frm_cnt =? 0 then mret 0 else out_of_fuel
  | S fuel =>
    if frm_cnt =? 0 then mret 0
    else if (0x200 <=? frm_cnt)
         && (frm_addr mod MEMORY_PAGING_PAGE_LENGTH_2M =? 0)
         && (va_start mod MEMORY_PAGING_PAGE_LENGTH_2M =? 0) then
      r ← add_page va_start frm_addr (Z.lor type MEMORY_PAGING_PAGE_TYPE_2M);
      if negb (r =? 0) then mret (-1)
      else add_va_loop fuel add_page
             (u64 (va_start + MEMORY_PAGING_PAGE_LENGTH_2M))
             (u64 (frm_addr + MEMORY_PAGING_PAGE_LENGTH_2M))
             (frm_cnt - 0x200) type
    else
      r ← add_page va_start frm_addr (Z.lor type MEMORY_PAGING_PAGE_TYPE_4K);
      if negb (r =? 0) then mret (-1)
      else add_va_loop fuel add_page
             (u64 (va_start + MEMORY_PAGING_PAGE_LENGTH_4K))
             (u64 (frm_addr + MEMORY_PAGING_PAGE_LENGTH_4K))
             (frm_cnt - 1) type
  end.

Definition memory_paging_add_va_for_frame_ext (add_page : Z -> Z -> Z -> M Z)
    (va_start : Z) (frm : frame_t) (type : Z) : M Z :=
  add_va_loop (Z.to_nat (frame_count frm)) add_page
    va_start (frame_address frm) (frame_count frm) type.

(** *** The cache of frames for new tables *)

(** [memory_memclean(va, count * FRAME_SIZE)] on frames that hold tables. *)
Fixpoint clean_tables (n : nat) (va : Z) : M unit :=
  match n with
  | O => mret tt
  | S n => clean_table va ;; clean_tables n (va + FRAME_SIZE)
  end.

Definition memory_paging_internal_frame_build
    (add_va_for_frame : Z -> frame_t -> Z -> M Z) : M unit :=
  s ← get_state;
  match allocate_frame_by_count (alloc s) MEMORY_PAGING_INTERNAL_FRAMES_MAX_COUNT
          (Z.lor FRAME_ALLOCATION_TYPE_BLOCK FRAME_ALLOCATION_TYPE_RESERVED) with
  | None => cpu_hlt
  | Some (internal_frms, a') =>
    set_alloc a' ;;
    let c := ctx s in
    set_ctx (mk_context (page_table c) (internal_frame_init_state c)
      (internal_frames_1_current c) (internal_frames_1_start c)
      (internal_frames_1_count c) (frame_address internal_frms)
      MEMORY_PAGING_INTERNAL_FRAMES_MAX_COUNT (internal_frames_helper_frame c)) ;;
    r ← add_va_for_frame
          (MEMORY_PAGING_GET_VA_FOR_RESERVED_FA (frame_address internal_frms))
          internal_frms MEMORY_PAGING_PAGE_TYPE_NOEXEC;
    if negb (r =? 0) then cpu_hlt else
    s ← get_state;
    clean_tables (Z.to_nat (internal_frames_2_count (ctx s)))
      (MEMORY_PAGING_GET_VA_FOR_RESERVED_FA (internal_frames_2_start (ctx s)))
  end.

(** Take the first frame of the first cache. *)
Definition take_internal_frame : M Z :=
  s ← get_state;
  let c := ctx s in
  set_ctx (mk_context (page_table c) (internal_frame_init_state c)
    (u64 (internal_frames_1_current c + MEMORY_PAGING_PAGE_SIZE))
    (internal_frames_1_start c) (u64 (internal_frames_1_count c - 1))
    (internal_frames_2_start c) (internal_frames_2_count c)
    (internal_frames_helper_frame c)) ;;
  mret (internal_frames_1_current c).

(** Refill of the second cache, and on the first use of both. *)
Definition refill_internal_frames (build : M unit) : M unit :=
  s ← get_state;
  let c := ctx s in
  (match internal_frame_init_state c with
   | INIT_STATE_UNINITIALIZED =>
     set_ctx (mk_context (page_table c) INIT_STATE_INITIALIZING
       (internal_frames_1_current c) (internal_frames_1_start c)
       (internal_frames_1_count c) (internal_frames_2_start c)
       (internal_frames_2_count c) (internal_frames_helper_frame c))
   | _ => mret tt
   end) ;;
  build ;;
  s ← get_state;
  let c := ctx s in
  match internal_frame_init_state c with
  | INIT_STATE_INITIALIZING =>
    set_ctx (mk_context (page_table c) INIT_STATE_INITIALIZED
      (internal_frames_2_start c) (internal_frames_2_start c)
      (internal_frames_2_count c) (internal_frames_2_start c)
      (internal_frames_2_count c) (internal_frames_helper_frame c)) ;;
    build ;;
    s ← get_state;
    let c := ctx s in
    set_ctx (mk_context (page_table c) (internal_frame_init_state c)
      (u64 (internal_frames_1_current c + 4 * MEMORY_PAGING_PAGE_SIZE))
      (internal_frames_1_start c) (u64 (internal_frames_1_count c - 4))
      (internal_frames_2_start c) (internal_frames_2_count c)
      (internal_frames_1_current c))
  | _ => mret tt
  end.

(** [memory_paging_get_internal_frame].  Refilling the cache maps the new
    frames, which may need tables again: the recursion runs on [fuel]. *)
Fixpoint memory_paging_get_internal_frame (fuel : nat) : M Z :=
  s ← get_state;
  let c := ctx s in
  match internal_frame_init_state c with
  | INIT_STATE_INITIALIZING =>
    set_ctx (mk_context (page_table c) (internal_frame_init_state c)
      (internal_frames_1_current c) (internal_frames_1_start c)
      (internal_frames_1_count c) (internal_frames_2_start c)
      (internal_frames_2_count c)
      (u64 (internal_frames_helper_frame c + MEMORY_PAGING_PAGE_SIZE))) ;;
    mret (internal_frames_helper_frame c)
  | _ =>
    (if internal_frames_1_count c =? 0 then
       set_ctx (mk_context (page_table c) (internal_frame_init_state c)
         (internal_frames_2_start c) (internal_frames_2_start c)
         (internal_frames_2_count c) 0 0 (internal_frames_helper_frame c))
     else mret tt) ;;
    s ← get_state;
    if internal_frames_1_count (ctx s) <? 16 then
      match fuel with
      | O => out_of_fuel
      | S fuel =>
        refill_internal_frames
          (memory_paging_internal_frame_build
             (memory_paging_add_va_for_frame_ext
                (memory_paging_add_page_ext (memory_paging_get_internal_frame fuel)))) ;;
        take_internal_frame
      end
    else take_internal_frame
  end.

Definition memory_paging_add_page (fuel : nat) (virtual_address frame_address type : Z) : M Z :=
  memory_paging_add_page_ext (memory_paging_get_internal_frame fuel)
    virtual_address frame_address type.

Definition memory_paging_add_va_for_frame (fuel : nat)
    (va_start : Z) (frm : frame_t) (type : Z) : M Z :=
  memory_paging_add_va_for_frame_ext (memory_paging_add_page fuel) va_start frm type.

(** *** Translation: [memory_paging_get_physical_address_ext]

    [None] is the return value -1, [Some pa] the return value 0 with
    [*physical_address = pa]. *)
Definition memory_paging_get_physical_address_ext
    (m : memory) (p4 : Z) (virtual_address : Z) : option Z :=
  let p4_idx := MEMORY_PT_GET_P4_INDEX virtual_address in
  if MEMORY_PAGING_INDEX_COUNT <=? p4_idx then None else
  let e4 := read m p4 p4_idx in
  if negb (present e4) then None else
  let t_p3 := entry_table e4 in
  let p3_idx := MEMORY_PT_GET_P3_INDEX virtual_address in
  if MEMORY_PAGING_INDEX_COUNT <=? p3_idx then None else
  let e3 := read m t_p3 p3_idx in
  if negb (present e3) then None else
  if hugepage e3 then
    let p1_idx := MEMORY_PT_GET_P1_INDEX virtual_address in
    let p2_idx := MEMORY_PT_GET_P2_INDEX virtual_address in
    Some (Z.lor (u64 (Z.shiftl (Z.lor (Z.lor (physical_address e3) (Z.shiftl p2_idx 12)) p1_idx) 12))
            (Z.land virtual_address (Z.shiftl 1 30 - 1)))
  else
  let t_p2 := entry_table e3 in
  let p2_idx := MEMORY_PT_GET_P2_INDEX virtual_address in
  if MEMORY_PAGING_INDEX_COUNT <=? p2_idx then None else
  let e2 := read m t_p2 p2_idx in
  if negb (present e2) then None else
  if hugepage e2 then
    let p1_idx := MEMORY_PT_GET_P1_INDEX virtual_address in
    Some (Z.lor (u64 (Z.shiftl (Z.lor (physical_address e2) p1_idx) 12))
            (Z.land virtual_address (Z.shiftl 1 21 - 1)))
  else
  let t_p1 := entry_table e2 in
  let p1_idx := MEMORY_PT_GET_P1_INDEX virtual_address in
  if MEMORY_PAGING_INDEX_COUNT <=? p1_idx then None else
  let e1 := read m t_p1 p1_idx in
  if negb (present e1) then None else
  Some (Z.lor (shl12 (physical_address e1)) (Z.land virtual_address (Z.shiftl 1 12 - 1))).

(** *** Deleting a page: [memory_paging_delete_page_ext_with_heap]

    [None] is the return value -1, [Some fa] the return value 0 with
    [*frame_address = fa]. *)

(** The loops over the 512 entries that set [p1_used], [p2_used], [p3_used]. *)
Definition table_used (m : memory) (t : Z) : bool :=
  existsb (fun i => present (read m t i)) (seqZ 0 MEMORY_PAGING_INDEX_COUNT).

(** A table without present entries is unlinked from entry [i] of [t] and its
    frame goes back to the allocator. *)
Definition release_if_unused (t i t_child : Z) : M unit :=
  s ← get_state;
  if table_used (mem s) t_child then mret tt else
  write_entry t i zero_entry ;;
  s ← get_state;
  set_alloc (snd (release_frame (alloc s)
    (mk_frame (MEMORY_PAGING_GET_FA_FOR_RESERVED_VA t_child) 1 FRAME_TYPE_FREE 0))).

Definition delete_page_p1 (t_p2 p2_idx t_p1 virtual_address : Z) : M (option Z) :=
  let p1_idx := MEMORY_PT_GET_P1_INDEX virtual_address in
  if MEMORY_PAGING_INDEX_COUNT <=? p1_idx then mret None else
  e1 ← read_entry t_p1 p1_idx;
  if negb (present e1) then mret None else
  write_entry t_p1 p1_idx zero_entry ;;
  release_if_unused t_p2 p2_idx t_p1 ;;
  mret (Some (shl12 (physical_address e1))).

Definition delete_page_p2 (t_p3 p3_idx t_p2 virtual_address : Z) : M (option Z) :=
  let p2_idx := MEMORY_PT_GET_P2_INDEX virtual_address in
  if MEMORY_PAGING_INDEX_COUNT <=? p2_idx then mret None else
  e2 ← read_entry t_p2 p2_idx;
  if negb (present e2) then mret None else
  r ← (if hugepage e2 then
         write_entry t_p2 p2_idx zero_entry ;;
         mret (Some (shl12 (physical_address e2)))
       else delete_page_p1 t_p2 p2_idx (entry_table e2) virtual_address);
  match r with
  | None => mret None
  | Some fa => release_if_unused t_p3 p3_idx t_p2 ;; mret (Some fa)
  end.

Definition memory_paging_delete_page_ext (virtual_address : Z) : M (option Z) :=
  s ← get_state;
  let p4 := page_table (ctx s) in
  let p4_idx := MEMORY_PT_GET_P4_INDEX virtual_address in
  if MEMORY_PAGING_INDEX_COUNT <=? p4_idx then mret None else
  e4 ← read_entry p4 p4_idx;
  if negb (present e4) then mret None else
  let t_p3 := entry_table e4 in
  let p3_idx := MEMORY_PT_GET_P3_INDEX virtual_address in
  if MEMORY_PAGING_INDEX_COUNT <=? p3_idx then mret None else
  e3 ← read_entry t_p3 p3_idx;
  if negb (present e3) then mret None else
  r ← (if hugepage e3 then
         write_entry t_p3 p3_idx zero_entry ;;
         mret (Some (shl12 (physical_address e3)))
       else delete_page_p2 t_p3 p3_idx (entry_table e3) virtual_address);
  match r with
  | None => mret None
  | Some fa => release_if_unused p4 p4_idx t_p3 ;; mret (Some fa)
  end.

(** [memory_paging_delete_va_for_frame_ext]: like the mapping loop. *)
Fixpoint delete_va_loop (fuel : nat) (va_start frm_addr frm_cnt : Z) : M Z :=
  match fuel with
  | O => if frm_cnt =? 0 then mret 0 else out_of_fuel
  | S fuel =>
    if frm_cnt =? 0 then mret 0
    else
      r ← memory_paging_delete_page_ext va_start;
      match r with
      | None => mret (-1)
      | Some _ =>
        if (0x200 <=? frm_cnt)
           && (frm_addr mod MEMORY_PAGING_PAGE_LENGTH_2M =? 0)
           && (va_start mod MEMORY_PAGING_PAGE_LENGTH_2M =? 0)
        then delete_va_loop fuel
               (u64 (va_start + MEMORY_PAGING_PAGE_LENGTH_2M))
               (u64 (frm_addr + MEMORY_PAGING_PAGE_LENGTH_2M)) (frm_cnt - 0x200)
        else delete_va_loop fuel
               (u64 (va_start + MEMORY_PAGING_PAGE_LENGTH_4K))
               (u64 (frm_addr + MEMORY_PAGING_PAGE_LENGTH_4K)) (frm_cnt - 1)
      end
  end.

Definition memory_paging_delete_va_for_frame_ext (va_start : Z) (frm : frame_t) : M Z :=
  delete_va_loop (Z.to_nat (frame_count frm)) va_start (frame_address frm) (frame_count frm).

(** *** Changing attributes

    The three operations walk down to the leaf of an address and rewrite
    entries on the way.  [f_table] is what happens to the entries that refer to
    tables, [f_leaf] to the leaf.  The result is the
    return value and the memory; entries changed before a failure stay
    changed.  The [invlpg] instructions have no counterpart in the model. *)
Definition walk_update (f_table f_leaf : memory_page_entry_t -> memory_page_entry_t)
    (m : memory) (p4 virtual_address : Z) : Z * memory :=
  let p4_idx := MEMORY_PT_GET_P4_INDEX virtual_address in
  if MEMORY_PAGING_INDEX_COUNT <=? p4_idx then (-1, m) else
  let e4 := read m p4 p4_idx in
  if negb (present e4) then (-1, m) else
  let m := write m p4 p4_idx (f_table e4) in
  let t_p3 := entry_table (read m p4 p4_idx) in
  let p3_idx := MEMORY_PT_GET_P3_INDEX virtual_address in
  if MEMORY_PAGING_INDEX_COUNT <=? p3_idx then (-1, m) else
  let e3 := read m t_p3 p3_idx in
  if negb (present e3) then (-1, m) else
  if hugepage e3 then (0, write m t_p3 p3_idx (f_leaf e3)) else
  let m := write m t_p3 p3_idx (f_table e3) in
  let t_p2 := entry_table (read m t_p3 p3_idx) in
  let p2_idx := MEMORY_PT_GET_P2_INDEX virtual_address in
  if MEMORY_PAGING_INDEX_COUNT <=? p2_idx then (-1, m) else
  let e2 := read m t_p2 p2_idx in
  if negb (present e2) then (-1, m) else
  if hugepage e2 then (0, write m t_p2 p2_idx (f_leaf e2)) else
  let m := write m t_p2 p2_idx (f_table e2) in
  let t_p1 := entry_table (read m t_p2 p2_idx) in
  let p1_idx := MEMORY_PT_GET_P1_INDEX virtual_address in
  if MEMORY_PAGING_INDEX_COUNT <=? p1_idx then (-1, m) else
  let e1 := read m t_p1 p1_idx in
  if negb (present e1) then (-1, m) else
  (0, write m t_p1 p1_idx (f_leaf e1)).

(** [memory_paging_clear_page_ext]. *)
Definition clear_bits (type : Z) (e : memory_page_entry_t) : memory_page_entry_t :=
  let e := if flag_set type MEMORY_PAGING_CLEAR_TYPE_DIRTY then set_dirty e false else e in
  if flag_set type MEMORY_PAGING_CLEAR_TYPE_ACCESSED then set_accessed e false else e.

Definition memory_paging_clear_page_ext (m : memory) (p4 virtual_address type : Z) : Z * memory :=
  walk_update id (clear_bits type) m p4 virtual_address.

(** [memory_paging_toggle_attributes_ext]. *)
Definition toggle_user (type : Z) (e : memory_page_entry_t) : memory_page_entry_t :=
  if flag_set type MEMORY_PAGING_PAGE_TYPE_USER_ACCESSIBLE
  then set_user_accessible e (negb (user_accessible e)) else e.

Definition toggle_writable (type : Z) (e : memory_page_entry_t) : memory_page_entry_t :=
  if flag_set type MEMORY_PAGING_PAGE_TYPE_READONLY
  then set_writable e (negb (writable e)) else e.
Definition toggle_no_execute (type : Z) (e : memory_page_entry_t) : memory_page_entry_t :=
  if flag_set type MEMORY_PAGING_PAGE_TYPE_NOEXEC
  then set_no_execute e (negb (no_execute e)) else e.
Definition toggle_write_through (type : Z) (e : memory_page_entry_t) : memory_page_entry_t :=
  if flag_set type MEMORY_PAGING_PAGE_TYPE_WRITE_THROUGH
  then set_write_through_caching e (negb (write_through_caching e)) else e.
Definition toggle_disable_cache (type : Z) (e : memory_page_entry_t) : memory_page_entry_t :=
  if flag_set type MEMORY_PAGING_PAGE_TYPE_DISABLE_CACHE
  then set_disable_cache e (negb (disable_cache e)) else e.
Definition toggle_global (type : Z) (e : memory_page_entry_t) : memory_page_entry_t :=
  if flag_set type MEMORY_PAGING_PAGE_TYPE_GLOBAL
  then set_global e (negb (global e)) else e.

(** The leaf: all six attributes, in the order of the code. *)
Definition toggle_bits (type : Z) (e : memory_page_entry_t) : memory_page_entry_t :=
  toggle_global type (toggle_disable_cache type (toggle_write_through type
    (toggle_user type (toggle_no_execute type (toggle_writable type e))))).

Definition memory_paging_toggle_attributes_ext
    (m : memory) (p4 virtual_address type : Z) : Z * memory :=
  walk_update (toggle_user type) (toggle_bits type) m p4 virtual_address.

(** [memory_paging_set_user_accessible_ext]. *)
Definition memory_paging_set_user_accessible_ext
    (m : memory) (p4 virtual_address : Z) : Z * memory :=
  walk_update (fun e => set_user_accessible e true) (fun e => set_user_accessible e true)
    m p4 virtual_address.

End Operations.
