(* ===== verification/PagingTheory.v ===== *)
(** * Page tables as trees: invariant and one-slot updates

    The memory of the tables is read as a tree of paths of indices.  [wf] is
    the invariant of a page table, [slot_write] and [link_table] describe the
    only two kinds of update the operations of [Paging] perform: replacing one
    entry, and hanging a fresh empty table into an absent entry. *)

From S2P Require Import Prelude Frame Paging.

(** ** Reads after writes *)

Lemma read_write_eq m t i e : read (write m t i e) t i = e.
Proof. unfold read, write. by rewrite lookup_insert_eq; simpl; rewrite lookup_insert_eq. Qed.

Lemma read_write_ne m t i e t' i' :
  (t, i) <> (t', i') -> read (write m t i e) t' i' = read m t' i'.
Proof.
  intros Hne. unfold read, write. destruct (decide (t = t')) as [->|Ht].
  - rewrite lookup_insert_eq; simpl. rewrite lookup_insert_ne; [done|congruence].
  - by rewrite lookup_insert_ne.
Qed.

Lemma read_clean_eq m t i : read (memclean_table m t) t i = zero_entry.
Proof. unfold read, memclean_table. rewrite lookup_insert_eq; simpl. by rewrite lookup_empty. Qed.

Lemma read_clean_ne m t t' i : t <> t' -> read (memclean_table m t) t' i = read m t' i.
Proof. intros. unfold read, memclean_table. by rewrite lookup_insert_ne. Qed.

Section Theory.
Context `{BF : BitfieldPrecision}.

(** ** Paths *)

(** The table at the end of a path of indices; entries of large pages and
    absent entries end the walk. *)
Fixpoint tbl (m : memory) (t : Z) (π : list Z) : option Z :=
  match π with
  | [] => Some t
  | i :: π =>
    let e := read m t i in
    if present e && negb (hugepage e) then tbl m (entry_table e) π else None
  end.

(** The leaf an address is translated by, with the number of levels below it:
    0 for a 4K page, 1 for a 2M page, 2 for a 1G page. *)
Fixpoint xlate (m : memory) (t : Z) (ix : list Z) : option (nat * memory_page_entry_t) :=
  match ix with
  | [] => None
  | i :: ix =>
    let e := read m t i in
    if negb (present e) then None
    else match ix with
         | [] => Some (O, e)
         | _ => if hugepage e then Some (length ix, e) else xlate m (entry_table e) ix
         end
  end.

Definition vidx (i : Z) : Prop := 0 <= i < 512.
Definition vpath (π : list Z) : Prop := (length π <= 3)%nat /\ Forall vidx π.

(** The four indices of a virtual address. *)
Definition indices (va : Z) : list Z :=
  [MEMORY_PT_GET_P4_INDEX va; MEMORY_PT_GET_P3_INDEX va;
   MEMORY_PT_GET_P2_INDEX va; MEMORY_PT_GET_P1_INDEX va].

Lemma tbl_app m t π ρ : tbl m t (π ++ ρ) = (t' ← tbl m t π; tbl m t' ρ).
Proof.
  revert t; induction π as [|i π IH]; intros t; simpl; [done|].
  destruct (present _ && _); [apply IH|done].
Qed.

(** ** The invariant *)

(** Every table of the tree is reached by one path; absent entries have no
    stale large-page bit; the top level has no large pages; table and frame
    addresses are below 1 TiB. *)
Record wf (m : memory) (p4 : Z) : Prop := {
  wf_inj : forall π1 π2 t, vpath π1 -> vpath π2 ->
    tbl m p4 π1 = Some t -> tbl m p4 π2 = Some t -> π1 = π2;
  wf_absent : forall π t i, vpath π -> tbl m p4 π = Some t -> vidx i ->
    present (read m t i) = false -> hugepage (read m t i) = false;
  wf_top : forall i, vidx i -> hugepage (read m p4 i) = false;
  wf_phys : forall π t i, vpath π -> tbl m p4 π = Some t -> vidx i ->
    0 <= physical_address (read m t i) < 2 ^ 28;
}.

(** [f] points to no table of the tree. *)
Definition fresh (m : memory) (p4 f : Z) : Prop := forall π, vpath π -> tbl m p4 π <> Some f.

Lemma vpath_nil : vpath [].
Proof. split; [simpl; lia|constructor]. Qed.

Lemma vpath_app_inv π ρ : vpath (π ++ ρ) -> vpath π.
Proof.
  intros [Hl Hf]. rewrite length_app in Hl. apply Forall_app in Hf as [Hf _]. split; [lia|done].
Qed.

Lemma vpath_snoc π i : vpath π -> (length π <= 2)%nat -> vidx i -> vpath (π ++ [i]).
Proof.
  intros [Hl Hf] Hl' Hi. split; [rewrite length_app; simpl; lia|].
  apply Forall_app; split; [done|by constructor].
Qed.

(** ** Updates of one slot *)

Lemma tbl_write_other_from m p4 π t i e ρ σ t0 :
  wf m p4 -> vpath π -> tbl m p4 π = Some t ->
  vpath (ρ ++ σ) -> tbl m p4 ρ = Some t0 ->
  ~ (π ++ [i]) `prefix_of` (ρ ++ σ) ->
  tbl (write m t i e) t0 σ = tbl m t0 σ.
Proof.
  intros Hwf Hπ Ht. revert ρ t0. induction σ as [|j σ IH]; intros ρ t0 Hρσ Ht0 Hpre; [done|].
  simpl. assert ((t, i) <> (t0, j)) as Hne.
  { intros [= -> ->]. apply Hpre. assert (ρ = π) as ->.
    { eapply wf_inj; eauto using vpath_app_inv. }
    exists σ. by rewrite <- app_assoc. }
  rewrite read_write_ne by done.
  destruct (present (read m t0 j) && negb (hugepage (read m t0 j))) eqn:E; [|done].
  apply (IH (ρ ++ [j])).
  - by rewrite <- app_assoc.
  - rewrite tbl_app, Ht0; simpl. by rewrite E.
  - by rewrite <- app_assoc.
Qed.

Lemma tbl_write_other m p4 π t i e ρ :
  wf m p4 -> vpath π -> tbl m p4 π = Some t -> vpath ρ ->
  ~ (π ++ [i]) `prefix_of` ρ -> tbl (write m t i e) p4 ρ = tbl m p4 ρ.
Proof. intros. by apply (tbl_write_other_from m p4 π t i e [] ρ p4). Qed.

Lemma not_prefix_self (π : list Z) i : ~ (π ++ [i]) `prefix_of` π.
Proof. intros Hp%prefix_length. rewrite length_app in Hp. simpl in Hp. lia. Qed.

Lemma tbl_write_self m p4 π t i e :
  wf m p4 -> vpath π -> tbl m p4 π = Some t -> tbl (write m t i e) p4 π = Some t.
Proof. intros ? ? Ht. erewrite tbl_write_other; eauto using not_prefix_self. Qed.

Lemma xlate_app m t π ρ t' :
  tbl m t π = Some t' -> ρ <> [] -> xlate m t (π ++ ρ) = xlate m t' ρ.
Proof.
  intros Ht Hρ. revert t Ht; induction π as [|i π IH]; intros t Ht; simpl in *; [congruence|].
  destruct (present (read m t i)), (hugepage (read m t i)); try discriminate; simpl in *.
  rewrite <- (IH _ Ht). destruct (π ++ ρ) eqn:E; [|done].
  apply app_eq_nil in E as [_ ?]; congruence.
Qed.

Lemma xlate_write_other_from m p4 π t i e ρ σ t0 :
  wf m p4 -> vpath π -> tbl m p4 π = Some t -> Forall vidx (ρ ++ σ) ->
  (length (ρ ++ σ) <= 4)%nat -> tbl m p4 ρ = Some t0 ->
  ~ (π ++ [i]) `prefix_of` (ρ ++ σ) -> σ <> [] ->
  xlate (write m t i e) t0 σ = xlate m t0 σ.
Proof.
  intros Hwf Hπ Ht. revert ρ t0. induction σ as [|j σ IH]; intros ρ t0 Hv Hl Ht0 Hpre Hσ; [done|].
  assert (vpath ρ) as Hρ.
  { split; [rewrite length_app in Hl; simpl in Hl; lia|].
    apply Forall_app in Hv as [? _]; done. }
  simpl. assert ((t, i) <> (t0, j)) as Hne.
  { intros [= -> ->]. apply Hpre. assert (ρ = π) as -> by (eapply wf_inj; eauto).
    exists σ. by rewrite <- app_assoc. }
  rewrite read_write_ne by done.
  destruct (present (read m t0 j)) eqn:Ep; simpl; [|done].
  destruct σ as [|k σ]; [done|]. destruct (hugepage (read m t0 j)) eqn:Eh; [done|].
  apply (IH (ρ ++ [j])).
  - by rewrite <- app_assoc.
  - by rewrite <- app_assoc.
  - rewrite tbl_app, Ht0; simpl. by rewrite Ep, Eh.
  - by rewrite <- app_assoc.
  - done.
Qed.

(** Translations that do not go through the slot are unchanged. *)
Lemma xlate_write_other m p4 π t i e ix :
  wf m p4 -> vpath π -> tbl m p4 π = Some t -> Forall vidx ix -> length ix = 4%nat ->
  ~ (π ++ [i]) `prefix_of` ix ->
  xlate (write m t i e) p4 ix = xlate m p4 ix.
Proof.
  intros. apply (xlate_write_other_from m p4 π t i e [] ix p4); simpl; auto; try lia.
  by destruct ix.
Qed.

(** Translations through the slot start with its new entry. *)
Lemma xlate_write_self m p4 π t i e σ :
  wf m p4 -> vpath π -> tbl m p4 π = Some t ->
  xlate (write m t i e) p4 (π ++ i :: σ) =
  if negb (present e) then None
  else match σ with
       | [] => Some (O, e)
       | _ => if hugepage e then Some (length σ, e)
              else xlate (write m t i e) (entry_table e) σ
       end.
Proof.
  intros Hwf Hπ Ht. rewrite (xlate_app _ _ π _ t); [|by apply tbl_write_self|done].
  simpl. rewrite read_write_eq. by destruct σ.
Qed.

(** An entry that refers to no table: absent, a large page, or a 4K page. *)
Definition no_child (π : list Z) (e : memory_page_entry_t) : Prop :=
  (present e = false /\ hugepage e = false) \/
  (present e = true /\ (hugepage e = true \/ length π = 3%nat)).

Lemma no_child_blocks m p4 π t i e ρ :
  wf m p4 -> vpath π -> tbl m p4 π = Some t -> vpath ρ -> no_child π e ->
  (π ++ [i]) `prefix_of` ρ -> tbl (write m t i e) p4 ρ = None.
Proof.
  intros Hwf Hπ Ht [Hl _] Hno [σ ->]. rewrite !length_app in Hl. simpl in Hl.
  rewrite <- app_assoc, tbl_app, tbl_write_self by done. simpl. rewrite read_write_eq.
  destruct Hno as [[-> ->]|[-> [->|Hlen]]]; [done..|lia].
Qed.

Lemma write_leaf_tbl_inv m p4 π t i e ρ u :
  wf m p4 -> vpath π -> tbl m p4 π = Some t -> no_child π e -> vpath ρ ->
  tbl (write m t i e) p4 ρ = Some u -> tbl m p4 ρ = Some u.
Proof.
  intros Hwf Hπ Ht Hno Hρ Hu. destruct (decide ((π ++ [i]) `prefix_of` ρ)) as [Hp|Hp].
  - by rewrite (no_child_blocks m p4 π t i e ρ) in Hu.
  - by rewrite (tbl_write_other m p4 π t i e ρ) in Hu.
Qed.

Lemma write_leaf_fresh m p4 π t i e f :
  wf m p4 -> vpath π -> tbl m p4 π = Some t -> no_child π e ->
  fresh m p4 f -> fresh (write m t i e) p4 f.
Proof. intros ???? Hf ρ Hρ Hu. apply (Hf ρ Hρ). by eapply (write_leaf_tbl_inv m p4 π t i e). Qed.

Lemma wf_write_leaf m p4 π t i e :
  wf m p4 -> vpath π -> vidx i -> tbl m p4 π = Some t -> no_child π e ->
  (π = [] -> hugepage e = false) -> 0 <= physical_address e < 2 ^ 28 ->
  wf (write m t i e) p4.
Proof.
  intros Hwf Hπ Hi Ht Hno Htop Hph. split.
  - intros π1 π2 u H1 H2 E1 E2.
    apply (wf_inj _ _ Hwf π1 π2 u); [done|done|..]; by eapply (write_leaf_tbl_inv m p4 π t i e).
  - intros ρ u j Hρ Hu Hj. apply (write_leaf_tbl_inv m p4 π t i e) in Hu; [|done..].
    destruct (decide ((t, i) = (u, j))) as [[= -> ->]|Hne].
    + rewrite read_write_eq. destruct Hno as [[_ ?]|[? _]]; congruence.
    + rewrite read_write_ne by done. by eapply wf_absent.
  - intros j Hj. destruct (decide ((t, i) = (p4, j))) as [[= -> ->]|Hne].
    + rewrite read_write_eq. apply Htop. eapply wf_inj; eauto using vpath_nil.
    + rewrite read_write_ne by done. by apply wf_top.
  - intros ρ u j Hρ Hu Hj. apply (write_leaf_tbl_inv m p4 π t i e) in Hu; [|done..].
    destruct (decide ((t, i) = (u, j))) as [[= -> ->]|Hne].
    + by rewrite read_write_eq.
    + rewrite read_write_ne by done. by eapply wf_phys.
Qed.

(** ** Cleaning a frame outside the tree *)

Lemma tbl_clean_from m p4 f ρ σ t0 :
  fresh m p4 f -> vpath (ρ ++ σ) -> tbl m p4 ρ = Some t0 ->
  tbl (memclean_table m f) t0 σ = tbl m t0 σ.
Proof.
  intros Hf. revert ρ t0. induction σ as [|j σ IH]; intros ρ t0 Hv Ht0; [done|]. simpl.
  assert (f <> t0) by (intros ->; apply (Hf ρ); eauto using vpath_app_inv).
  rewrite read_clean_ne by done.
  destruct (present (read m t0 j) && negb (hugepage (read m t0 j))) eqn:E; [|done].
  apply (IH (ρ ++ [j])); [by rewrite <- app_assoc|].
  rewrite tbl_app, Ht0; simpl. by rewrite E.
Qed.

Lemma tbl_clean m p4 f ρ : fresh m p4 f -> vpath ρ -> tbl (memclean_table m f) p4 ρ = tbl m p4 ρ.
Proof. intros. by apply (tbl_clean_from m p4 f [] ρ p4). Qed.

Lemma xlate_clean_from m p4 f ρ σ t0 :
  fresh m p4 f -> Forall vidx (ρ ++ σ) -> (length (ρ ++ σ) <= 4)%nat ->
  tbl m p4 ρ = Some t0 -> xlate (memclean_table m f) t0 σ = xlate m t0 σ.
Proof.
  intros Hf. revert ρ t0. induction σ as [|j σ IH]; intros ρ t0 Hv Hl Ht0; [done|].
  assert (vpath ρ) as Hρ.
  { split; [rewrite length_app in Hl; simpl in Hl; lia|]. by apply Forall_app in Hv as [? _]. }
  simpl. assert (f <> t0) by (intros ->; by apply (Hf ρ)).
  rewrite read_clean_ne by done.
  destruct (present (read m t0 j)) eqn:Ep; simpl; [|done].
  destruct σ as [|k σ]; [done|]. destruct (hugepage (read m t0 j)) eqn:Eh; [done|].
  apply (IH (ρ ++ [j])); [by rewrite <- app_assoc|by rewrite <- app_assoc|].
  rewrite tbl_app, Ht0; simpl. by rewrite Ep, Eh.
Qed.

Lemma xlate_clean m p4 f ix :
  fresh m p4 f -> Forall vidx ix -> length ix = 4%nat ->
  xlate (memclean_table m f) p4 ix = xlate m p4 ix.
Proof. intros. apply (xlate_clean_from m p4 f [] ix p4); simpl; auto; lia. Qed.

Lemma fresh_clean m p4 f g : fresh m p4 f -> fresh m p4 g -> fresh (memclean_table m f) p4 g.
Proof. intros Hf Hg π Hπ. rewrite tbl_clean by done. by apply Hg. Qed.

Lemma wf_clean m p4 f : wf m p4 -> fresh m p4 f -> wf (memclean_table m f) p4.
Proof.
  intros Hwf Hf. assert (Hne : forall π t, vpath π -> tbl m p4 π = Some t -> f <> t).
  { intros π t Hπ Ht ->. by apply (Hf π). }
  split.
  - intros π1 π2 t H1 H2. rewrite !tbl_clean by done. by apply (wf_inj _ _ Hwf).
  - intros π t i Hπ. rewrite tbl_clean by done. intros Ht.
    rewrite read_clean_ne by eauto. by eapply wf_absent.
  - intros i Hi. rewrite read_clean_ne by (apply (Hne []); eauto using vpath_nil).
    by apply wf_top.
  - intros π t i Hπ. rewrite tbl_clean by done. intros Ht.
    rewrite read_clean_ne by eauto. by eapply wf_phys.
Qed.

(** ** Hanging an empty table into an absent entry *)

Definition link_entry (e : memory_page_entry_t) (fa : Z) : memory_page_entry_t :=
  set_physical_address (set_writable (set_present e true) true) (Z.shiftr fa 12).

(** A frame below 1 TiB. *)
Definition frame_ok (fa : Z) : Prop := 0 <= fa < 2 ^ 40 /\ fa mod 4096 = 0.

Lemma shl12_shr fa : frame_ok fa -> shl12 (Z.shiftr fa 12 mod 2 ^ 40) = fa.
Proof.
  intros [Hr Hm]. pose proof bf_prec_range. unfold shl12.
  rewrite Z.shiftr_div_pow2, Z.shiftl_mul_pow2 by lia.
  assert (2 ^ 40 <= 2 ^ bf_prec) by (apply Z.pow_le_mono_r; lia).
  rewrite (Z.mod_small (fa / 2 ^ 12)) by (Z.to_euclidean_division_equations; lia).
  rewrite Z.mod_small; Z.to_euclidean_division_equations; lia.
Qed.

Lemma phys_shr fa : frame_ok fa -> 0 <= Z.shiftr fa 12 mod 2 ^ 40 < 2 ^ 28.
Proof.
  intros [Hr Hm]. rewrite Z.shiftr_div_pow2 by lia.
  rewrite Z.mod_small; Z.to_euclidean_division_equations; lia.
Qed.

Lemma entry_table_link e fa :
  frame_ok fa -> entry_table (link_entry e fa) = MEMORY_PAGING_GET_VA_FOR_RESERVED_FA fa.
Proof. intros. unfold entry_table. simpl. by rewrite shl12_shr. Qed.

Lemma entry_table64_same e :
  0 <= physical_address e < 2 ^ 28 -> entry_table64 e = entry_table e.
Proof.
  intros Hp. unfold entry_table64, entry_table, shl12, u64. f_equal.
  pose proof bf_prec_range. rewrite Z.shiftl_mul_pow2 by lia.
  assert (2 ^ 40 <= 2 ^ bf_prec) by (apply Z.pow_le_mono_r; lia).
  rewrite !Z.mod_small; lia.
Qed.

Section Link.
Context (m : memory) (p4 : Z) (π : list Z) (t i fa : Z).
Let f := MEMORY_PAGING_GET_VA_FOR_RESERVED_FA fa.
Let m' := write m t i (link_entry (read m t i) fa).
Hypothesis Hwf : wf m p4.
Hypothesis Hπ : vpath π.
Hypothesis Hlen : (length π <= 2)%nat.
Hypothesis Hi : vidx i.
Hypothesis Ht : tbl m p4 π = Some t.
Hypothesis Habs : present (read m t i) = false.
Hypothesis Hfa : frame_ok fa.
Hypothesis Hfresh : fresh m p4 f.
Hypothesis Hempty : forall j, read m f j = zero_entry.

Lemma link_f_ne : t <> f.
Proof. intros ->. by apply (Hfresh π). Qed.

Lemma link_read_f j : read m' f j = zero_entry.
Proof. unfold m'. rewrite read_write_ne; [done|]. pose proof link_f_ne. congruence. Qed.

Lemma link_hugepage : hugepage (read m t i) = false.
Proof. by eapply wf_absent. Qed.

Lemma link_tbl_through σ :
  tbl m' p4 ((π ++ [i]) ++ σ) = match σ with [] => Some f | _ => None end.
Proof.
  rewrite <- app_assoc, tbl_app.
  assert (tbl m' p4 π = Some t) as -> by (by apply tbl_write_self). simpl.
  assert (read m' t i = link_entry (read m t i) fa) as -> by apply read_write_eq.
  rewrite entry_table_link by done. simpl. rewrite link_hugepage. simpl.
  destruct σ; [done|]. simpl. fold f. by rewrite link_read_f.
Qed.

Lemma link_tbl_inv ρ u :
  vpath ρ -> tbl m' p4 ρ = Some u ->
  (ρ = π ++ [i] /\ u = f) \/ (tbl m p4 ρ = Some u /\ u <> f).
Proof.
  intros Hρ Hu. destruct (decide ((π ++ [i]) `prefix_of` ρ)) as [[σ ->]|Hp].
  - rewrite link_tbl_through in Hu. destruct σ; simplify_eq. left. by rewrite app_nil_r.
  - right. unfold m' in Hu. rewrite tbl_write_other with (π := π) in Hu by done.
    split; [done|]. intros ->. by apply (Hfresh ρ).
Qed.

Lemma link_wf : wf m' p4.
Proof.
  split.
  - intros π1 π2 u H1 H2 E1 E2.
    destruct (link_tbl_inv π1 u H1 E1) as [[-> ?]|[? ?]], (link_tbl_inv π2 u H2 E2) as [[-> ?]|[? ?]];
      try congruence. by eapply (wf_inj _ _ Hwf).
  - intros ρ u j Hρ Hu Hj. destruct (link_tbl_inv ρ u Hρ Hu) as [[-> ->]|[Hu' Hne]].
    + by rewrite link_read_f.
    + destruct (decide ((t, i) = (u, j))) as [[= <- <-]|].
      * unfold m'. by rewrite read_write_eq.
      * unfold m'. rewrite read_write_ne by done. by apply (wf_absent _ _ Hwf ρ).
  - intros j Hj. unfold m'. destruct (decide ((t, i) = (p4, j))) as [E|].
    + replace (read _ p4 j) with (link_entry (read m t i) fa)
        by (injection E as <- <-; by rewrite read_write_eq).
      apply link_hugepage.
    + rewrite read_write_ne by done. by apply wf_top.
  - intros ρ u j Hρ Hu Hj. destruct (link_tbl_inv ρ u Hρ Hu) as [[-> ->]|[Hu' Hne]].
    + rewrite link_read_f. simpl. lia.
    + unfold m'. destruct (decide ((t, i) = (u, j))) as [[= <- <-]|].
      * rewrite read_write_eq. simpl. by apply phys_shr.
      * rewrite read_write_ne by done. by apply (wf_phys _ _ Hwf ρ).
Qed.

Lemma link_tbl_new : tbl m' p4 (π ++ [i]) = Some f.
Proof. pose proof (link_tbl_through []) as H. by rewrite app_nil_r in H. Qed.

(** No translation changes. *)
Lemma link_xlate ix : Forall vidx ix -> length ix = 4%nat -> xlate m' p4 ix = xlate m p4 ix.
Proof.
  intros Hv Hl. destruct (decide ((π ++ [i]) `prefix_of` ix)) as [[σ ->]|Hp].
  - rewrite <- app_assoc. simpl. rewrite (xlate_app m p4 π (i :: σ) t) by done.
    rewrite !length_app in Hl. simpl in Hl. destruct σ as [|k σ]; [simpl in Hl; lia|].
    unfold m'. rewrite xlate_write_self by done. fold m'. rewrite entry_table_link by done.
    fold f. simpl. rewrite Habs, link_hugepage. simpl. by rewrite link_read_f.
  - by apply (xlate_write_other m p4 π).
Qed.

Lemma link_fresh g : fresh m p4 g -> g <> f -> fresh m' p4 g.
Proof.
  intros Hg Hne ρ Hρ Hu. destruct (link_tbl_inv ρ g Hρ Hu) as [[_ ?]|[? _]]; [done|].
  by apply (Hg ρ).
Qed.
End Link.
End Theory.
