(* ===== verification/PagingProps.v ===== *)
(** * Correctness of the page table operations

    Mapping makes exactly the requested addresses translate, unmapping makes
    exactly the requested page fault, and attribute changes leave every
    translation as it was. *)

From S2P Require Import Prelude Frame Paging PagingTheory.

(** ** Addresses and indices *)

Lemma land_511_vidx z : vidx (Z.land z 511).
Proof. unfold vidx. change 511 with (Z.ones 9). rewrite Z.land_ones by lia. apply Z.mod_pos_bound. lia. Qed.

Lemma indices_vidx va : Forall vidx (indices va).
Proof. repeat constructor; apply land_511_vidx. Qed.

Lemma indices_length va : length (indices va) = 4%nat.
Proof. done. Qed.

Lemma index_guard z : (MEMORY_PAGING_INDEX_COUNT <=? Z.land z 511) = false.
Proof. apply Z.leb_gt. apply land_511_vidx. Qed.

Create HintDb paging discriminated.
#[export] Hint Resolve land_511_vidx indices_vidx indices_length : paging.

Section Props.
Context `{BF : BitfieldPrecision} {A : Type} `{FA : FrameAllocatorOps A}.

(** ** Translation in terms of the tree *)

(** The physical address a leaf at level [l] gives to [va]. *)
Definition leaf_pa (va : Z) (le : nat * memory_page_entry_t) : Z :=
  let '(l, e) := le in
  match l with
  | O => Z.lor (shl12 (physical_address e)) (Z.land va (Z.shiftl 1 12 - 1))
  | S O => Z.lor (u64 (Z.shiftl (Z.lor (physical_address e) (MEMORY_PT_GET_P1_INDEX va)) 12))
             (Z.land va (Z.shiftl 1 21 - 1))
  | _ => Z.lor (u64 (Z.shiftl (Z.lor (Z.lor (physical_address e)
                 (Z.shiftl (MEMORY_PT_GET_P2_INDEX va) 12)) (MEMORY_PT_GET_P1_INDEX va)) 12))
           (Z.land va (Z.shiftl 1 30 - 1))
  end.

Lemma get_physical_xlate m p4 va :
  wf m p4 ->
  memory_paging_get_physical_address_ext m p4 va = leaf_pa va <$> xlate m p4 (indices va).
Proof.
  intros Hwf. unfold memory_paging_get_physical_address_ext, indices.
  unfold MEMORY_PT_GET_P4_INDEX, MEMORY_PT_GET_P3_INDEX, MEMORY_PT_GET_P2_INDEX, MEMORY_PT_GET_P1_INDEX.
  rewrite !index_guard. cbn [xlate].
  rewrite (wf_top _ _ Hwf) by apply land_511_vidx.
  repeat (case_match; simpl in *; try done).
Qed.

(** ** The cache of frames for tables *)

Record cache_ok (s : paging_state A) (n : Z) : Prop := {
  cache_init : internal_frame_init_state (ctx s) = INIT_STATE_INITIALIZED;
  cache_count : n + 16 <= internal_frames_1_count (ctx s);
  cache_room : internal_frames_1_current (ctx s)
                 + 4096 * internal_frames_1_count (ctx s) <= 2 ^ 40;
  cache_frame : frame_ok (internal_frames_1_current (ctx s));
  cache_fresh : forall k, 0 <= k < internal_frames_1_count (ctx s) ->
    fresh (mem s) (page_table (ctx s))
      (MEMORY_PAGING_GET_VA_FOR_RESERVED_FA (internal_frames_1_current (ctx s) + 4096 * k));
}.

(** The invariant of a paging state with [n] frames to spare. *)
Record paging_inv (s : paging_state A) (n : Z) : Prop := {
  inv_wf : wf (mem s) (page_table (ctx s));
  inv_cache : cache_ok s n;
}.

(** The context after one frame is taken. *)
Definition ctx_take (c : memory_page_table_context_t) : memory_page_table_context_t :=
  mk_context (page_table c) (internal_frame_init_state c)
    (internal_frames_1_current c + 4096) (internal_frames_1_start c)
    (internal_frames_1_count c - 1) (internal_frames_2_start c)
    (internal_frames_2_count c) (internal_frames_helper_frame c).

Lemma get_internal_frame_cached fuel (s : paging_state A) n :
  0 <= n -> cache_ok s n ->
  memory_paging_get_internal_frame fuel s =
  Done (internal_frames_1_current (ctx s), mk_paging (mem s) (ctx_take (ctx s)) (alloc s)).
Proof.
  intros Hn [Hinit Hcount Hroom [Hr _] _].
  assert (memory_paging_get_internal_frame fuel s = take_internal_frame s) as ->.
  { destruct fuel; simpl; unfold mbind, cmd_bind, get_state; simpl; rewrite Hinit;
      (destruct (Z.eqb_spec (internal_frames_1_count (ctx s)) 0); [lia|]; simpl;
       destruct (Z.ltb_spec (internal_frames_1_count (ctx s)) 16); [lia|done]). }
  unfold take_internal_frame, mbind, cmd_bind, get_state, set_ctx, put_state, mret, cmd_ret, ctx_take.
  simpl. unfold u64, MEMORY_PAGING_PAGE_SIZE.
  rewrite !Z.mod_small by lia. done.
Qed.

Lemma va_for_fa_inj a b :
  0 <= a < 2 ^ 46 -> 0 <= b < 2 ^ 46 ->
  MEMORY_PAGING_GET_VA_FOR_RESERVED_FA a = MEMORY_PAGING_GET_VA_FOR_RESERVED_FA b -> a = b.
Proof.
  assert (forall x, 0 <= x < 2 ^ 46 ->
            Z.land (Z.lor (Z.shiftl 64 40) x) (Z.ones 46) = x) as Hinv.
  { intros x Hx. rewrite Z.land_lor_distr_l.
    change (Z.land (Z.shiftl 64 40) (Z.ones 46)) with 0.
    rewrite Z.lor_0_l, Z.land_ones by lia. by apply Z.mod_small. }
  unfold MEMORY_PAGING_GET_VA_FOR_RESERVED_FA. intros Ha Hb E.
  rewrite <- (Hinv a), <- (Hinv b), E by done. done.
Qed.

(** ** New tables *)

(** Growing the tree changes no translation. *)
Definition same_xlate (m m' : memory) (p4 : Z) : Prop :=
  forall ix, Forall vidx ix -> length ix = 4%nat -> xlate m' p4 ix = xlate m p4 ix.

(** The only new tables are at prefixes of [pre]. *)
Definition new_tables_at (m m' : memory) (p4 : Z) (pre : list Z) : Prop :=
  forall ρ, vpath ρ -> ~ ρ `prefix_of` pre -> tbl m p4 ρ = None -> tbl m' p4 ρ = None.

Lemma new_tables_at_trans m1 m2 m3 p4 pre1 pre2 pre :
  new_tables_at m1 m2 p4 pre1 -> new_tables_at m2 m3 p4 pre2 ->
  pre1 `prefix_of` pre -> pre2 `prefix_of` pre -> new_tables_at m1 m3 p4 pre.
Proof.
  intros H1 H2 P1 P2 ρ Hρ Hnp H. apply H2; [done| |apply H1; [done| |done]];
    intros ?; apply Hnp; by etrans.
Qed.

Lemma new_table_spec fuel (s : paging_state A) n π t i :
  0 <= n -> paging_inv s (n + 1) ->
  vpath π -> (length π <= 2)%nat -> vidx i ->
  tbl (mem s) (page_table (ctx s)) π = Some t -> present (read (mem s) t i) = false ->
  exists t' s', new_table (memory_paging_get_internal_frame fuel) t i s = Done (t', s') /\
    paging_inv s' n /\ page_table (ctx s') = page_table (ctx s) /\
    tbl (mem s') (page_table (ctx s)) (π ++ [i]) = Some t' /\
    (forall j, read (mem s') t' j = zero_entry) /\
    new_tables_at (mem s) (mem s') (page_table (ctx s)) (π ++ [i]) /\
    same_xlate (mem s) (mem s') (page_table (ctx s)).
Proof.
  intros Hn [Hwf Hc] Hπ Hlen Hi Ht Habs.
  set (fa := internal_frames_1_current (ctx s)).
  set (f := MEMORY_PAGING_GET_VA_FOR_RESERVED_FA fa).
  set (p4 := page_table (ctx s)).
  assert (fresh (mem s) p4 f) as Hf.
  { pose proof (cache_fresh _ _ Hc 0) as Hf. rewrite Z.mul_0_r, Z.add_0_r in Hf.
    apply Hf. pose proof (cache_count _ _ Hc). lia. }
  assert (t <> f) as Hne by (intros ->; by apply (Hf π)).
  set (m1 := memclean_table (mem s) f).
  assert (fresh m1 p4 f) as Hf1 by (by apply fresh_clean).
  assert (wf m1 p4) as Hwf1 by (by apply wf_clean).
  assert (tbl m1 p4 π = Some t) as Ht1 by (unfold m1; by rewrite tbl_clean).
  assert (present (read m1 t i) = false) as Habs1 by (unfold m1; by rewrite read_clean_ne).
  assert (forall j, read m1 f j = zero_entry) as Hz by (intros; apply read_clean_eq).
  pose proof (cache_frame _ _ Hc) as Hfa. fold fa in Hfa.
  exists f, (mk_paging (write m1 t i (link_entry (read m1 t i) fa)) (ctx_take (ctx s)) (alloc s)).
  split_and!.
  - unfold new_table. erewrite cmd_bind_done by (by eapply get_internal_frame_cached; [|done]; lia).
    done.
  - split; [by apply (link_wf m1 p4 π t i fa)|]. destruct Hc as [H1 H2 H3 H4 H5].
    fold fa in H3, H4, H5. split; simpl.
    + done.
    + lia.
    + lia.
    + destruct H4. split; [lia|]. Z.to_euclidean_division_equations; lia.
    + intros k Hk. fold fa p4. replace (fa + 4096 + 4096 * k) with (fa + 4096 * (k + 1)) by lia.
      apply (link_fresh m1 p4 π t i fa); [done..| |].
      * apply fresh_clean; [done|]. apply H5. lia.
      * destruct H4. intros E%va_for_fa_inj; lia.
  - done.
  - by apply (link_tbl_new m1 p4 π t i fa).
  - intros j. by apply (link_read_f m1 p4 π t i fa).
  - intros ρ Hρ Hnp Hnone. simpl. apply eq_None_not_Some. intros [u Hu].
    apply (link_tbl_inv m1 p4 π t i fa) in Hu; [|done..].
    destruct Hu as [[-> _]|[Hu _]]; [by destruct Hnp|].
    unfold m1 in Hu. rewrite tbl_clean in Hu by done. fold p4 in Hnone. congruence.
  - intros ix Hv Hl. simpl. fold p4. rewrite (link_xlate m1 p4 π t i fa) by done.
    by apply xlate_clean.
Qed.

(** One level of the descent towards an unmapped address: the table below
    entry [i] of [t] exists or is created, and no translation changes. *)
Lemma descend_spec fuel (s : paging_state A) n π t i σ (K : Z -> cmd (paging_state A) Z) :
  0 <= n -> paging_inv s (n + 1) ->
  vpath π -> (length π <= 2)%nat -> vidx i -> σ <> [] ->
  tbl (mem s) (page_table (ctx s)) π = Some t ->
  xlate (mem s) (page_table (ctx s)) (π ++ i :: σ) = None ->
  exists t' s',
    (if negb (present (read (mem s) t i))
     then t_p ← new_table (memory_paging_get_internal_frame fuel) t i; K t_p
     else K (entry_table64 (read (mem s) t i))) s = K t' s' /\
    paging_inv s' n /\ page_table (ctx s') = page_table (ctx s) /\
    tbl (mem s') (page_table (ctx s)) (π ++ [i]) = Some t' /\
    same_xlate (mem s) (mem s') (page_table (ctx s)) /\
    new_tables_at (mem s) (mem s') (page_table (ctx s)) (π ++ [i]) /\
    (s' = s \/ forall j, read (mem s') t' j = zero_entry).
Proof.
  intros Hn Hinv Hπ Hlen Hi Hσ Ht Hx.
  rewrite (xlate_app _ _ π _ t) in Hx by done. simpl in Hx.
  destruct (present (read (mem s) t i)) eqn:Hp; simpl in *.
  - destruct σ as [|k σ]; [done|].
    destruct (hugepage (read (mem s) t i)) eqn:Hh; [done|].
    destruct Hinv as [Hwf Hc]. exists (entry_table (read (mem s) t i)), s. split_and!.
    + rewrite entry_table64_same; [done|]. by apply (wf_phys _ _ Hwf π).
    + split; [done|]. destruct Hc. split; [done|lia|done..].
    + done.
    + rewrite tbl_app, Ht. simpl. by rewrite Hp, Hh.
    + done.
    + by intros ρ.
    + by left.
  - destruct (new_table_spec fuel s n π t i) as (t' & s' & Hrun & ? & ? & ? & ? & ? & ?); [done..|].
    exists t', s'. split_and!; [|done..|by right].
    by erewrite cmd_bind_done.
Qed.

(** The attribute bits requested by a page type. *)
Definition has_attributes (e : memory_page_entry_t) (type : Z) : Prop :=
  writable e = negb (flag_set type MEMORY_PAGING_PAGE_TYPE_READONLY) /\
  no_execute e = flag_set type MEMORY_PAGING_PAGE_TYPE_NOEXEC /\
  user_accessible e = flag_set type MEMORY_PAGING_PAGE_TYPE_USER_ACCESSIBLE /\
  write_through_caching e = flag_set type MEMORY_PAGING_PAGE_TYPE_WRITE_THROUGH /\
  disable_cache e = flag_set type MEMORY_PAGING_PAGE_TYPE_DISABLE_CACHE /\
  global e = flag_set type MEMORY_PAGING_PAGE_TYPE_GLOBAL.

(** What a mapping operation does: the addresses below [pre] get the leaf
    [(l, e)], all others keep their translation. *)
Definition maps_leaf (m m' : memory) (p4 : Z) (pre : list Z)
    (le : nat * memory_page_entry_t) : Prop :=
  (forall ix, Forall vidx ix -> length ix = 4%nat -> pre `prefix_of` ix ->
     xlate m' p4 ix = Some le) /\
  (forall ix, Forall vidx ix -> length ix = 4%nat -> ~ pre `prefix_of` ix ->
     xlate m' p4 ix = xlate m p4 ix).

Lemma maps_leaf_grow m m1 m' p4 pre le :
  same_xlate m m1 p4 -> maps_leaf m1 m' p4 pre le -> maps_leaf m m' p4 pre le.
Proof. intros Hs [H1 H2]. split; [done|]. intros. rewrite H2 by done. by apply Hs. Qed.

(** Writing a leaf into an absent slot. *)
Lemma write_leaf_spec (s : paging_state A) n π t i e :
  paging_inv s n -> vpath π -> vidx i ->
  tbl (mem s) (page_table (ctx s)) π = Some t ->
  present e = true -> (hugepage e = true \/ length π = 3%nat) ->
  (π = [] -> hugepage e = false) -> 0 <= physical_address e < 2 ^ 28 ->
  let s' := mk_paging (write (mem s) t i e) (ctx s) (alloc s) in
  paging_inv s' n /\
  maps_leaf (mem s) (mem s') (page_table (ctx s)) (π ++ [i]) ((3 - length π)%nat, e) /\
  new_tables_at (mem s) (mem s') (page_table (ctx s)) [].
Proof.
  intros [Hwf Hc] Hπ Hi Ht Hp Hleaf Htop Hph s'.
  assert (no_child π e) as Hno by (right; done).
  split; [split|split; [split|]].
  - by apply wf_write_leaf with (π := π).
  - destruct Hc as [? ? ? ? Hf]. split; [done..|]. intros k Hk. simpl.
    apply write_leaf_fresh with (π := π); auto.
  - intros ix Hv Hl [σ ->]. rewrite !length_app in Hl. simpl in Hl.
    rewrite <- app_assoc. simpl. rewrite xlate_write_self by done. rewrite Hp. simpl.
    destruct σ as [|k σ]; simpl in *.
    + by replace (length π) with 3%nat by lia.
    + destruct Hleaf as [->|Hl3]; [|lia]. do 2 f_equal. lia.
  - intros ix Hv Hl Hpre. by apply xlate_write_other with (π := π).
  - intros ρ Hρ _ Hnone. simpl. apply eq_None_not_Some. intros [u Hu].
    apply write_leaf_tbl_inv with (π := π) in Hu; try done. congruence.
Qed.

(** ** Mapping one page *)

(** The continuation of a read. *)
Lemma read_entry_bind {B} t i (k : memory_page_entry_t -> cmd (paging_state A) B) s :
  mbind k (read_entry t i) s = k (read (mem s) t i) s.
Proof. done. Qed.

Ltac solve_vidx := repeat first [apply Forall_nil_2 | apply Forall_cons_2; [apply land_511_vidx|]].
Ltac solve_vpath := split; [simpl; lia | solve_vidx].

(** The two upper levels of [memory_paging_add_page_ext]: the table of the
    third level is reached, and no translation has changed. *)
Lemma add_page_descend fuel (s : paging_state A) n va fa type :
  0 <= n -> paging_inv s (n + 2) ->
  flag_set type MEMORY_PAGING_PAGE_TYPE_1G = false ->
  xlate (mem s) (page_table (ctx s)) (indices va) = None ->
  exists t2 s', memory_paging_add_page fuel va fa type s =
      add_page_p2 (memory_paging_get_internal_frame fuel) t2 va fa type s' /\
    paging_inv s' n /\ page_table (ctx s') = page_table (ctx s) /\
    tbl (mem s') (page_table (ctx s))
      [MEMORY_PT_GET_P4_INDEX va; MEMORY_PT_GET_P3_INDEX va] = Some t2 /\
    same_xlate (mem s) (mem s') (page_table (ctx s)) /\
    new_tables_at (mem s) (mem s') (page_table (ctx s)) (firstn 2 (indices va)) /\
    (s' = s \/ forall j, read (mem s') t2 j = zero_entry).
Proof.
  intros Hn Hinv H1G Hx. set (p4 := page_table (ctx s)) in *.
  unfold memory_paging_add_page, memory_paging_add_page_ext.
  rewrite (cmd_bind_done get_state _ s s s) by done. fold p4.
  rewrite (index_guard _ : (_ <=? MEMORY_PT_GET_P4_INDEX va) = false), read_entry_bind.
  destruct (descend_spec fuel s (n + 1) [] p4 (MEMORY_PT_GET_P4_INDEX va) (tail (indices va))
    (fun t_p => add_page_p3 (memory_paging_get_internal_frame fuel) t_p va fa type))
    as (t3 & s1 & -> & Hinv1 & Hpt1 & Ht3 & Hsx1 & Hnt1 & Hnew1);
    [lia|by replace (n + 1 + 1) with (n + 2) by lia|apply vpath_nil|simpl; lia
    |apply land_511_vidx|done..|].
  fold p4 in Hpt1, Ht3, Hsx1, Hnt1. unfold add_page_p3.
  rewrite (index_guard _ : (_ <=? MEMORY_PT_GET_P3_INDEX va) = false), read_entry_bind, H1G.
  destruct (descend_spec fuel s1 n [MEMORY_PT_GET_P4_INDEX va] t3 (MEMORY_PT_GET_P3_INDEX va)
    (tail (tail (indices va)))
    (fun t_p => add_page_p2 (memory_paging_get_internal_frame fuel) t_p va fa type))
    as (t2 & s2 & -> & Hinv2 & Hpt2 & Ht2 & Hsx2 & Hnt2 & Hnew2);
    [done|done|solve_vpath|simpl; lia|apply land_511_vidx|done|by rewrite Hpt1| |].
  { rewrite Hpt1. rewrite <- Hx. apply Hsx1; [apply indices_vidx|done]. }
  rewrite Hpt1 in Hpt2, Ht2, Hsx2, Hnt2.
  exists t2, s2. split_and!; [done..| | |].
  - intros ix Hv Hl. rewrite Hsx2 by done. by apply Hsx1.
  - eapply new_tables_at_trans; [done|done|..]; [by eexists [_]|done].
  - destruct Hnew2 as [->|?]; [|by right]. destruct Hnew1 as [->|Hz]; [by left|].
    exfalso. rewrite app_nil_l in Ht3. rewrite tbl_app, Ht3 in Ht2.
    simpl in Ht2. by rewrite Hz in Ht2.
Qed.

Lemma add_page_4k_tree fuel (s : paging_state A) n va fa type :
  0 <= n -> paging_inv s (n + 3) -> frame_ok fa ->
  flag_set type MEMORY_PAGING_PAGE_TYPE_1G = false ->
  flag_set type MEMORY_PAGING_PAGE_TYPE_2M = false ->
  xlate (mem s) (page_table (ctx s)) (indices va) = None ->
  exists e s', memory_paging_add_page fuel va fa type s = Done (0, s') /\
    paging_inv s' n /\ page_table (ctx s') = page_table (ctx s) /\
    physical_address e = Z.shiftr fa 12 mod 2 ^ 40 /\ has_attributes e type /\
    maps_leaf (mem s) (mem s') (page_table (ctx s)) (indices va) (O, e) /\
    new_tables_at (mem s) (mem s') (page_table (ctx s)) (firstn 3 (indices va)).
Proof.
  intros Hn Hinv Hfa H1G H2M Hx.
  destruct (add_page_descend fuel s (n + 1) va fa type)
    as (t2 & s2 & -> & Hinv2 & Hpt2 & Ht2 & Hsx2 & Hnt2 & _);
    [lia|by replace (n + 1 + 2) with (n + 3) by lia|done..|].
  assert (xlate (mem s2) (page_table (ctx s)) (indices va) = None) as Hx2
    by (rewrite <- Hx; apply Hsx2; [apply indices_vidx|done]).
  unfold add_page_p2.
  rewrite (index_guard _ : (_ <=? MEMORY_PT_GET_P2_INDEX va) = false), read_entry_bind, H2M.
  destruct (descend_spec fuel s2 n [MEMORY_PT_GET_P4_INDEX va; MEMORY_PT_GET_P3_INDEX va] t2
    (MEMORY_PT_GET_P2_INDEX va) [MEMORY_PT_GET_P1_INDEX va]
    (fun t_p => add_page_p1 t_p va fa type))
    as (t1 & s3 & -> & Hinv3 & Hpt3 & Ht1 & Hsx3 & Hnt3 & _);
    [done|done|solve_vpath|simpl; lia|apply land_511_vidx|done|by rewrite Hpt2|by rewrite Hpt2|].
  rewrite Hpt2 in Hpt3, Ht1, Hsx3, Hnt3. unfold add_page_p1.
  rewrite (index_guard _ : (_ <=? MEMORY_PT_GET_P1_INDEX va) = false), read_entry_bind.
  assert (present (read (mem s3) t1 (MEMORY_PT_GET_P1_INDEX va)) = false) as Hp.
  { rewrite <- (Hsx3 (indices va)) in Hx2 by (apply indices_vidx || done).
    unfold indices in Hx2. change [?a; ?b; ?c; ?d] with ([a; b; c] ++ [d]) in Hx2.
    rewrite (xlate_app _ _ _ _ t1) in Hx2 by done. simpl in Hx2. by destruct (present _). }
  rewrite Hp. simpl.
  set (e := set_physical_address (leaf_attributes (set_present
              (read (mem s3) t1 (MEMORY_PT_GET_P1_INDEX va)) true) type) (Z.shiftr fa 12)).
  destruct (write_leaf_spec s3 n
    [MEMORY_PT_GET_P4_INDEX va; MEMORY_PT_GET_P3_INDEX va; MEMORY_PT_GET_P2_INDEX va]
    t1 (MEMORY_PT_GET_P1_INDEX va) e) as (Hinv4 & Hmaps & Hnt4);
    [done|solve_vpath|apply land_511_vidx|by rewrite Hpt3|done|by right|done|by apply phys_shr|].
  rewrite Hpt3 in Hmaps, Hnt4.
  eexists e, _. split_and!; [done..| |].
  - apply (maps_leaf_grow _ (mem s3)); [|done].
    intros ix Hv Hl. rewrite Hsx3 by done. by apply Hsx2.
  - eapply new_tables_at_trans; [|done|..]; [|done|by eexists].
    eapply new_tables_at_trans; [done|done|..]; [by eexists [_]|done].
Qed.

(** A frame aligned to 2 MiB. *)
Definition frame2m_ok (fa : Z) : Prop := 0 <= fa < 2 ^ 40 /\ fa mod 2 ^ 21 = 0.

Lemma land_2m_frame fa :
  frame2m_ok fa -> Z.land (Z.shiftr fa 12) 0xFFFFFFFE00 mod 2 ^ 40 = fa / 2 ^ 12.
Proof.
  intros [Hr Hm]. rewrite Z.shiftr_div_pow2 by lia.
  change 0xFFFFFFFE00 with (Z.shiftl (Z.ones 31) 9).
  assert (fa / 2 ^ 12 = Z.shiftl (fa / 2 ^ 21) 9) as ->.
  { rewrite Z.shiftl_mul_pow2 by lia. Z.to_euclidean_division_equations; lia. }
  rewrite <- Z.shiftl_land, Z.land_ones by lia.
  rewrite (Z.mod_small (fa / 2 ^ 21)) by (Z.to_euclidean_division_equations; lia).
  rewrite Z.shiftl_mul_pow2 by lia. apply Z.mod_small. Z.to_euclidean_division_equations; lia.
Qed.

Lemma add_page_2m_tree fuel (s : paging_state A) n va fa type :
  0 <= n -> paging_inv s (n + 2) -> frame2m_ok fa ->
  flag_set type MEMORY_PAGING_PAGE_TYPE_1G = false ->
  flag_set type MEMORY_PAGING_PAGE_TYPE_2M = true ->
  xlate (mem s) (page_table (ctx s)) (indices va) = None ->
  tbl (mem s) (page_table (ctx s)) (firstn 3 (indices va)) = None ->
  exists e s', memory_paging_add_page fuel va fa type s = Done (0, s') /\
    paging_inv s' n /\ page_table (ctx s') = page_table (ctx s) /\
    physical_address e = fa / 2 ^ 12 /\ has_attributes e type /\
    maps_leaf (mem s) (mem s') (page_table (ctx s)) (firstn 3 (indices va)) (1%nat, e) /\
    new_tables_at (mem s) (mem s') (page_table (ctx s)) (firstn 3 (indices va)).
Proof.
  intros Hn Hinv Hfa H1G H2M Hx Hnt.
  destruct (add_page_descend fuel s n va fa type)
    as (t2 & s2 & -> & Hinv2 & Hpt2 & Ht2 & Hsx2 & Hnt2 & Hnew); [done..|].
  assert (xlate (mem s2) (page_table (ctx s)) (indices va) = None) as Hx2
    by (rewrite <- Hx; apply Hsx2; [apply indices_vidx|done]).
  unfold add_page_p2.
  rewrite (index_guard _ : (_ <=? MEMORY_PT_GET_P2_INDEX va) = false), read_entry_bind, H2M.
  assert (present (read (mem s2) t2 (MEMORY_PT_GET_P2_INDEX va)) = false) as Hp.
  { destruct Hnew as [->|Hz]; [|by rewrite Hz].
    unfold indices in Hx2, Hnt. change (firstn 3 [?a; ?b; ?c; ?d]) with ([a; b] ++ [c]) in Hnt.
    change [?a; ?b; ?c; ?d] with ([a; b] ++ [c; d]) in Hx2.
    rewrite (xlate_app _ _ _ _ t2) in Hx2 by done. rewrite tbl_app, Ht2 in Hnt.
    simpl in Hx2, Hnt. by destruct (present _), (hugepage _). }
  rewrite Hp. simpl.
  set (e := set_physical_address (leaf_attributes (set_hugepage (set_present
              (read (mem s2) t2 (MEMORY_PT_GET_P2_INDEX va)) true) true) type)
              (Z.land (Z.shiftr fa 12) 0xFFFFFFFE00)).
  assert (physical_address e = fa / 2 ^ 12) as Hph by (by apply land_2m_frame).
  destruct (write_leaf_spec s2 n [MEMORY_PT_GET_P4_INDEX va; MEMORY_PT_GET_P3_INDEX va]
    t2 (MEMORY_PT_GET_P2_INDEX va) e) as (Hinv4 & Hmaps & Hnt4);
    [done|solve_vpath|apply land_511_vidx|by rewrite Hpt2|done|by left|done| |].
  { rewrite Hph. destruct Hfa. Z.to_euclidean_division_equations; lia. }
  rewrite Hpt2 in Hmaps, Hnt4.
  eexists e, _. split_and!; [done..| |].
  - by apply (maps_leaf_grow _ (mem s2)).
  - eapply new_tables_at_trans; [done|done|..]; [by eexists [_]|by eexists].
Qed.

(** ** Pages as numbers *)

(** The 4K page and the 2M page of a 48-bit virtual address. *)
Definition page4k (va : Z) : Z := (va / 2 ^ 12) mod 2 ^ 36.
Definition page2m (va : Z) : Z := (va / 2 ^ 21) mod 2 ^ 27.

Lemma index_mod va k : 0 <= k -> Z.land (Z.shiftr va k) 0x1FF = (va / 2 ^ k) mod 512.
Proof. intros. rewrite (land_ones_mod _ 9) by done. by rewrite Z.shiftr_div_pow2. Qed.

Lemma page2m_indices va :
  page2m va = (MEMORY_PT_GET_P4_INDEX va * 512 + MEMORY_PT_GET_P3_INDEX va) * 512
              + MEMORY_PT_GET_P2_INDEX va.
Proof.
  unfold page2m, MEMORY_PT_GET_P4_INDEX, MEMORY_PT_GET_P3_INDEX, MEMORY_PT_GET_P2_INDEX.
  rewrite !index_mod by lia.
  change (2 ^ 39) with (2 ^ 21 * 512 * 512). change (2 ^ 30) with (2 ^ 21 * 512).
  rewrite <- !Z.div_div by lia. generalize (va / 2 ^ 21); intros q.
  change (2 ^ 27) with (512 * (512 * 512)). rewrite !Z.rem_mul_r by lia. ring.
Qed.

Lemma page4k_indices va :
  page4k va = page2m va * 512 + MEMORY_PT_GET_P1_INDEX va.
Proof.
  unfold page4k, page2m, MEMORY_PT_GET_P1_INDEX.
  rewrite !index_mod by lia. change (2 ^ 21) with (2 ^ 12 * 512).
  rewrite <- !Z.div_div by lia. generalize (va / 2 ^ 12); intros q.
  change (2 ^ 36) with (512 * 2 ^ 27). rewrite Z.rem_mul_r by lia. ring.
Qed.

Lemma firstn3_indices_eq va va' :
  firstn 3 (indices va) = firstn 3 (indices va') <-> page2m va = page2m va'.
Proof.
  rewrite !page2m_indices. unfold indices. simpl.
  pose proof (land_511_vidx (Z.shiftr va 39)). pose proof (land_511_vidx (Z.shiftr va' 39)).
  pose proof (land_511_vidx (Z.shiftr va 30)). pose proof (land_511_vidx (Z.shiftr va' 30)).
  pose proof (land_511_vidx (Z.shiftr va 21)). pose proof (land_511_vidx (Z.shiftr va' 21)).
  unfold vidx, MEMORY_PT_GET_P4_INDEX, MEMORY_PT_GET_P3_INDEX, MEMORY_PT_GET_P2_INDEX in *.
  split; [intros [= -> -> ->]; done|]. intros E. f_equal; [lia|f_equal; [lia|f_equal; lia]].
Qed.

Lemma indices_split va : indices va = firstn 3 (indices va) ++ [MEMORY_PT_GET_P1_INDEX va].
Proof. done. Qed.

Lemma indices_eq va va' : indices va = indices va' <-> page4k va = page4k va'.
Proof.
  rewrite !page4k_indices, (indices_split va), (indices_split va').
  pose proof (land_511_vidx (Z.shiftr va 12)). pose proof (land_511_vidx (Z.shiftr va' 12)).
  unfold vidx, MEMORY_PT_GET_P1_INDEX in *. split.
  - intros [E [= ->]]%app_inj_2; [|done]. apply firstn3_indices_eq in E. lia.
  - intros E. f_equal; [apply firstn3_indices_eq; lia|f_equal; lia].
Qed.

Lemma prefix_same_length (l k : list Z) : length l = length k -> l `prefix_of` k <-> l = k.
Proof.
  intros Hl. split; [|by intros ->]. intros [σ ->]. rewrite length_app in Hl.
  destruct σ; [by rewrite app_nil_r|simpl in Hl; lia].
Qed.

Lemma prefix_indices va va' : indices va `prefix_of` indices va' <-> page4k va = page4k va'.
Proof. rewrite prefix_same_length by done. apply indices_eq. Qed.

Lemma prefix3_indices va va' :
  firstn 3 (indices va) `prefix_of` indices va' <-> page2m va = page2m va'.
Proof.
  rewrite <- firstn3_indices_eq. split.
  - intros [σ E]. rewrite E. by rewrite take_app_length'.
  - intros ->. exists [MEMORY_PT_GET_P1_INDEX va']. done.
Qed.

Lemma leaf_pa_4k va fa e :
  frame_ok fa -> physical_address e = Z.shiftr fa 12 mod 2 ^ 40 ->
  leaf_pa va (O, e) = fa + va mod 4096.
Proof.
  intros Hfa Hp. simpl. rewrite Hp, shl12_shr by done.
  rewrite (land_ones_mod va 12) by done. apply (lor_low_add 12); [lia|apply Hfa|].
  apply Z.mod_pos_bound. lia.
Qed.

Lemma leaf_pa_2m va fa e :
  frame2m_ok fa -> physical_address e = fa / 2 ^ 12 ->
  leaf_pa va (1%nat, e) = fa + va mod 2 ^ 21.
Proof.
  intros [Hr Hm] Hp. unfold leaf_pa. rewrite Hp. unfold MEMORY_PT_GET_P1_INDEX.
  rewrite index_mod by lia. rewrite (land_ones_mod va 21) by done.
  set (i1 := (va / 2 ^ 12) mod 512). set (off := va mod 2 ^ 12).
  assert (0 <= i1 < 512) by (apply Z.mod_pos_bound; lia).
  assert (0 <= off < 2 ^ 12) by (apply Z.mod_pos_bound; lia).
  assert (va mod 2 ^ 21 = i1 * 2 ^ 12 + off) as ->
    by (unfold i1, off; Z.to_euclidean_division_equations; lia).
  rewrite (lor_low_add 9 (fa / 2 ^ 12) i1) by (try lia; Z.to_euclidean_division_equations; lia).
  rewrite Z.shiftl_mul_pow2 by lia.
  replace ((fa / 2 ^ 12 + i1) * 2 ^ 12) with (fa + i1 * 2 ^ 12)
    by (Z.to_euclidean_division_equations; lia).
  unfold u64. rewrite Z.mod_small by lia.
  rewrite <- (lor_low_add 21 fa (i1 * 2 ^ 12)) by lia.
  rewrite <- (lor_low_add 12 (i1 * 2 ^ 12) off) by (try lia; apply Z.mod_mul; lia).
  rewrite <- Z.lor_assoc, (Z.lor_assoc (i1 * 2 ^ 12)), Z.lor_diag.
  apply (lor_low_add 21); [lia|done|].
  rewrite (lor_low_add 12) by (try lia; apply Z.mod_mul; lia). lia.
Qed.
End Props.
