(* ===== verification/PagingMapping.v ===== *)
(** * Mapping: what [memory_paging_add_page] and
      [memory_paging_add_va_for_frame] promise

    Mapping an unmapped page makes exactly its addresses translate to the
    frame; mapping a block of frames makes the translation linear on the block,
    whatever mixture of 2M and 4K pages the loop chooses; mapping a 4K page
    that is mapped already changes nothing. *)

From S2P Require Import Prelude Frame Paging PagingTheory PagingProps.

Section Mapping.
Context `{BF : BitfieldPrecision} {A : Type} `{FA : FrameAllocatorOps A}.

(** The translation a state gives to an address. *)
Definition translate (s : paging_state A) (va : Z) : option Z :=
  memory_paging_get_physical_address_ext (mem s) (page_table (ctx s)) va.

(** A page table of four levels in which [va] has no table of the lowest level
    yet, so that a 2M page fits. *)
Definition no_p1_table (s : paging_state A) (va : Z) : Prop :=
  tbl (mem s) (page_table (ctx s)) (firstn 3 (indices va)) = None.

Lemma translate_none s n va :
  paging_inv s n -> translate s va = None <->
  xlate (mem s) (page_table (ctx s)) (indices va) = None.
Proof.
  intros [Hwf _]. unfold translate. rewrite get_physical_xlate by done. apply fmap_None.
Qed.

(** From the tree to addresses. *)
Lemma maps_leaf_translate (s s' : paging_state A) n n' pre le va' :
  paging_inv s n -> paging_inv s' n' -> page_table (ctx s') = page_table (ctx s) ->
  maps_leaf (mem s) (mem s') (page_table (ctx s)) pre le ->
  (pre `prefix_of` indices va' -> translate s' va' = Some (leaf_pa va' le)) /\
  (~ pre `prefix_of` indices va' -> translate s' va' = translate s va').
Proof.
  intros [Hwf _] [Hwf' _] Hpt [Hin Hout]. unfold translate. rewrite Hpt in *.
  rewrite !get_physical_xlate by done. split; intros Hp.
  - rewrite Hin by auto using indices_vidx. done.
  - rewrite Hout by auto using indices_vidx. done.
Qed.

(** What a successful mapping of one page of [2 ^ k] bytes gives. *)
Definition maps_page (l : nat) (k : Z) (page : Z -> Z) (s s' : paging_state A) (va fa type : Z) : Prop :=
  (forall va', page va' = page va -> translate s' va' = Some (fa + va' mod 2 ^ k)) /\
  (forall va', page va' <> page va -> translate s' va' = translate s va') /\
  (exists e, xlate (mem s') (page_table (ctx s')) (indices va) = Some (l, e) /\
               has_attributes e type).

Lemma maps_leaf_4k_page s s' n n' va fa type e :
  paging_inv s n -> paging_inv s' n' -> page_table (ctx s') = page_table (ctx s) ->
  frame_ok fa -> physical_address e = Z.shiftr fa 12 mod 2 ^ 40 -> has_attributes e type ->
  maps_leaf (mem s) (mem s') (page_table (ctx s)) (indices va) (O, e) ->
  maps_page 0 12 page4k s s' va fa type.
Proof.
  intros Hinv Hinv' Hpt Hfa Hph Hat Hmaps. split_and!.
  - intros va' Hpg. destruct (maps_leaf_translate s s' _ _ _ _ va' Hinv Hinv' Hpt Hmaps) as [Hin _].
    rewrite Hin by (by apply prefix_indices). f_equal. by apply leaf_pa_4k.
  - intros va' Hpg. destruct (maps_leaf_translate s s' _ _ _ _ va' Hinv Hinv' Hpt Hmaps) as [_ Hout].
    apply Hout. rewrite prefix_indices. congruence.
  - exists e. rewrite Hpt. destruct Hmaps as [Hin _]. rewrite Hin; auto using indices_vidx.
Qed.

Lemma add_page_4k fuel (s : paging_state A) n va fa type :
  0 <= n -> paging_inv s (n + 3) -> frame_ok fa ->
  flag_set type MEMORY_PAGING_PAGE_TYPE_1G = false ->
  flag_set type MEMORY_PAGING_PAGE_TYPE_2M = false ->
  translate s va = None ->
  exists s', memory_paging_add_page fuel va fa type s = Done (0, s') /\
    paging_inv s' n /\ page_table (ctx s') = page_table (ctx s) /\
    maps_page 0 12 page4k s s' va fa type /\
    new_tables_at (mem s) (mem s') (page_table (ctx s)) (firstn 3 (indices va)).
Proof.
  intros Hn Hinv Hfa H1 H2 Hnone. apply (translate_none s (n + 3)) in Hnone; [|done].
  destruct (add_page_4k_tree fuel s n va fa type)
    as (e & s' & Hrun & Hinv' & Hpt & Hph & Hat & Hmaps & Hnt); [done..|].
  exists s'. split_and!; [done..| |done]. by apply (maps_leaf_4k_page s s' (n + 3) n va fa type e).
Qed.

Lemma add_page_2m fuel (s : paging_state A) n va fa type :
  0 <= n -> paging_inv s (n + 2) -> frame2m_ok fa ->
  flag_set type MEMORY_PAGING_PAGE_TYPE_1G = false ->
  flag_set type MEMORY_PAGING_PAGE_TYPE_2M = true ->
  translate s va = None -> no_p1_table s va ->
  exists s', memory_paging_add_page fuel va fa type s = Done (0, s') /\
    paging_inv s' n /\ page_table (ctx s') = page_table (ctx s) /\
    maps_page 1 21 page2m s s' va fa type /\
    new_tables_at (mem s) (mem s') (page_table (ctx s)) (firstn 3 (indices va)).
Proof.
  intros Hn Hinv Hfa H1 H2 Hnone Hnot. apply (translate_none s (n + 2)) in Hnone; [|done].
  destruct (add_page_2m_tree fuel s n va fa type)
    as (e & s' & Hrun & Hinv' & Hpt & Hph & Hat & Hmaps & Hnt); [done..|].
  exists s'. split_and!; [done..| |done]. split_and!.
  - intros va' Hpg. destruct (maps_leaf_translate s s' _ _ _ _ va' Hinv Hinv' Hpt Hmaps) as [Hin _].
    rewrite Hin by (by apply prefix3_indices). f_equal. by apply leaf_pa_2m.
  - intros va' Hpg. destruct (maps_leaf_translate s s' _ _ _ _ va' Hinv Hinv' Hpt Hmaps) as [_ Hout].
    apply Hout. rewrite prefix3_indices. congruence.
  - exists e. rewrite Hpt. destruct Hmaps as [Hin _].
    rewrite Hin; [done|apply indices_vidx|done|by eexists [_]].
Qed.

(** ** Mapping where the tables exist *)

Lemma tbl_cons_inv m t i π u :
  tbl m t (i :: π) = Some u ->
  present (read m t i) = true /\ hugepage (read m t i) = false /\
  tbl m (entry_table (read m t i)) π = Some u.
Proof. simpl. destruct (present _), (hugepage _); by intros. Qed.

(** With the lowest table in place the walk takes no frame from the cache. *)
Lemma add_page_walk g (s : paging_state A) va fa type t1 :
  wf (mem s) (page_table (ctx s)) ->
  flag_set type MEMORY_PAGING_PAGE_TYPE_1G = false ->
  flag_set type MEMORY_PAGING_PAGE_TYPE_2M = false ->
  tbl (mem s) (page_table (ctx s)) (firstn 3 (indices va)) = Some t1 ->
  memory_paging_add_page_ext g va fa type s = add_page_p1 t1 va fa type s.
Proof.
  intros Hwf H1 H2 Ht. set (p4 := page_table (ctx s)) in *.
  pose proof Ht as (P4 & Hh4 & Ht3)%tbl_cons_inv.
  pose proof Ht3 as (P3 & Hh3 & Ht2)%tbl_cons_inv.
  pose proof Ht2 as (P2 & Hh2 & [= Ht1])%tbl_cons_inv.
  assert (forall n, (n <= 3)%nat -> vpath (firstn n (indices va))) as Hv.
  { intros. split; [rewrite length_take; lia|]. apply Forall_take, indices_vidx. }
  unfold memory_paging_add_page_ext. rewrite (cmd_bind_done get_state _ s s s) by done.
  rewrite (index_guard _ : (_ <=? MEMORY_PT_GET_P4_INDEX va) = false), read_entry_bind.
  fold p4. rewrite P4. simpl.
  rewrite entry_table64_same by (apply (wf_phys _ _ Hwf []); [apply vpath_nil|done|apply land_511_vidx]).
  unfold add_page_p3.
  rewrite (index_guard _ : (_ <=? MEMORY_PT_GET_P3_INDEX va) = false), read_entry_bind, H1, P3.
  simpl. rewrite entry_table64_same
    by (apply (wf_phys _ _ Hwf (firstn 1 (indices va)));
        [apply Hv; lia|simpl; by rewrite P4, Hh4|apply land_511_vidx]).
  unfold add_page_p2.
  rewrite (index_guard _ : (_ <=? MEMORY_PT_GET_P2_INDEX va) = false), read_entry_bind, H2, P2.
  simpl. rewrite entry_table64_same
    by (apply (wf_phys _ _ Hwf (firstn 2 (indices va)));
        [apply Hv; lia|simpl; rewrite P4, Hh4; simpl; by rewrite P3, Hh3|apply land_511_vidx]).
  by rewrite Ht1.
Qed.

(** A 4K leaf hangs in a table of the lowest level. *)
Lemma xlate_4k_table m p4 va e :
  wf m p4 -> xlate m p4 (indices va) = Some (O, e) ->
  exists t1, tbl m p4 (firstn 3 (indices va)) = Some t1 /\
    read m t1 (MEMORY_PT_GET_P1_INDEX va) = e /\ present e = true.
Proof.
  intros Hwf. unfold indices. cbn [xlate firstn tbl].
  rewrite (wf_top _ _ Hwf) by apply land_511_vidx.
  destruct (present (read m p4 _)); [|done]. simpl.
  destruct (present (read m (entry_table _) _)); [|done]. simpl.
  destruct (hugepage (read m (entry_table _) _)); [done|]. simpl.
  destruct (present (read m (entry_table (read m (entry_table _) _)) _)); [|done]. simpl.
  destruct (hugepage (read m (entry_table (read m (entry_table _) _)) _)); [done|]. simpl.
  destruct (present _) eqn:P; [|done]. intros [= <-]. eauto.
Qed.

Lemma add_page_mapped_4k g (s : paging_state A) va fa type e :
  wf (mem s) (page_table (ctx s)) ->
  flag_set type MEMORY_PAGING_PAGE_TYPE_1G = false ->
  flag_set type MEMORY_PAGING_PAGE_TYPE_2M = false ->
  xlate (mem s) (page_table (ctx s)) (indices va) = Some (O, e) ->
  memory_paging_add_page_ext g va fa type s = Done (0, s).
Proof.
  intros Hwf H1 H2 Hx. destruct (xlate_4k_table _ _ _ _ Hwf Hx) as (t1 & Ht & He & Hp).
  rewrite (add_page_walk g s va fa type t1) by done. unfold add_page_p1.
  rewrite (index_guard _ : (_ <=? MEMORY_PT_GET_P1_INDEX va) = false), read_entry_bind, He.
  by rewrite Hp.
Qed.

Lemma add_page_4k_table fuel (s : paging_state A) n va fa type t1 :
  paging_inv s n -> frame_ok fa ->
  flag_set type MEMORY_PAGING_PAGE_TYPE_1G = false ->
  flag_set type MEMORY_PAGING_PAGE_TYPE_2M = false ->
  translate s va = None ->
  tbl (mem s) (page_table (ctx s)) (firstn 3 (indices va)) = Some t1 ->
  exists s', memory_paging_add_page fuel va fa type s = Done (0, s') /\
    paging_inv s' n /\ page_table (ctx s') = page_table (ctx s) /\
    maps_page 0 12 page4k s s' va fa type /\
    new_tables_at (mem s) (mem s') (page_table (ctx s)) (firstn 3 (indices va)).
Proof.
  intros Hinv Hfa H1 H2 Hnone Ht. pose proof Hinv as [Hwf _].
  apply (translate_none s n) in Hnone; [|done].
  assert (present (read (mem s) t1 (MEMORY_PT_GET_P1_INDEX va)) = false) as Hp.
  { rewrite indices_split, (xlate_app _ _ _ _ t1) in Hnone by done. simpl in Hnone.
    by destruct (present _). }
  unfold memory_paging_add_page. rewrite (add_page_walk _ s va fa type t1) by done.
  unfold add_page_p1. rewrite (index_guard _ : (_ <=? MEMORY_PT_GET_P1_INDEX va) = false),
    read_entry_bind, Hp. simpl.
  set (e := set_physical_address (leaf_attributes (set_present
              (read (mem s) t1 (MEMORY_PT_GET_P1_INDEX va)) true) type) (Z.shiftr fa 12)).
  destruct (write_leaf_spec s n (firstn 3 (indices va)) t1 (MEMORY_PT_GET_P1_INDEX va) e)
    as (Hinv' & Hmaps & Hnt);
    [done|split; [simpl; lia|apply Forall_take, indices_vidx]|apply land_511_vidx|done|done|by right
    |done|by apply phys_shr|].
  eexists. split_and!; [done|done|done| |].
  - by apply (maps_leaf_4k_page s _ n n _ _ _ e).
  - eapply new_tables_at_trans; [done|by intros ?|by eexists|done].
Qed.

(** ** Mapping a block of frames *)

Lemma flag_set_lor a b f : flag_set (Z.lor a b) f = flag_set a f || flag_set b f.
Proof.
  unfold flag_set. rewrite Z.land_lor_distr_l.
  destruct (Z.eqb_spec (Z.land a f) 0) as [->|Ha].
  - by rewrite Z.lor_0_l.
  - destruct (Z.eqb_spec (Z.lor (Z.land a f) (Z.land b f)) 0) as [E|]; [|done].
    by apply Z.lor_eq_0_iff in E as [? _].
Qed.

(** Consecutive pages of the 48-bit address space. *)
Lemma page_range k w va va' :
  0 <= k -> 0 <= w -> va mod 2 ^ k = 0 ->
  0 <= va < 2 ^ (k + w) -> 0 <= va' < 2 ^ (k + w) ->
  (va' / 2 ^ k) mod 2 ^ w = (va / 2 ^ k) mod 2 ^ w <-> va <= va' < va + 2 ^ k.
Proof.
  intros Hk Hw Hm Hva Hva'. rewrite Z.pow_add_r in * by lia.
  assert (0 < 2 ^ k) by lia. assert (0 < 2 ^ w) by lia.
  rewrite !Z.mod_small by
    (split; [apply Z.div_pos; lia|apply Z.div_lt_upper_bound; nia]).
  pose proof (Z.div_mod va (2 ^ k)). pose proof (Z.div_mod va' (2 ^ k)).
  pose proof (Z.mod_pos_bound va' (2 ^ k)). nia.
Qed.

Lemma page4k_range va va' :
  va mod 4096 = 0 -> 0 <= va < 2 ^ 48 -> 0 <= va' < 2 ^ 48 ->
  page4k va' = page4k va <-> va <= va' < va + 4096.
Proof. intros. by apply (page_range 12 36). Qed.

Lemma page2m_range va va' :
  va mod 2 ^ 21 = 0 -> 0 <= va < 2 ^ 48 -> 0 <= va' < 2 ^ 48 ->
  page2m va' = page2m va <-> va <= va' < va + 2 ^ 21.
Proof. intros. by apply (page_range 21 27). Qed.

(** [size] addresses from [va] on become mapped to [fa] on, and no other
    translation of the 48-bit address space changes. *)
Definition maps_range (s s' : paging_state A) (va fa size : Z) : Prop :=
  forall va', 0 <= va' < 2 ^ 48 ->
    translate s' va' =
      if (va <=? va') && (va' <? va + size) then Some (fa + (va' - va)) else translate s va'.

Lemma maps_range_app s1 s2 s3 va fa n1 n2 :
  0 <= n1 -> 0 <= n2 ->
  maps_range s1 s2 va fa n1 -> maps_range s2 s3 (va + n1) (fa + n1) n2 ->
  maps_range s1 s3 va fa (n1 + n2).
Proof.
  intros Hn1 Hn2 H12 H23 va' Hva'. rewrite H23, H12 by done.
  repeat case_match; try lia; try done; f_equal; lia.
Qed.

Lemma maps_page_range_4k s s' va fa type :
  va mod 4096 = 0 -> 0 <= va < 2 ^ 48 ->
  maps_page 0 12 page4k s s' va fa type -> maps_range s s' va fa 4096.
Proof.
  intros Hm Hva (Hin & Hout & _) va' Hva'. pose proof (page4k_range va va' Hm Hva Hva') as Hr.
  destruct (decide (va <= va' < va + 4096)) as [Hd|Hd].
  - rewrite Hin by tauto. case_match; [|lia]. f_equal. f_equal. change (2 ^ 12) with 4096.
    Z.to_euclidean_division_equations; lia.
  - rewrite Hout by tauto. case_match; [lia|done].
Qed.

Lemma maps_page_range_2m s s' va fa type :
  va mod 2 ^ 21 = 0 -> 0 <= va < 2 ^ 48 ->
  maps_page 1 21 page2m s s' va fa type -> maps_range s s' va fa (2 ^ 21).
Proof.
  intros Hm Hva (Hin & Hout & _) va' Hva'. pose proof (page2m_range va va' Hm Hva Hva') as Hr.
  destruct (decide (va <= va' < va + 2 ^ 21)) as [Hd|Hd].
  - rewrite Hin by tauto. case_match; [|lia]. f_equal. f_equal.
    Z.to_euclidean_division_equations; lia.
  - rewrite Hout by tauto. case_match; [lia|done].
Qed.

(** The target range of a block: unmapped, and without tables of the lowest
    level where a 2M page has to go. *)
Record range_free (s : paging_state A) (va size : Z) : Prop := {
  range_unmapped : forall va', va <= va' < va + size -> translate s va' = None;
  range_no_p1 : forall va', va <= va' -> va' + 2 ^ 21 <= va + size ->
    va' mod 2 ^ 21 = 0 -> no_p1_table s va';
}.

Lemma range_free_step s s' va fa step size :
  0 <= va -> va + size <= 2 ^ 48 -> 0 < step -> step <= size ->
  step = 4096 \/ step = 2 ^ 21 ->
  va mod step = 0 ->
  page_table (ctx s') = page_table (ctx s) ->
  maps_range s s' va fa step ->
  new_tables_at (mem s) (mem s') (page_table (ctx s)) (firstn 3 (indices va)) ->
  range_free s va size -> range_free s' (va + step) (size - step).
Proof.
  intros Hva Hend Hs0 Hs Hstep Hm Hpt Hmaps Hnt [Hun Hno]. split.
  - intros va' Hva'. rewrite Hmaps by lia. case_match; [lia|]. apply Hun. lia.
  - intros va' H1 H2 H3. unfold no_p1_table. rewrite Hpt. apply Hnt.
    + split; [done|]. apply Forall_take, indices_vidx.
    + rewrite prefix_same_length by done. rewrite firstn3_indices_eq.
      pose proof (page2m_range va' va H3). lia.
    + apply Hno; [lia..|done].
Qed.

Lemma paging_inv_weaken (s : paging_state A) n n' : n' <= n -> paging_inv s n -> paging_inv s n'.
Proof. intros Hle [Hwf [? ? ? ? ?]]. split; [done|]. split; [done|lia|done..]. Qed.

(** The number of 2 MiB regions [cnt] pages from [va] on touch. *)
Definition regions (va cnt : Z) : Z :=
  if cnt =? 0 then 0 else (va + 4096 * cnt - 1) / 2 ^ 21 - va / 2 ^ 21 + 1.

Definition has_p1_table (s : paging_state A) (va : Z) : Prop :=
  is_Some (tbl (mem s) (page_table (ctx s)) (firstn 3 (indices va))).

(** Frames in the cache: three for every region, except for a first region
    whose lowest table exists. *)
Definition block_budget (s : paging_state A) (va cnt n : Z) : Prop :=
  paging_inv s (n + 3 * regions va cnt) \/
  (0 < cnt /\ has_p1_table s va /\ paging_inv s (n + 3 * (regions va cnt - 1))).

Lemma regions_pos va cnt : 0 < cnt -> 1 <= regions va cnt.
Proof.
  intros. unfold regions. case_match; [lia|].
  assert (va / 2 ^ 21 <= (va + 4096 * cnt - 1) / 2 ^ 21) by (apply Z.div_le_mono; lia). lia.
Qed.

Lemma budget_done s va n : block_budget s va 0 n -> paging_inv s n.
Proof. intros [H|(H & _)]; [|lia]. eapply paging_inv_weaken; [|done]. change (regions va 0) with 0. lia. Qed.

Lemma budget_next_4k s va cnt n :
  0 < cnt -> va mod 4096 = 0 -> 0 <= va -> va + 4096 < 2 ^ 64 ->
  (1 < cnt -> va + 4096 < 2 ^ 48) ->
  has_p1_table s va -> paging_inv s (n + 3 * (regions va cnt - 1)) ->
  block_budget s (va + 4096) (cnt - 1) n.
Proof.
  intros Hc Hm Hva Hva' Hva2 Hp1 Hinv. destruct (decide (cnt = 1)) as [->|Hc1].
  { left. eapply paging_inv_weaken; [|done]. pose proof (regions_pos va 1).
    change (regions (va + 4096) (1 - 1)) with 0. lia. }
  assert (regions (va + 4096) (cnt - 1) =
    (va + 4096 * cnt - 1) / 2 ^ 21 - (va + 4096) / 2 ^ 21 + 1) as Hr.
  { unfold regions. case_match; [lia|]. do 3 f_equal. lia. }
  assert (regions va cnt = (va + 4096 * cnt - 1) / 2 ^ 21 - va / 2 ^ 21 + 1) as Hr0
    by (unfold regions; case_match; [lia|done]).
  destruct (decide ((va + 4096) / 2 ^ 21 = va / 2 ^ 21)) as [E|E].
  - right. split_and!; [lia| |by rewrite Hr, E, <- Hr0].
    unfold has_p1_table. replace (firstn 3 (indices (va + 4096))) with (firstn 3 (indices va)); [done|].
    apply firstn3_indices_eq. unfold page2m. by rewrite E.
  - left. eapply paging_inv_weaken; [|done]. rewrite Hr, Hr0.
    assert (va / 2 ^ 21 <= (va + 4096) / 2 ^ 21) by (apply Z.div_le_mono; lia). lia.
Qed.

(** The hypotheses of one iteration of the mapping loop. *)
Record block_ok (s : paging_state A) (va fa cnt type n : Z) : Prop := {
  block_inv : block_budget s va cnt n;
  block_spare : 0 <= n;
  block_1g : flag_set type MEMORY_PAGING_PAGE_TYPE_1G = false;
  block_2m : flag_set type MEMORY_PAGING_PAGE_TYPE_2M = false;
  block_va : va mod 4096 = 0 /\ 0 <= va /\ va + 4096 * cnt <= 2 ^ 48;
  block_fa : fa mod 4096 = 0 /\ 0 <= fa /\ fa + 4096 * cnt <= 2 ^ 40;
  block_free : range_free s va (4096 * cnt);
}.

Lemma block_step (s s1 : paging_state A) va fa cnt type n c :
  block_ok s va fa cnt type n -> c = 1 \/ c = 512 -> c <= cnt -> va mod (4096 * c) = 0 ->
  block_budget s1 (va + 4096 * c) (cnt - c) n -> page_table (ctx s1) = page_table (ctx s) ->
  maps_range s s1 va fa (4096 * c) ->
  new_tables_at (mem s) (mem s1) (page_table (ctx s)) (firstn 3 (indices va)) ->
  block_ok s1 (u64 (va + 4096 * c)) (u64 (fa + 4096 * c)) (cnt - c) type n.
Proof.
  intros [_ Hn H1 H2 [Hva Hva'] [Hfa Hfa'] Hfree] Hc Hle Hm Hinv Hpt Hmaps Hnt.
  unfold u64. rewrite !Z.mod_small by lia. split; [done..| | |].
  - split; [|lia]. Z.to_euclidean_division_equations; lia.
  - split; [|lia]. Z.to_euclidean_division_equations; lia.
  - replace (4096 * (cnt - c)) with (4096 * cnt - 4096 * c) by lia.
    apply (range_free_step s s1 va fa); try lia; done.
Qed.

Lemma block_2m_page fuel (s : paging_state A) va fa cnt type n :
  block_ok s va fa cnt type n -> 512 <= cnt -> fa mod 2 ^ 21 = 0 -> va mod 2 ^ 21 = 0 ->
  exists s1, memory_paging_add_page fuel va fa (Z.lor type MEMORY_PAGING_PAGE_TYPE_2M) s
      = Done (0, s1) /\
    page_table (ctx s1) = page_table (ctx s) /\ maps_range s s1 va fa (4096 * 512) /\
    block_ok s1 (u64 (va + 2 ^ 21)) (u64 (fa + 2 ^ 21)) (cnt - 512) type n.
Proof.
  intros Hb Hc Hfa Hva. pose proof Hb as [Hbud Hn H1 H2 Hva' Hfa' Hfree].
  assert (no_p1_table s va) as Hno by (apply (range_no_p1 _ _ _ Hfree); lia).
  assert (regions (va + 2 ^ 21) (cnt - 512) <= regions va cnt - 1) as Hreg.
  { pose proof (regions_pos va cnt). unfold regions in *. repeat case_match; try lia.
    replace (va + 2 ^ 21) with (va + 1 * 2 ^ 21) by lia.
    rewrite Z.div_add by lia. replace (va + 1 * 2 ^ 21 + 4096 * (cnt - 512) - 1)
      with (va + 4096 * cnt - 1) by lia. lia. }
  assert (paging_inv s (n + 3 * regions va cnt)) as Hinv.
  { destruct Hbud as [|(_ & [? Hp] & _)]; [done|]. unfold no_p1_table in Hno. congruence. }
  destruct (add_page_2m fuel s (n + 3 * (regions va cnt - 1)) va fa
              (Z.lor type MEMORY_PAGING_PAGE_TYPE_2M))
    as (s1 & Hrun & Hinv1 & Hpt1 & Hm1 & Hnt1).
  - pose proof (regions_pos va cnt). lia.
  - eapply paging_inv_weaken; [|done]; lia.
  - split; [lia|done].
  - by rewrite flag_set_lor, H1.
  - by rewrite flag_set_lor, H2.
  - apply (range_unmapped _ _ _ Hfree). lia.
  - done.
  - apply maps_page_range_2m in Hm1; [|lia..].
    exists s1. split_and!; [done..|].
    apply (block_step s s1 va fa cnt type n 512); auto.
    left. eapply paging_inv_weaken; [|done]. change (4096 * 512) with (2 ^ 21). lia.
Qed.

Lemma add_page_4k_budget fuel (s : paging_state A) va fa cnt type n :
  block_ok s va fa cnt type n -> 1 <= cnt ->
  exists s1, memory_paging_add_page fuel va fa (Z.lor type MEMORY_PAGING_PAGE_TYPE_4K) s
      = Done (0, s1) /\
    paging_inv s1 (n + 3 * (regions va cnt - 1)) /\ page_table (ctx s1) = page_table (ctx s) /\
    maps_page 0 12 page4k s s1 va fa (Z.lor type MEMORY_PAGING_PAGE_TYPE_4K) /\
    new_tables_at (mem s) (mem s1) (page_table (ctx s)) (firstn 3 (indices va)).
Proof.
  intros [Hbud Hn H1 H2 Hva' Hfa' Hfree] Hc. pose proof (regions_pos va cnt).
  assert (translate s va = None) by (apply (range_unmapped _ _ _ Hfree); lia).
  assert (frame_ok fa) by (split; [lia|tauto]).
  destruct Hbud as [Hinv|(_ & [t1 Ht] & Hinv)].
  - apply add_page_4k; auto; [lia| |by rewrite flag_set_lor, H1|by rewrite flag_set_lor, H2].
    eapply paging_inv_weaken; [|done]; lia.
  - apply add_page_4k_table with (t1 := t1); auto; by rewrite flag_set_lor, ?H1, ?H2.
Qed.

Lemma block_4k_page fuel (s : paging_state A) va fa cnt type n :
  block_ok s va fa cnt type n -> 1 <= cnt ->
  exists s1, memory_paging_add_page fuel va fa (Z.lor type MEMORY_PAGING_PAGE_TYPE_4K) s
      = Done (0, s1) /\
    page_table (ctx s1) = page_table (ctx s) /\ maps_range s s1 va fa (4096 * 1) /\
    block_ok s1 (u64 (va + 4096)) (u64 (fa + 4096)) (cnt - 1) type n.
Proof.
  intros Hb Hc. pose proof Hb as [_ _ _ _ Hva' Hfa' _].
  destruct (add_page_4k_budget fuel s va fa cnt type n)
    as (s1 & Hrun & Hinv1 & Hpt1 & Hm1 & Hnt1); [done..|].
  pose proof Hm1 as (_ & _ & e & Hx & _).
  apply xlate_4k_table in Hx as (t1 & Ht1 & _); [|apply Hinv1].
  apply maps_page_range_4k in Hm1; [|lia..].
  exists s1. split_and!; [done..|]. apply (block_step s s1 va fa cnt type n 1); auto; [tauto|].
  apply budget_next_4k; try lia; [by exists t1|done].
Qed.

Lemma maps_range_u64 s1 s2 s3 va fa n1 n2 :
  0 <= n1 -> 0 <= n2 -> 0 <= va -> va + n1 < 2 ^ 64 -> 0 <= fa -> fa + n1 < 2 ^ 64 ->
  maps_range s1 s2 va fa n1 -> maps_range s2 s3 (u64 (va + n1)) (u64 (fa + n1)) n2 ->
  maps_range s1 s3 va fa (n1 + n2).
Proof. intros ??????. unfold u64. rewrite !Z.mod_small by lia. by apply maps_range_app. Qed.

Lemma add_va_loop_spec fuel type n k : forall (s : paging_state A) va fa cnt,
  0 <= cnt <= Z.of_nat k -> block_ok s va fa cnt type n ->
  exists s', add_va_loop k (memory_paging_add_page fuel) va fa cnt type s = Done (0, s') /\
    paging_inv s' n /\ page_table (ctx s') = page_table (ctx s) /\
    maps_range s s' va fa (4096 * cnt).
Proof.
  induction k as [|k IH]; intros s va fa cnt Hcnt Hb; pose proof Hb as [Hinv Hn _ _ Hva Hfa _];
    (destruct (Z.eqb_spec cnt 0) as [->|Hc0];
      [exists s; split_and!; [done|by eapply budget_done|done|];
       intros va' _; case_match; [lia|done]|]); [lia|].
  simpl. destruct (Z.eqb_spec cnt 0) as [|_]; [done|].
  change MEMORY_PAGING_PAGE_LENGTH_2M with (2 ^ 21). change MEMORY_PAGING_PAGE_LENGTH_4K with 4096.
  destruct (_ && _ && _) eqn:E.
  - apply andb_prop in E as [[E1%Z.leb_le E2%Z.eqb_eq]%andb_prop E3%Z.eqb_eq].
    destruct (block_2m_page fuel s va fa cnt type n) as (s1 & Hrun & Hpt & Hm & Hb1); [done..|].
    destruct (IH s1 _ _ (cnt - 512) ltac:(lia) Hb1) as (s2 & Hrun2 & Hinv2 & Hpt2 & Hm2).
    exists s2. split_and!; [by rewrite (cmd_bind_done _ _ _ _ _ Hrun)|done|congruence|].
    replace (4096 * cnt) with (4096 * 512 + 4096 * (cnt - 512)) by lia.
    by apply maps_range_u64 with (s2 := s1); [lia..| |].
  - destruct (block_4k_page fuel s va fa cnt type n) as (s1 & Hrun & Hpt & Hm & Hb1); [done|lia|].
    destruct (IH s1 _ _ (cnt - 1) ltac:(lia) Hb1) as (s2 & Hrun2 & Hinv2 & Hpt2 & Hm2).
    exists s2. split_and!; [by rewrite (cmd_bind_done _ _ _ _ _ Hrun)|done|congruence|].
    replace (4096 * cnt) with (4096 * 1 + 4096 * (cnt - 1)) by lia.
    by apply maps_range_u64 with (s2 := s1); [lia..| |].
Qed.
End Mapping.
