(* ===== verification/PagingUnmap.v ===== *)
(** * Unmapping and attribute changes

    Deleting a page makes exactly the addresses of its leaf fault and unlinks
    the tables that became empty.  Attribute changes rewrite entries without
    touching what they refer to: memories that agree on the present bit, the
    large-page bit and the address of every entry are equivalent, and
    translation respects this equivalence. *)

From S2P Require Import Prelude Frame Paging PagingTheory PagingProps PagingMapping.

Section Unmap.
Context `{BF : BitfieldPrecision} {A : Type} `{FA : FrameAllocatorOps A}.
Implicit Types s : paging_state A.

Lemma vpath_indices n va : (n <= 3)%nat -> vpath (firstn n (indices va)).
Proof. intros. split; [rewrite length_take; lia|]. apply Forall_take, indices_vidx. Qed.

(** ** Releasing empty tables *)

Lemma table_used_false m t i :
  table_used m t = false -> vidx i -> present (read m t i) = false.
Proof.
  intros Hu Hi. destruct (present (read m t i)) eqn:E; [|done]. exfalso.
  assert (table_used m t = true); [|congruence].
  apply existsb_exists. exists i. split; [|done].
  apply list_elem_of_In, elem_of_seqZ. unfold vidx, MEMORY_PAGING_INDEX_COUNT in *. lia.
Qed.

(** The tables of [m'] are tables of [m], in the same place. *)
Definition shrinks (m m' : memory) (p4 : Z) : Prop :=
  forall ρ u, vpath ρ -> tbl m' p4 ρ = Some u -> tbl m p4 ρ = Some u.

(** [s'] has the translations of [s] except below [pre], where nothing is mapped. *)
Definition unmaps (s s' : paging_state A) (pre : list Z) : Prop :=
  wf (mem s') (page_table (ctx s)) /\ ctx s' = ctx s /\
  shrinks (mem s) (mem s') (page_table (ctx s)) /\
  (forall ix, Forall vidx ix -> length ix = 4%nat -> pre `prefix_of` ix ->
     xlate (mem s') (page_table (ctx s)) ix = None) /\
  (forall ix, Forall vidx ix -> length ix = 4%nat -> ~ pre `prefix_of` ix ->
     xlate (mem s') (page_table (ctx s)) ix = xlate (mem s) (page_table (ctx s)) ix).

Lemma unmaps_same s s' s'' pre :
  unmaps s s' pre -> wf (mem s'') (page_table (ctx s)) -> ctx s'' = ctx s' ->
  shrinks (mem s') (mem s'') (page_table (ctx s)) ->
  same_xlate (mem s') (mem s'') (page_table (ctx s)) -> unmaps s s'' pre.
Proof.
  intros (H1 & H2 & H3 & H4 & H5) Hwf Hc Hsh Hs. split_and!; [done|congruence| |..].
  - intros ρ u Hρ Hu. by apply H3, Hsh.
  - intros ix Hv Hl Hp; rewrite Hs by done; auto.
  - intros ix Hv Hl Hp; rewrite Hs by done; auto.
Qed.

Lemma zero_no_child π : no_child π zero_entry.
Proof. by left. Qed.

(** The tables on the way to [π] stay where they are. *)
Definition keeps (m m' : memory) (p4 : Z) (π : list Z) : Prop :=
  forall ρ, ρ `prefix_of` π -> tbl m' p4 ρ = tbl m p4 ρ.

Lemma keeps_write m p4 π t i e :
  wf m p4 -> vpath π -> tbl m p4 π = Some t -> keeps m (write m t i e) p4 π.
Proof.
  intros Hwf Hπ Ht ρ Hρ. apply tbl_write_other with (π := π); auto.
  - destruct Hρ as [σ ->]. by eapply vpath_app_inv.
  - intros Hp. apply (not_prefix_self π i). by etrans.
Qed.

Lemma keeps_trans m1 m2 m3 p4 π π' :
  keeps m1 m2 p4 π' -> keeps m2 m3 p4 π -> π `prefix_of` π' -> keeps m1 m3 p4 π.
Proof. intros H1 H2 Hp ρ Hρ. rewrite H2 by done. apply H1. by etrans. Qed.

(** Deleting a leaf. *)
Lemma unmap_leaf s π t i :
  let p4 := page_table (ctx s) in
  wf (mem s) p4 -> vpath π -> vidx i -> tbl (mem s) p4 π = Some t ->
  unmaps s (mk_paging (write (mem s) t i zero_entry) (ctx s) (alloc s)) (π ++ [i]).
Proof.
  intros p4 Hwf Hπ Hi Ht. split_and!; simpl.
  - by apply wf_write_leaf with (π := π); auto using zero_no_child.
  - done.
  - intros ρ u Hρ. apply write_leaf_tbl_inv with (π := π); auto using zero_no_child.
  - intros ix _ _ [σ ->]. rewrite <- app_assoc. simpl. by rewrite xlate_write_self.
  - intros ix Hv Hl Hp. by apply xlate_write_other with (π := π).
Qed.

Lemma release_if_unused_spec s π t i c :
  let p4 := page_table (ctx s) in
  wf (mem s) p4 -> vpath π -> (length π <= 2)%nat -> vidx i ->
  tbl (mem s) p4 π = Some t -> tbl (mem s) p4 (π ++ [i]) = Some c ->
  exists s', release_if_unused t i c s = Done (tt, s') /\
    wf (mem s') p4 /\ ctx s' = ctx s /\ shrinks (mem s) (mem s') p4 /\
    same_xlate (mem s) (mem s') p4 /\ keeps (mem s) (mem s') p4 π /\
    (table_used (mem s) c = false -> fresh (mem s') p4 c).
Proof.
  intros p4 Hwf Hπ Hlen Hi Ht Hc. unfold release_if_unused.
  rewrite (cmd_bind_done get_state _ s s s) by done.
  destruct (table_used (mem s) c) eqn:Hu; [exists s; split_and!; try done; by intros ?|].
  pose proof (unmap_leaf s π t i Hwf Hπ Hi Ht) as (Hwf' & _ & Hsh & Hin & Hout). simpl in *.
  eexists. split; [done|]. simpl. split_and!; [done..| | |].
  - intros ix Hv Hl. destruct (decide ((π ++ [i]) `prefix_of` ix)) as [Hp|Hp]; [|by apply Hout].
    rewrite Hin by done. destruct Hp as [σ ->]. rewrite !length_app in Hl. simpl in Hl.
    destruct σ as [|j σ]; [simpl in Hl; lia|].
    rewrite (xlate_app _ _ _ _ c) by done. simpl. rewrite (table_used_false _ _ j); [done..|].
    apply Forall_app in Hv as [_ Hv]. by inversion Hv.
  - by apply keeps_write.
  - intros _ ρ Hρ Hρc. apply (write_leaf_tbl_inv _ _ π t i zero_entry) in Hρc as Hρc';
      auto using zero_no_child.
    assert (ρ = π ++ [i]) as ->
      by (by apply (wf_inj _ _ Hwf _ _ c); auto using vpath_snoc).
    rewrite (no_child_blocks _ _ π t i zero_entry (π ++ [i])) in Hρc;
      auto using zero_no_child. done.
Qed.

Lemma unmaps_inv s s' pre n : paging_inv s n -> unmaps s s' pre -> paging_inv s' n.
Proof.
  intros [Hwf [H1 H2 H3 H4 H5]] (Hwf' & Hc & Hsh & _). split; [by rewrite Hc|].
  split; rewrite Hc; [done..|]. intros k Hk ρ Hρ Hu. apply (H5 k Hk ρ Hρ). by apply Hsh.
Qed.

(** ** Deleting a page *)

(** A deletion below the table [c] in entry [i] of [t], followed by the
    release of [c] if it became empty. *)
Lemma delete_level s (r : cmd (paging_state A) (option Z)) s1 π t i c pre fa :
  let p4 := page_table (ctx s) in
  vpath π -> (length π <= 2)%nat -> vidx i ->
  tbl (mem s) p4 π = Some t -> tbl (mem s) p4 (π ++ [i]) = Some c ->
  r s = Done (Some fa, s1) -> unmaps s s1 pre -> keeps (mem s) (mem s1) p4 (π ++ [i]) ->
  exists s', (x ← r; match x with
                     | None => mret None
                     | Some fa => release_if_unused t i c ;; mret (Some fa)
                     end) s = Done (Some fa, s') /\
    unmaps s s' pre /\ keeps (mem s) (mem s') p4 π.
Proof.
  intros p4 Hπ Hlen Hi Ht Hc Hr Hu Hk. pose proof Hu as (Hwf & Hctx & _).
  destruct (release_if_unused_spec s1 π t i c) as (s' & Hrun & Hwf' & Hctx' & Hsh & Hs & Hk' & _);
    rewrite ?Hctx; [done..| | |].
  - rewrite Hk by (by eexists). done.
  - by rewrite Hk.
  - rewrite Hctx in *. exists s'. split_and!.
    + rewrite (cmd_bind_done _ _ _ _ _ Hr). by rewrite (cmd_bind_done _ _ _ _ _ Hrun).
    + apply (unmaps_same s s1); [done..| |done|done]. congruence.
    + eapply keeps_trans; [done|done|by eexists].
Qed.

Lemma delete_leaf s π t i :
  let p4 := page_table (ctx s) in
  wf (mem s) p4 -> vpath π -> vidx i -> tbl (mem s) p4 π = Some t ->
  exists s', write_entry t i zero_entry s = Done (tt, s') /\
    unmaps s s' (π ++ [i]) /\ keeps (mem s) (mem s') p4 π.
Proof.
  intros p4 Hwf Hπ Hi Ht. eexists. split; [done|]. split.
  - by apply unmap_leaf.
  - by apply keeps_write.
Qed.

Abbreviation I4 := MEMORY_PT_GET_P4_INDEX.
Abbreviation I3 := MEMORY_PT_GET_P3_INDEX.
Abbreviation I2 := MEMORY_PT_GET_P2_INDEX.
Abbreviation I1 := MEMORY_PT_GET_P1_INDEX.

Lemma delete_page_p1_spec s va t2 t1 e :
  let p4 := page_table (ctx s) in
  wf (mem s) p4 ->
  tbl (mem s) p4 [I4 va; I3 va] = Some t2 ->
  tbl (mem s) p4 [I4 va; I3 va; I2 va] = Some t1 ->
  read (mem s) t1 (I1 va) = e -> present e = true ->
  exists s', delete_page_p1 t2 (I2 va) t1 va s = Done (Some (shl12 (physical_address e)), s') /\
    unmaps s s' (indices va) /\ keeps (mem s) (mem s') p4 [I4 va; I3 va].
Proof.
  intros p4 Hwf H2 H1 <- Hp.
  destruct (delete_leaf s [I4 va; I3 va; I2 va] t1 (I1 va))
    as (s1 & Hw & Hu & Hk); [done|apply (vpath_indices 3); lia|apply land_511_vidx|done|].
  destruct (delete_level s (write_entry t1 (I1 va) zero_entry ;;
      mret (Some (shl12 (physical_address (read (mem s) t1 (I1 va))))))
      s1 [I4 va; I3 va] t2 (I2 va) t1 (indices va)
      (shl12 (physical_address (read (mem s) t1 (I1 va)))))
    as (s' & Hrun & Hu' & Hk');
    [apply (vpath_indices 2); lia|simpl; lia|apply land_511_vidx|done|done| |done|done|].
  { by rewrite (cmd_bind_done _ _ _ _ _ Hw). }
  exists s'. split_and!; [|done..]. rewrite <- Hrun. unfold delete_page_p1.
  rewrite (index_guard _ : (_ <=? I1 va) = false), read_entry_bind, Hp. simpl.
  unfold mbind, cmd_bind. by rewrite Hw.
Qed.

(** The leaf of an address determines the prefix of indices it covers. *)
Abbreviation leaf_prefix va l := (firstn (4 - l) (indices va)).

Lemma delete_page_p2_spec s va t3 t2 l e :
  let p4 := page_table (ctx s) in
  wf (mem s) p4 ->
  tbl (mem s) p4 [I4 va] = Some t3 ->
  tbl (mem s) p4 [I4 va; I3 va] = Some t2 ->
  xlate (mem s) t2 [I2 va; I1 va] = Some (l, e) ->
  exists s', delete_page_p2 t3 (I3 va) t2 va s = Done (Some (shl12 (physical_address e)), s') /\
    unmaps s s' (leaf_prefix va l) /\ keeps (mem s) (mem s') p4 [I4 va].
Proof.
  intros p4 Hwf H3 H2 Hx. unfold delete_page_p2.
  rewrite (index_guard _ : (_ <=? I2 va) = false), read_entry_bind. simpl in Hx.
  set (e2 := read (mem s) t2 (I2 va)) in *.
  destruct (present e2) eqn:P2; simpl in Hx |- *; [|done].
  destruct (hugepage e2) eqn:Hh2.
  - injection Hx as <- <-.
    destruct (delete_leaf s [I4 va; I3 va] t2 (I2 va)) as (s1 & Hw & Hu & Hk);
      [done|apply (vpath_indices 2); lia|apply land_511_vidx|done|].
    apply (delete_level s _ s1 [I4 va] t3 (I3 va) t2);
      [apply (vpath_indices 1); lia|simpl; lia|apply land_511_vidx|done|done| |done|done].
    by rewrite (cmd_bind_done _ _ _ _ _ Hw).
  - destruct (present (read (mem s) (entry_table e2) (I1 va))) eqn:P1; simpl in Hx; [|done].
    injection Hx as <- <-.
    destruct (delete_page_p1_spec s va t2 (entry_table e2) (read (mem s) (entry_table e2) (I1 va)))
      as (s1 & Hw & Hu & Hk); [done|done| |done|done|].
    { fold p4. change [I4 va; I3 va; I2 va] with ([I4 va; I3 va] ++ [I2 va]).
      rewrite tbl_app, H2. simpl. fold e2. by rewrite P2, Hh2. }
    apply (delete_level s _ s1 [I4 va] t3 (I3 va) t2);
      [apply (vpath_indices 1); lia|simpl; lia|apply land_511_vidx|done..].
Qed.

Lemma delete_page_mapped s va l e :
  let p4 := page_table (ctx s) in
  wf (mem s) p4 -> xlate (mem s) p4 (indices va) = Some (l, e) ->
  exists s', memory_paging_delete_page_ext va s = Done (Some (shl12 (physical_address e)), s') /\
    unmaps s s' (leaf_prefix va l).
Proof.
  intros p4 Hwf Hx. unfold memory_paging_delete_page_ext.
  rewrite (cmd_bind_done get_state _ s s s) by done. fold p4.
  rewrite (index_guard _ : (_ <=? I4 va) = false), read_entry_bind. unfold indices in Hx.
  cbn [xlate] in Hx. rewrite (wf_top _ _ Hwf) in Hx by apply land_511_vidx.
  assert (hugepage (read (mem s) p4 (I4 va)) = false) as Hh4 by apply (wf_top _ _ Hwf), land_511_vidx.
  set (e4 := read (mem s) p4 (I4 va)) in *.
  destruct (present e4) eqn:P4; [|done]. cbn [negb] in Hx |- *.
  rewrite (index_guard _ : (_ <=? I3 va) = false), read_entry_bind.
  assert (tbl (mem s) p4 [I4 va] = Some (entry_table e4)) as T3
    by (simpl; fold e4; by rewrite P4, Hh4).
  set (e3 := read (mem s) (entry_table e4) (I3 va)) in *.
  destruct (present e3) eqn:P3; [|done]. cbn [negb] in Hx |- *.
  enough (exists s', _ = Done _ /\ unmaps s s' (leaf_prefix va l) /\ keeps (mem s) (mem s') p4 [])
    as (s' & ? & ? & _) by eauto.
  destruct (hugepage e3) eqn:Hh3.
  - injection Hx as <- <-.
    destruct (delete_leaf s [I4 va] (entry_table e4) (I3 va)) as (s1 & Hw & Hu & Hk);
      [done|apply (vpath_indices 1); lia|apply land_511_vidx|done|].
    apply (delete_level s _ s1 [] p4 (I4 va) (entry_table e4));
      [apply vpath_nil|simpl; lia|apply land_511_vidx|done|done| |done|done].
    by rewrite (cmd_bind_done _ _ _ _ _ Hw).
  - destruct (delete_page_p2_spec s va (entry_table e4) (entry_table e3) l e)
      as (s1 & Hw & Hu & Hk); [done|done| |done|].
    { fold p4. change [I4 va; I3 va] with ([I4 va] ++ [I3 va]).
      rewrite tbl_app, T3. simpl. fold e3. by rewrite P3, Hh3. }
    apply (delete_level s _ s1 [] p4 (I4 va) (entry_table e4));
      [apply vpath_nil|simpl; lia|apply land_511_vidx|done..].
Qed.

Lemma delete_page_unmapped s va :
  let p4 := page_table (ctx s) in
  wf (mem s) p4 -> xlate (mem s) p4 (indices va) = None ->
  memory_paging_delete_page_ext va s = Done (None, s).
Proof.
  intros p4 Hwf Hx. unfold memory_paging_delete_page_ext, delete_page_p2, delete_page_p1.
  rewrite (cmd_bind_done get_state _ s s s) by done. fold p4.
  rewrite (index_guard _ : (_ <=? I4 va) = false), read_entry_bind. unfold indices in Hx.
  cbn [xlate] in Hx. rewrite (wf_top _ _ Hwf) in Hx by apply land_511_vidx.
  set (e4 := read (mem s) p4 (I4 va)) in *.
  destruct (present e4); [|done]. cbn [negb] in Hx |- *.
  rewrite (index_guard _ : (_ <=? I3 va) = false), read_entry_bind.
  set (e3 := read (mem s) (entry_table e4) (I3 va)) in *.
  destruct (present e3); [|done]. cbn [negb] in Hx |- *. destruct (hugepage e3); [done|].
  rewrite (index_guard _ : (_ <=? I2 va) = false).
  unfold mbind at 1, cmd_bind at 1. rewrite read_entry_bind.
  set (e2 := read (mem s) (entry_table e3) (I2 va)) in *.
  destruct (present e2); [|done]. cbn [negb] in Hx |- *. destruct (hugepage e2); [done|].
  rewrite (index_guard _ : (_ <=? I1 va) = false).
  unfold mbind at 1, cmd_bind at 1. rewrite read_entry_bind.
  by destruct (present (read (mem s) (entry_table e2) (I1 va))).
Qed.

(** ** Memories that translate alike *)

Definition entry_equiv (e e' : memory_page_entry_t) : Prop :=
  present e = present e' /\ hugepage e = hugepage e' /\
  physical_address e = physical_address e'.

#[export] Instance entry_equiv_equivalence : Equivalence entry_equiv.
Proof.
  split; unfold entry_equiv.
  - by intros e.
  - intros ? ? (? & ? & ?). split_and!; congruence.
  - intros ? ? ? (? & ? & ?) (? & ? & ?). split_and!; congruence.
Qed.

Definition mem_equiv (m m' : memory) : Prop :=
  forall t i, entry_equiv (read m t i) (read m' t i).

#[export] Instance mem_equiv_equivalence : Equivalence mem_equiv.
Proof.
  split.
  - by intros m t i.
  - intros m m' H t i. by symmetry.
  - intros m1 m2 m3 H12 H23 t i. by transitivity (read m2 t i).
Qed.

#[export] Instance entry_table_proper : Proper (entry_equiv ==> eq) entry_table.
Proof. intros e e' (_ & _ & H). unfold entry_table. by rewrite H. Qed.

(** Translation respects the equivalence. *)
#[export] Instance get_physical_proper :
  Proper (mem_equiv ==> eq ==> eq ==> eq) memory_paging_get_physical_address_ext.
Proof.
  intros m m' Hm p4 ? <- va ? <-. unfold memory_paging_get_physical_address_ext.
  case_match; [done|]. destruct (Hm p4 (I4 va)) as (-> & _ & H4).
  case_match; [done|]. rewrite (entry_table_proper _ _ (Hm p4 (I4 va))).
  case_match; [done|]. set (t3 := entry_table _). destruct (Hm t3 (I3 va)) as (-> & -> & ->).
  case_match; [done|]. case_match; [done|]. rewrite (entry_table_proper _ _ (Hm t3 (I3 va))).
  case_match; [done|]. set (t2 := entry_table _). destruct (Hm t2 (I2 va)) as (-> & -> & ->).
  case_match; [done|]. case_match; [done|]. rewrite (entry_table_proper _ _ (Hm t2 (I2 va))).
  case_match; [done|]. set (t1 := entry_table _). by destruct (Hm t1 (I1 va)) as (-> & _ & ->).
Qed.

(** Functions on entries that change attributes only. *)
Definition attr_only (f : memory_page_entry_t -> memory_page_entry_t) : Prop :=
  forall e, entry_equiv (f e) e.

Lemma write_attr_equiv m t i f :
  attr_only f -> mem_equiv (write m t i (f (read m t i))) m.
Proof.
  intros Hf t' i'. destruct (decide ((t, i) = (t', i'))) as [[= <- <-]|Hne].
  - rewrite read_write_eq. apply Hf.
  - by rewrite read_write_ne.
Qed.

Lemma walk_update_equiv ft fl m p4 va :
  attr_only ft -> attr_only fl -> mem_equiv (snd (walk_update ft fl m p4 va)) m.
Proof.
  intros Ht Hl. unfold walk_update.
  destruct (_ <=? I4 va); [done|]. destruct (negb _); [done|].
  set (m1 := write m p4 _ _). assert (mem_equiv m1 m) as E1 by (by apply write_attr_equiv).
  clearbody m1. set (t3 := entry_table _). clearbody t3.
  destruct (_ <=? I3 va); [done|]. destruct (negb _); [done|].
  destruct (hugepage _); [by etrans; [apply write_attr_equiv|]|].
  set (m2 := write m1 t3 _ _).
  assert (mem_equiv m2 m) as E2 by (by etrans; [apply write_attr_equiv|]).
  clearbody m2. set (t2 := entry_table _). clearbody t2.
  destruct (_ <=? I2 va); [done|]. destruct (negb _); [done|].
  destruct (hugepage _); [by etrans; [apply write_attr_equiv|]|].
  set (m3 := write m2 t2 _ _).
  assert (mem_equiv m3 m) as E3 by (by etrans; [apply write_attr_equiv|]).
  clearbody m3. set (t1 := entry_table _). clearbody t1.
  destruct (_ <=? I1 va); [done|]. destruct (negb _); [done|].
  by etrans; [apply write_attr_equiv|].
Qed.

Lemma clear_bits_attr type : attr_only (clear_bits type).
Proof. intros e. unfold clear_bits. by repeat case_match. Qed.
Lemma toggle_user_attr type : attr_only (toggle_user type).
Proof. intros e. unfold toggle_user. by repeat case_match. Qed.
Lemma toggle_bits_attr type : attr_only (toggle_bits type).
Proof.
  intros e. unfold toggle_bits.
  etrans; [unfold toggle_global at 1; by case_match|].
  etrans; [unfold toggle_disable_cache at 1; by case_match|].
  etrans; [unfold toggle_write_through at 1; by case_match|].
  etrans; [unfold toggle_user at 1; by case_match|].
  etrans; [unfold toggle_no_execute at 1; by case_match|].
  unfold toggle_writable. by case_match.
Qed.
Lemma set_user_attr : attr_only (fun e => set_user_accessible e true).
Proof. done. Qed.
Lemma id_attr : attr_only id.
Proof. done. Qed.

(** ** What attribute changes do to the leaf *)

Lemma tbl_equiv m m' t π : mem_equiv m m' -> tbl m t π = tbl m' t π.
Proof.
  intros Hm. revert t; induction π as [|i π IH]; intros t; simpl; [done|].
  rewrite (entry_table_proper _ _ (Hm t i)). destruct (Hm t i) as (-> & -> & _).
  case_match; [apply IH|done].
Qed.

Lemma wf_equiv m m' p4 : mem_equiv m' m -> wf m p4 -> wf m' p4.
Proof.
  intros Hm [H1 H2 H3 H4]. split.
  - intros π1 π2 t. rewrite !(tbl_equiv m' m) by done. apply H1.
  - intros π t i. rewrite (tbl_equiv m' m) by done. destruct (Hm t i) as (-> & -> & _). apply H2.
  - intros i. destruct (Hm p4 i) as (_ & -> & _). apply H3.
  - intros π t i. rewrite (tbl_equiv m' m) by done. destruct (Hm t i) as (_ & _ & ->). apply H4.
Qed.

(** Below a slot the walk never meets the slot again. *)
Lemma xlate_write_below m p4 π t i e ρ σ t0 :
  wf m p4 -> vpath π -> tbl m p4 π = Some t -> Forall vidx (ρ ++ σ) ->
  (length (ρ ++ σ) <= 4)%nat -> tbl m p4 ρ = Some t0 -> (length π < length ρ)%nat ->
  xlate (write m t i e) t0 σ = xlate m t0 σ.
Proof.
  intros Hwf Hπ Ht. revert ρ t0. induction σ as [|j σ IH]; intros ρ t0 Hv Hl Ht0 Hlt; [done|].
  assert (vpath ρ) as Hρ.
  { split; [rewrite length_app in Hl; simpl in Hl; lia|]. by apply Forall_app in Hv as [? _]. }
  simpl. assert ((t, i) <> (t0, j)) as Hne.
  { intros [= -> ->]. assert (ρ = π) as -> by (eapply wf_inj; eauto). lia. }
  rewrite read_write_ne by done.
  destruct (present (read m t0 j)) eqn:Ep; simpl; [|done].
  destruct σ as [|k σ]; [done|]. destruct (hugepage (read m t0 j)) eqn:Eh; [done|].
  apply (IH (ρ ++ [j])); [by rewrite <- app_assoc..| |rewrite length_app; lia].
  rewrite tbl_app, Ht0; simpl. by rewrite Ep, Eh.
Qed.

Lemma attr_table m p4 π t i f :
  wf m p4 -> vpath π -> (length π <= 2)%nat -> tbl m p4 π = Some t ->
  present (read m t i) = true -> hugepage (read m t i) = false -> attr_only f ->
  let m1 := write m t i (f (read m t i)) in
  wf m1 p4 /\ same_xlate m m1 p4 /\
  tbl m1 p4 (π ++ [i]) = Some (entry_table (read m1 t i)).
Proof.
  intros Hwf Hπ Hlen Ht Hp Hh Hf m1.
  assert (mem_equiv m1 m) as Hm by (by apply write_attr_equiv).
  assert (entry_equiv (f (read m t i)) (read m t i)) as He by apply Hf.
  split_and!.
  - by eapply wf_equiv.
  - intros ix Hv Hl. destruct (decide ((π ++ [i]) `prefix_of` ix)) as [[σ ->]|Hn];
      [|by apply xlate_write_other with (π := π)].
    rewrite <- app_assoc. simpl. rewrite (xlate_app m p4 π _ t) by done. unfold m1.
    rewrite xlate_write_self by done. simpl. rewrite (entry_table_proper _ _ He).
    destruct He as (-> & -> & _). rewrite Hp, Hh. simpl.
    rewrite !length_app in Hl; simpl in Hl. destruct σ as [|k σ]; [simpl in Hl; lia|].
    apply (xlate_write_below m p4 π t i _ (π ++ [i])); auto.
    + rewrite !length_app. simpl in *. lia.
    + rewrite tbl_app, Ht. simpl. by rewrite Hp, Hh.
    + rewrite length_app. simpl. lia.
  - rewrite (tbl_equiv m1 m), tbl_app, Ht by done. simpl. rewrite Hp, Hh. simpl.
    unfold m1. rewrite read_write_eq. by rewrite (entry_table_proper _ _ He).
Qed.

(** The leaf of [va], and only it, becomes [fl] of itself. *)
Definition updates_leaf (m m' : memory) (p4 : Z) (pre : list Z)
    (le : nat * memory_page_entry_t) : Prop := wf m' p4 /\ maps_leaf m m' p4 pre le.

Lemma attr_leaf m p4 π t i σ f :
  wf m p4 -> vpath π -> tbl m p4 π = Some t ->
  present (read m t i) = true -> (hugepage (read m t i) = true \/ σ = []) -> attr_only f ->
  length (π ++ i :: σ) = 4%nat ->
  updates_leaf m (write m t i (f (read m t i))) p4 (π ++ [i]) (length σ, f (read m t i)).
Proof.
  intros Hwf Hπ Ht Hp Hh Hf Hl. pose proof (Hf (read m t i)) as (Hp' & Hh' & _).
  rewrite length_app in Hl. simpl in Hl. split; [|split].
  - by eapply wf_equiv; [apply write_attr_equiv|].
  - intros ix Hv Hl' [σ' ->]. rewrite !length_app in Hl'. simpl in Hl'.
    rewrite <- app_assoc. simpl. rewrite xlate_write_self by done. rewrite Hp', Hp, Hh'. simpl.
    assert (length σ' = length σ) as El by lia.
    destruct Hh as [-> | ->], σ' as [|? ?]; simpl in *; try lia; rewrite ?El; done.
  - intros ix Hv Hl' Hn. by apply xlate_write_other with (π := π).
Qed.

Lemma updates_leaf_trans m m1 m2 p4 pre le :
  same_xlate m m1 p4 -> updates_leaf m1 m2 p4 pre le -> updates_leaf m m2 p4 pre le.
Proof. intros Hs [Hwf Hm]. split; [done|]. by eapply maps_leaf_grow. Qed.

(** [walk_update] by recursion on the indices. *)
Fixpoint walk_from (ft fl : memory_page_entry_t -> memory_page_entry_t)
    (m : memory) (t : Z) (ix : list Z) : Z * memory :=
  match ix with
  | [] => (-1, m)
  | i :: ix =>
    let e := read m t i in
    if negb (present e) then (-1, m)
    else match ix with
         | [] => (0, write m t i (fl e))
         | _ => if hugepage e then (0, write m t i (fl e))
                else let m' := write m t i (ft e) in
                     walk_from ft fl m' (entry_table (read m' t i)) ix
         end
  end.

Lemma walk_update_from ft fl m p4 va :
  wf m p4 -> walk_update ft fl m p4 va = walk_from ft fl m p4 (indices va).
Proof.
  intros Hwf. unfold walk_update, indices. cbn [walk_from].
  rewrite (index_guard _ : (_ <=? I4 va) = false), (index_guard _ : (_ <=? I3 va) = false),
    (index_guard _ : (_ <=? I2 va) = false), (index_guard _ : (_ <=? I1 va) = false).
  by rewrite (wf_top _ _ Hwf) by apply land_511_vidx.
Qed.

Lemma walk_from_mapped ft fl p4 l e : attr_only ft -> attr_only fl -> forall ix m π t,
  wf m p4 -> Forall vidx (π ++ ix) -> length (π ++ ix) = 4%nat -> tbl m p4 π = Some t ->
  xlate m t ix = Some (l, e) ->
  exists m', walk_from ft fl m t ix = (0, m') /\
    updates_leaf m m' p4 (firstn (4 - l) (π ++ ix)) (l, fl e).
Proof.
  intros Ht Hl. induction ix as [|i ix IH]; intros m π t Hwf Hv Hlen HT Hx; [done|].
  assert (vpath π) as Hπ.
  { rewrite length_app in Hlen. simpl in Hlen. split; [lia|]. by apply Forall_app in Hv as [? _]. }
  simpl in Hx |- *. destruct (present (read m t i)) eqn:P; [|done]. cbn [negb] in *.
  assert (forall le, le = (length ix, read m t i) ->
    hugepage (read m t i) = true \/ ix = [] ->
    updates_leaf m (write m t i (fl (read m t i))) p4 (firstn (4 - le.1) (π ++ i :: ix))
      (le.1, fl le.2)) as Hleaf.
  { intros _ -> Hh. simpl. replace (firstn _ _) with (π ++ [i]); [by apply attr_leaf|].
    rewrite length_app in Hlen. simpl in Hlen.
    rewrite (cons_middle i π ix), app_assoc, take_app_length'; [done|]. rewrite length_app. simpl. lia. }
  destruct ix as [|j ix].
  { injection Hx as <- <-. eexists. split; [done|]. apply (Hleaf (O, _)); auto. }
  destruct (hugepage (read m t i)) eqn:Hh.
  { injection Hx as <- <-. eexists. split; [done|]. apply (Hleaf (S _, _)); auto. }
  destruct (attr_table m p4 π t i ft) as (Hwf1 & S1 & T1);
    [done|done|rewrite length_app in Hlen; simpl in Hlen; lia|done..|].
  destruct (IH (write m t i (ft (read m t i))) (π ++ [i])
    (entry_table (read (write m t i (ft (read m t i))) t i))) as (m' & Hw & Hu).
  - done.
  - by rewrite <- app_assoc.
  - by rewrite <- app_assoc.
  - done.
  - rewrite <- (xlate_app _ p4 (π ++ [i])) by done. rewrite S1 by (by rewrite <- app_assoc).
    rewrite (xlate_app m p4 (π ++ [i]) _ (entry_table (read m t i))); [done| |done].
    rewrite tbl_app, HT. simpl. by rewrite P, Hh.
  - rewrite <- app_assoc in Hu. exists m'. split; [done|].
    by apply (updates_leaf_trans m (write m t i (ft (read m t i)))).
Qed.

Lemma walk_update_mapped ft fl m p4 va l e :
  wf m p4 -> attr_only ft -> attr_only fl ->
  xlate m p4 (indices va) = Some (l, e) ->
  exists m', walk_update ft fl m p4 va = (0, m') /\
    updates_leaf m m' p4 (leaf_prefix va l) (l, fl e).
Proof.
  intros Hwf Ht Hl Hx. rewrite walk_update_from by done.
  apply (walk_from_mapped ft fl p4 l e Ht Hl (indices va) m [] p4); [done|apply indices_vidx|done..].
Qed.

Lemma walk_from_unmapped ft fl p4 : attr_only ft -> attr_only fl -> forall ix m π t,
  wf m p4 -> Forall vidx (π ++ ix) -> length (π ++ ix) = 4%nat -> tbl m p4 π = Some t ->
  xlate m t ix = None -> fst (walk_from ft fl m t ix) = -1.
Proof.
  intros Ht Hl. induction ix as [|i ix IH]; intros m π t Hwf Hv Hlen HT Hx; [done|].
  assert (vpath π) as Hπ.
  { rewrite length_app in Hlen. simpl in Hlen. split; [lia|]. by apply Forall_app in Hv as [? _]. }
  simpl in Hx |- *. destruct (present (read m t i)) eqn:P; [|done]. cbn [negb] in *.
  destruct ix as [|j ix]; [done|]. destruct (hugepage (read m t i)) eqn:Hh; [done|].
  destruct (attr_table m p4 π t i ft) as (Hwf1 & S1 & T1);
    [done|done|rewrite length_app in Hlen; simpl in Hlen; lia|done..|].
  apply (IH _ (π ++ [i])).
  - done.
  - by rewrite <- app_assoc.
  - by rewrite <- app_assoc.
  - done.
  - rewrite <- (xlate_app _ p4 (π ++ [i])) by done. rewrite S1 by (by rewrite <- app_assoc).
    rewrite (xlate_app m p4 (π ++ [i]) _ (entry_table (read m t i))); [done| |done].
    rewrite tbl_app, HT. simpl. by rewrite P, Hh.
Qed.

Lemma walk_update_unmapped ft fl m p4 va :
  wf m p4 -> attr_only ft -> attr_only fl ->
  xlate m p4 (indices va) = None -> fst (walk_update ft fl m p4 va) = -1.
Proof.
  intros Hwf Ht Hl Hx. rewrite walk_update_from by done.
  apply (walk_from_unmapped ft fl p4 Ht Hl (indices va) m [] p4); [done|apply indices_vidx|done..].
Qed.
End Unmap.
