(* ===== verification/PagingClaims.v ===== *)
(** * Page tables: the theorems

    The statements about the operations of [Paging], in terms of the
    translation [memory_paging_get_physical_address_ext] gives to addresses,
    with a concrete page table on which their hypotheses hold. *)

From S2P Require Import Prelude Frame Paging PagingTheory PagingProps PagingMapping PagingUnmap.

Section Claims.
Context `{BF : BitfieldPrecision} {A : Type} `{FA : FrameAllocatorOps A}.
Implicit Types s : paging_state A.

(** The addresses that share a leaf [l] levels above the lowest one. *)
Definition leaf_page (l : nat) (va : Z) : Z :=
  match l with
  | O => page4k va
  | S O => page2m va
  | _ => (va / 2 ^ 30) mod 2 ^ 18
  end.

Lemma page1g_indices va :
  (va / 2 ^ 30) mod 2 ^ 18 = MEMORY_PT_GET_P4_INDEX va * 512 + MEMORY_PT_GET_P3_INDEX va.
Proof.
  unfold MEMORY_PT_GET_P4_INDEX, MEMORY_PT_GET_P3_INDEX. rewrite !index_mod by lia.
  change (2 ^ 39) with (2 ^ 30 * 512). rewrite <- !Z.div_div by lia.
  generalize (va / 2 ^ 30); intros q. change (2 ^ 18) with (512 * 512).
  rewrite Z.rem_mul_r by lia. ring.
Qed.

Lemma prefix2_indices va va' :
  firstn 2 (indices va) `prefix_of` indices va' <->
  (va / 2 ^ 30) mod 2 ^ 18 = (va' / 2 ^ 30) mod 2 ^ 18.
Proof.
  rewrite !page1g_indices.
  pose proof (land_511_vidx (Z.shiftr va 30)). pose proof (land_511_vidx (Z.shiftr va' 30)).
  unfold vidx, MEMORY_PT_GET_P4_INDEX, MEMORY_PT_GET_P3_INDEX in *. split.
  - intros [σ [= E1 E2]]. unfold MEMORY_PT_GET_P4_INDEX, MEMORY_PT_GET_P3_INDEX in *. lia.
  - intros E. eexists [_; _]. unfold indices, MEMORY_PT_GET_P4_INDEX, MEMORY_PT_GET_P3_INDEX.
    simpl. f_equal; [lia|]. f_equal; lia.
Qed.

(** A translation always ends in a leaf of one of the three page sizes. *)
Lemma xlate_level m t ix l e : xlate m t ix = Some (l, e) -> (l < length ix)%nat.
Proof.
  revert t; induction ix as [|i ix IH]; intros t; simpl; [done|].
  destruct (present _); simpl; [|done]. destruct ix as [|j ix]; [intros [= <- _]; simpl; lia|].
  destruct (hugepage _); [intros [= <- _]; simpl; lia|]. intros H%IH. simpl in *. lia.
Qed.

Lemma top_not_leaf m p4 va l e :
  wf m p4 -> xlate m p4 (indices va) = Some (l, e) -> (l <= 2)%nat.
Proof.
  intros Hwf Hx. unfold indices in Hx. cbn [xlate] in Hx.
  rewrite (wf_top _ _ Hwf) in Hx by apply land_511_vidx.
  destruct (negb _); [done|]. apply (xlate_level m _ [_; _; _]) in Hx. simpl in Hx. lia.
Qed.

(** All addresses of a leaf's page have this leaf. *)
Lemma xlate_prefix m t ix ix' l e :
  length ix = length ix' -> xlate m t ix = Some (l, e) ->
  firstn (length ix - l) ix `prefix_of` ix' -> xlate m t ix' = Some (l, e).
Proof.
  revert t ix'; induction ix as [|i ix IH]; intros t ix' Hl Hx Hp; [done|].
  destruct ix' as [|i' ix']; [done|]. injection Hl as Hl.
  pose proof (xlate_level _ _ _ _ _ Hx) as Hlt. simpl in Hlt.
  simpl length in Hp. rewrite Nat.sub_succ_l in Hp by lia. simpl in Hp.
  destruct Hp as [σ Hp]. injection Hp as <- Hp. simpl in Hx |- *.
  destruct (present _); simpl in *; [|done]. destruct ix as [|j ix], ix' as [|j' ix']; try done.
  destruct (hugepage (read m t i')).
  - rewrite <- Hx. do 2 f_equal. simpl in *. lia.
  - apply (IH _ (j' :: ix')); [done..|]. by exists σ.
Qed.

Lemma xlate_same_leaf m p4 va va' l e :
  xlate m p4 (indices va) = Some (l, e) ->
  firstn (4 - l) (indices va) `prefix_of` indices va' ->
  xlate m p4 (indices va') = Some (l, e).
Proof. intros. by apply (xlate_prefix m p4 (indices va)). Qed.

Lemma leaf_prefix_page l va va' :
  (l <= 2)%nat -> firstn (4 - l) (indices va) `prefix_of` indices va' <->
                  leaf_page l va' = leaf_page l va.
Proof.
  intros Hl. destruct l as [|[|[|]]]; simpl leaf_page; [..|lia].
  - change (firstn (4 - 0) (indices va)) with (indices va). rewrite prefix_indices. split; congruence.
  - change (4 - 1)%nat with 3%nat. rewrite prefix3_indices. split; congruence.
  - change (4 - 2)%nat with 2%nat. rewrite prefix2_indices. split; congruence.
Qed.


(** ** Mapping *)

(** C1.  Mapping an unmapped 4K page with [memory_paging_add_page] succeeds when
    the cache of frames for tables is initialised and holds at least 19 frames
    ([n + 3] to spare above the 16 below which a request starts a refill), all of
    them outside the page table and below 1 TiB like the frame to be mapped,
    which is aligned: afterwards every address of the page translates to the same
    offset in the frame, the addresses of all other pages translate as before,
    the leaf has exactly the requested attributes, the page table is well formed
    and the cache has at most three frames less.  With a lower cache the call may
    not return, see [refill_recursion_halts]. *)
Theorem add_page_4k_correct fuel s n va fa type :
  0 <= n -> paging_inv s (n + 3) -> frame_ok fa ->
  flag_set type MEMORY_PAGING_PAGE_TYPE_1G = false ->
  flag_set type MEMORY_PAGING_PAGE_TYPE_2M = false ->
  translate s va = None ->
  exists s', memory_paging_add_page fuel va fa type s = Done (0, s') /\
    paging_inv s' n /\
    (forall va', translate s' va' =
       if decide (page4k va' = page4k va) then Some (fa + va' mod 4096) else translate s va') /\
    (exists e, xlate (mem s') (page_table (ctx s')) (indices va) = Some (O, e) /\
               has_attributes e type).
Proof.
  intros Hn Hinv Hfa H1 H2 Hnone.
  destruct (add_page_4k fuel s n va fa type) as (s' & Hrun & Hinv' & _ & (Hin & Hout & Hleaf) & _);
    [done..|].
  exists s'. split_and!; [done|done| |].
  - intros va'. destruct (decide _); auto.
  - done.
Qed.

(** Mapping a 2M page where nothing is mapped and no table of the lowest
    level hangs: every address of the 2M page translates linearly to the
    aligned frame, all other addresses as before. *)
Theorem add_page_2m_correct fuel s n va fa type :
  0 <= n -> paging_inv s (n + 2) -> frame2m_ok fa ->
  flag_set type MEMORY_PAGING_PAGE_TYPE_1G = false ->
  flag_set type MEMORY_PAGING_PAGE_TYPE_2M = true ->
  translate s va = None -> no_p1_table s va ->
  exists s', memory_paging_add_page fuel va fa type s = Done (0, s') /\
    paging_inv s' n /\
    (forall va', translate s' va' =
       if decide (page2m va' = page2m va) then Some (fa + va' mod 2 ^ 21) else translate s va') /\
    (exists e, xlate (mem s') (page_table (ctx s')) (indices va) = Some (1%nat, e) /\
               has_attributes e type).
Proof.
  intros Hn Hinv Hfa H1 H2 Hnone Hp1.
  destruct (add_page_2m fuel s n va fa type) as (s' & Hrun & Hinv' & _ & (Hin & Hout & Hleaf) & _);
    [done..|].
  exists s'. split_and!; [done|done| |done]. intros va'. destruct (decide _); auto.
Qed.

(** C2.  [memory_paging_add_va_for_frame] maps a block of frames linearly,
    whichever pages its loop takes as 2M pages, under these conditions: the
    target range lies below 2^48, no address of it is mapped, and no table of the
    lowest level hangs where a 2M page would go ([range_free]); the block lies
    below 1 TiB; both are page aligned; and the initialised cache holds, above
    the reserve of 16 frames, three frames for every 2 MiB region of the target
    (enough for the tables of the region).  Then the loop ends with 0,
    [va_start + i] translates to [frame_address + i] for every [i] inside the
    block, and every other address of the 48-bit address space as before. *)
Theorem add_va_for_frame_linear fuel s n va frm type :
  0 <= n -> 0 <= frame_count frm -> paging_inv s (n + 3 * regions va (frame_count frm)) ->
  flag_set type MEMORY_PAGING_PAGE_TYPE_1G = false ->
  flag_set type MEMORY_PAGING_PAGE_TYPE_2M = false ->
  va mod 4096 = 0 -> 0 <= va -> va + 4096 * frame_count frm <= 2 ^ 48 ->
  frame_address frm mod 4096 = 0 -> 0 <= frame_address frm ->
  frame_address frm + 4096 * frame_count frm <= 2 ^ 40 ->
  range_free s va (4096 * frame_count frm) ->
  exists s', memory_paging_add_va_for_frame fuel va frm type s = Done (0, s') /\
    paging_inv s' n /\
    (forall va', 0 <= va' < 2 ^ 48 ->
       translate s' va' =
         if (va <=? va') && (va' <? va + 4096 * frame_count frm)
         then Some (frame_address frm + (va' - va)) else translate s va').
Proof.
  intros. destruct (add_va_loop_spec fuel type n (Z.to_nat (frame_count frm)) s va
    (frame_address frm) (frame_count frm)) as (s' & ? & ? & ? & ?); [lia|by split; [left|..]|].
  by exists s'.
Qed.

(** Mapping a 4K page that is mapped already returns 0 and changes
    nothing: the first mapping wins, and no frame is taken from the cache. *)
Theorem add_page_4k_again fuel s va fa type e :
  wf (mem s) (page_table (ctx s)) ->
  flag_set type MEMORY_PAGING_PAGE_TYPE_1G = false ->
  flag_set type MEMORY_PAGING_PAGE_TYPE_2M = false ->
  xlate (mem s) (page_table (ctx s)) (indices va) = Some (O, e) ->
  memory_paging_add_page fuel va fa type s = Done (0, s).
Proof. intros. by eapply add_page_mapped_4k. Qed.

(** ** Unmapping *)


(** C4.  Deleting a page that is not mapped fails and leaves tables, cache and
    allocator as they were. *)
Theorem delete_page_error s va :
  wf (mem s) (page_table (ctx s)) -> translate s va = None ->
  memory_paging_delete_page_ext va s = Done (None, s).
Proof.
  intros Hwf Hn. apply delete_page_unmapped; [done|].
  unfold translate in Hn. rewrite get_physical_xlate in Hn by done. by apply fmap_None in Hn.
Qed.


(** ** Attributes *)

(** Clearing dirty and accessed bits, toggling attributes and granting
    user access change no translation of any address, whatever the tables
    hold, also when they fail half way. *)
Theorem attributes_keep_translation m p4 va type va' :
  memory_paging_get_physical_address_ext (snd (memory_paging_clear_page_ext m p4 va type)) p4 va'
    = memory_paging_get_physical_address_ext m p4 va' /\
  memory_paging_get_physical_address_ext (snd (memory_paging_toggle_attributes_ext m p4 va type)) p4 va'
    = memory_paging_get_physical_address_ext m p4 va' /\
  memory_paging_get_physical_address_ext (snd (memory_paging_set_user_accessible_ext m p4 va)) p4 va'
    = memory_paging_get_physical_address_ext m p4 va'.
Proof.
  unfold memory_paging_clear_page_ext, memory_paging_toggle_attributes_ext,
    memory_paging_set_user_accessible_ext.
  rewrite !walk_update_equiv;
    auto using id_attr, clear_bits_attr, toggle_user_attr, toggle_bits_attr, set_user_attr.
Qed.

(** Every attribute bit is xored with its flag. *)
Lemma toggle_bits_mk type pr w us wt dc ac di hp gl os pa nx :
  toggle_bits type (mk_entry pr w us wt dc ac di hp gl os pa nx) =
  mk_entry pr (xorb w (flag_set type MEMORY_PAGING_PAGE_TYPE_READONLY))
    (xorb us (flag_set type MEMORY_PAGING_PAGE_TYPE_USER_ACCESSIBLE))
    (xorb wt (flag_set type MEMORY_PAGING_PAGE_TYPE_WRITE_THROUGH))
    (xorb dc (flag_set type MEMORY_PAGING_PAGE_TYPE_DISABLE_CACHE)) ac di hp
    (xorb gl (flag_set type MEMORY_PAGING_PAGE_TYPE_GLOBAL)) os pa
    (xorb nx (flag_set type MEMORY_PAGING_PAGE_TYPE_NOEXEC)).
Proof.
  unfold toggle_bits.
  assert (forall b, xorb b true = negb b) as Ht by (by intros []).
  assert (forall b, xorb b false = b) as Hf by (by intros []).
  unfold toggle_writable. destruct (flag_set type MEMORY_PAGING_PAGE_TYPE_READONLY); cbn;
  unfold toggle_no_execute; destruct (flag_set type MEMORY_PAGING_PAGE_TYPE_NOEXEC); cbn;
  unfold toggle_user; destruct (flag_set type MEMORY_PAGING_PAGE_TYPE_USER_ACCESSIBLE); cbn;
  unfold toggle_write_through; destruct (flag_set type MEMORY_PAGING_PAGE_TYPE_WRITE_THROUGH); cbn;
  unfold toggle_disable_cache; destruct (flag_set type MEMORY_PAGING_PAGE_TYPE_DISABLE_CACHE); cbn;
  unfold toggle_global; destruct (flag_set type MEMORY_PAGING_PAGE_TYPE_GLOBAL); cbn;
  by rewrite ?Ht, ?Hf.
Qed.

Lemma toggle_bits_involutive type e : toggle_bits type (toggle_bits type e) = e.
Proof.
  destruct e. rewrite !toggle_bits_mk. f_equal; by rewrite xorb_assoc, xorb_nilpotent, xorb_false_r.
Qed.

(** [memory_paging_toggle_attributes_ext] on a mapped page succeeds, flips
    the requested bits in the leaf of the address and in no other leaf; a
    second call restores all of them. *)
Theorem toggle_attributes_involutive m p4 va type l e :
  wf m p4 -> xlate m p4 (indices va) = Some (l, e) ->
  exists m' m'',
    memory_paging_toggle_attributes_ext m p4 va type = (0, m') /\
    memory_paging_toggle_attributes_ext m' p4 va type = (0, m'') /\
    xlate m' p4 (indices va) = Some (l, toggle_bits type e) /\
    (forall va', leaf_page l va' <> leaf_page l va ->
       xlate m' p4 (indices va') = xlate m p4 (indices va')) /\
    (forall va', xlate m'' p4 (indices va') = xlate m p4 (indices va')).
Proof.
  intros Hwf Hx. assert (l <= 2)%nat as Hl by (by eapply top_not_leaf).
  assert (forall va, Forall vidx (indices va) /\ length (indices va) = 4%nat) as Hix
    by auto using indices_vidx.
  destruct (walk_update_mapped (toggle_user type) (toggle_bits type) m p4 va l e)
    as (m1 & Hw1 & Hwf1 & Hin1 & Hout1); auto using toggle_user_attr, toggle_bits_attr.
  assert (xlate m1 p4 (indices va) = Some (l, toggle_bits type e)) as Hx1
    by (apply Hin1; [apply Hix..|by apply leaf_prefix_page]).
  destruct (walk_update_mapped (toggle_user type) (toggle_bits type) m1 p4 va l (toggle_bits type e))
    as (m2 & Hw2 & Hwf2 & Hin2 & Hout2); auto using toggle_user_attr, toggle_bits_attr.
  exists m1, m2. split_and!; [done..| |].
  - intros va' Hne. apply Hout1; [apply Hix..|]. by rewrite leaf_prefix_page.
  - intros va'. destruct (decide (firstn (4 - l) (indices va) `prefix_of` indices va')) as [Hp|Hp].
    + rewrite Hin2, toggle_bits_involutive by (apply Hix || done).
      symmetry. by apply (xlate_same_leaf m p4 va).
    + rewrite Hout2 by (apply Hix || done). apply Hout1; [apply Hix..|done].
Qed.

(** Whether user code may reach the leaf: the processor requires the user bit
    in the entries of all levels. *)
Fixpoint user_path (m : memory) (t : Z) (ix : list Z) : bool :=
  match ix with
  | [] => true
  | i :: ix =>
    let e := read m t i in
    present e && user_accessible e &&
    match ix with
    | [] => true
    | _ => if hugepage e then true else user_path m (entry_table e) ix
    end
  end.

Lemma vpath_of π ix i : Forall vidx (π ++ i :: ix) -> length (π ++ i :: ix) = 4%nat -> vpath π.
Proof.
  intros Hv Hl. rewrite length_app in Hl. simpl in Hl. split; [lia|]. by apply Forall_app in Hv as [? _].
Qed.

(** The walk below a table leaves the tables above it alone. *)
Lemma walk_from_above ft fl p4 π t i : attr_only ft -> attr_only fl -> vpath π -> forall ix m ρ u,
  wf m p4 -> Forall vidx (ρ ++ ix) -> length (ρ ++ ix) = 4%nat ->
  tbl m p4 ρ = Some u -> tbl m p4 π = Some t -> (length π < length ρ)%nat ->
  read (snd (walk_from ft fl m u ix)) t i = read m t i.
Proof.
  intros Hft Hfl Hπ. induction ix as [|j ix IH]; intros m ρ u Hwf Hv Hlen Hu Ht Hlt; [done|].
  assert (vpath ρ) as Hρ by (by eapply vpath_of).
  assert (forall e, read (write m u j e) t i = read m t i) as Hne.
  { intros e. apply read_write_ne. intros [= -> ->].
    assert (ρ = π) as -> by (eapply wf_inj; eauto). lia. }
  simpl. destruct (present (read m u j)) eqn:P; [|done]. simpl.
  destruct ix as [|k ix]; [apply Hne|]. destruct (hugepage (read m u j)) eqn:Hh; [apply Hne|].
  destruct (attr_table m p4 ρ u j ft) as (Hwf1 & _ & T1);
    [done|done|rewrite length_app in Hlen; simpl in Hlen; lia|done..|].
  rewrite (IH _ (ρ ++ [j])); [apply Hne|done|by rewrite <- app_assoc..|done| |].
  - rewrite (tbl_equiv _ m); [done|]. by apply write_attr_equiv.
  - rewrite length_app. lia.
Qed.

Lemma walk_from_user p4 l e : let f := fun e => set_user_accessible e true in
  forall ix m π t,
  wf m p4 -> Forall vidx (π ++ ix) -> length (π ++ ix) = 4%nat -> tbl m p4 π = Some t ->
  xlate m t ix = Some (l, e) -> user_path (snd (walk_from f f m t ix)) t ix = true.
Proof.
  intros f. induction ix as [|i ix IH]; intros m π t Hwf Hv Hlen HT Hx; [done|].
  assert (vpath π) as Hπ by (by eapply vpath_of).
  simpl in Hx |- *. destruct (present (read m t i)) eqn:P; [|done]. cbn [negb] in *.
  destruct ix as [|j ix]; [by simpl; rewrite read_write_eq; simpl; rewrite P|].
  destruct (hugepage (read m t i)) eqn:Hh.
  { simpl. rewrite read_write_eq. simpl. by rewrite P, Hh. }
  destruct (attr_table m p4 π t i f) as (Hwf1 & S1 & T1);
    [done|done|rewrite length_app in Hlen; simpl in Hlen; lia|done..|].
  set (m1 := write m t i (f (read m t i))) in *.
  assert (read m1 t i = f (read m t i)) as R1 by apply read_write_eq.
  assert (tbl m1 p4 π = Some t) as HT1 by (by apply tbl_write_self).
  rewrite (walk_from_above f f p4 π t i) with (ρ := π ++ [i]);
    [|done..|by rewrite <- app_assoc|by rewrite <- app_assoc|done|done|rewrite length_app; simpl; lia].
  rewrite R1. assert (present (f (read m t i)) = true) as -> by done.
  assert (user_accessible (f (read m t i)) = true) as -> by done.
  assert (hugepage (f (read m t i)) = false) as -> by done. cbn [andb]. rewrite R1 in T1.
  change (entry_table (read m t i)) with (entry_table (f (read m t i))).
  apply (IH m1 (π ++ [i])); [done|by rewrite <- app_assoc..|done|].
  rewrite <- (xlate_app _ p4 (π ++ [i])) by done. rewrite S1 by (by rewrite <- app_assoc).
  rewrite (xlate_app m p4 (π ++ [i]) _ (entry_table (read m t i))); [done| |done].
  rewrite tbl_app, HT. simpl. by rewrite P, Hh.
Qed.

(** [memory_paging_set_user_accessible_ext] on a mapped address succeeds
    and makes the address reachable for user code through all levels. *)
Theorem set_user_accessible_grants m p4 va l e :
  wf m p4 -> xlate m p4 (indices va) = Some (l, e) ->
  exists m', memory_paging_set_user_accessible_ext m p4 va = (0, m') /\
    user_path m' p4 (indices va) = true.
Proof.
  intros Hwf Hx. unfold memory_paging_set_user_accessible_ext.
  destruct (walk_update_mapped (fun e => set_user_accessible e true)
    (fun e => set_user_accessible e true) m p4 va l e) as (m' & Hw & _); [done..|].
  exists m'. split; [done|].
  replace m' with (snd (walk_from (fun e => set_user_accessible e true)
    (fun e => set_user_accessible e true) m p4 (indices va)))
    by (by rewrite <- walk_update_from, Hw).
  apply (walk_from_user p4 l e (indices va) m [] p4); [done|apply indices_vidx|done..].
Qed.

(** ** Refilling the cache *)

(** A page whose mapping has to create a table of the second or third level. *)
Definition needs_upper_table s (va : Z) : Prop :=
  tbl (mem s) (page_table (ctx s)) (firstn 2 (indices va)) = None /\ translate s va = None.

Lemma add_page_needs_frame (stop : forall B : Type, outcome B) (g : cmd (paging_state A) Z) s va fa type :
  (stop = @OutOfFuel \/ stop = @Halted) ->
  wf (mem s) (page_table (ctx s)) -> needs_upper_table s va ->
  flag_set type MEMORY_PAGING_PAGE_TYPE_1G = false -> g s = stop _ ->
  memory_paging_add_page_ext g va fa type s = stop _.
Proof.
  intros Hstop Hwf [Ht Hx] H1G Hg. unfold translate in Hx. rewrite get_physical_xlate in Hx by done.
  apply fmap_None in Hx. unfold indices in Hx, Ht. cbn [xlate] in Hx. cbn [firstn tbl] in Ht.
  unfold memory_paging_add_page_ext. rewrite (cmd_bind_done get_state _ s s s) by done.
  rewrite (index_guard _ : (_ <=? MEMORY_PT_GET_P4_INDEX va) = false), read_entry_bind.
  assert (vidx (MEMORY_PT_GET_P4_INDEX va)) as V4 by apply land_511_vidx.
  rewrite (wf_top _ _ Hwf _ V4) in Hx, Ht.
  set (e4 := read (mem s) (page_table (ctx s)) (MEMORY_PT_GET_P4_INDEX va)) in *.
  assert (forall B (k : Z -> cmd (paging_state A) B) t i, (x ← new_table g t i; k x) s = stop _)
    as Hnew by (intros; unfold new_table, mbind, cmd_bind; rewrite Hg; by destruct Hstop as [-> | ->]).
  destruct (present e4); cbn [negb andb] in *; [|apply Hnew].
  rewrite entry_table64_same by (apply (wf_phys _ _ Hwf []); [apply vpath_nil|done..]).
  unfold add_page_p3.
  rewrite (index_guard _ : (_ <=? MEMORY_PT_GET_P3_INDEX va) = false), read_entry_bind, H1G.
  destruct (present (read (mem s) (entry_table e4) _)); cbn [negb andb] in *; [|apply Hnew].
  by destruct (hugepage (read (mem s) (entry_table e4) _)).
Qed.

(** The allocator hands out [k] more blocks for the cache, each at a place whose
    window in the page table of [s] misses a table, and then refuses. *)
Inductive hands_out s : nat -> A -> Prop :=
| hands_out_none a :
    allocate_frame_by_count a MEMORY_PAGING_INTERNAL_FRAMES_MAX_COUNT
      (Z.lor FRAME_ALLOCATION_TYPE_BLOCK FRAME_ALLOCATION_TYPE_RESERVED) = None ->
    hands_out s 0 a
| hands_out_more k a frm a' :
    allocate_frame_by_count a MEMORY_PAGING_INTERNAL_FRAMES_MAX_COUNT
      (Z.lor FRAME_ALLOCATION_TYPE_BLOCK FRAME_ALLOCATION_TYPE_RESERVED) = Some (frm, a') ->
    0 < frame_count frm -> needs_upper_table s (MEMORY_PAGING_GET_VA_FOR_RESERVED_FA (frame_address frm)) ->
    hands_out s k a' -> hands_out s (S k) a.

(** C6.  The refill of the cache needs the cache: with fewer than 16 frames left,
    a request maps a new block before it takes a frame; if the block's window
    lies where a table is missing, the mapping requests a frame, which starts the
    next refill.  So if the blocks that the allocator still has all lie so, the
    request uses up the [k] of them, [k] calls deep, and then halts the
    processor, although the cache holds frames. *)
Theorem refill_recursion_halts k fuel s :
  hands_out s k (alloc s) -> wf (mem s) (page_table (ctx s)) ->
  internal_frame_init_state (ctx s) = INIT_STATE_INITIALIZED ->
  0 < internal_frames_1_count (ctx s) < 16 ->
  memory_paging_get_internal_frame fuel s = if (k <? fuel)%nat then Halted else OutOfFuel.
Proof.
  revert k s. induction fuel as [|fuel IH]; intros k [m c a] Hal Hwf Hinit Hcnt; simpl in *;
    unfold mbind, cmd_bind, get_state; simpl; rewrite Hinit;
    (destruct (Z.eqb_spec (internal_frames_1_count c) 0); [lia|]; simpl);
    (destruct (Z.ltb_spec (internal_frames_1_count c) 16); [|lia]).
  { done. }
  unfold refill_internal_frames, memory_paging_internal_frame_build.
  lazy beta iota zeta delta [mbind cmd_bind get_state mret cmd_ret set_ctx set_alloc put_state
    mem ctx alloc]. rewrite Hinit.
  inversion Hal as [a0 Hnone|k' a0 frm a' Hsome Hpos Hneed Hmore]; subst.
  { by rewrite Hnone. }
  rewrite Hsome. unfold memory_paging_add_va_for_frame_ext.
  destruct (Z.to_nat (frame_count frm)) eqn:Ek; [lia|]. simpl.
  destruct (Z.eqb_spec (frame_count frm) 0); [lia|].
  set (s1 := mk_paging m _ a').
  assert (forall k a1, hands_out (mk_paging m c a) k a1 -> hands_out s1 k a1) as Hsame
    by (induction 1; by econstructor).
  assert (memory_paging_get_internal_frame fuel s1 = if (k' <? fuel)%nat then Halted else OutOfFuel) as Hget.
  { apply (IH k' s1); [by apply Hsame|done..]. }
  assert (forall va fa type, flag_set type MEMORY_PAGING_PAGE_TYPE_1G = false ->
    needs_upper_table s1 va ->
    memory_paging_add_page_ext (memory_paging_get_internal_frame fuel) va fa type s1
      = if (k' <? fuel)%nat then Halted else OutOfFuel) as Hstep.
  { intros va fa type H1G Hn. destruct (k' <? fuel)%nat; [apply (add_page_needs_frame (@Halted))|apply (add_page_needs_frame (@OutOfFuel))]; auto. }
  change (S k' <? S fuel)%nat with (k' <? fuel)%nat.
  destruct (_ && _); unfold mbind, cmd_bind; rewrite Hstep by done; by destruct (k' <? fuel)%nat.
Qed.
End Claims.

(** ** A concrete page table *)

(** Instances for the examples: gcc's bit-field shifts, and an allocator that
    hands out consecutive frames up to a limit. *)
Module Demo.
#[export] Instance gcc_precision : BitfieldPrecision := {| bf_prec := 40; bf_prec_range := ltac:(lia) |}.

#[export] Instance bump_allocator : FrameAllocatorOps Z := {|
  allocate_frame_by_count a n _ :=
    if a + n * FRAME_SIZE <=? 0x40600000 then Some (mk_frame a n FRAME_TYPE_USED 0, a + n * FRAME_SIZE) else None;
  release_frame a _ := (0, a);
|}.

Definition demo_ctx (count : Z) : memory_page_table_context_t :=
  mk_context (MEMORY_PAGING_GET_VA_FOR_RESERVED_FA 0x1000) INIT_STATE_INITIALIZED
    0x100000 0x100000 count 0 0 0.

(** An empty page table whose cache holds [count] frames from 1 MiB on. *)
Definition demo (count : Z) : paging_state Z := mk_paging ∅ (demo_ctx count) 0x40000000.
End Demo.
Import Demo.

Lemma read_empty t i : read ∅ t i = zero_entry.
Proof. unfold read. by rewrite lookup_empty; simpl; rewrite lookup_empty. Qed.

Lemma tbl_empty t π u : tbl ∅ t π = Some u -> π = [] /\ u = t.
Proof. destruct π as [|i π]; simpl; [by intros [= ->]|]. by rewrite read_empty. Qed.

Lemma wf_empty p4 : wf ∅ p4.
Proof.
  split.
  - by intros π1 π2 u _ _ [-> _]%tbl_empty [-> _]%tbl_empty.
  - intros. by rewrite read_empty.
  - intros. by rewrite read_empty.
  - intros. rewrite read_empty. simpl. lia.
Qed.

Lemma demo_inv count n :
  n + 16 <= count -> count <= 1024 -> paging_inv (demo count) n.
Proof.
  intros Hn Hc. split; [apply wf_empty|]. split; simpl; [done|lia|lia|split; [lia|done]|].
  intros k Hk π _ [_ E]%tbl_empty. apply va_for_fa_inj in E; lia.
Qed.

Lemma demo_translate count va : translate (demo count) va = None.
Proof.
  unfold translate. rewrite get_physical_xlate by apply wf_empty. simpl. by rewrite read_empty.
Qed.

Lemma demo_no_table count i π : tbl (mem (demo count)) (page_table (ctx (demo count))) (i :: π) = None.
Proof. simpl. by rewrite read_empty. Qed.

(** The empty table after one 4K page is mapped at 0x400000123000. *)
Definition demo_va : Z := 0x400000123000.
Definition demo_mapped : paging_state Z :=
  match memory_paging_add_page 0 demo_va 0x7000 MEMORY_PAGING_PAGE_TYPE_4K (demo 64) with
  | Done (_, s) => s
  | _ => demo 64
  end.
Definition demo_leaf : memory_page_entry_t :=
  mk_entry true true false false false false false false false 0 7 false.

Lemma demo_mapped_inv : paging_inv demo_mapped 45.
Proof.
  destruct (add_page_4k 0 (demo 64) 45 demo_va 0x7000 MEMORY_PAGING_PAGE_TYPE_4K)
    as (s' & Hrun & Hinv & _); [lia|by apply demo_inv|by split|done..|apply demo_translate|].
  unfold demo_mapped. by rewrite Hrun.
Qed.

Lemma demo_mapped_leaf :
  xlate (mem demo_mapped) (page_table (ctx demo_mapped)) (indices demo_va) = Some (O, demo_leaf).
Proof. vm_compute. reflexivity. Qed.

Lemma add_page_4k_witness :
  exists s', memory_paging_add_page 0 demo_va 0x7000 MEMORY_PAGING_PAGE_TYPE_4K (demo 64) = Done (0, s') /\
    paging_inv s' 45 /\
    (forall va', translate s' va' =
       if decide (page4k va' = page4k demo_va) then Some (0x7000 + va' mod 4096)
       else translate (demo 64) va') /\
    (exists e, xlate (mem s') (page_table (ctx s')) (indices demo_va) = Some (O, e) /\
               has_attributes e MEMORY_PAGING_PAGE_TYPE_4K).
Proof.
  apply (add_page_4k_correct 0 (demo 64) 45 demo_va 0x7000 MEMORY_PAGING_PAGE_TYPE_4K);
    [lia|by apply demo_inv|by split|reflexivity..|apply demo_translate].
Defined.

Lemma add_page_2m_witness :
  exists s', memory_paging_add_page 0 0x200000 0x600000 MEMORY_PAGING_PAGE_TYPE_2M (demo 64) = Done (0, s') /\
    paging_inv s' 46 /\
    (forall va', translate s' va' =
       if decide (page2m va' = page2m 0x200000) then Some (0x600000 + va' mod 2 ^ 21)
       else translate (demo 64) va') /\
    (exists e, xlate (mem s') (page_table (ctx s')) (indices 0x200000) = Some (1%nat, e) /\
               has_attributes e MEMORY_PAGING_PAGE_TYPE_2M).
Proof.
  apply (add_page_2m_correct 0 (demo 64) 46 0x200000 0x600000 MEMORY_PAGING_PAGE_TYPE_2M);
    [lia|by apply demo_inv|by split|reflexivity..|apply demo_translate|apply demo_no_table].
Defined.

Lemma demo_range_free count va size : range_free (demo count) va size.
Proof. split; intros; [apply demo_translate|apply demo_no_table]. Qed.

(** 520 frames: one 2M page and eight 4K pages. *)
Definition demo_block : frame_t := mk_frame 0x600000 520 FRAME_TYPE_USED 0.

Lemma add_va_for_frame_witness :
  exists s', memory_paging_add_va_for_frame 0 0x200000 demo_block MEMORY_PAGING_PAGE_TYPE_NOEXEC (demo 64)
      = Done (0, s') /\
    paging_inv s' 42 /\
    (forall va', 0 <= va' < 2 ^ 48 ->
       translate s' va' =
         if (0x200000 <=? va') && (va' <? 0x200000 + 4096 * 520)
         then Some (0x600000 + (va' - 0x200000)) else translate (demo 64) va').
Proof.
  apply (add_va_for_frame_linear 0 (demo 64) 42 0x200000 demo_block MEMORY_PAGING_PAGE_TYPE_NOEXEC);
    [lia|simpl; lia|by apply demo_inv|reflexivity..|lia|simpl; lia|reflexivity|simpl; lia|simpl; lia
    |apply demo_range_free].
Defined.

Lemma add_page_4k_again_witness :
  memory_paging_add_page 0 demo_va 0x9000 MEMORY_PAGING_PAGE_TYPE_4K demo_mapped = Done (0, demo_mapped).
Proof.
  apply (add_page_4k_again 0 demo_mapped demo_va 0x9000 MEMORY_PAGING_PAGE_TYPE_4K demo_leaf);
    [apply demo_mapped_inv|reflexivity..|apply demo_mapped_leaf].
Defined.


Lemma delete_page_error_witness :
  memory_paging_delete_page_ext demo_va (demo 64) = Done (None, demo 64).
Proof. apply (delete_page_error (demo 64) demo_va); [apply wf_empty|apply demo_translate]. Defined.


Lemma toggle_attributes_witness :
  exists m' m'',
    memory_paging_toggle_attributes_ext (mem demo_mapped) (page_table (ctx demo_mapped)) demo_va
      MEMORY_PAGING_PAGE_TYPE_READONLY = (0, m') /\
    memory_paging_toggle_attributes_ext m' (page_table (ctx demo_mapped)) demo_va
      MEMORY_PAGING_PAGE_TYPE_READONLY = (0, m'') /\
    xlate m' (page_table (ctx demo_mapped)) (indices demo_va)
      = Some (O, toggle_bits MEMORY_PAGING_PAGE_TYPE_READONLY demo_leaf) /\
    (forall va', leaf_page 0 va' <> leaf_page 0 demo_va ->
       xlate m' (page_table (ctx demo_mapped)) (indices va')
       = xlate (mem demo_mapped) (page_table (ctx demo_mapped)) (indices va')) /\
    (forall va', xlate m'' (page_table (ctx demo_mapped)) (indices va')
       = xlate (mem demo_mapped) (page_table (ctx demo_mapped)) (indices va')).
Proof.
  apply (toggle_attributes_involutive (mem demo_mapped) (page_table (ctx demo_mapped)) demo_va MEMORY_PAGING_PAGE_TYPE_READONLY O demo_leaf);
    [apply demo_mapped_inv|apply demo_mapped_leaf].
Defined.

Lemma set_user_accessible_witness :
  exists m', memory_paging_set_user_accessible_ext (mem demo_mapped) (page_table (ctx demo_mapped)) demo_va
      = (0, m') /\
    user_path m' (page_table (ctx demo_mapped)) (indices demo_va) = true.
Proof.
  apply (set_user_accessible_grants (mem demo_mapped) (page_table (ctx demo_mapped)) demo_va O demo_leaf);
    [apply demo_mapped_inv|apply demo_mapped_leaf].
Defined.

Lemma refill_recursion_witness :
  memory_paging_get_internal_frame 4 (demo 15) = Halted /\ memory_paging_get_internal_frame 3 (demo 15) = OutOfFuel.
Proof.
  assert (hands_out (demo 15) 3 (alloc (demo 15))) as Hout.
  { do 3 (eapply hands_out_more; [reflexivity|reflexivity|split; [apply demo_no_table|apply demo_translate]|]).
    apply hands_out_none. reflexivity. }
  split; [apply (refill_recursion_halts 3 4 (demo 15))|apply (refill_recursion_halts 3 3 (demo 15))];
    (exact Hout || apply wf_empty || reflexivity || (simpl; lia)).
Defined.

(** ** Behaviour at odds with the code's intent *)

(** A 1G page translates wrongly: 2 MiB into a 1G page at frame
    0x80000000 the translation gives 0x81200000 instead of 0x80200000, because
    the index of the second level is shifted by 12 instead of 9. *)
Theorem translate_1g_wrong :
  match memory_paging_add_page 0 0x40000000 0x80000000 MEMORY_PAGING_PAGE_TYPE_1G (demo 64) with
  | Done (r, s') => r = 0 /\
    translate s' 0x40000000 = Some 0x80000000 /\
    translate s' (0x40000000 + 0x200000) = Some 0x81200000
  | _ => False
  end.
Proof. vm_compute. auto. Qed.

(** Mapping a 4K page inside a 2M page reports success, but treats the
    2M page's data as a table: the translation does not change, and an entry
    is written into the data frame at 0x600000. *)
Theorem add_4k_inside_2m_corrupts :
  match (memory_paging_add_page 0 0x200000 0x600000 MEMORY_PAGING_PAGE_TYPE_2M ;;
         memory_paging_add_page 0 0x200000 0x5000 MEMORY_PAGING_PAGE_TYPE_4K) (demo 64) with
  | Done (r, s') => r = 0 /\
    translate s' 0x200000 = Some 0x600000 /\
    present (read (mem s') (MEMORY_PAGING_GET_VA_FOR_RESERVED_FA 0x600000) 0) = true
  | _ => False
  end.
Proof. vm_compute. auto. Qed.
