(* ===== verification/FrameAllocator.v ===== *)
(** * The physical frame allocator ([cc/memory/frame_allocator.64.c])

    The context of the allocator with its three indexes by address and the
    list of free blocks by size, and all operations of its table.  Containers,
    the heap and the page tables are reached through the type classes below; the
    lock of the context is not part of the model, an operation is one step.
    Insertions into the containers are taken to succeed, as the code does not
    look at their results. *)

From S2P Require Import Prelude Frame.

(** ** Comparators *)

Definition frame_allocator_cmp_by_size (f1 f2 : frame_t) : Z :=
  if frame_count f2 <? frame_count f1 then 1
  else if frame_count f1 <? frame_count f2 then -1
  else 0.

(** The last byte of a block, in 64 bits. *)
Definition frame_end (f : frame_t) : Z :=
  u64 (frame_address f + frame_count f * FRAME_SIZE - 1).

Definition frame_allocator_cmp_by_address (f1 f2 : frame_t) : Z :=
  if frame_end f1 <? frame_address f2 then -1
  else if frame_end f2 <? frame_address f1 then 1
  else 0.

(** ** What the allocator uses of other components *)

(** An index of frames ordered by [frame_allocator_cmp_by_address]
    ([index_t], created by [bplustree_create_index_with_heap_and_unique]);
    [index_items] is the sequence an iterator yields. *)
Class FrameIndex (I : Type) := {
  index_empty : I;
  index_items : I -> list frame_t;
  index_find : I -> frame_t -> option frame_t;
  index_insert : I -> frame_t -> I;
  index_delete : I -> frame_t -> I;
}.

(** [list_sortedlist_insert] with the comparator by size. *)
Class SizeList := { sortedlist_insert : list frame_t -> frame_t -> list frame_t }.

(** What lies outside of the context, [H]: the heap and, for the operations of
    [PageWindow], the page tables and the memory.  [malloc_frame] is
    [memory_malloc_ext(heap, sizeof(frame_t), 0)], [None] when it returns
    [NULL]; the returned memory is zeroed.  [free_frame] is [memory_free_ext] of
    a frame descriptor.  [iterator_create] and [iterator_destroy] are
    [list_iterator_create], which may return [NULL], and the iterator's
    [destroy]. *)
Class FrameHeap (H : Type) := {
  malloc_frame : H -> option H;
  free_frame : H -> H;
  iterator_create : H -> option H;
  iterator_destroy : H -> H;
}.

(** The calls by which released frames are cleaned, on a state [S] that
    includes the allocator, for they may come back to it: a 4K page is mapped
    ([memory_paging_add_page]), its bytes are cleaned ([memory_memclean]), and
    it is unmapped ([memory_paging_delete_page]). *)
Class PageWindow (S : Type) := {
  add_page_4k : Z -> Z -> cmd S Z;
  memclean : Z -> Z -> cmd S unit;
  delete_page_4k : Z -> cmd S Z;
}.

(** [list_sortedlist_delete]: the first item equal by the equality comparator
    of the list, here [frame_allocator_cmp_by_address]. *)
Fixpoint sortedlist_delete (l : list frame_t) (f : frame_t) : list frame_t :=
  match l with
  | [] => []
  | g :: l => if frame_allocator_cmp_by_address g f =? 0 then l else g :: sortedlist_delete l f
  end.

(** ** The context *)

(** [frame_allocator_context_t]; [heap] stands for all that lies outside. *)
Record frame_allocator_context_t (I H : Type) := mk_fa {
  heap : H;
  free_frames_sorted_by_size : list frame_t;
  acpi_frames : list frame_t;
  free_frames_by_address : I;
  allocated_frames_by_address : I;
  reserved_frames_by_address : I;
  total_frame_count : Z;
  free_frame_count : Z;
  allocated_frame_count : Z;
}.
Arguments mk_fa {I H}.
Arguments heap {I H} f.
Arguments free_frames_sorted_by_size {I H} f.
Arguments acpi_frames {I H} f.
Arguments free_frames_by_address {I H} f.
Arguments allocated_frames_by_address {I H} f.
Arguments reserved_frames_by_address {I H} f.
Arguments total_frame_count {I H} f.
Arguments free_frame_count {I H} f.
Arguments allocated_frame_count {I H} f.

(** [efi_memory_descriptor_t], with [efi_memory_type_t] as its number. *)
Record efi_memory_descriptor_t := mk_desc {
  efi_type : Z;
  physical_start : Z;
  page_count : Z;
  attribute : Z;
}.

Definition EFI_LOADER_CODE : Z := 1.
Definition EFI_LOADER_DATA : Z := 2.
Definition EFI_BOOT_SERVICES_CODE : Z := 3.
Definition EFI_BOOT_SERVICES_DATA : Z := 4.
Definition EFI_RUNTIME_SERVICES_CODE : Z := 5.
Definition EFI_RUNTIME_SERVICES_DATA : Z := 6.
Definition EFI_CONVENTIONAL_MEMORY : Z := 7.
Definition EFI_ACPI_RECLAIM_MEMORY : Z := 9.
Definition EFI_PAL_CODE : Z := 13.

Section Operations.
Context {I H : Type} `{FI : FrameIndex I} `{SL : SizeList} `{HP : FrameHeap H}.
Context {PW : PageWindow (frame_allocator_context_t I H)}.

Abbreviation state := (frame_allocator_context_t I H).
Abbreviation M := (cmd state).

Definition modify (g : state -> state) : M unit := s ← get_state; put_state (g s).

(** *** Updates of the containers *)

Definition set_heap (h : H) (s : state) : state :=
  mk_fa h (free_frames_sorted_by_size s) (acpi_frames s) (free_frames_by_address s)
    (allocated_frames_by_address s) (reserved_frames_by_address s) (total_frame_count s)
    (free_frame_count s) (allocated_frame_count s).
Definition set_free_list (l : list frame_t) (s : state) : state :=
  mk_fa (heap s) l (acpi_frames s) (free_frames_by_address s)
    (allocated_frames_by_address s) (reserved_frames_by_address s) (total_frame_count s)
    (free_frame_count s) (allocated_frame_count s).
Definition set_acpi (l : list frame_t) (s : state) : state :=
  mk_fa (heap s) (free_frames_sorted_by_size s) l (free_frames_by_address s)
    (allocated_frames_by_address s) (reserved_frames_by_address s) (total_frame_count s)
    (free_frame_count s) (allocated_frame_count s).
Definition set_free (i : I) (s : state) : state :=
  mk_fa (heap s) (free_frames_sorted_by_size s) (acpi_frames s) i
    (allocated_frames_by_address s) (reserved_frames_by_address s) (total_frame_count s)
    (free_frame_count s) (allocated_frame_count s).
Definition set_allocated (i : I) (s : state) : state :=
  mk_fa (heap s) (free_frames_sorted_by_size s) (acpi_frames s) (free_frames_by_address s)
    i (reserved_frames_by_address s) (total_frame_count s)
    (free_frame_count s) (allocated_frame_count s).
Definition set_reserved (i : I) (s : state) : state :=
  mk_fa (heap s) (free_frames_sorted_by_size s) (acpi_frames s) (free_frames_by_address s)
    (allocated_frames_by_address s) i (total_frame_count s)
    (free_frame_count s) (allocated_frame_count s).
Definition set_counts (total free allocated : Z) (s : state) : state :=
  mk_fa (heap s) (free_frames_sorted_by_size s) (acpi_frames s) (free_frames_by_address s)
    (allocated_frames_by_address s) (reserved_frames_by_address s) total free allocated.

(** A new free block goes into the list by size and the index by address. *)
Definition add_free (f : frame_t) : M unit :=
  modify (fun s => set_free_list (sortedlist_insert (free_frames_sorted_by_size s) f) s) ;;
  modify (fun s => set_free (index_insert (free_frames_by_address s) f) s).
Definition add_allocated (f : frame_t) : M unit :=
  modify (fun s => set_allocated (index_insert (allocated_frames_by_address s) f) s).
Definition add_reserved (f : frame_t) : M unit :=
  modify (fun s => set_reserved (index_insert (reserved_frames_by_address s) f) s).

(** [ctx->allocated_frame_count += n; ctx->free_frame_count -= n]. *)
Definition count_allocated (n : Z) : M unit :=
  modify (fun s => set_counts (total_frame_count s) (u64 (free_frame_count s - n))
                     (u64 (allocated_frame_count s + n)) s).
(** [ctx->allocated_frame_count -= n; ctx->free_frame_count += n]. *)
Definition count_freed (n : Z) : M unit :=
  modify (fun s => set_counts (total_frame_count s) (u64 (free_frame_count s + n))
                     (u64 (allocated_frame_count s - n)) s).

(** [malloc] of a frame descriptor: whether it succeeded. *)
Definition malloc : M bool :=
  s ← get_state;
  match malloc_frame (heap s) with
  | Some h => put_state (set_heap h s) ;; mret true
  | None => mret false
  end.
(** [malloc] whose failure halts the processor. *)
Definition malloc_or_hlt : M unit := ok ← malloc; if ok : bool then mret tt else cpu_hlt.

(** The descriptor of a block that was split or released is freed. *)
Definition free_descriptor : M unit := modify (fun s => set_heap (free_frame (heap s)) s).

(** [list_iterator_create]: whether it succeeded. *)
Definition create_iterator : M bool :=
  s ← get_state;
  match iterator_create (heap s) with
  | Some h => put_state (set_heap h s) ;; mret true
  | None => mret false
  end.
Definition destroy_iterator : M unit := modify (fun s => set_heap (iterator_destroy (heap s)) s).

(** The loop that maps, cleans and unmaps the frames of a block, from frame [i]
    on; the results of the calls are ignored. *)
Fixpoint clean_loop (n : nat) (f : frame_t) (i : Z) : M unit :=
  match n with
  | O => mret tt
  | S n =>
    add_page_4k 0x1000 (u64 (frame_address f + i * FRAME_SIZE)) ;;
    memclean 0x1000 FRAME_SIZE ;;
    delete_page_4k 0x1000 ;;
    clean_loop n f (i + 1)
  end.

Definition clean_frames (f : frame_t) : M unit := clean_loop (Z.to_nat (frame_count f)) f 0.

(** *** [fa_allocate_frame_by_count] *)

Definition MEMORY_PAGING_PAGE_LENGTH_2M : Z := 0x200000.

(** The search through the free blocks: the chosen block, the number of
    frames to cut off at its begin, and the list without the block.  [None]
    for the number means that nothing has to be cut off. *)
Fixpoint find_block (count fa_type : Z) (l : list frame_t)
    : option (frame_t * option Z * list frame_t) :=
  match l with
  | [] => None
  | item :: l =>
    let skip := '(x, b, r) ← find_block count fa_type l; Some (x, b, item :: r) in
    if count <=? frame_count item then
      if flag_set fa_type FRAME_ALLOCATION_TYPE_UNDER_4G
         && (0x100000000 <=? u64 (frame_address item + count * FRAME_SIZE))
      then skip
      else if count mod 0x200 =? 0 then
        if frame_address item mod MEMORY_PAGING_PAGE_LENGTH_2M =? 0 then Some (item, None, l)
        else
          let begin_rem := frame_address item mod MEMORY_PAGING_PAGE_LENGTH_2M in
          let begin_rem_f_cnt := begin_rem / FRAME_SIZE in
          if u64 (count + begin_rem_f_cnt) <=? frame_count item
          then Some (item, Some begin_rem_f_cnt, l) else skip
      else Some (item, None, l)
    else skip
  end.

(** The begin of a block goes back to the free blocks; the descriptor comes
    zeroed from the heap and only address and count are set. *)
Definition cut_begin (item : frame_t) (begin_rem : option Z) : M frame_t :=
  match begin_rem with
  | None => mret item
  | Some n =>
    malloc_or_hlt ;;
    add_free (mk_frame (frame_address item) n FRAME_TYPE_FREE 0) ;;
    mret (mk_frame (u64 (frame_address item + n * FRAME_SIZE)) (u64 (frame_count item - n))
            (frame_type item) (frame_attributes item))
  end.

(** [Some f] is the return value 0 with [*fs = f], [None] the value -1. *)
Definition fa_allocate_frame_by_count (count fa_type : Z) : M (option frame_t) :=
  if flag_set fa_type FRAME_ALLOCATION_TYPE_RELAX then mret None
  else if flag_set fa_type FRAME_ALLOCATION_TYPE_BLOCK then
    iter ← create_iterator;
    if negb iter then mret None else
    s ← get_state;
    match find_block count fa_type (free_frames_sorted_by_size s) with
    | None => destroy_iterator ;; mret None
    | Some (item, begin_rem, l) =>
      modify (set_free_list l) ;;
      modify (fun s => set_free (index_delete (free_frames_by_address s) item) s) ;;
      tmp_frm ← cut_begin item begin_rem;
      destroy_iterator ;;
      malloc_or_hlt ;;
      let rem_frms := u64 (frame_count tmp_frm - count) in
      let attributes :=
        if flag_set fa_type FRAME_ALLOCATION_TYPE_OLD_RESERVED
        then Z.lor (frame_attributes tmp_frm) FRAME_ATTRIBUTE_OLD_RESERVED
        else frame_attributes tmp_frm in
      count_allocated count ;;
      new_frm ←
        (if flag_set fa_type FRAME_ALLOCATION_TYPE_RESERVED then
           let new_frm := mk_frame (frame_address tmp_frm) count FRAME_TYPE_RESERVED attributes in
           add_reserved new_frm ;; mret new_frm
         else
           let new_frm := mk_frame (frame_address tmp_frm) count FRAME_TYPE_USED attributes in
           add_allocated new_frm ;; mret new_frm);
      (if rem_frms =? 0 then mret tt else
         malloc_or_hlt ;;
         add_free (mk_frame (u64 (frame_address tmp_frm + count * FRAME_SIZE)) rem_frms
                     FRAME_TYPE_FREE (frame_attributes tmp_frm))) ;;
      free_descriptor ;;
      mret (Some new_frm)
    end
  else mret None.

(** *** [fa_allocate_frame]: a given block out of the free ones *)

(** [malloc] whose failure ends the operation with -1, after whatever was
    changed before. *)
Definition malloc_or_fail (k : M Z) : M Z := ok ← malloc; if ok : bool then k else mret (-1).

(** The block itself becomes allocated or reserved. *)
Definition allocate_last (f frm : frame_t) : M Z :=
  malloc_or_fail
    (let new_frm := mk_frame (frame_address f) (frame_count f)
       (if decide (frame_type f = FRAME_TYPE_FREE) then FRAME_TYPE_USED else frame_type f)
       (if frame_attributes f =? 0 then frame_attributes frm else frame_attributes f) in
     count_allocated (frame_count new_frm) ;;
     (if decide (frame_type new_frm = FRAME_TYPE_USED)
      then add_allocated new_frm else add_reserved new_frm) ;;
     free_descriptor ;;
     mret 0).

(** What of [frm] lies after [f] becomes free again. *)
Definition allocate_after (f frm : frame_t) (rem_frms : Z) : M Z :=
  let rem_frms := u64 (rem_frms - frame_count f) in
  if rem_frms =? 0 then allocate_last f frm
  else
    malloc_or_fail
      (add_free (mk_frame (u64 (frame_address f + frame_count f * FRAME_SIZE)) rem_frms
                   FRAME_TYPE_FREE (frame_attributes frm)) ;;
       allocate_last f frm).

Definition fa_allocate_frame (f : frame_t) : M Z :=
  s ← get_state;
  match index_find (free_frames_by_address s) f with
  | None => mret (-1)
  | Some frm =>
    modify (fun s => set_free_list (sortedlist_delete (free_frames_sorted_by_size s) frm) s) ;;
    modify (fun s => set_free (index_delete (free_frames_by_address s) frm) s) ;;
    if frame_address frm <? frame_address f then
      malloc_or_fail
        (let n := (frame_address f - frame_address frm) / FRAME_SIZE in
         add_free (mk_frame (frame_address frm) n FRAME_TYPE_FREE (frame_attributes frm)) ;;
         allocate_after f frm (u64 (frame_count frm - n)))
    else allocate_after f frm (frame_count frm)
  end.

(** *** [fa_release_frame] *)

(** [f] becomes free and clean. *)
Definition release_last (tmp_frame f : frame_t) : M Z :=
  malloc_or_fail
    (let new_frm := mk_frame (frame_address f) (frame_count f) FRAME_TYPE_FREE
                      (frame_attributes tmp_frame) in
     count_freed (frame_count new_frm) ;;
     clean_frames f ;;
     add_free new_frm ;;
     free_descriptor ;;
     mret 0).

(** What of [tmp_frame] lies after [f] is inserted again with [add]. *)
Definition release_after (add : frame_t -> M unit) (tmp_frame f : frame_t) (rem_frms : Z) : M Z :=
  if rem_frms =? 0 then release_last tmp_frame f
  else
    malloc_or_fail
      (add (mk_frame (u64 (frame_address f + frame_count f * FRAME_SIZE)) rem_frms
              FRAME_TYPE_USED (frame_attributes tmp_frame)) ;;
       release_last tmp_frame f).

(** Both branches of the operation: the block [tmp_frame] that was found is
    deleted, its parts outside [f] are inserted again as [FRAME_TYPE_USED]
    with [add], and [f] becomes free. *)
Definition release_from (delete : frame_t -> M unit) (add : frame_t -> M unit)
    (tmp_frame f : frame_t) : M Z :=
  delete tmp_frame ;;
  let rem_frms := u64 (frame_count tmp_frame - frame_count f) in
  if frame_address tmp_frame <? frame_address f then
    malloc_or_fail
      (let prev_frm_count := (frame_address f - frame_address tmp_frame) / FRAME_SIZE in
       add (mk_frame (frame_address tmp_frame) prev_frm_count FRAME_TYPE_USED
              (frame_attributes tmp_frame)) ;;
       release_after add tmp_frame f (u64 (rem_frms - prev_frm_count)))
  else release_after add tmp_frame f rem_frms.

Definition delete_allocated (f : frame_t) : M unit :=
  modify (fun s => set_allocated (index_delete (allocated_frames_by_address s) f) s).
Definition delete_reserved (f : frame_t) : M unit :=
  modify (fun s => set_reserved (index_delete (reserved_frames_by_address s) f) s).

Definition fa_release_frame (f : frame_t) : M Z :=
  s ← get_state;
  match index_find (allocated_frames_by_address s) f with
  | Some tmp_frame => release_from delete_allocated add_allocated tmp_frame f
  | None =>
    match index_find (reserved_frames_by_address s) f with
    | Some tmp_frame => release_from delete_reserved add_reserved tmp_frame f
    | None => mret 0
    end
  end.

(** *** [fa_reserve_system_frames] *)

(** The first loop skips what is reserved already; [None] is the early return
    "frame inside reserved area". *)
Fixpoint reserve_skip (fuel : nat) (i : I) (rem_frm_start rem_frm_cnt : Z) : outcome (option (Z * Z)) :=
  if rem_frm_cnt =? 0 then Done (Some (rem_frm_start, rem_frm_cnt)) else
  match index_find i (mk_frame rem_frm_start 1 FRAME_TYPE_FREE 0) with
  | None => Done (Some (rem_frm_start, rem_frm_cnt))
  | Some frm =>
    if (frame_address frm <=? rem_frm_start) && (rem_frm_cnt <=? frame_count frm) then Done None
    else
      let frm_alloc_cnt := u64 (rem_frm_start - frame_address frm) / FRAME_SIZE in
      let frm_alloc_cnt := u64 (frame_count frm - frm_alloc_cnt) in
      match fuel with
      | O => OutOfFuel
      | S fuel => reserve_skip fuel i (u64 (rem_frm_start + frm_alloc_cnt * FRAME_SIZE))
                    (u64 (rem_frm_cnt - frm_alloc_cnt))
      end
  end.

(** The second loop takes free blocks, until an address is neither reserved
    nor free; the rest is then reserved as it is. *)
Fixpoint reserve_take (fuel : nat) (rem_frm_start rem_frm_cnt : Z) : M unit :=
  if rem_frm_cnt =? 0 then mret tt else
  s ← get_state;
  match index_find (free_frames_by_address s) (mk_frame rem_frm_start 1 FRAME_TYPE_FREE 0) with
  | None =>
    malloc_or_hlt ;;
    add_reserved (mk_frame rem_frm_start rem_frm_cnt FRAME_TYPE_RESERVED 0)
  | Some frm =>
    let frm_alloc_cnt := u64 (rem_frm_start - frame_address frm) / FRAME_SIZE in
    let frm_alloc_cnt := u64 (frame_count frm - frm_alloc_cnt) in
    if frm_alloc_cnt <? rem_frm_cnt then
      fa_allocate_frame (mk_frame rem_frm_start frm_alloc_cnt FRAME_TYPE_RESERVED 0) ;;
      match fuel with
      | O => out_of_fuel
      | S fuel => reserve_take fuel (u64 (rem_frm_start + frm_alloc_cnt * FRAME_SIZE))
                    (rem_frm_cnt - frm_alloc_cnt)
      end
    else
      fa_allocate_frame (mk_frame rem_frm_start rem_frm_cnt FRAME_TYPE_RESERVED 0) ;;
      mret tt
  end.

(** Every iteration of both loops takes at least one frame off the request. *)
Definition fa_reserve_system_frames (f : frame_t) : M Z :=
  s ← get_state;
  match reserve_skip (Z.to_nat (frame_count f)) (reserved_frames_by_address s)
          (frame_address f) (frame_count f) with
  | Done None => mret 0
  | Done (Some (rem_frm_start, rem_frm_cnt)) =>
    reserve_take (Z.to_nat (frame_count f)) rem_frm_start rem_frm_cnt ;; mret 0
  | Halted => cpu_hlt
  | OutOfFuel => out_of_fuel
  end.

(** *** Bulk release *)

(** One pass of [fa_cleanup] and [fa_release_acpi_reclaim_memory]: the blocks
    selected by [sel] leave their index, are cleaned, lose the attribute
    [attr], and become free.  The list of the blocks and the iterators, whose
    creation the code does not check, are taken to be allocated. *)
Definition release_selected (delete : frame_t -> M unit) (attr : Z) (frms : list frame_t) : M unit :=
  foldr (fun f k =>
    delete f ;;
    clean_frames f ;;
    let f' := mk_frame (frame_address f) (frame_count f) FRAME_TYPE_FREE
                (Z.land (frame_attributes f) (Z.lnot attr)) in
    count_freed (frame_count f) ;;
    add_free f' ;;
    k) (mret tt) frms.

(** The items of an index that satisfy [sel], in a list sorted by size. *)
Definition select (sel : frame_t -> bool) (i : I) : list frame_t :=
  foldl (fun l f => if sel f then sortedlist_insert l f else l) [] (index_items i).

Definition old_reserved (f : frame_t) : bool :=
  flag_set (frame_attributes f) FRAME_ATTRIBUTE_OLD_RESERVED.
Definition acpi_reclaimable (f : frame_t) : bool :=
  flag_set (frame_attributes f) FRAME_ATTRIBUTE_ACPI_RECLAIM_MEMORY
  && negb (flag_set (frame_attributes f) FRAME_ATTRIBUTE_RESERVED_PAGE_MAPPED).

Definition fa_release_acpi_reclaim_memory : M Z :=
  s ← get_state;
  release_selected delete_reserved FRAME_ATTRIBUTE_ACPI_RECLAIM_MEMORY
    (select acpi_reclaimable (reserved_frames_by_address s)) ;;
  mret 0.

Definition fa_cleanup : M Z :=
  s ← get_state;
  release_selected delete_reserved FRAME_ATTRIBUTE_OLD_RESERVED
    (select old_reserved (reserved_frames_by_address s)) ;;
  s ← get_state;
  release_selected delete_allocated FRAME_ATTRIBUTE_OLD_RESERVED
    (select old_reserved (allocated_frames_by_address s)) ;;
  mret 0.

(** *** Queries *)

Definition fa_get_reserved_frames_of_address (s : state) (address : Z) : option frame_t :=
  index_find (reserved_frames_by_address s)
    (mk_frame (Z.shiftl (Z.shiftr address 12) 12) 1 FRAME_TYPE_FREE 0).

Definition fa_get_total_frame_count (s : state) : Z := total_frame_count s.
Definition fa_get_free_frame_count (s : state) : Z := free_frame_count s.
Definition fa_get_allocated_frame_count (s : state) : Z := allocated_frame_count s.

(** *** Construction from the memory map *)

Definition fa_get_fa_type (efi_m_type : Z) : frame_type_t :=
  if (efi_m_type =? EFI_LOADER_CODE) || (efi_m_type =? EFI_LOADER_DATA) then FRAME_TYPE_FREE
  else if (efi_m_type =? EFI_BOOT_SERVICES_CODE) || (efi_m_type =? EFI_RUNTIME_SERVICES_CODE)
          || (efi_m_type =? EFI_PAL_CODE) then FRAME_TYPE_ACPI_CODE
  else if (efi_m_type =? EFI_BOOT_SERVICES_DATA) || (efi_m_type =? EFI_RUNTIME_SERVICES_DATA)
       then FRAME_TYPE_ACPI_DATA
  else if efi_m_type =? EFI_CONVENTIONAL_MEMORY then FRAME_TYPE_FREE
  else if efi_m_type =? EFI_ACPI_RECLAIM_MEMORY then FRAME_TYPE_ACPI_RECLAIM_MEMORY
  else FRAME_TYPE_RESERVED.

(** One block of the memory map is filed under its type.  [insert_acpi] is
    the insertion into the list sorted by address. *)
Definition file_block (insert_acpi : list frame_t -> frame_t -> list frame_t)
    (f : frame_t) (s : state) : state :=
  let n := frame_count f in
  let total := u64 (total_frame_count s + n) in
  let allocated s := set_counts total (free_frame_count s) (u64 (allocated_frame_count s + n)) s in
  let with_attr a := mk_frame (frame_address f) (frame_count f) (frame_type f)
                       (Z.lor (frame_attributes f) a) in
  match frame_type f with
  | FRAME_TYPE_FREE =>
    set_counts total (u64 (free_frame_count s + n)) (allocated_frame_count s)
      (set_free_list (sortedlist_insert (free_frames_sorted_by_size s) f)
         (set_free (index_insert (free_frames_by_address s) f) s))
  | FRAME_TYPE_USED =>
    allocated (set_allocated (index_insert (allocated_frames_by_address s) f) s)
  | FRAME_TYPE_RESERVED =>
    allocated (set_reserved (index_insert (reserved_frames_by_address s) f) s)
  | FRAME_TYPE_ACPI_RECLAIM_MEMORY =>
    allocated (set_reserved (index_insert (reserved_frames_by_address s)
                 (with_attr FRAME_ATTRIBUTE_ACPI_RECLAIM_MEMORY)) s)
  | FRAME_TYPE_ACPI_CODE | FRAME_TYPE_ACPI_DATA =>
    allocated (set_acpi (insert_acpi (acpi_frames s) (with_attr FRAME_ATTRIBUTE_ACPI)) s)
  end.

(** The loop over the descriptors after the first one. *)
Fixpoint new_loop (insert_acpi : list frame_t -> frame_t -> list frame_t)
    (ds : list efi_memory_descriptor_t) (frame_start frame_count : Z)
    (type : frame_type_t) (frame_attr : Z) : M bool :=
  match ds with
  | [] => mret true
  | d :: ds =>
    if bool_decide (type = fa_get_fa_type (efi_type d))
       && (u64 (frame_start + frame_count * FRAME_SIZE) =? physical_start d)
       && (frame_attr =? attribute d)
    then new_loop insert_acpi ds frame_start (u64 (frame_count + page_count d)) type frame_attr
    else
      ok ← malloc;
      if negb ok then mret false else
      let type' := if u64 (frame_start + frame_count * FRAME_SIZE) <=? Z.shiftl 1 20
                   then FRAME_TYPE_RESERVED else type in
      modify (file_block insert_acpi (mk_frame frame_start frame_count type' (attribute d))) ;;
      new_loop insert_acpi ds (physical_start d) (page_count d)
        (fa_get_fa_type (efi_type d)) frame_attr
  end.

(** [frame_allocator_new_ext] from the point where the containers exist;
    [None] is the result [NULL]. *)
Definition frame_allocator_new_ext (insert_acpi : list frame_t -> frame_t -> list frame_t)
    (mmap : list efi_memory_descriptor_t) (h : H) : outcome (option state) :=
  let s0 := mk_fa h [] [] index_empty index_empty index_empty 0 0 0 in
  match mmap with
  | [] => Done (Some s0)
  | d :: ds =>
    match new_loop insert_acpi ds (physical_start d) (page_count d)
            (fa_get_fa_type (efi_type d)) (attribute d) s0 with
    | Done (true, s) => Done (Some s)
    | Done (false, _) => Done None
    | Halted => Halted
    | OutOfFuel => OutOfFuel
    end
  end.

(** The allocator behind [frame_get_allocator()]: a halted processor and the
    return value -1 are both answers with which the caller halts. *)
#[export] Instance fa_ops : FrameAllocatorOps state := {|
  allocate_frame_by_count s count fa_type :=
    match fa_allocate_frame_by_count count fa_type s with
    | Done (Some f, s') => Some (f, s')
    | _ => None
    end;
  release_frame s f :=
    match fa_release_frame f s with
    | Done (r, s') => (r, s')
    | _ => (-1, s)
    end;
|}.
End Operations.
