(* ===== verification/FrameTheory.v ===== *)
(** * Blocks of frames as sets of pages, and the accounting invariant

    A block covers the page numbers [pages f].  Two blocks overlap for the
    comparator of the indexes iff they share a page, so that a collection of
    blocks is well formed iff its pages have no duplicates. *)

From S2P Require Import Prelude Frame FrameAllocator.

(** ** Pages *)

Record frame_wf (f : frame_t) : Prop := {
  fw_addr : 0 <= frame_address f;
  fw_align : frame_address f mod 4096 = 0;
  fw_count : 0 < frame_count f;
  fw_end : frame_address f + frame_count f * 4096 <= 2 ^ 64;
}.

Definition page_of (f : frame_t) : Z := frame_address f / 4096.
Definition pages (f : frame_t) : list Z := seqZ (page_of f) (frame_count f).
Definition layout (l : list frame_t) : list Z := l ≫= pages.

Lemma frame_end_wf f : frame_wf f -> frame_end f = frame_address f + frame_count f * 4096 - 1.
Proof. intros []. unfold frame_end, u64, FRAME_SIZE. apply Z.mod_small. nia. Qed.

Lemma page_of_addr f : frame_wf f -> frame_address f = page_of f * 4096.
Proof. intros []. unfold page_of. pose proof (Z.div_mod (frame_address f) 4096). lia. Qed.

Lemma elem_of_pages f p : p ∈ pages f <-> page_of f <= p < page_of f + frame_count f.
Proof. unfold pages. by rewrite elem_of_seqZ. Qed.

(** The three answers of the comparator. *)
Lemma cmp_by_address_cases f g :
  frame_wf f -> frame_wf g ->
  (frame_allocator_cmp_by_address f g = -1 /\ page_of f + frame_count f <= page_of g) \/
  (frame_allocator_cmp_by_address f g = 1 /\ page_of g + frame_count g <= page_of f) \/
  (frame_allocator_cmp_by_address f g = 0 /\
   page_of g < page_of f + frame_count f /\ page_of f < page_of g + frame_count g).
Proof.
  intros Hf Hg. unfold frame_allocator_cmp_by_address. rewrite !frame_end_wf by done.
  rewrite (page_of_addr f), (page_of_addr g) by done. destruct Hf, Hg.
  repeat case_match; lia.
Qed.

Lemma cmp_overlap f g :
  frame_wf f -> frame_wf g ->
  frame_allocator_cmp_by_address f g = 0 <-> exists p, p ∈ pages f /\ p ∈ pages g.
Proof.
  intros Hf Hg. setoid_rewrite elem_of_pages.
  destruct (cmp_by_address_cases f g Hf Hg) as [[-> H]|[[-> H]|[-> H]]];
    pose proof (fw_count f Hf); pose proof (fw_count g Hg).
  - split; [done|]. intros (p & ? & ?). lia.
  - split; [done|]. intros (p & ? & ?). lia.
  - split; [|done]. intros _. exists (Z.max (page_of f) (page_of g)). lia.
Qed.

(** Splitting a block. *)
Lemma pages_split f f1 f2 :
  frame_wf f -> page_of f1 = page_of f -> page_of f2 = page_of f1 + frame_count f1 ->
  0 <= frame_count f1 -> 0 <= frame_count f2 -> frame_count f = frame_count f1 + frame_count f2 ->
  pages f = pages f1 ++ pages f2.
Proof.
  intros Hf E1 E2 H1 H2 E. unfold pages. rewrite E2, E1, E. by rewrite seqZ_app.
Qed.

(** ** Collections of blocks *)

Record items_ok (l : list frame_t) : Prop := {
  io_wf : Forall frame_wf l;
  io_nodup : NoDup (layout l);
}.

#[export] Instance layout_perm : Proper (Permutation ==> Permutation) layout.
Proof. intros l k H. unfold layout. by rewrite H. Qed.

#[export] Instance items_ok_perm : Proper (Permutation ==> iff) items_ok.
Proof.
  intros l k H. split; intros [H1 H2]; split.
  - by rewrite <- H.
  - by rewrite <- H.
  - by rewrite H.
  - by rewrite H.
Qed.

Lemma layout_cons f l : layout (f :: l) = pages f ++ layout l.
Proof. done. Qed.

Lemma layout_app l k : layout (l ++ k) = layout l ++ layout k.
Proof. unfold layout. by rewrite bind_app. Qed.

Lemma items_ok_app_r l k : items_ok (l ++ k) -> items_ok k.
Proof.
  intros [H1 H2]. apply Forall_app in H1 as [_ ?]. rewrite layout_app in H2.
  apply NoDup_app in H2 as (_ & _ & ?). by split.
Qed.

Lemma items_ok_app_l l k : items_ok (l ++ k) -> items_ok l.
Proof. rewrite (Permutation_app_comm l k). apply items_ok_app_r. Qed.

Lemma items_ok_sub l k : k ⊆+ l -> items_ok l -> items_ok k.
Proof. intros [k' ->]%submseteq_Permutation. apply items_ok_app_l. Qed.

Lemma items_ok_disjoint f l g :
  items_ok (f :: l) -> g ∈ l -> frame_allocator_cmp_by_address g f <> 0.
Proof.
  intros [Hwf Hnd] Hg. inversion Hwf as [|? ? Hf Hl]; subst.
  rewrite (cmp_overlap g f) by (done || by eapply Forall_forall).
  intros (p & Hp1 & Hp2). rewrite layout_cons in Hnd. apply NoDup_app in Hnd as (_ & Hd & _).
  apply (Hd p Hp2). apply list_elem_of_bind. eauto.
Qed.

Lemma items_ok_split f f1 f2 l :
  frame_wf f1 -> frame_wf f2 -> pages f = pages f1 ++ pages f2 ->
  items_ok (f :: l) -> items_ok (f1 :: f2 :: l).
Proof.
  intros H1 H2 E [Hwf Hnd]. apply Forall_cons in Hwf as [_ Hwf].
  split; [by do 2 (apply Forall_cons_2; [done|])|].
  rewrite !layout_cons. rewrite layout_cons, E in Hnd. by rewrite app_assoc.
Qed.

(** ** What the containers promise *)

Class FrameIndexLaws (I : Type) `{FI : FrameIndex I} := {
  items_empty : index_items index_empty = [];
  find_some i k f : items_ok (index_items i) -> frame_wf k ->
    index_find i k = Some f -> f ∈ index_items i /\ frame_allocator_cmp_by_address f k = 0;
  find_none i k : items_ok (index_items i) -> frame_wf k ->
    index_find i k = None ->
    forall f, f ∈ index_items i -> frame_allocator_cmp_by_address f k <> 0;
  insert_items i f : items_ok (f :: index_items i) ->
    index_items (index_insert i f) ≡ₚ f :: index_items i;
  delete_items i f : items_ok (index_items i) -> f ∈ index_items i ->
    index_items i ≡ₚ f :: index_items (index_delete i f);
}.

Definition size_le (f g : frame_t) : Prop := frame_count f <= frame_count g.

Class SizeListLaws `{SL : SizeList} := {
  sortedlist_insert_perm l f : sortedlist_insert l f ≡ₚ f :: l;
  sortedlist_insert_sorted l f :
    StronglySorted size_le l -> StronglySorted size_le (sortedlist_insert l f);
}.

(** ** What the heap and the page tables promise *)

(** A property of what lies outside that allocations of descriptors keep. *)
Class Kept {H} `{HP : FrameHeap H} (W : H -> Prop) := {
  kept_malloc h h' : W h -> malloc_frame h = Some h' -> W h';
  kept_free h : W h -> W (free_frame h);
}.

#[export] Instance kept_true {H} `{HP : FrameHeap H} : Kept (fun _ : H => True).
Proof. done. Qed.

(** The window at 0x1000.  A [data_frame] is one that neither the heap nor the
    page tables lie in.  [window_ready]: the window is not mapped, and mapping it
    needs no new table, so that the paging code does not come back to the
    allocator.  [window_on h pa]: it is mapped to the data frame at [pa].
    [zero_frame h a]: [a] is a data frame that holds zeros only. *)
Class PageWindowLaws {I H} `{HP : FrameHeap H} {PW : PageWindow (frame_allocator_context_t I H)} := {
  data_frame : Z -> Prop;
  window_ready : H -> Prop;
  window_on : H -> Z -> Prop;
  zero_frame : H -> Z -> Prop;
  add_page_law (s : frame_allocator_context_t I H) pa : window_ready (heap s) -> data_frame pa ->
    exists r h, add_page_4k 0x1000 pa s = Done (r, set_heap h s) /\ window_on h pa /\
      forall a, zero_frame (heap s) a -> zero_frame h a;
  memclean_law (s : frame_allocator_context_t I H) pa : window_on (heap s) pa ->
    exists h, memclean 0x1000 FRAME_SIZE s = Done (tt, set_heap h s) /\ window_on h pa /\ zero_frame h pa /\
      forall a, zero_frame (heap s) a -> zero_frame h a;
  delete_page_law (s : frame_allocator_context_t I H) pa : window_on (heap s) pa ->
    exists r h, delete_page_4k 0x1000 s = Done (r, set_heap h s) /\ window_ready h /\
      forall a, zero_frame (heap s) a -> zero_frame h a;
  malloc_ready h h' : malloc_frame h = Some h' -> window_ready h -> window_ready h';
  malloc_zero h h' a : malloc_frame h = Some h' -> zero_frame h a -> zero_frame h' a;
  free_ready h : window_ready h -> window_ready (free_frame h);
  free_zero h a : zero_frame h a -> zero_frame (free_frame h) a;
}.

(** The window can be used, and the frames at [l] hold zeros. *)
Definition cleaned_frames {I H} `{PWL : PageWindowLaws I H} (l : list Z) (h : H) : Prop :=
  window_ready h /\ Forall (zero_frame h) l.

#[export] Instance kept_cleaned {I H} `{PWL : PageWindowLaws I H} l : Kept (cleaned_frames l).
Proof.
  split.
  - intros h h' [H1 H2] E. split; [by eapply malloc_ready|]. eapply Forall_impl; [exact H2|]. intros a. by apply malloc_zero.
  - intros h [H1 H2]. split; [by apply free_ready|]. eapply Forall_impl; [exact H2|]. intros a. apply free_zero.
Qed.

(** ** Accounting

    [acct s F A R pend]: the free, allocated and reserved blocks of [s] are
    [F], [A] and [R], and together with the blocks [pend] in the hands of an
    operation they are well formed. *)
Section Accounting.
Context {I H : Type} `{FI : FrameIndex I} `{SL : SizeList} `{HP : FrameHeap H}.
Context `{FIL : !FrameIndexLaws I} `{SLL : !SizeListLaws}.
Context {PW : PageWindow (frame_allocator_context_t I H)} {PWL : PageWindowLaws}.
Abbreviation state := (frame_allocator_context_t I H).
Implicit Types s : state.
Implicit Types F A R pend : list frame_t.
Implicit Types W : H -> Prop.

Record acct s F A R pend : Prop := {
  acct_ok : items_ok (pend ++ F ++ A ++ R);
  acct_free : index_items (free_frames_by_address s) ≡ₚ F;
  acct_allocated : index_items (allocated_frames_by_address s) ≡ₚ A;
  acct_reserved : index_items (reserved_frames_by_address s) ≡ₚ R;
  acct_list : free_frames_sorted_by_size s ≡ₚ F;
  acct_sorted : StronglySorted size_le (free_frames_sorted_by_size s);
}.

(** Reordering. *)
Lemma acct_perm s F F' A A' R R' pend pend' :
  F ≡ₚ F' -> A ≡ₚ A' -> R ≡ₚ R' -> pend ≡ₚ pend' -> acct s F A R pend -> acct s F' A' R' pend'.
Proof.
  intros H1 H2 H3 H4 []. split; try done; [by rewrite <- H1, <- H2, <- H3, <- H4|..]; by etrans.
Qed.

Lemma acct_all s F A R pend : acct s F A R pend ->
  items_ok F /\ items_ok A /\ items_ok R /\ items_ok pend.
Proof.
  intros [Hok _ _ _ _ _]. split_and!.
  - by eapply items_ok_app_l, items_ok_app_r.
  - by eapply items_ok_app_l, items_ok_app_r, items_ok_app_r.
  - by eapply items_ok_app_r, items_ok_app_r, items_ok_app_r.
  - by eapply items_ok_app_l.
Qed.

(** An operation splits a block it holds. *)
Lemma acct_split s F A R pend f f1 f2 :
  frame_wf f1 -> frame_wf f2 -> pages f = pages f1 ++ pages f2 ->
  acct s F A R (f :: pend) -> acct s F A R (f1 :: f2 :: pend).
Proof. intros ? ? ? []. split; try done. by apply (items_ok_split f f1 f2). Qed.

(** A block may change its type and attributes. *)
Lemma acct_retype s F A R pend f g :
  frame_address g = frame_address f -> frame_count g = frame_count f ->
  acct s F A R (f :: pend) -> acct s F A R (g :: pend).
Proof.
  intros Ha Hc [[Hwf Hnd] ? ? ? ? ?]. split; try done. split.
  - apply Forall_cons in Hwf as [[] Hwf]. apply Forall_cons_2; [|done].
    by split; rewrite ?Ha, ?Hc.
  - assert (pages g = pages f) as E by (unfold pages, page_of; by rewrite Ha, Hc).
    rewrite <- app_comm_cons, layout_cons in *. by rewrite E.
Qed.

(** States that differ only in the heap, the counters or the ACPI list. *)
Definition same_blocks s s' : Prop :=
  free_frames_by_address s' = free_frames_by_address s /\
  allocated_frames_by_address s' = allocated_frames_by_address s /\
  reserved_frames_by_address s' = reserved_frames_by_address s /\
  free_frames_sorted_by_size s' = free_frames_sorted_by_size s.

Lemma acct_same s s' F A R pend : same_blocks s s' -> acct s F A R pend -> acct s' F A R pend.
Proof. intros (E1 & E2 & E3 & E4) []. split; by rewrite ?E1, ?E2, ?E3, ?E4. Qed.

(** The rest of the context, without the heap. *)
Record rest_t := mk_rest {
  r_acpi : list frame_t; r_total : Z; r_free : Z; r_allocated : Z;
}.
Definition rest s : rest_t :=
  mk_rest (acpi_frames s) (total_frame_count s) (free_frame_count s)
    (allocated_frame_count s).

(** The state in the middle of an operation; [W] is what is known of what lies
    outside. *)
Definition during W s F A R pend (r : rest_t) : Prop := acct s F A R pend /\ rest s = r /\ W (heap s).

Lemma wp_add_free W s F A R pend r f (Q : unit -> state -> Prop) E :
  during W s F A R (f :: pend) r ->
  (forall s', during W s' (f :: F) A R pend r -> Q tt s') -> wp (add_free f) s Q E.
Proof.
  intros [Hac Hr] HQ. apply (HQ (set_free _ (set_free_list _ s))). split; [|done].
  destruct Hac as [Hok H1 H2 H3 H4 H5]. split; simpl; try done.
  - rewrite <- Permutation_middle. done.
  - rewrite insert_items; [by rewrite H1|]. rewrite H1.
    eapply items_ok_sub; [|done]. solve_submseteq.
  - rewrite sortedlist_insert_perm. by rewrite H4.
  - by apply sortedlist_insert_sorted.
Qed.

Lemma wp_add_allocated W s F A R pend r f (Q : unit -> state -> Prop) E :
  during W s F A R (f :: pend) r ->
  (forall s', during W s' F (f :: A) R pend r -> Q tt s') -> wp (add_allocated f) s Q E.
Proof.
  intros [Hac Hr] HQ. apply (HQ (set_allocated _ s)). split; [|done].
  destruct Hac as [Hok H1 H2 H3 H4 H5]. split; simpl; try done.
  - eapply items_ok_sub; [|done]. solve_submseteq.
  - rewrite insert_items; [by rewrite H2|]. rewrite H2.
    eapply items_ok_sub; [|done]. solve_submseteq.
Qed.

Lemma wp_add_reserved W s F A R pend r f (Q : unit -> state -> Prop) E :
  during W s F A R (f :: pend) r ->
  (forall s', during W s' F A (f :: R) pend r -> Q tt s') -> wp (add_reserved f) s Q E.
Proof.
  intros [Hac Hr] HQ. apply (HQ (set_reserved _ s)). split; [|done].
  destruct Hac as [Hok H1 H2 H3 H4 H5]. split; simpl; try done.
  - eapply items_ok_sub; [|done]. solve_submseteq.
  - rewrite insert_items; [by rewrite H3|]. rewrite H3.
    eapply items_ok_sub; [|done]. solve_submseteq.
Qed.

Lemma wp_delete_allocated W s F A R pend r f (Q : unit -> state -> Prop) E :
  during W s F (f :: A) R pend r ->
  (forall s', during W s' F A R (f :: pend) r -> Q tt s') -> wp (delete_allocated f) s Q E.
Proof.
  intros [Hac Hr] HQ. apply (HQ (set_allocated _ s)). split; [|done].
  destruct Hac as [Hok H1 H2 H3 H4 H5]. split; simpl; try done.
  - eapply items_ok_sub; [|done]. solve_submseteq.
  - apply (Permutation_cons_inv (a := f)). rewrite <- H2. symmetry. apply delete_items.
    + rewrite H2. eapply items_ok_sub; [|done]. solve_submseteq.
    + rewrite H2. left.
Qed.

Lemma wp_delete_reserved W s F A R pend r f (Q : unit -> state -> Prop) E :
  during W s F A (f :: R) pend r ->
  (forall s', during W s' F A R (f :: pend) r -> Q tt s') -> wp (delete_reserved f) s Q E.
Proof.
  intros [Hac Hr] HQ. apply (HQ (set_reserved _ s)). split; [|done].
  destruct Hac as [Hok H1 H2 H3 H4 H5]. split; simpl; try done.
  - eapply items_ok_sub; [|done]. solve_submseteq.
  - apply (Permutation_cons_inv (a := f)). rewrite <- H3. symmetry. apply delete_items.
    + rewrite H3. eapply items_ok_sub; [|done]. solve_submseteq.
    + rewrite H3. left.
Qed.

(** A free block leaves the list and the index. *)
Lemma during_take_free W s F A R pend r f l :
  during W s F A R pend r -> free_frames_sorted_by_size s ≡ₚ f :: l -> StronglySorted size_le l ->
  during W (set_free (index_delete (free_frames_by_address s) f) (set_free_list l s))
    l A R (f :: pend) r.
Proof.
  intros [Hac Hr] Hl Hs. split; [|done]. destruct Hac as [Hok H1 H2 H3 H4 H5].
  rewrite Hl in H4. rewrite <- H4 in Hok, H1. split; simpl; try done.
  - eapply items_ok_sub; [|done]. solve_submseteq.
  - apply (Permutation_cons_inv (a := f)). rewrite <- H1. symmetry. apply delete_items.
    + rewrite H1. eapply items_ok_sub; [|done]. solve_submseteq.
    + rewrite H1. left.
Qed.

Lemma during_same W W' s s' F A R pend r r' :
  same_blocks s s' -> rest s' = r' -> W' (heap s') -> during W s F A R pend r -> during W' s' F A R pend r'.
Proof. intros Hs Hr HW [Hac _]. split; [by eapply acct_same|done]. Qed.

(** What holds outside after an allocation. *)
Definition after_malloc W (h' : H) : Prop := exists h, W h /\ malloc_frame h = Some h'.

Lemma wp_malloc_exact W s F A R pend r (Q : bool -> state -> Prop) E :
  during W s F A R pend r ->
  (forall s', during (after_malloc W) s' F A R pend r -> Q true s') ->
  (malloc_frame (heap s) = None -> Q false s) -> wp malloc s Q E.
Proof.
  intros Hd Ht Hf. unfold malloc. apply wp_bind, wp_get. pose proof Hd as (_ & Hr & HW).
  destruct (malloc_frame (heap s)) as [h|] eqn:Hm; [|by apply wp_ret, Hf].
  apply wp_bind, wp_put, wp_ret, Ht. eapply during_same; [..|exact Hd]; [done|done|]. by exists (heap s).
Qed.

Lemma during_weaken W W' s F A R pend r :
  (forall h, W h -> W' h) -> during W s F A R pend r -> during W' s F A R pend r.
Proof. intros HW (Hac & Hr & Hw). split_and!; auto. Qed.

Lemma wp_malloc W `{HK : !Kept W} s F A R pend r (Q : bool -> state -> Prop) E :
  during W s F A R pend r ->
  (forall s', during W s' F A R pend r -> Q true s') ->
  (malloc_frame (heap s) = None -> Q false s) -> wp malloc s Q E.
Proof.
  intros Hd Ht Hf. eapply wp_malloc_exact; [done| |done]. intros s' Hd'. apply Ht.
  eapply during_weaken; [|exact Hd']. intros h' (h & Hw & Hm). by eapply kept_malloc.
Qed.

Lemma wp_malloc_or_hlt W s F A R pend r (Q : unit -> state -> Prop) (E : Prop) :
  during W s F A R pend r ->
  (forall s', during (after_malloc W) s' F A R pend r -> Q tt s') ->
  (forall h, W h -> malloc_frame h = None -> E) -> wp malloc_or_hlt s Q E.
Proof.
  intros Hd HQ HE. unfold malloc_or_hlt. apply wp_bind. eapply wp_malloc_exact; [done|..]; auto.
  intros Hm. eapply (HE (heap s)); [|done]. apply Hd.
Qed.

Lemma wp_free_descriptor W `{HK : !Kept W} s F A R pend r (Q : unit -> state -> Prop) E :
  during W s F A R pend r ->
  (forall s', during W s' F A R pend r -> Q tt s') -> wp free_descriptor s Q E.
Proof.
  intros Hd HQ. apply (HQ (set_heap _ s)). pose proof Hd as (_ & Hr & HW).
  eapply during_same; [..|exact Hd]; [done|done|]. by apply kept_free.
Qed.

Lemma wp_destroy_iterator W s F A R pend r (Q : unit -> state -> Prop) E :
  during W s F A R pend r ->
  (forall s', during (fun h' => exists h, W h /\ h' = iterator_destroy h) s' F A R pend r -> Q tt s') -> wp destroy_iterator s Q E.
Proof.
  intros Hd HQ. apply (HQ (set_heap _ s)). pose proof Hd as (_ & Hr & HW).
  eapply during_same; [..|exact Hd]; [done|done|]. by exists (heap s).
Qed.

Lemma wp_count_allocated W s F A R pend r n (Q : unit -> state -> Prop) E :
  during W s F A R pend r ->
  (forall s', during W s' F A R pend (mk_rest (r_acpi r) (r_total r) (u64 (r_free r - n))
                (u64 (r_allocated r + n))) -> Q tt s') ->
  wp (count_allocated n) s Q E.
Proof. intros (Hac & <- & HW) HQ. apply (HQ (set_counts _ _ _ s)). split; [|done]. by apply (acct_same s). Qed.

Lemma wp_count_freed W s F A R pend r n (Q : unit -> state -> Prop) E :
  during W s F A R pend r ->
  (forall s', during W s' F A R pend (mk_rest (r_acpi r) (r_total r) (u64 (r_free r + n))
                (u64 (r_allocated r - n))) -> Q tt s') ->
  wp (count_freed n) s Q E.
Proof. intros (Hac & <- & HW) HQ. apply (HQ (set_counts _ _ _ s)). split; [|done]. by apply (acct_same s). Qed.

(** The addresses of the [n] frames of a block from frame [i] on. *)
Definition addresses_from (f : frame_t) (i : Z) (n : nat) : list Z :=
  map (fun j => u64 (frame_address f + (i + Z.of_nat j) * FRAME_SIZE)) (seq 0 n).

Definition frame_addresses (f : frame_t) : list Z := addresses_from f 0 (Z.to_nat (frame_count f)).

Lemma addresses_from_S f i n :
  addresses_from f i (S n) = u64 (frame_address f + i * FRAME_SIZE) :: addresses_from f (i + 1) n.
Proof.
  unfold addresses_from. cbn [seq map]. rewrite Z.add_0_r. f_equal. rewrite <- seq_shift, map_map.
  apply map_ext. intros j. do 3 f_equal. lia.
Qed.

Lemma wp_runs {B} (c : cmd state B) s a s' (Q : B -> state -> Prop) E : c s = Done (a, s') -> Q a s' -> wp c s Q E.
Proof. unfold wp. by intros ->. Qed.

Lemma wp_clean_loop l n f i s F A R pend r (Q : unit -> state -> Prop) E :
  during (cleaned_frames l) s F A R pend r -> Forall data_frame (addresses_from f i n) ->
  (forall s', during (cleaned_frames (addresses_from f i n ++ l)) s' F A R pend r -> Q tt s') ->
  wp (clean_loop n f i) s Q E.
Proof.
  revert i l s. induction n as [|n IH]; intros i l s Hd Hdf HQ; [by apply wp_ret, HQ|].
  rewrite addresses_from_S in Hdf, HQ. apply Forall_cons in Hdf as [Hpa Hdf]. cbn [clean_loop].
  set (pa := u64 (frame_address f + i * FRAME_SIZE)) in *. pose proof Hd as (_ & Hr & Hready & Hz).
  destruct (add_page_law s pa Hready Hpa) as (r1 & h1 & E1 & Hon1 & Hz1).
  destruct (memclean_law (set_heap h1 s) pa Hon1) as (h2 & E2 & Hon2 & Hzp & Hz2).
  destruct (delete_page_law (set_heap h2 s) pa Hon2) as (r3 & h3 & E3 & Hready3 & Hz3).
  apply wp_bind. apply (wp_runs _ _ _ _ _ _ E1).
  apply wp_bind. apply (wp_runs _ _ _ _ _ _ E2).
  apply wp_bind. apply (wp_runs _ _ _ _ _ _ E3).
  apply (IH _ (pa :: l)); [|done|].
  - eapply during_same; [..|exact Hd]; [done|done|]. split; [done|]. constructor; [by apply Hz3|].
    eapply Forall_impl; [exact Hz|]. intros a Ha. by apply Hz3, Hz2, Hz1.
  - intros s' Hd'. apply HQ. eapply during_weaken; [|exact Hd']. intros h [Hh1 Hh2]. split; [done|].
    by rewrite <- app_comm_cons, Permutation_middle.
Qed.

Lemma wp_clean_frames l s F A R pend r f (Q : unit -> state -> Prop) E :
  during (cleaned_frames l) s F A R pend r -> Forall data_frame (frame_addresses f) ->
  (forall s', during (cleaned_frames (frame_addresses f ++ l)) s' F A R pend r -> Q tt s') ->
  wp (clean_frames f) s Q E.
Proof. apply wp_clean_loop. Qed.
End Accounting.
