(* ===== verification/FrameProps.v ===== *)
(** * Correctness of the frame allocator's operations

    Every operation moves pages between the free, the allocated and the
    reserved blocks: no page is lost, none is in two blocks, and the counters
    follow. *)

From S2P Require Import Prelude Frame FrameAllocator FrameTheory.

Section Props.
Context {I H : Type} `{FI : FrameIndex I} `{SL : SizeList} `{HP : FrameHeap H}.
Context `{FIL : !FrameIndexLaws I} `{SLL : !SizeListLaws}.
Context {PW : PageWindow (frame_allocator_context_t I H)} {PWL : PageWindowLaws}.
Abbreviation state := (frame_allocator_context_t I H).
Implicit Types s : state.
Implicit Types F A R pend : list frame_t.
Implicit Types W : H -> Prop.

(** ** The search for a block *)

(** The test of one block: [Some None] takes it whole, [Some (Some n)] without
    its first [n] frames, [None] skips it. *)
Definition fits (count fa_type : Z) (item : frame_t) : option (option Z) :=
  if negb (count <=? frame_count item) then None
  else if flag_set fa_type FRAME_ALLOCATION_TYPE_UNDER_4G
         && (0x100000000 <=? u64 (frame_address item + count * FRAME_SIZE)) then None
  else if negb (count mod 0x200 =? 0) then Some None
  else if frame_address item mod MEMORY_PAGING_PAGE_LENGTH_2M =? 0 then Some None
  else let n := frame_address item mod MEMORY_PAGING_PAGE_LENGTH_2M / FRAME_SIZE in
       if u64 (count + n) <=? frame_count item then Some (Some n) else None.

Lemma find_block_cons count fa_type item l :
  find_block count fa_type (item :: l) =
  match fits count fa_type item with
  | Some b => Some (item, b, l)
  | None => '(x, b, r) ← find_block count fa_type l; Some (x, b, item :: r)
  end.
Proof.
  unfold fits. cbn [find_block]. destruct (count <=? frame_count item); [|done].
  destruct (_ && _); [done|]. destruct (count mod 0x200 =? 0); [|done].
  destruct (frame_address item mod _ =? 0); [done|]. by destruct (u64 _ <=? _).
Qed.

Lemma find_block_some count fa_type l item b l' :
  find_block count fa_type l = Some (item, b, l') ->
  exists l1 l2, l = l1 ++ item :: l2 /\ l' = l1 ++ l2 /\ fits count fa_type item = Some b /\
    Forall (fun g => fits count fa_type g = None) l1.
Proof.
  revert l'; induction l as [|g l IH]; intros l'; [done|]. rewrite find_block_cons.
  destruct (fits count fa_type g) as [b'|] eqn:Hg.
  - intros [= <- <- <-]. by exists [], l.
  - destruct (find_block count fa_type l) as [[[x b'] r]|]; [|done].
    intros [= <- <- <-]. destruct (IH r) as (l1 & l2 & -> & -> & ? & ?); [done|].
    exists (g :: l1), l2. split_and!; auto.
Qed.

Lemma find_block_none count fa_type l :
  find_block count fa_type l = None -> Forall (fun g => fits count fa_type g = None) l.
Proof.
  induction l as [|g l IH]; [done|]. rewrite find_block_cons.
  destruct (fits count fa_type g) eqn:Hg; [done|].
  destruct (find_block count fa_type l) as [[[x b'] r]|]; [done|]. auto.
Qed.

Lemma fits_some count fa_type item b :
  frame_wf item -> 0 < count -> fits count fa_type item = Some b ->
  count <= frame_count item /\
  match b with
  | None => True
  | Some n => n = frame_address item mod 0x200000 / 4096 /\ 0 < n /\ count + n <= frame_count item
  end.
Proof.
  intros [H1 H2 H3 H4] Hc. unfold fits, MEMORY_PAGING_PAGE_LENGTH_2M, FRAME_SIZE.
  destruct (Z.leb_spec count (frame_count item)); [|done].
  simpl. case_match; [done|]. destruct (negb _); [intros [= <-]; by split|].
  destruct (Z.eqb_spec (frame_address item mod 0x200000) 0) as [|Hm]; [intros [= <-]; by split|].
  set (n := frame_address item mod 0x200000 / 4096) in *.
  assert (0 < n < 512) as Hn by (unfold n; Z.to_euclidean_division_equations; lia).
  unfold u64. rewrite Z.mod_small by lia.
  destruct (Z.leb_spec (count + n) (frame_count item)); [|done].
  intros [= <-]. split_and!; (done || lia).
Qed.

Lemma sorted_remove l1 l2 (x : frame_t) :
  StronglySorted size_le (l1 ++ x :: l2) -> StronglySorted size_le (l1 ++ l2).
Proof.
  induction l1 as [|y l1 IH]; simpl; intros Hs; inversion Hs as [|? ? Hs' Hf]; subst; [done|].
  constructor; [auto|]. apply Forall_app in Hf as [? Hf]. apply Forall_cons in Hf as [_ ?].
  by apply Forall_app.
Qed.

(** ** Blocks cut out of blocks *)

(** The [n] frames of [f] from frame [i] on. *)
Definition sub_block (f : frame_t) (i n : Z) (t : frame_type_t) (a : Z) : frame_t :=
  mk_frame (frame_address f + i * 4096) n t a.

Lemma sub_block_wf f i n t a :
  frame_wf f -> 0 <= i -> 0 < n -> i + n <= frame_count f -> frame_wf (sub_block f i n t a).
Proof.
  intros [] Hi Hn Hin. split; simpl; [lia| |lia|lia].
  rewrite Z.mod_add by lia. done.
Qed.

Lemma sub_block_page f i n t a : page_of (sub_block f i n t a) = page_of f + i.
Proof. unfold page_of. simpl. by rewrite Z.div_add by lia. Qed.

Lemma sub_block_u64 f i n t a :
  frame_wf f -> 0 <= i -> 0 < n -> i + n <= frame_count f ->
  mk_frame (u64 (frame_address f + i * FRAME_SIZE)) (u64 n) t a = sub_block f i n t a.
Proof.
  intros [] Hi Hn Hin. unfold sub_block, u64, FRAME_SIZE. rewrite !Z.mod_small by lia. done.
Qed.

Lemma sub_block_sub f i n t a j m t' a' :
  sub_block (sub_block f i n t a) j m t' a' = sub_block f (i + j) m t' a'.
Proof. unfold sub_block. simpl. f_equal. lia. Qed.

(** Cutting the first [i] frames off. *)
Lemma pages_cut f i t a t' a' :
  frame_wf f -> 0 < i -> i < frame_count f ->
  pages f = pages (sub_block f 0 i t a) ++ pages (sub_block f i (frame_count f - i) t' a').
Proof.
  intros Hf H1 H2. apply pages_split; rewrite ?sub_block_page; simpl; (done || lia).
Qed.

Lemma during_wf W s F A R f pend r : during W s F A R (f :: pend) r -> frame_wf f.
Proof. intros [[[Hwf _]] _]. by apply Forall_cons in Hwf as [? _]. Qed.

Lemma during_cut W s F A R pend r f i t a t' a' :
  0 < i -> i < frame_count f -> during W s F A R (f :: pend) r ->
  during W s F A R (sub_block f 0 i t a :: sub_block f i (frame_count f - i) t' a' :: pend) r.
Proof.
  intros H1 H2 Hd. pose proof (during_wf _ _ _ _ _ _ _ _ Hd) as Hwf. destruct Hd as [Hac Hr].
  split; [|done]. apply (acct_split _ _ _ _ _ f); [apply sub_block_wf; (done || lia)..| |done].
  by apply pages_cut.
Qed.

Lemma during_swap W s F A R pend r f g : during W s F A R (f :: g :: pend) r -> during W s F A R (g :: f :: pend) r.
Proof. intros [Hac Hr]. split; [|done]. eapply acct_perm; [..|done]; try done. constructor. Qed.

Lemma during_retype W s F A R pend r f g :
  frame_address g = frame_address f -> frame_count g = frame_count f ->
  during W s F A R (f :: pend) r -> during W s F A R (g :: pend) r.
Proof. intros Ha Hc [Hac Hr]. split; [|done]. by eapply acct_retype. Qed.

Lemma during_perm W s F F' A A' R R' r pend :
  F ≡ₚ F' -> A ≡ₚ A' -> R ≡ₚ R' -> during W s F A R pend r -> during W s F' A' R' pend r.
Proof. intros H1 H2 H3 [Hac Hr]. split; [|done]. by eapply acct_perm. Qed.

(** ** [fa_allocate_frame_by_count] *)

(** The parts of [f] before frame [i] and from frame [i] on, as lists that
    leave empty parts out. *)
Definition before (f : frame_t) (i : Z) (t : frame_type_t) (a : Z) : list frame_t :=
  if i =? 0 then [] else [sub_block f 0 i t a].
Definition after (f : frame_t) (i : Z) (t : frame_type_t) (a : Z) : list frame_t :=
  if frame_count f - i =? 0 then [] else [sub_block f i (frame_count f - i) t a].

(** What holds outside when a descriptor may have been allocated. *)
Definition maybe_malloc W (h : H) : Prop := W h \/ after_malloc W h.

Lemma wp_cut_begin W s F A R r item b (Q : frame_t -> state -> Prop) (E : Prop) :
  during W s F A R [item] r ->
  (match b with None => True | Some n => 0 < n < frame_count item end) ->
  (forall s' tmp, let n := default 0 b in
     tmp = sub_block item n (frame_count item - n) (frame_type item) (frame_attributes item) ->
     during (maybe_malloc W) s' (before item n FRAME_TYPE_FREE 0 ++ F) A R [tmp] r -> Q tmp s') ->
  (forall h, W h -> malloc_frame h = None -> E) -> wp (cut_begin item b) s Q E.
Proof.
  intros Hd Hb HQ HE. pose proof (during_wf _ _ _ _ _ _ _ _ Hd) as Hwf. destruct b as [n|]; simpl in *.
  - assert (frame_count item < 2 ^ 64) by (destruct Hwf; lia).
    apply wp_bind. eapply wp_malloc_or_hlt; [done| |done]. intros s1 Hd1.
    apply (during_weaken _ (maybe_malloc W)) in Hd1; [|by right].
    apply (during_cut _ _ _ _ _ _ _ _ n FRAME_TYPE_FREE 0 (frame_type item) (frame_attributes item))
      in Hd1; [|lia..].
    unfold sub_block at 1 in Hd1. rewrite Z.add_0_r in Hd1.
    apply wp_bind. eapply wp_add_free; [exact Hd1|]. intros s2 Hd2. apply wp_ret.
    rewrite sub_block_u64 by (done || lia). apply HQ; [done|].
    unfold before. destruct (Z.eqb_spec n 0); [lia|]. unfold sub_block at 1. by rewrite Z.add_0_r.
  - apply wp_ret. apply HQ; [|eapply during_weaken; [|exact Hd]; by left].
    destruct item; unfold sub_block; simpl. f_equal; lia.
Qed.

Definition alloc_rest (r : rest_t) (n : Z) : rest_t :=
  mk_rest (r_acpi r) (r_total r) (u64 (r_free r - n)) (u64 (r_allocated r + n)).

(** The frame an allocation request makes of the first [count] frames of [tmp]. *)
Definition new_frame (tmp : frame_t) (count fa_type : Z) : frame_t :=
  mk_frame (frame_address tmp) count
    (if flag_set fa_type FRAME_ALLOCATION_TYPE_RESERVED then FRAME_TYPE_RESERVED else FRAME_TYPE_USED)
    (if flag_set fa_type FRAME_ALLOCATION_TYPE_OLD_RESERVED
     then Z.lor (frame_attributes tmp) FRAME_ATTRIBUTE_OLD_RESERVED else frame_attributes tmp).

(** A block held whole, or cut into its first [i] frames and the rest. *)
Lemma during_cut_after W s F A R r f i g t a :
  during W s F A R [f] r -> 0 < i <= frame_count f ->
  frame_address g = frame_address f -> frame_count g = i ->
  during W s F A R (g :: after f i t a) r.
Proof.
  intros Hd Hi Ha Hc. unfold after. destruct (Z.eqb_spec (frame_count f - i) 0) as [E|E].
  - eapply during_retype; [done|..|done]. lia.
  - apply (during_cut _ _ _ _ _ _ _ _ i t a t a) in Hd; [|lia..].
    eapply during_retype; [..|exact Hd]; simpl; lia.
Qed.

Lemma wp_add_new_frame W s F A R r tmp count fa_type post (Q : frame_t -> state -> Prop) E :
  let f := new_frame tmp count fa_type in
  let res := flag_set fa_type FRAME_ALLOCATION_TYPE_RESERVED in
  during W s F A R (f :: post) r ->
  (forall s', during W s' F (if res then A else f :: A) (if res then f :: R else R) post r -> Q f s') ->
  wp (if res then
        add_reserved (mk_frame (frame_address tmp) count FRAME_TYPE_RESERVED (frame_attributes f)) ;;
        mret (mk_frame (frame_address tmp) count FRAME_TYPE_RESERVED (frame_attributes f))
      else
        add_allocated (mk_frame (frame_address tmp) count FRAME_TYPE_USED (frame_attributes f)) ;;
        mret (mk_frame (frame_address tmp) count FRAME_TYPE_USED (frame_attributes f))) s Q E.
Proof.
  intros f res Hd HQ. subst f res. unfold new_frame in *.
  destruct (flag_set fa_type FRAME_ALLOCATION_TYPE_RESERVED); simpl in *; apply wp_bind.
  - eapply wp_add_reserved; [done|]. intros s' Hd'. by apply wp_ret, HQ.
  - eapply wp_add_allocated; [done|]. intros s' Hd'. by apply wp_ret, HQ.
Qed.

(** The rest of a block goes back to the free ones. *)
Lemma wp_add_after W s F A R r f i t a (Q : unit -> state -> Prop) (E : Prop) :
  frame_wf f -> 0 < i <= frame_count f ->
  during W s F A R (after f i t a) r ->
  (forall s', during (maybe_malloc W) s' (after f i t a ++ F) A R [] r -> Q tt s') ->
  (forall h, W h -> malloc_frame h = None -> E) ->
  wp (if u64 (frame_count f - i) =? 0 then mret tt else
        malloc_or_hlt ;;
        add_free (mk_frame (u64 (frame_address f + i * FRAME_SIZE)) (u64 (frame_count f - i)) t a))
     s Q E.
Proof.
  intros Hwf Hi Hd HQ HE. unfold after in *.
  assert (u64 (frame_count f - i) = frame_count f - i) as Eu
    by (destruct Hwf; unfold u64; apply Z.mod_small; lia).
  rewrite Eu. destruct (Z.eqb_spec (frame_count f - i) 0) as [E0|E0];
    [apply wp_ret, HQ; eapply during_weaken; [|exact Hd]; by left|].
  apply wp_bind. eapply wp_malloc_or_hlt; [done| |done]. intros s1 Hd1.
  apply (during_weaken _ (maybe_malloc W)) in Hd1; [|by right].
  rewrite <- Eu at 1. rewrite sub_block_u64 by (done || lia).
  eapply wp_add_free; [done|]. done.
Qed.

(** What an allocation of [count] frames does: [item] is the first free block
    that fits; its first [default 0 b] frames and what follows the [count]
    frames stay free. *)
Definition allocates s A R r (count fa_type : Z) (f : frame_t) s' : Prop :=
  exists item b l1 l2,
    free_frames_sorted_by_size s = l1 ++ item :: l2 /\
    fits count fa_type item = Some b /\
    Forall (fun g => fits count fa_type g = None) l1 /\
    let n := default 0 b in
    let tmp := sub_block item n (frame_count item - n) (frame_type item) (frame_attributes item) in
    let res := flag_set fa_type FRAME_ALLOCATION_TYPE_RESERVED in
    f = new_frame tmp count fa_type /\
    during (fun _ => True) s' (after tmp count FRAME_TYPE_FREE (frame_attributes item) ++
               before item n FRAME_TYPE_FREE 0 ++ l1 ++ l2)
      (if res then A else f :: A) (if res then f :: R else R) [] (alloc_rest r count).

(** One of the descriptors an allocation needs is refused: that of the begin of
    the block (while the iterator exists), that of the new block, or that of the
    rest. *)
Definition descriptor_refused (h : H) : Prop :=
  exists h1, iterator_create h = Some h1 /\
    (malloc_frame h1 = None \/
     exists h2, (h2 = h1 \/ malloc_frame h1 = Some h2) /\
       (malloc_frame (iterator_destroy h2) = None \/
        exists h3, malloc_frame (iterator_destroy h2) = Some h3 /\ malloc_frame h3 = None)).

(** The state after the search; the search has found nothing. *)
Definition nothing_found s (count fa_type : Z) s' : Prop :=
  s' = s /\ iterator_create (heap s) = None \/
  (exists h, s' = set_heap h s) /\ Forall (fun g => fits count fa_type g = None) (free_frames_sorted_by_size s).

Lemma allocate_by_count_spec W s F A R r count fa_type :
  during W s F A R [] r -> 0 < count ->
  flag_set fa_type FRAME_ALLOCATION_TYPE_RELAX = false ->
  flag_set fa_type FRAME_ALLOCATION_TYPE_BLOCK = true ->
  wp (fa_allocate_frame_by_count count fa_type) s (fun o s' =>
    match o with
    | None => nothing_found s count fa_type s'
    | Some f => allocates s A R r count fa_type f s'
    end) (descriptor_refused (heap s)).
Proof.
  intros Hd0 Hc HR HB. unfold fa_allocate_frame_by_count. rewrite HR, HB.
  apply wp_bind. unfold create_iterator. apply wp_bind, wp_get.
  destruct (iterator_create (heap s)) as [h1|] eqn:Ei; [|by apply wp_ret, wp_ret; left].
  apply wp_bind, wp_put, wp_ret. cbn [negb].
  assert (during (eq h1) (set_heap h1 s) F A R [] r) as Hd
    by (eapply during_same; [..|exact Hd0]; [done|apply Hd0|done]).
  apply wp_bind, wp_get. cbn [free_frames_sorted_by_size set_heap].
  destruct (find_block count fa_type (free_frames_sorted_by_size s)) as [[[item b] l]|] eqn:Hfb.
  2: { apply wp_bind, wp_bind, wp_get, wp_put, wp_ret. right. split; [by exists (iterator_destroy h1)|by apply find_block_none]. }
  apply find_block_some in Hfb as (l1 & l2 & El & -> & Hfit & Hskip).
  assert (during (eq h1) (set_free (index_delete (free_frames_by_address s) item)
            (set_free_list (l1 ++ l2) (set_heap h1 s))) (l1 ++ l2) A R [item] r) as Hd1.
  { apply (during_take_free _ (set_heap h1 s) F); [done|cbn; rewrite El; by rewrite Permutation_middle|].
    eapply sorted_remove. rewrite <- El. apply Hd0. }
  pose proof (during_wf _ _ _ _ _ _ _ _ Hd1) as Hwf.
  destruct (fits_some _ _ _ _ Hwf Hc Hfit) as [Hle Hb].
  do 2 apply wp_bind, wp_bind, wp_get, wp_put. apply wp_bind. eapply wp_cut_begin; [exact Hd1| | |].
  { destruct b; [|done]. lia. }
  2: { intros h <- Hm. exists h1. auto. }
  intros s2 tmp n Htmp Hd2. set (F2 := before item n FRAME_TYPE_FREE 0 ++ l1 ++ l2) in *.
  assert (0 < count <= frame_count tmp) as Hct by (subst tmp n; destruct b; simpl; lia).
  pose proof (during_wf _ _ _ _ _ _ _ _ Hd2) as Hwf2.
  set (W2 := fun h => h = h1 \/ malloc_frame h1 = Some h).
  assert (forall h, maybe_malloc (eq h1) h -> W2 h) as HW2 by (intros h [<-|(? & <- & ?)]; [by left|by right]).
  apply wp_bind. eapply wp_destroy_iterator; [exact Hd2|]. intros s2' Hd2'.
  apply wp_bind. eapply wp_malloc_or_hlt; [exact Hd2'| |].
  2: { intros h (h2 & Hh2%HW2 & ->) Hm. exists h1. split; [done|]. right. exists h2. auto. }
  intros s3 Hd3.
  apply wp_bind. eapply wp_count_allocated; [exact Hd3|]. intros s4 Hd4. fold (alloc_rest r count) in Hd4.
  apply (during_cut_after _ _ _ _ _ _ tmp count (new_frame tmp count fa_type) FRAME_TYPE_FREE
    (frame_attributes item)) in Hd4; [|done..].
  apply wp_bind. apply (wp_add_new_frame _ s4 F2 A R (alloc_rest r count) tmp count fa_type _ _ _ Hd4).
  intros s5 Hd5. apply wp_bind.
  replace (frame_attributes tmp) with (frame_attributes item) by (by subst tmp).
  eapply wp_add_after; [done|done|exact Hd5| |].
  2: { intros h (h2 & (h2' & Hh2%HW2 & ->) & Hm2) Hm. exists h1. split; [done|]. right. exists h2'. eauto. }
  intros s6 Hd6. apply (during_weaken _ (fun _ => True)) in Hd6; [|done].
  apply wp_bind. eapply wp_free_descriptor; [apply kept_true|exact Hd6|]. intros s7 Hd7. apply wp_ret.
  exists item, b, l1, l2. do 3 (split; [done|]).
  cbv zeta. fold n. rewrite <- Htmp. done.
Qed.

(** ** Taking a given block out of a larger one *)

(** [f] lies inside [frm]. *)
Definition inside (f frm : frame_t) : Prop :=
  page_of frm <= page_of f /\ page_of f + frame_count f <= page_of frm + frame_count frm.

Definition offset (f frm : frame_t) : Z := page_of f - page_of frm.

Lemma items_unique l f g p :
  items_ok l -> f ∈ l -> g ∈ l -> p ∈ pages f -> p ∈ pages g -> f = g.
Proof.
  intros Hok Hf Hg Hp Hq. apply elem_of_Permutation in Hf as [k Hk].
  rewrite Hk in Hok, Hg. apply elem_of_cons in Hg as [->|Hg]; [done|].
  destruct Hok as [_ Hnd]. rewrite layout_cons in Hnd. apply NoDup_app in Hnd as (_ & Hd & _).
  destruct (Hd p Hp). apply list_elem_of_bind. eauto.
Qed.

(** A search for a block inside [frm] finds [frm]. *)
Lemma find_inside (i : I) f frm :
  items_ok (index_items i) -> frame_wf f -> frm ∈ index_items i -> inside f frm ->
  index_find i f = Some frm.
Proof.
  intros Hok Hf Hin [H1 H2]. pose proof (fw_count f Hf) as Hc.
  assert (Forall frame_wf (index_items i)) as Hwf by apply Hok.
  assert (frame_wf frm) as Hfrm by (by eapply Forall_forall in Hwf).
  destruct (index_find i f) as [g|] eqn:Hfind.
  - destruct (find_some i f g Hok Hf Hfind) as [Hg Hcmp]. f_equal.
    assert (frame_wf g) as Hgw by (by eapply Forall_forall in Hwf).
    apply cmp_overlap in Hcmp as (p & Hp1 & Hp2); [|done..].
    eapply (items_unique _ g frm p); eauto. rewrite elem_of_pages in *. lia.
  - exfalso. apply (find_none i f Hok Hf Hfind frm Hin), cmp_overlap; [done..|].
    exists (page_of f). rewrite !elem_of_pages. lia.
Qed.

Lemma sortedlist_delete_in l f :
  items_ok l -> f ∈ l -> exists l1 l2, l = l1 ++ f :: l2 /\ sortedlist_delete l f = l1 ++ l2.
Proof.
  induction l as [|g l IH]; intros Hok Hin; [by apply elem_of_nil in Hin|]. simpl.
  assert (frame_wf f) as Hf by (destruct Hok as [Hwf _]; by eapply Forall_forall in Hwf).
  destruct (Z.eqb_spec (frame_allocator_cmp_by_address g f) 0) as [E|E].
  - apply cmp_overlap in E as (p & Hp & Hq); [|by destruct Hok as [[? _]%Forall_cons _]|done].
    rewrite (items_unique (g :: l) g f p); auto; [|left]. by exists [], l.
  - apply elem_of_cons in Hin as [->|Hin].
    + destruct E. apply cmp_overlap; [done..|]. exists (page_of g). rewrite elem_of_pages.
      pose proof (fw_count g Hf). lia.
    + destruct IH as (l1 & l2 & -> & ->); [by apply (items_ok_app_r [g])|done|].
      by exists (g :: l1), l2.
Qed.

(** A block held is cut into the part before [f], [f] and the part after. *)
Lemma during_cut_inside W s F A R r frm f g t a t' a' :
  during W s F A R [frm] r -> frame_wf f -> inside f frm ->
  frame_address g = frame_address f -> frame_count g = frame_count f ->
  during W s F A R (before frm (offset f frm) t a ++
    after frm (offset f frm + frame_count f) t' a' ++ [g]) r.
Proof.
  intros Hd Hf [H1 H2] Ha Hc. pose proof (during_wf _ _ _ _ _ _ _ _ Hd) as Hfrm.
  pose proof (page_of_addr f Hf). pose proof (page_of_addr frm Hfrm). pose proof (fw_count f Hf).
  unfold before, after, offset in *. set (i := page_of f - page_of frm) in *.
  assert (during W s F A R (g :: (if frame_count frm - (i + frame_count f) =? 0 then []
            else [sub_block frm (i + frame_count f) (frame_count frm - (i + frame_count f)) t' a'])
            ++ if i =? 0 then [] else [sub_block frm 0 i t a]) r) as Hall.
  { destruct (Z.eqb_spec i 0) as [Ei|Ei].
    - rewrite app_nil_r, Ei, Z.add_0_l. apply (during_cut_after _ _ _ _ _ _ frm); auto; lia.
    - apply (during_cut _ _ _ _ _ _ _ _ i t a t' a'), during_swap in Hd; [|lia..].
      destruct (Z.eqb_spec (frame_count frm - (i + frame_count f)) 0) as [E|E]; simpl.
      + eapply during_retype; [..|exact Hd]; simpl; lia.
      + apply (during_cut _ _ _ _ _ _ _ _ (frame_count f) t a t' a') in Hd; [|simpl; lia..].
        rewrite !(sub_block_sub frm i) in Hd. cbn [frame_count sub_block] in Hd.
        rewrite <- Z.sub_add_distr in Hd.
        eapply during_retype; [..|exact Hd]; simpl; lia. }
  destruct Hall as [Hac Hr]. split; [|done]. eapply acct_perm; [..|exact Hac]; try done.
  solve_Permutation.
Qed.

(** [malloc] or return -1. *)
Lemma wp_malloc_or_fail W s F A R pend r (k : cmd state Z) (Q : Z -> state -> Prop) E :
  Kept W -> during W s F A R pend r -> (malloc_frame (heap s) = None -> Q (-1) s) ->
  (forall s', during W s' F A R pend r -> wp k s' Q E) -> wp (malloc_or_fail k) s Q E.
Proof.
  intros HK Hd Hf Hk. apply wp_bind. eapply wp_malloc; [done|done|by apply Hk|].
  intros Ho. by apply wp_ret, Hf.
Qed.

(** The arithmetic of the part before and the part after. *)
Lemma inside_arith f frm :
  frame_wf f -> frame_wf frm -> inside f frm ->
  (frame_address frm <? frame_address f) = negb (offset f frm =? 0) /\
  (frame_address f - frame_address frm) / FRAME_SIZE = offset f frm /\
  0 <= offset f frm /\ offset f frm + frame_count f <= frame_count frm /\
  0 < frame_count f /\ frame_count frm < 2 ^ 64.
Proof.
  intros Hf Hfrm [H1 H2]. pose proof (page_of_addr f Hf) as Ef. pose proof (page_of_addr frm Hfrm) as Eg.
  unfold offset. rewrite Ef, Eg. destruct Hf, Hfrm. split_and!; try lia.
  rewrite <- Z.mul_sub_distr_r. by apply Z.div_mul.
Qed.

(** ** [fa_allocate_frame] *)

Definition claimed (f frm : frame_t) : frame_t :=
  mk_frame (frame_address f) (frame_count f)
    (if decide (frame_type f = FRAME_TYPE_FREE) then FRAME_TYPE_USED else frame_type f)
    (if frame_attributes f =? 0 then frame_attributes frm else frame_attributes f).

Definition is_used (f : frame_t) : bool := bool_decide (frame_type f = FRAME_TYPE_USED).

(** The last step of the operation. *)
Lemma wp_claim W s F A R r f frm (Q : Z -> state -> Prop) E :
  Kept W -> during W s F A R [claimed f frm] r -> (malloc_frame (heap s) = None -> Q (-1) s) ->
  (forall s', let g := claimed f frm in
     during W s' F (if is_used g then g :: A else A) (if is_used g then R else g :: R) []
       (alloc_rest r (frame_count f)) -> Q 0 s') ->
  wp (allocate_last f frm) s Q E.
Proof.
  unfold allocate_last. fold (claimed f frm). cbv zeta. intros HK Hd Ho HQ. eapply wp_malloc_or_fail; [done|done|done|]. intros s1 Hd1.
  apply wp_bind. eapply wp_count_allocated; [done|]. intros s2 Hd2.
  apply wp_bind. unfold is_used in HQ.
  destruct (decide (frame_type (claimed f frm) = FRAME_TYPE_USED)).
  - eapply wp_add_allocated; [done|]. intros s3 Hd3. apply wp_bind. eapply wp_free_descriptor; [done|exact Hd3|].
    intros s4 Hd4. apply wp_ret, HQ. by rewrite bool_decide_true.
  - eapply wp_add_reserved; [done|]. intros s3 Hd3. apply wp_bind. eapply wp_free_descriptor; [done|exact Hd3|].
    intros s4 Hd4. apply wp_ret, HQ. by rewrite bool_decide_false.
Qed.

(** The addresses of the parts of [frm] around [f]. *)
Lemma before_eq f frm n t a :
  n = offset f frm -> mk_frame (frame_address frm) n t a = sub_block frm 0 (offset f frm) t a.
Proof. intros ->. unfold sub_block. f_equal. lia. Qed.

Lemma after_eq f frm n t a :
  frame_wf f -> frame_wf frm -> inside f frm ->
  n = frame_count frm - (offset f frm + frame_count f) -> n <> 0 ->
  mk_frame (u64 (frame_address f + frame_count f * FRAME_SIZE)) n t a =
  sub_block frm (offset f frm + frame_count f) (frame_count frm - (offset f frm + frame_count f)) t a.
Proof.
  intros Hf Hfrm Hin -> Hn. destruct (inside_arith f frm Hf Hfrm Hin) as (_ & _ & ? & ? & ? & ?).
  pose proof (page_of_addr f Hf). pose proof (page_of_addr frm Hfrm).
  unfold sub_block, offset, FRAME_SIZE, u64 in *. f_equal.
  destruct Hf, Hfrm. rewrite Z.mod_small; lia.
Qed.

Lemma wp_allocate_after W s F A R r f frm rem (Q : Z -> state -> Prop) E :
  let aft := after frm (offset f frm + frame_count f) FRAME_TYPE_FREE (frame_attributes frm) in
  frame_wf f -> frame_wf frm -> inside f frm -> rem = frame_count frm - offset f frm ->
  Kept W -> during W s F A R (aft ++ [claimed f frm]) r -> (forall s', malloc_frame (heap s') = None -> Q (-1) s') ->
  (forall s', let g := claimed f frm in
     during W s' (aft ++ F) (if is_used g then g :: A else A) (if is_used g then R else g :: R) []
       (alloc_rest r (frame_count f)) -> Q 0 s') ->
  wp (allocate_after f frm rem) s Q E.
Proof.
  intros aft Hf Hfrm Hin -> HK Hd Ho HQ. unfold allocate_after.
  destruct (inside_arith f frm Hf Hfrm Hin) as (_ & _ & ? & ? & ? & ?).
  assert (u64 (frame_count frm - offset f frm - frame_count f) =
          frame_count frm - (offset f frm + frame_count f)) as ->
    by (unfold u64; rewrite Z.mod_small; lia).
  unfold after in aft. subst aft.
  destruct (Z.eqb_spec (frame_count frm - (offset f frm + frame_count f)) 0).
  - eapply wp_claim; [done|done|auto..].
  - eapply wp_malloc_or_fail; [done|done|auto|]. intros s1 Hd1. apply wp_bind.
    rewrite (after_eq f frm) by (done || lia). eapply wp_add_free; [done|]. intros s2 Hd2.
    eapply wp_claim; [done|exact Hd2|auto..].
Qed.

Lemma allocate_frame_spec W s F F' A R r f frm :
  Kept W -> during W s F A R [] r -> frame_wf f -> F ≡ₚ frm :: F' -> inside f frm ->
  wp (fa_allocate_frame f) s (fun res s' =>
    let g := claimed f frm in
    (res = 0 /\
     during W s' (after frm (offset f frm + frame_count f) FRAME_TYPE_FREE (frame_attributes frm) ++
                before frm (offset f frm) FRAME_TYPE_FREE (frame_attributes frm) ++ F')
       (if is_used g then g :: A else A) (if is_used g then R else g :: R) []
       (alloc_rest r (frame_count f))) \/
    (res = -1 /\ malloc_frame (heap s') = None)) False.
Proof.
  intros HK Hd Hf HF Hin. unfold fa_allocate_frame. apply wp_bind, wp_get.
  pose proof Hd as [[Hok Hfi _ _ Hli Hso] _]. simpl in Hok. apply items_ok_app_l in Hok.
  rewrite (find_inside _ f frm); [|by rewrite Hfi|done|by rewrite Hfi, HF; left|done].
  destruct (sortedlist_delete_in (free_frames_sorted_by_size s) frm) as (l1 & l2 & El & Edel);
    [by rewrite Hli|by rewrite Hli, HF; left|].
  assert (during W (set_free (index_delete (free_frames_by_address s) frm)
            (set_free_list (l1 ++ l2) s)) (l1 ++ l2) A R [frm] r) as Hd1.
  { apply (during_take_free _ s F); [done|rewrite El; by rewrite Permutation_middle|].
    eapply sorted_remove. by rewrite <- El. }
  assert (l1 ++ l2 ≡ₚ F') as HF'.
  { apply (Permutation_cons_inv (a := frm)). rewrite <- HF, <- Hli, El. by rewrite Permutation_middle. }
  do 2 apply wp_bind, wp_bind, wp_get, wp_put. cbn [free_frames_sorted_by_size set_free_list
    free_frames_by_address]. rewrite Edel.
  pose proof (during_wf _ _ _ _ _ _ _ _ Hd1) as Hfrm.
  destruct (inside_arith f frm Hf Hfrm Hin) as (-> & -> & Hi1 & Hi2 & Hi3 & Hi4).
  set (i := offset f frm) in *.
  apply (during_cut_inside _ _ _ _ _ _ frm f (claimed f frm) FRAME_TYPE_FREE (frame_attributes frm)
    FRAME_TYPE_FREE (frame_attributes frm)) in Hd1; [|done..]. fold i in Hd1.
  unfold before in Hd1. destruct (Z.eqb_spec i 0) as [Ei|Ei]; simpl.
  - eapply wp_allocate_after; [done..|fold i; lia|done|exact Hd1|auto|].
    intros s2 g Hd2. left. split; [done|]. unfold before. fold i.
    destruct (Z.eqb_spec i 0); [|done]. eapply during_perm; [..|exact Hd2]; [|done..].
    by rewrite HF'.
  - eapply wp_malloc_or_fail; [done|done|auto|]. intros s2 Hd2. apply wp_bind.
    rewrite (before_eq f frm) by done. eapply wp_add_free; [exact Hd2|]. intros s3 Hd3.
    eapply wp_allocate_after; [done..| |done|exact Hd3|auto|].
    { unfold u64. rewrite Z.mod_small by lia. done. }
    intros s4 g Hd4. left. split; [done|]. unfold before. fold i.
    destruct (Z.eqb_spec i 0); [done|].
    eapply during_perm; [..|exact Hd4]; [|done..]. by rewrite HF'.
Qed.

(** ** [fa_release_frame] *)

Definition free_rest (r : rest_t) (f : frame_t) : rest_t :=
  mk_rest (r_acpi r) (r_total r) (u64 (r_free r + frame_count f))
    (u64 (r_allocated r - frame_count f)).

Definition freed (f tmp : frame_t) : frame_t :=
  mk_frame (frame_address f) (frame_count f) FRAME_TYPE_FREE (frame_attributes tmp).

Lemma wp_release_last z s F A R r f tmp (Q : Z -> state -> Prop) E :
  during (cleaned_frames z) s F A R [freed f tmp] r -> Forall data_frame (frame_addresses f) ->
  (malloc_frame (heap s) = None -> Q (-1) s) ->
  (forall s', during (cleaned_frames (frame_addresses f ++ z)) s' (freed f tmp :: F) A R [] (free_rest r f) -> Q 0 s') ->
  wp (release_last tmp f) s Q E.
Proof.
  intros Hd Hdf Ho HQ. eapply wp_malloc_or_fail; [apply kept_cleaned|done|done|]. intros s1 Hd1.
  apply wp_bind. eapply wp_count_freed; [done|]. intros s2 Hd2.
  apply wp_bind. eapply wp_clean_frames; [exact Hd2|done|]. intros s3 Hd3.
  apply wp_bind. eapply wp_add_free; [exact Hd3|]. intros s4 Hd4.
  apply wp_bind. eapply wp_free_descriptor; [apply kept_cleaned|exact Hd4|]. intros s5 Hd5. by apply wp_ret, HQ.
Qed.

(** Both indexes at once: [add] inserts into the collection [sel] selects. *)
Section Release.
Context (delete add : frame_t -> cmd state unit).
Context (put : list frame_t -> list frame_t * list frame_t).
Hypothesis Hdelete : forall W s F l f r (Q : unit -> state -> Prop) E,
  during W s F (put (f :: l)).1 (put (f :: l)).2 [] r ->
  (forall s', during W s' F (put l).1 (put l).2 [f] r -> Q tt s') -> wp (delete f) s Q E.
Hypothesis Hadd : forall W s F l pend f r (Q : unit -> state -> Prop) E,
  during W s F (put l).1 (put l).2 (f :: pend) r ->
  (forall s', during W s' F (put (f :: l)).1 (put (f :: l)).2 pend r -> Q tt s') -> wp (add f) s Q E.

Lemma wp_release_after z s F l r f tmp rem (Q : Z -> state -> Prop) E :
  let aft := after tmp (offset f tmp + frame_count f) FRAME_TYPE_USED (frame_attributes tmp) in
  frame_wf f -> frame_wf tmp -> inside f tmp -> Forall data_frame (frame_addresses f) ->
  rem = frame_count tmp - (offset f tmp + frame_count f) ->
  during (cleaned_frames z) s F (put l).1 (put l).2 (aft ++ [freed f tmp]) r -> (forall s', malloc_frame (heap s') = None -> Q (-1) s') ->
  (forall s', during (cleaned_frames (frame_addresses f ++ z)) s' (freed f tmp :: F) (put (aft ++ l)).1 (put (aft ++ l)).2 []
       (free_rest r f) -> Q 0 s') ->
  wp (release_after add tmp f rem) s Q E.
Proof.
  intros aft Hf Htmp Hin Hdf -> Hd Ho HQ. unfold release_after, after in *.
  destruct (Z.eqb_spec (frame_count tmp - (offset f tmp + frame_count f)) 0).
  - eapply wp_release_last; [exact Hd|done|auto..].
  - eapply wp_malloc_or_fail; [apply kept_cleaned|done|auto|]. intros s1 Hd1. apply wp_bind.
    rewrite (after_eq f tmp) by (done || lia). eapply Hadd; [exact Hd1|]. intros s2 Hd2.
    eapply wp_release_last; [exact Hd2|done|auto..].
Qed.

Lemma wp_release_from z s F l r f tmp (Q : Z -> state -> Prop) E :
  let aft := after tmp (offset f tmp + frame_count f) FRAME_TYPE_USED (frame_attributes tmp) in
  let bef := before tmp (offset f tmp) FRAME_TYPE_USED (frame_attributes tmp) in
  frame_wf f -> inside f tmp -> Forall data_frame (frame_addresses f) ->
  during (cleaned_frames z) s F (put (tmp :: l)).1 (put (tmp :: l)).2 [] r -> (forall s', malloc_frame (heap s') = None -> Q (-1) s') ->
  (forall s', during (cleaned_frames (frame_addresses f ++ z)) s' (freed f tmp :: F) (put (aft ++ bef ++ l)).1 (put (aft ++ bef ++ l)).2 []
       (free_rest r f) -> Q 0 s') ->
  wp (release_from delete add tmp f) s Q E.
Proof.
  intros aft bef Hf Hin Hdf Hd Ho HQ. unfold release_from. apply wp_bind. eapply Hdelete; [done|].
  intros s1 Hd1. pose proof (during_wf _ _ _ _ _ _ _ _ Hd1) as Htmp.
  destruct (inside_arith f tmp Hf Htmp Hin) as (-> & -> & Hi1 & Hi2 & Hi3 & Hi4).
  apply (during_cut_inside _ _ _ _ _ _ tmp f (freed f tmp) FRAME_TYPE_USED (frame_attributes tmp)
    FRAME_TYPE_USED (frame_attributes tmp)) in Hd1; [|done..]. fold aft bef in Hd1.
  assert (u64 (frame_count tmp - frame_count f) = frame_count tmp - frame_count f) as ->
    by (unfold u64; apply Z.mod_small; lia).
  unfold before in bef. destruct (Z.eqb_spec (offset f tmp) 0) as [Ei|Ei]; cbn [negb].
  - eapply wp_release_after; [done..|lia|exact Hd1|auto|]. intros s2 Hd2. by apply HQ.
  - eapply wp_malloc_or_fail; [apply kept_cleaned|done|auto|]. intros s2 Hd2. apply wp_bind.
    rewrite (before_eq f tmp) by done. eapply Hadd; [exact Hd2|]. intros s3 Hd3.
    eapply wp_release_after; [done..| |exact Hd3|auto|].
    { unfold u64. rewrite Z.mod_small by lia. lia. }
    intros s4 Hd4. by apply HQ.
Qed.
End Release.

Definition release_post z (F A R : list frame_t) r f tmp (res : Z) s' : Prop :=
  (res = 0 /\ during (cleaned_frames (frame_addresses f ++ z)) s' (freed f tmp :: F) A R [] (free_rest r f)) \/
  (res = -1 /\ malloc_frame (heap s') = None).

Lemma release_allocated_spec z s F A A' R r f tmp :
  during (cleaned_frames z) s F A R [] r -> frame_wf f -> A ≡ₚ tmp :: A' -> inside f tmp -> Forall data_frame (frame_addresses f) ->
  wp (fa_release_frame f) s (release_post z F
    (after tmp (offset f tmp + frame_count f) FRAME_TYPE_USED (frame_attributes tmp) ++
     before tmp (offset f tmp) FRAME_TYPE_USED (frame_attributes tmp) ++ A') R r f tmp) False.
Proof.
  intros Hd Hf HA Hin Hdf. unfold fa_release_frame. apply wp_bind, wp_get.
  pose proof Hd as [Hac _]. destruct (acct_all _ _ _ _ _ Hac) as (_ & HokA & _ & _).
  rewrite (find_inside _ f tmp);
    [|by rewrite (acct_allocated _ _ _ _ _ Hac)|done|by rewrite (acct_allocated _ _ _ _ _ Hac), HA; left|done].
  eapply (wp_release_from _ _ (fun l => (l, R))); try done.
  - intros W0 s0 F0 l g r0 Q E. apply wp_delete_allocated.
  - intros W0 s0 F0 l pend g r0 Q E. apply wp_add_allocated.
  - by apply (during_perm _ s F F A (tmp :: A') R R).
  - intros s' Ho. by right.
  - intros s' Hd'. by left.
Qed.

(** A block that lies in one collection overlaps nothing of the others. *)
Lemma find_elsewhere (i : I) f tmp l :
  items_ok (tmp :: l ++ index_items i) -> frame_wf f -> inside f tmp -> index_find i f = None.
Proof.
  intros Hok Hf Hin. destruct (index_find i f) as [g|] eqn:Hfind; [|done]. exfalso.
  assert (items_ok (index_items i)) as Hoki by (by apply (items_ok_app_r (tmp :: l))).
  destruct (find_some i f g) as [Hg Hcmp]; [done..|].
  assert (frame_wf g) as Hgw by (destruct Hoki as [Hwf _]; by eapply Forall_forall in Hwf).
  apply cmp_overlap in Hcmp as (p & Hp1 & Hp2); [|done..].
  apply (items_ok_disjoint tmp (l ++ index_items i) g); [done|by apply elem_of_app; right|].
  apply cmp_overlap; [done|by destruct Hok as [[? _]%Forall_cons _]|].
  exists p. split; [done|]. destruct Hin. rewrite elem_of_pages in *. lia.
Qed.

Lemma release_reserved_spec z s F A R R' r f tmp :
  during (cleaned_frames z) s F A R [] r -> frame_wf f -> R ≡ₚ tmp :: R' -> inside f tmp -> Forall data_frame (frame_addresses f) ->
  wp (fa_release_frame f) s (release_post z F A
    (after tmp (offset f tmp + frame_count f) FRAME_TYPE_USED (frame_attributes tmp) ++
     before tmp (offset f tmp) FRAME_TYPE_USED (frame_attributes tmp) ++ R') r f tmp) False.
Proof.
  intros Hd Hf HR Hin Hdf. unfold fa_release_frame. apply wp_bind, wp_get.
  pose proof Hd as [Hac _]. destruct (acct_all _ _ _ _ _ Hac) as (_ & _ & HokR & _).
  rewrite (find_elsewhere (allocated_frames_by_address s) f tmp (R' ++ F)); [|  |done..].
  2: { rewrite (acct_allocated _ _ _ _ _ Hac). eapply items_ok_sub; [|apply (acct_ok _ _ _ _ _ Hac)].
       rewrite HR. solve_submseteq. }
  rewrite (find_inside _ f tmp);
    [|by rewrite (acct_reserved _ _ _ _ _ Hac)|done|by rewrite (acct_reserved _ _ _ _ _ Hac), HR; left|done].
  eapply (wp_release_from _ _ (fun l => (A, l))); try done.
  - intros W0 s0 F0 l g r0 Q E. apply wp_delete_reserved.
  - intros W0 s0 F0 l pend g r0 Q E. apply wp_add_reserved.
  - by apply (during_perm _ s F F A A R (tmp :: R')).
  - intros s' Ho. by right.
  - intros s' Hd'. by left.
Qed.

(** Releasing what is neither allocated nor reserved does nothing. *)
Lemma release_unknown W s F A R r f :
  during W s F A R [] r -> frame_wf f ->
  (forall g, g ∈ A ++ R -> frame_allocator_cmp_by_address g f <> 0) ->
  fa_release_frame f s = Done (0, s).
Proof.
  intros [Hac _] Hf Hno. destruct (acct_all _ _ _ _ _ Hac) as (_ & HokA & HokR & _).
  assert (forall (i : I) L, index_items i ≡ₚ L -> items_ok L ->
    (forall g, g ∈ L -> frame_allocator_cmp_by_address g f <> 0) -> index_find i f = None) as Hnone.
  { intros i L HL HokL HnoL. destruct (index_find i f) as [g|] eqn:E; [|done].
    destruct (find_some i f g) as [Hg Hc]; [by rewrite HL|done|done|].
    rewrite HL in Hg. by destruct (HnoL g). }
  unfold fa_release_frame. rewrite (cmd_bind_done get_state _ s s s) by done.
  rewrite (Hnone _ A), (Hnone _ R); try done; [apply Hac| |apply Hac|];
    intros g Hg; apply Hno, elem_of_app; auto.
Qed.

(** ** Bulk release *)

Lemma split_filter (sel : frame_t -> bool) l :
  l ≡ₚ filter (fun f => sel f = true) l ++ filter (fun f => sel f = false) l.
Proof.
  induction l as [|f l IH]; [done|]. rewrite !filter_cons.
  destruct (sel f) eqn:E; repeat case_decide; try congruence.
  - simpl. by rewrite <- IH.
  - rewrite <- Permutation_middle. by rewrite <- IH.
Qed.

Lemma select_perm sel (i : I) : select sel i ≡ₚ filter (fun f => sel f = true) (index_items i).
Proof.
  unfold select. set (g := fun l f => if sel f then sortedlist_insert l f else l).
  enough (forall l acc, foldl g acc l ≡ₚ acc ++ filter (fun f => sel f = true) l) as ->; [done|].
  induction l as [|f l IH]; intros acc; [by rewrite app_nil_r|]. cbn [foldl]. rewrite IH.
  unfold g. rewrite filter_cons. destruct (sel f) eqn:E; case_decide; try congruence; [|done].
  rewrite sortedlist_insert_perm. simpl. apply Permutation_middle.
Qed.

(** A block that lost the attribute [attr] and became free. *)
Definition cleared (attr : Z) (f : frame_t) : frame_t :=
  mk_frame (frame_address f) (frame_count f) FRAME_TYPE_FREE
    (Z.land (frame_attributes f) (Z.lnot attr)).

Section Bulk.
Context (delete : frame_t -> cmd state unit).
Context (put : list frame_t -> list frame_t * list frame_t).
Hypothesis Hdelete : forall W s F l f r (Q : unit -> state -> Prop) E,
  during W s F (put (f :: l)).1 (put (f :: l)).2 [] r ->
  (forall s', during W s' F (put l).1 (put l).2 [f] r -> Q tt s') -> wp (delete f) s Q E.

(** The frames that are clean after the blocks [L] were cleaned. *)
Definition bulk_clean (z : list Z) (L : list frame_t) : list Z := foldl (fun z f => frame_addresses f ++ z) z L.

Lemma wp_release_selected attr L : forall z s F l r (Q : unit -> state -> Prop) E,
  during (cleaned_frames z) s F (put (L ++ l)).1 (put (L ++ l)).2 [] r ->
  Forall (fun f => Forall data_frame (frame_addresses f)) L ->
  (forall s', during (cleaned_frames (bulk_clean z L)) s' (rev (map (cleared attr) L) ++ F) (put l).1 (put l).2 []
     (foldl free_rest r L) -> Q tt s') ->
  wp (release_selected delete attr L) s Q E.
Proof.
  induction L as [|f L IH]; intros z s F l r Q E Hd Hdf HQ; [by apply wp_ret, HQ|]. apply Forall_cons in Hdf as [Hf Hdf].
  simpl in Hd. unfold release_selected. cbn [foldr]. fold (release_selected delete attr L).
  apply wp_bind. eapply Hdelete; [exact Hd|]. intros s1 Hd1.
  apply wp_bind. eapply wp_clean_frames; [exact Hd1|done|]. intros s2 Hd2.
  apply wp_bind. eapply wp_count_freed; [done|]. intros s3 Hd3.
  apply (during_retype _ _ _ _ _ _ _ f (cleared attr f)) in Hd3; [|done..].
  apply wp_bind. eapply wp_add_free; [exact Hd3|]. intros s4 Hd4.
  eapply IH; [exact Hd4|done|]. intros s5 Hd5. apply HQ. simpl. rewrite <- app_assoc. exact Hd5.
Qed.
End Bulk.

(** One pass over the reserved or the allocated blocks. *)
Lemma wp_release_reserved z sel attr s F A R r (Q : unit -> state -> Prop) E :
  during (cleaned_frames z) s F A R [] r ->
  (forall f, f ∈ R -> sel f = true -> Forall data_frame (frame_addresses f)) ->
  (forall s' F' L, L ≡ₚ filter (fun f => sel f = true) R -> F' ≡ₚ map (cleared attr) L ++ F ->
     during (cleaned_frames (bulk_clean z L)) s' F' A (filter (fun f => sel f = false) R) [] (foldl free_rest r L) -> Q tt s') ->
  wp (release_selected delete_reserved attr (select sel (reserved_frames_by_address s))) s Q E.
Proof.
  intros Hd Hdf HQ. pose proof (acct_reserved _ _ _ _ _ (proj1 Hd)) as HR.
  set (L := select sel (reserved_frames_by_address s)).
  assert (L ≡ₚ filter (fun f => sel f = true) R) as HL by (unfold L; by rewrite select_perm, HR).
  eapply (wp_release_selected _ (fun l => (A, l))) with (l := filter (fun f => sel f = false) R).
  - intros W0 s0 F0 l g r0 Q0 E0. apply wp_delete_reserved.
  - simpl. apply (during_perm _ s F F A A R); [done..| |done]. rewrite HL. apply split_filter.
  - apply Forall_forall. intros f Hf. rewrite HL in Hf. apply list_elem_of_filter in Hf as [? ?]. by apply Hdf.
  - intros s' Hd'. eapply HQ; [exact HL| |exact Hd']. by rewrite <- Permutation_rev.
Qed.

Lemma wp_release_allocated z sel attr s F A R r (Q : unit -> state -> Prop) E :
  during (cleaned_frames z) s F A R [] r ->
  (forall f, f ∈ A -> sel f = true -> Forall data_frame (frame_addresses f)) ->
  (forall s' F' L, L ≡ₚ filter (fun f => sel f = true) A -> F' ≡ₚ map (cleared attr) L ++ F ->
     during (cleaned_frames (bulk_clean z L)) s' F' (filter (fun f => sel f = false) A) R [] (foldl free_rest r L) -> Q tt s') ->
  wp (release_selected delete_allocated attr (select sel (allocated_frames_by_address s))) s Q E.
Proof.
  intros Hd Hdf HQ. pose proof (acct_allocated _ _ _ _ _ (proj1 Hd)) as HA.
  set (L := select sel (allocated_frames_by_address s)).
  assert (L ≡ₚ filter (fun f => sel f = true) A) as HL by (unfold L; by rewrite select_perm, HA).
  eapply (wp_release_selected _ (fun l => (l, R))) with (l := filter (fun f => sel f = false) A).
  - intros W0 s0 F0 l g r0 Q0 E0. apply wp_delete_allocated.
  - simpl. apply (during_perm _ s F F A _ R R); [done| |done..]. rewrite HL. apply split_filter.
  - apply Forall_forall. intros f Hf. rewrite HL in Hf. apply list_elem_of_filter in Hf as [? ?]. by apply Hdf.
  - intros s' Hd'. eapply HQ; [exact HL| |exact Hd']. by rewrite <- Permutation_rev.
Qed.

(** ** [fa_reserve_system_frames] *)

Lemma layout_before frm i t a : layout (before frm i t a) = seqZ (page_of frm) i.
Proof.
  unfold before. destruct (Z.eqb_spec i 0) as [->|]; [done|]. rewrite layout_cons, app_nil_r.
  unfold pages. by rewrite sub_block_page, Z.add_0_r.
Qed.

Lemma layout_after frm i t a :
  layout (after frm i t a) = seqZ (page_of frm + i) (frame_count frm - i).
Proof.
  unfold after. destruct (Z.eqb_spec (frame_count frm - i) 0) as [->|]; [done|].
  rewrite layout_cons, app_nil_r. unfold pages. by rewrite sub_block_page.
Qed.

(** A block is what lies inside it, what lies before and what lies after. *)
Lemma layout_inside f frm t a t' a' :
  frame_wf f -> frame_wf frm -> inside f frm ->
  pages frm ≡ₚ pages f ++ layout (after frm (offset f frm + frame_count f) t a) ++
                          layout (before frm (offset f frm) t' a').
Proof.
  intros Hf Hfrm Hin. destruct (inside_arith f frm Hf Hfrm Hin) as (_ & _ & ? & ? & ? & ?).
  rewrite layout_before, layout_after. unfold pages.
  replace (page_of f) with (page_of frm + offset f frm) by (unfold offset; lia).
  set (n := frame_count frm - _).
  replace (frame_count frm) with (offset f frm + (frame_count f + n)) by lia.
  rewrite !seqZ_app, Z.add_assoc by lia. solve_Permutation.
Qed.

Lemma alloc_rest_add r a b : alloc_rest (alloc_rest r a) b = alloc_rest r (a + b).
Proof.
  unfold alloc_rest, u64. simpl. f_equal.
  - rewrite Zminus_mod_idemp_l. f_equal. lia.
  - rewrite Zplus_mod_idemp_l. f_equal. lia.
Qed.

(** Part of the free memory becomes reserved. *)
Definition reserves W s F A R r n (ps : list Z) s' : Prop :=
  exists F' R', during W s' F' A R' [] (alloc_rest r n) /\
    layout F ≡ₚ ps ++ layout F' /\ layout R' ≡ₚ ps ++ layout R.

Lemma reserve_block W s F A R r frm f (Q : Z -> state -> Prop) E :
  Kept W -> during W s F A R [] r -> frame_wf f -> frame_type f = FRAME_TYPE_RESERVED -> frm ∈ F -> inside f frm ->
  (forall s', reserves W s F A R r (frame_count f) (pages f) s' -> Q 0 s') ->
  (forall s', malloc_frame (heap s') = None -> Q (-1) s') -> wp (fa_allocate_frame f) s Q E.
Proof.
  intros HK Hd Hf Ht Hin Hins HQ Ho. apply elem_of_Permutation in Hin as [F' HF].
  assert (frame_wf frm) as Hfrm.
  { destruct Hd as [[[Hwf _]] _]. rewrite HF in Hwf. by apply Forall_cons in Hwf as [? _]. }
  pose proof (allocate_frame_spec W s F F' A R r f frm HK Hd Hf HF Hins) as Hw.
  unfold wp in *. destruct (fa_allocate_frame f s) as [[res s']| |]; [|done..].
  destruct Hw as [[-> Hd']|[-> ?]]; [|auto]. apply HQ.
  assert (is_used (claimed f frm) = false) as Hu.
  { unfold is_used, claimed. simpl. rewrite Ht. done. }
  rewrite Hu in Hd'. eexists _, _. split_and!; [exact Hd'| |].
  - rewrite HF, layout_cons, !layout_app, (layout_inside f frm) by done.
    by rewrite <- !app_assoc.
  - by rewrite layout_cons.
Qed.

Lemma reserves_trans W s s1 s2 F A R r n1 n2 ps1 ps2 F1 R1 :
  during W s1 F1 A R1 [] (alloc_rest r n1) -> layout F ≡ₚ ps1 ++ layout F1 ->
  layout R1 ≡ₚ ps1 ++ layout R ->
  reserves W s1 F1 A R1 (alloc_rest r n1) n2 ps2 s2 -> reserves W s F A R r (n1 + n2) (ps1 ++ ps2) s2.
Proof.
  intros Hd1 HF1 HR1 (F2 & R2 & Hd2 & HF2 & HR2). exists F2, R2. rewrite alloc_rest_add in Hd2.
  split_and!; [done| |].
  - by rewrite HF1, HF2, app_assoc.
  - rewrite HR2, HR1. solve_Permutation.
Qed.

(** The block of [n] frames from [start] on, of which a request is left. *)
Definition request (start n : Z) : frame_t := mk_frame start n FRAME_TYPE_RESERVED 0.

Lemma free_block_of W s F A R r start n :
  during W s F A R [] r -> frame_wf (request start n) ->
  (forall p, p ∈ pages (request start n) -> p ∈ layout F) ->
  exists frm, frm ∈ F /\ frame_wf frm /\
    index_find (free_frames_by_address s) (mk_frame start 1 FRAME_TYPE_FREE 0) = Some frm /\
    page_of frm <= start / 4096 < page_of frm + frame_count frm /\
    u64 (frame_count frm - u64 (start - frame_address frm) / FRAME_SIZE)
      = page_of frm + frame_count frm - start / 4096.
Proof.
  intros Hd Hwf Hp. pose proof Hd as [Hac _]. destruct (acct_all _ _ _ _ _ Hac) as (HokF & _).
  assert (start / 4096 ∈ layout F) as Hin.
  { apply Hp, elem_of_pages. destruct Hwf. unfold page_of. simpl in *. lia. }
  apply list_elem_of_bind in Hin as (frm & Hpg & Hfrm). rewrite elem_of_pages in Hpg.
  assert (frame_wf frm) as Hfw by (destruct HokF as [Hw _]; by eapply Forall_forall in Hw).
  exists frm. split_and!; [done|done| |lia|lia|].
  - apply find_inside; [by rewrite (acct_free _ _ _ _ _ Hac)| |by rewrite (acct_free _ _ _ _ _ Hac)|].
    + destruct Hwf as [? ? ? ?]; simpl in *. split; simpl; (done || lia).
    + unfold inside, page_of at 2 3. simpl. lia.
  - pose proof (page_of_addr frm Hfw) as Ea. destruct Hwf as [? Hal ? ?], Hfw. simpl in *.
    assert (start = start / 4096 * 4096) as Es by (pose proof (Z.div_mod start 4096); lia).
    assert (u64 (start - frame_address frm) / FRAME_SIZE = start / 4096 - page_of frm) as ->.
    { rewrite Ea, Es at 1. unfold u64, FRAME_SIZE. rewrite Z.mod_small by lia.
      rewrite <- Z.mul_sub_distr_r. by apply Z.div_mul. }
    unfold u64. rewrite Z.mod_small; lia.
Qed.

(** The heap never refuses a descriptor. *)
Definition plenty : Prop := forall h, malloc_frame h <> None.

Lemma wp_reserve_take W fuel : Kept W -> plenty -> forall s F A R r start n,
  during W s F A R [] r -> frame_wf (request start n) -> n <= Z.of_nat fuel ->
  (forall p, p ∈ pages (request start n) -> p ∈ layout F) ->
  wp (reserve_take fuel start n) s
    (fun _ s' => reserves W s F A R r n (pages (request start n)) s') False.
Proof.
  intros HK Hmem. induction fuel as [|fuel IH]; intros s F A R r start n Hd Hwf Hfu Hp;
    [destruct Hwf; simpl in *; lia|].
  cbn [reserve_take]. destruct (Z.eqb_spec n 0); [destruct Hwf; simpl in *; lia|].
  apply wp_bind, wp_get.
  destruct (free_block_of W s F A R r start n Hd Hwf Hp) as (frm & Hin & Hfw & -> & Hpg & ->).
  set (c := page_of frm + frame_count frm - start / 4096) in *.
  destruct (Z.ltb_spec c n) as [Hc|Hc].
  - apply wp_bind. fold (request start c).
    assert (frame_wf (request start c)) as Hwf1
      by (destruct Hwf as [? ? ? ?]; split; simpl in *; (done || lia)).
    apply (reserve_block W s F A R r frm); [done..|unfold inside, page_of at 2 3; simpl; lia| |].
    + intros s1 (F1 & R1 & Hd1 & HF1 & HR1). simpl in Hd1.
      assert (pages (request start n) = pages (request start c) ++
              pages (request (start + c * 4096) (n - c))) as Epg.
      { apply pages_split; simpl; try lia; unfold page_of; simpl; [done|done|].
        rewrite Z.div_add by lia. lia. }
      assert (u64 (start + c * FRAME_SIZE) = start + c * 4096) as ->
        by (destruct Hwf; simpl in *; unfold u64, FRAME_SIZE; apply Z.mod_small; lia).
      eapply wp_mono.
      * apply (IH s1 F1 A R1 (alloc_rest r c) (start + c * 4096) (n - c) Hd1); [|lia|].
        { destruct Hwf; split; simpl in *; try lia. rewrite Z.mod_add by lia. done. }
        intros p Hp2. assert (p ∈ layout F) as HpF by (apply Hp; rewrite Epg; by apply elem_of_app; right).
        rewrite HF1 in HpF. apply elem_of_app in HpF as [Hp1|]; [exfalso|done].
        rewrite elem_of_pages in Hp1, Hp2. unfold page_of in *. simpl in *.
        rewrite Z.div_add in Hp2 by lia. lia.
      * intros [] s2 Hres. rewrite Epg.
        replace n with (c + (n - c)) by lia. rewrite Z.add_simpl_l.
        by apply (reserves_trans W s s1 s2 F A R r c (n - c) _ _ F1 R1).
    + intros s1 Ho. by destruct (Hmem (heap s1)).
  - apply wp_bind. fold (request start n).
    apply (reserve_block W s F A R r frm); [done..|unfold inside, page_of at 2 3; simpl; lia| |].
    + intros s1 Hres. by apply wp_ret.
    + intros s1 Ho. by destruct (Hmem (heap s1)).
Qed.

(** The pages of a block around the [n] pages from page [i] on. *)
Lemma seqZ_item f i n :
  0 <= i -> 0 <= n -> i + n <= frame_count f ->
  seqZ (page_of f) (frame_count f) =
  seqZ (page_of f) i ++ seqZ (page_of f + i) n ++ seqZ (page_of f + i + n) (frame_count f - i - n).
Proof.
  intros. replace (frame_count f) with (i + (n + (frame_count f - i - n))) at 1 by lia.
  by rewrite !seqZ_app by lia.
Qed.
End Props.
