(* ===== verification/FrameClaims.v ===== *)
(** * The frame allocator: the theorems

    The operations in terms of the pages that are free, allocated and
    reserved, for every implementation of the containers that keeps the laws
    of [FrameTheory]; a reference implementation shows that the laws can be
    kept and carries the concrete examples. *)

From stdpp Require Import sorting.
From S2P Require Import Prelude Frame FrameAllocator FrameTheory FrameProps.

Section Claims.
Context {I H : Type} `{FI : FrameIndex I} `{SL : SizeList} `{HP : FrameHeap H}.
Context `{FIL : !FrameIndexLaws I} `{SLL : !SizeListLaws}.
Context {PW : PageWindow (frame_allocator_context_t I H)} {PWL : PageWindowLaws}.
Abbreviation state := (frame_allocator_context_t I H).
Implicit Types s : state.
Implicit Types W : H -> Prop.

Definition free_blocks s : list frame_t := index_items (free_frames_by_address s).
Definition used_blocks s : list frame_t := index_items (allocated_frames_by_address s).
Definition reserved_blocks s : list frame_t := index_items (reserved_frames_by_address s).
Definition free_pages s : list Z := layout (free_blocks s).
Definition used_pages s : list Z := layout (used_blocks s).
Definition reserved_pages s : list Z := layout (reserved_blocks s).

(** The invariant of the context: all blocks are well formed and no page is in
    two of them; the list by size and the index by address hold the same free
    blocks; the list is sorted; the counter counts the free pages. *)
Record fa_inv s : Prop := {
  fi_blocks : items_ok (free_blocks s ++ used_blocks s ++ reserved_blocks s);
  fi_list : free_frames_sorted_by_size s ≡ₚ free_blocks s;
  fi_sorted : StronglySorted size_le (free_frames_sorted_by_size s);
  fi_count : free_frame_count s = u64 (Z.of_nat (length (free_pages s)));
}.

Lemma inv_during W s : fa_inv s -> W (heap s) ->
  during W s (free_blocks s) (used_blocks s) (reserved_blocks s) [] (rest s).
Proof. intros [H1 H2 H3 _] HW. split; [|done]. by split. Qed.

(** What an intermediate state says about the final one. *)
Lemma during_final W s F A R r :
  during W s F A R [] r ->
  free_pages s ≡ₚ layout F /\ used_blocks s ≡ₚ A /\ reserved_blocks s ≡ₚ R /\ rest s = r.
Proof.
  intros ([_ H1 H2 H3 _ _] & Hr & _). split_and!; [|done..]. unfold free_pages, free_blocks. by rewrite H1.
Qed.

Lemma during_inv W s F A R r n :
  during W s F A R [] r -> r_free r = u64 n -> n = Z.of_nat (length (layout F)) -> fa_inv s.
Proof.
  intros Hd Hr ->. pose proof (during_final _ _ _ _ _ _ Hd) as (HF & HA & HR & Hrest).
  pose proof Hd as [[Hok H1 H2 H3 H4 H5] _]. simpl in Hok. split.
  - unfold free_blocks, used_blocks, reserved_blocks. by rewrite H1, H2, H3.
  - by rewrite H4, <- H1.
  - done.
  - rewrite HF. rewrite <- Hr, <- Hrest. done.
Qed.

Lemma length_pages f : frame_wf f -> Z.of_nat (length (pages f)) = frame_count f.
Proof. intros []. unfold pages. rewrite length_seqZ. lia. Qed.

Lemma u64_idemp_sub a b c : a = u64 c -> u64 (a - b) = u64 (c - b).
Proof. intros ->. unfold u64. apply Zminus_mod_idemp_l. Qed.
Lemma u64_idemp_add a b c : a = u64 c -> u64 (a + b) = u64 (c + b).
Proof. intros ->. unfold u64. apply Zplus_mod_idemp_l. Qed.

(** [f] leaves the free pages. *)
Definition taken s s' f : Prop :=
  free_pages s ≡ₚ pages f ++ free_pages s' /\
  free_frame_count s' = u64 (free_frame_count s - frame_count f) /\
  allocated_frame_count s' = u64 (allocated_frame_count s + frame_count f).

Lemma during_taken W s s' F A R f :
  fa_inv s -> during W s' F A R [] (alloc_rest (rest s) (frame_count f)) ->
  frame_wf f -> free_pages s ≡ₚ pages f ++ layout F ->
  fa_inv s' /\ taken s s' f.
Proof.
  intros Hinv Hd Hf HP'. pose proof (during_final _ _ _ _ _ _ Hd) as (HF & HA & HR & Hr).
  split.
  - eapply during_inv; [exact Hd|apply u64_idemp_sub, (fi_count s Hinv)|].
    rewrite HP', length_app, Nat2Z.inj_add, length_pages by done. lia.
  - split_and!.
    + by rewrite HF.
    + by apply (f_equal r_free) in Hr.
    + by apply (f_equal r_allocated) in Hr.
Qed.

(** ** Comparison by address *)

(** [frame_allocator_cmp_by_address] orders blocks that share no page
    and calls two blocks equal exactly when they share one: this is what makes
    a lookup in the indexes an overlap query. *)
Theorem cmp_by_address_overlap f g :
  frame_wf f -> frame_wf g ->
  (frame_allocator_cmp_by_address f g = 0 <-> exists p, p ∈ pages f /\ p ∈ pages g) /\
  (frame_allocator_cmp_by_address f g = -1 <-> forall p q, p ∈ pages f -> q ∈ pages g -> p < q) /\
  (frame_allocator_cmp_by_address f g = - frame_allocator_cmp_by_address g f).
Proof.
  intros Hf Hg. split; [by apply cmp_overlap|].
  pose proof (fw_count f Hf). pose proof (fw_count g Hg).
  assert ((forall p q, p ∈ pages f -> q ∈ pages g -> p < q) <->
          page_of f + frame_count f <= page_of g) as ->.
  { setoid_rewrite elem_of_pages. split; [|lia]. intros Hlt.
    specialize (Hlt (page_of f + frame_count f - 1) (page_of g)). lia. }
  destruct (cmp_by_address_cases f g Hf Hg) as [[-> ?]|[[-> ?]|[-> ?]]],
    (cmp_by_address_cases g f Hg Hf) as [[-> ?]|[[-> ?]|[-> ?]]]; lia.
Qed.

(** ** Allocation by count *)

(** The pages behind an allocation. *)
Lemma allocates_pages s s' A R r count fa_type f :
  fa_inv s -> 0 < count -> allocates s A R r count fa_type f s' ->
  frame_wf f /\ frame_count f = count /\
  exists F', free_pages s ≡ₚ pages f ++ layout F' /\
    let res := flag_set fa_type FRAME_ALLOCATION_TYPE_RESERVED in
    during (fun _ => True) s' F' (if res then A else f :: A) (if res then f :: R else R) [] (alloc_rest r count).
Proof.
  intros Hinv Hc (item & b & l1 & l2 & El & Hfit & _ & -> & Hd). set (f := new_frame _ _ _) in *.
  assert (frame_wf item) as Hi.
  { destruct (fi_blocks s Hinv) as [Hwf _]. apply Forall_app in Hwf as [Hwf _].
    eapply Forall_forall in Hwf; [done|]. rewrite <- (fi_list s Hinv), El. apply elem_of_app. right. left. }
  destruct (fits_some _ _ _ _ Hi Hc Hfit) as [Hle Hb]. set (n := default 0 b) in *.
  assert (0 <= n /\ n + count <= frame_count item) as [Hn1 Hn2] by (unfold n; destruct b; simpl; lia).
  assert (pages f = pages (sub_block item n count FRAME_TYPE_USED 0)) as Ef by done.
  split_and!; [|done|].
  { destruct (sub_block_wf item n count FRAME_TYPE_USED 0 Hi) as [? ? ? ?]; [lia..|]. by split. }
  eexists. split; [|exact Hd].
  unfold free_pages. rewrite <- (fi_list s Hinv), El, <- Permutation_middle, layout_cons.
  rewrite !layout_app, layout_before, layout_after, sub_block_page. cbn [frame_count sub_block].
  rewrite Ef. unfold pages. rewrite sub_block_page. cbn [frame_count sub_block].
  rewrite (seqZ_item item n count) by lia. solve_Permutation.
Qed.

(** C12.  [fa_allocate_frame_by_count] returns a well-formed block of exactly
    [count] frames, all of them free before and none of them free afterwards,
    filed as reserved or used as requested, with every other page where it
    was; the counters follow and the invariant holds.  It fails only without a
    change of the context, because the list of free blocks cannot be listed
    (there is no memory for the iterator) or because no free block fits.  The
    processor halts only when one of the at most three descriptors that it
    allocates on the way is refused by the heap of this call.  Requests are for
    blocks, that is with the flag BLOCK and without RELAX, and not for zero
    frames; insertions into the indexes and the list are taken to succeed. *)
Theorem allocate_by_count_correct s count fa_type :
  fa_inv s -> 0 < count ->
  flag_set fa_type FRAME_ALLOCATION_TYPE_RELAX = false ->
  flag_set fa_type FRAME_ALLOCATION_TYPE_BLOCK = true ->
  wp (fa_allocate_frame_by_count count fa_type) s (fun o s' =>
    match o with
    | None =>
      (s' = s /\ iterator_create (heap s) = None) \/
      ((exists h, s' = set_heap h s) /\ forall g, g ∈ free_blocks s -> fits count fa_type g = None)
    | Some f =>
      frame_wf f /\ frame_count f = count /\ fa_inv s' /\ taken s s' f /\
      if flag_set fa_type FRAME_ALLOCATION_TYPE_RESERVED
      then reserved_blocks s' ≡ₚ f :: reserved_blocks s /\ used_blocks s' ≡ₚ used_blocks s
      else used_blocks s' ≡ₚ f :: used_blocks s /\ reserved_blocks s' ≡ₚ reserved_blocks s
    end) (descriptor_refused (heap s)).
Proof.
  intros Hinv Hc HR HB. eapply wp_mono;
    [apply (allocate_by_count_spec (fun _ => True) s _ _ _ _ count fa_type (inv_during _ s Hinv Logic.I)); done|].
  intros [f|] s'; simpl.
  2: { intros [?|[Hh Hall]]; [by left|]. right. split; [done|]. rewrite Forall_forall in Hall. intros g Hg.
       apply Hall. by rewrite (fi_list s Hinv). }
  intros Hal. destruct (allocates_pages _ _ _ _ _ _ _ _ Hinv Hc Hal) as (Hf & <- & F' & HF & Hd).
  destruct (during_taken _ s s' _ _ _ f Hinv Hd Hf HF) as [Hinv' Htak].
  destruct (during_final _ _ _ _ _ _ Hd) as (_ & HA' & HR' & _).
  split_and!; [done..|]. by case_match.
Qed.

(** Best fit: a request that needs no 2 MiB alignment and has no limit is
    served from the begin of a smallest free block that is large enough. *)
Theorem allocate_best_fit s count fa_type f s' :
  fa_inv s -> 0 < count -> count mod 0x200 <> 0 ->
  flag_set fa_type FRAME_ALLOCATION_TYPE_RELAX = false ->
  flag_set fa_type FRAME_ALLOCATION_TYPE_BLOCK = true ->
  flag_set fa_type FRAME_ALLOCATION_TYPE_UNDER_4G = false ->
  fa_allocate_frame_by_count count fa_type s = Done (Some f, s') ->
  exists item, item ∈ free_blocks s /\ frame_address f = frame_address item /\
    count <= frame_count item /\
    forall g, g ∈ free_blocks s -> count <= frame_count g -> frame_count item <= frame_count g.
Proof.
  intros Hinv Hc Hm HR HB H4 Hrun.
  assert (forall g, fits count fa_type g = if count <=? frame_count g then Some None else None) as Hfits.
  { intros g. unfold fits. rewrite H4. destruct (count <=? frame_count g); [|done]. simpl.
    destruct (Z.eqb_spec (count mod 0x200) 0); [done|]. done. }
  pose proof (allocate_by_count_spec (fun _ => True) s _ _ _ _ count fa_type (inv_during _ s Hinv Logic.I) Hc HR HB) as Hw.
  apply (wp_result _ _ _ _ _ _ Hw) in Hrun as (item & b & l1 & l2 & El & Hfit & Hskip & -> & _).
  clear Hw. rewrite Hfits in Hfit. destruct (Z.leb_spec count (frame_count item)); [|done].
  injection Hfit as <-. exists item. split_and!.
  - rewrite <- (fi_list s Hinv), El. apply elem_of_app. right. left.
  - simpl. lia.
  - done.
  - intros g Hg Hcg. rewrite <- (fi_list s Hinv), El in Hg.
    pose proof (fi_sorted s Hinv) as Hs. rewrite El in Hs.
    apply elem_of_app in Hg as [Hg|Hg].
    + rewrite Forall_forall in Hskip. specialize (Hskip g Hg). rewrite Hfits in Hskip.
      destruct (Z.leb_spec count (frame_count g)); [done|lia].
    + apply elem_of_cons in Hg as [->|Hg]; [done|]. apply StronglySorted_app_1_r in Hs.
      inversion Hs as [|? ? _ Hall]; subst. rewrite Forall_forall in Hall. by apply Hall.
Qed.

(** ** Allocation and release of a given block *)

Lemma block_of l frm : items_ok l -> frm ∈ l -> frame_wf frm.
Proof. intros [Hwf _] Hin. by eapply Forall_forall in Hwf. Qed.

(** [fa_allocate_frame] on a block inside free memory takes exactly its
    pages out of the free ones and files it as used, or as reserved if its
    type asks for that; it fails only when the heap refuses a descriptor. *)
Theorem allocate_frame_correct s f frm :
  fa_inv s -> frame_wf f -> frm ∈ free_blocks s -> inside f frm ->
  wp (fa_allocate_frame f) s (fun res s' =>
    (res = 0 /\ fa_inv s' /\ taken s s' f /\
     exists g, frame_address g = frame_address f /\ frame_count g = frame_count f /\
       if decide (frame_type f = FRAME_TYPE_FREE \/ frame_type f = FRAME_TYPE_USED)
       then used_blocks s' ≡ₚ g :: used_blocks s /\ reserved_blocks s' ≡ₚ reserved_blocks s
       else reserved_blocks s' ≡ₚ g :: reserved_blocks s /\ used_blocks s' ≡ₚ used_blocks s) \/
    (res = -1 /\ malloc_frame (heap s') = None)) False.
Proof.
  intros Hinv Hf Hin Hins. pose proof Hin as [F' HF]%elem_of_Permutation.
  assert (frame_wf frm) as Hfrm
    by (eapply block_of; [eapply items_ok_app_l, (fi_blocks s Hinv)|done]).
  eapply wp_mono; [by apply (allocate_frame_spec (fun _ => True) s _ F' _ _ _ f frm kept_true (inv_during _ s Hinv Logic.I))|].
  intros res s' [[-> Hd]|?]; [left|by right]. split; [done|].
  destruct (during_taken _ s s' _ _ _ f Hinv Hd Hf) as [Hinv' Htak].
  { unfold free_pages. rewrite HF, layout_cons, !layout_app.
    rewrite (layout_inside f frm FRAME_TYPE_FREE (frame_attributes frm) FRAME_TYPE_FREE
      (frame_attributes frm)) by done. by rewrite <- !app_assoc. }
  split_and!; [done..|]. destruct (during_final _ _ _ _ _ _ Hd) as (_ & HA' & HR' & _).
  exists (claimed f frm). split_and!; [done..|].
  assert (is_used (claimed f frm) =
    bool_decide (frame_type f = FRAME_TYPE_FREE \/ frame_type f = FRAME_TYPE_USED)) as E.
  { unfold is_used, claimed. simpl. by destruct (frame_type f). }
  rewrite E in HA', HR'. by repeat case_decide; repeat case_bool_decide.
Qed.





(** Releasing what is neither used nor reserved returns 0 and changes
    nothing. *)
Theorem release_unknown_noop s f :
  fa_inv s -> frame_wf f ->
  (forall p, p ∈ pages f -> (p ∉ used_pages s) /\ (p ∉ reserved_pages s)) ->
  fa_release_frame f s = Done (0, s).
Proof.
  intros Hinv Hf Hno. eapply (release_unknown (fun _ => True)); [by apply inv_during|done|]. intros g Hg.
  assert (frame_wf g) as Hgw by (eapply block_of; [eapply items_ok_app_r, (fi_blocks s Hinv)|done]).
  rewrite (cmp_overlap g f) by done. intros (p & Hp & Hq). destruct (Hno p Hq) as [Hu Hr].
  apply elem_of_app in Hg as [Hg|Hg]; [apply Hu|apply Hr]; apply list_elem_of_bind; eauto.
Qed.




(** ** Bulk release and reservation *)

(** The pages of a list of blocks after their attribute is cleared. *)
Lemma layout_cleared attr l : layout (map (cleared attr) l) = layout l.
Proof. induction l as [|f l IH]; [done|]. cbn [map]. by rewrite !layout_cons, IH. Qed.

Lemma bulk_free r l n :
  Forall frame_wf l -> r_free r = u64 n ->
  r_free (foldl free_rest r l) = u64 (n + Z.of_nat (length (layout l))).
Proof.
  revert r n; induction l as [|f l IH]; intros r n Hwf Hr; [by rewrite Z.add_0_r|].
  apply Forall_cons in Hwf as [Hf Hl]. cbn [foldl].
  rewrite (IH _ (n + frame_count f) Hl) by (by apply u64_idemp_add).
  rewrite layout_cons, length_app, Nat2Z.inj_add, length_pages by done. f_equal. lia.
Qed.

(** All frames of the blocks of [l] hold zeros. *)
Definition cleaned s' (l : list frame_t) : Prop :=
  forall f a, f ∈ l -> a ∈ frame_addresses f -> zero_frame (heap s') a.

Lemma bulk_elem z l a : (a ∈ z \/ exists f, f ∈ l /\ a ∈ frame_addresses f) -> a ∈ bulk_clean z l.
Proof.
  revert z; induction l as [|g l IH]; intros z; cbn.
  - intros [?|(f & []%elem_of_nil & _)]. done.
  - intros Ha. apply IH. destruct Ha as [Ha|(f & [->|Hf]%elem_of_cons & Ha)].
    + left. apply elem_of_app. by right.
    + left. apply elem_of_app. by left.
    + right. eauto.
Qed.

Lemma bulk_cleaned s' z l L : L ≡ₚ l -> cleaned_frames (bulk_clean z L) (heap s') ->
  (forall a, a ∈ z -> zero_frame (heap s') a) /\ cleaned s' l.
Proof.
  intros HL [_ Hz]. rewrite Forall_forall in Hz. split.
  - intros a Ha. apply Hz, bulk_elem. by left.
  - intros f a Hf Ha. apply Hz, bulk_elem. right. exists f. by rewrite HL.
Qed.

Lemma filter_wf (sel : frame_t -> Prop) `{!forall f, Decision (sel f)} l :
  items_ok l -> Forall frame_wf (filter sel l).
Proof.
  intros [Hwf _]. rewrite !Forall_forall in *. intros f [_ Hf]%list_elem_of_filter. by apply Hwf.
Qed.

(** [fa_cleanup] makes every used or reserved block with the attribute
    "old reserved" free: its pages join the free ones and hold zeros, all
    other blocks stay as they are, and the invariant holds. *)
Theorem cleanup_correct s :
  fa_inv s -> window_ready (heap s) ->
  (forall f, f ∈ used_blocks s ++ reserved_blocks s -> old_reserved f = true -> Forall data_frame (frame_addresses f)) ->
  wp fa_cleanup s (fun res s' => res = 0 /\ fa_inv s' /\
    used_blocks s' ≡ₚ filter (fun f => old_reserved f = false) (used_blocks s) /\
    reserved_blocks s' ≡ₚ filter (fun f => old_reserved f = false) (reserved_blocks s) /\
    free_pages s' ≡ₚ layout (filter (fun f => old_reserved f = true) (used_blocks s)) ++
                     layout (filter (fun f => old_reserved f = true) (reserved_blocks s)) ++
                     free_pages s /\
    cleaned s' (filter (fun f => old_reserved f = true) (used_blocks s)) /\
    cleaned s' (filter (fun f => old_reserved f = true) (reserved_blocks s))) False.
Proof.
  intros Hinv Hw Hdf. unfold fa_cleanup. apply wp_bind, wp_get, wp_bind.
  pose proof (inv_during (cleaned_frames []) s Hinv (conj Hw (Forall_nil_2 _))) as Hd.
  destruct (acct_all _ _ _ _ _ (proj1 Hd)) as (_ & HokA & HokR & _).
  eapply wp_release_reserved; [exact Hd|intros f Hf; apply Hdf, elem_of_app; by right|]. intros s1 F1 L1 HL1 HF1 Hd1.
  apply wp_bind, wp_get, wp_bind. eapply wp_release_allocated; [exact Hd1|intros f Hf; apply Hdf, elem_of_app; by left|].
  intros s2 F2 L2 HL2 HF2 Hd2. apply wp_ret.
  destruct (during_final _ _ _ _ _ _ Hd2) as (HF & HA & HR & Hr).
  assert (layout F2 ≡ₚ layout (filter (fun f => old_reserved f = true) (used_blocks s)) ++
    layout (filter (fun f => old_reserved f = true) (reserved_blocks s)) ++ free_pages s) as Hlay.
  { by rewrite HF2, HF1, !layout_app, !layout_cleared, HL1, HL2. }
  split_and!; [done| |done|done|by rewrite HF| |].
  - eapply during_inv; [exact Hd2| |by rewrite Hlay, !length_app].
    etrans; [eapply (bulk_free _ L2); [|eapply (bulk_free _ L1); [|apply (fi_count s Hinv)]]|].
    + rewrite HL2. by apply filter_wf.
    + rewrite HL1. by apply filter_wf.
    + f_equal. rewrite HL1, HL2. lia.
  - by apply (bulk_cleaned s2 (bulk_clean [] L1) _ L2), Hd2.
  - destruct (bulk_cleaned s2 (bulk_clean [] L1) _ L2 HL2 (proj2 (proj2 Hd2))) as [Hz _].
    intros f a Hf Ha. apply Hz, bulk_elem. right. exists f. by rewrite HL1.
Qed.

(** [fa_release_acpi_reclaim_memory] gives back exactly the reserved
    blocks that hold reclaimable ACPI memory and are not mapped. *)
Theorem release_acpi_reclaim_correct s :
  fa_inv s -> window_ready (heap s) ->
  (forall f, f ∈ reserved_blocks s -> acpi_reclaimable f = true -> Forall data_frame (frame_addresses f)) ->
  wp fa_release_acpi_reclaim_memory s (fun res s' => res = 0 /\ fa_inv s' /\
    used_blocks s' ≡ₚ used_blocks s /\
    reserved_blocks s' ≡ₚ filter (fun f => acpi_reclaimable f = false) (reserved_blocks s) /\
    free_pages s' ≡ₚ layout (filter (fun f => acpi_reclaimable f = true) (reserved_blocks s)) ++
                     free_pages s /\
    cleaned s' (filter (fun f => acpi_reclaimable f = true) (reserved_blocks s))) False.
Proof.
  intros Hinv Hw Hdf. unfold fa_release_acpi_reclaim_memory. apply wp_bind, wp_get, wp_bind.
  pose proof (inv_during (cleaned_frames []) s Hinv (conj Hw (Forall_nil_2 _))) as Hd.
  destruct (acct_all _ _ _ _ _ (proj1 Hd)) as (_ & _ & HokR & _).
  eapply wp_release_reserved; [exact Hd|done|]. intros s1 F1 L1 HL1 HF1 Hd1. apply wp_ret.
  destruct (during_final _ _ _ _ _ _ Hd1) as (HF & HA & HR & Hr).
  assert (layout F1 ≡ₚ layout (filter (fun f => acpi_reclaimable f = true) (reserved_blocks s))
    ++ free_pages s) as Hlay by (by rewrite HF1, !layout_app, !layout_cleared, HL1).
  split_and!; [done| |done|done|by rewrite HF|].
  - eapply during_inv; [exact Hd1| |by rewrite Hlay, !length_app].
    etrans; [eapply (bulk_free _ L1); [|apply (fi_count s Hinv)]|].
    + rewrite HL1. by apply filter_wf.
    + f_equal. rewrite HL1. unfold free_pages. lia.
  - by apply (bulk_cleaned s1 [] _ L1), Hd1.
Qed.

(** [fa_reserve_system_frames] on a block of free pages, over however
    many free blocks it stretches, terminates and moves exactly its pages from
    free to reserved. *)
Theorem reserve_free_correct s f :
  fa_inv s -> plenty -> frame_wf f -> (forall p, p ∈ pages f -> p ∈ free_pages s) ->
  wp (fa_reserve_system_frames f) s (fun res s' => res = 0 /\ fa_inv s' /\ taken s s' f /\
    reserved_pages s' ≡ₚ pages f ++ reserved_pages s /\ used_blocks s' ≡ₚ used_blocks s) False.
Proof.
  intros Hinv Hmem Hf Hp. unfold fa_reserve_system_frames. apply wp_bind, wp_get.
  pose proof (inv_during (fun _ => True) s Hinv Logic.I) as Hd.
  assert (reserve_skip (Z.to_nat (frame_count f)) (reserved_frames_by_address s)
    (frame_address f) (frame_count f) = Done (Some (frame_address f, frame_count f))) as ->.
  { pose proof (fw_count f Hf). pose proof (fw_addr f Hf). pose proof (fw_align f Hf). pose proof (fw_end f Hf).
    assert (frame_wf (mk_frame (frame_address f) 1 FRAME_TYPE_FREE 0)) as Hq by (split; simpl; (done || lia)).
    assert (page_of f ∈ free_pages s) as Hpf by (apply Hp, elem_of_pages; lia).
    apply list_elem_of_bind in Hpf as (frm & Hpg & Hfrm). pose proof Hfrm as [F' HF]%elem_of_Permutation.
    rewrite elem_of_pages in Hpg.
    assert (index_find (reserved_frames_by_address s) (mk_frame (frame_address f) 1 FRAME_TYPE_FREE 0) = None) as E.
    { apply (find_elsewhere _ _ frm (F' ++ used_blocks s)); [|done|].
      - eapply items_ok_sub; [|apply (fi_blocks s Hinv)]. rewrite HF.
        change (index_items (reserved_frames_by_address s)) with (reserved_blocks s). solve_submseteq.
      - unfold inside. change (page_of (mk_frame (frame_address f) 1 FRAME_TYPE_FREE 0)) with (page_of f).
        simpl. lia. }
    destruct (Z.to_nat (frame_count f)); cbn [reserve_skip];
      (destruct (Z.eqb_spec (frame_count f) 0); [lia|]); by rewrite E. }
  apply wp_bind. assert (frame_wf (request (frame_address f) (frame_count f))) as Hreq
    by (destruct Hf; by split).
  eapply wp_mono; [by eapply (wp_reserve_take (fun _ => True) _ kept_true Hmem s _ _ _ _ _ _ Hd Hreq); [destruct Hf; lia|]|].
  intros [] s' (F' & R' & Hd' & HF' & HR'). apply wp_ret.
  destruct (during_taken _ s s' _ _ _ f Hinv Hd' Hf HF') as [Hinv' Htak].
  destruct (during_final _ _ _ _ _ _ Hd') as (_ & HA & HR & _).
  split_and!; [done..| |done]. unfold reserved_pages. by rewrite HR, HR'.
Qed.

(** ** Construction *)






Section Building.
Context (insert_acpi : list frame_t -> frame_t -> list frame_t).
Context (Hacpi : forall l f, insert_acpi l f ≡ₚ f :: l).

















End Building.

End Claims.

(** ** Reference containers

    An index as a list ordered by address, in which an equal key is replaced,
    and a list by size in which a new block goes before the first block that
    is not smaller.  They keep the laws the theorems assume. *)
Module RefContainers.
Fixpoint ref_find (l : list frame_t) (k : frame_t) : option frame_t :=
  match l with
  | [] => None
  | g :: l => if frame_allocator_cmp_by_address k g =? 0 then Some g else ref_find l k
  end.

Fixpoint ref_insert (l : list frame_t) (f : frame_t) : list frame_t :=
  match l with
  | [] => [f]
  | g :: l' =>
    if frame_allocator_cmp_by_address f g =? -1 then f :: l
    else if frame_allocator_cmp_by_address f g =? 0 then f :: l'
    else g :: ref_insert l' f
  end.

#[export] Instance ref_index : FrameIndex (list frame_t) := {|
  index_empty := [];
  index_items l := l;
  index_find := ref_find;
  index_insert := ref_insert;
  index_delete := sortedlist_delete;
|}.

Fixpoint size_insert (l : list frame_t) (f : frame_t) : list frame_t :=
  match l with
  | [] => [f]
  | g :: l' => if frame_allocator_cmp_by_size f g <=? 0 then f :: l else g :: size_insert l' f
  end.

#[export] Instance ref_size_list : SizeList := {| sortedlist_insert := size_insert |}.

(** A heap with room for [room] more objects, the window at 0x1000 and the
    frames that hold zeros. *)
Record world := mk_world { room : nat; window : option Z; zeros : list Z }.

Definition take_room (h : world) : option world :=
  match room h with O => None | S n => Some (mk_world n (window h) (zeros h)) end.
Definition give_room (h : world) : world := mk_world (S (room h)) (window h) (zeros h).

#[export] Instance ref_heap : FrameHeap world := {|
  malloc_frame := take_room;
  free_frame := give_room;
  iterator_create := take_room;
  iterator_destroy := give_room;
|}.

#[export] Instance ref_window : PageWindow (frame_allocator_context_t (list frame_t) world) := {|
  add_page_4k va pa s :=
    let h := heap s in
    match window h with
    | None => Done (0, set_heap (mk_world (room h) (Some pa) (zeros h)) s)
    | Some _ => Done (-1, s)
    end;
  memclean va n s :=
    let h := heap s in
    match window h with
    | None => Halted
    | Some pa => Done (tt, set_heap (mk_world (room h) (Some pa) (pa :: zeros h)) s)
    end;
  delete_page_4k va s :=
    let h := heap s in
    match window h with
    | None => Done (-1, s)
    | Some _ => Done (0, set_heap (mk_world (room h) None (zeros h)) s)
    end;
|}.
End RefContainers.
Import RefContainers.

Lemma cmp_sym f g :
  frame_wf f -> frame_wf g ->
  frame_allocator_cmp_by_address f g = 0 <-> frame_allocator_cmp_by_address g f = 0.
Proof. intros Hf Hg. rewrite !cmp_overlap by done. split; intros (p & ? & ?); by exists p. Qed.

Lemma ref_find_spec l k :
  match ref_find l k with
  | Some f => f ∈ l /\ frame_allocator_cmp_by_address k f = 0
  | None => forall f, f ∈ l -> frame_allocator_cmp_by_address k f <> 0
  end.
Proof.
  induction l as [|g l IH]; simpl; [by intros f ?%elem_of_nil|].
  destruct (Z.eqb_spec (frame_allocator_cmp_by_address k g) 0).
  - split; [left|done].
  - destruct (ref_find l k).
    + destruct IH. split; [by right|done].
    + intros f [->|?]%elem_of_cons; auto.
Qed.

Lemma ref_insert_perm l f : items_ok (f :: l) -> ref_insert l f ≡ₚ f :: l.
Proof.
  induction l as [|g l IH]; intros Hok; [done|]. simpl.
  destruct (frame_allocator_cmp_by_address f g =? -1); [done|].
  destruct (Z.eqb_spec (frame_allocator_cmp_by_address f g) 0) as [E|].
  - exfalso. apply (items_ok_disjoint f (g :: l) g Hok); [left|].
    destruct Hok as [[? [? _]%Forall_cons]%Forall_cons _]. by apply cmp_sym.
  - rewrite IH; [constructor|]. eapply items_ok_sub; [|done]. solve_submseteq.
Qed.

#[export] Instance ref_index_laws : FrameIndexLaws (list frame_t).
Proof.
  assert (forall l f g, items_ok l -> f ∈ l -> frame_wf g ->
    frame_allocator_cmp_by_address g f = 0 <-> frame_allocator_cmp_by_address f g = 0) as Hsym
    by (intros l f g Hok Hin Hg; apply cmp_sym; [done|by apply (block_of l)]).
  split; simpl.
  - done.
  - intros i k f Hok Hk Hf. pose proof (ref_find_spec i k) as Hs. rewrite Hf in Hs.
    destruct Hs. split; [done|]. by apply (Hsym i f k).
  - intros i k Hok Hk Hf f Hin E. pose proof (ref_find_spec i k) as Hs. rewrite Hf in Hs.
    apply (Hs f Hin). by apply (Hsym i f k).
  - intros i f Hok. by apply ref_insert_perm.
  - intros i f Hok Hin. destruct (sortedlist_delete_in i f Hok Hin) as (l1 & l2 & E1 & E2).
    rewrite E2. rewrite E1 at 1. by rewrite Permutation_middle.
Qed.

#[export, refine] Instance ref_window_laws : PageWindowLaws (I := list frame_t) (H := world) := {|
  data_frame _ := True;
  window_ready h := window h = None;
  window_on h pa := window h = Some pa;
  zero_frame h a := a ∈ zeros h;
|}.
Proof.
  - intros s pa Hw _. cbn. rewrite Hw. by eexists _, _.
  - intros s pa Hw. cbn. rewrite Hw. eexists. split_and!; [done|done|left|]. intros a Ha. by right.
  - intros s pa Hw. cbn. rewrite Hw. by eexists _, _.
  - intros h h'. cbn. unfold take_room. case_match; [done|]. by intros [= <-].
  - intros h h' a. cbn. unfold take_room. case_match; [done|]. by intros [= <-].
  - done.
  - done.
Defined.

#[export] Instance ref_size_list_laws : SizeListLaws.
Proof.
  assert (forall l f, size_insert l f ≡ₚ f :: l) as Hperm.
  { intros l f. induction l as [|g l IH]; [done|]. simpl. case_match; [done|]. rewrite IH. constructor. }
  split; [done|]. simpl. intros l f. induction l as [|g l IH]; intros Hs; simpl; [by repeat constructor|].
  inversion Hs as [|? ? Hs' Hall]; subst. unfold frame_allocator_cmp_by_size.
  destruct (Z.ltb_spec (frame_count g) (frame_count f)); simpl.
  - constructor; [auto|]. rewrite Hperm. apply Forall_cons_2; [unfold size_le; lia|done].
  - assert (size_le f g) by (unfold size_le; lia).
    assert (StronglySorted size_le (f :: g :: l)).
    { constructor; [done|]. apply Forall_cons_2; [done|].
      eapply Forall_impl; [exact Hall|]. unfold size_le in *. intros h ?. simpl in *. lia. }
    by destruct (frame_count f <? frame_count g).
Qed.

(** ** A concrete allocator *)

Definition demo_small : frame_t := mk_frame 0x100000 4 FRAME_TYPE_FREE 0.
Definition demo_large : frame_t := mk_frame 0x200000 20 FRAME_TYPE_FREE 0.
Definition demo_used : frame_t := mk_frame 0x300000 16 FRAME_TYPE_USED 0.
Definition demo_old : frame_t :=
  mk_frame 0x400000 8 FRAME_TYPE_RESERVED
    (Z.lor FRAME_ATTRIBUTE_OLD_RESERVED FRAME_ATTRIBUTE_ACPI_RECLAIM_MEMORY).

Definition demo_fa : frame_allocator_context_t (list frame_t) world :=
  mk_fa (mk_world 5 None []) [demo_small; demo_large] [] [demo_small; demo_large] [demo_used] [demo_old] 48 24 24.

Lemma demo_fa_inv : fa_inv demo_fa.
Proof.
  split.
  - split.
    + unfold free_blocks, used_blocks, reserved_blocks. simpl.
      repeat (apply Forall_cons_2; [split; simpl; (reflexivity || lia)|]). apply Forall_nil_2.
    + apply (bool_decide_unpack _). vm_compute. exact Logic.I.
  - done.
  - repeat constructor; done.
  - vm_compute. done.
Qed.

Lemma demo_block_wf a n t at' :
  0 <= a -> a mod 4096 = 0 -> 0 < n -> a + n * 4096 <= 2 ^ 64 -> frame_wf (mk_frame a n t at').
Proof. by split. Qed.

Lemma cmp_by_address_witness :
  (frame_allocator_cmp_by_address demo_small demo_large = 0 <->
     exists p, p ∈ pages demo_small /\ p ∈ pages demo_large) /\
  (frame_allocator_cmp_by_address demo_small demo_large = -1 <->
     forall p q, p ∈ pages demo_small -> q ∈ pages demo_large -> p < q) /\
  (frame_allocator_cmp_by_address demo_small demo_large
   = - frame_allocator_cmp_by_address demo_large demo_small).
Proof. apply (cmp_by_address_overlap demo_small demo_large); apply demo_block_wf; (reflexivity || lia). Defined.

Lemma allocate_by_count_witness :
  wp (fa_allocate_frame_by_count 6 FRAME_ALLOCATION_TYPE_BLOCK) demo_fa (fun o s' =>
    match o with
    | None =>
      (s' = demo_fa /\ iterator_create (heap demo_fa) = None) \/
      ((exists h, s' = set_heap h demo_fa) /\ forall g, g ∈ free_blocks demo_fa -> fits 6 FRAME_ALLOCATION_TYPE_BLOCK g = None)
    | Some f =>
      frame_wf f /\ frame_count f = 6 /\ fa_inv s' /\ taken demo_fa s' f /\
      if flag_set FRAME_ALLOCATION_TYPE_BLOCK FRAME_ALLOCATION_TYPE_RESERVED
      then reserved_blocks s' ≡ₚ f :: reserved_blocks demo_fa /\ used_blocks s' ≡ₚ used_blocks demo_fa
      else used_blocks s' ≡ₚ f :: used_blocks demo_fa /\ reserved_blocks s' ≡ₚ reserved_blocks demo_fa
    end) (descriptor_refused (heap demo_fa)).
Proof.
  apply (allocate_by_count_correct demo_fa 6 FRAME_ALLOCATION_TYPE_BLOCK);
    [apply demo_fa_inv|lia|reflexivity..].
Defined.

(** The context after the allocation of six frames. *)
Definition demo_six : frame_t := mk_frame 0x200000 6 FRAME_TYPE_USED 0.
Definition demo_fa6 : frame_allocator_context_t (list frame_t) world :=
  mk_fa (mk_world 4 None []) [demo_small; mk_frame 0x206000 14 FRAME_TYPE_FREE 0] []
    [demo_small; mk_frame 0x206000 14 FRAME_TYPE_FREE 0] [demo_six; demo_used] [demo_old] 48 18 30.

Lemma demo_run6 :
  fa_allocate_frame_by_count 6 FRAME_ALLOCATION_TYPE_BLOCK demo_fa = Done (Some demo_six, demo_fa6).
Proof. vm_compute. reflexivity. Qed.

Lemma allocate_best_fit_witness :
  exists item, item ∈ free_blocks demo_fa /\ frame_address demo_six = frame_address item /\
    6 <= frame_count item /\
    forall g, g ∈ free_blocks demo_fa -> 6 <= frame_count g -> frame_count item <= frame_count g.
Proof.
  apply (allocate_best_fit demo_fa 6 FRAME_ALLOCATION_TYPE_BLOCK demo_six demo_fa6);
    [apply demo_fa_inv|lia|vm_compute; discriminate|reflexivity..|apply demo_run6].
Defined.

Lemma allocate_frame_witness :
  wp (fa_allocate_frame (mk_frame 0x202000 3 FRAME_TYPE_RESERVED 0)) demo_fa (fun res s' =>
    (res = 0 /\ fa_inv s' /\ taken demo_fa s' (mk_frame 0x202000 3 FRAME_TYPE_RESERVED 0) /\
     exists g, frame_address g = 0x202000 /\ frame_count g = 3 /\
       if decide (FRAME_TYPE_RESERVED = FRAME_TYPE_FREE \/ FRAME_TYPE_RESERVED = FRAME_TYPE_USED)
       then used_blocks s' ≡ₚ g :: used_blocks demo_fa /\ reserved_blocks s' ≡ₚ reserved_blocks demo_fa
       else reserved_blocks s' ≡ₚ g :: reserved_blocks demo_fa /\ used_blocks s' ≡ₚ used_blocks demo_fa) \/
    (res = -1 /\ malloc_frame (heap s') = None)) False.
Proof.
  apply (allocate_frame_correct demo_fa (mk_frame 0x202000 3 FRAME_TYPE_RESERVED 0) demo_large);
    [apply demo_fa_inv|apply demo_block_wf; (reflexivity || lia)|right; left|by split].
Defined.


Lemma release_unknown_witness :
  fa_release_frame (mk_frame 0x500000 2 FRAME_TYPE_FREE 0) demo_fa = Done (0, demo_fa).
Proof.
  apply (release_unknown_noop demo_fa (mk_frame 0x500000 2 FRAME_TYPE_FREE 0));
    [apply demo_fa_inv|apply demo_block_wf; (reflexivity || lia)|].
  intros p Hp. split; apply (bool_decide_unpack _);
    apply elem_of_pages in Hp; change (1280 <= p < 1280 + 2) in Hp;
    (assert (p = 1280 \/ p = 1281) as [-> | ->] by lia); vm_compute; exact Logic.I.
Defined.


Lemma cleanup_witness :
  wp fa_cleanup demo_fa (fun res s' => res = 0 /\ fa_inv s' /\
    used_blocks s' ≡ₚ filter (fun f => old_reserved f = false) (used_blocks demo_fa) /\
    reserved_blocks s' ≡ₚ filter (fun f => old_reserved f = false) (reserved_blocks demo_fa) /\
    free_pages s' ≡ₚ layout (filter (fun f => old_reserved f = true) (used_blocks demo_fa)) ++
                     layout (filter (fun f => old_reserved f = true) (reserved_blocks demo_fa)) ++
                     free_pages demo_fa /\
    cleaned s' (filter (fun f => old_reserved f = true) (used_blocks demo_fa)) /\
    cleaned s' (filter (fun f => old_reserved f = true) (reserved_blocks demo_fa))) False.
Proof. apply (cleanup_correct demo_fa); [apply demo_fa_inv|reflexivity|]. intros f _ _. by apply Forall_true. Defined.

Lemma release_acpi_witness :
  wp fa_release_acpi_reclaim_memory demo_fa (fun res s' => res = 0 /\ fa_inv s' /\
    used_blocks s' ≡ₚ used_blocks demo_fa /\
    reserved_blocks s' ≡ₚ filter (fun f => acpi_reclaimable f = false) (reserved_blocks demo_fa) /\
    free_pages s' ≡ₚ layout (filter (fun f => acpi_reclaimable f = true) (reserved_blocks demo_fa)) ++
                     free_pages demo_fa /\
    cleaned s' (filter (fun f => acpi_reclaimable f = true) (reserved_blocks demo_fa))) False.
Proof. apply (release_acpi_reclaim_correct demo_fa); [apply demo_fa_inv|reflexivity|]. intros f _ _. by apply Forall_true. Defined.




(** ** Behaviour at odds with the code's intent *)

Definition one_free (f : frame_t) (reserved : list frame_t) (free2 : list frame_t)
    : frame_allocator_context_t (list frame_t) world :=
  mk_fa (mk_world 5 None []) (f :: free2) [] (f :: free2) [] reserved 0 0 0.

(** A request for 512 frames from a block that starts at 0x80000 is cut at
    0x100000, which is not a multiple of 2 MiB: the code skips
    [address mod 2M] bytes where the distance to the next multiple is needed. *)
Theorem block_2m_not_aligned :
  match fa_allocate_frame_by_count 512 FRAME_ALLOCATION_TYPE_BLOCK
          (one_free (mk_frame 0x80000 2048 FRAME_TYPE_FREE 0) [] []) with
  | Done (Some f, _) => frame_address f = 0x100000 /\ frame_address f mod 0x200000 <> 0
  | _ => False
  end.
Proof. vm_compute. split; [reflexivity|discriminate]. Qed.

(** A request that starts in the middle of a reserved block of the same size
    is taken for "inside" it: the second half of the request stays free. *)
Theorem reserve_inside_check_wrong :
  let s := one_free (mk_frame 0x10A000 10 FRAME_TYPE_FREE 0)
             [mk_frame 0x100000 10 FRAME_TYPE_RESERVED 0] [] in
  fa_reserve_system_frames (mk_frame 0x105000 10 FRAME_TYPE_RESERVED 0) s = Done (0, s) /\
  0x10A ∈ free_pages s.
Proof.
  split; [vm_compute; reflexivity|]. apply (bool_decide_unpack _). vm_compute. exact Logic.I.
Qed.

(** A request that covers a hole between two free blocks reserves the rest
    behind the hole without taking it out of the free blocks: page 0x114 is
    free and reserved afterwards. *)
Theorem reserve_across_hole_overlaps :
  match fa_reserve_system_frames (mk_frame 0x105000 20 FRAME_TYPE_RESERVED 0)
          (one_free (mk_frame 0x100000 10 FRAME_TYPE_FREE 0) []
             [mk_frame 0x114000 10 FRAME_TYPE_FREE 0]) with
  | Done (_, s') => existsb (Z.eqb 0x114) (free_pages s')
                    && existsb (Z.eqb 0x114) (reserved_pages s') = true
  | _ => False
  end.
Proof. vm_compute. reflexivity. Qed.

(** The last run of the memory map is never filed: of these two descriptors
    only the 16 frames of the first one are known to the allocator. *)
Theorem new_ext_loses_last_run :
  match frame_allocator_new_ext (H := world) ref_insert
          [mk_desc EFI_CONVENTIONAL_MEMORY 0x200000 16 0;
           mk_desc EFI_CONVENTIONAL_MEMORY 0x400000 4096 0] (mk_world 5 None []) with
  | Done (Some s) => total_frame_count s = 16 /\ free_pages (I := list frame_t) s = seqZ 0x200 16
  | _ => False
  end.
Proof. vm_compute. split; reflexivity. Qed.
