(* ===== verification/Buffer.v ===== *)
(** * Growable byte buffers ([cc/lib/buffer.64.c])

    The buffer object with its position, length and capacity, and its
    operations on all branches.  Its memory is a list of [capacity] bytes; an
    access outside of it is a [Fault].  Whether an allocation succeeds is an
    argument ([ok]); allocated memory is zeroed. *)

From S2P Require Import Prelude.

(** [buffer_t] without its heap and lock. *)
Record buffer_t := mk_buffer {
  capacity : Z;
  length_ : Z;
  position : Z;
  readonly : bool;
  mark_position : Z;
  data : list Z;
}.

(** [memory_memcopy] out of and into a block of memory. *)
Definition copy_out (mem : list Z) (pos len : Z) : access (list Z) :=
  if (0 <=? pos) && (pos + len <=? Z.of_nat (length mem))
  then Val (take (Z.to_nat len) (drop (Z.to_nat pos) mem)) else Fault.
Definition copy_in (mem : list Z) (pos : Z) (bytes : list Z) : access (list Z) :=
  if (0 <=? pos) && (pos + Z.of_nat (length bytes) <=? Z.of_nat (length mem))
  then Val (take (Z.to_nat pos) mem ++ bytes ++ drop (Z.to_nat pos + length bytes) mem) else Fault.

Definition zeros (n : Z) : list Z := replicate (Z.to_nat n) 0.

Definition set_position (b : buffer_t) (p : Z) : buffer_t :=
  mk_buffer (capacity b) (length_ b) p (readonly b) (mark_position b) (data b).
Definition set_length (b : buffer_t) (l : Z) : buffer_t :=
  mk_buffer (capacity b) l (position b) (readonly b) (mark_position b) (data b).
Definition set_data (b : buffer_t) (d : list Z) : buffer_t :=
  mk_buffer (capacity b) (length_ b) (position b) (readonly b) (mark_position b) d.

(** ** Construction and simple accessors *)

(** [ok1] and [ok2]: whether the object and its memory can be allocated. *)
Definition buffer_new_with_capacity (ok1 ok2 : bool) (cap : Z) : option buffer_t :=
  if negb ok1 then None else
  let cap := if cap =? 0 then 1 else cap in
  if negb ok2 then None else Some (mk_buffer cap 0 0 false 0 (zeros cap)).

Definition buffer_encapsulate (ok : bool) (d : list Z) : option buffer_t :=
  if negb ok then None
  else Some (mk_buffer (Z.of_nat (length d)) (Z.of_nat (length d)) 0 true 0 d).

Definition buffer_set_readonly (b : buffer_t) (ro : bool) : bool * buffer_t :=
  (true, mk_buffer (capacity b) (length_ b) (position b) ro (mark_position b) (data b)).

Definition buffer_get_length (b : buffer_t) : Z := length_ b.
Definition buffer_get_capacity (b : buffer_t) : Z := capacity b.
Definition buffer_get_position (b : buffer_t) : Z := position b.
Definition buffer_get_mark_position (b : buffer_t) : Z := mark_position b.

Definition buffer_set_mark_position (b : buffer_t) (p : Z) : bool * buffer_t :=
  if length_ b <? p then (false, b)
  else (true, mk_buffer (capacity b) (length_ b) (position b) (readonly b) p (data b)).

Definition buffer_reset (b : buffer_t) : access (bool * buffer_t) :=
  match copy_in (data b) 0 (zeros (length_ b)) with
  | Fault => Fault
  | Val d => Val (true, set_position (set_length (set_data b d) 0) 0)
  end.

(** ** Growth *)

(** The loop that doubles the capacity, or adds 1 MiB above 1 MiB, until
    [need] bytes fit.  It makes progress while the capacity is positive, so
    [need] iterations suffice. *)
Fixpoint grow (fuel : nat) (need new_cap : Z) : option Z :=
  if new_cap <? need then
    match fuel with
    | O => None
    | S fuel => grow fuel need (u64 (if Z.shiftl 1 20 <? new_cap then new_cap + Z.shiftl 1 20 else new_cap * 2))
    end
  else Some new_cap.

(** The outcome of an operation that may resize. *)
Inductive resized := Resized (b : buffer_t) | NoMemory | Loops | BadAccess.

Definition buffer_resize_if_need (ok : bool) (b : buffer_t) (len : Z) : resized :=
  match grow (Z.to_nat (u64 (position b + len))) (u64 (position b + len)) (capacity b) with
  | None => Loops
  | Some new_cap =>
    if capacity b =? new_cap then Resized b
    else if negb ok then NoMemory
    else
      match copy_out (data b) 0 (length_ b) with
      | Fault => BadAccess
      | Val bytes =>
        match copy_in (zeros new_cap) 0 bytes with
        | Fault => BadAccess
        | Val d => Resized (mk_buffer new_cap (length_ b) (position b) (readonly b) (mark_position b) d)
        end
      end
  end.

(** [Val (Some b')] is the return value [buffer], [Val None] is [NULL];
    [None] does not return. *)
Definition append_at (b : buffer_t) (bytes : list Z) : access (option buffer_t) :=
  match copy_in (data b) (position b) bytes with
  | Fault => Fault
  | Val d =>
    let b := set_position (set_data b d) (u64 (position b + Z.of_nat (length bytes))) in
    Val (Some (if length_ b <? position b then set_length b (position b) else b))
  end.

Definition buffer_append_bytes (ok : bool) (b : buffer_t) (bytes : list Z)
    : option (access (option buffer_t)) :=
  if readonly b then Some (Val None) else
  match buffer_resize_if_need ok b (Z.of_nat (length bytes)) with
  | Loops => None
  | BadAccess => Some Fault
  | NoMemory => Some (Val None)
  | Resized b => Some (append_at b bytes)
  end.

Definition buffer_append_byte (ok : bool) (b : buffer_t) (x : Z) : option (access (option buffer_t)) :=
  buffer_append_bytes ok b [x].

Definition buffer_append_buffer (ok : bool) (b appenden : buffer_t)
    : option (access (option buffer_t)) :=
  match copy_out (data appenden) 0 (length_ appenden) with
  | Fault => Some Fault
  | Val bytes => buffer_append_bytes ok b bytes
  end.

(** ** Reading *)

(** The result of [memory_malloc_ext] is not checked here. *)
Definition buffer_get_bytes (b : buffer_t) (len : Z) : access (option (list Z) * buffer_t) :=
  if len =? 0 then Val (None, b)
  else if length_ b <=? position b then Val (None, b)
  else match copy_out (data b) (position b) len with
       | Fault => Fault
       | Val bytes => Val (Some bytes, set_position b (u64 (position b + len)))
       end.

Definition buffer_get_all_bytes (ok : bool) (b : buffer_t) : access (option (list Z) * Z) :=
  if negb ok then Val (None, 0)
  else match copy_out (data b) 0 (length_ b) with
       | Fault => Fault
       | Val bytes => Val (Some bytes, length_ b)
       end.

(** The memory goes to the caller, the buffer gets a new block. *)
Definition buffer_get_all_bytes_and_reset (b : buffer_t) : list Z * Z * buffer_t :=
  (data b, length_ b, set_position (set_length (set_data b (zeros (capacity b))) 0) 0).

Definition buffer_get_all_bytes_and_destroy (b : buffer_t) : list Z * Z := (data b, length_ b).

Definition buffer_get_byte (b : buffer_t) : access (Z * buffer_t) :=
  if length_ b <=? position b then Val (0, b)
  else match data b !! Z.to_nat (position b) with
       | None => Fault
       | Some x => Val (x, set_position b (u64 (position b + 1)))
       end.

Definition buffer_peek_byte_at_position (b : buffer_t) (p : Z) : access Z :=
  if length_ b <? u64 (p + 1) then Val 0
  else match data b !! Z.to_nat p with None => Fault | Some x => Val x end.

Definition buffer_peek_byte (b : buffer_t) : access Z := buffer_peek_byte_at_position b (position b).

(** A little-endian integer of some bytes. *)
Fixpoint le_combine (bytes : list Z) : Z :=
  match bytes with
  | [] => 0
  | x :: bytes => x + 256 * le_combine bytes
  end.

(** Eight bytes are read and masked to [bc] bytes. *)
Definition buffer_peek_ints_at_position (b : buffer_t) (p bc : Z) : access Z :=
  if (bc <=? 0) || (8 <? bc) then Val 0
  else if length_ b <? u64 (p + bc) then Val 0
  else match copy_out (data b) p 8 with
       | Fault => Fault
       | Val bytes => Val (Z.land (le_combine bytes) (Z.ones (8 * bc)))
       end.

Definition buffer_peek_ints (b : buffer_t) (bc : Z) : access Z :=
  buffer_peek_ints_at_position b (position b) bc.

Definition buffer_read_ints (b : buffer_t) (bc : Z) : access (Z * buffer_t) :=
  match buffer_peek_ints b bc with
  | Fault => Fault
  | Val res => Val (res, set_position b (u64 (position b + bc)))
  end.

Definition buffer_remaining (b : buffer_t) : Z := u64 (length_ b - position b).

(** ** Seeking *)

Inductive buffer_seek_direction_t :=
| BUFFER_SEEK_DIRECTION_START
| BUFFER_SEEK_DIRECTION_CURRENT
| BUFFER_SEEK_DIRECTION_END.

Definition seek_add (b : buffer_t) (p : Z) : buffer_t :=
  let b := set_position b (u64 (position b + p)) in
  if length_ b <? position b then set_length b (position b) else b.

(** [p] is a signed 64-bit number. *)
Definition buffer_seek (b : buffer_t) (p : Z) (direction : buffer_seek_direction_t) : bool * buffer_t :=
  match direction with
  | BUFFER_SEEK_DIRECTION_START =>
    if (p <? 0) || (capacity b <? p) then (false, b) else (true, seek_add (set_position b 0) p)
  | BUFFER_SEEK_DIRECTION_END =>
    if (0 <? p) || (i64 (p + i64 (capacity b)) <? 0) then (false, b)
    else (true, seek_add (set_position b (capacity b)) p)
  | BUFFER_SEEK_DIRECTION_CURRENT =>
    if (capacity b <? u64 (position b + p)) || (i64 (i64 (position b) + p) <? 0) then (false, b)
    else (true, seek_add b p)
  end.

(** ** Slices and views *)

(** [true] with the bytes written to the destination. *)
Definition buffer_write_slice_into (b : buffer_t) (pos len : Z) : access (option (list Z)) :=
  if length_ b <? pos then Val None else
  let len := if length_ b - pos <? len then length_ b - pos else len in
  if len =? 0 then Val None
  else match copy_out (data b) pos len with
       | Fault => Fault
       | Val bytes => Val (Some bytes)
       end.

(** The offset of the returned pointer. *)
Definition buffer_get_view_at_position (b : buffer_t) (pos len : Z) : option Z :=
  if length_ b <? u64 (pos + len) then None else Some pos.
