(* ===== verification/BufferProps.v ===== *)
(** * Byte buffers: the theorems

    Appending writes exactly the bytes at the position and grows the buffer
    as needed; what was appended is read back; integers are little-endian;
    seeking keeps the invariant. *)

From S2P Require Import Prelude Buffer.

(** The invariant of a buffer.  The position may lie behind the length. *)
Record buffer_wf (b : buffer_t) : Prop := {
  bw_cap : 1 <= capacity b < 2 ^ 63;
  bw_data : Z.of_nat (length (data b)) = capacity b;
  bw_len : 0 <= length_ b <= capacity b;
  bw_pos : 0 <= position b < 2 ^ 63;
}.

(** The bytes a buffer holds. *)
Definition contents (b : buffer_t) : list Z := take (Z.to_nat (length_ b)) (data b).

Lemma length_contents b : buffer_wf b -> Z.of_nat (length (contents b)) = length_ b.
Proof. intros []. unfold contents. rewrite length_take. lia. Qed.

Lemma length_zeros n : 0 <= n -> Z.of_nat (length (zeros n)) = n.
Proof. intros. unfold zeros. rewrite length_replicate. lia. Qed.

(** ** Growth *)

Lemma grow_spec fuel need : 0 <= need < 2 ^ 61 -> forall cap,
  1 <= cap < 2 ^ 63 -> need - cap <= Z.of_nat fuel ->
  exists c, grow fuel need cap = Some c /\ need <= c /\ cap <= c /\
    c <= Z.max cap (2 * need + 2 ^ 20) /\ (need <= cap -> c = cap).
Proof.
  intros Hneed. induction fuel as [|fuel IH]; intros cap Hcap Hf; cbn [grow];
    (destruct (Z.ltb_spec cap need); [|exists cap; split_and!; (done || lia)]); [lia|].
  change (Z.shiftl 1 20) with (2 ^ 20).
  set (c1 := if 2 ^ 20 <? cap then cap + 2 ^ 20 else cap * 2).
  assert (cap < c1 <= cap * 2 + 2 ^ 20 /\ c1 <= 2 * need + 2 ^ 20) as Hc1
    by (unfold c1; destruct (Z.ltb_spec (2 ^ 20) cap); lia).
  assert (u64 c1 = c1) as -> by (unfold u64; apply Z.mod_small; lia).
  destruct (IH c1) as (c & Hg & H1 & H2 & H3 & H4); [lia..|].
  exists c. split_and!; (done || lia).
Qed.

Lemma copy_in_val mem pos bytes :
  0 <= pos -> pos + Z.of_nat (length bytes) <= Z.of_nat (length mem) ->
  copy_in mem pos bytes =
    Val (take (Z.to_nat pos) mem ++ bytes ++ drop (Z.to_nat pos + length bytes) mem).
Proof.
  intros. unfold copy_in. destruct (Z.leb_spec 0 pos); [|lia].
  by destruct (Z.leb_spec (pos + Z.of_nat (length bytes)) (Z.of_nat (length mem))); [|lia].
Qed.

Lemma copy_out_val mem pos len :
  0 <= pos -> pos + len <= Z.of_nat (length mem) ->
  copy_out mem pos len = Val (take (Z.to_nat len) (drop (Z.to_nat pos) mem)).
Proof.
  intros. unfold copy_out. destruct (Z.leb_spec 0 pos); [|lia].
  by destruct (Z.leb_spec (pos + len) (Z.of_nat (length mem))); [|lia].
Qed.

(** Resizing keeps everything but the capacity. *)
Lemma resize_spec b len :
  buffer_wf b -> 0 <= len -> position b + len < 2 ^ 61 ->
  exists b', buffer_resize_if_need true b len = Resized b' /\ buffer_wf b' /\
    contents b' = contents b /\ length_ b' = length_ b /\ position b' = position b /\
    readonly b' = readonly b /\ position b + len <= capacity b' /\
    (position b + len <= capacity b -> b' = b) /\
    capacity b' <= Z.max (capacity b) (2 * (position b + len) + 2 ^ 20).
Proof.
  intros [Hcap Hdata Hlen Hpos] Hl Hb. unfold buffer_resize_if_need.
  assert (u64 (position b + len) = position b + len) as -> by (unfold u64; apply Z.mod_small; lia).
  destruct (grow_spec (Z.to_nat (position b + len)) (position b + len) ltac:(lia) (capacity b))
    as (c & -> & H1 & H2 & H3 & H4); [lia..|].
  destruct (Z.eqb_spec (capacity b) c) as [<-|Hne].
  { exists b. split_and!; (done || lia). }
  cbn [negb]. rewrite copy_out_val by lia. rewrite drop_0.
  change (take (Z.to_nat (length_ b)) (data b)) with (contents b).
  assert (Z.of_nat (length (contents b)) = length_ b) as El by (by apply length_contents).
  assert (Z.of_nat (length (zeros c)) = c) as Ez by (apply length_zeros; lia).
  rewrite copy_in_val by lia. simpl take. simpl app.
  eexists. split; [done|].
  assert (length (drop (length (contents b)) (zeros c))
          = (Z.to_nat c - length (contents b))%nat) as Ed.
  { rewrite length_drop. unfold zeros. rewrite length_replicate. lia. }
  split_and!; simpl; try (done || lia).
  - split; simpl; try lia. rewrite length_app, Ed. lia.
  - unfold contents at 1. simpl. rewrite take_app_length'; [done|lia].
Qed.

(** ** Appending *)

(** The bytes at [pos] replaced by [bytes]. *)
Definition splice (l : list Z) (pos : Z) (bytes : list Z) : list Z :=
  take (Z.to_nat pos) l ++ bytes ++ drop (Z.to_nat pos + length bytes) l.

Lemma append_at_spec b bytes :
  buffer_wf b -> position b <= length_ b ->
  position b + Z.of_nat (length bytes) <= capacity b ->
  exists b', append_at b bytes = Val (Some b') /\ buffer_wf b' /\
    contents b' = splice (contents b) (position b) bytes /\
    position b' = position b + Z.of_nat (length bytes) /\ readonly b' = readonly b /\
    capacity b' = capacity b /\
    length_ b' = Z.max (length_ b) (position b + Z.of_nat (length bytes)).
Proof.
  intros [Hcap Hdata Hlen Hpos] Hp Hfit. unfold append_at. rewrite copy_in_val by lia.
  set (n := length bytes) in *. set (p := Z.to_nat (position b)).
  assert (u64 (position b + Z.of_nat n) = position b + Z.of_nat n) as ->
    by (unfold u64; apply Z.mod_small; lia).
  set (d := take p (data b) ++ bytes ++ drop (p + n) (data b)).
  assert (length d = length (data b)) as Ed.
  { unfold d. rewrite !length_app, length_take, length_drop. lia. }
  assert (take p (take (Z.to_nat (length_ b)) (data b)) = take p (data b)) as Et
    by (rewrite take_take; f_equal; lia).
  eexists. split; [done|]. simpl.
  destruct (Z.ltb_spec (length_ b) (position b + Z.of_nat n)) as [Hlt|Hge]; simpl.
  - split_and!; try (done || lia).
    + split; simpl; lia.
    + unfold contents, splice, d. simpl. fold p n. rewrite Et.
      rewrite (drop_ge (take _ (data b))) by (rewrite length_take; lia).
      rewrite app_nil_r, app_assoc. apply take_app_length'.
      rewrite length_app, length_take. lia.
  - split_and!; try (done || lia).
    + split; simpl; lia.
    + unfold contents, splice, d. simpl. fold p n. rewrite Et.
      rewrite !app_assoc, take_app_ge by (rewrite length_app, length_take; lia).
      f_equal. rewrite take_drop_commute, length_app, length_take. fold n.
      do 2 f_equal. lia.
Qed.

(** C16.  Appending to a writable buffer with memory available returns, keeps
    the invariant, replaces exactly the bytes from the position on by the
    appended ones, extends the contents if they reach behind the end, and
    advances the position. *)
Theorem append_bytes_correct b bytes :
  buffer_wf b -> readonly b = false -> position b <= length_ b ->
  position b + Z.of_nat (length bytes) < 2 ^ 61 ->
  exists b', buffer_append_bytes true b bytes = Some (Val (Some b')) /\ buffer_wf b' /\
    contents b' = splice (contents b) (position b) bytes /\
    position b' = position b + Z.of_nat (length bytes) /\
    length_ b' = Z.max (length_ b) (position b + Z.of_nat (length bytes)).
Proof.
  intros Hwf Hro Hp Hb. unfold buffer_append_bytes. rewrite Hro.
  destruct (resize_spec b (Z.of_nat (length bytes)))
    as (b1 & -> & Hwf1 & Hc1 & Hl1 & Hp1 & _ & Hcap1 & _); [done|lia|lia|].
  destruct (append_at_spec b1 bytes) as (b2 & -> & Hwf2 & Hc2 & Hp2 & _ & _ & Hl2); [done|lia|lia|].
  exists b2. rewrite Hc2, Hc1, Hp2, Hl2, Hl1, Hp1. done.
Qed.

(** An append that cannot be done changes nothing: a read-only buffer
    refuses, and so does one that needs to grow without memory. *)
Theorem append_bytes_error b bytes :
  buffer_wf b -> position b + Z.of_nat (length bytes) < 2 ^ 61 ->
  (readonly b = true -> buffer_append_bytes true b bytes = Some (Val None)) /\
  (readonly b = false -> capacity b < position b + Z.of_nat (length bytes) ->
   buffer_append_bytes false b bytes = Some (Val None)).
Proof.
  intros [Hcap Hdata Hlen Hpos] Hb. unfold buffer_append_bytes, buffer_resize_if_need.
  split; [by intros ->|]. intros -> Hlt.
  assert (u64 (position b + Z.of_nat (length bytes)) = position b + Z.of_nat (length bytes)) as ->
    by (unfold u64; apply Z.mod_small; lia).
  destruct (grow_spec (Z.to_nat (position b + Z.of_nat (length bytes)))
    (position b + Z.of_nat (length bytes)) ltac:(lia) (capacity b))
    as (c & -> & H1 & H2 & _ & _); [lia..|].
  destruct (Z.eqb_spec (capacity b) c); [lia|done].
Qed.

(** Round trip: bytes appended at the end of a buffer are read back by
    seeking to where they begin and reading as many bytes. *)
Theorem append_read_roundtrip b bytes :
  buffer_wf b -> readonly b = false -> position b = length_ b -> bytes <> [] ->
  position b + Z.of_nat (length bytes) < 2 ^ 61 ->
  exists b1 b2 b3, buffer_append_bytes true b bytes = Some (Val (Some b1)) /\
    contents b1 = contents b ++ bytes /\
    buffer_seek b1 (length_ b) BUFFER_SEEK_DIRECTION_START = (true, b2) /\
    buffer_get_bytes b2 (Z.of_nat (length bytes)) = Val (Some bytes, b3) /\
    contents b3 = contents b ++ bytes.
Proof.
  intros Hwf Hro Hp Hne Hb. unfold buffer_append_bytes. rewrite Hro.
  assert (0 < Z.of_nat (length bytes)) as Hn by (destruct bytes; [done|simpl; lia]).
  destruct (resize_spec b (Z.of_nat (length bytes)))
    as (b1 & -> & Hwf1 & Hc1 & Hl1 & Hp1 & _ & Hcap1 & _); [done|lia|lia|].
  destruct (append_at_spec b1 bytes) as (b2 & -> & Hwf2 & Hc2 & Hp2 & _ & Ecap & Hl2); [done|lia|lia|].
  assert (contents b2 = contents b ++ bytes) as Econt.
  { rewrite Hc2, Hc1. unfold splice. pose proof (length_contents b Hwf).
    rewrite take_ge, drop_ge by lia. by rewrite app_nil_r. }
  destruct Hwf as [Hcap Hdata Hlen Hpos]. pose proof Hwf2 as [Hcap2 Hdata2 Hlen2 Hpos2].
  set (b3 := set_position b2 (length_ b)).
  exists b2, b3, (set_position b3 (length_ b + Z.of_nat (length bytes))).
  split_and!; [done|done| | |done].
  - unfold buffer_seek. destruct (Z.ltb_spec (length_ b) 0); [lia|].
    destruct (Z.ltb_spec (capacity b2) (length_ b)); [lia|]. cbn [orb]. unfold seek_add, b3.
    cbn [position set_position length_]. rewrite Z.add_0_l.
    assert (u64 (length_ b) = length_ b) as -> by (unfold u64; apply Z.mod_small; lia).
    by destruct (Z.ltb_spec (length_ b2) (length_ b)); [lia|].
  - unfold buffer_get_bytes. destruct (Z.eqb_spec (Z.of_nat (length bytes)) 0); [lia|].
    simpl. destruct (Z.leb_spec (length_ b2) (length_ b)); [lia|].
    rewrite copy_out_val by lia. do 2 f_equal.
    + f_equal. assert (data b2 = (contents b ++ bytes) ++ drop (Z.to_nat (length_ b2)) (data b2)) as ->.
      { rewrite <- Econt. unfold contents. by rewrite take_drop. }
      pose proof (length_contents b (Build_buffer_wf b Hcap Hdata Hlen Hpos)).
      rewrite <- app_assoc, drop_app_length' by lia. rewrite Nat2Z.id. by rewrite take_app_length.
    + unfold b3. simpl. f_equal. unfold u64. apply Z.mod_small. lia.
Qed.

(** ** Integers *)

Lemma le_combine_app l k :
  le_combine (l ++ k) = le_combine l + 256 ^ Z.of_nat (length l) * le_combine k.
Proof.
  induction l as [|x l IH]; [simpl; lia|]. cbn [le_combine app length].
  rewrite IH, Nat2Z.inj_succ, Z.pow_succ_r by lia. ring.
Qed.

Lemma le_combine_bound l : Forall in_u8 l -> 0 <= le_combine l < 256 ^ Z.of_nat (length l).
Proof.
  induction 1 as [|x l Hx Hl IH]; [simpl; lia|]. cbn [le_combine length].
  rewrite Nat2Z.inj_succ, Z.pow_succ_r by lia. unfold in_u8 in Hx. lia.
Qed.

Lemma le_combine_mask l n :
  Forall in_u8 l -> (n <= length l)%nat ->
  Z.land (le_combine l) (Z.ones (8 * Z.of_nat n)) = le_combine (take n l).
Proof.
  intros Hl Hn. rewrite Z.land_ones by lia. rewrite <- (take_drop n l) at 1.
  rewrite le_combine_app, length_take, Nat.min_l by done.
  rewrite Z.pow_mul_r by lia. change (2 ^ 8) with 256.
  rewrite (Z.mul_comm (256 ^ _)), Z.mod_add by lia. apply Z.mod_small.
  pose proof (le_combine_bound (take n l)) as Hb. rewrite length_take, Nat.min_l in Hb by done.
  apply Hb. by apply Forall_take.
Qed.

(** [buffer_peek_ints_at_position] reads [bc] bytes as a little-endian
    integer, provided eight bytes of memory lie behind the position. *)
Theorem peek_ints_little_endian b p bc :
  buffer_wf b -> Forall in_u8 (data b) -> 1 <= bc <= 8 -> 0 <= p -> p + bc <= length_ b ->
  p + 8 <= capacity b ->
  buffer_peek_ints_at_position b p bc =
    Val (le_combine (take (Z.to_nat bc) (drop (Z.to_nat p) (contents b)))).
Proof.
  intros [Hcap Hdata Hlen Hpos] Hu Hbc Hp Hend H8. unfold buffer_peek_ints_at_position.
  destruct (Z.leb_spec bc 0); [lia|]. destruct (Z.ltb_spec 8 bc); [lia|]. cbn [orb].
  assert (u64 (p + bc) = p + bc) as -> by (unfold u64; apply Z.mod_small; lia).
  destruct (Z.ltb_spec (length_ b) (p + bc)); [lia|]. rewrite copy_out_val by lia. f_equal.
  replace (8 * bc) with (8 * Z.of_nat (Z.to_nat bc)) by lia.
  rewrite le_combine_mask.
  - f_equal. unfold contents.
    replace (Z.to_nat (length_ b)) with (Z.to_nat p + (Z.to_nat (length_ b) - Z.to_nat p))%nat by lia.
    rewrite <- take_drop_commute, !take_take. f_equal. lia.
  - by apply Forall_take, Forall_drop.
  - rewrite length_take, length_drop. lia.
Qed.

(** ** Seeking *)

Definition seek_target (b : buffer_t) (p : Z) (dir : buffer_seek_direction_t) : Z :=
  match dir with
  | BUFFER_SEEK_DIRECTION_START => p
  | BUFFER_SEEK_DIRECTION_CURRENT => position b + p
  | BUFFER_SEEK_DIRECTION_END => capacity b + p
  end.

Lemma i64_small z : - 2 ^ 63 <= z < 2 ^ 63 -> i64 z = z.
Proof.
  intros Hz. unfold i64. destruct (decide (0 <= z)).
  - rewrite Z.mod_small by lia. case_match; lia.
  - rewrite <- (Z_mod_plus_full z 1), Z.mod_small by lia. case_match; lia.
Qed.

(** [buffer_seek] succeeds exactly when the target lies between the
    start and the end of the buffer's memory; it then moves the position
    there, and extends the length if the target is behind it.  Otherwise
    nothing changes. *)
Theorem seek_correct b p dir :
  buffer_wf b -> position b <= capacity b -> - 2 ^ 62 <= p < 2 ^ 62 -> capacity b < 2 ^ 62 ->
  buffer_seek b p dir =
    let t := seek_target b p dir in
    if (0 <=? t) && (t <=? capacity b)
    then (true, set_length (set_position b t) (Z.max (length_ b) t)) else (false, b).
Proof.
  intros [Hcap Hdata Hlen Hpos] Hpc Hp Hc2.
  assert (forall q t, 0 <= t <= capacity b -> u64 (q + p) = t ->
    seek_add (set_position b q) p = set_length (set_position b t) (Z.max (length_ b) t)) as Hadd.
  { intros q t Ht E. unfold seek_add. cbn [position set_position length_]. rewrite E.
    destruct (Z.ltb_spec (length_ b) t).
    - by rewrite Z.max_r by lia.
    - rewrite Z.max_l by lia. by destruct b. }
  destruct dir; cbn [buffer_seek seek_target]; cbv zeta.
  - destruct (Z.ltb_spec p 0), (Z.leb_spec 0 p), (Z.leb_spec p (capacity b)),
      (Z.ltb_spec (capacity b) p); try lia; cbn [orb andb]; try done.
    f_equal. apply Hadd; [lia|]. unfold u64. apply Z.mod_small. lia.
  - rewrite !i64_small by (rewrite ?i64_small by lia; lia).
    destruct (Z.leb_spec 0 (position b + p)).
    + assert (u64 (position b + p) = position b + p) as E by (unfold u64; apply Z.mod_small; lia).
      rewrite E. destruct (Z.ltb_spec (capacity b) (position b + p)),
        (Z.ltb_spec (position b + p) 0), (Z.leb_spec (position b + p) (capacity b)); try lia;
        cbn [orb andb]; try done.
      f_equal. rewrite <- (Hadd (position b)); [by destruct b|lia|done].
    + destruct (Z.ltb_spec (position b + p) 0); [|lia]. by rewrite orb_true_r.
  - rewrite !i64_small by (rewrite ?i64_small by lia; lia).
    destruct (Z.ltb_spec 0 p), (Z.ltb_spec (p + capacity b) 0), (Z.leb_spec 0 (capacity b + p)),
      (Z.leb_spec (capacity b + p) (capacity b)); try lia; cbn [orb andb]; try done.
    f_equal. apply Hadd; [lia|]. unfold u64. apply Z.mod_small. lia.
Qed.

(** ** A concrete buffer *)

(** Four bytes of memory that hold "AB". *)
Definition demo_buffer : buffer_t := mk_buffer 4 2 2 false 0 [65; 66; 0; 0].
Definition demo_reader : buffer_t := mk_buffer 16 10 0 true 0 [1; 2; 3; 4; 5; 6; 7; 8; 9; 10; 0; 0; 0; 0; 0; 0].

Lemma demo_buffer_wf : buffer_wf demo_buffer.
Proof. split; simpl; lia. Qed.
Lemma demo_reader_wf : buffer_wf demo_reader.
Proof. split; simpl; lia. Qed.

Lemma append_bytes_witness :
  exists b', buffer_append_bytes true demo_buffer [67; 68; 69] = Some (Val (Some b')) /\ buffer_wf b' /\
    contents b' = splice (contents demo_buffer) (position demo_buffer) [67; 68; 69] /\
    position b' = 5 /\ length_ b' = 5.
Proof.
  apply (append_bytes_correct demo_buffer [67; 68; 69]); [apply demo_buffer_wf|reflexivity|simpl; lia..].
Defined.

Lemma append_bytes_error_witness :
  (readonly demo_buffer = true -> buffer_append_bytes true demo_buffer [67; 68; 69] = Some (Val None)) /\
  (readonly demo_buffer = false -> capacity demo_buffer < position demo_buffer + 3 ->
   buffer_append_bytes false demo_buffer [67; 68; 69] = Some (Val None)).
Proof.
  apply (append_bytes_error demo_buffer [67; 68; 69]); [apply demo_buffer_wf|simpl; lia].
Defined.

Lemma append_read_witness :
  exists b1 b2 b3, buffer_append_bytes true demo_buffer [67; 68; 69] = Some (Val (Some b1)) /\
    contents b1 = contents demo_buffer ++ [67; 68; 69] /\
    buffer_seek b1 2 BUFFER_SEEK_DIRECTION_START = (true, b2) /\
    buffer_get_bytes b2 3 = Val (Some [67; 68; 69], b3) /\
    contents b3 = contents demo_buffer ++ [67; 68; 69].
Proof.
  apply (append_read_roundtrip demo_buffer [67; 68; 69]);
    [apply demo_buffer_wf|reflexivity|reflexivity|discriminate|simpl; lia].
Defined.

Lemma peek_ints_witness :
  buffer_peek_ints_at_position demo_reader 1 4
  = Val (le_combine (take 4 (drop 1 (contents demo_reader)))).
Proof.
  apply (peek_ints_little_endian demo_reader 1 4); [apply demo_reader_wf| |simpl; lia..].
  repeat (apply Forall_cons_2; [unfold in_u8; lia|]). apply Forall_nil_2.
Defined.

Lemma seek_witness :
  buffer_seek demo_buffer (-1) BUFFER_SEEK_DIRECTION_CURRENT =
    let t := seek_target demo_buffer (-1) BUFFER_SEEK_DIRECTION_CURRENT in
    if (0 <=? t) && (t <=? capacity demo_buffer)
    then (true, set_length (set_position demo_buffer t) (Z.max (length_ demo_buffer) t))
    else (false, demo_buffer).
Proof.
  apply (seek_correct demo_buffer (-1) BUFFER_SEEK_DIRECTION_CURRENT);
    [apply demo_buffer_wf|simpl; lia..].
Defined.

(** ** Behaviour at odds with the code's intent *)

(** [buffer_get_bytes] does not compare the requested length with what is
    left: with two bytes left in a full buffer, a request for eight reads
    behind the buffer's memory. *)
Theorem get_bytes_overread :
  buffer_get_bytes (mk_buffer 4 4 2 false 0 [65; 66; 67; 68]) 8 = Fault.
Proof. reflexivity. Qed.

(** Peeking one byte reads eight, also when fewer lie in the memory. *)
Theorem peek_ints_overread :
  buffer_peek_ints_at_position (mk_buffer 4 4 0 false 0 [65; 66; 67; 68]) 0 1 = Fault.
Proof. reflexivity. Qed.

(** The bound of a view wraps around: the view of one byte at the last
    64-bit offset is granted for every buffer. *)
Theorem get_view_wraps :
  buffer_get_view_at_position (mk_buffer 4 4 0 false 0 [65; 66; 67; 68]) (2 ^ 64 - 1) 1
  = Some (2 ^ 64 - 1).
Proof. reflexivity. Qed.

(** A buffer that encapsulates an empty block never finishes growing when it
    is made writable: doubling the capacity 0 makes no progress. *)
Theorem grow_zero_capacity_loops fuel : grow fuel 1 0 = None.
Proof. induction fuel as [|fuel IH]; [done|]. exact IH. Qed.
