(* ===== verification/Time.v ===== *)
(** * Calendar time ([cc/lib/time.64.c])

    Seconds since 1970 to a date and back.  Reads outside the table of month
    lengths give [None]. *)

From S2P Require Import Prelude.

Definition TIME_TIMESTAMP_START_YEAR : Z := 1970.
Definition TIME_SECONDS_OF_MINUTE : Z := 60.
Definition TIME_SECONDS_OF_HOUR : Z := 3600.
Definition TIME_SECONDS_OF_DAY : Z := 86400.
Definition TIME_DAYS_AT_YEAR : Z := 365.
Definition TIME_DAYS_AT_LEAP_YEAR : Z := 366.

(** [timeparsed_t]: [year] has 16 bits, the other fields 8. *)
Record timeparsed_t := mk_time {
  year : Z; month : Z; day : Z; hours : Z; minutes : Z; seconds : Z;
}.

#[export] Instance timeparsed_eq_dec : EqDecision timeparsed_t.
Proof. solve_decision. Defined.

Definition time_days_of_month : list Z := [31; 28; 31; 30; 31; 30; 31; 31; 30; 31; 30; 31].

(** [time_days_of_month[i]]. *)
Definition days_of_month (i : Z) : option Z :=
  if i <? 0 then None else time_days_of_month !! Z.to_nat i.

Definition time_is_leap (y : Z) : bool :=
  (y mod 400 =? 0) || ((y mod 4 =? 0) && negb (y mod 100 =? 0)).

(** The loop over the years, with the year in 16 bits; every iteration takes at
    least 365 days off. *)
Fixpoint parse_years (fuel : nat) (days y : Z) : option (Z * Z) :=
  if TIME_DAYS_AT_YEAR <=? days then
    match fuel with
    | O => None
    | S fuel =>
      parse_years fuel
        (days - (if time_is_leap y then TIME_DAYS_AT_LEAP_YEAR else TIME_DAYS_AT_YEAR))
        (u16 (y + 1))
    end
  else Some (days, y).

(** The two loops over the months; [flag] is set in a leap year. *)
Fixpoint parse_months (fuel : nat) (flag : bool) (extra_days mon index : Z) : option (Z * Z) :=
  match (if flag && (index =? 1) then Some 29 else days_of_month index) with
  | None => None
  | Some n =>
    if extra_days - n <=? 0 then Some (extra_days, mon)
    else
      match fuel with
      | O => None
      | S fuel => parse_months fuel flag (extra_days - n) (u8 (mon + 1)) (index + 1)
      end
  end.

Definition parse_time (t : Z) : option timeparsed_t :=
  let days_till_now := t / TIME_SECONDS_OF_DAY in
  let extra_time := t mod TIME_SECONDS_OF_DAY in
  '(days_till_now, y) ← parse_years (Z.to_nat days_till_now) days_till_now TIME_TIMESTAMP_START_YEAR;
  let flag := time_is_leap y in
  '(extra_days, mon) ← parse_months 12 flag (days_till_now + 1) 0 0;
  '(mon, d) ←
    (if 0 <? extra_days then Some (u8 (mon + 1), u8 extra_days)
     else if (mon =? 2) && flag then Some (mon, 29)
     else n ← days_of_month (mon - 1); Some (mon, u8 n));
  Some (mk_time y mon d (u8 (extra_time / TIME_SECONDS_OF_HOUR))
          (u8 ((extra_time mod TIME_SECONDS_OF_HOUR) / TIME_SECONDS_OF_MINUTE))
          (u8 ((extra_time mod TIME_SECONDS_OF_HOUR) mod TIME_SECONDS_OF_MINUTE))).

(** The months before [n + 1], from index [i] on. *)
Fixpoint add_months (n : nat) (i days : Z) : option Z :=
  match n with
  | O => Some days
  | S n => m ← days_of_month i; add_months n (i + 1) (days + m)
  end.

(** The loop down to 1970. *)
Fixpoint add_years (fuel : nat) (y days : Z) : Z :=
  match fuel with
  | O => days
  | S fuel =>
    if TIME_TIMESTAMP_START_YEAR <=? y then
      add_years fuel (y - 1)
        (days + (if time_is_leap y then TIME_DAYS_AT_LEAP_YEAR else TIME_DAYS_AT_YEAR))
    else days
  end.

Definition timeparsed_to_time (tp : timeparsed_t) : option Z :=
  let t := u64 (seconds tp) in
  let t := u64 (t + minutes tp * TIME_SECONDS_OF_MINUTE) in
  let t := u64 (t + hours tp * TIME_SECONDS_OF_HOUR) in
  let days := day tp - 1 in
  days ← add_months (Z.to_nat (month tp - 1)) 0 days;
  let days := if time_is_leap (year tp) && (2 <? month tp) then days + 1 else days in
  let days := add_years (Z.to_nat (year tp)) (year tp - 1) days in
  Some (u64 (t + days * TIME_SECONDS_OF_DAY)).

(** ** Days of years *)

Definition year_len (y : Z) : Z :=
  if time_is_leap y then TIME_DAYS_AT_LEAP_YEAR else TIME_DAYS_AT_YEAR.

(** The days of [n] years from [y] on. *)
Fixpoint span (n : nat) (y : Z) : Z :=
  match n with
  | O => 0
  | S n => year_len y + span n (y + 1)
  end.

Lemma year_len_range y : 365 <= year_len y <= 366.
Proof. unfold year_len, TIME_DAYS_AT_LEAP_YEAR, TIME_DAYS_AT_YEAR. case_match; lia. Qed.

Lemma span_range n y : 365 * Z.of_nat n <= span n y <= 366 * Z.of_nat n.
Proof.
  revert y; induction n as [|n IH]; intros y; [done|]. cbn [span].
  pose proof (year_len_range y). specialize (IH (y + 1)). lia.
Qed.

Lemma span_snoc n y : span (S n) y = span n y + year_len (y + Z.of_nat n).
Proof.
  revert y; induction n as [|n IH]; intros y; [simpl; rewrite !Z.add_0_r; lia|].
  cbn [span] in *. rewrite IH. replace (y + 1 + Z.of_nat n) with (y + Z.of_nat (S n)) by lia. lia.
Qed.

Lemma parse_years_span n : forall fuel y d,
  0 <= d < 365 -> 0 <= y -> y + Z.of_nat n < 2 ^ 16 -> (n <= fuel)%nat ->
  parse_years fuel (span n y + d) y = Some (d, y + Z.of_nat n).
Proof.
  induction n as [|n IH]; intros fuel y d Hd Hy Hn Hf.
  - rewrite Z.add_0_l, Z.add_0_r. destruct fuel; cbn [parse_years]; unfold TIME_DAYS_AT_YEAR;
      by destruct (Z.leb_spec 365 d); [lia|].
  - destruct fuel as [|fuel]; [lia|]. cbn [parse_years span].
    pose proof (year_len_range y). pose proof (span_range n (y + 1)).
    unfold TIME_DAYS_AT_YEAR at 1. destruct (Z.leb_spec 365 (year_len y + span n (y + 1) + d)); [|lia].
    fold (year_len y). replace (_ - year_len y) with (span n (y + 1) + d) by lia.
    assert (u16 (y + 1) = y + 1) as -> by (unfold u16; apply Z.mod_small; lia).
    rewrite IH by lia. do 2 f_equal. lia.
Qed.

Lemma add_years_span n : forall fuel d,
  (n <= fuel)%nat -> add_years fuel (1970 + Z.of_nat n - 1) d = d + span n 1970.
Proof.
  induction n as [|n IH]; intros fuel d Hf.
  - destruct fuel; simpl; lia.
  - destruct fuel as [|fuel]; [lia|]. cbn [add_years]. unfold TIME_TIMESTAMP_START_YEAR.
    destruct (Z.leb_spec 1970 (1970 + Z.of_nat (S n) - 1)); [|lia].
    fold (year_len (1970 + Z.of_nat (S n) - 1)).
    replace (1970 + Z.of_nat (S n) - 1 - 1) with (1970 + Z.of_nat n - 1) by lia.
    rewrite IH, span_snoc by lia.
    replace (1970 + Z.of_nat (S n) - 1) with (1970 + Z.of_nat n) by lia. lia.
Qed.

(** ** Days of months *)

Definition month_len (flag : bool) (m : Z) : Z :=
  if flag && (m =? 2) then 29 else default 0 (days_of_month (m - 1)).

(** Day [d] of month [m] as a day of the year, from 0 on. *)
Definition day_of_year (flag : bool) (m d : Z) : option Z :=
  n ← add_months (Z.to_nat (m - 1)) 0 (d - 1);
  Some (if flag && (2 <? m) then n + 1 else n).

(** All days of a common and of a leap year are found again. *)
Definition months_check (flag : bool) (m d : Z) : bool :=
  match day_of_year flag m d with
  | Some n => (0 <=? n) && (n <? (if flag then 366 else 365)) &&
              bool_decide (parse_months 12 flag (n + 1) 0 0 = Some (d, m - 1)) &&
              ((n <? 365) || ((m =? 12) && (d =? 31)))
  | None => false
  end.

Lemma months_checked flag : forallb (fun m => forallb (months_check flag m)
  (seqZ 1 (month_len flag m))) (seqZ 1 12) = true.
Proof. destruct flag; vm_compute; reflexivity. Qed.

Lemma months_inv flag m d :
  1 <= m <= 12 -> 1 <= d <= month_len flag m -> months_check flag m d = true.
Proof.
  intros Hm Hd. pose proof (months_checked flag) as H. rewrite forallb_forall in H.
  specialize (H m). rewrite forallb_forall in H. apply H; apply list_elem_of_In, elem_of_seqZ; lia.
Qed.

Lemma month_len_31 flag m : 1 <= m <= 12 -> month_len flag m <= 31.
Proof.
  intros Hm. assert (forallb (fun m => month_len flag m <=? 31) (seqZ 1 12) = true) as H
    by (by destruct flag).
  rewrite forallb_forall in H. apply Z.leb_le, H, list_elem_of_In, elem_of_seqZ. lia.
Qed.

(** ** The theorems *)

Record valid_date (tp : timeparsed_t) : Prop := {
  vd_year : 1970 <= year tp < 2 ^ 16;
  vd_month : 1 <= month tp <= 12;
  vd_day : 1 <= day tp <= month_len (time_is_leap (year tp)) (month tp);
  vd_hours : 0 <= hours tp < 24;
  vd_minutes : 0 <= minutes tp < 60;
  vd_seconds : 0 <= seconds tp < 60;
}.

(** New Year's Eve of a leap year. *)
Definition leap_eve (tp : timeparsed_t) : bool :=
  time_is_leap (year tp) && (month tp =? 12) && (day tp =? 31).

Definition seconds_of_day (tp : timeparsed_t) : Z := seconds tp + minutes tp * 60 + hours tp * 3600.

Lemma to_time_days tp :
  valid_date tp ->
  exists n, timeparsed_to_time tp =
      Some (seconds_of_day tp + (n + span (Z.to_nat (year tp - 1970)) 1970) * 86400) /\
    day_of_year (time_is_leap (year tp)) (month tp) (day tp) = Some n /\ 0 <= n < 366.
Proof.
  intros [Hy Hm Hd Hh Hmi Hs]. pose proof (months_inv _ _ _ Hm Hd) as Hc.
  unfold months_check, day_of_year in *. unfold timeparsed_to_time.
  destruct (add_months (Z.to_nat (month tp - 1)) 0 (day tp - 1)) as [n0|]; [|done]. cbn [mbind option_bind] in Hc |- *.
  set (n := if time_is_leap (year tp) && (2 <? month tp) then n0 + 1 else n0) in *.
  apply andb_prop in Hc as [[[H1%Z.leb_le H2%Z.ltb_lt]%andb_prop _]%andb_prop _].
  exists n. assert (0 <= n < 366) as Hn by (split; [lia|]; destruct (time_is_leap (year tp)); lia).
  split_and!; [|done|lia|lia]. f_equal.
  replace (year tp - 1) with (1970 + Z.of_nat (Z.to_nat (year tp - 1970)) - 1) by lia.
  rewrite add_years_span by lia. pose proof (span_range (Z.to_nat (year tp - 1970)) 1970).
  unfold seconds_of_day, u64, TIME_SECONDS_OF_MINUTE, TIME_SECONDS_OF_HOUR, TIME_SECONDS_OF_DAY.
  rewrite (Z.mod_small (seconds tp)) by lia.
  rewrite (Z.mod_small (seconds tp + _)) by lia.
  rewrite (Z.mod_small (seconds tp + _ + _)) by lia. rewrite Z.mod_small; lia.
Qed.

(** C17.  Round trip: a valid date converted to seconds and back gives the same
    date, for every year up to 65535 and every second of every day except the
    last day of a leap year. *)
Theorem time_roundtrip tp :
  valid_date tp -> leap_eve tp = false ->
  exists t, timeparsed_to_time tp = Some t /\ parse_time t = Some tp.
Proof.
  intros Hv Hle. destruct (to_time_days tp Hv) as (n & -> & Hn & Hn2). eexists. split; [done|].
  destruct Hv as [Hy Hm Hd Hh Hmi Hs]. pose proof (months_inv _ _ _ Hm Hd) as Hc.
  unfold months_check in Hc. rewrite Hn in Hc.
  apply andb_prop in Hc as [[_ Hpm%bool_decide_eq_true_1]%andb_prop Heve].
  assert (n < 365) as Hn3.
  { apply orb_prop in Heve as [H%Z.ltb_lt|[H1 H2]%andb_prop]; [done|].
    unfold leap_eve in Hle. rewrite H1, H2, !andb_true_r in Hle.
    pose proof (months_inv _ _ _ Hm Hd) as Hc. unfold months_check in Hc.
    rewrite Hn, Hle in Hc. apply andb_prop in Hc as [[[_ Hlt%Z.ltb_lt]%andb_prop _]%andb_prop _]. done. }
  set (sp := span (Z.to_nat (year tp - 1970)) 1970).
  pose proof (span_range (Z.to_nat (year tp - 1970)) 1970) as Hsp. fold sp in Hsp.
  assert (0 <= seconds_of_day tp < 86400) as Hsd by (unfold seconds_of_day; lia).
  unfold parse_time, TIME_SECONDS_OF_DAY. rewrite Z.div_add, Z.mod_add by lia.
  rewrite (Z.div_small (seconds_of_day tp)), (Z.mod_small (seconds_of_day tp)), Z.add_0_l by lia.
  rewrite (Z.add_comm n sp). unfold TIME_TIMESTAMP_START_YEAR, sp.
  rewrite parse_years_span by lia.
  replace (1970 + Z.of_nat (Z.to_nat (year tp - 1970))) with (year tp) by lia.
  cbn [mbind option_bind]. rewrite Hpm. cbn [mbind option_bind].
  destruct (Z.ltb_spec 0 (day tp)); [|lia]. cbn [mbind option_bind].
  assert (day tp <= 31) as Hd31 by (pose proof (month_len_31 (time_is_leap (year tp)) (month tp) Hm); lia).
  unfold seconds_of_day, u8, TIME_SECONDS_OF_HOUR, TIME_SECONDS_OF_MINUTE. f_equal. destruct tp as [y mo d h mi s].
  simpl in *. f_equal; rewrite ?(Z.mod_small _ (2 ^ 8)); Z.to_euclidean_division_equations; lia.
Qed.

Definition demo_date : timeparsed_t := mk_time 2024 2 29 23 59 58.

Lemma time_roundtrip_witness :
  exists t, timeparsed_to_time demo_date = Some t /\ parse_time t = Some demo_date.
Proof.
  apply (time_roundtrip demo_date); [|reflexivity].
  split; cbn [year month day hours minutes seconds demo_date]; try lia.
  split; vm_compute; discriminate.
Defined.

(** The loop over the years takes a leap year whose last day is today as
    passed, and ends one day before the next year. *)
Lemma parse_years_eve n : forall fuel y,
  0 <= y -> y + Z.of_nat n + 1 < 2 ^ 16 -> (S n <= fuel)%nat ->
  time_is_leap (y + Z.of_nat n) = true ->
  parse_years fuel (span n y + 365) y = Some (-1, y + Z.of_nat n + 1).
Proof.
  induction n as [|n IH]; intros fuel y Hy Hn Hf Hl; (destruct fuel as [|fuel]; [lia|]);
    cbn [parse_years span]; unfold TIME_DAYS_AT_YEAR at 1.
  - rewrite Z.add_0_r in *. rewrite Hl. simpl.
    assert (u16 (y + 1) = y + 1) as -> by (unfold u16; apply Z.mod_small; lia). by destruct fuel.
  - pose proof (year_len_range y). pose proof (span_range n (y + 1)).
    destruct (Z.leb_spec 365 (year_len y + span n (y + 1) + 365)); [|lia].
    fold (year_len y). replace (_ - year_len y) with (span n (y + 1) + 365) by lia.
    assert (u16 (y + 1) = y + 1) as -> by (unfold u16; apply Z.mod_small; lia).
    replace (y + Z.of_nat (S n)) with (y + 1 + Z.of_nat n) in * by lia. apply IH; (done || lia).
Qed.

(** The last day of every leap year is not found: [parse_time] stops one day
    before the first month and reads the table of month lengths at -1. *)
Theorem leap_eve_out_of_bounds tp :
  valid_date tp -> leap_eve tp = true -> year tp < 2 ^ 16 - 1 ->
  exists t, timeparsed_to_time tp = Some t /\ parse_time t = None.
Proof.
  intros Hv Hle Hlt. destruct (to_time_days tp Hv) as (n & -> & Hn & Hn2). eexists. split; [done|].
  destruct Hv as [Hy Hm Hd Hh Hmi Hs].
  apply andb_prop in Hle as [[Hl Em%Z.eqb_eq]%andb_prop Ed%Z.eqb_eq].
  rewrite Hl, Em, Ed in Hn. vm_compute in Hn. injection Hn as <-.
  set (k := Z.to_nat (year tp - 1970)). pose proof (span_range k 1970) as Hsp.
  assert (0 <= seconds_of_day tp < 86400) as Hsd by (unfold seconds_of_day; lia).
  unfold parse_time, TIME_SECONDS_OF_DAY. rewrite Z.div_add, Z.mod_add by lia.
  rewrite (Z.div_small (seconds_of_day tp)), Z.add_0_l by lia. rewrite (Z.add_comm 365).
  unfold TIME_TIMESTAMP_START_YEAR. rewrite parse_years_eve; try lia.
  - cbn [mbind option_bind]. by destruct (time_is_leap (1970 + Z.of_nat k + 1)).
  - by replace (1970 + Z.of_nat k) with (year tp) by lia.
Qed.
