(* ===== verification/Varint.v ===== *)
(** * Variable length integers ([cc/lib/varint.64.c])

    A 64-bit number as groups of seven bits, most significant group first,
    with the top bit set in all bytes but the last. *)

From S2P Require Import Prelude.

(** The loop of [varint_encode]: the bytes are written from the end of a block
    of ten bytes towards its begin, so each new byte goes in front; [None]
    would be a write in front of the block. *)
Fixpoint encode_loop (room : nat) (num tmp_size : Z) (written : list Z) : option (list Z * Z) :=
  match room with
  | O => None
  | S room =>
    let tmp_size := i8 (tmp_size + 1) in
    let more := if 1 <? tmp_size then 0x80 else 0 in
    if num <? 128 then Some (u8 (Z.lor num more) :: written, tmp_size)
    else encode_loop room (Z.shiftr num 7) tmp_size (u8 (Z.lor (Z.land num 0x7F) more) :: written)
  end.

Definition varint_encode (num : Z) : option (list Z * Z) := encode_loop 10 num 0 [].

(** The loop of [varint_decode] behind byte [b]; [None] is a read behind the
    data. *)
Fixpoint decode_loop (b : Z) (l : list Z) (res size : Z) : option (Z * Z) :=
  if flag_set b 0x80 then
    match l with
    | [] => None
    | b' :: l => decode_loop b' l (Z.lor (u64 (Z.shiftl res 7)) (Z.land b' 0x7F)) (i8 (size + 1))
    end
  else Some (res, size).

Definition varint_decode (l : list Z) : option (Z * Z) :=
  match l with
  | [] => None
  | b :: l => decode_loop b l (Z.land b 0x7F) 1
  end.

(** ** Proofs *)

(** Decoding as a fold that has read [size] bytes with value [res]. *)
Definition decode_from (res size : Z) (l : list Z) : option (Z * Z) :=
  match l with
  | [] => None
  | b :: l => decode_loop b l (Z.lor (u64 (Z.shiftl res 7)) (Z.land b 0x7F)) (i8 (size + 1))
  end.

Lemma decode_from_0 l : varint_decode l = decode_from 0 0 l.
Proof. destruct l as [|b l]; done. Qed.

Lemma i8_small z : 0 <= z < 128 -> i8 z = z.
Proof. intros. unfold i8. rewrite Z.mod_small by lia. case_match; lia. Qed.

(** A byte of seven bits and a continuation bit. *)
Lemma group_byte d (more : bool) :
  0 <= d < 128 ->
  let b := u8 (Z.lor d (if more then 0x80 else 0)) in
  flag_set b 0x80 = more /\ Z.land b 0x7F = d.
Proof.
  intros Hd. assert (u8 (Z.lor d (if more then 0x80 else 0)) = d + if more then 0x80 else 0) as ->.
  { assert (Z.lor d (if more then 0x80 else 0) = d + if more then 0x80 else 0) as ->.
    { destruct more; [|by rewrite Z.lor_0_r, Z.add_0_r].
      rewrite Z.lor_comm, Z.add_comm. by apply (lor_low_add 7). }
    unfold u8. apply Z.mod_small. destruct more; lia. }
  cbv zeta. split.
  - unfold flag_set. assert (forall k : nat, (k < 128)%nat -> forall more : bool,
      negb (Z.land (Z.of_nat k + if more then 0x80 else 0) 0x80 =? 0) = more) as Hall.
    { intros k Hk m. do 128 (destruct k as [|k]; [by destruct m|]). lia. }
    specialize (Hall (Z.to_nat d) ltac:(lia) more). by rewrite Z2Nat.id in Hall by lia.
  - rewrite (land_ones_mod _ 7) by done. destruct more; [|by rewrite Z.add_0_r; apply Z.mod_small].
    rewrite <- (Z.mod_small d (2 ^ 7)) at 2 by lia. change 0x80 with (1 * 2 ^ 7). by rewrite Z_mod_plus_full.
Qed.

Lemma shift_or res d : 0 <= res -> res * 128 + d < 2 ^ 64 -> 0 <= d < 128 ->
  Z.lor (u64 (Z.shiftl res 7)) d = res * 128 + d.
Proof.
  intros. rewrite Z.shiftl_mul_pow2 by lia. change (2 ^ 7) with 128.
  assert (u64 (res * 128) = res * 128) as -> by (unfold u64; apply Z.mod_small; lia).
  apply (lor_low_add 7); [lia| |done]. by apply Z.mod_mul.
Qed.

(** [l], followed by anything, decodes to [res * 128 ^ length l + w]. *)
Definition decodes (l : list Z) (w : Z) : Prop :=
  forall res size rest, 0 <= res -> 0 <= size -> size + Z.of_nat (length l) < 128 ->
    res * 128 ^ Z.of_nat (length l) + w < 2 ^ 64 ->
    decode_from res size (l ++ rest) =
      Some (res * 128 ^ Z.of_nat (length l) + w, size + Z.of_nat (length l)).

Lemma decodes_last d : 0 <= d < 128 -> decodes [u8 (Z.lor d 0)] d.
Proof.
  intros Hd res size rest Hr Hs Hl Hb. cbn [length] in *. change (Z.of_nat 1) with 1 in *.
  rewrite Z.pow_1_r in *. cbn [app decode_from]. destruct (group_byte d false Hd) as [Hf Hm].
  rewrite Hm, shift_or by lia. unfold decode_loop. destruct rest; rewrite Hf, i8_small by lia; done.
Qed.

Lemma decodes_cons l w d :
  l <> [] -> 0 <= w < 128 ^ Z.of_nat (length l) -> 0 <= d < 128 -> decodes l w ->
  decodes (u8 (Z.lor d 0x80) :: l) (d * 128 ^ Z.of_nat (length l) + w).
Proof.
  intros Hne Hw Hd Hl res size rest Hr Hs Hlen Hb. cbn [length] in *.
  rewrite Nat2Z.inj_succ, Z.pow_succ_r in * by lia. set (p := 128 ^ Z.of_nat (length l)) in *.
  assert (0 < p) by (unfold p; lia). assert (res * 128 + d <= (res * 128 + d) * p) by nia.
  destruct (group_byte d true Hd) as [Hf Hm]. cbn [app decode_from].
  rewrite Hm, shift_or by nia. destruct l as [|b l]; [done|]. cbn [app decode_loop]. rewrite Hf.
  rewrite (i8_small (size + 1)) by lia.
  change (decode_loop b (l ++ rest) _ _) with (decode_from (res * 128 + d) (size + 1) ((b :: l) ++ rest)).
  rewrite Hl; fold p; [|nia|lia|lia|nia]. f_equal. f_equal; [ring|lia].
Qed.

Lemma encode_loop_spec room : forall num size acc w,
  0 <= num < 128 ^ Z.of_nat room -> size = Z.of_nat (length acc) -> size + Z.of_nat room < 128 ->
  (acc = [] /\ w = 0 \/ acc <> [] /\ decodes acc w /\ 0 <= w < 128 ^ Z.of_nat (length acc)) ->
  (0 < room)%nat ->
  exists l, encode_loop room num size acc = Some (l, Z.of_nat (length l)) /\
    decodes l (num * 128 ^ Z.of_nat (length acc) + w) /\
    (length acc < length l <= length acc + room)%nat.
Proof.
  induction room as [|room IH]; intros num size acc w Hnum Hsize Hroom Hacc Hpos; [lia|].
  cbn [encode_loop]. rewrite i8_small by lia.
  assert (forall d, 0 <= d < 128 ->
    let b := u8 (Z.lor d (if 1 <? size + 1 then 0x80 else 0)) in
    decodes (b :: acc) (d * 128 ^ Z.of_nat (length acc) + w) /\
    0 <= d * 128 ^ Z.of_nat (length acc) + w < 128 ^ Z.of_nat (length (b :: acc))) as Hstep.
  { intros d Hd. cbv zeta. cbn [length]. rewrite Nat2Z.inj_succ, Z.pow_succ_r by lia.
    destruct Hacc as [[-> ->]|(Hne & Hdec & Hw)].
    - simpl in Hsize. rewrite Hsize. split; [|simpl; lia].
      replace (d * _ + 0) with d by (simpl; lia). by apply decodes_last.
    - destruct (Z.ltb_spec 1 (size + 1)); [|destruct acc; [done|simpl in *; lia]].
      split; [by apply decodes_cons|nia]. }
  destruct (Z.ltb_spec num 128) as [Hlt|Hge].
  - destruct (Hstep num ltac:(lia)) as [Hd _]. eexists. split; [|split; [exact Hd|simpl; lia]].
    do 2 f_equal. cbn [length]. lia.
  - assert (Z.land num 0x7F = num mod 128) as -> by (by rewrite (land_ones_mod _ 7)).
    assert (0 <= num mod 128 < 128) as Hm by (apply Z.mod_pos_bound; lia).
    destruct (Hstep (num mod 128) Hm) as [Hd Hw].
    set (b := u8 (Z.lor (num mod 128) _)) in *.
    assert (Z.shiftr num 7 = num / 128) as -> by (by rewrite Z.shiftr_div_pow2).
    rewrite Nat2Z.inj_succ, Z.pow_succ_r in Hnum by lia.
    assert (0 <= num / 128 < 128 ^ Z.of_nat room) as Hq
      by (split; [apply Z.div_pos; lia|apply Z.div_lt_upper_bound; lia]).
    destruct (IH (num / 128) (size + 1) (b :: acc) (num mod 128 * 128 ^ Z.of_nat (length acc) + w))
      as (l & Hrun & Hdec & Hlen); [done|cbn [length]; lia|lia|right; split_and!; [done|done|lia|lia]
      |destruct room; [simpl in Hq; Z.to_euclidean_division_equations; lia|lia]|].
    exists l. split; [done|]. split; [|cbn [length] in Hlen; lia].
    cbn [length] in Hdec. rewrite Nat2Z.inj_succ, Z.pow_succ_r in Hdec by lia.
    replace (num * _ + w) with (num / 128 * (128 * 128 ^ Z.of_nat (length acc)) +
      (num mod 128 * 128 ^ Z.of_nat (length acc) + w)); [done|].
    rewrite (Z.div_mod num 128) at 3 by lia. ring.
Qed.

(** C18.  Round trip: encoding a 64-bit number never leaves the block of ten
    bytes, reports the number of bytes it wrote, and decoding them, whatever
    follows, gives the number and the same size. *)
Theorem varint_roundtrip num rest :
  in_u64 num ->
  exists l size, varint_encode num = Some (l, size) /\ size = Z.of_nat (length l) /\
    1 <= size <= 10 /\ varint_decode (l ++ rest) = Some (num, size).
Proof.
  intros Hnum. unfold in_u64 in Hnum.
  destruct (encode_loop_spec 10 num 0 [] 0) as (l & Hrun & Hdec & Hlen);
    [simpl Z.of_nat; lia|done|simpl; lia|by left|lia|].
  exists l, (Z.of_nat (length l)). simpl in Hlen. split_and!; [done|done|lia|lia|].
  rewrite decode_from_0, Hdec; [|lia|lia|lia|simpl; lia]. do 2 f_equal; simpl; lia.
Qed.

Lemma varint_roundtrip_witness :
  exists l size, varint_encode 300 = Some (l, size) /\ size = Z.of_nat (length l) /\
    1 <= size <= 10 /\ varint_decode (l ++ [7]) = Some (300, size).
Proof. apply (varint_roundtrip 300 [7]). unfold in_u64. lia. Defined.
