(* ===== verification/Hashmap.v ===== *)
(** * Hash maps ([cc/lib/hashmap.64.c])

    A hash map is a chain of segments of [segment_capacity] slots each.  A key
    lives in its home slot [hkg key % segment_capacity] of some segment, or in
    the slot behind it when the home slot is taken; when both are taken the
    next segment is tried, and a new one is appended at the end of the chain.

    Pointers (keys, values) are 64-bit [Z]s with [NULL] as [0]; a handle that
    may be [NULL] is an [option].  The chain of [next] pointers is the list
    [segments]; [dangling] says that the last [next] pointer is not [NULL] but
    points to freed memory, so that following it is a [Fault].  Whether each
    allocation succeeds is an argument; allocated memory is zeroed.  The lock
    is not modelled: each operation runs alone. *)

From S2P Require Import Prelude.

Definition NULL : Z := 0.

Record hashmap_item_t := mk_item {
  exists_ : bool;
  key : Z;
  value : Z;
}.

Record hashmap_segment_t := mk_segment {
  size : Z;
  items : list hashmap_item_t;
}.

Record hashmap_t := mk_hashmap {
  segment_capacity : Z;
  total_capacity : Z;
  total_size : Z;
  hkg : Z -> Z;
  hkc : Z -> Z -> Z;
  segments : list hashmap_segment_t;
  dangling : bool;
}.

Definition no_item : hashmap_item_t := mk_item false NULL NULL.

(** [seg->items[i]], for an [i] within the array. *)
Definition item_at (seg : hashmap_segment_t) (i : Z) : hashmap_item_t :=
  default no_item (items seg !! Z.to_nat i).

(** Whether [items[i]] is within the allocated array. *)
Definition in_items (seg : hashmap_segment_t) (i : Z) : bool := i <? Z.of_nat (length (items seg)).

(** A flag and two pointers. *)
Abbreviation sizeof_hashmap_item_t := 24.

(** A zeroed segment.  The size of its items,
    [sizeof(hashmap_item_t) * segment_capacity], is computed in 64 bits, and the
    array holds the items that fit into the block allocated. *)
Definition fresh_segment (cap : Z) : hashmap_segment_t :=
  mk_segment 0 (replicate (Z.to_nat (u64 (sizeof_hashmap_item_t * cap) / sizeof_hashmap_item_t)) no_item).

(** ** Keys: the default generator and comparator, and those of strings *)

Definition hashmap_default_kg (k : Z) : Z := k.

Definition hashmap_default_kc (item1 item2 : Z) : Z :=
  if item1 <? item2 then -1 else if item2 <? item1 then 1 else 0.

(** ** Creation *)

(** [ok1], [ok2], [ok3]: whether the map, its first segment and the items of
    the segment can be allocated. *)
Definition hashmap_new_with_hkg_with_hkc (ok1 ok2 ok3 : bool) (capacity : Z)
    (kg : option (Z -> Z)) (kc : option (Z -> Z -> Z)) : option hashmap_t :=
  if capacity =? 0 then None
  else if negb ok1 then None
  else if negb ok2 then None
  else if negb ok3 then None
  else Some (mk_hashmap capacity capacity 0 (default hashmap_default_kg kg)
               (default hashmap_default_kc kc) [fresh_segment capacity] false).

(** ** Insertion *)

Definition set_item (seg : hashmap_segment_t) (i : Z) (it : hashmap_item_t) : hashmap_segment_t :=
  mk_segment (size seg) (<[Z.to_nat i := it]> (items seg)).

(** The tail of [hashmap_put]: fill a free slot and count it. *)
Definition fill_item (seg : hashmap_segment_t) (i k v : Z) : hashmap_segment_t :=
  mk_segment (u64 (size seg + 1)) (<[Z.to_nat i := mk_item true k v]> (items seg)).

(** The slot probed second. *)
Definition next_slot (hm : hashmap_t) (h_key : Z) : Z := u64 (h_key + 1) mod segment_capacity hm.

Definition home_slot (hm : hashmap_t) (k : Z) : Z := hkg hm k mod segment_capacity hm.

(** Whether what one round of a search reads is within the items of its
    segment: the home slot of the key, and the slot behind it when the home slot
    is taken by another key. *)
Definition probes_in_items (hm : hashmap_t) (k h_key : Z) (seg : hashmap_segment_t) : bool :=
  in_items seg h_key &&
  (if exists_ (item_at seg h_key) then
     if hkc hm k (key (item_at seg h_key)) =? 0 then true else in_items seg (next_slot hm h_key)
   else true).

(** [hashmap_segment_next_new] at the end of the chain: a new segment, no
    memory for it, or no memory for its items, when the new segment is freed
    but stays linked. *)
Inductive segment_alloc := NewSegment (seg : hashmap_segment_t) | NoSegment | FreedSegment.

Definition hashmap_segment_next_new (ok1 ok2 : bool) (cap : Z) : segment_alloc :=
  if negb ok1 then NoSegment else if negb ok2 then FreedSegment else NewSegment (fresh_segment cap).

(** What the search of [hashmap_put] ends with: the item of an equal key is
    replaced, a free slot is filled (in a new segment if [grown]), or a new
    segment cannot be had. *)
Inductive put_result :=
| Replaced (old : Z) (segs : list hashmap_segment_t)
| Filled (segs : list hashmap_segment_t) (grown : bool)
| PutNoMemory (leaves_dangling : bool)
| PutFault.

Definition put_behind (seg : hashmap_segment_t) (r : put_result) : put_result :=
  match r with
  | Replaced old segs => Replaced old (seg :: segs)
  | Filled segs grown => Filled (seg :: segs) grown
  | PutNoMemory d => PutNoMemory d
  | PutFault => PutFault
  end.

Fixpoint put_loop (ok1 ok2 : bool) (hm : hashmap_t) (k v h_key : Z)
    (segs : list hashmap_segment_t) : put_result :=
  match segs with
  | [] => PutFault
  | seg :: rest =>
    if negb (probes_in_items hm k h_key seg) then PutFault
    else if exists_ (item_at seg h_key) then
      if hkc hm k (key (item_at seg h_key)) =? 0 then
        Replaced (value (item_at seg h_key)) (set_item seg h_key (mk_item true k v) :: rest)
      else
        let t_h_key := next_slot hm h_key in
        if exists_ (item_at seg t_h_key) then
          if hkc hm k (key (item_at seg t_h_key)) =? 0 then
            Replaced (value (item_at seg t_h_key)) (set_item seg t_h_key (mk_item true k v) :: rest)
          else
            match rest with
            | _ :: _ => put_behind seg (put_loop ok1 ok2 hm k v h_key rest)
            | [] =>
              if dangling hm then PutFault
              else
                match hashmap_segment_next_new ok1 ok2 (segment_capacity hm) with
                | NewSegment new =>
                  if in_items new h_key then Filled [seg; fill_item new h_key k v] true else PutFault
                | NoSegment => PutNoMemory false
                | FreedSegment => PutNoMemory true
                end
            end
        else Filled (fill_item seg t_h_key k v :: rest) false
    else Filled (fill_item seg h_key k v :: rest) false
  end.

Definition with_segments (hm : hashmap_t) (tc ts : Z) (segs : list hashmap_segment_t) (d : bool) : hashmap_t :=
  mk_hashmap (segment_capacity hm) tc ts (hkg hm) (hkc hm) segs d.

Definition hashmap_put (ok1 ok2 : bool) (handle : option hashmap_t) (k v : Z)
    : access (Z * option hashmap_t) :=
  match handle with
  | None => Val (NULL, None)
  | Some hm =>
    match put_loop ok1 ok2 hm k v (home_slot hm k) (segments hm) with
    | Replaced old segs =>
      Val (old, Some (with_segments hm (total_capacity hm) (total_size hm) segs (dangling hm)))
    | Filled segs grown =>
      Val (NULL, Some (with_segments hm
        (if grown then u64 (total_capacity hm + segment_capacity hm) else total_capacity hm)
        (u64 (total_size hm + 1)) segs (dangling hm)))
    | PutNoMemory d =>
      Val (NULL, Some (with_segments hm (total_capacity hm) (total_size hm) (segments hm) (d || dangling hm)))
    | PutFault => Fault
    end
  end.

(** ** Lookup *)

(** One round of the search shared by [hashmap_get], [hashmap_get_key] and
    [hashmap_exists]: the item of an equal key in one segment. *)
Definition find_in_segment (hm : hashmap_t) (k h_key : Z) (seg : hashmap_segment_t) : option hashmap_item_t :=
  if exists_ (item_at seg h_key) then
    if hkc hm k (key (item_at seg h_key)) =? 0 then Some (item_at seg h_key)
    else
      let t_h_key := next_slot hm h_key in
      if exists_ (item_at seg t_h_key) then
        if hkc hm k (key (item_at seg t_h_key)) =? 0 then Some (item_at seg t_h_key) else None
      else None
  else None.

Fixpoint find_loop (hm : hashmap_t) (k h_key : Z) (segs : list hashmap_segment_t)
    : access (option hashmap_item_t) :=
  match segs with
  | [] => if dangling hm then Fault else Val None
  | seg :: rest =>
    if negb (probes_in_items hm k h_key seg) then Fault
    else
      match find_in_segment hm k h_key seg with
      | Some it => Val (Some it)
      | None => find_loop hm k h_key rest
      end
  end.

Definition find_item (hm : hashmap_t) (k : Z) : access (option hashmap_item_t) :=
  find_loop hm k (home_slot hm k) (segments hm).

Definition hashmap_get (handle : option hashmap_t) (k : Z) : access Z :=
  match handle with
  | None => Val NULL
  | Some hm =>
    match find_item hm k with
    | Fault => Fault
    | Val None => Val NULL
    | Val (Some it) => Val (value it)
    end
  end.

Definition hashmap_get_key (handle : option hashmap_t) (k : Z) : access Z :=
  match handle with
  | None => Val NULL
  | Some hm =>
    match find_item hm k with
    | Fault => Fault
    | Val None => Val NULL
    | Val (Some it) => Val (key it)
    end
  end.

Definition hashmap_exists (handle : option hashmap_t) (k : Z) : access bool :=
  match handle with
  | None => Val false
  | Some hm =>
    match find_item hm k with
    | Fault => Fault
    | Val None => Val false
    | Val (Some _) => Val true
    end
  end.

Definition hashmap_size (handle : option hashmap_t) : Z :=
  match handle with None => 0 | Some hm => total_size hm end.

(** ** Deletion *)

Definition erase_item (seg : hashmap_segment_t) (i : Z) : hashmap_segment_t :=
  mk_segment (u64 (size seg - 1)) (<[Z.to_nat i := no_item]> (items seg)).

(** The new chain if an item was erased, [None] if no key is equal. *)
Fixpoint delete_loop (hm : hashmap_t) (k h_key : Z) (segs : list hashmap_segment_t)
    : access (option (list hashmap_segment_t)) :=
  match segs with
  | [] => if dangling hm then Fault else Val None
  | seg :: rest =>
    let behind :=
      match delete_loop hm k h_key rest with
      | Fault => Fault
      | Val None => Val None
      | Val (Some rest') => Val (Some (seg :: rest'))
      end in
    if negb (probes_in_items hm k h_key seg) then Fault
    else if exists_ (item_at seg h_key) then
      if hkc hm k (key (item_at seg h_key)) =? 0 then Val (Some (erase_item seg h_key :: rest))
      else
        let t_h_key := next_slot hm h_key in
        if exists_ (item_at seg t_h_key) then
          if hkc hm k (key (item_at seg t_h_key)) =? 0 then Val (Some (erase_item seg t_h_key :: rest))
          else behind
        else behind
    else behind
  end.

Definition hashmap_delete (handle : option hashmap_t) (k : Z) : access (bool * option hashmap_t) :=
  match handle with
  | None => Val (false, None)
  | Some hm =>
    match delete_loop hm k (home_slot hm k) (segments hm) with
    | Fault => Fault
    | Val None => Val (true, Some hm)
    | Val (Some segs) =>
      Val (true, Some (with_segments hm (total_capacity hm) (u64 (total_size hm - 1)) segs (dangling hm)))
    end
  end.

(** ** Destruction: the values passed to [item_destroyer], in order, and the
    returned value *)

Definition destroy_segment (seg : hashmap_segment_t) : access (list Z) :=
  if size seg <=? Z.of_nat (length (items seg)) then
    Val (value <$> filter (fun it => exists_ it = true) (take (Z.to_nat (size seg)) (items seg)))
  else Fault.

Fixpoint destroy_loop (with_destroyer d : bool) (segs : list hashmap_segment_t) : access (list Z) :=
  match segs with
  | [] => if d then Fault else Val []
  | seg :: rest =>
    match (if with_destroyer then destroy_segment seg else Val []) with
    | Fault => Fault
    | Val vs =>
      match destroy_loop with_destroyer d rest with
      | Fault => Fault
      | Val vs' => Val (vs ++ vs')
      end
    end
  end.

Definition hashmap_destroy_with_item_destroyer (handle : option hashmap_t) (with_destroyer : bool)
    : access (list Z * bool) :=
  match handle with
  | None => Val ([], false)
  | Some hm =>
    match destroy_loop with_destroyer (dangling hm) (segments hm) with
    | Fault => Fault
    | Val vs => Val (vs, false)
    end
  end.

(** ** Iteration *)

(** [hashmap_iterator_metadata_t]: the current segment and the ones behind it
    in the chain (none: [current_segment] is [NULL], or freed memory if
    [md_dangling]), as they are while the map is not changed. *)
Record hashmap_iterator_metadata_t := mk_iter {
  current_segment : list hashmap_segment_t;
  md_dangling : bool;
  md_capacity : Z;
  current_index : Z;
}.

Definition current_item (md : hashmap_iterator_metadata_t) : access hashmap_item_t :=
  match current_segment md with
  | [] => Fault
  | seg :: _ =>
    match items seg !! Z.to_nat (current_index md) with
    | Some it => Val it
    | None => Fault
    end
  end.

Definition hashmap_iterator_get_item (handle : option hashmap_iterator_metadata_t) : access Z :=
  match handle with
  | None => Val NULL
  | Some md => match current_item md with Fault => Fault | Val it => Val (value it) end
  end.

Definition hashmap_iterator_get_extra_data (handle : option hashmap_iterator_metadata_t) : access Z :=
  match handle with
  | None => Val NULL
  | Some md => match current_item md with Fault => Fault | Val it => Val (key it) end
  end.

Definition at_end (md : hashmap_iterator_metadata_t) : bool :=
  match current_segment md with [] => negb (md_dangling md) | _ => false end.

Definition hashmap_iterator_end_of_iterator (handle : option hashmap_iterator_metadata_t) : Z :=
  match handle with
  | None => NULL
  | Some md => if at_end md then 0 else 1
  end.

(** [current_segment = current_segment->next]: reading [next] of a missing
    segment is a fault. *)
Definition advance_segment (md : hashmap_iterator_metadata_t) (index : Z) : access hashmap_iterator_metadata_t :=
  match current_segment md with
  | [] => Fault
  | _ :: rest => Val (mk_iter rest (md_dangling md) (md_capacity md) index)
  end.

(** The loop of [hashmap_iterator_next]; [None] if the fuel does not suffice. *)
Fixpoint next_loop (fuel : nat) (md : hashmap_iterator_metadata_t) : option (access hashmap_iterator_metadata_t) :=
  match fuel with
  | O => None
  | S fuel =>
    let index := u64 (current_index md + 1) in
    match (if index =? md_capacity md then advance_segment md 0
           else Val (mk_iter (current_segment md) (md_dangling md) (md_capacity md) index)) with
    | Fault => Some Fault
    | Val md =>
      if at_end md then Some (Val md)
      else
        match current_item md with
        | Fault => Some Fault
        | Val it => if exists_ it then Some (Val md) else next_loop fuel md
        end
    end
  end.

(** The fuel is the number of slots from the current segment on. *)
Definition slots_left (md : hashmap_iterator_metadata_t) : nat :=
  length (current_segment md) * Z.to_nat (md_capacity md) + 1.

Definition hashmap_iterator_next (handle : option hashmap_iterator_metadata_t)
    : option (access (option hashmap_iterator_metadata_t)) :=
  match handle with
  | None => Some (Val None)
  | Some md =>
    if at_end md then Some (Val (Some md))
    else
      match next_loop (slots_left md) md with
      | None => None
      | Some Fault => Some Fault
      | Some (Val md) => Some (Val (Some md))
      end
  end.

(** The loop of [hashmap_iterator_create].  It skips a segment when it gets to
    the end of one, and leaves [current_index] as it is. *)
Fixpoint create_loop (fuel : nat) (md : hashmap_iterator_metadata_t) : option (access hashmap_iterator_metadata_t) :=
  match fuel with
  | O => None
  | S fuel =>
    if at_end md then Some (Val md)
    else
      match current_item md with
      | Fault => Some Fault
      | Val it =>
        if exists_ it then Some (Val md)
        else
          let index := u64 (current_index md + 1) in
          match (if index =? md_capacity md then
                   match advance_segment md index with
                   | Fault => Fault
                   | Val md => advance_segment md index
                   end
                 else Val (mk_iter (current_segment md) (md_dangling md) (md_capacity md) index)) with
          | Fault => Some Fault
          | Val md => create_loop fuel md
          end
      end
  end.

(** [ok1], [ok2]: whether the metadata and the iterator can be allocated. *)
Definition hashmap_iterator_create (ok1 ok2 : bool) (handle : option hashmap_t)
    : option (access (option hashmap_iterator_metadata_t)) :=
  match handle with
  | None => Some (Val None)
  | Some hm =>
    if negb ok1 then Some (Val None)
    else if negb ok2 then Some (Val None)
    else
      let md := mk_iter (segments hm) (dangling hm) (segment_capacity hm) 0 in
      if total_size hm =? 0 then Some (Val (Some (mk_iter [] false (segment_capacity hm) 0)))
      else
        match create_loop (slots_left md) md with
        | None => None
        | Some Fault => Some Fault
        | Some (Val md) => Some (Val (Some md))
        end
  end.

Definition hashmap_iterator_destroy (handle : option hashmap_iterator_metadata_t) : Z :=
  match handle with None => -1 | Some _ => 0 end.
