(* ===== verification/HashmapProps.v ===== *)
(** * Theorems on hash maps

    The interface [KeyLaws] of the key functions, the invariant of the chain
    of segments, and the effect of every operation on what lookups find. *)

From S2P Require Import Prelude Hashmap.

(** ** Keys

    What a map relies on: the comparator decides an equivalence, and equal keys
    have equal hashes. *)

Definition key_eq (hm : hashmap_t) (a b : Z) : Prop := hkc hm a b = 0.

#[export] Instance key_eq_dec hm a b : Decision (key_eq hm a b).
Proof. unfold key_eq. apply _. Defined.

Class KeyLaws (hm : hashmap_t) : Prop := {
  key_eq_equivalence :: Equivalence (key_eq hm);
  hkg_proper : forall a b, key_eq hm a b -> hkg hm a = hkg hm b;
}.

Lemma default_kc_zero a b : hashmap_default_kc a b = 0 <-> a = b.
Proof.
  unfold hashmap_default_kc.
  destruct (a <? b) eqn:?; [lia|]. destruct (b <? a) eqn:?; lia.
Qed.

Lemma default_key_laws hm :
  hkg hm = hashmap_default_kg -> hkc hm = hashmap_default_kc -> KeyLaws hm.
Proof.
  intros Hg Hc. split.
  - split; unfold key_eq; rewrite Hc; intros ?**; rewrite default_kc_zero in *; congruence.
  - intros a b. unfold key_eq. by rewrite Hc, default_kc_zero, Hg => ->.
Qed.

(** ** One segment *)

(** A capacity whose items have a size of 64 bits. *)
Abbreviation items_fit c := (0 < c /\ sizeof_hashmap_item_t * c < 2 ^ 64).

Definition occupied (seg : hashmap_segment_t) (i : Z) : Prop := exists_ (item_at seg i) = true.

#[export] Instance occupied_dec seg i : Decision (occupied seg i).
Proof. unfold occupied. apply _. Defined.

Definition count (seg : hashmap_segment_t) : nat := length (filter (fun it => exists_ it = true) (items seg)).

Section Segment.
Context (hm : hashmap_t) `{!KeyLaws hm} (Hcap : items_fit (segment_capacity hm)).

Abbreviation cap := (segment_capacity hm).
Abbreviation slot i := (0 <= i < cap).
Abbreviation home := (home_slot hm).
Abbreviation next := (next_slot hm).

Definition seg_wf (seg : hashmap_segment_t) : Prop :=
  Z.of_nat (length (items seg)) = cap /\ size seg = Z.of_nat (count seg).

(** [seg] stores an item with a key equal to [k]. *)
Definition in_seg (seg : hashmap_segment_t) (k : Z) : Prop :=
  exists i, slot i /\ occupied seg i /\ key_eq hm k (key (item_at seg i)).

(** Every item is in the home slot of its key, or behind it with the home
    slot taken; no key is stored twice. *)
Definition placed (seg : hashmap_segment_t) : Prop :=
  forall i, slot i -> occupied seg i ->
    home (key (item_at seg i)) = i \/
    (next (home (key (item_at seg i))) = i /\ occupied seg (home (key (item_at seg i)))).
Definition unique (seg : hashmap_segment_t) : Prop :=
  forall i j, slot i -> slot j -> occupied seg i -> occupied seg j ->
    key_eq hm (key (item_at seg i)) (key (item_at seg j)) -> i = j.

(** Both slots of [k] are taken. *)
Definition full (seg : hashmap_segment_t) (k : Z) : Prop :=
  occupied seg (home k) /\ occupied seg (next (home k)).

Lemma home_range k : slot (home k).
Proof using Hcap. apply Z.mod_pos_bound. lia. Qed.

Lemma next_range i : slot (next i).
Proof using Hcap. apply Z.mod_pos_bound. lia. Qed.

Lemma home_proper a b : key_eq hm a b -> home a = home b.
Proof using KeyLaws0. intros H. unfold home_slot. by rewrite (hkg_proper a b H). Qed.

(** What a search of one segment finds. *)
Lemma find_some seg k it :
  find_in_segment hm k (home k) seg = Some it ->
  exists i, (i = home k \/ i = next (home k) /\ occupied seg (home k)) /\
    occupied seg i /\ it = item_at seg i /\ key_eq hm k (key it).
Proof using.
  unfold find_in_segment, occupied, key_eq.
  destruct (exists_ (item_at seg (home k))) eqn:E1; [|done].
  destruct (hkc hm k _ =? 0) eqn:E2.
  - intros [= <-]. exists (home k). split_and!; [by left|done|done|lia].
  - cbn zeta. destruct (exists_ (item_at seg (next (home k)))) eqn:E3; [|done].
    destruct (hkc hm k (key (item_at seg (next (home k)))) =? 0) eqn:E4; [|done].
    intros [= <-]. exists (next (home k)). split_and!; [by right|done|done|lia].
Qed.

Lemma find_in_seg seg k it : find_in_segment hm k (home k) seg = Some it -> in_seg seg k.
Proof using Hcap.
  intros (i & Hi & Ho & -> & Hk)%find_some. exists i. split; [|done].
  destruct Hi as [-> | [-> _]]; [apply home_range|apply next_range].
Qed.

Lemma find_none seg k : placed seg -> find_in_segment hm k (home k) seg = None -> ~ in_seg seg k.
Proof using KeyLaws0.
  intros Hp Hf (i & Hi & Ho & Hk).
  unfold find_in_segment in Hf. specialize (Hp i Hi Ho).
  rewrite <- (home_proper _ _ Hk) in Hp. unfold occupied, key_eq in *.
  destruct Hp as [Hp | [Hp Hoh]].
  - rewrite Hp, Ho, Hk in Hf. done.
  - rewrite Hoh in Hf. destruct (hkc hm k _ =? 0); [done|].
    cbn zeta in Hf. rewrite Hp, Ho, Hk in Hf. done.
Qed.

Lemma find_is_some seg k : placed seg -> in_seg seg k -> is_Some (find_in_segment hm k (home k) seg).
Proof using KeyLaws0.
  intros Hp Hi. destruct (find_in_segment hm k (home k) seg) eqn:E; [done|].
  by destruct (find_none _ _ Hp E).
Qed.

(** The searches stay within the items. *)
Lemma probes_wf seg k : seg_wf seg -> probes_in_items hm k (home k) seg = true.
Proof using Hcap.
  intros [Hl _]. unfold probes_in_items, in_items. rewrite Hl.
  pose proof (home_range k). pose proof (next_range (home k)).
  rewrite !(proj2 (Z.ltb_lt _ cap)) by lia. cbn. by repeat case_match.
Qed.

(** *** Writing one slot; [set_item], [fill_item] and [erase_item] are such
    writes, which differ in the counter. *)

Definition write (seg : hashmap_segment_t) (i : Z) (it : hashmap_item_t) (sz : Z) : hashmap_segment_t :=
  mk_segment sz (<[Z.to_nat i := it]> (items seg)).

Lemma item_at_write seg i j it sz :
  Z.of_nat (length (items seg)) = cap -> slot i -> slot j ->
  item_at (write seg i it sz) j = if decide (i = j) then it else item_at seg j.
Proof using.
  intros Hl Hi Hj. unfold item_at. cbn. case_decide as E.
  - subst. rewrite list_lookup_insert_eq; [done|lia].
  - rewrite list_lookup_insert_ne; [done|lia].
Qed.

Lemma occupied_write seg i j it sz :
  Z.of_nat (length (items seg)) = cap -> slot i -> slot j ->
  occupied (write seg i it sz) j <-> if decide (i = j) then exists_ it = true else occupied seg j.
Proof using. intros. unfold occupied. rewrite item_at_write by done. by case_decide. Qed.

Lemma count_write seg i it sz :
  Z.of_nat (length (items seg)) = cap -> slot i ->
  (count (write seg i it sz) + (if exists_ (item_at seg i) then 1 else 0) =
   count seg + (if exists_ it then 1 else 0))%nat.
Proof using.
  intros Hl Hi. unfold count, item_at. cbn.
  destruct (lookup_lt_is_Some_2 (items seg) (Z.to_nat i)) as [x Hx]; [lia|].
  rewrite Hx. cbn. rewrite insert_take_drop by (apply lookup_lt_Some in Hx; lia).
  rewrite <- (take_drop_middle _ _ _ Hx) at 3.
  rewrite !filter_app, !filter_cons, !length_app.
  destruct (exists_ x), (exists_ it); repeat case_decide; try done; cbn; lia.
Qed.

(** The two writes of [hashmap_put]: over an item of an equal key, or into a
    free slot that is the first one free for [k]. *)
Definition target (seg : hashmap_segment_t) (k i : Z) : Prop :=
  (i = home k /\ (~ occupied seg i \/ key_eq hm k (key (item_at seg i)))) \/
  (i = next (home k) /\ occupied seg (home k) /\ ~ key_eq hm k (key (item_at seg (home k))) /\
   (~ occupied seg i \/ key_eq hm k (key (item_at seg i)))).

Lemma target_range seg k i : target seg k i -> slot i.
Proof using Hcap.
  intros [[-> _] | [-> _]]; [apply home_range|apply next_range].
Qed.

Lemma target_old seg k i : target seg k i -> ~ occupied seg i \/ key_eq hm k (key (item_at seg i)).
Proof using. intros [[_ H] | (_ & _ & _ & H)]; done. Qed.

Section Write.
Context (seg : hashmap_segment_t) (k v i sz : Z).
Context (Hlen : Z.of_nat (length (items seg)) = cap) (Ht : target seg k i).
Abbreviation seg' := (write seg i (mk_item true k v) sz).

Lemma occupied_mono j : slot j -> occupied seg j -> occupied seg' j.
Proof using Hlen Ht Hcap.
  intros Hj Ho. apply occupied_write; [done|by eapply target_range|done|]. by case_decide.
Qed.

Lemma put_find_same : find_in_segment hm k (home k) seg' = Some (mk_item true k v).
Proof using Hlen Ht Hcap KeyLaws0.
  pose proof (target_range _ _ _ Ht) as Hi. unfold find_in_segment.
  rewrite !item_at_write by (done || apply home_range || apply next_range).
  assert (hkc hm k k = 0) as Hkk by (change (key_eq hm k k); reflexivity).
  destruct Ht as [[-> _] | (-> & Ho & Hne & _)].
  - rewrite decide_True by done. cbn. by rewrite Hkk.
  - unfold occupied, key_eq in *. rewrite (decide_True (P := next (home k) = next (home k))) by done.
    case_decide as E; cbn; [by rewrite Hkk|].
    rewrite Ho. destruct (hkc hm k _ =? 0) eqn:?; [lia|]. cbn. by rewrite Hkk.
Qed.

Lemma put_find_other k2 :
  placed seg -> ~ key_eq hm k k2 ->
  find_in_segment hm k2 (home k2) seg' = find_in_segment hm k2 (home k2) seg.
Proof using Hlen Ht Hcap KeyLaws0.
  intros Hp Hne. pose proof (target_range _ _ _ Ht) as Hi.
  assert (hkc hm k2 k <> 0) as Hk2 by (intros H; apply Hne; symmetry; exact H).
  assert (occupied seg i -> key_eq hm k2 (key (item_at seg i)) -> False) as Hold.
  { intros Ho Hk. destruct (target_old _ _ _ Ht) as [H | H]; [done|].
    apply Hne. etransitivity; [exact H|]. by symmetry. }
  unfold find_in_segment.
  rewrite !item_at_write by (done || apply home_range || apply next_range).
  cbn zeta. unfold occupied, key_eq in *.
  destruct (decide (i = home k2)) as [E|E].
  - cbn. destruct (hkc hm k2 k =? 0) eqn:?; [lia|].
    subst i. destruct (exists_ (item_at seg (home k2))) eqn:Eo.
    + destruct (hkc hm k2 (key (item_at seg (home k2))) =? 0) eqn:Ek.
      { exfalso. apply Hold; [done|lia]. }
      case_decide as En; [|done]. rewrite <- En, Eo, Ek. cbn. by rewrite Heqb.
    + case_decide as En; [cbn; by rewrite Heqb|].
      destruct (exists_ (item_at seg (next (home k2)))) eqn:Et; [|done].
      destruct (hkc hm k2 (key (item_at seg (next (home k2)))) =? 0) eqn:Ek; [|done].
      exfalso. destruct (Hp (next (home k2))) as [Hh | [_ Hh]]; [apply next_range|done|..].
      * rewrite <- (home_proper k2) in Hh by (unfold key_eq; lia). done.
      * rewrite <- (home_proper k2) in Hh by (unfold key_eq; lia). unfold occupied in Hh. congruence.
  - destruct (exists_ (item_at seg (home k2))) eqn:Eo; [|done].
    destruct (hkc hm k2 (key (item_at seg (home k2))) =? 0) eqn:Ek; [done|].
    case_decide as En; [|done]. cbn. destruct (hkc hm k2 k =? 0) eqn:?; [lia|].
    destruct (exists_ (item_at seg (next (home k2)))) eqn:Et; [|done].
    destruct (hkc hm k2 (key (item_at seg (next (home k2)))) =? 0) eqn:Ek2; [|done].
    exfalso. subst i. apply Hold; [done|lia].
Qed.

Lemma put_in_seg k2 : in_seg seg' k2 <-> key_eq hm k2 k \/ in_seg seg k2.
Proof using Hlen Ht Hcap KeyLaws0.
  pose proof (target_range _ _ _ Ht) as Hi. split.
  - intros (j & Hj & Ho & Hk). rewrite occupied_write in Ho by done.
    rewrite item_at_write in Hk by done. case_decide; [by left|]. right. by exists j.
  - assert (forall x, key_eq hm x k -> in_seg seg' x) as Hin.
    { intros x Hx. exists i. split; [done|].
      rewrite occupied_write, item_at_write by done. by rewrite !decide_True. }
    intros [Hk | (j & Hj & Ho & Hk)]; [by apply Hin|].
    destruct (decide (i = j)) as [<- | Hne].
    + apply Hin. destruct (target_old _ _ _ Ht) as [Hno | Hold]; [done|].
      etransitivity; [exact Hk|by symmetry].
    + exists j. split; [done|]. rewrite occupied_write, item_at_write by done. by rewrite !decide_False.
Qed.

Lemma put_placed : placed seg -> placed seg'.
Proof using Hlen Ht Hcap.
  intros Hp j Hj Ho. pose proof (target_range _ _ _ Ht) as Hi.
  rewrite item_at_write by done. case_decide as E.
  - subst j. cbn. pose proof Ht as Ht'. destruct Ht' as [[Ei _] | (Ei & Hh & _)]; [by left|].
    right. split; [done|]. apply occupied_mono; [apply home_range|done].
  - rewrite occupied_write, decide_False in Ho by done.
    destruct (Hp j Hj Ho) as [H | [H1 H2]]; [by left|right].
    split; [done|]. apply occupied_mono; [apply home_range|done].
Qed.

Lemma put_unique : (occupied seg i \/ ~ in_seg seg k) -> unique seg -> unique seg'.
Proof using Hlen Ht Hcap KeyLaws0.
  intros Hfresh Hu a b Ha Hb Hoa Hob. pose proof (target_range _ _ _ Ht) as Hi.
  assert (forall j, slot j -> i <> j -> occupied seg j -> key_eq hm k (key (item_at seg j)) -> False) as Hx.
  { intros j Hj Hne Ho Hk. destruct Hfresh as [Hoi | Hni].
    - destruct (target_old _ _ _ Ht) as [Hno | Hold]; [done|].
      apply Hne, Hu; try done. etransitivity; [by symmetry|exact Hk].
    - apply Hni. by exists j. }
  rewrite occupied_write in Hoa, Hob by done. rewrite !item_at_write by done.
  repeat case_decide; subst; try done; intros Hk.
  - exfalso. by apply (Hx a).
  - exfalso. by apply (Hx b).
  - by apply Hu.
Qed.

Lemma put_full k2 : full seg k2 -> full seg' k2.
Proof using Hlen Ht Hcap.
  intros [H1 H2]. split; apply occupied_mono; try done; [apply home_range|apply next_range].
Qed.
End Write.

(** Erasing an item. *)
Section Erase.
Context (seg : hashmap_segment_t) (i sz : Z).
Context (Hlen : Z.of_nat (length (items seg)) = cap) (Hi : slot i) (Ho : occupied seg i).
Abbreviation seg' := (write seg i no_item sz).

Lemma erase_in_seg k2 : in_seg seg' k2 -> in_seg seg k2.
Proof using Hlen Hi.
  intros (j & Hj & Hoj & Hk). rewrite occupied_write in Hoj by done.
  rewrite item_at_write in Hk by done. case_decide; [done|]. by exists j.
Qed.

Lemma erase_not_in_seg k : unique seg -> key_eq hm k (key (item_at seg i)) -> ~ in_seg seg' k.
Proof using Hlen Hi Ho KeyLaws0.
  intros Hu Hk (j & Hj & Hoj & Hkj). rewrite occupied_write in Hoj by done.
  rewrite item_at_write in Hkj by done. case_decide as E; [done|].
  apply E, Hu; try done. etransitivity; [by symmetry|exact Hkj].
Qed.

(** Only keys stored behind the erased item can be lost. *)
Lemma erase_find_other k2 :
  ~ key_eq hm k2 (key (item_at seg i)) ->
  find_in_segment hm k2 (home k2) seg' = find_in_segment hm k2 (home k2) seg \/
  (find_in_segment hm k2 (home k2) seg' = None /\ home k2 = i /\
   occupied seg (next i) /\ key_eq hm k2 (key (item_at seg (next i)))).
Proof using Hlen Hi Ho Hcap.
  intros Hne. unfold find_in_segment. unfold occupied, key_eq in *.
  rewrite !item_at_write by (done || apply home_range || apply next_range).
  destruct (decide (i = home k2)) as [E|E].
  - subst i. cbn. rewrite Ho. destruct (hkc hm k2 _ =? 0) eqn:?; [lia|].
    destruct (exists_ (item_at seg (next (home k2)))) eqn:Eo; [|by left].
    destruct (hkc hm k2 (key (item_at seg (next (home k2)))) =? 0) eqn:?; [|by left].
    right. split_and!; try done. lia.
  - left. destruct (exists_ (item_at seg (home k2))); [|done].
    destruct (hkc hm k2 (key (item_at seg (home k2))) =? 0); [done|].
    cbn zeta. case_decide as En; [|done]. subst i. cbn. rewrite Ho.
    destruct (hkc hm k2 _ =? 0) eqn:?; [lia|done].
Qed.
End Erase.

Lemma find_proper seg a b :
  key_eq hm a b -> find_in_segment hm a (home a) seg = find_in_segment hm b (home b) seg.
Proof using KeyLaws0.
  intros Hab. rewrite <- (home_proper _ _ Hab).
  assert (forall x, (hkc hm a x =? 0) = (hkc hm b x =? 0)) as Hx.
  { intros x. apply Bool.eq_iff_eq_true. rewrite !Z.eqb_eq. split; intros H.
    - change (key_eq hm b x). etransitivity; [by symmetry|exact H].
    - change (key_eq hm a x). etransitivity; [exact Hab|exact H]. }
  unfold find_in_segment. by rewrite !Hx.
Qed.
End Segment.

(** ** The chain of segments *)

Section Chain.
Context (hm : hashmap_t) `{!KeyLaws hm} (Hcap : items_fit (segment_capacity hm)).

Abbreviation home := (home_slot hm).
Abbreviation next := (next_slot hm).

(** What a search of the whole chain finds. *)
Fixpoint find_segs (k : Z) (segs : list hashmap_segment_t) : option hashmap_item_t :=
  match segs with
  | [] => None
  | seg :: rest =>
    match find_in_segment hm k (home k) seg with
    | Some it => Some it
    | None => find_segs k rest
    end
  end.

Definition in_segs (segs : list hashmap_segment_t) (k : Z) : Prop :=
  exists seg, seg ∈ segs /\ in_seg hm seg k.

(** Items are placed, no key is stored twice in the chain, and a key in a later
    segment has both of its slots taken in the earlier ones. *)
Fixpoint chain_ok (segs : list hashmap_segment_t) : Prop :=
  match segs with
  | [] => True
  | seg :: rest =>
    placed hm seg /\ unique hm seg /\
    (forall k, in_segs rest k -> full hm seg k /\ ~ in_seg hm seg k) /\
    chain_ok rest
  end.

Definition total (segs : list hashmap_segment_t) : nat := sum_list (count <$> segs).

Lemma in_segs_nil k : ~ in_segs [] k.
Proof using. intros (seg & H & _). by apply elem_of_nil in H. Qed.

Lemma in_segs_cons seg rest k : in_segs (seg :: rest) k <-> in_seg hm seg k \/ in_segs rest k.
Proof using.
  split.
  - intros (s & [-> | H]%elem_of_cons & Hk); [by left|right]. by exists s.
  - intros [H | (s & Hs & Hk)]; [exists seg|exists s]; by rewrite elem_of_cons; auto.
Qed.

Lemma find_segs_some k segs : chain_ok segs -> in_segs segs k -> is_Some (find_segs k segs).
Proof using KeyLaws0.
  induction segs as [|seg rest IH]; intros Hc Hin; [by apply in_segs_nil in Hin|].
  destruct Hc as (Hp & _ & _ & Hc). cbn.
  destruct (find_in_segment hm k (home k) seg) eqn:E; [done|].
  apply in_segs_cons in Hin as [Hin | Hin]; [|by apply IH].
  by destruct (find_none hm _ _ Hp E).
Qed.

Lemma find_segs_in k segs it : find_segs k segs = Some it -> in_segs segs k.
Proof using Hcap.
  induction segs as [|seg rest IH]; cbn; [done|]. rewrite in_segs_cons.
  destruct (find_in_segment hm k (home k) seg) eqn:E; [left|right; auto].
  by apply (find_in_seg hm Hcap _ _ _ E).
Qed.

Lemma find_segs_none k segs : ~ in_segs segs k -> find_segs k segs = None.
Proof using Hcap.
  intros H. destruct (find_segs k segs) eqn:E; [|done]. by apply find_segs_in in E.
Qed.

Lemma in_seg_proper seg a b : key_eq hm a b -> in_seg hm seg a -> in_seg hm seg b.
Proof using KeyLaws0.
  intros Hab (i & ? & ? & Hk). exists i. split_and!; try done; try lia.
  etransitivity; [by symmetry|exact Hk].
Qed.

Lemma in_segs_proper segs a b : key_eq hm a b -> in_segs segs a -> in_segs segs b.
Proof using KeyLaws0. intros Hab (s & Hs & H). exists s. split; [done|]. by eapply in_seg_proper. Qed.

Lemma full_proper seg a b : key_eq hm a b -> full hm seg a -> full hm seg b.
Proof using KeyLaws0. intros Hab. unfold full. by rewrite (home_proper hm _ _ Hab). Qed.

(** *** Insertion *)

Definition put_post (k v : Z) (segs segs' : list hashmap_segment_t) : Prop :=
  chain_ok segs' /\ Forall (seg_wf hm) segs' /\
  (forall k2, find_segs k2 segs' = if decide (key_eq hm k k2) then Some (mk_item true k v) else find_segs k2 segs) /\
  (forall k2, in_segs segs' k2 <-> key_eq hm k2 k \/ in_segs segs k2).

Lemma put_here k v i sz seg rest :
  chain_ok (seg :: rest) -> Forall (seg_wf hm) (seg :: rest) ->
  target hm seg k i -> ~ in_segs rest k -> (occupied seg i \/ ~ in_seg hm seg k) ->
  seg_wf hm (write seg i (mk_item true k v) sz) ->
  put_post k v (seg :: rest) (write seg i (mk_item true k v) sz :: rest).
Proof using Hcap KeyLaws0.
  intros (Hp & Hu & Hlater & Hc) [[Hlen Hsz] Hwf]%Forall_cons Ht Hnin Hfresh Hwf'.
  split_and!.
  - split_and!; [by apply put_placed|by apply put_unique| |done].
    intros k2 Hin. destruct (Hlater k2 Hin) as [Hf Hn]. split; [by apply put_full|].
    rewrite put_in_seg by done. intros [Hk | ?]; [|done].
    by apply Hnin, (in_segs_proper _ k2).
  - by constructor.
  - intros k2. cbn. case_decide as Hk.
    + rewrite <- (find_proper hm _ k k2 Hk). by rewrite put_find_same.
    + by rewrite put_find_other.
  - intros k2. rewrite !in_segs_cons, put_in_seg by done. tauto.
Qed.

Lemma put_later k v seg rest rest' :
  chain_ok (seg :: rest) -> Forall (seg_wf hm) (seg :: rest) ->
  full hm seg k -> find_in_segment hm k (home k) seg = None ->
  put_post k v rest rest' -> put_post k v (seg :: rest) (seg :: rest').
Proof using Hcap KeyLaws0.
  intros (Hp & Hu & Hlater & Hc) [Hw Hwf]%Forall_cons Hfull Hf (Hc' & Hwf' & Hfind & Hin).
  pose proof (find_none hm _ _ Hp Hf) as Hnin.
  split_and!.
  - split_and!; [done|done| |done]. intros k2 [Hk | H]%Hin; [|auto].
    split; [by apply (full_proper _ k); [symmetry|]|].
    intros H. by apply Hnin, (in_seg_proper _ k2).
  - by constructor.
  - intros k2. cbn. rewrite Hfind. case_decide as Hk; [|done].
    by rewrite <- (find_proper hm _ k k2 Hk), Hf.
  - intros k2. rewrite !in_segs_cons, Hin. tauto.
Qed.

Lemma count_le seg : (count seg <= length (items seg))%nat.
Proof using. apply length_filter. Qed.

Lemma set_item_wf seg i it :
  seg_wf hm seg -> 0 <= i < segment_capacity hm -> occupied seg i -> exists_ it = true ->
  seg_wf hm (set_item seg i it) /\ count (set_item seg i it) = count seg.
Proof using.
  intros [Hl Hs] Hi Ho Hit. pose proof (count_write hm seg i it (size seg) Hl Hi) as Hcount.
  unfold occupied in Ho. rewrite Ho, Hit in Hcount.
  change (set_item seg i it) with (write seg i it (size seg)).
  split; [split|lia]; [cbn; by rewrite length_insert|transitivity (size seg); [done|lia]].
Qed.

Lemma fill_item_wf seg i k v :
  seg_wf hm seg -> 0 <= i < segment_capacity hm -> ~ occupied seg i ->
  seg_wf hm (fill_item seg i k v) /\ count (fill_item seg i k v) = S (count seg).
Proof using Hcap.
  intros [Hl Hs] Hi Ho.
  pose proof (count_write hm seg i (mk_item true k v) (u64 (size seg + 1)) Hl Hi) as Hcount.
  unfold occupied in Ho. destruct (exists_ (item_at seg i)); [done|]. cbn [exists_] in Hcount.
  change (fill_item seg i k v) with (write seg i (mk_item true k v) (u64 (size seg + 1))).
  pose proof (count_le (write seg i (mk_item true k v) (u64 (size seg + 1)))) as Hle.
  cbn [items write] in Hle. rewrite length_insert in Hle.
  split; [split|lia]; [cbn; by rewrite length_insert|].
  transitivity (size seg + 1); [apply Z.mod_small; lia|lia].
Qed.

Lemma erase_item_wf seg i :
  seg_wf hm seg -> 0 <= i < segment_capacity hm -> occupied seg i ->
  seg_wf hm (erase_item seg i) /\ S (count (erase_item seg i)) = count seg.
Proof using Hcap.
  intros [Hl Hs] Hi Ho.
  pose proof (count_write hm seg i no_item (u64 (size seg - 1)) Hl Hi) as Hcount.
  unfold occupied in Ho. rewrite Ho in Hcount. cbn [exists_ no_item] in Hcount.
  change (erase_item seg i) with (write seg i no_item (u64 (size seg - 1))).
  pose proof (count_le seg) as Hle.
  split; [split|lia]; [cbn; by rewrite length_insert|].
  transitivity (size seg - 1); [apply Z.mod_small; lia|lia].
Qed.

Lemma item_at_fresh i : item_at (fresh_segment (segment_capacity hm)) i = no_item.
Proof using.
  unfold item_at, fresh_segment. cbn. destruct (_ !! _) eqn:E; [|done].
  by apply lookup_replicate in E as [-> _].
Qed.

Lemma count_fresh n : count (mk_segment 0 (replicate n no_item)) = 0%nat.
Proof using. unfold count. cbn. by induction n. Qed.

Lemma fresh_wf : seg_wf hm (fresh_segment (segment_capacity hm)).
Proof using Hcap.
  split; [|unfold fresh_segment; rewrite count_fresh; done].
  unfold fresh_segment, u64. cbn [items]. rewrite length_replicate, Z.mod_small by lia.
  rewrite Z.mul_comm, Z.div_mul by lia. lia.
Qed.

Lemma fresh_in_items k : in_items (fresh_segment (segment_capacity hm)) (home k) = true.
Proof using Hcap.
  destruct fresh_wf as [Hl _]. unfold in_items. rewrite Hl.
  pose proof (home_range hm Hcap k). apply Z.ltb_lt. lia.
Qed.

Lemma fresh_not_occupied i : ~ occupied (fresh_segment (segment_capacity hm)) i.
Proof using. unfold occupied. by rewrite item_at_fresh. Qed.

Lemma fresh_not_in k : ~ in_seg hm (fresh_segment (segment_capacity hm)) k.
Proof using. intros (i & _ & Ho & _). by apply fresh_not_occupied in Ho. Qed.

Lemma fresh_chain_ok : chain_ok [fresh_segment (segment_capacity hm)].
Proof using.
  split_and!; [|..|done].
  - intros i _ Ho. by apply fresh_not_occupied in Ho.
  - intros i j _ _ Ho. by apply fresh_not_occupied in Ho.
  - intros k H. by apply in_segs_nil in H.
Qed.

(** A new segment for [k] at the end of the chain. *)
Lemma put_fresh k v : put_post k v [] [fill_item (fresh_segment (segment_capacity hm)) (home k) k v].
Proof using Hcap KeyLaws0.
  destruct (put_here k v (home k) (u64 (0 + 1)) (fresh_segment (segment_capacity hm)) [])
    as (H1 & H2 & H3 & H4).
  - apply fresh_chain_ok.
  - constructor; [apply fresh_wf|done].
  - left. split; [done|]. left. apply fresh_not_occupied.
  - apply in_segs_nil.
  - right. apply fresh_not_in.
  - by apply (fill_item_wf _ (home k) k v fresh_wf (home_range hm Hcap k)), fresh_not_occupied.
  - split_and!; [exact H1|exact H2| |].
    + intros k2. etransitivity; [apply H3|]. case_decide; [done|].
      apply find_segs_none. rewrite in_segs_cons. intros [H' | H']; [by apply fresh_not_in in H'|by apply in_segs_nil in H'].
    + intros k2. etransitivity; [apply H4|]. rewrite in_segs_cons.
      pose proof (fresh_not_in k2). tauto.
Qed.

Definition put_loop_post (ok1 ok2 : bool) (k v : Z) (segs : list hashmap_segment_t) (r : put_result) : Prop :=
  match r with
  | Replaced old segs' =>
    put_post k v segs segs' /\ (exists it, find_segs k segs = Some it /\ old = value it) /\
    total segs' = total segs /\ length segs' = length segs
  | Filled segs' grown =>
    put_post k v segs segs' /\ find_segs k segs = None /\
    total segs' = S (total segs) /\ length segs' = (length segs + if grown then 1 else 0)%nat
  | PutNoMemory d => find_segs k segs = None /\ ok1 && ok2 = false /\ d = ok1
  | PutFault => False
  end.

Lemma put_behind_post ok1 ok2 k v seg rest r :
  chain_ok (seg :: rest) -> Forall (seg_wf hm) (seg :: rest) ->
  full hm seg k -> find_in_segment hm k (home k) seg = None ->
  put_loop_post ok1 ok2 k v rest r -> put_loop_post ok1 ok2 k v (seg :: rest) (put_behind seg r).
Proof using Hcap KeyLaws0.
  intros Hc Hwf Hfull Hf. destruct r as [old segs'|segs' grown|d|]; cbn; rewrite ?Hf; try done.
  - intros (Hp & Hit & Ht & Hl). split_and!; [by apply put_later|done|unfold total in *; cbn; lia|lia].
  - intros (Hp & Hit & Ht & Hl). split_and!; [by apply put_later|done|unfold total in *; cbn; lia|lia].
Qed.

Lemma put_fill ok1 ok2 k v i seg rest :
  chain_ok (seg :: rest) -> Forall (seg_wf hm) (seg :: rest) ->
  target hm seg k i -> ~ occupied seg i -> ~ full hm seg k ->
  find_in_segment hm k (home k) seg = None ->
  put_loop_post ok1 ok2 k v (seg :: rest) (Filled (fill_item seg i k v :: rest) false).
Proof using Hcap KeyLaws0.
  intros Hc Hwf Ht Hno Hnf Hf. pose proof Hc as (Hp & _ & Hlater & _).
  pose proof Hwf as [Hw _]%Forall_cons.
  assert (~ in_segs rest k) as Hnr by (intros H; by destruct (Hlater k H)).
  destruct (fill_item_wf seg i k v Hw (target_range hm Hcap _ _ _ Ht) Hno) as [Hw' Hcount].
  cbn -[fill_item]. rewrite Hf, find_segs_none by done.
  split_and!; [|done|unfold total; cbn -[fill_item]; lia|lia].
  apply put_here; try done. right. by apply (find_none hm).
Qed.

Lemma put_replace ok1 ok2 k v i seg rest :
  chain_ok (seg :: rest) -> Forall (seg_wf hm) (seg :: rest) ->
  target hm seg k i -> occupied seg i -> find_in_segment hm k (home k) seg = Some (item_at seg i) ->
  put_loop_post ok1 ok2 k v (seg :: rest)
    (Replaced (value (item_at seg i)) (set_item seg i (mk_item true k v) :: rest)).
Proof using Hcap KeyLaws0.
  intros Hc Hwf Ht Ho Hf. pose proof Hc as (_ & _ & Hlater & _).
  pose proof Hwf as [Hw _]%Forall_cons.
  destruct (set_item_wf seg i (mk_item true k v) Hw (target_range hm Hcap _ _ _ Ht) Ho)
    as [Hw' Hcount]; [done|].
  cbn -[set_item]. rewrite Hf. split_and!; [|by eexists|unfold total; cbn -[set_item]; lia|done].
  apply put_here; try done; [|by left].
  intros H. destruct (Hlater k H) as [_ Hn]. by apply Hn, (find_in_seg hm Hcap _ _ _ Hf).
Qed.

Lemma put_loop_spec ok1 ok2 k v segs :
  chain_ok segs -> Forall (seg_wf hm) segs -> segs <> [] -> dangling hm = false ->
  put_loop_post ok1 ok2 k v segs (put_loop ok1 ok2 hm k v (home k) segs).
Proof using Hcap KeyLaws0.
  induction segs as [|seg rest IH]; intros Hc Hwf Hne Hd; [done|].
  pose proof Hc as (Hp & Hu & Hlater & Hc'). pose proof Hwf as [Hw Hwf']%Forall_cons.
  assert (find_in_segment hm k (home k) seg = find_in_segment hm k (home k) seg) as Hf by done.
  unfold find_in_segment at 2 in Hf. cbn [put_loop]. rewrite (probes_wf hm Hcap seg k Hw). cbn [negb]. cbn zeta in *.
  destruct (exists_ (item_at seg (home k))) eqn:Eh.
  2:{ apply put_fill; try done; [left; split; [done|left]|..]; unfold full, occupied; rewrite Eh; intuition congruence. }
  destruct (hkc hm k (key (item_at seg (home k))) =? 0) eqn:Ek.
  { apply put_replace; try done. left. split; [done|right; unfold key_eq; lia]. }
  assert (~ key_eq hm k (key (item_at seg (home k)))) as Hnk by (unfold key_eq; lia).
  destruct (exists_ (item_at seg (next (home k)))) eqn:En.
  2:{ apply put_fill; try done; [right; split_and!; try done; left|..];
      unfold full, occupied; rewrite En; intuition congruence. }
  destruct (hkc hm k (key (item_at seg (next (home k)))) =? 0) eqn:Ek2.
  { apply put_replace; try done. right. split_and!; try done. right. unfold key_eq. lia. }
  (* both slots are taken *)
  destruct rest as [|seg2 rest]; [|by apply put_behind_post; try done; apply IH].
  rewrite Hd. unfold hashmap_segment_next_new. destruct ok1, ok2; cbn -[fill_item in_items fresh_segment]; rewrite ?Hf; try done.
  rewrite fresh_in_items. cbn -[fill_item fresh_segment]. rewrite Hf.
  destruct (fill_item_wf _ (home k) k v fresh_wf (home_range hm Hcap k) (fresh_not_occupied _)) as [_ Hcount].
  split_and!; [apply put_later; try done; apply put_fresh|done| |done].
  unfold total. cbn -[fill_item fresh_segment]. rewrite Hcount. unfold fresh_segment. rewrite count_fresh. lia.
Qed.

(** *** Deletion *)

(** The item of [k2] is stored behind the item of [k], in whose slot it would
    have its home. *)
Definition behind (segs : list hashmap_segment_t) (k k2 : Z) : Prop :=
  exists seg, seg ∈ segs /\
    occupied seg (home k2) /\ key_eq hm k (key (item_at seg (home k2))) /\
    occupied seg (next (home k2)) /\ key_eq hm k2 (key (item_at seg (next (home k2)))).

Definition delete_post (k : Z) (segs : list hashmap_segment_t) (r : access (option (list hashmap_segment_t))) : Prop :=
  match r with
  | Fault => False
  | Val None => find_segs k segs = None
  | Val (Some segs') =>
    is_Some (find_segs k segs) /\ find_segs k segs' = None /\
    Forall (seg_wf hm) segs' /\ S (total segs') = total segs /\ length segs' = length segs /\
    forall k2, ~ key_eq hm k k2 ->
      find_segs k2 segs' = find_segs k2 segs \/ (find_segs k2 segs' = None /\ behind segs k k2)
  end.

Lemma delete_here k i seg rest :
  chain_ok (seg :: rest) -> Forall (seg_wf hm) (seg :: rest) ->
  0 <= i < segment_capacity hm -> occupied seg i -> key_eq hm k (key (item_at seg i)) ->
  delete_post k (seg :: rest) (Val (Some (erase_item seg i :: rest))).
Proof using Hcap KeyLaws0.
  intros (Hp & Hu & Hlater & Hc) [Hw Hwf]%Forall_cons Hi Ho Hk.
  destruct (erase_item_wf seg i Hw Hi Ho) as [Hw' Hcount]. destruct Hw as [Hlen Hsz].
  assert (in_seg hm seg k) as Hin by (by exists i).
  assert (forall x, in_seg hm seg x -> find_segs x rest = None) as Hrest.
  { intros x Hx. apply find_segs_none. intros H. by destruct (Hlater x H). }
  change (erase_item seg i) with (write seg i no_item (u64 (size seg - 1))) in *.
  split_and!.
  - cbn. destruct (find_is_some hm seg k Hp Hin) as [it ->]. done.
  - cbn [find_segs]. destruct (find_in_segment hm k (home k) (write _ _ _ _)) eqn:E; [|by apply Hrest].
    apply (find_in_seg hm Hcap) in E. by apply erase_not_in_seg in E.
  - by constructor.
  - unfold total. cbn -[write]. lia.
  - done.
  - intros k2 Hne. cbn [find_segs].
    destruct (erase_find_other hm Hcap seg i (u64 (size seg - 1)) Hlen Hi Ho k2) as [-> | (-> & Hh & Ho2 & Hk2)].
    + intros H. apply Hne. etransitivity; [exact Hk|by symmetry].
    + by left.
    + right. split; [apply Hrest; exists (next i); split_and!; try done; apply (next_range hm Hcap)|].
      exists seg. rewrite Hh. split_and!; try done. apply elem_of_cons. by left.
Qed.

Lemma delete_later k seg rest r :
  find_in_segment hm k (home k) seg = None -> Forall (seg_wf hm) (seg :: rest) ->
  delete_post k rest r ->
  delete_post k (seg :: rest)
    match r with Fault => Fault | Val None => Val None | Val (Some rest') => Val (Some (seg :: rest')) end.
Proof using.
  intros Hf [Hw Hwf]%Forall_cons. destruct r as [[rest'|]|]; cbn; [|by rewrite Hf|done].
  rewrite Hf. intros (H1 & H2 & H3 & H4 & H5 & H6).
  split_and!; [done|done|by constructor|unfold total in *; cbn; lia|lia|].
  intros k2 Hne. destruct (find_in_segment hm k2 (home k2) seg); [by left|].
  destruct (H6 k2 Hne) as [-> | [-> (s & Hs & Hb)]]; [by left|].
  right. split; [done|]. exists s. split; [|done]. apply elem_of_cons. by right.
Qed.

Lemma delete_loop_spec k segs :
  chain_ok segs -> Forall (seg_wf hm) segs -> dangling hm = false ->
  delete_post k segs (delete_loop hm k (home k) segs).
Proof using Hcap KeyLaws0.
  induction segs as [|seg rest IH]; intros Hc Hwf Hd; cbn [delete_loop]; [by rewrite Hd|].
  pose proof Hc as (_ & _ & _ & Hc'). pose proof Hwf as [Hw Hwf']%Forall_cons.
  rewrite (probes_wf hm Hcap seg k Hw). cbn [negb].
  pose proof (home_range hm Hcap k). pose proof (next_range hm Hcap (home k)).
  assert (find_in_segment hm k (home k) seg = find_in_segment hm k (home k) seg) as Hf by done.
  unfold find_in_segment at 2 in Hf. cbn zeta in *.
  destruct (exists_ (item_at seg (home k))) eqn:Eh; [|by apply delete_later; auto].
  destruct (hkc hm k (key (item_at seg (home k))) =? 0) eqn:Ek.
  { apply delete_here; try done. unfold key_eq. lia. }
  destruct (exists_ (item_at seg (next (home k)))) eqn:En; [|by apply delete_later; auto].
  destruct (hkc hm k (key (item_at seg (next (home k)))) =? 0) eqn:Ek2; [|by apply delete_later; auto].
  apply delete_here; try done. unfold key_eq. lia.
Qed.

Lemma find_loop_segs k segs :
  Forall (seg_wf hm) segs -> dangling hm = false -> find_loop hm k (home k) segs = Val (find_segs k segs).
Proof using Hcap.
  intros Hwf Hd. induction Hwf as [|seg rest Hw Hwf IH]; cbn; [by rewrite Hd|].
  rewrite (probes_wf hm Hcap seg k Hw). cbn. by destruct (find_in_segment hm k (home k) seg).
Qed.
End Chain.

(** ** The map *)

(** What the map binds a key to. *)
Definition lookup_value (hm : hashmap_t) (k : Z) : option Z := value <$> find_segs hm k (segments hm).

(** The counters, the sizes and the chain of pointers; every operation keeps
    them. *)
Record hm_wf (hm : hashmap_t) : Prop := {
  wf_laws :: KeyLaws hm;
  wf_capacity : items_fit (segment_capacity hm);
  wf_dangling : dangling hm = false;
  wf_segments : segments hm <> [];
  wf_segs : Forall (seg_wf hm) (segments hm);
  wf_total_size : total_size hm = u64 (Z.of_nat (total (segments hm)));
  wf_total_capacity : total_capacity hm = u64 (segment_capacity hm * Z.of_nat (length (segments hm)));
}.

(** The invariant of a map into which items were only put. *)
Record hm_inv (hm : hashmap_t) : Prop := {
  inv_wf :> hm_wf hm;
  inv_chain : chain_ok hm (segments hm);
}.

Lemma get_lookup hm k :
  hm_wf hm -> hashmap_get (Some hm) k = Val (default NULL (lookup_value hm k)).
Proof.
  intros []. unfold hashmap_get, find_item, lookup_value. rewrite find_loop_segs by done.
  by destruct (find_segs hm k (segments hm)).
Qed.

Lemma exists_lookup hm k :
  hm_wf hm -> hashmap_exists (Some hm) k = Val (bool_decide (is_Some (lookup_value hm k))).
Proof.
  intros []. unfold hashmap_exists, find_item, lookup_value. rewrite find_loop_segs by done.
  by destruct (find_segs hm k (segments hm)).
Qed.

(** The functions of the key do not change with the segments. *)
Lemma with_segments_laws hm tc ts segs d : KeyLaws hm -> KeyLaws (with_segments hm tc ts segs d).
Proof. intros [? ?]. split; done. Qed.

Lemma with_segments_find hm tc ts segs d k l :
  find_segs (with_segments hm tc ts segs d) k l = find_segs hm k l.
Proof. induction l as [|seg l IH]; [done|]. cbn. by rewrite IH. Qed.

Lemma with_segments_chain hm tc ts segs d l :
  chain_ok (with_segments hm tc ts segs d) l <-> chain_ok hm l.
Proof. induction l as [|seg l IH]; [done|]. cbn. by rewrite IH. Qed.

Lemma u64_succ n m : u64 (u64 n + m) = u64 (n + m).
Proof. unfold u64. by rewrite Zplus_mod_idemp_l. Qed.
