(* ===== verification/HashmapClaims.v ===== *)
(** * Hash maps: what the operations promise

    The properties of [cc/lib/hashmap.64.c] built on the chain invariant of
    [HashmapProps]: creation, insertion, deletion, iteration, the refinement of
    finite maps by integer-keyed maps, and the behaviours that break them. *)

From S2P Require Import Prelude Hashmap HashmapProps.

(** ** Creation *)

Lemma new_inv c kg kc hm :
  items_fit c -> hashmap_new_with_hkg_with_hkc true true true c kg kc = Some hm ->
  KeyLaws hm -> hm_inv hm /\ forall k, lookup_value hm k = None.
Proof.
  intros Hc Hnew Hl. unfold hashmap_new_with_hkg_with_hkc in Hnew.
  destruct (c =? 0) eqn:E; [lia|]. cbn in Hnew. injection Hnew as <-.
  set (hm := mk_hashmap _ _ _ _ _ _ _) in *.
  split.
  - split; [split; try done|apply (fresh_chain_ok hm)].
    + constructor; [by apply (fresh_wf hm)|done].
    + change (0 = u64 (Z.of_nat (count (fresh_segment c) + 0))). unfold fresh_segment. by rewrite count_fresh.
    + cbn. unfold u64. rewrite Z.mod_small; lia.
  - intros k. unfold lookup_value. rewrite find_segs_none; [done|done|].
    change (~ in_segs hm [fresh_segment c] k).
    rewrite in_segs_cons. intros [H | H]; [by apply (fresh_not_in hm) in H|by apply in_segs_nil in H].
Qed.

(** ** Insertion *)

Lemma lookup_put_post hm tc ts d k v segs' k2 :
  put_post hm k v (segments hm) segs' ->
  lookup_value (with_segments hm tc ts segs' d) k2 =
    if decide (key_eq hm k k2) then Some v else lookup_value hm k2.
Proof.
  intros (_ & _ & Hf & _). unfold lookup_value. rewrite with_segments_find. cbn [segments with_segments].
  rewrite Hf. by case_decide.
Qed.

Lemma put_step hm k v :
  hm_inv hm ->
  exists hm', hashmap_put true true (Some hm) k v = Val (default NULL (lookup_value hm k), Some hm') /\
    hm_inv hm' /\ hkg hm' = hkg hm /\ hkc hm' = hkc hm /\
    (forall k2, lookup_value hm' k2 = if decide (key_eq hm k k2) then Some v else lookup_value hm k2) /\
    total_size hm' = u64 (total_size hm + if decide (is_Some (lookup_value hm k)) then 0 else 1).
Proof.
  intros [[Hl Hcap Hd Hne Hwf Hts Htc] Hc].
  pose proof (put_loop_spec hm Hcap true true k v (segments hm) Hc Hwf Hne Hd) as Hpost.
  unfold hashmap_put.
  destruct (put_loop _ _ _ _ _ _ _) as [old segs'|segs' grown|d|]; cbn in Hpost; [..|done].
  - destruct Hpost as (Hp & (it & Hf & ->) & Ht & Hlen). eexists. split.
    { unfold lookup_value. by rewrite Hf. }
    assert (lookup_value hm k = Some (value it)) as -> by (unfold lookup_value; by rewrite Hf).
    split; [|split_and!; try done].
    + destruct Hp as (Hc' & Hwf' & _). split; [split; cbn [segments with_segments total_size total_capacity dangling segment_capacity]; try done|by apply with_segments_chain].
      * by apply with_segments_laws.
      * by intros ->; destruct (segments hm).
      * by rewrite Hts, Ht.
      * by rewrite Htc, Hlen.
    + intros k2. by apply lookup_put_post.
    + cbn. rewrite Hts. unfold u64. by rewrite Z.add_0_r, Z.mod_mod.
  - destruct Hpost as (Hp & Hf & Ht & Hlen). eexists. split.
    { unfold lookup_value. by rewrite Hf. }
    assert (lookup_value hm k = None) as -> by (unfold lookup_value; by rewrite Hf).
    split; [|split_and!; try done].
    + destruct Hp as (Hc' & Hwf' & _). split; [split; cbn [segments with_segments total_size total_capacity dangling segment_capacity]; try done|by apply with_segments_chain].
      * by apply with_segments_laws.
      * by intros ->.
      * rewrite Hts, u64_succ, Ht. f_equal. lia.
      * rewrite Htc, Hlen. destruct grown; [|by rewrite Nat.add_0_r].
        rewrite u64_succ. f_equal. lia.
    + intros k2. by apply lookup_put_post.
  - by destruct Hpost as (_ & ? & _).
Qed.

(** [hashmap_put] on a map into which items were only put: it returns
    the value it replaces ([NULL] if none), afterwards [hashmap_get] of every
    key equal to [k] gives [v] and of every other key what it gave before, the
    size grows by one exactly when the key is new, and the invariant is kept. *)
Theorem hashmap_put_correct hm k v :
  hm_inv hm ->
  exists hm', hashmap_put true true (Some hm) k v = Val (default NULL (lookup_value hm k), Some hm') /\
    hm_inv hm' /\
    (forall k2, hashmap_get (Some hm') k2 =
       if decide (key_eq hm k k2) then Val v else hashmap_get (Some hm) k2) /\
    (forall k2, hashmap_exists (Some hm') k2 =
       if decide (key_eq hm k k2) then Val true else hashmap_exists (Some hm) k2) /\
    hashmap_size (Some hm') =
      u64 (hashmap_size (Some hm) + match hashmap_exists (Some hm) k with Val true => 0 | _ => 1 end).
Proof.
  intros Hinv. destruct (put_step hm k v Hinv) as (hm' & Hput & Hinv' & _ & _ & Hlk & Hts).
  pose proof (inv_wf _ Hinv) as Hd. pose proof (inv_wf _ Hinv') as Hd'.
  exists hm'. split_and!; [done|done|..].
  - intros k2. rewrite !get_lookup, Hlk by done. by destruct (decide (key_eq hm k k2)).
  - intros k2. rewrite !exists_lookup, Hlk by done.
    destruct (decide (key_eq hm k k2)); [f_equal; by apply bool_decide_eq_true_2|done].
  - unfold hashmap_size. rewrite exists_lookup, Hts by done. f_equal. f_equal.
    by destruct (lookup_value hm k).
Qed.


(** ** Integer keys: the map refines a finite map *)

Fixpoint put_all (handle : option hashmap_t) (ops : list (Z * Z)) : access (option hashmap_t) :=
  match ops with
  | [] => Val handle
  | (k, v) :: ops =>
    match hashmap_put true true handle k v with
    | Fault => Fault
    | Val (_, handle) => put_all handle ops
    end
  end.

Definition spec_puts (ops : list (Z * Z)) (m : gmap Z Z) : gmap Z Z :=
  foldl (fun m op => <[op.1 := op.2]> m) m ops.

(** The relation between a map with integer keys and the finite map it holds. *)
Record holds_map (hm : hashmap_t) (m : gmap Z Z) : Prop := {
  hmap_inv : hm_inv hm;
  hmap_hkg : hkg hm = hashmap_default_kg;
  hmap_hkc : hkc hm = hashmap_default_kc;
  hmap_lookup : forall k, lookup_value hm k = m !! k;
  hmap_size : total_size hm = u64 (Z.of_nat (base.size m));
}.

Lemma put_holds hm m k v :
  holds_map hm m ->
  exists r hm', hashmap_put true true (Some hm) k v = Val (r, Some hm') /\ holds_map hm' (<[k := v]> m).
Proof.
  intros [Hinv Hg Hc Hlk Hsz]. destruct (put_step hm k v Hinv) as (hm' & Hput & Hinv' & Hg' & Hc' & Hlk' & Hts).
  eexists _, hm'. split; [exact Hput|]. split; [done|congruence|congruence|..].
  - intros k2. rewrite Hlk', Hlk. destruct (decide (key_eq hm k k2)) as [E|E];
      unfold key_eq in E; rewrite Hc, default_kc_zero in E; [subst; by rewrite lookup_insert_eq|].
    by rewrite lookup_insert_ne.
  - rewrite Hts, Hsz, u64_succ, map_size_insert, Hlk. f_equal.
    destruct (m !! k) as [z|]; cbn.
    + rewrite decide_True by done. lia.
    + rewrite decide_False by (intros [? ?]; done). lia.
Qed.

Lemma put_all_holds ops hm m :
  holds_map hm m -> exists hm', put_all (Some hm) ops = Val (Some hm') /\ holds_map hm' (spec_puts ops m).
Proof.
  revert hm m. induction ops as [|[k v] ops IH]; intros hm m Hm; cbn [put_all]; [by exists hm|].
  destruct (put_holds hm m k v Hm) as (r & hm1 & -> & Hm1). apply (IH hm1 _ Hm1).
Qed.

(** C19.  A map with integer keys refines a finite map: whatever sequence of
    insertions runs on a new map, it ends, and then [hashmap_get] and
    [hashmap_exists] answer as the finite map with the same insertions does, and
    the size is the number of its keys.  The capacity is any one for which the
    size of the items, [sizeof(hashmap_item_t) * capacity], does not wrap around
    64 bits (see [capacity_wraps]), and allocations succeed. *)
Theorem hashmap_integer_refines c ops :
  0 < c -> sizeof_hashmap_item_t * c < 2 ^ 64 ->
  exists hm, put_all (hashmap_new_with_hkg_with_hkc true true true c None None) ops = Val (Some hm) /\
    (forall k, hashmap_get (Some hm) k = Val (default NULL (spec_puts ops ∅ !! k))) /\
    (forall k, hashmap_exists (Some hm) k = Val (bool_decide (is_Some (spec_puts ops ∅ !! k)))) /\
    hashmap_size (Some hm) = u64 (Z.of_nat (base.size (spec_puts ops ∅))).
Proof.
  intros Hc0 Hc1. pose proof (conj Hc0 Hc1) as Hc.
  destruct (hashmap_new_with_hkg_with_hkc true true true c None None) as [hm0|] eqn:E.
  2:{ unfold hashmap_new_with_hkg_with_hkc in E. destruct (c =? 0) eqn:?; [lia|done]. }
  assert (hkg hm0 = hashmap_default_kg /\ hkc hm0 = hashmap_default_kc /\ total_size hm0 = 0) as (Hg & Hk & Hs).
  { unfold hashmap_new_with_hkg_with_hkc in E. destruct (c =? 0); [done|]. by injection E as <-. }
  destruct (new_inv c None None hm0 Hc E (default_key_laws _ Hg Hk)) as [Hinv Hlk].
  destruct (put_all_holds ops hm0 ∅) as (hm & Hrun & [Hinv' _ _ Hlk' Hsz]).
  { split; try done. }
  pose proof (inv_wf _ Hinv') as Hd.
  exists hm. split_and!; [done|..].
  - intros k. by rewrite get_lookup, Hlk'.
  - intros k. by rewrite exists_lookup, Hlk'.
  - done.
Qed.

(** ** Deletion *)

(** C20.  [hashmap_delete] on a map into which items were only put: it returns
    true, also for a key that is not there (the documentation of the function
    says false), afterwards the key is gone, the size drops by one exactly when
    it was there, the counters and sizes stay consistent, and every other key
    keeps its binding, except that a key whose item is stored behind the deleted
    one, with its home in the freed slot, may be lost
    ([delete_hides_neighbour]). *)
Theorem hashmap_delete_correct hm k :
  hm_inv hm ->
  exists hm', hashmap_delete (Some hm) k = Val (true, Some hm') /\ hm_wf hm' /\
    hashmap_exists (Some hm') k = Val false /\ hashmap_get (Some hm') k = Val NULL /\
    (forall k2, ~ key_eq hm k k2 ->
       (hashmap_get (Some hm') k2 = hashmap_get (Some hm) k2 /\
        hashmap_exists (Some hm') k2 = hashmap_exists (Some hm) k2) \/
       (hashmap_exists (Some hm') k2 = Val false /\ behind hm (segments hm) k k2)) /\
    hashmap_size (Some hm') =
      u64 (hashmap_size (Some hm) - match hashmap_exists (Some hm) k with Val true => 1 | _ => 0 end).
Proof.
  intros [[Hl Hcap Hd Hne Hwf Hts Htc] Hc].
  pose proof (delete_loop_spec hm Hcap k (segments hm) Hc Hwf Hd) as Hpost.
  unfold hashmap_delete.
  destruct (delete_loop _ _ _ _) as [[segs'|]|]; cbn in Hpost; [..|done].
  - destruct Hpost as ([it Hf] & Hf' & Hwf' & Ht & Hlen & Hother).
    eexists. split; [done|].
    assert (hm_wf hm) as Hw by done.
    set (hm' := with_segments _ _ _ _ _). assert (hm_wf hm') as Hw'.
    { split; cbn [hm' segments with_segments total_size total_capacity dangling segment_capacity]; try done.
      - by apply with_segments_laws.
      - intros ->. cbn in Hlen. by destruct (segments hm).
      - rewrite Hts. unfold u64. rewrite Zminus_mod_idemp_l. f_equal. lia.
      - by rewrite Htc, Hlen. }
    assert (forall x, lookup_value hm' x = value <$> find_segs hm x segs') as Hlk
      by (intros x; unfold lookup_value, hm'; by rewrite with_segments_find).
    rewrite !exists_lookup, !get_lookup, !Hlk, Hf' by done.
    split_and!; try done.
    + intros k2 Hk2. rewrite !exists_lookup, !get_lookup, !Hlk by done. unfold lookup_value.
      destruct (Hother k2 Hk2) as [-> | [-> Hb]]; [by left|by right].
    + unfold lookup_value. by rewrite Hf.
  - assert (hm_wf hm) as Hw by done. eexists. split; [done|]. rewrite exists_lookup, get_lookup by done.
    unfold lookup_value. rewrite Hpost. split_and!; try done; [by intros; left|].
    cbn. rewrite Z.sub_0_r, Hts. unfold u64. by rewrite Z.mod_mod.
Qed.

(** ** Iteration *)

(** The items of a chain, in the order of segments and slots. *)
Definition live (segs : list hashmap_segment_t) : list hashmap_item_t :=
  filter (fun it => exists_ it = true) (concat (items <$> segs)).

(** The loop of a client: from [end_of_iterator] over [get_extra_data] and
    [get_item] to [next], collecting keys and values. *)
Fixpoint drain (fuel : nat) (iter : option hashmap_iterator_metadata_t) : option (access (list (Z * Z))) :=
  match fuel with
  | O => None
  | S fuel =>
    if hashmap_iterator_end_of_iterator iter =? 0 then Some (Val [])
    else
      match hashmap_iterator_get_extra_data iter, hashmap_iterator_get_item iter with
      | Val k, Val v =>
        match hashmap_iterator_next iter with
        | None => None
        | Some Fault => Some Fault
        | Some (Val iter) =>
          match drain fuel iter with
          | Some (Val l) => Some (Val ((k, v) :: l))
          | r => r
          end
        end
      | _, _ => Some Fault
      end
  end.

Section Iterate.
Context (cap : Z) (Hcap : 0 < cap < 2 ^ 64).

Definition len_ok (seg : hashmap_segment_t) : Prop := Z.of_nat (length (items seg)) = cap.

(** The iterator is at an item, or at the end. *)
Definition md_ok (md : hashmap_iterator_metadata_t) : Prop :=
  md_dangling md = false /\ md_capacity md = cap /\ Forall len_ok (current_segment md) /\
  match current_segment md with
  | [] => True
  | seg :: _ => 0 <= current_index md < cap /\ exists it, current_item md = Val it /\ exists_ it = true
  end.

Definition pending (md : hashmap_iterator_metadata_t) : list hashmap_item_t :=
  match current_segment md with
  | [] => []
  | seg :: rest =>
    filter (fun it => exists_ it = true) (drop (Z.to_nat (current_index md)) (items seg) ++ concat (items <$> rest))
  end.

Lemma item_in_range seg i : len_ok seg -> 0 <= i < cap -> exists it, items seg !! Z.to_nat i = Some it.
Proof using. intros Hl Hi. apply lookup_lt_is_Some_2. unfold len_ok in Hl. lia. Qed.

Lemma next_loop_spec fuel seg rest idx :
  Forall len_ok (seg :: rest) -> 0 <= idx < cap ->
  (Z.to_nat (cap - idx) + length rest * Z.to_nat cap <= fuel)%nat ->
  exists md, next_loop fuel (mk_iter (seg :: rest) false cap idx) = Some (Val md) /\ md_ok md /\
    pending md =
      filter (fun it => exists_ it = true) (drop (S (Z.to_nat idx)) (items seg) ++ concat (items <$> rest)).
Proof using Hcap.
  revert seg rest idx. induction fuel as [|fuel IH]; intros seg rest idx Hl Hi Hfuel; [lia|].
  pose proof Hl as [Hs Hr]%Forall_cons. cbn [next_loop current_index md_capacity current_segment md_dangling].
  replace (u64 (idx + 1)) with (idx + 1) by (unfold u64; rewrite Z.mod_small; lia).
  destruct (idx + 1 =? cap) eqn:E.
  - cbn [advance_segment current_segment md_dangling md_capacity].
    rewrite (drop_ge (items seg)) by (unfold len_ok in Hs; lia). cbn [app].
    destruct rest as [|seg2 rest]; [by eexists|].
    pose proof Hr as [Hs2 Hr2]%Forall_cons.
    destruct (item_in_range seg2 0 Hs2) as [it Hit]; [lia|].
    unfold current_item. cbn [at_end current_segment current_index]. rewrite Hit.
    cbn [fmap list_fmap concat]. destruct (exists_ it) eqn:Ee.
    + eexists. split; [done|]. split; [|done]. split_and!; [done|done|done|]. cbn.
      split; [lia|]. exists it. unfold current_item. cbn in *. by rewrite Hit.
    + destruct (IH seg2 rest 0) as (md & -> & Hok & Hp); [done|lia|cbn in Hfuel; lia|].
      eexists. split; [done|]. split; [done|]. rewrite Hp. destruct (items seg2) as [|x l] eqn:El; [done|].
      injection Hit as ->. cbn [app drop]. rewrite filter_cons. rewrite decide_False by congruence. by rewrite drop_0.
  - destruct (item_in_range seg (idx + 1) Hs) as [it Hit]; [lia|].
    unfold current_item. cbn [at_end current_segment current_index]. rewrite Hit.
    replace (Z.to_nat (idx + 1)) with (S (Z.to_nat idx)) in Hit by lia.
    rewrite (drop_S _ it) by done. cbn [app]. destruct (exists_ it) eqn:Ee.
    + eexists. split; [done|]. split.
      * split_and!; [done|done|done|]. cbn. split; [lia|]. exists it. unfold current_item. cbn.
        replace (Z.to_nat (idx + 1)) with (S (Z.to_nat idx)) by lia. by rewrite Hit.
      * unfold pending. cbn [current_segment current_index].
        replace (Z.to_nat (idx + 1)) with (S (Z.to_nat idx)) by lia. by rewrite (drop_S _ it).
    + destruct (IH seg rest (idx + 1)) as (md & -> & Hok & Hp); [done|lia|lia|].
      eexists. split; [done|]. split; [done|]. rewrite Hp. rewrite filter_cons, decide_False by congruence.
      by replace (Z.to_nat (idx + 1)) with (S (Z.to_nat idx)) by lia.
Qed.

Lemma drain_spec fuel md :
  md_ok md -> (length (pending md) < fuel)%nat ->
  drain fuel (Some md) = Some (Val ((fun it => (key it, value it)) <$> pending md)).
Proof using Hcap.
  revert md. induction fuel as [|fuel IH]; intros [segs d c idx] (Hd & Hc & Hl & Hm) Hf; [lia|].
  cbn [md_dangling md_capacity current_segment current_index] in *. subst d c.
  destruct segs as [|seg rest]; [done|]. destruct Hm as (Hi & it & Hit & He).
  cbn [drain]. unfold hashmap_iterator_end_of_iterator, hashmap_iterator_get_extra_data, hashmap_iterator_get_item.
  rewrite Hit. cbn [at_end current_segment Z.eqb].
  destruct (next_loop_spec (slots_left (mk_iter (seg :: rest) false cap idx)) seg rest idx) as (md & Hn & Hok & Hp);
    [done|done|unfold slots_left; cbn; lia|].
  unfold hashmap_iterator_next. cbn [at_end current_segment]. rewrite Hn.
  unfold current_item in Hit. cbn [current_segment current_index] in Hit.
  destruct (items seg !! Z.to_nat idx) as [x|] eqn:Ex; [|done]. injection Hit as ->.
  assert (pending (mk_iter (seg :: rest) false cap idx) = it :: pending md) as Hpend.
  { rewrite Hp. unfold pending. cbn [current_segment current_index].
    rewrite (drop_S _ it) by done. cbn [app]. by rewrite filter_cons, decide_True. }
  rewrite Hpend in Hf |- *. rewrite IH; [done|done|cbn in Hf; lia].
Qed.

Lemma create_loop_spec fuel seg rest idx j :
  Forall len_ok (seg :: rest) -> 0 <= idx <= j -> j < cap -> occupied seg j ->
  (Z.to_nat (cap - idx) < fuel)%nat ->
  exists md, create_loop fuel (mk_iter (seg :: rest) false cap idx) = Some (Val md) /\ md_ok md /\
    pending md = filter (fun it => exists_ it = true) (drop (Z.to_nat idx) (items seg) ++ concat (items <$> rest)).
Proof using Hcap.
  revert idx. induction fuel as [|fuel IH]; intros idx Hl Hi Hj Ho Hfuel; [lia|].
  pose proof Hl as [Hs _]%Forall_cons. destruct (item_in_range seg idx Hs) as [it Hit]; [lia|].
  cbn [create_loop at_end current_segment]. unfold current_item. cbn [current_segment current_index md_capacity md_dangling].
  rewrite Hit. destruct (exists_ it) eqn:Ee.
  - eexists. split; [done|]. split; [|done]. split_and!; [done|done|done|]. cbn. split; [lia|].
    exists it. unfold current_item. cbn. by rewrite Hit.
  - replace (u64 (idx + 1)) with (idx + 1) by (unfold u64; rewrite Z.mod_small; lia).
    assert (idx <> j) as Hne. { intros ->. unfold occupied, item_at in Ho. rewrite Hit in Ho. cbn in Ho. congruence. }
    destruct (idx + 1 =? cap) eqn:E; [lia|].
    destruct (IH (idx + 1)) as (md & -> & Hok & Hp); [done|lia|lia|done|lia|].
    eexists. split; [done|]. split; [done|]. rewrite Hp. rewrite (drop_S (items seg) it (Z.to_nat idx)) by done.
    cbn [app]. rewrite filter_cons, decide_False by congruence.
    by replace (Z.to_nat (idx + 1)) with (S (Z.to_nat idx)) by lia.
Qed.
End Iterate.

(** A stored item is what a search for its key finds. *)
Lemma find_stored hm segs seg i k :
  KeyLaws hm -> items_fit (segment_capacity hm) -> chain_ok hm segs -> seg ∈ segs ->
  0 <= i < segment_capacity hm -> occupied seg i -> key_eq hm k (key (item_at seg i)) ->
  find_segs hm k segs = Some (item_at seg i).
Proof.
  intros Hl Hcap Hc Hseg Hi Ho Hk. induction segs as [|s rest IH]; [by apply elem_of_nil in Hseg|].
  destruct Hc as (Hp & Hu & Hlater & Hc). cbn [find_segs].
  apply elem_of_cons in Hseg as [<- | Hseg].
  - destruct (find_is_some hm seg k Hp) as [it Hf]; [by exists i|]. rewrite Hf.
    destruct (find_some hm seg k it Hf) as (j & Hj & Hoj & -> & Hkj).
    replace j with i; [done|]. apply Hu; try done.
    + destruct Hj as [-> | [-> _]]; [by apply home_range|by apply next_range].
    + etransitivity; [by symmetry|exact Hkj].
  - destruct (Hlater k) as [_ Hn]; [exists seg; split; [done|by exists i]|].
    destruct (find_in_segment hm k (home_slot hm k) s) eqn:E; [|by apply IH].
    by apply find_in_seg in E.
Qed.

Lemma live_cons seg rest : live (seg :: rest) = filter (fun it => exists_ it = true) (items seg) ++ live rest.
Proof. unfold live. cbn. by rewrite filter_app. Qed.

Lemma elem_of_live segs it : it ∈ live segs <-> exists_ it = true /\ exists seg, seg ∈ segs /\ it ∈ items seg.
Proof.
  induction segs as [|seg rest IH]; [|rewrite live_cons, elem_of_app, list_elem_of_filter, IH].
  - cbn. rewrite elem_of_nil. split; [done|]. by intros (_ & s & H%elem_of_nil & _).
  - setoid_rewrite elem_of_cons. split.
    + intros [[? ?] | (? & s & ? & ?)]; eauto.
    + intros (? & s & [-> | ?] & ?); eauto 6.
Qed.

Lemma length_live segs : length (live segs) = total segs.
Proof.
  induction segs as [|seg rest IH]; [done|]. rewrite live_cons, length_app, IH. done.
Qed.

(** Bindings and stored items are the same. *)
Lemma lookup_live hm k v :
  hm_inv hm ->
  lookup_value hm k = Some v <->
  exists it, it ∈ live (segments hm) /\ key_eq hm k (key it) /\ value it = v.
Proof.
  intros [[Hl Hcap Hd Hne Hwf _ _] Hc]. unfold lookup_value. rewrite fmap_Some. split.
  - intros (it & Hf & ->). pose proof (find_segs_in hm Hcap k _ it Hf) as (seg & Hs & i & Hi & Ho & Hk).
    rewrite (find_stored hm _ seg i k) in Hf by done. injection Hf as <-.
    exists (item_at seg i). split; [|done]. apply elem_of_live. split; [done|]. exists seg. split; [done|].
    pose proof (proj1 (Forall_forall _ _) Hwf seg Hs) as [Hlen _].
    destruct (item_in_range _ seg i Hlen Hi) as [it Hit]. unfold item_at. rewrite Hit.
    by eapply list_elem_of_lookup_2.
  - intros (it & (He & seg & Hs & [n Hit]%list_elem_of_lookup)%elem_of_live & Hk & <-).
    pose proof (proj1 (Forall_forall _ _) Hwf seg Hs) as [Hlen _].
    assert (item_at seg (Z.of_nat n) = it) as Hat by (unfold item_at; by rewrite Nat2Z.id, Hit).
    exists it. split; [|done]. rewrite <- Hat. apply find_stored; try done.
    + apply lookup_lt_Some in Hit. lia.
    + unfold occupied. by rewrite Hat.
    + by rewrite Hat.
Qed.

Lemma first_segment_occupied hm seg rest :
  hm_inv hm -> segments hm = seg :: rest -> total (segments hm) <> 0%nat ->
  exists j, 0 <= j < segment_capacity hm /\ occupied seg j.
Proof.
  intros [[Hl Hcap Hd Hne Hwf _ _] Hc] E Ht. rewrite E in *.
  rewrite <- length_live in Ht. destruct (live (seg :: rest)) as [|it l] eqn:El; [done|].
  assert (it ∈ live (seg :: rest)) as (He & s & Hs & [n Hit]%list_elem_of_lookup)%elem_of_live
    by (rewrite El; apply elem_of_cons; by left).
  pose proof (proj1 (Forall_forall _ _) Hwf s Hs) as [Hlen _].
  assert (item_at s (Z.of_nat n) = it) as Hat by (unfold item_at; by rewrite Nat2Z.id, Hit).
  assert (0 <= Z.of_nat n < segment_capacity hm) as Hn by (apply lookup_lt_Some in Hit; lia).
  assert (occupied s (Z.of_nat n)) as Hon by (unfold occupied; by rewrite Hat).
  apply elem_of_cons in Hs as [-> | Hs]; [by exists (Z.of_nat n)|].
  destruct Hc as (_ & _ & Hlater & _). destruct (Hlater (key it)) as [[Hh _] _].
  { exists s. split; [done|]. exists (Z.of_nat n). rewrite Hat. split_and!; try lia; done. }
  exists (home_slot hm (key it)). split; [by apply home_range|done].
Qed.

(** C21.  Iterating over a map into which items were only put ends after every
    item was visited, without a bad access, and visits exactly the bindings,
    as many pairs as the size of the map. *)
Theorem hashmap_iterate_correct hm :
  hm_inv hm -> Z.of_nat (total (segments hm)) < 2 ^ 64 ->
  exists md l, hashmap_iterator_create true true (Some hm) = Some (Val (Some md)) /\
    drain (S (total (segments hm))) (Some md) = Some (Val l) /\
    Z.of_nat (length l) = hashmap_size (Some hm) /\
    forall k v, lookup_value hm k = Some v <-> exists k', (k', v) ∈ l /\ key_eq hm k k'.
Proof.
  intros Hinv Hbound. pose proof (inv_wf _ Hinv) as [Hl Hcap Hd Hne Hwf Hts _].
  unfold u64 in Hts. rewrite Z.mod_small in Hts by lia.
  assert (exists md, hashmap_iterator_create true true (Some hm) = Some (Val (Some md)) /\
    md_ok (segment_capacity hm) md /\ pending md = live (segments hm)) as (md & Hcr & Hok & Hp).
  { unfold hashmap_iterator_create. cbn [negb]. rewrite Hd. destruct (total_size hm =? 0) eqn:E0.
    - eexists. split; [done|]. split; [done|]. symmetry. apply length_zero_iff_nil. rewrite length_live. lia.
    - destruct (segments hm) as [|seg rest] eqn:Es; [done|].
      destruct (first_segment_occupied hm seg rest Hinv Es) as (j & Hj & Ho); [rewrite Es; lia|].
      destruct (create_loop_spec (segment_capacity hm) ltac:(lia)
        (slots_left (mk_iter (seg :: rest) false (segment_capacity hm) 0)) seg rest 0 j) as (md & -> & Hok & Hp).
      + eapply Forall_impl; [exact Hwf|]. by intros s [? _].
      + lia.
      + lia.
      + done.
      + unfold slots_left. cbn. lia.
      + by exists md. }
  exists md, ((fun it => (key it, value it)) <$> live (segments hm)).
  split_and!; [done| | |].
  - rewrite <- Hp. apply (drain_spec (segment_capacity hm)); try done; [lia|]. rewrite Hp, length_live. lia.
  - rewrite length_fmap, length_live. cbn. lia.
  - intros k v. rewrite (lookup_live hm k v Hinv). setoid_rewrite list_elem_of_fmap. split.
    + intros (it & Hit & Hk & <-). exists (key it). split; [by exists it|done].
    + intros (k' & (it & [= -> ->] & Hit) & Hk). by exists it.
Qed.

(** ** Concrete maps *)

Module HashmapDemo.

(** Keys 1, 5 and 9 have the same home slot in a map of capacity 4. *)
Definition ops : list (Z * Z) := [(1, 10); (5, 50); (9, 90)].

Definition new4 : option hashmap_t := hashmap_new_with_hkg_with_hkc true true true 4 None None.

Definition run (ops : list (Z * Z)) : hashmap_t :=
  match put_all new4 ops with
  | Val (Some hm) => hm
  | _ => mk_hashmap 0 0 0 hashmap_default_kg hashmap_default_kc [] true
  end.

Lemma run_inv l : hm_inv (run l).
Proof.
  unfold run. destruct new4 as [hm0|] eqn:E; [|done].
  assert (hkg hm0 = hashmap_default_kg /\ hkc hm0 = hashmap_default_kc /\ total_size hm0 = 0) as (Hg & Hk & Hs)
    by (by injection E as <-).
  destruct (new_inv 4 None None hm0 ltac:(lia) E (default_key_laws _ Hg Hk)) as [Hinv Hlk].
  destruct (put_all_holds l hm0 ∅) as (hm & -> & Hm); [by split|]. by destruct Hm.
Qed.

Definition get_after_delete (hm : hashmap_t) (d k : Z) : access Z :=
  match hashmap_delete (Some hm) d with
  | Val (_, h) => hashmap_get h k
  | Fault => Fault
  end.
End HashmapDemo.

Import HashmapDemo.

(** A key that displaces another one, put again. *)
Lemma hashmap_put_witness :
  hm_inv (run ops) /\
  exists hm', hashmap_put true true (Some (run ops)) 5 55 = Val (50, Some hm') /\ hm_inv hm' /\
    hashmap_get (Some hm') 5 = Val 55 /\ hashmap_get (Some hm') 9 = Val 90 /\ hashmap_size (Some hm') = 3.
Proof.
  split; [apply run_inv|].
  destruct (hashmap_put_correct (run ops) 5 55 (run_inv ops)) as (hm' & Hput & Hinv & Hget & _ & Hsz).
  exists hm'. split_and!; [exact Hput|exact Hinv|rewrite Hget; vm_compute; reflexivity
    |rewrite Hget; vm_compute; reflexivity|rewrite Hsz; vm_compute; reflexivity].
Defined.

Lemma hashmap_integer_witness :
  0 < 4 /\ sizeof_hashmap_item_t * 4 < 2 ^ 64 /\
  exists hm, put_all (hashmap_new_with_hkg_with_hkc true true true 4 None None) (ops ++ [(1, 11)]) = Val (Some hm) /\
    hashmap_get (Some hm) 1 = Val 11 /\ hashmap_get (Some hm) 7 = Val NULL.
Proof.
  split; [lia|]. split; [lia|].
  destruct (hashmap_integer_refines 4 (ops ++ [(1, 11)]) ltac:(lia) ltac:(lia)) as (hm & Hrun & Hget & _).
  exists hm. split_and!; [exact Hrun|rewrite Hget; vm_compute; reflexivity|rewrite Hget; vm_compute; reflexivity].
Defined.

Lemma hashmap_delete_witness :
  hm_inv (run ops) /\
  exists hm', hashmap_delete (Some (run ops)) 9 = Val (true, Some hm') /\
    hashmap_get (Some hm') 9 = Val NULL /\ hashmap_size (Some hm') = 2.
Proof.
  split; [apply run_inv|].
  destruct (hashmap_delete_correct (run ops) 9 (run_inv ops)) as (hm' & Hdel & _ & _ & Hget & _ & Hsz).
  exists hm'. split_and!; [exact Hdel|exact Hget|rewrite Hsz; vm_compute; reflexivity].
Defined.

Lemma hashmap_iterate_witness :
  hm_inv (run ops) /\ Z.of_nat (total (segments (run ops))) < 2 ^ 64 /\
  exists md l, hashmap_iterator_create true true (Some (run ops)) = Some (Val (Some md)) /\
    drain (S (total (segments (run ops)))) (Some md) = Some (Val l) /\ Z.of_nat (length l) = 3.
Proof.
  assert (Z.of_nat (total (segments (run ops))) < 2 ^ 64) as Hb by (vm_compute; reflexivity).
  split_and!; [apply run_inv|exact Hb|].
  destruct (hashmap_iterate_correct (run ops) (run_inv ops) Hb) as (md & l & H1 & H2 & H3 & _).
  exists md, l. split_and!; [exact H1|exact H2|rewrite H3; vm_compute; reflexivity].
Defined.

(** ** Behaviours that break the map *)

(** Deleting key 1 makes key 5, which is stored behind it and was never
    deleted, unreachable; putting another key into the freed slot brings its
    old value back. *)
Theorem delete_hides_neighbour :
  hashmap_get (Some (run ops)) 5 = Val 50 /\ get_after_delete (run ops) 1 5 = Val NULL /\
  (match hashmap_delete (Some (run ops)) 1 with
   | Val (_, h) =>
     match hashmap_put true true h 13 130 with Val (_, h) => hashmap_get h 5 | Fault => Fault end
   | Fault => Fault
   end) = Val 50.
Proof. vm_compute. auto. Qed.

(** When the items of a new segment cannot be allocated, the freed segment
    stays linked: looking for an absent key then follows a dangling pointer. *)
Theorem put_leaves_dangling_segment :
  match hashmap_put true false (Some (run [(1, 10); (5, 50)])) 9 90 with
  | Val (r, h) => r = NULL /\ hashmap_get h 9 = Fault
  | Fault => False
  end.
Proof. vm_compute. auto. Qed.

(** Once the first segment is empty, creating an iterator skips the second
    one: iteration ends at once although an item is left; with a third segment
    it reads past the end of its items. *)
Theorem iterator_create_skips_segment :
  match hashmap_delete (Some (run ops)) 5 with
  | Val (_, h) =>
    match hashmap_delete h 1 with
    | Val (_, h) =>
      hashmap_size h = 1 /\
      match hashmap_iterator_create true true h with
      | Some (Val iter) => hashmap_iterator_end_of_iterator iter = 0
      | _ => False
      end
    | Fault => False
    end
  | Fault => False
  end /\
  match put_all new4 (ops ++ [(13, 130); (17, 170)]) with
  | Val h =>
    match hashmap_delete h 5 with
    | Val (_, h) =>
      match hashmap_delete h 1 with
      | Val (_, h) => hashmap_iterator_create true true h = Some Fault
      | Fault => False
      end
    | Fault => False
    end
  | Fault => False
  end.
Proof. vm_compute. auto. Qed.

(** The destroyer runs over the first [size] slots only, and the call reports
    failure. *)
Theorem destroy_skips_items :
  hashmap_destroy_with_item_destroyer (Some (run [(3, 30)])) true = Val ([], false).
Proof. vm_compute. auto. Qed.

(** The size of the items of a large map wraps around: a map of capacity
    2^61 gets an empty array of items, and putting a key writes behind it. *)
Theorem capacity_wraps :
  match hashmap_new_with_hkg_with_hkc true true true (2 ^ 61) None None with
  | Some hm => hashmap_put true true (Some hm) 1 10 = Fault
  | None => False
  end.
Proof. vm_compute. auto. Qed.
