(* ===== verification/Strings.v ===== *)
(** * Memory and string comparison ([memory_memcompare] of
    [cc/memory/memory.xx.c], [strlen], [strcmp] and [strncmp] of
    [cc/lib/strings.xx.c]), and hash maps with string keys

    Memory is read as a list of bytes; a pointer that may be [NULL] is an
    [option].  A C string is given with its terminating zero.  Reading beyond
    the list is outside the model: [memory_memcompare] is applied to blocks of
    at least [size] bytes. *)

From S2P Require Import Prelude Hashmap HashmapProps HashmapClaims.

(** ** [memory_memcompare] *)

(** The byte loops: the first difference decides. *)
Fixpoint compare_bytes (n : nat) (m1 m2 : list Z) : Z :=
  match n, m1, m2 with
  | S n, x :: m1, y :: m2 => if x <? y then -1 else if y <? x then 1 else compare_bytes n m1 m2
  | _, _, _ => 0
  end.

(** [s_mem[i]]: the little-endian word of the next eight bytes. *)
Fixpoint load_le (n : nat) (m : list Z) : Z :=
  match n, m with
  | S n, x :: m => x + 2 ^ 8 * load_le n m
  | _, _ => 0
  end.

(** The word loop followed by the loop over the remaining bytes.  A difference
    of words is resolved by the bytes of the word. *)
Fixpoint compare_words (q_size : nat) (rem : nat) (m1 m2 : list Z) : Z :=
  match q_size with
  | O => compare_bytes rem m1 m2
  | S q_size =>
    if load_le 8 m1 =? load_le 8 m2 then compare_words q_size rem (drop 8 m1) (drop 8 m2)
    else
      let r := compare_bytes 8 m1 m2 in
      if r =? 0 then compare_words q_size rem (drop 8 m1) (drop 8 m2) else r
  end.

Definition memory_memcompare (mem1 mem2 : option (list Z)) (size : Z) : Z :=
  match mem1, mem2 with
  | None, None => 0
  | None, Some _ => -1
  | Some _, None => 1
  | Some m1, Some m2 =>
    if size =? 0 then 0
    else compare_words (Z.to_nat (size / 8)) (Z.to_nat (size mod 8)) m1 m2
  end.

(** ** Strings *)

(** [while(string[ret]) ret++]. *)
Fixpoint strlen_loop (s : list Z) : Z :=
  match s with
  | [] => 0
  | ch :: s => if ch =? 0 then 0 else 1 + strlen_loop s
  end.

Definition strlen (string : option (list Z)) : Z :=
  match string with None => 0 | Some s => strlen_loop s end.

Definition strcmp (string1 string2 : option (list Z)) : Z :=
  let len1 := strlen string1 in
  let len2 := strlen string2 in
  let minlen := Z.min len1 len2 in
  let res := memory_memcompare string1 string2 minlen in
  if negb (res =? 0) then res
  else if len1 =? len2 then 0
  else if minlen =? len1 then -1 else 1.

(** The characters are compared as the signed type [char_t]. *)
Fixpoint strncmp_loop (n : nat) (s1 s2 : list Z) : Z :=
  match n, s1, s2 with
  | S n, x :: s1, y :: s2 => if i8 x <? i8 y then -1 else if i8 y <? i8 x then 1 else strncmp_loop n s1 s2
  | _, _, _ => 0
  end.

Definition strncmp (string1 string2 : option (list Z)) (n : Z) : Z :=
  let minlen := Z.min (strlen string1) (strlen string2) in
  if n <=? minlen then
    match string1, string2 with
    | Some s1, Some s2 => strncmp_loop (Z.to_nat n) s1 s2
    | _, _ => 0
    end
  else strcmp string1 string2.

(** [strcmp] orders characters as unsigned bytes, [strncmp] as signed ones. *)
Theorem strncmp_order_differs :
  strcmp (Some [200; 0]) (Some [65; 0]) = 1 /\ strncmp (Some [200; 0]) (Some [65; 0]) 1 = -1.
Proof. vm_compute. auto. Qed.

(** ** Word-wise comparison is byte-wise comparison *)

Lemma load_le_inj n m1 m2 :
  Forall in_u8 m1 -> Forall in_u8 m2 -> (n <= length m1)%nat -> (n <= length m2)%nat ->
  load_le n m1 = load_le n m2 -> take n m1 = take n m2.
Proof.
  revert m1 m2. induction n as [|n IH]; intros m1 m2 H1 H2 L1 L2; [done|].
  destruct m1 as [|x m1], m2 as [|y m2]; cbn in L1, L2; try lia. cbn [load_le take].
  apply Forall_cons in H1 as [Hx H1], H2 as [Hy H2]. unfold in_u8 in Hx, Hy. intros E.
  assert (x = y /\ load_le n m1 = load_le n m2) as [-> E'] by lia.
  f_equal. apply IH; try done; lia.
Qed.

Lemma compare_bytes_refl n m1 m2 : take n m1 = take n m2 -> compare_bytes n m1 m2 = 0.
Proof.
  revert m1 m2. induction n as [|n IH]; intros m1 m2; [done|].
  destruct m1 as [|x m1], m2 as [|y m2]; cbn; try done. intros [= -> E].
  rewrite Z.ltb_irrefl. by apply IH.
Qed.

Lemma compare_bytes_add a b m1 m2 :
  (a <= length m1)%nat -> (a <= length m2)%nat ->
  compare_bytes (a + b) m1 m2 =
  if compare_bytes a m1 m2 =? 0 then compare_bytes b (drop a m1) (drop a m2) else compare_bytes a m1 m2.
Proof.
  revert m1 m2. induction a as [|a IH]; intros m1 m2 L1 L2; [done|].
  destruct m1 as [|x m1], m2 as [|y m2]; cbn in L1, L2; try lia. cbn [Nat.add compare_bytes drop].
  destruct (x <? y); [done|]. destruct (y <? x); [done|]. apply IH; lia.
Qed.

Lemma compare_words_bytes q rem m1 m2 :
  Forall in_u8 m1 -> Forall in_u8 m2 ->
  (8 * q + rem <= length m1)%nat -> (8 * q + rem <= length m2)%nat ->
  compare_words q rem m1 m2 = compare_bytes (8 * q + rem) m1 m2.
Proof.
  revert m1 m2. induction q as [|q IH]; intros m1 m2 H1 H2 L1 L2; [done|].
  replace (8 * S q + rem)%nat with (8 + (8 * q + rem))%nat by lia.
  rewrite compare_bytes_add by lia. cbn [compare_words]. cbn zeta.
  rewrite IH by (rewrite ?length_drop; try lia; by apply Forall_drop).
  destruct (_ =? load_le 8 m2) eqn:E; [|done].
  rewrite (compare_bytes_refl 8); [done|]. apply load_le_inj; try done; lia.
Qed.

Lemma memcompare_bytes m1 m2 size :
  Forall in_u8 m1 -> Forall in_u8 m2 ->
  0 <= size <= Z.of_nat (length m1) -> size <= Z.of_nat (length m2) ->
  memory_memcompare (Some m1) (Some m2) size = compare_bytes (Z.to_nat size) m1 m2.
Proof.
  intros H1 H2 L1 L2. unfold memory_memcompare.
  destruct (Z.eqb_spec size 0) as [-> | Hs]; [done|].
  pose proof (Z.div_mod size 8 ltac:(lia)). pose proof (Z.mod_pos_bound size 8 ltac:(lia)).
  pose proof (Z.div_pos size 8 ltac:(lia) ltac:(lia)).
  rewrite compare_words_bytes by (done || lia). f_equal. lia.
Qed.

(** ** Lexicographic order *)

Fixpoint lex_compare (s1 s2 : list Z) : Z :=
  match s1, s2 with
  | [], [] => 0
  | [], _ :: _ => -1
  | _ :: _, [] => 1
  | x :: s1, y :: s2 => if x <? y then -1 else if y <? x then 1 else lex_compare s1 s2
  end.

Lemma lex_compare_zero s1 s2 : lex_compare s1 s2 = 0 <-> s1 = s2.
Proof.
  revert s2. induction s1 as [|x s1 IH]; intros [|y s2]; cbn; try done.
  destruct (x <? y) eqn:?; [split; [done|intros [= -> _]; lia]|].
  destruct (y <? x) eqn:?; [split; [done|intros [= -> _]; lia]|].
  assert (x = y) as -> by lia. rewrite IH. split; [by intros ->|by intros [= ->]].
Qed.

(** The bytes of a string: neither too wide nor zero. *)
Definition chars (s : list Z) : Prop := Forall (fun ch => in_u8 ch /\ ch <> 0) s.

Lemma strlen_chars s r : chars s -> strlen (Some (s ++ 0 :: r)) = Z.of_nat (length s).
Proof.
  cbn. induction s as [|ch s IH]; [done|]. intros [[_ Hz] Hs]%Forall_cons.
  cbn [app strlen_loop length]. rewrite (proj2 (Z.eqb_neq _ _) Hz), IH by done. lia.
Qed.

Lemma compare_min_lex s1 s2 r1 r2 :
  let n := Nat.min (length s1) (length s2) in
  lex_compare s1 s2 =
  if compare_bytes n (s1 ++ r1) (s2 ++ r2) =? 0
  then Z.sgn (Z.of_nat (length s1) - Z.of_nat (length s2)) else compare_bytes n (s1 ++ r1) (s2 ++ r2).
Proof.
  revert s2. induction s1 as [|x s1 IH]; intros [|y s2]; cbn -[Z.sgn Z.sub Z.of_nat]; try done.
  destruct (x <? y); [done|]. destruct (y <? x); [done|]. rewrite IH. cbn zeta.
  replace (Z.of_nat (S (length s1)) - Z.of_nat (S (length s2)))
    with (Z.of_nat (length s1) - Z.of_nat (length s2)) by lia. done.
Qed.

Lemma strcmp_lex s1 s2 r1 r2 :
  chars s1 -> chars s2 -> Forall in_u8 r1 -> Forall in_u8 r2 ->
  strcmp (Some (s1 ++ 0 :: r1)) (Some (s2 ++ 0 :: r2)) = lex_compare s1 s2.
Proof.
  intros H1 H2 R1 R2.
  assert (forall s r, chars s -> Forall in_u8 r -> Forall in_u8 (s ++ 0 :: r)) as Hb.
  { intros s r Hs Hr. apply Forall_app. split; [eapply Forall_impl; [exact Hs|by intros ? [? _]]|].
    constructor; [done|exact Hr]. }
  unfold strcmp. cbn zeta. rewrite !strlen_chars by done. rewrite (compare_min_lex s1 s2 (0 :: r1) (0 :: r2)).
  rewrite memcompare_bytes by (auto || (rewrite ?length_app; cbn [length]; lia)). cbn zeta.
  rewrite <- Nat2Z.inj_min, Nat2Z.id. destruct (_ =? 0); [|done]. cbn [negb].
  destruct (Z.eqb_spec (Z.of_nat (length s1)) (Z.of_nat (length s2))) as [-> | E1]; [by rewrite Z.sub_diag|].
  destruct (Z.eqb_spec (Z.of_nat (Nat.min (length s1) (length s2))) (Z.of_nat (length s1))) as [E2 | E2].
  - rewrite Z.sgn_neg; lia.
  - rewrite Z.sgn_pos; lia.
Qed.



(** ** Hash maps with string keys

    Keys are pointers to strings; [str_at] is the memory they point to, which
    does not change while the map is used, and [xxhash64_hash] the hash of a
    block of bytes. *)

Section StringKeys.
Context (str_at : Z -> list Z) (xxhash64_hash : list Z -> Z).

Definition hashmap_string_kg (k : Z) : Z :=
  xxhash64_hash (take (Z.to_nat (strlen (Some (str_at k)))) (str_at k)).

Definition hashmap_string_kc (item1 item2 : Z) : Z := strcmp (Some (str_at item1)) (Some (str_at item2)).

Definition hashmap_string_with_heap (ok1 ok2 ok3 : bool) (capacity : Z) : option hashmap_t :=
  hashmap_new_with_hkg_with_hkc ok1 ok2 ok3 capacity (Some hashmap_string_kg) (Some hashmap_string_kc).

(** Every pointer points to a terminated string. *)
Context (content : Z -> list Z).
Context (Hstr : forall p, chars (content p) /\ exists r, Forall in_u8 r /\ str_at p = content p ++ 0 :: r).

Lemma string_kc_zero a b : hashmap_string_kc a b = 0 <-> content a = content b.
Proof using Hstr.
  unfold hashmap_string_kc. destruct (Hstr a) as (Ha & ra & Hra & ->), (Hstr b) as (Hb & rb & Hrb & ->).
  rewrite strcmp_lex by done. apply lex_compare_zero.
Qed.

Lemma string_kg_content a : hashmap_string_kg a = xxhash64_hash (content a).
Proof using Hstr.
  unfold hashmap_string_kg. destruct (Hstr a) as (Ha & ra & Hra & ->).
  rewrite strlen_chars, Nat2Z.id by done. by rewrite take_app_length.
Qed.

(** String keys meet the interface of the map. *)
Lemma string_key_laws hm : hkg hm = hashmap_string_kg -> hkc hm = hashmap_string_kc -> KeyLaws hm.
Proof using Hstr.
  intros Hg Hc. split.
  - split; unfold key_eq; rewrite Hc; intros ?**; rewrite string_kc_zero in *; congruence.
  - intros a b. unfold key_eq. rewrite Hc, string_kc_zero, Hg, !string_kg_content. by intros ->.
Qed.

(** The relation between a map with string keys and the finite map from
    contents to values it holds. *)
Record holds_strings (hm : hashmap_t) (m : gmap (list Z) Z) : Prop := {
  hs_inv : hm_inv hm;
  hs_hkc : hkc hm = hashmap_string_kc;
  hs_lookup : forall k, lookup_value hm k = m !! content k;
}.

Definition spec_string_puts (ops : list (Z * Z)) (m : gmap (list Z) Z) : gmap (list Z) Z :=
  foldl (fun m op => <[content op.1 := op.2]> m) m ops.

Lemma put_all_strings ops hm m :
  holds_strings hm m ->
  exists hm', put_all (Some hm) ops = Val (Some hm') /\ holds_strings hm' (spec_string_puts ops m).
Proof using Hstr.
  revert hm m. induction ops as [|[k v] ops IH]; intros hm m [Hinv Hc Hlk]; cbn [put_all].
  { exists hm. split; [done|]. by split. }
  destruct (put_step hm k v Hinv) as (hm1 & -> & Hinv1 & _ & Hc1 & Hlk1 & _).
  apply IH. split; [done|congruence|]. intros k2. rewrite Hlk1, Hlk.
  destruct (decide (key_eq hm k k2)) as [E|E]; unfold key_eq in E; rewrite Hc, string_kc_zero in E; cbn.
  - by rewrite E, lookup_insert_eq.
  - by rewrite lookup_insert_ne.
Qed.

(** C23.  A map with string keys is a map on the contents of the strings: after
    any sequence of insertions into a new map, [hashmap_get] through any
    pointer gives the value last put under a pointer to an equal string, and
    [NULL] if there is none.  It holds for every hash of the bytes and every
    capacity for which [sizeof(hashmap_item_t) * capacity] does not wrap around
    64 bits, and allocations succeed. *)
Theorem hashmap_string_refines c ops :
  0 < c -> sizeof_hashmap_item_t * c < 2 ^ 64 ->
  exists hm, put_all (hashmap_string_with_heap true true true c) ops = Val (Some hm) /\
    forall k, hashmap_get (Some hm) k = Val (default NULL (spec_string_puts ops ∅ !! content k)).
Proof using Hstr.
  intros Hc0 Hc1. pose proof (conj Hc0 Hc1) as Hc. unfold hashmap_string_with_heap.
  destruct (hashmap_new_with_hkg_with_hkc _ _ _ _ _ _) as [hm0|] eqn:E.
  2:{ unfold hashmap_new_with_hkg_with_hkc in E. destruct (c =? 0) eqn:?; [lia|done]. }
  assert (hkg hm0 = hashmap_string_kg /\ hkc hm0 = hashmap_string_kc) as [Hg Hk].
  { unfold hashmap_new_with_hkg_with_hkc in E. destruct (c =? 0); [done|]. by injection E as <-. }
  destruct (new_inv c _ _ hm0 Hc E (string_key_laws _ Hg Hk)) as [Hinv Hlk].
  destruct (put_all_strings ops hm0 ∅) as (hm & -> & [Hinv' _ Hlk']); [by split|].
  exists hm. split; [done|]. intros k. rewrite get_lookup by apply Hinv'. by rewrite Hlk'.
Qed.
End StringKeys.

(** Pointers 1 and 2 point to copies of the same string. *)
Lemma hashmap_string_witness :
  let content p := if p <=? 2 then [97; 98] else [98; 97] in
  let str_at p := content p ++ [0] in
  0 < 4 /\ sizeof_hashmap_item_t * 4 < 2 ^ 64 /\
  (forall p, chars (content p) /\ exists r, Forall in_u8 r /\ str_at p = content p ++ 0 :: r) /\
  exists hm, put_all (hashmap_string_with_heap str_at (foldr Z.add 0) true true true 4) [(1, 10); (3, 30); (2, 20)] =
      Val (Some hm) /\
    hashmap_get (Some hm) 1 = Val 20 /\ hashmap_get (Some hm) 3 = Val 30.
Proof.
  intros content str_at.
  assert (forall p, chars (content p) /\ exists r, Forall in_u8 r /\ str_at p = content p ++ 0 :: r) as Hstr.
  { intros p. split; [|exists []; by split].
    unfold content, chars, in_u8. destruct (p <=? 2); repeat constructor; lia. }
  split_and!; [lia|lia|exact Hstr|].
  destruct (hashmap_string_refines str_at (foldr Z.add 0) content Hstr 4 [(1, 10); (3, 30); (2, 20)] ltac:(lia)
      ltac:(lia))
    as (hm & Hrun & Hget).
  exists hm. split_and!; [exact Hrun|rewrite Hget; vm_compute; reflexivity|rewrite Hget; vm_compute; reflexivity].
Defined.
