(* ===== verification/Base64.v ===== *)
(** * Base64 ([cc/lib/base64.64.c])

    Encoder and decoder, with characters as their ASCII codes.  The encoder
    walks the input three bytes at a time; the decoder reads its input by
    index, where a read outside of it is a [Fault].  Output bytes are collected
    in a list, whose length is [out_idx]; [ok] says whether the output can be
    allocated.  The first component of a result is the returned length, the
    second the pointer stored through [out], if any. *)

From S2P Require Import Prelude.

Definition NEWLINE_INVL : Z := 76.
Definition newline : Z := 10.
Definition pad : Z := 61.

(** [A-Z], [a-z], [0-9], [+], [/]. *)
Definition charset : list Z := seqZ 65 26 ++ seqZ 97 26 ++ seqZ 48 10 ++ [43; 47].

Definition char_of (i : Z) : Z := default 0 (charset !! Z.to_nat i).

Definition byte64_convert (ch : Z) : Z :=
  if (65 <=? ch) && (ch <=? 90) then u8 (ch - 65)
  else if (97 <=? ch) && (ch <=? 122) then u8 (ch - 97 + 26)
  else if (48 <=? ch) && (ch <=? 57) then u8 (ch - 48 + 52)
  else if ch =? 43 then 62
  else if ch =? 47 then 63
  else ch.

(** ** Encoding *)

(** The four characters of three bytes. *)
Definition encode_block (a b c : Z) : list Z :=
  [char_of (Z.shiftr a 2);
   char_of (Z.lor (Z.shiftl (Z.land a 0x03) 4) (Z.shiftr b 4));
   char_of (Z.lor (Z.shiftl (Z.land b 0x0f) 2) (Z.shiftr c 6));
   char_of (Z.land c 0x3F)].

(** The loop over whole blocks and the rest behind it. *)
Fixpoint encode_loop (add_newline : bool) (inp : list Z) (out_idx newline_count : Z) : list Z :=
  match inp with
  | a :: b :: c :: rest =>
    encode_block a b c ++
    (if ((out_idx - newline_count + 4) mod NEWLINE_INVL =? 0) && add_newline
     then newline :: encode_loop add_newline rest (out_idx + 5) (newline_count + 1)
     else encode_loop add_newline rest (out_idx + 4) newline_count)
  | [a] => [char_of (Z.shiftr a 2); char_of (Z.shiftl (Z.land a 0x03) 4); pad; pad]
  | [a; b] =>
    [char_of (Z.shiftr a 2); char_of (Z.lor (Z.shiftl (Z.land a 0x03) 4) (Z.shiftr b 4));
     char_of (Z.shiftl (Z.land b 0x0F) 2); pad]
  | [] => []
  end.

Definition base64_encode (ok : bool) (inp : list Z) (add_newline : bool) : Z * option (list Z) :=
  let len := Z.of_nat (length inp) in
  let blks := len / 3 in
  let out_len := blks * 4 + (if len mod 3 =? 0 then 0 else 4) + (if add_newline then len / 57 else 0) in
  if negb ok then (0, None)
  else
    let tmp_out := encode_loop add_newline inp 0 0 in
    if negb (Z.of_nat (length tmp_out) =? out_len) then (0, None)
    else (Z.of_nat (length tmp_out), Some tmp_out).

(** ** Decoding *)

Definition read (inp : list Z) (i : Z) : access Z :=
  if i <? 0 then Fault else match inp !! Z.to_nat i with Some x => Val x | None => Fault end.

Definition decode1 (x y : Z) : Z :=
  u8 (Z.lor (Z.shiftl (byte64_convert x) 2) (Z.shiftr (Z.land (byte64_convert y) 0x30) 4)).
Definition decode2 (y z : Z) : Z :=
  u8 (Z.lor (Z.shiftl (byte64_convert y) 4) (Z.shiftr (byte64_convert z) 2)).
Definition decode3 (z w : Z) : Z :=
  u8 (Z.lor (Z.shiftl (byte64_convert z) 6) (byte64_convert w)).

(** The loop over whole blocks; it returns the bytes and the final [in_idx].
    Each round advances [in_idx] by four or five, so that the length of the
    input is enough fuel; [None] if the fuel runs out. *)
Fixpoint decode_loop (fuel : nat) (inp : list Z) (limit in_idx : Z) : option (access (list Z * Z)) :=
  if in_idx <? limit then
    match fuel with
    | O => None
    | S fuel =>
      match read inp in_idx with
      | Fault => Some Fault
      | Val ch =>
        let in_idx := if ch =? newline then in_idx + 1 else in_idx in
        match read inp in_idx, read inp (in_idx + 1), read inp (in_idx + 2), read inp (in_idx + 3) with
        | Val x, Val y, Val z, Val w =>
          match decode_loop fuel inp limit (in_idx + 4) with
          | Some (Val (out, i)) => Some (Val (decode1 x y :: decode2 y z :: decode3 z w :: out, i))
          | r => r
          end
        | _, _, _, _ => Some Fault
        end
      end
    end
  else Some (Val ([], in_idx)).

(** The rest of two or three characters. *)
Definition decode_rest (inp : list Z) (left_over in_idx : Z) : access (list Z) :=
  if left_over =? 2 then
    match read inp in_idx, read inp (in_idx + 1) with
    | Val x, Val y => Val [decode1 x y]
    | _, _ => Fault
    end
  else if left_over =? 3 then
    match read inp in_idx, read inp (in_idx + 1), read inp (in_idx + 2) with
    | Val x, Val y, Val z => Val [decode1 x y; decode2 y z]
    | _, _, _ => Fault
    end
  else Val [].

(** [if (in[len - 1] == '=') len--]. *)
Definition strip_pad (inp : list Z) (len : Z) : access Z :=
  match read inp (len - 1) with
  | Fault => Fault
  | Val ch => Val (if ch =? pad then len - 1 else len)
  end.

(** The number of newlines the decoder assumes. *)
Definition assumed_newlines (inp : list Z) (len : Z) : access Z :=
  if 77 <=? len then
    match read inp NEWLINE_INVL with
    | Fault => Fault
    | Val ch => Val (if ch =? newline then len / (NEWLINE_INVL + 1) else 0)
    end
  else Val 0.

Definition decoded_length (n : Z) : Z :=
  n / 4 * 3 + (if n mod 4 =? 2 then 1 else if n mod 4 =? 3 then 2 else 0).

Definition base64_decode (ok : bool) (inp : list Z) : option (access (Z * option (list Z))) :=
  match strip_pad inp (Z.of_nat (length inp)) with
  | Fault => Some Fault
  | Val len =>
    match strip_pad inp len with
    | Fault => Some Fault
    | Val len =>
      match assumed_newlines inp len with
      | Fault => Some Fault
      | Val newline_count =>
        if negb ok then Some (Val (0, None))
        else
          match decode_loop (length inp) inp (len / 4 * 4) 0 with
          | None => None
          | Some Fault => Some Fault
          | Some (Val (out, in_idx)) =>
            match decode_rest inp (len mod 4) in_idx with
            | Fault => Some Fault
            | Val rest =>
              if negb (Z.of_nat (length (out ++ rest)) =? decoded_length (len - newline_count))
              then Some (Val (0, None))
              else Some (Val (Z.of_nat (length (out ++ rest)), Some (out ++ rest)))
            end
          end
      end
    end
  end.
