(* ===== verification/Base64Props.v ===== *)
(** * Theorems on base64 *)

From S2P Require Import Prelude Base64.

(** Induction in steps of three bytes. *)
Lemma block_ind (P : list Z -> Prop) :
  P [] -> (forall a, P [a]) -> (forall a b, P [a; b]) ->
  (forall a b c l, P l -> P (a :: b :: c :: l)) -> forall l, P l.
Proof.
  intros H0 H1 H2 H3. fix IH 1. intros [|a [|b [|c l]]]; [done|apply H1|apply H2|apply H3, IH].
Qed.

(** ** The length of the encoding *)

Definition blocks (n : nat) : Z := Z.of_nat n / 3.

Lemma length_encode_loop nl inp m out_idx nc :
  0 <= m -> out_idx - nc = 4 * m ->
  Z.of_nat (length (encode_loop nl inp out_idx nc)) =
    blocks (length inp) * 4 + (if Z.of_nat (length inp) mod 3 =? 0 then 0 else 4) +
    (if nl then (m + blocks (length inp)) / 19 - m / 19 else 0).
Proof.
  revert m out_idx nc. induction inp as [|a|a b|a b c l IH] using block_ind; intros m out_idx nc Hm Ho.
  - cbn [encode_loop length]. change (blocks 0) with 0. rewrite (Z.add_0_r m).
    change (Z.of_nat 0 mod 3 =? 0) with true. destruct nl; lia.
  - cbn [encode_loop length]. change (blocks 1) with 0. rewrite (Z.add_0_r m).
    change (Z.of_nat 1 mod 3 =? 0) with false. destruct nl; lia.
  - cbn [encode_loop length]. change (blocks 2) with 0. rewrite (Z.add_0_r m).
    change (Z.of_nat 2 mod 3 =? 0) with false. destruct nl; lia.
  - cbn [encode_loop]. rewrite length_app.
    assert (blocks (length (a :: b :: c :: l)) = blocks (length l) + 1) as Hb.
    { unfold blocks. cbn [length]. rewrite !Nat2Z.inj_succ.
      replace (Z.succ (Z.succ (Z.succ (Z.of_nat (length l))))) with (Z.of_nat (length l) + 1 * 3) by lia.
      by rewrite Z.div_add. }
    assert (Z.of_nat (length (a :: b :: c :: l)) mod 3 = Z.of_nat (length l) mod 3) as Hmod.
    { cbn [length]. replace (Z.of_nat (S (S (S (length l))))) with (Z.of_nat (length l) + 1 * 3) by lia.
      by rewrite Z.mod_add. }
    rewrite Hb, Hmod. replace (out_idx - nc + 4) with (4 * (m + 1)) by lia.
    assert ((4 * (m + 1)) mod NEWLINE_INVL = 4 * ((m + 1) mod 19)) as ->.
    { unfold NEWLINE_INVL. change 76 with (4 * 19). by rewrite Z.mul_mod_distr_l. }
    assert (m / 19 + (if (m + 1) mod 19 =? 0 then 1 else 0) = (m + 1) / 19) as Hdiv
      by (destruct ((m + 1) mod 19 =? 0) eqn:?; Z.to_euclidean_division_equations; lia).
    assert ((4 * ((m + 1) mod 19) =? 0) = ((m + 1) mod 19 =? 0)) as -> by (destruct ((m + 1) mod 19 =? 0) eqn:?; lia).
    replace (m + (blocks (length l) + 1)) with (m + 1 + blocks (length l)) by lia.
    destruct ((m + 1) mod 19 =? 0) eqn:E; destruct nl; cbn [andb length]; try rewrite Nat2Z.inj_add;
      cbn [encode_block length]; rewrite ?Nat2Z.inj_succ, (IH (m + 1)) by lia; lia.
Qed.

Lemma encode_succeeds inp nl :
  base64_encode true inp nl =
  (Z.of_nat (length (encode_loop nl inp 0 0)), Some (encode_loop nl inp 0 0)).
Proof.
  unfold base64_encode. rewrite (length_encode_loop nl inp 0 0 0) by lia. cbn [negb].
  unfold blocks. rewrite Z.add_0_l, Z.div_div by lia. change (3 * 19) with 57. rewrite Z.sub_0_r.
  by rewrite Z.eqb_refl.
Qed.

(** ** Characters and blocks *)

Definition sextets : list Z := seqZ 0 64.

Lemma in_sextets i : 0 <= i < 64 -> i ∈ sextets.
Proof. intros H. apply elem_of_seqZ. lia. Qed.

Lemma finite_check (f : Z -> bool) n : forallb f (seqZ 0 n) = true -> forall i, 0 <= i < n -> f i = true.
Proof.
  intros H i Hi. rewrite forallb_forall in H. apply H, list_elem_of_In, elem_of_seqZ. lia.
Qed.

Lemma convert_char i : 0 <= i < 64 -> byte64_convert (char_of i) = i.
Proof.
  intros Hi. apply Z.eqb_eq. revert i Hi. apply finite_check. vm_compute. reflexivity.
Qed.

Lemma char_not_special i : 0 <= i < 64 -> char_of i <> newline /\ char_of i <> pad.
Proof.
  intros Hi. cut (negb (char_of i =? newline) && negb (char_of i =? pad) = true); [lia|].
  revert i Hi. apply finite_check. vm_compute. reflexivity.
Qed.

Lemma byte_split a : in_u8 a -> 0 <= Z.shiftr a 2 < 64 /\ 0 <= Z.land a 3 < 4 /\ 0 <= Z.shiftr a 4 < 16 /\
  0 <= Z.land a 15 < 16 /\ 0 <= Z.shiftr a 6 < 4 /\ 0 <= Z.land a 63 < 64.
Proof.
  unfold in_u8. intros H. rewrite !Z.shiftr_div_pow2 by lia.
  rewrite (land_ones_mod a 2), (land_ones_mod a 4), (land_ones_mod a 6) by done.
  Z.to_euclidean_division_equations. lia.
Qed.

(** A check of all arguments of a binary function below the bounds. *)
Lemma finite_check2 (f : Z -> Z -> bool) n m :
  forallb (fun i => forallb (f i) (seqZ 0 m)) (seqZ 0 n) = true ->
  forall i j, 0 <= i < n -> 0 <= j < m -> f i j = true.
Proof.
  intros H i j Hi Hj. apply (finite_check (f i) m); [|done].
  by apply (finite_check (fun i => forallb (f i) (seqZ 0 m)) n).
Qed.

Lemma decode1_block a x :
  in_u8 a -> 0 <= x < 16 ->
  decode1 (char_of (Z.shiftr a 2)) (char_of (Z.lor (Z.shiftl (Z.land a 3) 4) x)) = a.
Proof.
  intros Ha Hx. apply Z.eqb_eq. revert a x Ha Hx. apply (finite_check2 (fun a x => _ =? a)).
  vm_compute. reflexivity.
Qed.

Lemma decode2_block u b y :
  0 <= u < 4 -> in_u8 b -> 0 <= y < 4 ->
  decode2 (char_of (Z.lor (Z.shiftl u 4) (Z.shiftr b 4))) (char_of (Z.lor (Z.shiftl (Z.land b 15) 2) y)) = b.
Proof.
  intros Hu Hb Hy. apply Z.eqb_eq. revert b y Hb Hy.
  apply (finite_check2 (fun b y => _ =? b)). revert u Hu.
  apply (finite_check (fun u => forallb _ _)). vm_compute. reflexivity.
Qed.

Lemma decode3_block v c :
  0 <= v < 16 -> in_u8 c ->
  decode3 (char_of (Z.lor (Z.shiftl v 2) (Z.shiftr c 6))) (char_of (Z.land c 63)) = c.
Proof.
  intros Hv Hc. apply Z.eqb_eq. revert v c Hv Hc. apply (finite_check2 (fun v c => _ =? c)).
  vm_compute. reflexivity.
Qed.

(** ** The decoder on an encoding *)

Definition enc (l : list Z) : list Z := encode_loop false l 0 0.

Lemma encode_loop_enc l i n : encode_loop false l i n = enc l.
Proof.
  cut (forall i' n', encode_loop false l i n = encode_loop false l i' n'); [intros H; apply H|].
  revert i n. induction l as [|a|a b|a b c l IH] using block_ind; intros; try done.
  cbn [encode_loop]. rewrite !andb_false_r. f_equal. apply IH.
Qed.

Lemma enc_block a b c l : enc (a :: b :: c :: l) = encode_block a b c ++ enc l.
Proof. unfold enc. cbn [encode_loop]. rewrite andb_false_r. by rewrite encode_loop_enc. Qed.

Lemma read_app pre l j :
  read (pre ++ l) (Z.of_nat (length pre) + Z.of_nat j) = match l !! j with Some x => Val x | None => Fault end.
Proof.
  unfold read. destruct (Z.ltb_spec (Z.of_nat (length pre) + Z.of_nat j) 0); [lia|].
  replace (Z.to_nat _) with (length pre + j)%nat by lia. by rewrite lookup_app_r, Nat.add_comm, Nat.add_sub by lia.
Qed.

(** What is left of the characters behind the whole blocks, without padding. *)
Definition left_chars (n : nat) : Z := match Z.of_nat n mod 3 with 0 => 0 | 1 => 2 | _ => 3 end.

Lemma read_block pre a b c l :
  let p := Z.of_nat (length pre) in
  let inp := pre ++ encode_block a b c ++ l in
  read inp p = Val (char_of (Z.shiftr a 2)) /\
  read inp (p + 1) = Val (char_of (Z.lor (Z.shiftl (Z.land a 0x03) 4) (Z.shiftr b 4))) /\
  read inp (p + 2) = Val (char_of (Z.lor (Z.shiftl (Z.land b 0x0f) 2) (Z.shiftr c 6))) /\
  read inp (p + 3) = Val (char_of (Z.land c 0x3F)).
Proof.
  cbn zeta. split_and!.
  - rewrite <- (Z.add_0_r (Z.of_nat _)). apply (read_app pre (encode_block a b c ++ l) 0).
  - apply (read_app pre (encode_block a b c ++ l) 1).
  - apply (read_app pre (encode_block a b c ++ l) 2).
  - apply (read_app pre (encode_block a b c ++ l) 3).
Qed.

Lemma blocks_cons3 (a b c : Z) l : blocks (length (a :: b :: c :: l)) = 1 + blocks (length l).
Proof.
  unfold blocks. cbn [length].
  replace (Z.of_nat (S (S (S (length l))))) with (Z.of_nat (length l) + 1 * 3) by lia. rewrite Z.div_add; lia.
Qed.

Lemma left_chars_cons3 (a b c : Z) l : left_chars (length (a :: b :: c :: l)) = left_chars (length l).
Proof.
  unfold left_chars. cbn [length].
  replace (Z.of_nat (S (S (S (length l))))) with (Z.of_nat (length l) + 1 * 3) by lia. by rewrite Z.mod_add.
Qed.

(** The rest behind the last whole block. *)
Lemma decode_rest_enc l pre :
  Forall in_u8 l -> (length l < 3)%nat ->
  decode_rest (pre ++ enc l) (left_chars (length l)) (Z.of_nat (length pre)) = Val l.
Proof.
  intros Hl Hlen. destruct l as [|a [|b [|]]]; [done|..|cbn in Hlen; lia].
  - pose proof (proj1 (Forall_singleton _ _) Hl) as Ha.
    unfold decode_rest. change (left_chars (length [a]) =? 2) with true. cbn iota.
    rewrite <- (Z.add_0_r (Z.of_nat (length pre))), (read_app pre _ 0), Z.add_0_r, (read_app pre _ 1).
    cbn -[decode1 char_of Z.shiftl]. rewrite <- (Z.lor_0_r (Z.shiftl _ 4)). by rewrite decode1_block by (done || lia).
  - destruct (Forall_cons_1 _ _ _ Hl) as [Ha [Hb _]%Forall_cons_1].
    unfold decode_rest. change (left_chars (length [a; b]) =? 2) with false.
    change (left_chars (length [a; b]) =? 3) with true. cbn iota.
    rewrite <- (Z.add_0_r (Z.of_nat (length pre))), (read_app pre _ 0), Z.add_0_r,
      (read_app pre _ 1), (read_app pre _ 2).
    cbn -[decode1 decode2 char_of Z.shiftl]. destruct (byte_split a Ha), (byte_split b Hb).
    rewrite decode1_block by (done || lia).
    rewrite <- (Z.lor_0_r (Z.shiftl _ 2)). by rewrite decode2_block by (done || lia).
Qed.

Lemma decode_enc l pre fuel :
  Forall in_u8 l -> (length l <= fuel)%nat ->
  exists out rest,
    decode_loop fuel (pre ++ enc l) (Z.of_nat (length pre) + blocks (length l) * 4) (Z.of_nat (length pre)) =
      Some (Val (out, Z.of_nat (length pre) + blocks (length l) * 4)) /\
    decode_rest (pre ++ enc l) (left_chars (length l)) (Z.of_nat (length pre) + blocks (length l) * 4) = Val rest /\
    out ++ rest = l.
Proof.
  assert (forall l : list Z, (length l < 3)%nat -> blocks (length l) = 0) as Hsmall.
  { intros m Hm. apply Z.div_small. lia. }
  assert (forall fuel inp i, decode_loop fuel inp i i = Some (Val ([], i))) as Hstop.
  { intros f inp i. destruct f; cbn; by rewrite Z.ltb_irrefl. }
  revert pre fuel. induction l as [|a|a b|a b c l IH] using block_ind; intros pre fuel Hl Hf.
  1-3: eexists [], _; rewrite Hsmall, Z.mul_0_l, Z.add_0_r by (cbn; lia);
    split_and!; [apply Hstop|by apply decode_rest_enc; [|cbn; lia]|done].
  destruct (Forall_cons_1 _ _ _ Hl) as [Ha [Hb [Hc Hl']%Forall_cons_1]%Forall_cons_1].
  destruct fuel as [|fuel]; [cbn in Hf; lia|]. rewrite blocks_cons3, left_chars_cons3.
  destruct (IH (pre ++ encode_block a b c) fuel) as (out & rest & Hd & Hr & Heq); [done|cbn in Hf; lia|].
  rewrite <- app_assoc, <- enc_block, length_app, Nat2Z.inj_add in Hd, Hr.
  change (Z.of_nat (length (encode_block a b c))) with 4 in Hd, Hr.
  replace (Z.of_nat (length pre) + 4 + blocks (length l) * 4) with
    (Z.of_nat (length pre) + (1 + blocks (length l)) * 4) in Hd, Hr by lia.
  exists (a :: b :: c :: out), rest. split_and!; [|done|cbn; by rewrite Heq].
  assert (0 <= blocks (length l)) by (apply Z.div_pos; lia).
  destruct (read_block pre a b c (enc l)) as (R0 & R1 & R2 & R3). rewrite <- enc_block in R0, R1, R2, R3.
  destruct (byte_split a Ha), (byte_split b Hb), (byte_split c Hc).
  cbn [decode_loop]. destruct (_ <? _) eqn:E; [|lia]. rewrite R0. cbn zeta.
  destruct (char_not_special (Z.shiftr a 2)) as [Hnl _]; [done|].
  rewrite (proj2 (Z.eqb_neq _ _) Hnl), R0, R1, R2, R3, Hd.
  by rewrite decode1_block, decode2_block, decode3_block by (done || lia).
Qed.

Lemma enc_no_newline l : Forall in_u8 l -> Forall (fun ch => ch <> newline) (enc l).
Proof.
  assert (forall i, 0 <= i < 64 -> char_of i <> newline) as Hc by (intros i Hi; by apply char_not_special).
  assert (forall u v k n, 0 <= u -> 0 <= v < 2 ^ k -> 0 <= k -> u < n -> 0 <= Z.lor (Z.shiftl u k) v < n * 2 ^ k) as Hlor.
  { intros u v k n Hu Hv Hk Hn. rewrite (lor_low_add k), Z.shiftl_mul_pow2; try done; [nia|].
    rewrite Z.shiftl_mul_pow2 by done. by apply Z.mod_mul; lia. }
  induction l as [|a|a b|a b c l IH] using block_ind; intros Hl; [done|..].
  - apply Forall_cons_1 in Hl as [Ha _]. destruct (byte_split a Ha) as (? & ? & _).
    repeat constructor; try done; apply Hc; [lia|]. rewrite <- (Z.lor_0_r (Z.shiftl _ _)). apply (Hlor _ _ 4 4); lia.
  - apply Forall_cons_1 in Hl as [Ha [Hb _]%Forall_cons_1].
    destruct (byte_split a Ha) as (? & ? & _), (byte_split b Hb) as (? & ? & ? & ? & _).
    repeat constructor; try done; apply Hc; [lia|apply (Hlor _ _ 4 4); lia|].
    rewrite <- (Z.lor_0_r (Z.shiftl _ _)). apply (Hlor _ _ 2 16); lia.
  - apply Forall_cons_1 in Hl as [Ha [Hb [Hcc Hl]%Forall_cons_1]%Forall_cons_1].
    destruct (byte_split a Ha) as (? & ? & _), (byte_split b Hb) as (? & ? & ? & ? & _),
      (byte_split c Hcc) as (? & ? & ? & ? & ? & ?).
    rewrite enc_block. apply Forall_app. split; [|auto].
    repeat constructor; apply Hc; [lia|apply (Hlor _ _ 4 4); lia|apply (Hlor _ _ 2 16); lia|lia].
Qed.

Lemma strip_at pre l j :
  strip_pad (pre ++ l) (Z.of_nat (length pre) + Z.of_nat j + 1) =
  match l !! j with
  | Some ch => Val (Z.of_nat (length pre) + Z.of_nat j + (if ch =? pad then 0 else 1))
  | None => Fault
  end.
Proof.
  unfold strip_pad. rewrite Z.add_simpl_r, read_app. destruct (l !! j) as [ch|]; [|done].
  f_equal. destruct (ch =? pad); lia.
Qed.

(** Stripping the padding leaves the characters that carry data. *)
Lemma strip_enc l pre :
  l <> [] -> Forall in_u8 l ->
  exists len, strip_pad (pre ++ enc l) (Z.of_nat (length (pre ++ enc l))) = Val len /\
    strip_pad (pre ++ enc l) len = Val (Z.of_nat (length pre) + blocks (length l) * 4 + left_chars (length l)).
Proof.
  assert (forall i, 0 <= i < 64 -> (char_of i =? pad) = false) as Hc
    by (intros i Hi; apply Z.eqb_neq; by apply char_not_special).
  revert pre. induction l as [|a|a b|a b c l IH] using block_ind; intros pre Hne Hl; [done|..].
  - exists (Z.of_nat (length pre) + Z.of_nat 3). rewrite length_app, Nat2Z.inj_add.
    change (blocks (length [a])) with 0. change (left_chars (length [a])) with 2. split.
    + change (Z.of_nat (length (enc [a]))) with (Z.of_nat 3 + 1). rewrite Z.add_assoc.
      rewrite strip_at. cbn [enc encode_loop lookup list_lookup]. by rewrite Z.eqb_refl, Z.add_0_r.
    + change (Z.of_nat 3) with (Z.of_nat 2 + 1). rewrite Z.add_assoc.
      rewrite strip_at. cbn [enc encode_loop lookup list_lookup]. rewrite Z.eqb_refl. f_equal. lia.
  - apply Forall_cons_1 in Hl as [Ha [Hb _]%Forall_cons_1].
    destruct (byte_split b Hb) as (_ & _ & _ & Hb4 & _).
    exists (Z.of_nat (length pre) + Z.of_nat 3). rewrite length_app, Nat2Z.inj_add.
    change (blocks (length [a; b])) with 0. change (left_chars (length [a; b])) with 3. split.
    + change (Z.of_nat (length (enc [a; b]))) with (Z.of_nat 3 + 1). rewrite Z.add_assoc.
      rewrite strip_at. cbn [enc encode_loop lookup list_lookup]. by rewrite Z.eqb_refl, Z.add_0_r.
    + change (Z.of_nat 3) with (Z.of_nat 2 + 1). rewrite Z.add_assoc.
      rewrite strip_at. cbn [enc encode_loop lookup list_lookup]. rewrite Hc; [f_equal; lia|].
      rewrite Z.shiftl_mul_pow2; lia.
  - apply Forall_cons_1 in Hl as [Ha [Hb [Hcc Hl]%Forall_cons_1]%Forall_cons_1].
    rewrite blocks_cons3, left_chars_cons3, enc_block. destruct l as [|d l].
    + change (blocks (length [])) with 0. change (left_chars (length [])) with 0.
      destruct (byte_split c Hcc) as (_ & _ & _ & _ & _ & Hc6).
      exists (Z.of_nat (length pre) + Z.of_nat 3 + 1).
      replace (Z.of_nat (length (pre ++ encode_block a b c ++ enc []))) with (Z.of_nat (length pre) + Z.of_nat 3 + 1)
        by (rewrite !length_app; cbn [length enc encode_loop encode_block]; lia).
      rewrite strip_at. cbn [encode_block app enc encode_loop lookup list_lookup].
      rewrite Hc by done. split; f_equal; lia.
    + destruct (IH (pre ++ encode_block a b c)) as (len & H1 & H2); [done|done|].
      rewrite <- app_assoc in H1, H2. exists len. split; [done|]. rewrite H2. f_equal.
      rewrite length_app. cbn [encode_block length]. lia.
Qed.

(** The decoder does not take a character of the encoding for a newline. *)
Lemma assumed_newlines_enc l len :
  Forall in_u8 l -> len <= Z.of_nat (length (enc l)) -> assumed_newlines (enc l) len = Val 0.
Proof.
  intros Hl Hlen. unfold assumed_newlines. destruct (77 <=? len) eqn:E; [|done].
  unfold read, NEWLINE_INVL. cbn [Z.ltb Z.compare].
  destruct (lookup_lt_is_Some_2 (enc l) (Z.to_nat 76)) as [ch Hch]; [lia|]. rewrite Hch.
  assert (ch <> newline) as Hn by exact (Forall_lookup_1 _ _ _ _ (enc_no_newline l Hl) Hch).
  by rewrite (proj2 (Z.eqb_neq _ _) Hn).
Qed.

(** C22.  Decoding undoes encoding: for every non-empty input, encoding without
    line breaks gives a text of the computed length, and decoding that text
    ends without a bad access and gives the input back.  Encoding succeeds
    with line breaks too. *)
Theorem base64_roundtrip inp :
  inp <> [] -> Forall in_u8 inp ->
  exists text, base64_encode true inp false = (Z.of_nat (length text), Some text) /\
    base64_decode true text = Some (Val (Z.of_nat (length inp), Some inp)) /\
    (exists text', base64_encode true inp true = (Z.of_nat (length text'), Some text')).
Proof.
  intros Hne Hb. exists (enc inp). split_and!; [apply encode_succeeds| |eexists; apply encode_succeeds].
  destruct (strip_enc inp [] Hne Hb) as (len1 & H1 & H2). cbn [app length] in H1, H2. change (Z.of_nat 0) with 0 in H2. rewrite Z.add_0_l in H2.
  pose proof (length_encode_loop false inp 0 0 0 ltac:(lia) ltac:(lia)) as Hlen. fold (enc inp) in Hlen.
  assert (Z.of_nat (length inp) = 3 * blocks (length inp) + Z.of_nat (length inp) mod 3) as Hn by (apply Z.div_mod; lia).
  assert (0 <= Z.of_nat (length inp) mod 3 < 3) as Hm by (apply Z.mod_pos_bound; lia).
  assert (left_chars (length inp) = match Z.of_nat (length inp) mod 3 with 0 => 0 | 1 => 2 | _ => 3 end) as Hlc by done.
  assert (0 <= blocks (length inp)) as Hpos by (apply Z.div_pos; lia).
  destruct (decode_enc inp [] (length (enc inp)) Hb) as (out & rest & Hd & Hr & Happ).
  { destruct (_ =? 0) eqn:? in Hlen; lia. }
  cbn [app length] in Hd, Hr. change (Z.of_nat 0) with 0 in Hd, Hr. rewrite !Z.add_0_l in Hd, Hr.
  set (lc := left_chars (length inp)) in *.
  assert (0 <= lc < 4 /\ decoded_length (blocks (length inp) * 4 + lc) = Z.of_nat (length inp) /\
    blocks (length inp) * 4 + lc <= Z.of_nat (length (enc inp))) as (Hlc4 & Hdl & Hle).
  { unfold decoded_length. rewrite (Z.add_comm (blocks _ * 4) lc), Z.div_add, Z.mod_add by lia.
    set (m := Z.of_nat (length inp) mod 3) in *.
    assert (m = 0 \/ m = 1 \/ m = 2) as [E | [E | E]] by lia; rewrite E in Hlen, Hlc, Hn;
      cbn iota in Hlc; rewrite Hlc; [change (0 / 4) with 0; change (0 mod 4) with 0|
      change (2 / 4) with 0; change (2 mod 4) with 2|change (3 / 4) with 0; change (3 mod 4) with 3];
      cbn [Z.eqb Pos.eqb] in *; lia. }
  unfold base64_decode. rewrite H1, H2, assumed_newlines_enc by done. cbn [negb].
  replace ((blocks (length inp) * 4 + lc) / 4 * 4) with (blocks (length inp) * 4)
    by (rewrite (Z.add_comm (blocks _ * 4) lc), Z.div_add, (Z.div_small lc) by lia; lia).
  replace ((blocks (length inp) * 4 + lc) mod 4) with lc
    by (rewrite (Z.add_comm (blocks _ * 4) lc), Z.mod_add, (Z.mod_small lc) by lia; lia).
  rewrite Hd, Hr, Happ, Z.sub_0_r, Hdl, Z.eqb_refl. done.
Qed.

Lemma base64_roundtrip_witness :
  [77; 97; 110; 1] <> [] /\ Forall in_u8 [77; 97; 110; 1] /\
  exists text, base64_encode true [77; 97; 110; 1] false = (Z.of_nat (length text), Some text) /\
    base64_decode true text = Some (Val (4, Some [77; 97; 110; 1])).
Proof.
  assert (Forall in_u8 [77; 97; 110; 1]) as Hb by (unfold in_u8; repeat constructor; lia).
  split_and!; [done|exact Hb|].
  destruct (base64_roundtrip [77; 97; 110; 1] ltac:(discriminate) Hb) as (text & H1 & H2 & _).
  exists text. split; [exact H1|exact H2].
Defined.

(** With line breaks the round trip fails: the decoder counts blocks in a
    length that includes the newlines.  A text of 58 bytes is refused, a text
    of 114 bytes is read beyond its end.  An empty text is read before its
    start. *)
Theorem base64_newline_decode_fails :
  let reread n :=
    match base64_encode true (replicate n 65) true with
    | (_, Some text) => base64_decode true text
    | _ => None
    end in
  reread 58%nat = Some (Val (0, None)) /\ reread 114%nat = Some Fault /\ base64_decode true [] = Some Fault.
Proof. vm_compute. auto. Qed.
