(* ===== verification/Crc.v ===== *)
(** * Checksums ([cc/lib/crc.64.c])

    The table-driven CRC-32, the CRC-32C built on the processor's [crc32]
    instructions, and Adler-32 with its delayed reduction.  Data is a list of
    bytes; accumulators are 32 bits wide. *)

From S2P Require Import Prelude.

(** ** CRC-32 *)

Definition crc32_poly : Z := 0xEDB88320.

(** One round of the loop of [crc32_init_table] on a table entry. *)
Definition crc_step (poly x : Z) : Z :=
  if negb (Z.land x 1 =? 0) then Z.lxor (Z.shiftr x 1) poly else Z.shiftr x 1.

(** [for(z = 8; z; z--)]. *)
Definition crc_bits (poly : Z) (n : nat) (x : Z) : Z := Nat.iter n (crc_step poly) x.

(** The loop over the entries; [index] is a [uint8_t], so [++index] is zero
    after 255.  [None] if the fuel runs out. *)
Fixpoint init_loop (fuel : nat) (index : Z) (table : list Z) : option (list Z) :=
  match fuel with
  | O => None
  | S fuel =>
    let table := <[Z.to_nat index := crc_bits crc32_poly 8 index]> table in
    let index := u8 (index + 1) in
    if index =? 0 then Some table else init_loop fuel index table
  end.

Definition crc32_init_table (table : list Z) : option (list Z) := init_loop 256 0 table.

Fixpoint crc32_sum (table : list Z) (p : list Z) (crc : Z) : Z :=
  match p with
  | [] => crc
  | x :: p => crc32_sum table p (Z.lxor (default 0 (table !! Z.to_nat (Z.lxor (u8 crc) x))) (Z.shiftr crc 8))
  end.

(** ** CRC-32C *)

Definition crc32c_poly : Z := 0x82F63B78.

(** The instructions [crc32b] and [crc32l]: division of 8 or 32 bits of data
    by the polynomial, bits in reflected order. *)
Definition crc32c_u8 (crc data : Z) : Z := crc_bits crc32c_poly 8 (Z.lxor crc data).
Definition crc32c_u32 (crc data : Z) : Z := crc_bits crc32c_poly 32 (Z.lxor crc data).

(** [*data32] on a little-endian machine. *)
Definition word32 (b0 b1 b2 b3 : Z) : Z := b0 + 2 ^ 8 * (b1 + 2 ^ 8 * (b2 + 2 ^ 8 * b3)).

(** The loops, over the two instructions. *)
Fixpoint crc32c_bytes (crc32b : Z -> Z -> Z) (data8 : list Z) (ret : Z) : Z :=
  match data8 with
  | [] => ret
  | x :: data8 => crc32c_bytes crc32b data8 (crc32b ret x)
  end.

Fixpoint crc32c_words (crc32b crc32l : Z -> Z -> Z) (data : list Z) (ret : Z) : Z :=
  match data with
  | b0 :: b1 :: b2 :: b3 :: data => crc32c_words crc32b crc32l data (crc32l ret (word32 b0 b1 b2 b3))
  | _ => crc32c_bytes crc32b data ret
  end.

Definition crc32c_sum (data : list Z) (init : Z) : Z := crc32c_words crc32c_u8 crc32c_u32 data init.

(** ** Adler-32 *)

(** [do { a += *data8++; b += a; } while(--len)]. *)
Fixpoint adler_block (data : list Z) (a b : Z) : Z * Z :=
  match data with
  | [] => (a, b)
  | x :: data => adler_block data (u32 (a + x)) (u32 (b + u32 (a + x)))
  end.

Definition adler_len : nat := Z.to_nat 5550.

(** The loop over blocks of 5550 bytes; the number of bytes is enough fuel. *)
Fixpoint adler_loop (fuel : nat) (data : list Z) (a b : Z) : option (Z * Z) :=
  match data, fuel with
  | [], _ => Some (a, b)
  | _, O => None
  | _, S fuel =>
    let '(a, b) := adler_block (take adler_len data) a b in
    adler_loop fuel (drop adler_len data) (a mod 65521) (b mod 65521)
  end.

Definition adler32_sum (data : list Z) (init : Z) : option Z :=
  let a := Z.land init 0xFFFF in
  let b := Z.land (Z.shiftr init 16) 0xFFFF in
  match adler_loop (length data) data a b with
  | None => None
  | Some (a, b) => Some (Z.lor (u32 (Z.shiftl b 16)) a)
  end.

(** ** CRC: linearity *)

Section Linear.
Context (poly : Z).

Lemma crc_step_odd x : crc_step poly x = Z.lxor (Z.shiftr x 1) (if Z.testbit x 0 then poly else 0).
Proof using.
  unfold crc_step. rewrite (land_ones_mod x 1 1) by done. change (2 ^ 1) with 2.
  rewrite Zmod_odd, Z.bit0_odd. destruct (Z.odd x); cbn [negb Z.eqb]; [done|by rewrite Z.lxor_0_r].
Qed.

Lemma crc_step_lxor x y : crc_step poly (Z.lxor x y) = Z.lxor (crc_step poly x) (crc_step poly y).
Proof using.
  rewrite !crc_step_odd, Z.shiftr_lxor, Z.lxor_spec.
  apply Z.bits_inj'. intros n Hn. rewrite !Z.lxor_spec.
  destruct (Z.testbit x 0), (Z.testbit y 0); cbn [xorb]; rewrite ?Z.bits_0;
    destruct (Z.testbit (Z.shiftr x 1) n), (Z.testbit (Z.shiftr y 1) n), (Z.testbit poly n); done.
Qed.

Lemma crc_bits_S n x : crc_bits poly (S n) x = crc_step poly (crc_bits poly n x).
Proof using. done. Qed.

Lemma crc_bits_lxor n x y : crc_bits poly n (Z.lxor x y) = Z.lxor (crc_bits poly n x) (crc_bits poly n y).
Proof using.
  induction n as [|n IH]; [done|]. by rewrite !crc_bits_S, IH, crc_step_lxor.
Qed.

Lemma crc_bits_add n m x : crc_bits poly (n + m) x = crc_bits poly n (crc_bits poly m x).
Proof using. apply Nat.iter_add. Qed.

(** Bits that are not shifted out pass unchanged. *)
Lemma crc_bits_high n y : 0 <= y -> crc_bits poly n (Z.shiftl y (Z.of_nat n)) = y.
Proof using.
  intros Hy. induction n as [|n IH]; [done|]. unfold crc_bits. rewrite Nat.iter_succ_r.
  rewrite crc_step_odd, Z.shiftr_shiftl_l by lia.
  rewrite Z.shiftl_spec_low by lia. rewrite Z.lxor_0_r.
  replace (Z.of_nat (S n) - 1) with (Z.of_nat n) by lia. exact IH.
Qed.

(** Processing [n] bits acts on the low [n] bits, and shifts the others. *)
Lemma crc_bits_split n x :
  0 <= x -> crc_bits poly n x = Z.lxor (crc_bits poly n (x mod 2 ^ Z.of_nat n)) (Z.shiftr x (Z.of_nat n)).
Proof using.
  intros Hx. rewrite <- (crc_bits_high n (Z.shiftr x (Z.of_nat n))) at 1 by (apply Z.shiftr_nonneg; lia).
  rewrite <- crc_bits_lxor. f_equal. apply Z.bits_inj'. intros k Hk.
  rewrite Z.lxor_spec. destruct (Z.lt_ge_cases k (Z.of_nat n)).
  - by rewrite Z.mod_pow2_bits_low, Z.shiftl_spec_low, xorb_false_r by lia.
  - rewrite Z.mod_pow2_bits_high, Z.shiftl_spec, Z.shiftr_spec by lia. cbn [xorb]. f_equal. lia.
Qed.

Lemma crc_bits_nonneg n x : 0 <= poly -> 0 <= x -> 0 <= crc_bits poly n x.
Proof using.
  intros Hp Hx. induction n as [|n IH]; [done|]. rewrite crc_bits_S, crc_step_odd.
  apply Z.lxor_nonneg. split; intros _; [by destruct (Z.testbit _ 0)|]. by apply Z.shiftr_nonneg.
Qed.
End Linear.

(** ** CRC: the reference *)

(** A checksum that divides one byte at a time. *)
Definition crc_ref (poly : Z) (data : list Z) (init : Z) : Z :=
  foldl (fun crc x => crc_bits poly 8 (Z.lxor crc x)) init data.

Lemma lxor_mod_byte x y : in_u8 y -> Z.lxor x y mod 2 ^ 8 = Z.lxor (u8 x) y.
Proof.
  intros Hy. unfold u8. rewrite <- (Z.mod_small y (2 ^ 8)) at 2 by exact Hy.
  rewrite <- !Z.land_ones by lia. apply Z.bits_inj'. intros n Hn.
  rewrite !Z.land_spec, !Z.lxor_spec, !Z.land_spec.
  by destruct (Z.testbit x n), (Z.testbit y n), (Z.testbit (Z.ones 8) n).
Qed.

Lemma shiftr_byte x y k : in_u8 y -> 8 <= k -> Z.shiftr (Z.lxor x y) k = Z.shiftr x k.
Proof.
  intros Hy Hk. rewrite Z.shiftr_lxor. rewrite (Z.shiftr_div_pow2 y) by lia.
  rewrite Z.div_small, Z.lxor_0_r; [done|]. unfold in_u8 in Hy.
  pose proof (Z.pow_le_mono_r 2 8 k ltac:(lia) Hk). lia.
Qed.

Lemma init_table_entries : crc32_init_table (replicate 256 0) = Some (crc_bits crc32_poly 8 <$> seqZ 0 256).
Proof. vm_compute. reflexivity. Qed.

Lemma table_lookup i :
  0 <= i < 256 -> (crc_bits crc32_poly 8 <$> seqZ 0 256) !! Z.to_nat i = Some (crc_bits crc32_poly 8 i).
Proof.
  intros Hi. rewrite list_lookup_fmap, lookup_seqZ_lt by lia. cbn [fmap option_fmap option_map].
  f_equal. f_equal. lia.
Qed.

Lemma crc32_sum_ref data crc :
  0 <= crc -> Forall in_u8 data ->
  crc32_sum (crc_bits crc32_poly 8 <$> seqZ 0 256) data crc = crc_ref crc32_poly data crc.
Proof.
  revert crc. induction data as [|x data IH]; intros crc Hcrc Hb; [done|].
  apply Forall_cons in Hb as [Hx Hb]. cbn [crc32_sum crc_ref foldl].
  assert (0 <= Z.lxor crc x) by (apply Z.lxor_nonneg; unfold in_u8 in Hx; lia).
  rewrite table_lookup.
  - cbn [default id]. rewrite <- lxor_mod_byte by done.
    rewrite <- (shiftr_byte crc x 8) by (done || lia).
    change 8 with (Z.of_nat 8). rewrite <- (crc_bits_split crc32_poly 8 (Z.lxor crc x)) by done.
    apply IH; [|done]. apply crc_bits_nonneg; [done|done].
  - rewrite <- lxor_mod_byte by done. apply Z.mod_pos_bound. lia.
Qed.

(** One [crc32l] is four [crc32b]. *)
Lemma crc32c_word crc b0 b1 b2 b3 :
  0 <= crc -> in_u8 b0 -> in_u8 b1 -> in_u8 b2 -> in_u8 b3 ->
  crc32c_u32 crc (word32 b0 b1 b2 b3) = crc32c_u8 (crc32c_u8 (crc32c_u8 (crc32c_u8 crc b0) b1) b2) b3.
Proof.
  intros Hc H0 H1 H2 H3.
  assert (forall n crc b w, 0 <= crc -> in_u8 b -> 0 <= w ->
    crc_bits crc32c_poly (n + 8) (Z.lxor crc (b + 2 ^ 8 * w)) =
    crc_bits crc32c_poly n (Z.lxor (crc_bits crc32c_poly 8 (Z.lxor crc b)) w)) as Hstep.
  { clear. intros n crc b w Hc Hb Hw. rewrite crc_bits_add. f_equal.
    replace (b + 2 ^ 8 * w) with (Z.lxor b (Z.shiftl w 8)).
    - rewrite <- Z.lxor_assoc, crc_bits_lxor. f_equal. by apply (crc_bits_high crc32c_poly 8 w).
    - rewrite Z.lxor_comm, <- Z.add_nocarry_lxor.
      + rewrite Z.shiftl_mul_pow2; lia.
      + apply Z.bits_inj'. intros k Hk. rewrite Z.land_spec, Z.bits_0. unfold in_u8 in Hb.
        destruct (Z.lt_ge_cases k 8); [by rewrite Z.shiftl_spec_low|].
        rewrite <- (Z.mod_small b (2 ^ 8)), Z.mod_pow2_bits_high by lia. apply andb_false_r. }
  unfold in_u8 in *. unfold crc32c_u32, word32.
  assert (forall crc b, 0 <= crc -> 0 <= b -> 0 <= crc_bits crc32c_poly 8 (Z.lxor crc b)) as Hpos.
  { intros c b Hcc Hbb. apply crc_bits_nonneg; [done|]. by apply Z.lxor_nonneg. }
  unfold crc32c_u8. set (c0 := crc_bits crc32c_poly 8 (Z.lxor crc b0)).
  set (c1 := crc_bits crc32c_poly 8 (Z.lxor c0 b1)).
  assert (0 <= c0) as P0 by (apply Hpos; lia). assert (0 <= c1) as P1 by (apply Hpos; lia).
  transitivity (crc_bits crc32c_poly 24 (Z.lxor c0 (b1 + 2 ^ 8 * (b2 + 2 ^ 8 * b3))));
    [apply (Hstep 24%nat); unfold in_u8; lia|].
  transitivity (crc_bits crc32c_poly 16 (Z.lxor c1 (b2 + 2 ^ 8 * b3)));
    [apply (Hstep 16%nat); unfold in_u8; lia|].
  apply (Hstep 8%nat); unfold in_u8; lia.
Qed.

(** If one instruction on a word is four on its bytes, the loop over words is
    the loop over bytes. *)
Lemma crc32c_words_bytes crc32b crc32l (P : Z -> Prop) data crc :
  (forall crc b, P crc -> in_u8 b -> P (crc32b crc b)) ->
  (forall crc b0 b1 b2 b3, P crc -> in_u8 b0 -> in_u8 b1 -> in_u8 b2 -> in_u8 b3 ->
     crc32l crc (word32 b0 b1 b2 b3) = crc32b (crc32b (crc32b (crc32b crc b0) b1) b2) b3) ->
  P crc -> Forall in_u8 data -> crc32c_words crc32b crc32l data crc = foldl crc32b crc data.
Proof.
  intros HP Hw. assert (forall l c, crc32c_bytes crc32b l c = foldl crc32b c l) as Hbytes.
  { intros l. induction l as [|x l IH]; intros c; [done|]. apply IH. }
  remember (length data) as n eqn:Hn. revert data crc Hn.
  induction (lt_wf n) as [n _ IH]. intros data crc -> Hc Hb.
  destruct data as [|b0 [|b1 [|b2 [|b3 data]]]]; try apply Hbytes.
  apply Forall_cons in Hb as [H0 [H1 [H2 [H3 Hb]%Forall_cons]%Forall_cons]%Forall_cons].
  cbn [crc32c_words foldl]. rewrite Hw by done. apply (IH (length data)); [cbn; lia|done|auto 6|done].
Qed.

Lemma crc32c_sum_ref data crc :
  0 <= crc -> Forall in_u8 data -> crc32c_sum data crc = crc_ref crc32c_poly data crc.
Proof.
  intros Hc Hb. apply (crc32c_words_bytes crc32c_u8 crc32c_u32 (Z.le 0)); [|apply crc32c_word|done|done].
  intros c b Hcc Hbb. apply crc_bits_nonneg; [done|]. apply Z.lxor_nonneg. unfold in_u8 in Hbb. lia.
Qed.

(** C25.  Both checksums are the division of the data, bit by bit, by their
    polynomials: the table that [crc32_init_table] fills makes [crc32_sum]
    agree with it, and processing four bytes per instruction makes no
    difference to [crc32c_sum]. *)
Theorem crc_sums_correct data init :
  0 <= init < 2 ^ 32 -> Forall in_u8 data ->
  (exists table, crc32_init_table (replicate 256 0) = Some table /\
     crc32_sum table data init = crc_ref crc32_poly data init) /\
  crc32c_sum data init = crc_ref crc32c_poly data init.
Proof.
  intros Hi Hb. split.
  - eexists. split; [apply init_table_entries|]. apply crc32_sum_ref; [lia|done].
  - apply crc32c_sum_ref; [lia|done].
Qed.

(** The check values of both codes on the digits 1 to 9. *)
Lemma crc_sums_witness :
  Forall in_u8 (seqZ 49 9) /\
  (exists table, crc32_init_table (replicate 256 0) = Some table /\
     Z.lxor (crc32_sum table (seqZ 49 9) 0xFFFFFFFF) 0xFFFFFFFF = 0xCBF43926) /\
  Z.lxor (crc32c_sum (seqZ 49 9) 0xFFFFFFFF) 0xFFFFFFFF = 0xE3069283.
Proof.
  assert (Forall in_u8 (seqZ 49 9)) as Hb by (unfold in_u8; repeat constructor; lia).
  destruct (crc_sums_correct (seqZ 49 9) 0xFFFFFFFF ltac:(lia) Hb) as [(table & Ht & Hs) Hc].
  split_and!; [exact Hb|exists table; split; [exact Ht|]|].
  - rewrite Hs. vm_compute. reflexivity.
  - rewrite Hc. vm_compute. reflexivity.
Defined.

(** ** Adler-32: the delayed reduction *)

(** The definition: both sums reduced after every byte. *)
Definition adler_ref (data : list Z) (ab : Z * Z) : Z * Z :=
  foldl (fun ab x => ((ab.1 + x) mod 65521, (ab.2 + (ab.1 + x)) mod 65521)) ab data.

(** The sums of a block without reduction. *)
Fixpoint adler_sums (data : list Z) (a b : Z) : Z * Z :=
  match data with
  | [] => (a, b)
  | x :: data => adler_sums data (a + x) (b + (a + x))
  end.

(** The sums of [n] bytes stay in 32 bits if these bounds do. *)
Definition adler_fits (n a b : Z) : Prop :=
  0 <= a /\ 0 <= b /\ a + 255 * n < 2 ^ 32 /\ 2 * b + 2 * n * a + 255 * n * (n + 1) < 2 ^ 33.

Lemma adler_fits_step n a b x :
  0 <= n -> in_u8 x -> adler_fits (n + 1) a b ->
  u32 (a + x) = a + x /\ u32 (b + (a + x)) = b + (a + x) /\ adler_fits n (a + x) (b + (a + x)).
Proof.
  unfold adler_fits, in_u8, u32. intros Hn Hx (Ha & Hb & H1 & H2).
  assert (0 <= n * a) by nia. assert (0 <= n * x <= n * 255) by nia.
  split_and!; try lia; try (apply Z.mod_small; nia); nia.
Qed.

Lemma adler_block_sums data a b :
  Forall in_u8 data -> adler_fits (Z.of_nat (length data)) a b -> adler_block data a b = adler_sums data a b.
Proof.
  revert a b. induction data as [|x data IH]; intros a b Hb Hf; [done|].
  apply Forall_cons in Hb as [Hx Hb]. cbn [length] in Hf. rewrite Nat2Z.inj_succ in Hf.
  destruct (adler_fits_step (Z.of_nat (length data)) a b x ltac:(lia) Hx Hf) as (E1 & E2 & Hf').
  cbn [adler_block adler_sums]. rewrite E1, E2. by apply IH.
Qed.

(** Reducing once at the end is reducing after every byte. *)
Lemma adler_ref_sums data a b :
  adler_ref data (a mod 65521, b mod 65521) =
  ((adler_sums data a b).1 mod 65521, (adler_sums data a b).2 mod 65521).
Proof.
  revert a b. induction data as [|x data IH]; intros a b; [done|].
  cbn [adler_sums]. rewrite <- IH. unfold adler_ref. cbn [foldl fst snd]. f_equal. f_equal.
  - by rewrite Zplus_mod_idemp_l.
  - rewrite Zplus_mod_idemp_l. replace (b + (a mod 65521 + x)) with (a mod 65521 + (b + x)) by lia.
    rewrite Zplus_mod_idemp_l. f_equal. lia.
Qed.

Lemma adler_loop_ref fuel data a b :
  Forall in_u8 data -> (length data <= fuel)%nat -> 0 <= a < 2 ^ 16 -> 0 <= b < 2 ^ 16 ->
  (data = [] -> a < 65521 /\ b < 65521) ->
  adler_loop fuel data a b = Some (adler_ref data (a mod 65521, b mod 65521)).
Proof.
  revert data a b. induction fuel as [|fuel IH]; intros data a b Hb Hf Ha Hbb Hnil.
  - destruct data; [|cbn in Hf; lia]. destruct Hnil; [done|]. cbn. by rewrite !Z.mod_small by lia.
  - destruct data as [|x data]; [destruct Hnil; [done|]; cbn; by rewrite !Z.mod_small by lia|].
    cbn [adler_loop]. rewrite adler_block_sums.
    + destruct (adler_sums _ a b) as [a' b'] eqn:E.
      pose proof (Z.mod_pos_bound a' 65521 ltac:(lia)). pose proof (Z.mod_pos_bound b' 65521 ltac:(lia)).
      rewrite IH; [|by apply Forall_drop|rewrite length_drop; unfold adler_len; cbn [length] in *; lia|lia|lia|lia].
      f_equal. rewrite <- (take_drop adler_len (x :: data)) at 2.
      unfold adler_ref at 2. rewrite foldl_app. fold (adler_ref (take adler_len (x :: data)) (a mod 65521, b mod 65521)).
      rewrite (adler_ref_sums (take adler_len (x :: data)) a b), E. cbn [fst snd]. by rewrite !Z.mod_mod.
    + by apply Forall_take.
    + rewrite length_take. set (n := Z.of_nat (adler_len `min` _)).
      assert (0 <= n <= 5550) by (unfold n, adler_len; lia). unfold adler_fits. nia.
Qed.

(** [adler32_sum] reduces its sums only once per 5550 bytes; no sum
    leaves its 32 bits meanwhile, the loop ends, and the result packs the two
    sums of the definition that reduces after every byte. *)
Theorem adler32_correct data init :
  0 <= init < 2 ^ 32 -> Forall in_u8 data -> data <> [] ->
  adler32_sum data init =
    let ab := adler_ref data ((init mod 2 ^ 16) mod 65521, (init / 2 ^ 16) mod 65521) in
    Some (ab.2 * 2 ^ 16 + ab.1).
Proof.
  intros Hi Hb Hne. unfold adler32_sum.
  rewrite (land_ones_mod init 16), (land_ones_mod (Z.shiftr init 16) 16) by done.
  rewrite Z.shiftr_div_pow2 by lia.
  pose proof (Z.mod_pos_bound init (2 ^ 16) ltac:(lia)).
  assert (0 <= init / 2 ^ 16 < 2 ^ 16) by (Z.to_euclidean_division_equations; lia).
  rewrite (Z.mod_small (init / 2 ^ 16)) by lia.
  rewrite adler_loop_ref by (done || lia). cbn zeta. rewrite adler_ref_sums. cbn [fst snd].
  pose proof (Z.mod_pos_bound (adler_sums data (init mod 2 ^ 16) (init / 2 ^ 16)).1 65521 ltac:(lia)).
  pose proof (Z.mod_pos_bound (adler_sums data (init mod 2 ^ 16) (init / 2 ^ 16)).2 65521 ltac:(lia)).
  rewrite Z.shiftl_mul_pow2 by lia. unfold u32. rewrite (Z.mod_small (_ * _)) by lia.
  by rewrite (lor_low_add 16) by (lia || (apply Z.mod_mul; lia)).
Qed.

(** The check value on the digits 1 to 9. *)
Lemma adler32_witness :
  Forall in_u8 (seqZ 49 9) /\ adler32_sum (seqZ 49 9) 1 = Some 0x091E01DE.
Proof.
  assert (Forall in_u8 (seqZ 49 9)) as Hb by (unfold in_u8; repeat constructor; lia).
  split; [exact Hb|].
  rewrite (adler32_correct (seqZ 49 9) 1 ltac:(lia) Hb ltac:(discriminate)). vm_compute. reflexivity.
Defined.
