(* ===== verification/Sync.v ===== *)
(** * Locks and semaphores ([cc/cpu/sync.64.c])

    A lock is modelled twice.  [lock_acquire] and [lock_release] are the calls
    of a thread that runs alone, used where locks protect other state.  The
    machine of [thread_step] interleaves any number of threads at every access
    to the shared lock, so that what mutual exclusion rests on is visible: the
    reentrancy test reads three fields one after the other, and only the
    test-and-set of [lock_value] is atomic.

    Semaphores are given in the second way: any number of threads are in calls
    on one semaphore and interleave at every access to its lock and its count.

    A caller is identified by the number of its processor and the id of its
    task; the scheduler calls made while a lock is taken do not touch it and
    are left out. *)

From S2P Require Import Prelude.

Record lock_t := mk_lock {
  lock_value : Z;
  owner_task_id : Z;
  owner_cpu_id : Z;
  for_future : bool;
}.

(** ** Calls of a thread that runs alone *)

Record caller := mk_caller { cpu_id : Z; task_id : Z }.

(** The identity computed by [lock_acquire]: the local APIC id plus one, and
    the id of the current task if there is one. *)
Definition lock_identity (apic_id : Z) (current_task : option Z) : caller :=
  let current_cpu_id := u32 (apic_id + 1) in
  mk_caller current_cpu_id (default current_cpu_id current_task).

Definition lock_create_with_heap_for_future (ok : bool) (future : bool) (task : Z) : option lock_t :=
  if negb ok then None
  else if future then Some (mk_lock 1 task 0 true) else Some (mk_lock 0 0 0 false).

Definition lock_destroy (handle : option lock_t) (free_result : Z) : Z :=
  match handle with None => -1 | Some _ => free_result end.

(** [bit_locked_set(&lock->lock_value, 0)]: the old bit and the new value. *)
Definition bit_locked_set (v : Z) : bool * Z := (Z.testbit v 0, Z.lor v 1).

(** The lock after the call; [None] if the caller spins for ever, which it
    does when it runs alone and finds the bit set. *)
Definition lock_acquire (panic_disable_locks : bool) (handle : option lock_t) (me : caller)
    : option (option lock_t) :=
  match handle with
  | None => Some None
  | Some lock =>
    if panic_disable_locks then Some (Some lock)
    else if negb (lock_value lock =? 0) && negb (for_future lock)
         && (owner_cpu_id lock =? cpu_id me) && (owner_task_id lock =? task_id me)
    then Some (Some lock)
    else
      let '(was_set, v) := bit_locked_set (lock_value lock) in
      if was_set then None
      else Some (Some (mk_lock v (if for_future lock then owner_task_id lock else task_id me)
                         (cpu_id me) (for_future lock)))
  end.

Definition lock_release (handle : option lock_t) : option lock_t :=
  match handle with
  | None => None
  | Some lock => Some (mk_lock 0 0 0 (for_future lock))
  end.

(** ** Interleaved threads *)

(** Where a thread is between its accesses to the lock.  The number counts the
    sections that are open: behind calls of [lock_acquire] that have returned
    and whose [lock_release] is still to come.  [Inside d] has [d + 1] of them,
    and [ClearCpu d], [ClearValue d] leave [d] open. *)
Inductive pc :=
| Out                  (* does not use the lock *)
| Check (d : nat)      (* about to read [lock_value] and [for_future] *)
| CheckCpu (d : nat)
| CheckTask (d : nat)
| Spin (d : nat)       (* about to test and set the bit *)
| SetTask (d : nat)    (* got the bit, about to write [owner_task_id] *)
| SetCpu (d : nat)
| Inside (d : nat)     (* [lock_acquire] has returned *)
| ClearCpu (d : nat)   (* in [lock_release], [owner_task_id] is cleared *)
| ClearValue (d : nat).

#[export] Instance pc_eq_dec : EqDecision pc.
Proof. solve_decision. Defined.

(** What a thread calls next while it is inside: [lock_acquire] once more, or
    [lock_release], after which [open] of its sections go on. *)
Inductive action := Again | Release (open : nat).

(** Where a thread is that has [d] open sections and is in no call. *)
Definition rest (d : nat) : pc := match d with O => Out | S d => Inside d end.

(** One access of a thread. *)
Definition thread_step (me : caller) (c : action) (p : pc) (lock : lock_t) : pc * lock_t :=
  match p with
  | Out => (Check 0, lock)
  | Check d =>
    if negb (lock_value lock =? 0) && negb (for_future lock) then (CheckCpu d, lock) else (Spin d, lock)
  | CheckCpu d => if owner_cpu_id lock =? cpu_id me then (CheckTask d, lock) else (Spin d, lock)
  | CheckTask d => if owner_task_id lock =? task_id me then (Inside d, lock) else (Spin d, lock)
  | Spin d =>
    let '(was_set, v) := bit_locked_set (lock_value lock) in
    let lock := mk_lock v (owner_task_id lock) (owner_cpu_id lock) (for_future lock) in
    if was_set then (Spin d, lock)
    else if for_future lock then (SetCpu d, lock) else (SetTask d, lock)
  | SetTask d => (SetCpu d, mk_lock (lock_value lock) (task_id me) (owner_cpu_id lock) (for_future lock))
  | SetCpu d => (Inside d, mk_lock (lock_value lock) (owner_task_id lock) (cpu_id me) (for_future lock))
  | Inside d =>
    match c with
    | Again => (Check (S d), lock)
    | Release open => (ClearCpu (open `min` d), mk_lock (lock_value lock) 0 (owner_cpu_id lock) (for_future lock))
    end
  | ClearCpu d => (ClearValue d, mk_lock (lock_value lock) (owner_task_id lock) 0 (for_future lock))
  | ClearValue d => (rest d, mk_lock 0 (owner_task_id lock) (owner_cpu_id lock) (for_future lock))
  end.

Record machine := mk_machine { pcs : list pc; shared : lock_t }.

(** Unless [inner], a thread calls [lock_release] only at the end of all its
    sections. *)
Definition allowed (inner : bool) (c : action) : bool :=
  match c with Again | Release O => true | Release (S _) => inner end.

(** Any thread may go on, [ids] being the identities of the threads. *)
Inductive step (inner : bool) (ids : list caller) (s : machine) : machine -> Prop :=
| step_thread t me p c p' lock' :
    ids !! t = Some me -> pcs s !! t = Some p -> allowed inner c = true ->
    thread_step me c p (shared s) = (p', lock') ->
    step inner ids s (mk_machine (<[t := p']> (pcs s)) lock').

Definition initial (n : nat) : machine := mk_machine (replicate n Out) (mk_lock 0 0 0 false).

Definition reachable (inner : bool) (ids : list caller) (s : machine) : Prop :=
  rtc (step inner ids) (initial (length ids)) s.

(** ** Semaphores *)

Record semaphore_t := mk_semaphore {
  sem_lock : option lock_t;
  initial_count : Z;
  current_count : Z;
}.

Definition set_lock (sem : semaphore_t) (l : option lock_t) : semaphore_t :=
  mk_semaphore l (initial_count sem) (current_count sem).

Definition set_count (sem : semaphore_t) (v : Z) : semaphore_t :=
  mk_semaphore (sem_lock sem) (initial_count sem) v.

(** The result of [lock_create_with_heap] is not checked. *)
Definition semaphore_create_with_heap (ok1 ok2 : bool) (count : Z) : option semaphore_t :=
  if negb ok1 then None
  else Some (mk_semaphore (lock_create_with_heap_for_future ok2 false 0) count count).

(** [semaphore_destroy] does not check its argument. *)
Definition semaphore_destroy (handle : option semaphore_t) (free_result : Z) : access Z :=
  match handle with None => Fault | Some _ => Val free_result end.

(** An access to the lock of a semaphore; calls with a NULL lock return at
    once. *)
Definition lock_access (me : caller) (c : action) (p : pc) (handle : option lock_t) : pc * option lock_t :=
  match handle with
  | Some lock => let '(p', lock') := thread_step me c p lock in (p', Some lock')
  | None =>
    match p, c with
    | Out, _ => (Inside 0, None)
    | Inside d, Again => (Inside (S d), None)
    | Inside d, Release open => (rest (open `min` d), None)
    | _, _ => (p, None)
    end
  end.

(** How far a thread is in its call of [semaphore_acquire_with_count] or
    [semaphore_release_with_count] with [n] slots.  [AcquireFirst],
    [AcquireLoop] and [ReleaseTest] run [lock_acquire] and then their test;
    [AcquireTaken], [AcquireRetry], [AcquireRefused], [ReleaseGiven] and
    [ReleaseRefused] run [lock_release] and then return or start the next
    round. *)
Inductive sem_call :=
| Rest (ret : Z)                (* no call; what the last one returned *)
| AcquireFirst (n : Z)
| AcquireLoop (n : Z)
| AcquireSub (n : Z)            (* about to read [current_count] to subtract from it *)
| AcquireStore (n v : Z)        (* about to store [v - n] *)
| AcquireTaken (n : Z)
| AcquireRetry (n : Z)
| AcquireRefused (n : Z)
| ReleaseTest (n : Z)
| ReleaseAdd (n : Z)
| ReleaseStore (n v : Z)
| ReleaseGiven (n : Z)
| ReleaseRefused (n : Z).

Inductive request := AcquireCount (n : Z) | ReleaseCount (n : Z).

(** A thread: its place in the calls on the lock and on the semaphore, and the
    slots it got from calls that have returned and has not passed to a
    release. *)
Record sem_thread := mk_thread { th_pc : pc; th_call : sem_call; th_held : Z }.

(** The beginning of both calls. *)
Definition semaphore_call (handle : option semaphore_t) (r : request) (th : sem_thread) : sem_thread :=
  match handle with
  | None => mk_thread (th_pc th) (Rest (-1)) (th_held th)
  | Some _ =>
    match r with
    | AcquireCount n => mk_thread (th_pc th) (AcquireFirst n) (th_held th)
    | ReleaseCount n => mk_thread (th_pc th) (ReleaseTest n) (th_held th - n)
    end
  end.

(** One access of the lock, after which the thread goes on with [call]. *)
Definition via_lock (me : caller) (c : action) (call : sem_call) (th : sem_thread) (sem : semaphore_t)
    : sem_thread * semaphore_t :=
  let '(p', l') := lock_access me c (th_pc th) (sem_lock sem) in
  (mk_thread p' call (th_held th), set_lock sem l').

(** [lock_acquire], then [test]. *)
Definition entering (me : caller) (th : sem_thread) (sem : semaphore_t) (test : sem_thread * semaphore_t)
    : sem_thread * semaphore_t :=
  match th_pc th with
  | Inside _ => test
  | _ => via_lock me Again (th_call th) th sem
  end.

(** [lock_release], then [call] with [held] slots. *)
Definition leaving (me : caller) (th : sem_thread) (sem : semaphore_t) (call : sem_call) (held : Z)
    : sem_thread * semaphore_t :=
  match th_pc th with
  | Out => (mk_thread Out call held, sem)
  | _ => via_lock me (Release 0) (th_call th) th sem
  end.

Definition goes_to (th : sem_thread) (call : sem_call) : sem_thread := mk_thread (th_pc th) call (th_held th).

(** One access of a thread; [r] is the call a resting thread makes. *)
Definition sem_access (me : caller) (r : request) (th : sem_thread) (sem : semaphore_t)
    : sem_thread * semaphore_t :=
  match th_call th with
  | Rest _ => (semaphore_call (Some sem) r th, sem)
  | AcquireFirst n =>
    entering me th sem
      (if initial_count sem <? n then (goes_to th (AcquireRefused n), sem)
       else via_lock me Again (AcquireLoop n) th sem)
  | AcquireLoop n =>
    entering me th sem
      (if n <=? current_count sem then (goes_to th (AcquireSub n), sem) else (goes_to th (AcquireRetry n), sem))
  | AcquireSub n => (goes_to th (AcquireStore n (current_count sem)), sem)
  | AcquireStore n v => (goes_to th (AcquireTaken n), set_count sem (u64 (v - n)))
  | AcquireTaken n => leaving me th sem (Rest 0) (th_held th + n)
  | AcquireRetry n => leaving me th sem (AcquireLoop n) (th_held th)
  | AcquireRefused n => leaving me th sem (Rest (-1)) (th_held th)
  | ReleaseTest n =>
    entering me th sem
      (if initial_count sem <? u64 (current_count sem + n) then (goes_to th (ReleaseRefused n), sem)
       else (goes_to th (ReleaseAdd n), sem))
  | ReleaseAdd n => (goes_to th (ReleaseStore n (current_count sem)), sem)
  | ReleaseStore n v => (goes_to th (ReleaseGiven n), set_count sem (u64 (v + n)))
  | ReleaseGiven _ => leaving me th sem (Rest 0) (th_held th)
  | ReleaseRefused n => leaving me th sem (Rest (-1)) (th_held th + n)
  end.

(** Threads ask for any number of slots and give back no more than they hold. *)
Definition request_ok (r : request) (held : Z) : Prop :=
  match r with AcquireCount n => 0 <= n < 2 ^ 64 | ReleaseCount n => 0 <= n <= held end.

Record sem_machine := mk_sem_machine { threads : list sem_thread; semaphore : semaphore_t }.

Inductive sem_step (ids : list caller) (s : sem_machine) : sem_machine -> Prop :=
| sem_step_thread t me th r th' sem' :
    ids !! t = Some me -> threads s !! t = Some th -> request_ok r (th_held th) ->
    sem_access me r th (semaphore s) = (th', sem') ->
    sem_step ids s (mk_sem_machine (<[t := th']> (threads s)) sem').

Definition sem_initial (n : nat) (sem : semaphore_t) : sem_machine :=
  mk_sem_machine (replicate n (mk_thread Out (Rest 0) 0)) sem.
