(* ===== verification/SyncProps.v ===== *)
(** * Theorems on locks

    Mutual exclusion and freedom from deadlock of the interleaved machine, and
    the calls of a lone thread as runs of the machine. *)

From S2P Require Import Prelude Sync.

(** ** Mutual exclusion *)

(** From the successful test-and-set to the store that clears the bit. *)
Definition holds (p : pc) : bool :=
  match p with
  | SetTask _ | SetCpu _ | Inside _ | ClearCpu _ | ClearValue _ => true
  | Check d | CheckCpu d | CheckTask d | Spin d => match d with O => false | S _ => true end
  | Out => false
  end.

(** The sections of a thread whose end has not come: the calls of
    [lock_acquire] that have returned, less the releases that have. *)
Definition open_sections (p : pc) : nat :=
  match p with
  | Out => 0
  | Check d | CheckCpu d | CheckTask d | Spin d | SetTask d | SetCpu d => d
  | Inside d | ClearCpu d | ClearValue d => S d
  end.

(** What the owner fields are while a thread holds the lock. *)
Definition owner_ok (p : pc) (me : caller) (lock : lock_t) : Prop :=
  match p with
  | SetTask _ => owner_task_id lock = 0
  | ClearCpu d | ClearValue d => d = 0%nat /\ owner_task_id lock = 0
  | SetCpu _ => owner_task_id lock = task_id me
  | Inside _ | Check _ | CheckCpu _ | CheckTask _ =>
    owner_task_id lock = task_id me /\ owner_cpu_id lock = cpu_id me
  | Spin _ | Out => False
  end.

(** A place with the number of open sections zero or not. *)
Ltac case_pc p := destruct p as [|[|]|[|]|[|]|[|]|[|]|[|]|[|]|[|]|[|]].

Section Machine.
Context (ids : list caller).
Context (Htasks : NoDup (task_id <$> ids)) (Hnonzero : forall me, me ∈ ids -> task_id me <> 0).

Record lock_inv (s : machine) : Prop := {
  li_length : length (pcs s) = length ids;
  li_future : for_future (shared s) = false;
  li_state :
    (lock_value (shared s) = 0 /\ owner_task_id (shared s) = 0 /\
     forall t p, pcs s !! t = Some p -> holds p = false) \/
    (lock_value (shared s) = 1 /\
     exists t p me, pcs s !! t = Some p /\ ids !! t = Some me /\ holds p = true /\
       owner_ok p me (shared s) /\
       forall t' p', pcs s !! t' = Some p' -> holds p' = true -> t' = t);
}.

Lemma inv_initial : lock_inv (initial (length ids)).
Proof using.
  split; [cbn; by rewrite length_replicate|done|]. left. split_and!; [done..|].
  intros t p Hp. apply lookup_replicate in Hp as [-> _]. done.
Qed.

(** The identity of a thread that does not hold the lock is not the owner. *)
Lemma not_owner s t me t0 p0 me0 :
  ids !! t = Some me -> ids !! t0 = Some me0 -> t <> t0 ->
  owner_ok p0 me0 (shared s) -> owner_task_id (shared s) <> task_id me.
Proof using Htasks Hnonzero.
  intros Ht Ht0 Hne Hok E.
  assert (task_id me <> 0) as Hz by (apply Hnonzero; by eapply list_elem_of_lookup_2).
  assert (task_id me0 <> task_id me) as Hd.
  { intros E'. apply Hne. eapply (NoDup_lookup (task_id <$> ids)); [done|..]; rewrite list_lookup_fmap.
    - by rewrite Ht.
    - rewrite Ht0. cbn. congruence. }
  destruct p0; cbn in Hok; intuition congruence.
Qed.

(** One access of a thread that does not hold a free lock. *)
Lemma step_free me c p lock p' lock' :
  task_id me <> 0 -> lock_value lock = 0 -> owner_task_id lock = 0 -> for_future lock = false ->
  holds p = false -> thread_step me c p lock = (p', lock') ->
  (holds p' = false /\ lock' = lock) \/
  (p' = SetTask 0 /\ lock' = mk_lock 1 0 (owner_cpu_id lock) false).
Proof using.
  intros Hz Hv Ho Hf Hp. unfold thread_step. rewrite Hv, Ho, Hf.
  case_pc p; cbn in *; try discriminate; subst; cbn;
    repeat (case_match; cbn); intros [= <- <-]; try (by left); try (by right); lia.
Qed.

(** One access of a thread while another one holds the lock. *)
Lemma step_other me c p lock p' lock' :
  owner_task_id lock <> task_id me -> lock_value lock = 1 -> for_future lock = false ->
  holds p = false -> thread_step me c p lock = (p', lock') ->
  holds p' = false /\ lock' = lock.
Proof using.
  intros Ho Hv Hf Hp. unfold thread_step. rewrite Hv, Hf. destruct lock as [v o cp f]. cbn in *. subst.
  case_pc p; cbn in *; try discriminate; subst; cbn;
    repeat (case_match; cbn); intros [= <- <-]; try done; lia.
Qed.

(** One access of the thread that holds the lock. *)
Lemma step_holder me c p lock p' lock' :
  lock_value lock = 1 -> for_future lock = false -> holds p = true -> owner_ok p me lock -> allowed false c = true ->
  thread_step me c p lock = (p', lock') ->
  for_future lock' = false /\
  ((lock_value lock' = 1 /\ holds p' = true /\ owner_ok p' me lock') \/
   (lock_value lock' = 0 /\ p' = Out /\ owner_task_id lock' = 0)).
Proof using.
  intros Hv Hf Hp Hok Hc. unfold thread_step. rewrite Hv, Hf. destruct lock as [v o cp f]. cbn in *. subst.
  case_pc p; cbn in *; try discriminate; subst; cbn; try tauto;
    repeat (case_match; cbn in *); try discriminate; intros [= <- <-]; cbn; rewrite ?Nat.min_0_l; try (split; [done|]); try tauto; intuition lia.
Qed.

Lemma inv_step s s' : lock_inv s -> step false ids s s' -> lock_inv s'.
Proof using Htasks Hnonzero.
  intros [Hlen Hf Hst] Hstep. destruct Hstep as [t me p c p' lock' Hme Hp Hc Hts].
  assert (task_id me <> 0) as Hz by (apply Hnonzero; by eapply list_elem_of_lookup_2).
  assert (forall q, <[t := q]> (pcs s) !! t = Some q) as Hself
    by (intros q; apply list_lookup_insert_eq; by eapply lookup_lt_Some).
  destruct Hst as [(Hv & Ho & Hno) | (Hv & t0 & p0 & me0 & Hp0 & Hme0 & Hh & Hok & Huniq)].
  - destruct (step_free me c p (shared s) p' lock') as [[Hnh ->] | [-> ->]]; try done; [by eapply Hno|..].
    + split; cbn; [by rewrite length_insert|done|]. left. split_and!; [done|done|].
      intros t' q. destruct (decide (t = t')) as [<- | Hne]; [rewrite Hself; congruence|].
      rewrite list_lookup_insert_ne by done. apply Hno.
    + split; cbn; [by rewrite length_insert|done|]. right. split; [done|].
      exists t, (SetTask 0), me. split_and!; try done.
      intros t' q. destruct (decide (t = t')) as [<- | Hne]; [done|].
      rewrite list_lookup_insert_ne by done. intros Hq Hhq. rewrite (Hno _ _ Hq) in Hhq. done.
  - destruct (decide (t = t0)) as [<- | Hne].
    + assert (p0 = p) as -> by congruence. assert (me0 = me) as -> by congruence.
      destruct (step_holder me c p (shared s) p' lock') as (Hf' & [(Hv' & Hh' & Hok') | (Hv' & -> & Ho')]);
        try done; (split; cbn; [by rewrite length_insert|done|]).
      * right. split; [done|]. exists t, p', me. split_and!; try done.
        intros t' q. destruct (decide (t = t')) as [<- | Hne]; [done|].
        rewrite list_lookup_insert_ne by done. apply Huniq.
      * left. split_and!; [done..|]. intros t' q.
        destruct (decide (t = t')) as [<- | Hne]; [rewrite Hself; by intros [= <-]|].
        rewrite list_lookup_insert_ne by done. intros Hq. destruct (holds q) eqn:E; [|done].
        by destruct Hne; rewrite (Huniq _ _ Hq E).
    + assert (holds p = false) as Hnh.
      { destruct (holds p) eqn:E; [|done]. by destruct Hne; apply (Huniq _ _ Hp E). }
      destruct (step_other me c p (shared s) p' lock') as [Hnh' ->]; try done.
      { eapply (not_owner s t me t0 p0 me0); done. }
      split; cbn; [by rewrite length_insert|done|]. right. split; [done|].
      exists t0, p0, me0. rewrite list_lookup_insert_ne by done. split_and!; try done.
      intros t' q. destruct (decide (t = t')) as [<- | Hne']; [rewrite Hself; congruence|].
      rewrite list_lookup_insert_ne by done. apply Huniq.
Qed.

Lemma inv_rtc s s' : lock_inv s -> rtc (step false ids) s s' -> lock_inv s'.
Proof using Htasks Hnonzero. intros Hi. induction 1 as [|s s1 s' Hs _ IH]; [done|]. by eapply IH, inv_step. Qed.

(** ** Freedom from deadlock *)

(** Accesses a thread is away from giving the lock back if it goes on. *)
Definition exit_rank (p : pc) : nat :=
  match p with
  | Check _ => 6 | CheckCpu _ => 5 | CheckTask _ => 4 | SetTask _ => 5 | SetCpu _ => 4
  | Inside _ => 3 | ClearCpu _ => 2 | ClearValue _ => 1 | Spin _ | Out => 0
  end.

Lemma holder_progress me p lock p' lock' :
  lock_value lock = 1 -> for_future lock = false -> holds p = true -> owner_ok p me lock ->
  thread_step me (Release 0) p lock = (p', lock') -> p' = Out \/ (exit_rank p' < exit_rank p)%nat.
Proof using.
  intros Hv Hf Hp Hok. unfold thread_step. rewrite Hv, Hf.
  case_pc p; cbn in *; try discriminate; subst; cbn; try tauto;
    repeat (case_match; cbn); intros [= <- <-]; cbn; try (by left); try (right; lia); lia.
Qed.

(** Whoever has the lock can go on until the lock is free. *)
Lemma lock_gets_free s :
  lock_inv s -> exists s', rtc (step false ids) s s' /\ lock_value (shared s') = 0.
Proof using Htasks Hnonzero.
  intros Hinv. pose proof (li_state s Hinv) as [(Hv & _) | (Hv & t & p & me & Hp & Hme & Hh & Hok & _)].
  { by exists s. }
  remember (exit_rank p) as n eqn:Hn. revert s p Hinv Hv Hp Hh Hok Hn.
  induction (lt_wf n) as [n _ IH]. intros s p Hinv Hv Hp Hh Hok ->.
  destruct (thread_step me (Release 0) p (shared s)) as [p' lock'] eqn:Hts.
  pose proof (step_thread false ids s t me p (Release 0) p' lock' Hme Hp eq_refl Hts) as Hstep.
  pose proof (inv_step _ _ Hinv Hstep) as Hinv'.
  destruct (step_holder me (Release 0) p (shared s) p' lock' Hv (li_future s Hinv) Hh Hok eq_refl Hts)
    as (_ & [(Hv' & Hh' & Hok') | (Hv' & _)]); [|eexists; split; [by apply rtc_once|done]].
  destruct (holder_progress me p (shared s) p' lock') as [-> | Hlt]; try done; [apply Hinv|].
  destruct (IH _ Hlt (mk_machine (<[t := p']> (pcs s)) lock') p') as (s' & Hr & Hf); try done.
  { cbn. apply list_lookup_insert_eq. by eapply lookup_lt_Some. }
  exists s'. split; [by eapply rtc_l|done].
Qed.

(** Accesses a thread that finds the lock free is away from having it. *)
Definition entry_rank (p : pc) : nat :=
  match p with
  | Out => 7 | Check _ => 6 | CheckCpu _ => 5 | CheckTask _ => 4 | Spin _ => 3 | SetTask _ => 2 | SetCpu _ => 1
  | _ => 0
  end.

Definition gets_in (p : pc) (lock : lock_t) : Prop :=
  (lock_value lock = 0 /\ owner_task_id lock = 0 /\ holds p = false) \/ p = SetTask 0 \/ p = SetCpu 0.

Lemma entry_progress me p lock p' lock' :
  task_id me <> 0 -> for_future lock = false -> gets_in p lock -> thread_step me (Release 0) p lock = (p', lock') ->
  p' = Inside 0 \/ (gets_in p' lock' /\ (entry_rank p' < entry_rank p)%nat).
Proof using.
  intros Hz Hf [(Hv & Ho & Hh) | [-> | ->]]; unfold thread_step; cbn.
  - rewrite Hv, Ho, Hf. case_pc p; cbn in *; try discriminate; subst; cbn;
      repeat (case_match; cbn); intros [= <- <-]; cbn; try (by left);
      right; unfold gets_in; cbn; (split; [tauto|lia]).
  - intros [= <- <-]. right. unfold gets_in. cbn. split; [tauto|lia].
  - intros [= <- <-]. by left.
Qed.

Lemma thread_gets_in s t p me :
  lock_inv s -> pcs s !! t = Some p -> ids !! t = Some me -> gets_in p (shared s) ->
  exists s', rtc (step false ids) s s' /\ pcs s' !! t = Some (Inside 0).
Proof using Htasks Hnonzero.
  remember (entry_rank p) as n eqn:Hn. revert s p Hn.
  induction (lt_wf n) as [n _ IH]. intros s p -> Hinv Hp Hme He.
  assert (task_id me <> 0) as Hz by (apply Hnonzero; by eapply list_elem_of_lookup_2).
  destruct (thread_step me (Release 0) p (shared s)) as [p' lock'] eqn:Hts.
  pose proof (step_thread false ids s t me p (Release 0) p' lock' Hme Hp eq_refl Hts) as Hstep.
  assert (<[t := p']> (pcs s) !! t = Some p') as Hself by (apply list_lookup_insert_eq; by eapply lookup_lt_Some).
  destruct (entry_progress me p (shared s) p' lock' Hz (li_future s Hinv) He Hts) as [-> | [He' Hlt]].
  - eexists. split; [by apply rtc_once|exact Hself].
  - destruct (IH _ Hlt (mk_machine (<[t := p']> (pcs s)) lock') p') as (s' & Hr & Hi); try done.
    { by eapply inv_step. }
    exists s'. split; [by eapply rtc_l|done].
Qed.

(** A thread that has the lock is the only one with open sections. *)
Lemma open_sections_hold p : (0 < open_sections p)%nat -> holds p = true.
Proof using. case_pc p; cbn; lia. Qed.

(** C26.  Mutual exclusion: however the accesses of threads with different,
    nonzero task ids are interleaved, at most one thread has open sections, that
    is, is behind the return of a call of [lock_acquire] whose section has not
    ended, wherever it is in a nested call of [lock_acquire] or in the
    [lock_release]; and a thread that has the lock never waits for itself.  The
    condition on the threads is that they call [lock_release] only where all
    their nested sections end: [lock_release] does not count nested calls, and
    [nested_release_unlocks] shows that an inner release lets others in.  Locks
    are not disabled by a kernel panic. *)
Theorem lock_mutual_exclusion s :
  reachable false ids s ->
  (forall t1 t2 p1 p2, pcs s !! t1 = Some p1 -> pcs s !! t2 = Some p2 ->
     (0 < open_sections p1)%nat -> (0 < open_sections p2)%nat -> t1 = t2) /\
  (forall t d, pcs s !! t <> Some (Spin (S d))).
Proof using Htasks Hnonzero.
  intros Hr. pose proof (inv_rtc _ _ inv_initial Hr) as [_ _ Hst].
  destruct Hst as [(_ & _ & Hno) | (_ & t & p & me & Hp & _ & _ & Hok & Huniq)].
  - split; [intros t1 t2 p1 p2 H1 _ Ho%open_sections_hold; by rewrite (Hno _ _ H1) in Ho|].
    intros t d Ht. by discriminate (Hno _ _ Ht).
  - split.
    + intros t1 t2 p1 p2 H1 H2 Ho1%open_sections_hold Ho2%open_sections_hold.
      by rewrite (Huniq _ _ H1 Ho1), (Huniq _ _ H2 Ho2).
    + intros t1 d H1. assert (t1 = t) as -> by (by eapply Huniq). rewrite Hp in H1. by injection H1 as ->.
Qed.

(** C27.  No deadlock: from every state that threads with different,
    nonzero task ids can get into, every thread can still get the lock.  The
    condition on nested sections is that of mutual exclusion. *)
Theorem lock_deadlock_free s t :
  reachable false ids s -> (t < length ids)%nat ->
  exists s', rtc (step false ids) s s' /\ pcs s' !! t = Some (Inside 0).
Proof using Htasks Hnonzero.
  intros Hr Ht. pose proof (inv_rtc _ _ inv_initial Hr) as Hinv.
  destruct (lock_gets_free s Hinv) as (s1 & Hr1 & Hv1). pose proof (inv_rtc _ _ Hinv Hr1) as Hinv1.
  destruct (lookup_lt_is_Some_2 ids t Ht) as [me Hme].
  destruct (lookup_lt_is_Some_2 (pcs s1) t) as [p Hp]; [rewrite (li_length _ Hinv1); lia|].
  destruct (thread_gets_in s1 t p me Hinv1 Hp Hme) as (s2 & Hr2 & Hi).
  { left. destruct (li_state _ Hinv1) as [(_ & Ho & Hno) | (Hv & _)]; [|lia]. split_and!; [done..|by eapply Hno]. }
  exists s2. split; [by etrans|done].
Qed.
End Machine.

(** ** Executable schedules *)

Fixpoint run_schedule (ids : list caller) (sched : list (nat * action)) (s : machine) : machine :=
  match sched with
  | [] => s
  | (t, c) :: sched =>
    match ids !! t, pcs s !! t with
    | Some me, Some p =>
      let '(p', lock') := thread_step me c p (shared s) in
      run_schedule ids sched (mk_machine (<[t := p']> (pcs s)) lock')
    | _, _ => run_schedule ids sched s
    end
  end.

Lemma run_schedule_rtc inner ids sched s :
  Forall (fun x => allowed inner x.2 = true) sched -> rtc (step inner ids) s (run_schedule ids sched s).
Proof.
  intros Ha. revert s. induction Ha as [|[t c] sched Hc _ IH]; intros s; cbn; [done|].
  destruct (ids !! t) as [me|] eqn:Hme; [|done]. destruct (pcs s !! t) as [p|] eqn:Hp; [|done].
  destruct (thread_step me c p (shared s)) as [p' lock'] eqn:Hts.
  eapply rtc_l; [by econstructor|apply IH].
Qed.

Definition run_alone (ids : list caller) (t n : nat) (s : machine) : machine :=
  run_schedule ids (replicate n (t, Again)) s.
#[local] Arguments run_alone : simpl never.

(** A call of [lock_acquire] that returns is a run of the machine: a thread
    that goes on alone ends inside with the lock as the call leaves it. *)
Lemma acquire_alone ids s t me lock' :
  ids !! t = Some me -> pcs s !! t = Some Out -> for_future (shared s) = false ->
  lock_acquire false (Some (shared s)) me = Some (Some lock') ->
  exists n, run_alone ids t n s = mk_machine (<[t := Inside 0]> (pcs s)) lock'.
Proof.
  intros Hme Hp Hf Ha. destruct s as [ps [v o c f]]. cbn in Hf, Hp, Ha. subst f.
  assert (t < length ps)%nat as Ht by (by eapply lookup_lt_Some).
  assert (forall n p l, run_alone ids t (S n) (mk_machine (<[t := p]> ps) l) =
    let '(p', l') := thread_step me Again p l in run_alone ids t n (mk_machine (<[t := p']> ps) l')) as Hrun.
  { intros n p l. unfold run_alone. cbn [replicate run_schedule pcs shared]. rewrite Hme, list_lookup_insert_eq by done.
    destruct (thread_step me Again p l). by rewrite list_insert_insert_eq. }
  assert (mk_machine ps (mk_lock v o c false) = mk_machine (<[t := Out]> ps) (mk_lock v o c false)) as ->
    by (f_equal; by rewrite list_insert_id).
  destruct (v =? 0) eqn:Ev; cbn in Ha.
  { assert (v = 0) as -> by lia. injection Ha as <-. exists 5%nat. do 5 (rewrite Hrun; cbn). by rewrite list_insert_insert_eq. }
  destruct (c =? cpu_id me) eqn:Ec; [destruct (o =? task_id me) eqn:Eo|]; cbn in Ha.
  - injection Ha as <-. exists 4%nat. do 4 (rewrite Hrun; cbn; rewrite ?Ev, ?Ec, ?Eo; cbn). by rewrite list_insert_insert_eq.
  - destruct (Z.odd v) eqn:Eb; [done|]. injection Ha as <-. exists 7%nat.
    do 7 (rewrite Hrun; cbn; rewrite ?Ev, ?Ec, ?Eo, ?Eb; cbn). by rewrite list_insert_insert_eq.
  - destruct (Z.odd v) eqn:Eb; [done|]. injection Ha as <-. exists 6%nat.
    do 6 (rewrite Hrun; cbn; rewrite ?Ev, ?Ec, ?Eb; cbn). by rewrite list_insert_insert_eq.
Qed.

(** ** Concrete threads *)

Module SyncDemo.
Definition ids : list caller := [mk_caller 1 11; mk_caller 2 12].

(** Thread 0 gets in while thread 1 is in its reentrancy test, and calls
    [lock_acquire] again; thread 1 spins. *)
Definition sched : list (nat * action) :=
  (fun t => (t, Again)) <$> [1; 0; 0; 0; 1; 0; 0; 1; 1; 0; 0; 1]%nat.

Definition final : machine := run_schedule ids sched (initial 2).

Lemma ids_tasks : NoDup (task_id <$> ids).
Proof. apply (bool_decide_unpack _). vm_compute. done. Qed.

Lemma ids_nonzero me : me ∈ ids -> task_id me <> 0.
Proof. intros [-> | [-> | []%elem_of_nil]%elem_of_cons]%elem_of_cons; done. Qed.

Lemma final_reachable : reachable false ids final.
Proof. apply run_schedule_rtc. repeat constructor. Qed.
End SyncDemo.

Lemma lock_mutual_exclusion_witness :
  pcs SyncDemo.final = [CheckCpu 1; Spin 0] /\
  forall t p, pcs SyncDemo.final !! t = Some p -> (0 < open_sections p)%nat -> t = 0%nat.
Proof.
  split; [vm_compute; reflexivity|]. intros t p Ht Hp.
  destruct (lock_mutual_exclusion SyncDemo.ids SyncDemo.ids_tasks SyncDemo.ids_nonzero SyncDemo.final
    SyncDemo.final_reachable) as [Huniq _].
  apply (Huniq t 0%nat p (CheckCpu 1) Ht); [vm_compute; reflexivity|done|cbn; lia].
Defined.

Lemma lock_deadlock_free_witness :
  pcs SyncDemo.final !! 1%nat = Some (Spin 0) /\
  exists s', rtc (step false SyncDemo.ids) SyncDemo.final s' /\ pcs s' !! 1%nat = Some (Inside 0).
Proof.
  split; [vm_compute; reflexivity|].
  apply (lock_deadlock_free SyncDemo.ids SyncDemo.ids_tasks SyncDemo.ids_nonzero SyncDemo.final 1%nat
    SyncDemo.final_reachable). cbn. lia.
Defined.

(** ** Behaviours that break the exclusion *)

(** [lock_release] does not count nested calls: when a thread may release an
    inner section while its outer one goes on, two threads can be inside at the
    same time, both with an open section.  The frame allocator nests in this way
    in [fa_reserve_system_frames]. *)
Theorem nested_release_unlocks : exists s, reachable true SyncDemo.ids s /\ pcs s = [Inside 0; Inside 0].
Proof.
  exists (run_schedule SyncDemo.ids
    (((fun t => (t, Again)) <$> replicate 9 0%nat) ++ ((fun t => (t, Release 1)) <$> replicate 3 0%nat) ++
     ((fun t => (t, Again)) <$> replicate 5 1%nat)) (initial 2)).
  split; [apply run_schedule_rtc; repeat constructor|vm_compute; reflexivity].
Qed.
