(* ===== verification/SemaphoreProps.v ===== *)
(** * Theorems on semaphores

    Threads are in calls on one semaphore and interleave at every access.  A
    step of this machine is a step of the machine of locks or leaves the lock
    alone, so that mutual exclusion carries over, and the count changes only
    under the lock. *)

From S2P Require Import Prelude Sync SyncProps.

(** Slots that a call has taken and not handed to its caller yet, or that the
    caller has passed to it and that it has not given back yet. *)
Definition in_flight (call : sem_call) : Z :=
  match call with
  | AcquireTaken n | ReleaseTest n | ReleaseAdd n | ReleaseStore n _ | ReleaseRefused n => n
  | _ => 0
  end.

Definition weight (th : sem_thread) : Z := th_held th + in_flight (th_call th).

(** The slots in the hands of threads. *)
Definition slots (ths : list sem_thread) : Z := foldr (fun th z => weight th + z) 0 ths.

Lemma slots_insert ths t th th' :
  ths !! t = Some th -> slots (<[t := th']> ths) = slots ths - weight th + weight th'.
Proof.
  revert t. induction ths as [|x ths IH]; intros [|t] Ht; try done.
  - injection Ht as ->. unfold slots. cbn. lia.
  - specialize (IH t Ht). change (weight x + slots (<[t := th']> ths) = weight x + slots ths - weight th + weight th'). lia.
Qed.

Lemma slots_nonneg ths : Forall (fun th => 0 <= weight th) ths -> 0 <= slots ths.
Proof. induction 1 as [|th ths Hth _ IH]; [done|]. change (0 <= weight th + slots ths). lia. Qed.

Lemma slots_lookup ths t th : Forall (fun th => 0 <= weight th) ths -> ths !! t = Some th -> weight th <= slots ths.
Proof.
  intros Hf. revert t. induction Hf as [|x ths Hx Hf IH]; intros [|t] Ht; try done.
  - injection Ht as ->. pose proof (slots_nonneg _ Hf). change (weight th <= weight th + slots ths). lia.
  - specialize (IH t Ht). change (weight th <= weight x + slots ths). lia.
Qed.

Definition is_inside (p : pc) : Prop := exists d, p = Inside d.

(** What is known of a thread at each place when [cur] slots are free. *)
Definition thread_ok (count cur : Z) (th : sem_thread) : Prop :=
  0 <= th_held th /\
  match th_call th with
  | Rest _ | ReleaseGiven _ => True
  | AcquireFirst n | AcquireTaken n => 0 <= n
  | AcquireLoop n | AcquireRetry n => 0 <= n <= count
  | AcquireRefused n => count < n
  | AcquireSub n => 0 <= n <= cur /\ is_inside (th_pc th)
  | AcquireStore n v => 0 <= n <= v /\ v = cur /\ is_inside (th_pc th)
  | ReleaseTest n => 0 <= n
  | ReleaseAdd n => 0 <= n /\ is_inside (th_pc th)
  | ReleaseStore n v => 0 <= n /\ v = cur /\ is_inside (th_pc th)
  | ReleaseRefused _ => False
  end.

Lemma thread_ok_weight count cur th : thread_ok count cur th -> 0 <= weight th.
Proof. destruct th as [p [] h]; unfold weight, thread_ok; cbn; intuition lia. Qed.

(** Only a thread that is inside knows the count. *)
Lemma thread_ok_other count cur cur' th :
  thread_ok count cur th -> ~ is_inside (th_pc th) -> thread_ok count cur' th.
Proof. destruct th as [p [] h]; unfold thread_ok; cbn; tauto. Qed.

(** ** One access *)

(** On the lock it is an access of [thread_step] or none. *)
Lemma access_lock me r th sem th' sem' lock :
  sem_lock sem = Some lock -> sem_access me r th sem = (th', sem') ->
  exists lock', sem_lock sem' = Some lock' /\ initial_count sem' = initial_count sem /\
    ((th_pc th' = th_pc th /\ lock' = lock) \/
     exists c, allowed false c = true /\ thread_step me c (th_pc th) lock = (th_pc th', lock')).
Proof.
  intros Hl Hs.
  assert (forall c call, allowed false c = true -> via_lock me c call th sem = (th', sem') ->
    exists lock', sem_lock sem' = Some lock' /\ initial_count sem' = initial_count sem /\
    ((th_pc th' = th_pc th /\ lock' = lock) \/
     exists c, allowed false c = true /\ thread_step me c (th_pc th) lock = (th_pc th', lock'))) as Hvia.
  { intros c call Hc. unfold via_lock, lock_access. rewrite Hl. destruct (thread_step me c (th_pc th) lock) as [p' l'] eqn:E.
    intros [= <- <-]. exists l'. split_and!; [done..|]. right. by exists c. }
  assert (forall test, entering me th sem test = (th', sem') -> test = (th', sem') \/ via_lock me Again (th_call th) th sem = (th', sem')) as Hent
    by (unfold entering; intros test; case_match; auto).
  assert (forall call held, leaving me th sem call held = (th', sem') ->
    (th' = mk_thread (th_pc th) call held /\ sem' = sem) \/ via_lock me (Release 0) (th_call th) th sem = (th', sem')) as Hlv.
  { unfold leaving. intros call held. case_match; auto. intros [= <- <-]. by left. }
  unfold sem_access in Hs. destruct (th_call th) eqn:Ec; try rewrite Ec in Hent; try rewrite Ec in Hlv;
    try (apply Hent in Hs as [Hs|Hs]; [|by eapply (Hvia Again)]);
    try (apply Hlv in Hs as [[-> ->]|Hs]; [by exists lock; split_and!; [..|left]|by eapply (Hvia (Release 0))]);
    try (case_match; [|]); try (by eapply (Hvia Again));
    injection Hs as <- <-; exists lock; split_and!; try done; left; try done; cbn; by case_match.
Qed.

(** It keeps the free slots and those of the thread together, and it changes
    their number only inside. *)
Lemma access_count me r th sem th' sem' count :
  sem_access me r th sem = (th', sem') -> request_ok r (th_held th) -> initial_count sem = count ->
  thread_ok count (current_count sem) th -> 0 <= current_count sem -> current_count sem + weight th <= count -> count < 2 ^ 64 ->
  thread_ok count (current_count sem') th' /\ current_count sem' + weight th' = current_count sem + weight th /\
  0 <= current_count sem' /\ (current_count sem' = current_count sem \/ is_inside (th_pc th)).
Proof.
  intros Hs Hr Hi Hok Hc Hw Hmax.
  assert (forall c call, via_lock me c call th sem = (th', sem') -> exists p, th' = mk_thread p call (th_held th) /\ current_count sem' = current_count sem) as Hvia.
  { intros c call. unfold via_lock. destruct (lock_access _ _ _ _) as [p' l']. intros [= <- <-]. by exists p'. }
  destruct th as [p call h], sem as [l i cur]. unfold sem_access, entering, leaving, weight, goes_to, semaphore_call, thread_ok, set_count in *.
  cbn [th_pc th_call th_held sem_lock initial_count current_count] in *. subst i.
  destruct call; cbn [in_flight] in *;
    repeat match type of Hs with context [match ?x with _ => _ end] => destruct x eqn:? end;
    try (apply Hvia in Hs as (p' & -> & ->)); try (injection Hs as <- <-);
    cbn [th_pc th_call th_held sem_lock initial_count current_count in_flight request_ok] in *; unfold is_inside, u64 in *;
    rewrite ?Z.mod_small in * by lia; repeat match goal with H : _ /\ _ |- _ => destruct H end; subst; try tauto;
    split_and!; eauto; lia.
Qed.

(** ** All threads *)

Section Semaphore.
Context (ids : list caller).
Context (Htasks : NoDup (task_id <$> ids)) (Hnonzero : forall me, me ∈ ids -> task_id me <> 0).
Context (count : Z) (Hcount : 0 <= count < 2 ^ 64).

Record sem_inv (s : sem_machine) : Prop := {
  si_lock : exists lock, sem_lock (semaphore s) = Some lock /\ lock_inv ids (mk_machine (th_pc <$> threads s) lock);
  si_initial : initial_count (semaphore s) = count;
  si_current : 0 <= current_count (semaphore s);
  si_threads : Forall (thread_ok count (current_count (semaphore s))) (threads s);
  si_sum : current_count (semaphore s) + slots (threads s) = count;
}.

Lemma inside_unique m t1 t2 p1 p2 :
  lock_inv ids m -> pcs m !! t1 = Some p1 -> pcs m !! t2 = Some p2 -> is_inside p1 -> is_inside p2 -> t1 = t2.
Proof using.
  intros [_ _ [(_ & _ & Hno) | (_ & t & _ & _ & _ & _ & _ & _ & Hu)]] H1 H2 [d1 ->] [d2 ->].
  - by discriminate (Hno _ _ H1).
  - by rewrite (Hu _ _ H1 eq_refl), (Hu _ _ H2 eq_refl).
Qed.

Lemma weights_nonneg s : sem_inv s -> Forall (fun th => 0 <= weight th) (threads s).
Proof using. intros Hi. eapply Forall_impl; [apply (si_threads _ Hi)|]. intros th. apply thread_ok_weight. Qed.

Lemma sem_inv_step s s' : sem_inv s -> sem_step ids s s' -> sem_inv s'.
Proof using Htasks Hnonzero Hcount.
  intros Hinv [t me th r th' sem' Hme Ht Hr Ha]. pose proof (weights_nonneg _ Hinv) as Hw.
  destruct Hinv as [(lock & Hl & Hlk) Hi Hc Hths Hsum]. pose proof (proj1 (Forall_lookup _ _) Hths _ _ Ht) as Hth.
  destruct (access_lock _ _ _ _ _ _ _ Hl Ha) as (lock' & Hl' & Hi' & Hcase). pose proof (slots_lookup _ _ _ Hw Ht) as Hle.
  destruct (access_count _ _ _ _ _ _ count Ha Hr Hi Hth Hc ltac:(lia) ltac:(lia)) as (Hth' & Hsum' & Hc' & Hin).
  assert (pcs (mk_machine (th_pc <$> threads s) lock) !! t = Some (th_pc th)) as Hpc by (cbn; by rewrite list_lookup_fmap, Ht).
  split; cbn [threads semaphore]; [|congruence|done| |rewrite (slots_insert _ _ th) by done; lia].
  - exists lock'. split; [done|]. rewrite list_fmap_insert. destruct Hcase as [[-> ->] | (c & Hc1 & Hts)].
    + rewrite list_insert_id; [done|]. by rewrite list_lookup_fmap, Ht.
    + eapply inv_step; [exact Htasks|exact Hnonzero|exact Hlk|]. exact (step_thread false ids (mk_machine (th_pc <$> threads s) lock) t me _ c _ _ Hme Hpc Hc1 Hts).
  - apply Forall_lookup. intros t2 th2. destruct (decide (t = t2)) as [<- | Hne].
    + rewrite list_lookup_insert_eq by (by eapply lookup_lt_Some). by intros [= <-].
    + rewrite list_lookup_insert_ne by done. intros H2. pose proof (proj1 (Forall_lookup _ _) Hths _ _ H2) as Hok2.
      destruct Hin as [-> | Hin]; [done|]. eapply thread_ok_other; [done|]. intros Hin2. apply Hne.
      eapply inside_unique; [exact Hlk|exact Hpc|cbn; by rewrite list_lookup_fmap, H2|done|done].
Qed.

Lemma sem_inv_initial sem :
  semaphore_create_with_heap true true count = Some sem -> sem_inv (sem_initial (length ids) sem).
Proof using Hcount.
  intros [= <-]. split; cbn [threads semaphore sem_initial sem_lock initial_count current_count]; [|done|lia| |].
  - exists (mk_lock 0 0 0 false). split; [done|]. rewrite fmap_replicate. apply inv_initial.
  - apply Forall_replicate. split; [cbn; lia|done].
  - assert (slots (replicate (length ids) (mk_thread Out (Rest 0) 0)) = 0) as ->; [|lia].
    clear. induction (length ids) as [|n IH]; [done|]. cbn [replicate]. change (weight (mk_thread Out (Rest 0) 0) + slots (replicate n (mk_thread Out (Rest 0) 0)) = 0). by rewrite IH.
Qed.

Lemma sem_inv_rtc s s' : sem_inv s -> rtc (sem_step ids) s s' -> sem_inv s'.
Proof using Htasks Hnonzero Hcount. intros Hi. induction 1 as [|s s1 s' Hs _ IH]; [done|]. by eapply IH, sem_inv_step. Qed.

(** ** A thread that goes on alone *)

(** The first access with a request, then [k] more. *)
Definition go_on (me : caller) (k : nat) (x : sem_thread * semaphore_t) : sem_thread * semaphore_t :=
  Nat.iter k (fun x => sem_access me (AcquireCount 0) x.1 x.2) x.

#[local] Arguments go_on : simpl never.

Lemma go_on_S me k x : go_on me (S k) x = go_on me k (sem_access me (AcquireCount 0) x.1 x.2).
Proof using. unfold go_on. by rewrite Nat.iter_succ_r. Qed.

Lemma go_on_rtc t me k ths sem th th' sem' :
  ids !! t = Some me -> ths !! t = Some th -> go_on me k (th, sem) = (th', sem') ->
  rtc (sem_step ids) (mk_sem_machine ths sem) (mk_sem_machine (<[t := th']> ths) sem').
Proof using.
  intros Hme. revert ths sem th. induction k as [|k IH]; intros ths sem th Ht E.
  - injection E as -> ->. by rewrite list_insert_id.
  - rewrite go_on_S in E. cbn [fst snd] in E. destruct (sem_access me (AcquireCount 0) th sem) as [th1 sem1] eqn:E1.
    eapply rtc_l; [apply (sem_step_thread ids _ t me th (AcquireCount 0) th1 sem1); done|].
    specialize (IH (<[t := th1]> ths) sem1 th1). rewrite list_insert_insert_eq in IH. apply IH; [|done].
    apply list_lookup_insert_eq. by eapply lookup_lt_Some.
Qed.

(** How the calls of a lone thread end while the lock is free: what the thread
    and the count become. *)
Definition call_outcome (r : request) (held cur : Z) : sem_thread * Z :=
  match r with
  | AcquireCount n =>
    if count <? n then (mk_thread Out (Rest (-1)) held, cur)
    else if n <=? cur then (mk_thread Out (Rest 0) (held + n), cur - n)
    else (mk_thread Out (AcquireLoop n) held, cur)
  | ReleaseCount n => (mk_thread Out (Rest 0) (held - n), cur + n)
  end.

(** One access by computation; conditions are given as equations. *)
Ltac go tac := rewrite go_on_S; cbn -[u64]; unfold via_lock, set_lock, set_count, goes_to; cbn -[u64]; change (Z.lor 0 1) with 1; cbn -[u64]; tac; unfold via_lock, set_lock, set_count, goes_to; cbn -[u64].

Lemma call_alone me r ret held cur cpu :
  request_ok r held -> 0 <= cur -> 0 <= held -> cur + held <= count ->
  exists k sem', go_on me k (semaphore_call (Some (mk_semaphore (Some (mk_lock 0 0 cpu false)) count cur)) r (mk_thread Out (Rest ret) held),
      mk_semaphore (Some (mk_lock 0 0 cpu false)) count cur) = ((call_outcome r held cur).1, sem') /\
    sem' = mk_semaphore (Some (mk_lock 0 0 0 false)) count (call_outcome r held cur).2.
Proof using Hcount.
  intros Hr Hc Hh Hs. unfold call_outcome. destruct r as [n|n]; cbn [semaphore_call request_ok th_pc th_held] in *.
  - destruct (count <? n) eqn:E1; [|destruct (n <=? cur) eqn:E2]; cbn [fst snd].
    + exists 10%nat. eexists. split; [|reflexivity]. do 10 go ltac:(rewrite ?E1). reflexivity.
    + exists 16%nat. eexists. split; [|reflexivity]. assert (u64 (cur - n) = cur - n) as E3 by (unfold u64; apply Z.mod_small; lia).
      do 16 go ltac:(rewrite ?E1, ?E2, ?Z.eqb_refl). by rewrite E3.
    + exists 14%nat. eexists. split; [|reflexivity]. do 14 go ltac:(rewrite ?E1, ?E2, ?Z.eqb_refl). reflexivity.
  - assert (u64 (cur + n) = cur + n) as E3 by (unfold u64; apply Z.mod_small; lia).
    assert ((count <? u64 (cur + n)) = false) as E by (rewrite E3; lia).
    exists 12%nat. eexists. split; [|reflexivity]. do 12 go ltac:(rewrite ?E). by rewrite E3.
Qed.

(** The slots in the hands of a thread are part of the count. *)
Lemma held_le s t th : sem_inv s -> threads s !! t = Some th -> 0 <= th_held th /\ current_count (semaphore s) + weight th <= count.
Proof using.
  intros Hi Ht. pose proof (slots_lookup _ _ _ (weights_nonneg _ Hi) Ht). pose proof (si_sum _ Hi).
  split; [apply (proj1 (Forall_lookup _ _) (si_threads _ Hi) _ _ Ht)|lia].
Qed.

(** C28.  Threads with different, nonzero task ids call
    [semaphore_acquire_with_count] with any number of slots and
    [semaphore_release_with_count] with at most the slots they hold, on a
    semaphore that was created with [count] slots (and whose lock could be
    allocated), interleaved at every access.  Then in every state the free slots
    and those in the hands of threads add up to [count] and neither is negative;
    an acquire is refused only if it asks for more than [count] slots, and no
    release is refused.  Moreover a call that a thread makes while the lock is
    free ends when this thread goes on alone: an acquire returns -1 for more than
    [count] slots, takes its slots and returns 0 if so many are free, and is
    before its next attempt otherwise; a release gives its slots back and
    returns 0. *)
Theorem semaphore_conservation sem0 s :
  semaphore_create_with_heap true true count = Some sem0 -> rtc (sem_step ids) (sem_initial (length ids) sem0) s ->
  (current_count (semaphore s) + slots (threads s) = count /\ 0 <= current_count (semaphore s) /\
   Forall (fun th => 0 <= weight th) (threads s)) /\
  (forall t th n, threads s !! t = Some th -> th_call th <> ReleaseRefused n /\ (th_call th = AcquireRefused n -> count < n)) /\
  (forall t me ret held r lock, ids !! t = Some me -> threads s !! t = Some (mk_thread Out (Rest ret) held) -> request_ok r held ->
     sem_lock (semaphore s) = Some lock -> lock_value lock = 0 ->
     rtc (sem_step ids) s
       (let '(th, cur) := call_outcome r held (current_count (semaphore s)) in
        mk_sem_machine (<[t := th]> (threads s)) (mk_semaphore (Some (mk_lock 0 0 0 false)) count cur))).
Proof using Htasks Hnonzero Hcount.
  intros H0 Hr. assert (sem_inv s) as Hi by (eapply sem_inv_rtc, Hr; by apply sem_inv_initial).
  split; [split_and!; [apply Hi|apply Hi|by apply weights_nonneg]|]. split.
  - intros t th n Ht. destruct (proj1 (Forall_lookup _ _) (si_threads _ Hi) _ _ Ht) as [_ Hok]. split; intros E; by rewrite E in Hok.
  - intros t me ret held r lock Hme Ht Hq Hl Hv. destruct (held_le s t _ Hi Ht) as [Hh Hle]. unfold weight in Hle. cbn in Hh, Hle.
    destruct (si_lock _ Hi) as (lock' & Hl' & [_ Hf Hst]). rewrite Hl in Hl'. injection Hl' as <-. cbn in Hf, Hst.
    destruct Hst as [(_ & Ho & _) | (Hv1 & _)]; [|lia]. pose proof (si_initial _ Hi) as Hini. pose proof (si_current _ Hi).
    destruct s as [ths [l i cur]], lock as [v o cpu f]. cbn in *. subst.
    destruct (call_alone me r ret held cur cpu) as (k & sem' & E & ->); [done..|lia|].
    destruct (call_outcome r held cur) as [th' cur'] eqn:Eo. cbn [fst snd] in E.
    eapply rtc_l; [eapply (sem_step_thread ids (mk_sem_machine ths _) t me _ r _ _ Hme Ht Hq); reflexivity|].
    pose proof (go_on_rtc t me k (<[t := semaphore_call (Some (mk_semaphore (Some (mk_lock 0 0 cpu false)) count cur)) r (mk_thread Out (Rest ret) held)]> ths) _ _ _ _ Hme
      (list_lookup_insert_eq _ _ _ (lookup_lt_Some _ _ _ Ht)) E) as Hgo. by rewrite list_insert_insert_eq in Hgo.
Qed.
End Semaphore.

(** ** Concrete runs *)

Module SemaphoreDemo.
Fixpoint run (ids : list caller) (sched : list (nat * request)) (s : sem_machine) : sem_machine :=
  match sched with
  | [] => s
  | (t, r) :: sched =>
    match ids !! t, threads s !! t with
    | Some me, Some th =>
      let '(th', sem') := sem_access me r th (semaphore s) in
      run ids sched (mk_sem_machine (<[t := th']> (threads s)) sem')
    | _, _ => run ids sched s
    end
  end.

Definition start (lock_ok : bool) (count : Z) : sem_machine :=
  sem_initial 2 (mk_semaphore (lock_create_with_heap_for_future lock_ok false 0) count count).
End SemaphoreDemo.

Lemma semaphore_conservation_witness :
  exists s, rtc (sem_step SyncDemo.ids) (SemaphoreDemo.start true 3) s /\
    threads s = [mk_thread Out (Rest 0) 2; mk_thread Out (AcquireLoop 2) 0] /\ current_count (semaphore s) = 1.
Proof.
  pose proof (semaphore_conservation SyncDemo.ids SyncDemo.ids_tasks SyncDemo.ids_nonzero 3 ltac:(lia)
    (mk_semaphore (Some (mk_lock 0 0 0 false)) 3 3)) as H.
  destruct (H _ eq_refl (rtc_refl _ _)) as (_ & _ & H1).
  specialize (H1 0%nat (mk_caller 1 11) 0 0 (AcquireCount 2) (mk_lock 0 0 0 false) eq_refl eq_refl ltac:(cbn; lia) eq_refl eq_refl).
  destruct (H _ eq_refl H1) as (_ & _ & H2).
  specialize (H2 1%nat (mk_caller 2 12) 0 0 (AcquireCount 2) (mk_lock 0 0 0 false) eq_refl eq_refl ltac:(cbn; lia) eq_refl eq_refl).
  eexists. split; [etrans; [exact H1|exact H2]|]. split; reflexivity.
Defined.

(** When the lock of a semaphore could not be allocated, which
    [semaphore_create_with_heap] does not check, the calls run unprotected: two
    threads take a slot each of two, and one is still counted as free. *)
Theorem semaphore_without_lock :
  let s := SemaphoreDemo.run SyncDemo.ids
    ((fun t => (t, AcquireCount 1)) <$> [0; 0; 0; 0; 0; 1; 1; 1; 1; 1; 0; 1; 0; 1; 0; 1]%nat) (SemaphoreDemo.start false 2) in
  (th_call <$> threads s) = [Rest 0; Rest 0] /\ (th_held <$> threads s) = [1; 1] /\ current_count (semaphore s) = 1.
Proof. vm_compute. auto. Qed.

(** The check of [semaphore_release_with_count] wraps: releasing [2 ^ 64 - 1]
    slots takes one away. *)
Lemma semaphore_release_wraps :
  let s := SemaphoreDemo.run SyncDemo.ids (replicate 13 (0%nat, ReleaseCount (2 ^ 64 - 1))) (SemaphoreDemo.start true 3) in
  head (threads s) = Some (mk_thread Out (Rest 0) (1 - 2 ^ 64)) /\ current_count (semaphore s) = 2.
Proof. vm_compute. auto. Qed.
