(* ===== verification/LinkedList.v ===== *)
(** * Doubly linked lists ([cc/lib/list_linked.64.c])

    The items of a list are records of a shared memory, linked by pointers; the
    list itself keeps its two ends and, for fast access, a pointer to the item
    in its middle with that item's position and the difference between the
    items behind and before it.  Every pointer of the code is a pointer here
    ([None] is [NULL]), and an access through a bad one ends in [Halted].

    Data are objects, never [NULL].  The lock of the list is left out, an
    operation is one step; [memory_malloc_ext] and the indexer of an indexed
    list are the parameters [ItemHeap] and [Indexer].  The checks for a [NULL]
    list are those of [cc/lib/list.64.c] and left out. *)

From S2P Require Import Prelude.

Inductive list_insert_delete_at_t :=
| LIST_INSERT_AT_HEAD
| LIST_INSERT_AT_TAIL
| LIST_INSERT_AT_POSITION
| LIST_INSERT_AT_SORTED
| LIST_INSERT_AT_INDEXED
| LIST_DELETE_AT_HEAD
| LIST_DELETE_AT_TAIL
| LIST_DELETE_AT_FINDBY
| LIST_DELETE_AT_POSITION.

#[export] Instance list_insert_delete_at_eq_dec : EqDecision list_insert_delete_at_t.
Proof. solve_decision. Defined.

Definition LIST_TYPE_LIST : Z := 1.
Definition LIST_TYPE_SORTEDLIST : Z := 2.
Definition LIST_TYPE_QUEUE : Z := 4.
Definition LIST_TYPE_STACK : Z := 8.
Definition LIST_TYPE_INDEXEDLIST : Z := 0x100.
Definition LIST_TYPE_LINKED : Z := 0x200.
Definition LIST_TYPE_ARRAY : Z := 0x400.

Abbreviation loc := positive.

Record list_item_t (D : Type) := mk_item {
  data : D;
  next : option loc;
  previous : option loc;
}.
Arguments mk_item {D}.
Arguments data {D}.
Arguments next {D}.
Arguments previous {D}.

Abbreviation items D := (gmap loc (list_item_t D)).

(** The memory an item gets from [memory_malloc_ext], [None] for [NULL]. *)
Class ItemHeap (D : Type) := { malloc_item : items D -> option loc }.

(** [indexer_t]: [indexer_index], the first result of an [indexer_search] for
    equality, and [indexer_delete], which the list calls with data and, in one
    place, with an item. *)
Class Indexer (D X : Type) := {
  indexer_index : X -> D -> loc -> X;
  indexer_search : X -> D -> option loc;
  indexer_delete : X -> D + loc -> X;
}.

Record list_t (D X : Type) := mk_list {
  type : Z;
  comparator : D -> D -> Z;
  equality_comparator : option (D -> D -> Z);
  item_count : Z;
  indexer : X;
  head : option loc;
  tail : option loc;
  middle : option loc;
  middle_position : Z;
  balance : Z;
}.
Arguments mk_list {D X}.
Arguments type {D X}.
Arguments comparator {D X}.
Arguments equality_comparator {D X}.
Arguments item_count {D X}.
Arguments indexer {D X}.
Arguments head {D X}.
Arguments tail {D X}.
Arguments middle {D X}.
Arguments middle_position {D X}.
Arguments balance {D X}.

(** A list and the memory its items live in. *)
Record list_state (D X : Type) := mk_state { this : list_t D X; mem : items D }.
Arguments mk_state {D X}.
Arguments this {D X}.
Arguments mem {D X}.

Section Operations.
Context {D X : Type} `{IH : ItemHeap D} `{IX : Indexer D X}.

Abbreviation list_t := (list_t D X).
Abbreviation state := (list_state D X).
Abbreviation M := (cmd (list_state D X)).

(** ** Fields and pointers *)

Definition set_item_count (n : Z) (l : list_t) : list_t :=
  mk_list (type l) (comparator l) (equality_comparator l) n (indexer l) (head l) (tail l) (middle l)
    (middle_position l) (balance l).
Definition set_indexer (x : X) (l : list_t) : list_t :=
  mk_list (type l) (comparator l) (equality_comparator l) (item_count l) x (head l) (tail l) (middle l)
    (middle_position l) (balance l).
Definition set_head (p : option loc) (l : list_t) : list_t :=
  mk_list (type l) (comparator l) (equality_comparator l) (item_count l) (indexer l) p (tail l) (middle l)
    (middle_position l) (balance l).
Definition set_tail (p : option loc) (l : list_t) : list_t :=
  mk_list (type l) (comparator l) (equality_comparator l) (item_count l) (indexer l) (head l) p (middle l)
    (middle_position l) (balance l).
Definition set_middle (p : option loc) (l : list_t) : list_t :=
  mk_list (type l) (comparator l) (equality_comparator l) (item_count l) (indexer l) (head l) (tail l) p
    (middle_position l) (balance l).
Definition set_middle_position (n : Z) (l : list_t) : list_t :=
  mk_list (type l) (comparator l) (equality_comparator l) (item_count l) (indexer l) (head l) (tail l) (middle l)
    n (balance l).
Definition set_balance (n : Z) (l : list_t) : list_t :=
  mk_list (type l) (comparator l) (equality_comparator l) (item_count l) (indexer l) (head l) (tail l) (middle l)
    (middle_position l) n.

(** [size_t] and [int8_t] steps of the counters. *)
Definition add_item_count (n : Z) (l : list_t) : list_t := set_item_count (u64 (item_count l + n)) l.
Definition add_middle_position (n : Z) (l : list_t) : list_t :=
  set_middle_position (u64 (middle_position l + n)) l.
Definition add_balance (n : Z) (l : list_t) : list_t := set_balance (i8 (balance l + n)) l.

Definition get_list : M list_t := fun s => Done (this s, s).
Definition update (f : list_t -> list_t) : M unit := fun s => Done (tt, mk_state (f (this s)) (mem s)).

Definition load (p : option loc) : M (list_item_t D) := fun s =>
  match p ≫= fun q => mem s !! q with
  | Some it => Done (it, s)
  | None => Halted
  end.

Definition store (p : option loc) (f : list_item_t D -> list_item_t D) : M unit := fun s =>
  match p with
  | Some q =>
    match mem s !! q with
    | Some _ => Done (tt, mk_state (this s) (alter f q (mem s)))
    | None => Halted
    end
  | None => Halted
  end.

Definition set_next (p v : option loc) : M unit := store p (fun it => mk_item (data it) v (previous it)).
Definition set_previous (p v : option loc) : M unit := store p (fun it => mk_item (data it) (next it) v).

Definition malloc (d : D) : M (option loc) := fun s =>
  match malloc_item (mem s) with
  | Some p => Done (Some p, mk_state (this s) (<[p := mk_item d None None]> (mem s)))
  | None => Done (None, s)
  end.

(** [memory_free_ext(list->heap, item)]. *)
Definition free_item (p : option loc) : M unit := fun s =>
  match p with
  | Some q => Done (tt, mk_state (this s) (delete q (mem s)))
  | None => Done (tt, s)
  end.

(** ** Creation and destruction *)

Definition linkedlist_create_with_type (ok : bool) (ty : Z) (cmp : option (D -> D -> Z))
    (default_cmp : D -> D -> Z) (ix : X) : option list_t :=
  if ok then Some (mk_list ty (default default_cmp cmp) None 0 ix None None None 0 0) else None.

(** Frees every item; the result is the data handed to the destroyer (or to
    [memory_free_ext]) in order, if they are to be destroyed. *)
Fixpoint destroy_loop (fuel : nat) (with_data : bool) (item : option loc) : M (list D) :=
  match fuel with
  | O => out_of_fuel
  | S fuel =>
    match item with
    | None => mret []
    | Some p =>
      it ← load item;
      free_item item;;
      rest ← destroy_loop fuel with_data (next it);
      mret (if with_data then data it :: rest else rest)
    end
  end.

Definition linkedlist_destroy_with_type (with_data : bool) : M (list D) := fun s =>
  destroy_loop (S (Z.to_nat (item_count (this s)))) with_data (head (this s)) s.

(** ** Search *)

(** The block that moves the middle after an item was added or removed. *)
Definition rebalance : M unit :=
  l ← get_list;
  if balance l =? -2 then
    it ← load (middle l);
    update (set_middle (previous it));;
    update (set_balance 0);;
    update (add_middle_position (-1))
  else if balance l =? 2 then
    it ← load (middle l);
    update (set_middle (next it));;
    update (set_balance 0);;
    update (add_middle_position 1)
  else mret tt.

(** [h] forward and [t] back by [n] items. *)
Fixpoint close_in (n : nat) (h t : option loc) : M (option loc * option loc) :=
  match n with
  | O => mret (h, t)
  | S n =>
    ih ← load h;
    it ← load t;
    close_in n (next ih) (previous it)
  end.

(** The first loop of [linkedlist_narrow]: the item [h], its position, and
    whether it is known to be equal to the data.  [h0] and [t0] are the ends of
    the range, kept in [*head] and [*tail]. *)
Fixpoint narrow_loop (fuel : nat) (cmp : D -> D -> Z) (d : D) (s t_pos : Z) (h0 t0 : option loc)
    : M (option loc * Z * bool) :=
  match fuel with
  | O => out_of_fuel
  | S fuel =>
    if decide (h0 = t0) then mret (h0, t_pos, false) else
    if s =? 0 then mret (h0, t_pos, false) else
    ih ← load h0;
    if cmp d (data ih) =? 0 then mret (h0, t_pos, true) else
    it ← load t0;
    if cmp d (data it) =? 0 then mret (t0, u64 (t_pos + s - 1), true) else
    if s =? 2 then mret (h0, t_pos, false) else
    if s =? 3 then
      if cmp d (data ih) =? 1 then mret (next ih, u64 (t_pos + 1), false) else mret (h0, t_pos, false)
    else
      let q_s := Z.shiftr s 2 in
      '(h, t) ← close_in (Z.to_nat q_s) h0 t0;
      ih ← load h;
      if cmp d (data ih) <=? 0 then narrow_loop fuel cmp d (u64 (q_s + 1)) t_pos h0 h else
      it ← load t;
      if 0 <=? cmp d (data it)
      then narrow_loop fuel cmp d (u64 (q_s + 1)) (u64 (t_pos + (s - (q_s + 1)))) t t0
      else narrow_loop fuel cmp d (u64 (s - 2 * q_s)) (u64 (t_pos + q_s)) h t
  end.

(** The walk to the first item equal to the data; the flag tells whether it
    stopped at an item that is not equal, where the function returns. *)
Fixpoint walk_left (fuel : nat) (cmp : D -> D -> Z) (d : D) (h : option loc) (t_pos : Z)
    : M (option loc * Z * bool) :=
  match fuel with
  | O => out_of_fuel
  | S fuel =>
    ih ← load h;
    match previous ih with
    | None => mret (h, t_pos, false)
    | Some _ =>
      ip ← load (previous ih);
      if cmp d (data ip) =? 0 then walk_left fuel cmp d (previous ih) (u64 (t_pos - 1))
      else mret (h, t_pos, true)
    end
  end.

(** The walk to the first item that is not smaller than the data; [None] for
    the position when it ends at the last item. *)
Fixpoint walk_right (fuel : nat) (cmp : D -> D -> Z) (d : D) (h : option loc) (t_pos c_res : Z)
    : M (option loc * option Z * Z) :=
  match fuel with
  | O => out_of_fuel
  | S fuel =>
    if c_res =? 1 then
      ih ← load h;
      match next ih with
      | None => mret (h, None, 1)
      | Some _ =>
        ix ← load (next ih);
        walk_right fuel cmp d (next ih) (u64 (t_pos + 1)) (cmp d (data ix))
      end
    else mret (h, Some t_pos, c_res)
  end.

(** [linkedlist_narrow]: the result, and what is left in [*head] and
    [*position]. *)
Definition linkedlist_narrow (s : Z) (d : D) (h t : option loc) (position : Z)
    : M (Z * option loc * Z) :=
  match h, t with
  | None, _ | _, None => mret (-1, h, position)
  | Some _, Some _ =>
    l ← get_list;
    let cmp := comparator l in
    let fuel := S (Z.to_nat (item_count l)) in
    if decide (h = t) then
      ih ← load h;
      mret (cmp d (data ih), h, position)
    else
      '(h, t_pos, found) ← narrow_loop (S (Z.to_nat s)) cmp d s position h t;
      '(h, t_pos, stopped) ← (if found : bool then walk_left fuel cmp d h t_pos else mret (h, t_pos, false));
      if stopped : bool then mret (0, h, t_pos) else
      ih ← load h;
      let c_res := cmp d (data ih) in
      if c_res =? -1 then mret (-1, h, t_pos) else
      '(h, t_pos, stopped) ← (if c_res =? 0 then walk_left fuel cmp d h t_pos else mret (h, t_pos, false));
      if stopped : bool then mret (0, h, t_pos) else
      '(h, pos, c_res) ← walk_right fuel cmp d h t_pos c_res;
      mret (c_res, h, default position pos)
  end.

(** ** Insertion *)

Definition insert_first (item : loc) : M Z :=
  update (set_head (Some item));;
  update (set_tail (Some item));;
  update (set_middle (Some item));;
  update (set_balance 0);;
  update (add_item_count 1);;
  mret 0.

Definition insert_head (item : loc) : M Z :=
  l ← get_list;
  set_next (Some item) (head l);;
  set_previous (head l) (Some item);;
  update (set_head (Some item));;
  update (add_balance (-1));;
  update (add_middle_position 1);;
  rebalance;;
  mret 0.

Definition insert_tail (item : loc) : M Z :=
  l ← get_list;
  set_previous (Some item) (tail l);;
  set_next (tail l) (Some item);;
  update (set_tail (Some item));;
  update (add_balance 1);;
  rebalance;;
  mret (item_count l).

(** The search: the result of [linkedlist_narrow], [cur], the position, and
    whether it is before the middle. *)
Definition sorted_position (l : list_t) (d : D) : M (Z * option loc * Z * bool) :=
  im ← load (middle l);
  if comparator l d (data im) <=? 0 then
    '(c_res, h, result) ← linkedlist_narrow (u64 (middle_position l + 1)) d (head l) (middle l) 0;
    mret (c_res, h, result, true)
  else
    '(c_res, cur, result) ← linkedlist_narrow (u64 (item_count l - middle_position l)) d (middle l) (tail l)
      (middle_position l);
    mret (c_res, cur, result, false).

Definition insert_sorted (item : loc) (d : D) : M Z :=
  l ← get_list;
  '(c_res, cur, result, before_middle) ← sorted_position l d;
  ic ← load cur;
  let insert_at_end := (c_res =? 1) && bool_decide (next ic = None) in
  result ←
    (if insert_at_end then
       let cur := tail l in
       update (set_tail (Some item));;
       set_next cur (Some item);;
       set_previous (Some item) cur;;
       mret (item_count l)
     else
       (match previous ic with
        | Some _ => set_next (previous ic) (Some item)
        | None => update (set_head (Some item))
        end);;
       set_next (Some item) cur;;
       set_previous (Some item) (previous ic);;
       set_previous cur (Some item);;
       mret result);
  (if before_middle : bool
   then update (add_middle_position 1);; update (add_balance (-1))
   else update (add_balance 1));;
  rebalance;;
  mret result.

Definition insert_indexed (item : loc) (d : D) : M Z :=
  l ← get_list;
  set_next (Some item) (head l);;
  set_previous (head l) (Some item);;
  update (set_head (Some item));;
  update (set_indexer (indexer_index (indexer l) d item));;
  mret 0.

(** The item at a position from [cur] at [index] on; [None] behind the end. *)
Fixpoint seek (fuel : nat) (position : Z) (cur : option loc) (index : Z) : M (option loc * Z) :=
  match fuel with
  | O => out_of_fuel
  | S fuel =>
    if index <? position then
      ic ← load cur;
      match next ic with
      | None => mret (None, index)
      | Some _ => seek fuel position (next ic) (u64 (index + 1))
      end
    else mret (cur, index)
  end.

Definition insert_position (item : loc) (position : Z) : M Z :=
  l ← get_list;
  '(cur, index) ← seek (S (Z.to_nat (item_count l))) position (head l) 0;
  result ←
    match cur with
    | None =>
      set_previous (Some item) (tail l);;
      set_next (tail l) (Some item);;
      update (set_tail (Some item));;
      mret (item_count l)
    | Some _ =>
      ic ← load cur;
      let old_prev := previous ic in
      set_previous cur (Some item);;
      set_next (Some item) cur;;
      set_previous (Some item) old_prev;;
      (match old_prev with
       | Some _ => set_next old_prev (Some item)
       | None => update (set_head (Some item))
       end);;
      mret index
    end;
  (if middle_position l <? result
   then update (add_balance 1)
   else update (add_middle_position 1);; update (add_balance (-1)));;
  rebalance;;
  mret result.

Definition linkedlist_insert_at (d : D) (where_ : list_insert_delete_at_t) (position : Z) : M Z :=
  item ← malloc d;
  match item with
  | None => mret (2 ^ 64 - 1)
  | Some item =>
    l ← get_list;
    match head l with
    | None => insert_first item
    | Some _ =>
      let counted (c : M Z) : M Z := result ← c; update (add_item_count 1);; mret result in
      match where_ with
      | LIST_INSERT_AT_HEAD => counted (insert_head item)
      | LIST_INSERT_AT_TAIL => counted (insert_tail item)
      | LIST_INSERT_AT_SORTED => counted (insert_sorted item d)
      | LIST_INSERT_AT_INDEXED => counted (insert_indexed item d)
      | LIST_INSERT_AT_POSITION => counted (insert_position item position)
      | _ => free_item (Some item);; mret (2 ^ 64 - 1)
      end
    end
  end.

(** ** Iterators *)

Record linkedlist_iterator_internal_t := mk_iter {
  current : option loc;
  current_deleted : Z;
  current_position : Z;
}.

(** [None] if one of the two allocations fails. *)
Definition linkedlist_iterator_create (ok : bool) : M (option linkedlist_iterator_internal_t) :=
  l ← get_list;
  mret (if ok then Some (mk_iter (head l) 0 0) else None).

Definition linkedlist_iterator_next (iter : linkedlist_iterator_internal_t) : M linkedlist_iterator_internal_t :=
  match current iter with
  | None => mret iter
  | Some _ =>
    if current_deleted iter =? 1 then mret (mk_iter (current iter) 0 (current_position iter))
    else
      ic ← load (current iter);
      mret (mk_iter (next ic) (current_deleted iter) (u64 (current_position iter + 1)))
  end.

Definition linkedlist_iterator_end_of_list (iter : linkedlist_iterator_internal_t) : Z :=
  match current iter with None => 0 | Some _ => 1 end.

Definition linkedlist_iterator_get_item (iter : linkedlist_iterator_internal_t) : M D :=
  ic ← load (current iter);
  mret (data ic).

(** Frees the iterator and its metadata; both may be missing. *)
Definition linkedlist_iterator_destroy (iterator : option (option linkedlist_iterator_internal_t)) : Z :=
  match iterator with
  | Some (Some _) => 0
  | _ => -1
  end.

(** The item is taken out of the chain, as deletion at a position does too. *)
Definition unlink (previous next : option loc) : M unit :=
  (match previous with
   | None =>
     update (set_head next);;
     match next with Some _ => set_previous next None | None => mret tt end
   | Some _ => set_next previous next
   end);;
  match next with
  | None =>
    update (set_tail previous);;
    match previous with Some _ => set_next previous None | None => mret tt end
  | Some _ => set_previous next previous
  end.

Definition linkedlist_iterator_delete_item (iter : linkedlist_iterator_internal_t)
    : M (option D * linkedlist_iterator_internal_t) :=
  match current iter with
  | None => mret (None, iter)
  | Some _ =>
    ic ← load (current iter);
    unlink (previous ic) (next ic);;
    l ← get_list;
    (if middle_position l =? current_position iter then
       match previous ic with
       | Some _ =>
         update (set_middle (previous ic));;
         update (add_middle_position (-1));;
         update (add_balance 1)
       | None =>
         update (set_middle (next ic));;
         update (add_balance (-1))
       end
     else if middle_position l <? current_position iter then update (add_balance (-1))
     else update (add_balance 1);; update (add_middle_position (-1)));;
    rebalance;;
    update (add_item_count (-1));;
    free_item (current iter);;
    (if type l =? LIST_TYPE_INDEXEDLIST
     then update (set_indexer (indexer_delete (indexer l) (inl (data ic))))
     else mret tt);;
    mret (Some (data ic), mk_iter (next ic) 1 (current_position iter))
  end.

(** ** Deletion *)

Definition delete_head : M (option D) :=
  l ← get_list;
  item ← load (head l);
  update (set_head (next item));;
  (match next item with
   | None => update (set_tail None);; update (set_middle None)
   | Some _ =>
     set_previous (next item) None;;
     if decide (middle l = head l) then
       im ← load (middle l);
       update (set_middle (next im));;
       update (add_balance (-1))
     else mret tt
   end);;
  free_item (head l);;
  update (add_item_count (-1));;
  update (add_balance 1);;
  update (add_middle_position (-1));;
  l' ← get_list;
  (match middle l' with
   | Some _ => rebalance
   | None => update (set_balance 0);; update (set_middle_position 0)
   end);;
  mret (Some (data item)).

Definition delete_tail : M (option D) :=
  l ← get_list;
  item ← load (tail l);
  update (set_tail (previous item));;
  (match previous item with
   | None => update (set_head None);; update (set_middle None)
   | Some _ =>
     set_next (previous item) None;;
     if decide (middle l = tail l) then
       im ← load (middle l);
       update (set_middle (previous im));;
       update (add_balance 1)
     else mret tt
   end);;
  free_item (tail l);;
  update (add_item_count (-1));;
  update (add_balance (-1));;
  l' ← get_list;
  (match middle l' with
   | Some _ => rebalance
   | None => update (set_balance 0);; update (set_middle_position 0)
   end);;
  mret (Some (data item)).

(** Deletion from an indexed list by its indexer. *)
Definition delete_indexed (d : D) : M (option D) :=
  l ← get_list;
  match indexer_search (indexer l) d with
  | None => mret None
  | Some p =>
    item ← load (Some p);
    (match previous item with
     | None =>
       update (set_head (next item));;
       match next item with
       | Some _ => set_previous (next item) None
       | None => update (set_tail None)
       end
     | Some _ => set_next (previous item) (next item)
     end);;
    (match next item with
     | None =>
       update (set_tail (previous item));;
       match previous item with
       | Some _ => set_next (previous item) None
       | None => update (set_head None)
       end
     | Some _ => set_previous (next item) (previous item)
     end);;
    update (set_indexer (indexer_delete (indexer l) (inr p)));;
    free_item (Some p);;
    update (add_item_count (-1));;
    mret (Some (data item))
  end.

(** The loop that looks for an equal item with an iterator. *)
Fixpoint find_loop (fuel : nat) (cmp : D -> D -> Z) (d : D) (iter : linkedlist_iterator_internal_t)
    : M (option D) :=
  match fuel with
  | O => out_of_fuel
  | S fuel =>
    if linkedlist_iterator_end_of_list iter =? 0 then mret None
    else
      x ← linkedlist_iterator_get_item iter;
      if cmp x d =? 0 then
        '(result, _) ← linkedlist_iterator_delete_item iter;
        mret result
      else
        iter ← linkedlist_iterator_next iter;
        find_loop fuel cmp d iter
  end.

Definition delete_findby (ok : bool) (d : D) : M (option D) :=
  l ← get_list;
  if type l =? LIST_TYPE_INDEXEDLIST then delete_indexed d
  else
    iter ← linkedlist_iterator_create ok;
    match iter with
    | None => mret None
    | Some iter =>
      find_loop (S (Z.to_nat (item_count l))) (default (comparator l) (equality_comparator l)) d iter
    end.

Definition delete_position (position : Z) : M (option D) :=
  l ← get_list;
  let '(cur, index) :=
    if middle_position l <=? position then (middle l, middle_position l) else (head l, 0) in
  '(cur, index) ← seek (S (Z.to_nat (item_count l))) position cur index;
  match cur with
  | None => mret None
  | Some _ =>
    ic ← load cur;
    unlink (previous ic) (next ic);;
    (if middle_position l =? index then
       im ← load (middle l);
       match previous ic with
       | Some _ =>
         update (set_middle (previous im));;
         update (add_middle_position (-1));;
         update (add_balance 1)
       | None =>
         update (set_middle (next im));;
         update (add_balance (-1))
       end
     else if index <? middle_position l then
       update (add_balance 1);; update (add_middle_position (-1))
     else update (add_balance (-1)));;
    rebalance;;
    update (add_item_count (-1));;
    free_item cur;;
    mret (Some (data ic))
  end.

(** [ok]: whether the iterator of a search can be allocated. *)
Definition linkedlist_delete_at (ok : bool) (d : option D) (where_ : list_insert_delete_at_t) (position : Z)
    : M (option D) :=
  l ← get_list;
  if bool_decide (d = None) && bool_decide (where_ = LIST_DELETE_AT_FINDBY) then mret None
  else if item_count l <=? position then mret None
  else
    let where_ := if (position =? 0) && (item_count l =? 1) then LIST_DELETE_AT_HEAD else where_ in
    if item_count l =? 0 then mret None
    else
      match head l with
      | None => mret None
      | Some _ =>
        match where_ with
        | LIST_DELETE_AT_HEAD => delete_head
        | LIST_DELETE_AT_TAIL => delete_tail
        | LIST_DELETE_AT_FINDBY => match d with Some d => delete_findby ok d | None => mret None end
        | LIST_DELETE_AT_POSITION => delete_position position
        | _ => mret None
        end
      end.

(** ** Positions *)

(** The linear search of [linkedlist_get_position]. *)
Fixpoint position_loop (fuel : nat) (cmp : D -> D -> Z) (d : D) (item : option loc) (position : Z) : M (Z * Z) :=
  match fuel with
  | O => out_of_fuel
  | S fuel =>
    match item with
    | None => mret (-1, position)
    | Some _ =>
      it ← load item;
      if cmp d (data it) =? 0 then mret (0, position)
      else position_loop fuel cmp d (next it) (u64 (position + 1))
    end
  end.

(** The result and what is left in [*position]. *)
Definition linkedlist_get_position (d : D) : M (Z * Z) :=
  l ← get_list;
  if item_count l =? 0 then mret (-1, 0)
  else if (type l =? LIST_TYPE_SORTEDLIST) && bool_decide (equality_comparator l = None) then
    im ← load (middle l);
    if comparator l d (data im) <? 0 then
      '(c_res, _, position) ← linkedlist_narrow (u64 (middle_position l + 1)) d (head l) (middle l) 0;
      mret (c_res, position)
    else
      '(c_res, _, position) ← linkedlist_narrow (u64 (item_count l - middle_position l)) d (middle l) (tail l)
        (middle_position l);
      mret (c_res, position)
  else
    let cmp := default (comparator l) (equality_comparator l) in
    let fuel := S (Z.to_nat (item_count l)) in
    match middle l with
    | None => position_loop fuel cmp d (head l) 0
    | Some _ =>
      if type l =? LIST_TYPE_SORTEDLIST then
        im ← load (middle l);
        if cmp d (data im) =? -1 then position_loop fuel cmp d (head l) 0
        else position_loop fuel cmp d (middle l) (middle_position l)
      else position_loop fuel cmp d (head l) 0
    end.

(** The walk to an item [rem] steps away, to the left or to the right. *)
Fixpoint walk (fuel : nat) (to_left : bool) (item : option loc) (rem : Z) : M (option D) :=
  match fuel with
  | O => out_of_fuel
  | S fuel =>
    match item with
    | None => mret None
    | Some _ =>
      it ← load item;
      if rem =? 0 then mret (Some (data it))
      else walk fuel to_left (if to_left then previous it else next it) (u64 (rem - 1))
    end
  end.

(** From which item the walk starts, how far it goes, and whether to the left. *)
Definition walk_start (l : list_t) (position : Z) : option loc * Z * bool :=
  match middle l with
  | Some _ =>
    if middle_position l <=? position then
      let rem := u64 (position - middle_position l) in
      let rev_position := u64 (item_count l - middle_position l - rem - 1) in
      if rev_position <? rem then (tail l, rev_position, true) else (middle l, rem, false)
    else
      let rev_position := u64 (middle_position l - position) in
      if rev_position <? position then (middle l, rev_position, true) else (head l, position, false)
  | None =>
    if u64 (position + 1) <? item_count l then
      let rev_position := u64 (item_count l - position - 1) in
      if rev_position <? position then (tail l, rev_position, true) else (head l, position, false)
    else (head l, position, false)
  end.

Definition linkedlist_get_data_at_position (position : Z) : M (option D) :=
  l ← get_list;
  if item_count l <=? position then mret None
  else
    let '(item, rem, to_left) := walk_start l position in
    walk (S (Z.to_nat (item_count l))) to_left item rem.

(** ** Two lists in one memory *)

(** A command of another list of the same memory. *)
Definition on_list {A} (l : list_t) (c : M A) : M (A * list_t) := fun s =>
  match c (mk_state l (mem s)) with
  | Done (a, s') => Done ((a, this s'), mk_state (this s) (mem s'))
  | Halted => Halted
  | OutOfFuel => OutOfFuel
  end.

Fixpoint duplicate_loop (fuel : nat) (iter : linkedlist_iterator_internal_t) (new_list : list_t) : M list_t :=
  match fuel with
  | O => out_of_fuel
  | S fuel =>
    if linkedlist_iterator_end_of_list iter =? 0 then mret new_list
    else
      x ← linkedlist_iterator_get_item iter;
      '(_, new_list) ← on_list new_list (linkedlist_insert_at x LIST_INSERT_AT_TAIL 0);
      iter ← linkedlist_iterator_next iter;
      duplicate_loop fuel iter new_list
  end.

(** [ok1], [ok2]: whether the new list and the iterator can be allocated. *)
Definition linkedlist_duplicate_list_with_heap (ok1 ok2 : bool) : M (option list_t) :=
  if negb ok1 then mret None
  else
    l ← get_list;
    iter ← linkedlist_iterator_create ok2;
    match iter with
    | None => mret None
    | Some iter =>
      new_list ← duplicate_loop (S (Z.to_nat (item_count l))) iter
        (mk_list (type l) (comparator l) None 0 (indexer l) None None None 0 0);
      mret (Some new_list)
    end.
End Operations.
