(* ===== verification/LinkedListTheory.v ===== *)
(** * Representation of linked lists

    [linked m xs]: the items of the chain [xs] (addresses and data) are linked
    in the memory [m].  [repr e s xs]: the list of the state [s] has these
    items, and its middle pointer, middle position and balance fit up to the
    drift [e], which is zero unless the middle item was taken from an end. *)

From S2P Require Import Prelude LinkedList.

Section Representation.
Context {D X : Type} `{IHP : ItemHeap D} `{IX : Indexer D X}.
Abbreviation list_t := (LinkedList.list_t D X).
Abbreviation state := (list_state D X).
Implicit Types (xs : list (loc * D)) (s : list_state D X) (m : items D).

(** ** Chains *)

Definition at_ xs (i : nat) : option loc := fst <$> xs !! i.
Definition before xs (i : nat) : option loc := match i with O => None | S j => at_ xs j end.

Definition linked m xs : Prop :=
  NoDup xs.*1 /\ forall i p d, xs !! i = Some (p, d) -> m !! p = Some (mk_item d (at_ xs (S i)) (before xs i)).

Definition insert_nth {A} (i : nat) (x : A) (l : list A) : list A := take i l ++ x :: drop i l.
Definition delete_nth {A} (i : nat) (l : list A) : list A := take i l ++ drop (S i) l.

Lemma lookup_insert_nth {A} (i j : nat) (x : A) l :
  (i <= length l)%nat ->
  insert_nth i x l !! j = if decide (j < i)%nat then l !! j else if decide (j = i) then Some x else l !! pred j.
Proof using.
  intros Hi. unfold insert_nth.
  destruct (decide (j < i)%nat).
  { rewrite lookup_app_l by (rewrite length_take; lia). by rewrite lookup_take_lt. }
  rewrite lookup_app_r by (rewrite length_take; lia). rewrite length_take, Nat.min_l by done.
  destruct (decide (j = i)) as [-> | ]; [by rewrite Nat.sub_diag|].
  destruct (j - i)%nat as [|k] eqn:E; [lia|]. change ((x :: drop i l) !! S k) with (drop i l !! k).
  rewrite lookup_drop. f_equal. lia.
Qed.

Lemma lookup_delete_nth {A} (i j : nat) (l : list A) :
  (i < length l)%nat -> delete_nth i l !! j = if decide (j < i)%nat then l !! j else l !! S j.
Proof using.
  intros Hi. unfold delete_nth.
  destruct (decide (j < i)%nat).
  { rewrite lookup_app_l by (rewrite length_take; lia). by rewrite lookup_take_lt. }
  rewrite lookup_app_r by (rewrite length_take; lia). rewrite length_take, Nat.min_l by lia.
  rewrite lookup_drop. f_equal. lia.
Qed.

Lemma length_insert_nth {A} i (x : A) l : length (insert_nth i x l) = S (length l).
Proof using. unfold insert_nth. rewrite length_app, length_take. cbn. rewrite length_drop. lia. Qed.

Lemma length_delete_nth {A} i (l : list A) : (i < length l)%nat -> length (delete_nth i l) = pred (length l).
Proof using. intros. unfold delete_nth. rewrite length_app, length_take, length_drop. lia. Qed.

Lemma insert_nth_perm {A} i (x : A) l : insert_nth i x l ≡ₚ x :: l.
Proof using. unfold insert_nth. rewrite <- Permutation_middle. by rewrite take_drop. Qed.

Lemma fmap_insert_nth {A B} (f : A -> B) i x l : f <$> insert_nth i x l = insert_nth i (f x) (f <$> l).
Proof using. unfold insert_nth. by rewrite fmap_app, fmap_cons, fmap_take, fmap_drop. Qed.

Lemma fmap_delete_nth {A B} (f : A -> B) i l : f <$> delete_nth i l = delete_nth i (f <$> l).
Proof using. unfold delete_nth. by rewrite fmap_app, fmap_take, fmap_drop. Qed.

Lemma at_Some xs i p : at_ xs i = Some p -> exists d, xs !! i = Some (p, d).
Proof using. unfold at_. destruct (xs !! i) as [[q d]|]; cbn; [|done]. intros [= ->]. by exists d. Qed.

Lemma at_lt xs i : (i < length xs)%nat -> exists p d, xs !! i = Some (p, d) /\ at_ xs i = Some p.
Proof using.
  intros [[p d] Hi]%lookup_lt_is_Some_2. exists p, d. split; [done|]. unfold at_. by rewrite Hi.
Qed.

Lemma at_None xs i : (length xs <= i)%nat -> at_ xs i = None.
Proof using. intros. unfold at_. by rewrite lookup_ge_None_2. Qed.

Lemma at_eq xs i p d : xs !! i = Some (p, d) -> at_ xs i = Some p.
Proof using. intros E. unfold at_. by rewrite E. Qed.

(** Addresses of a chain determine positions. *)
Lemma linked_inj m xs i j p : linked m xs -> at_ xs i = Some p -> at_ xs j = Some p -> i = j.
Proof using.
  intros [Hnd _] Hi Hj. eapply (NoDup_lookup xs.*1); [done|..]; by rewrite list_lookup_fmap.
Qed.

Lemma linked_lookup m xs i p d :
  linked m xs -> xs !! i = Some (p, d) -> m !! p = Some (mk_item d (at_ xs (S i)) (before xs i)).
Proof using. intros [_ H]. apply H. Qed.

Lemma elem_at xs i p : at_ xs i = Some p -> p ∈ xs.*1.
Proof using. intros [d H]%at_Some. apply list_elem_of_fmap. exists (p, d). split; [done|]. by eapply list_elem_of_lookup_2. Qed.

(** ** A new item, an item less

    The memory that links the changed chain, pointwise. *)

Lemma at_insert_nth xs i j p d :
  (i <= length xs)%nat ->
  at_ (insert_nth i (p, d) xs) j = if decide (j < i)%nat then at_ xs j else if decide (j = i) then Some p else before xs j.
Proof using.
  intros Hi. unfold at_. rewrite lookup_insert_nth by done.
  destruct (decide (j < i)%nat); [done|]. destruct (decide (j = i)); [done|]. destruct j; [lia|done].
Qed.

Lemma linked_insert m m' xs i p d :
  linked m xs -> (i <= length xs)%nat -> p ∉ xs.*1 ->
  m' !! p = Some (mk_item d (at_ xs i) (before xs i)) ->
  (forall j q e, xs !! j = Some (q, e) ->
     m' !! q = Some (mk_item e (if decide (S j = i) then Some p else at_ xs (S j))
                       (if decide (j = i) then Some p else before xs j))) ->
  linked m' (insert_nth i (p, d) xs).
Proof using.
  intros [Hnd _] Hi Hp Hnew Hold. split.
  { rewrite insert_nth_perm. cbn. by constructor. }
  assert (forall j, before (insert_nth i (p, d) xs) j =
    if decide (j <= i)%nat then before xs j else if decide (j = S i) then Some p else before xs (pred j)) as Hb.
  { intros [|j]; cbn [before]; [by rewrite decide_True by lia|]. rewrite at_insert_nth by done. cbn [pred].
    repeat destruct (decide _); try lia; try done. }
  intros j q e. rewrite lookup_insert_nth by done. rewrite at_insert_nth by done. rewrite Hb.
  destruct (decide (j < i)%nat).
  - intros Hj. rewrite (Hold _ _ _ Hj). rewrite (decide_True (P := (j <= i)%nat)) by lia. do 2 f_equal.
    + repeat destruct (decide _); try lia; done.
    + rewrite decide_False by lia. done.
  - destruct (decide (j = i)) as [-> |].
    + intros [= <- <-]. rewrite Hnew. rewrite !decide_False, (decide_True (P := (i <= i)%nat)) by lia. done.
    + destruct j as [|j]; [lia|]. cbn [pred before]. intros Hj. rewrite (Hold _ _ _ Hj). do 2 f_equal.
      * rewrite !decide_False by lia. done.
      * repeat destruct (decide _); try lia; done.
Qed.

Lemma at_delete_nth xs i j :
  (i < length xs)%nat -> at_ (delete_nth i xs) j = if decide (j < i)%nat then at_ xs j else at_ xs (S j).
Proof using. intros Hi. unfold at_. rewrite lookup_delete_nth by done. by destruct (decide _). Qed.

Lemma linked_delete m m' xs i :
  linked m xs -> (i < length xs)%nat ->
  (forall j q e, xs !! j = Some (q, e) -> j <> i ->
     m' !! q = Some (mk_item e (if decide (S j = i) then at_ xs (S i) else at_ xs (S j))
                       (if decide (j = S i) then before xs i else before xs j))) ->
  linked m' (delete_nth i xs).
Proof using.
  intros [Hnd _] Hi Hold. split.
  { rewrite fmap_delete_nth. unfold delete_nth. rewrite <- delete_take_drop.
    eapply sublist_NoDup; [exact Hnd|apply sublist_delete]. }
  intros j q e. rewrite lookup_delete_nth, at_delete_nth by done.
  assert (forall j, before (delete_nth i xs) j = if decide (j <= i)%nat then before xs j else at_ xs j) as Hb.
  { intros [|k]; cbn [before]; [by rewrite decide_True by lia|]. rewrite at_delete_nth by done.
    repeat destruct (decide _); try lia; done. }
  rewrite Hb. destruct (decide (j < i)%nat); intros Hj; rewrite (Hold _ _ _ Hj) by lia; do 2 f_equal;
    repeat destruct (decide _); try lia; try done; cbn [before]; try (f_equal; lia).
Qed.

(** ** Representation *)

Record ends s xs : Prop := {
  ends_linked : linked (mem s) xs;
  ends_head : head (this s) = at_ xs 0;
  ends_tail : tail (this s) = before xs (length xs);
}.

(** The middle item is the one at position [k]; [b] bounds the balance. *)
Definition centered (b e : Z) (k : nat) (l : list_t) (n : nat) (xs : list (loc * D)) : Prop :=
  middle l = at_ xs k /\ (k < n)%nat /\ middle_position l = u64 (Z.of_nat k - e) /\
  balance l = Z.of_nat n - 1 - 2 * Z.of_nat k + e /\ - b <= balance l <= b /\ -1 <= e <= 1.

Record repr (e : Z) s xs : Prop := {
  repr_ends : ends s xs;
  repr_count : item_count (this s) = Z.of_nat (length xs);
  repr_middle :
    match xs with
    | [] => middle (this s) = None /\ middle_position (this s) = 0 /\ e = 0
    | _ => exists k, centered 1 e k (this s) (length xs) xs
    end;
}.

(** What the operations do not change. *)
Definition config (l : list_t) : Z * (D -> D -> Z) * option (D -> D -> Z) * X :=
  (type l, comparator l, equality_comparator l, indexer l).

(** The memory apart from a set of addresses. *)
Definition frame (ps : list loc) (m m' : items D) : Prop := forall q, q ∉ ps -> m' !! q = m !! q.

Lemma repr_inhabited e s xs k :
  ends s xs -> item_count (this s) = Z.of_nat (length xs) -> centered 1 e k (this s) (length xs) xs -> repr e s xs.
Proof using. intros He Hc Hk. split; [done..|]. destruct xs; [|by exists k]. destruct Hk as (_ & Hk & _). cbn in Hk. lia. Qed.

Lemma repr_centered e s xs : repr e s xs -> xs <> [] -> exists k, centered 1 e k (this s) (length xs) xs.
Proof using. intros [_ _ Hm] Hne. by destruct xs. Qed.

(** ** Rules of the primitive commands *)

Lemma wp_get_list s (Q : list_t -> state -> Prop) E : Q (this s) s -> wp get_list s Q E.
Proof using. done. Qed.

Lemma wp_update f s (Q : unit -> state -> Prop) E : Q tt (mk_state (f (this s)) (mem s)) -> wp (update f) s Q E.
Proof using. done. Qed.

Lemma wp_load p it s (Q : list_item_t D -> state -> Prop) E :
  mem s !! p = Some it -> Q it s -> wp (load (Some p)) s Q E.
Proof using. intros Hp HQ. unfold wp, load. cbn. by rewrite Hp. Qed.

Lemma wp_store p f s (Q : unit -> state -> Prop) E :
  is_Some (mem s !! p) -> Q tt (mk_state (this s) (alter f p (mem s))) -> wp (store (Some p) f) s Q E.
Proof using. intros [it Hp] HQ. unfold wp, store. by rewrite Hp. Qed.

Lemma wp_set_next p v s (Q : unit -> state -> Prop) E :
  is_Some (mem s !! p) ->
  Q tt (mk_state (this s) (alter (fun it => mk_item (data it) v (previous it)) p (mem s))) ->
  wp (set_next (Some p) v) s Q E.
Proof using. apply wp_store. Qed.

Lemma wp_set_previous p v s (Q : unit -> state -> Prop) E :
  is_Some (mem s !! p) ->
  Q tt (mk_state (this s) (alter (fun it => mk_item (data it) (next it) v) p (mem s))) ->
  wp (set_previous (Some p) v) s Q E.
Proof using. apply wp_store. Qed.

Lemma wp_free_item p s (Q : unit -> state -> Prop) E :
  Q tt (mk_state (this s) (delete p (mem s))) -> wp (free_item (Some p)) s Q E.
Proof using. done. Qed.

Lemma is_Some_alter f p q m : is_Some (m !! q) -> is_Some (alter f p m !! q).
Proof using. rewrite lookup_alter. destruct (decide (p = q)) as [-> |]; [by intros [x ->]|done]. Qed.

Lemma is_Some_linked m xs i p : linked m xs -> at_ xs i = Some p -> is_Some (m !! p).
Proof using. intros Hl [d Hi]%at_Some. rewrite (linked_lookup _ _ _ _ _ Hl Hi). done. Qed.
End Representation.

#[export] Hint Resolve wp_get_list wp_update wp_free_item : wp.

(** One command of a sequence. *)
Ltac wp_step :=
  apply wp_bind;
  lazymatch goal with
  | |- wp get_list _ _ _ => apply wp_get_list
  | |- wp (update _) _ _ _ => apply wp_update
  | |- wp (free_item (Some _)) _ _ _ => apply wp_free_item
  | |- wp (mret _) _ _ _ => apply wp_ret
  | |- wp (set_next (Some _) _) _ _ _ => apply wp_set_next
  | |- wp (set_previous (Some _) _) _ _ _ => apply wp_set_previous
  | |- wp (load (Some _)) _ _ _ => eapply wp_load
  end; cbn [this mem].

Section Middle.
Context {D X : Type} `{IHP : ItemHeap D} `{IX : Indexer D X}.
Abbreviation list_t := (LinkedList.list_t D X).
Abbreviation state := (list_state D X).
Implicit Types (xs : list (loc * D)) (s : list_state D X) (m : items D).

(** ** Rebalancing *)

Lemma add_balance_eq n (l : list_t) z : balance l + n = z -> - 128 <= z < 128 -> add_balance n l = set_balance z l.
Proof using. intros <- ?. unfold add_balance. by rewrite i8_id. Qed.

(** The counters after [middle_position] and [balance] moved by [m] and [b];
    what [rebalance] makes of them. *)
Lemma wp_rebalance e k s xs (Q : unit -> state -> Prop) :
  linked (mem s) xs -> centered 2 e k (this s) (length xs) xs ->
  (forall l' k', centered 1 e k' l' (length xs) xs -> config l' = config (this s) ->
     head l' = head (this s) -> tail l' = tail (this s) -> item_count l' = item_count (this s) ->
     Q tt (mk_state l' (mem s))) ->
  wp rebalance s Q False.
Proof using.
  intros Hl (Hm & Hk & Hp & Hb & Hr & He) HQ. unfold rebalance. wp_step.
  destruct (at_lt xs k) as (q & d & Hq & Hqa); [done|]. pose proof (linked_lookup _ _ _ _ _ Hl Hq) as Hmem.
  rewrite Hm, Hqa. destruct (Z.eqb_spec (balance (this s)) (-2)) as [E|]; [|destruct (Z.eqb_spec (balance (this s)) 2) as [E|]].
  - wp_step; [exact Hmem|]. repeat wp_step. apply wp_update. cbn [previous].
    destruct k as [|k]; [lia|]. cbn [before]. apply (HQ _ k); try done.
    split_and!; cbn; try done; try lia. rewrite Hp, u64_add_l. f_equal. lia.
  - wp_step; [exact Hmem|]. repeat wp_step. apply wp_update. cbn [next].
    apply (HQ _ (S k)); try done.
    split_and!; cbn -[Z.of_nat]; try done; try lia. rewrite Hp, u64_add_l. f_equal. lia.
  - apply wp_ret. destruct s as [l m]. apply (HQ l k); try done. split_and!; try done; cbn in *; lia.
Qed.
End Middle.
