(* ===== verification/LinkedListInsert.v ===== *)
(** * Insertion into linked lists

    Every way of insertion puts the new item into the chain at some position
    and keeps the representation; the position is the one asked for, and for a
    sorted list the one [linkedlist_narrow] finds. *)

From S2P Require Import Prelude LinkedList LinkedListTheory.

(** [memory_malloc_ext] returns memory that is not in use. *)
Class ItemHeapLaws (D : Type) `{IHP : ItemHeap D} := {
  malloc_item_fresh (m : items D) p : malloc_item m = Some p -> m !! p = None;
}.

Section Insert.
Context {D X : Type} `{IHP : ItemHeap D} `{IX : Indexer D X}.
Abbreviation list_t := (LinkedList.list_t D X).
Abbreviation state := (list_state D X).
Implicit Types (xs : list (loc * D)) (s : list_state D X) (m : items D).

(** ** Splicing an item in *)

Definition to_next (p : loc) (it : list_item_t D) : list_item_t D := mk_item (data it) (Some p) (previous it).
Definition to_previous (p : loc) (it : list_item_t D) : list_item_t D := mk_item (data it) (next it) (Some p).

(** [m'] is [m] with the item [p] written between the items [i - 1] and [i]. *)
Definition spliced m m' xs (i : nat) (p : loc) (d : D) : Prop :=
  forall q, m' !! q =
    if decide (q = p) then Some (mk_item d (at_ xs i) (before xs i))
    else (if decide (before xs i = Some q) then to_next p else id) <$>
         ((if decide (at_ xs i = Some q) then to_previous p else id) <$> m !! q).

Lemma before_Some xs i q : before xs i = Some q -> exists j, i = S j /\ at_ xs j = Some q.
Proof using. destruct i as [|j]; cbn; [done|]. intros H. by exists j. Qed.

Lemma linked_splice m m' xs i p d :
  linked m xs -> (i <= length xs)%nat -> p ∉ xs.*1 -> spliced m m' xs i p d ->
  linked m' (insert_nth i (p, d) xs) /\ frame (p :: xs.*1) m m'.
Proof using.
  intros Hl Hi Hp Hs. split.
  - eapply linked_insert; [done..|by rewrite Hs, decide_True by done|].
    intros j q e Hj. pose proof (at_eq _ _ _ _ Hj) as Hja. rewrite Hs, decide_False.
    2: { intros ->. apply Hp. by eapply elem_at. }
    rewrite (linked_lookup _ _ _ _ _ Hl Hj). destruct (decide (before xs i = Some q)) as [Hb|Hb].
    + apply before_Some in Hb as (j' & -> & Hj'). assert (j' = j) as -> by (by eapply linked_inj).
      rewrite decide_False; [|intros E; assert (S j = j) by (by eapply linked_inj); lia].
      cbn. by rewrite decide_True, decide_False by lia.
    + rewrite (decide_False (P := S j = i)) by (intros <-; by apply Hb).
      destruct (decide (at_ xs i = Some q)) as [Ha|Ha].
      * assert (i = j) as -> by (by eapply linked_inj). cbn. by rewrite decide_True.
      * rewrite (decide_False (P := j = i)) by (intros ->; by apply Ha). done.
  - intros q [Hqp Hq]%not_elem_of_cons. rewrite Hs. rewrite decide_False by done.
    rewrite !decide_False; [by destruct (m !! q)|..].
    + intros Ha. apply Hq. by eapply elem_at.
    + intros (j & _ & Hb)%before_Some. apply Hq. by eapply elem_at.
Qed.

(** ** The middle after an insertion *)

Lemma centered_insert_before e k i (l l' : list_t) xs p d :
  centered 1 e k l (length xs) xs -> (i <= k)%nat -> middle l' = middle l ->
  middle_position l' = u64 (middle_position l + 1) -> balance l' = i8 (balance l + -1) ->
  centered 2 e (S k) l' (length (insert_nth i (p, d) xs)) (insert_nth i (p, d) xs).
Proof using.
  intros (Hm & Hk & Hp & Hb & Hr & He) Hi Em Ep Eb. rewrite length_insert_nth. unfold centered.
  rewrite at_insert_nth, !decide_False by lia. cbn [before]. rewrite Em, Ep, Eb, Hp, u64_add_l, i8_id by lia.
  split_and!; try done; try lia. f_equal. lia.
Qed.

Lemma centered_insert_after e k i (l l' : list_t) xs p d :
  centered 1 e k l (length xs) xs -> (k < i <= length xs)%nat -> middle l' = middle l ->
  middle_position l' = middle_position l -> balance l' = i8 (balance l + 1) ->
  centered 2 e k l' (length (insert_nth i (p, d) xs)) (insert_nth i (p, d) xs).
Proof using.
  intros (Hm & Hk & Hp & Hb & Hr & He) Hi Em Ep Eb. rewrite length_insert_nth. unfold centered.
  rewrite at_insert_nth, decide_True by lia. rewrite Em, Ep, Eb, i8_id by lia.
  split_and!; try done; lia.
Qed.

(** ** What an insertion achieves

    [d] in the new item [p] at position [i]; the count is not updated yet. *)
Record inserted e s s' xs i p d : Prop := {
  ins_ends : ends s' (insert_nth i (p, d) xs);
  ins_middle : exists k, centered 1 e k (this s') (S (length xs)) (insert_nth i (p, d) xs);
  ins_count : item_count (this s') = item_count (this s);
  ins_config : config (this s') = config (this s);
  ins_frame : frame (p :: xs.*1) (mem s) (mem s');
}.

(** The new item in the memory of a list. *)
Definition new_item e s xs p d : Prop :=
  repr e s xs /\ xs <> [] /\ mem s !! p = Some (mk_item d None None) /\ p ∉ xs.*1.

(** The ends of the list, with the item spliced in. *)
Lemma ends_splice s xs i p d (l : list_t) m' :
  ends s xs -> (i <= length xs)%nat -> p ∉ xs.*1 -> spliced (mem s) m' xs i p d ->
  head l = (if decide (i = 0%nat) then Some p else head (this s)) ->
  tail l = (if decide (i = length xs) then Some p else tail (this s)) ->
  ends (mk_state l m') (insert_nth i (p, d) xs).
Proof using.
  intros [Hl Hh Ht] Hi Hp Hs Eh Et. split; cbn [this mem].
  - by eapply linked_splice.
  - rewrite Eh, at_insert_nth by done. repeat destruct (decide _); try lia; done.
  - rewrite Et, length_insert_nth. cbn [before]. rewrite at_insert_nth by done.
    repeat destruct (decide _); try lia; done.
Qed.

(** The end of every insertion: the middle is moved. *)
Lemma wp_insert_end e s s1 xs i p d k (r : Z) (Q : Z -> state -> Prop) :
  ends s xs -> (i <= length xs)%nat -> p ∉ xs.*1 -> spliced (mem s) (mem s1) xs i p d ->
  ends s1 (insert_nth i (p, d) xs) ->
  centered 2 e k (this s1) (length (insert_nth i (p, d) xs)) (insert_nth i (p, d) xs) ->
  item_count (this s1) = item_count (this s) -> config (this s1) = config (this s) ->
  (forall s', inserted e s s' xs i p d -> Q r s') ->
  wp (rebalance;; mret r) s1 Q False.
Proof using.
  intros He Hi Hp Hs He1 Hc Hn Hcf HQ. apply wp_bind. destruct s1 as [l1 m1].
  eapply wp_rebalance; [apply He1|exact Hc|]. intros l' k' Hc' Ecf Eh Et En. apply wp_ret, HQ.
  destruct He1 as [Hl1 Hh1 Ht1]. cbn [this mem] in *. split; cbn [this mem]; try congruence.
  - split; cbn [this mem]; [done|congruence..].
  - exists k'. by rewrite length_insert_nth in Hc'.
  - by eapply linked_splice; [apply He|..].
Qed.

(** The memory after the stores of an insertion: by cases on the address. *)
Ltac splice Hp :=
  let q := fresh "q" in
  intros q; rewrite ?lookup_alter;
  repeat match goal with
  | |- context [decide (?a = ?b)] => destruct (decide (a = b)); simplify_eq; try congruence
  end; rewrite ?Hp; try done;
  match goal with |- context [?m !! ?q] => by destruct (m !! q) end.

Lemma last_item xs : xs <> [] -> exists j q d, length xs = S j /\ xs !! j = Some (q, d) /\ at_ xs j = Some q.
Proof using.
  intros Hne. destruct xs as [|x xs']; [done|]. destruct (at_lt (x :: xs') (length xs')) as (q & d & H1 & H2); [cbn; lia|].
  exists (length xs'), q, d. done.
Qed.

Lemma wp_insert_head e s xs p d (Q : Z -> state -> Prop) :
  new_item e s xs p d -> (forall s', inserted e s s' xs 0 p d -> Q 0 s') -> wp (insert_head p) s Q False.
Proof using.
  intros (Hr & Hne & Hp & Hfresh) HQ. destruct (repr_centered _ _ _ Hr Hne) as [k Hk]. destruct Hr as [He Hn _].
  assert (0 < length xs)%nat as Hlen by (by destruct xs; cbn; [|lia]).
  destruct (at_lt xs 0 Hlen) as (h & dh & Hh & Hha). pose proof (is_Some_linked _ _ _ _ (ends_linked _ _ He) Hha) as Hsome.
  assert (h <> p) as Hhp by (intros ->; by apply Hfresh; eapply elem_at).
  unfold insert_head. wp_step. rewrite (ends_head _ _ He), Hha. wp_step; [done|].
  wp_step; [by apply is_Some_alter|]. do 3 wp_step.
  assert (spliced (mem s) (alter (fun it => mk_item (data it) (next it) (Some p)) h
    (alter (fun it => mk_item (data it) (Some h) (previous it)) p (mem s))) xs 0 p d) as Hs.
  { unfold spliced. cbn [before]. rewrite Hha. splice Hp. }
  eapply (wp_insert_end e s _ xs 0 p d (S k)); try done; [lia|..].
  - eapply ends_splice; try done; [lia|]. by rewrite decide_False by lia.
  - eapply centered_insert_before; try done; lia.
Qed.

Lemma spliced_tail m xs p d j t :
  length xs = S j -> at_ xs j = Some t -> p ∉ xs.*1 -> m !! p = Some (mk_item d None None) ->
  spliced m (alter (fun it => mk_item (data it) (Some p) (previous it)) t
    (alter (fun it => mk_item (data it) (next it) (Some t)) p m)) xs (length xs) p d.
Proof using.
  intros Hlen Ht Hfresh Hp. assert (t <> p) by (intros ->; by apply Hfresh; eapply elem_at).
  unfold spliced. rewrite at_None by done. rewrite Hlen. cbn [before]. rewrite Ht. splice Hp.
Qed.

Lemma wp_insert_tail e s xs p d (Q : Z -> state -> Prop) :
  new_item e s xs p d ->
  (forall s', inserted e s s' xs (length xs) p d -> Q (Z.of_nat (length xs)) s') ->
  wp (insert_tail p) s Q False.
Proof using.
  intros (Hr & Hne & Hp & Hfresh) HQ. destruct (repr_centered _ _ _ Hr Hne) as [k Hk]. destruct Hr as [He Hn _].
  destruct (last_item xs Hne) as (j & t & dt & Hlen & Ht & Hta).
  pose proof (is_Some_linked _ _ _ _ (ends_linked _ _ He) Hta) as Hsome.
  assert (tail (this s) = Some t) as Etl by (rewrite (ends_tail _ _ He), Hlen; done).
  unfold insert_tail. wp_step. rewrite Etl, Hn. wp_step; [done|].
  wp_step; [by apply is_Some_alter|]. do 2 wp_step.
  pose proof (spliced_tail _ _ _ _ _ _ Hlen Hta Hfresh Hp) as Hs.
  eapply (wp_insert_end e s _ xs (length xs) p d k); try done.
  - eapply ends_splice; try done; cbn; [|by rewrite decide_True]. by rewrite decide_False by lia.
  - eapply centered_insert_after; try done. destruct Hk as (_ & Hk & _). lia.
Qed.

(** ** Insertion at a position *)

Lemma wp_seek fuel pos i s xs (Q : option loc * Z -> state -> Prop) :
  linked (mem s) xs -> (i < length xs)%nat -> Z.of_nat (length xs) < 2 ^ 64 -> (length xs - i <= fuel)%nat ->
  Z.of_nat i <= pos ->
  Q (at_ xs (Z.to_nat pos), Z.min pos (Z.of_nat (length xs) - 1)) s ->
  wp (seek fuel pos (at_ xs i) (Z.of_nat i)) s Q False.
Proof using.
  intros Hl. revert i. induction fuel as [|fuel IH]; intros i Hi Hlen Hf Hpos HQ; [lia|]. cbn [seek].
  destruct (Z.ltb_spec (Z.of_nat i) pos).
  - destruct (at_lt xs i Hi) as (q & d & Hq & Ha). rewrite Ha. wp_step; [by eapply linked_lookup|]. cbn [next].
    destruct (decide (S i < length xs)%nat).
    + destruct (at_lt xs (S i)) as (q' & d' & Hq' & Ha'); [done|]. rewrite Ha', <- Ha'.
      rewrite u64_small by lia. replace (Z.of_nat i + 1) with (Z.of_nat (S i)) by lia. apply IH; try lia. done.
    + rewrite at_None by lia. apply wp_ret.
      rewrite at_None in HQ by lia. replace (Z.of_nat i) with (Z.min pos (Z.of_nat (length xs) - 1)) by lia. done.
  - apply wp_ret. replace (Z.to_nat pos) with i in HQ by lia. replace (Z.of_nat i) with (Z.min pos (Z.of_nat (length xs) - 1)) by lia.
    done.
Qed.

(** The stores that put an item before the item [i], in the two orders the code
    has. *)
Lemma spliced_before m xs i p d c :
  linked m xs -> at_ xs i = Some c -> p ∉ xs.*1 -> m !! p = Some (mk_item d None None) ->
  spliced m
    (match before xs i with
     | Some b => alter (fun it => mk_item (data it) (Some p) (previous it)) b
     | None => id
     end (alter (fun it => mk_item (data it) (next it) (before xs i)) p
       (alter (fun it => mk_item (data it) (Some c) (previous it)) p
         (alter (fun it => mk_item (data it) (next it) (Some p)) c m)))) xs i p d /\
  spliced m
    (alter (fun it => mk_item (data it) (next it) (Some p)) c
       (alter (fun it => mk_item (data it) (next it) (before xs i)) p
         (alter (fun it => mk_item (data it) (Some c) (previous it)) p
           (match before xs i with
            | Some b => alter (fun it => mk_item (data it) (Some p) (previous it)) b
            | None => id
            end m)))) xs i p d.
Proof using.
  intros Hl Hc Hfresh Hp.
  assert (c <> p) by (intros ->; by apply Hfresh; eapply elem_at).
  unfold spliced. destruct (before xs i) as [b|] eqn:Eb; rewrite Hc.
  - assert (b <> p /\ b <> c) as [? ?].
    { apply before_Some in Eb as (j & -> & Hj). split; intros ->; [by apply Hfresh; eapply elem_at|].
      assert (j = S j) by (by eapply linked_inj). lia. }
    split; splice Hp.
  - unfold id at 1 4. split; splice Hp.
Qed.

(** The counters and the middle after the item was spliced in. *)
Lemma wp_insert_counters e s l1 m1 xs i p d k (r : Z) (c : cmd state unit) (Q : Z -> state -> Prop) :
  ends s xs -> (i <= length xs)%nat -> p ∉ xs.*1 -> spliced (mem s) m1 xs i p d ->
  ends (mk_state l1 m1) (insert_nth i (p, d) xs) -> centered 1 e k (this s) (length xs) xs ->
  middle l1 = middle (this s) -> middle_position l1 = middle_position (this s) ->
  balance l1 = balance (this s) -> item_count l1 = item_count (this s) -> config l1 = config (this s) ->
  (k < i)%nat /\ c = update (add_balance 1) \/
  (i <= k)%nat /\ c = (update (add_middle_position 1);; update (add_balance (-1))) ->
  (forall s', inserted e s s' xs i p d -> Q r s') ->
  wp (c;; rebalance;; mret r) (mk_state l1 m1) Q False.
Proof using.
  intros He Hi Hp Hs He1 Hk Em Ep Eb En Ec Hc HQ. destruct He1 as [Hl1 Hh1 Ht1].
  destruct Hc as [[Hki ->] | [Hki ->]].
  - wp_step. eapply (wp_insert_end e s _ xs i p d k); try done.
    eapply centered_insert_after; try done; cbn; congruence.
  - apply wp_bind. wp_step. apply wp_update. cbn [this mem].
    eapply (wp_insert_end e s _ xs i p d (S k)); try done.
    eapply centered_insert_before; try done; cbn; congruence.
Qed.

Lemma wp_insert_position s xs pos p d (Q : Z -> state -> Prop) :
  new_item 0 s xs p d -> Z.of_nat (length xs) < 2 ^ 64 -> 0 <= pos ->
  (forall s', inserted 0 s s' xs (Nat.min (Z.to_nat pos) (length xs)) p d ->
     Q (Z.min pos (Z.of_nat (length xs))) s') ->
  wp (insert_position p pos) s Q False.
Proof using.
  intros (Hr & Hne & Hp & Hfresh) Hbound Hpos HQ. destruct (repr_centered _ _ _ Hr Hne) as [k Hk].
  destruct Hr as [He Hn _]. pose proof (ends_linked _ _ He) as Hl.
  destruct (last_item xs Hne) as (j & t & dt & Hlen & Ht & Hta).
  assert (middle_position (this s) = Z.of_nat k /\ (k < length xs)%nat) as [Emp Hkn].
  { destruct Hk as (_ & ? & -> & _). rewrite Z.sub_0_r, u64_small; [done|lia]. }
  unfold insert_position. wp_step. apply wp_bind. rewrite (ends_head _ _ He), Hn.
  apply (wp_seek _ _ 0 s xs); try done; [lia..|]. apply wp_bind.
  destruct (decide (Z.to_nat pos < length xs)%nat) as [Hlt|Hge].
  - rewrite Nat.min_l in HQ by lia. rewrite Z.min_l in HQ by lia. rewrite Z.min_l by lia.
    destruct (at_lt xs (Z.to_nat pos) Hlt) as (c & dc & Hc & Hca). rewrite Hca.
    pose proof (linked_lookup _ _ _ _ _ Hl Hc) as Hmc.
    destruct (spliced_before _ _ _ _ d _ Hl Hca Hfresh Hp) as [Hs _].
    wp_step; [exact Hmc|]. cbn [previous]. wp_step; [done|]. wp_step; [by apply is_Some_alter|].
    wp_step; [by do 2 apply is_Some_alter|].
    pose proof (fun l E1 E2 => ends_splice s xs _ p d l _ He (Nat.lt_le_incl _ _ Hlt) Hfresh Hs E1 E2) as Hends.
    apply wp_bind. destruct (before xs (Z.to_nat pos)) as [b|] eqn:Eb.
    + apply before_Some in Eb as (j' & Ej & Hb). apply wp_set_next.
      { do 3 apply is_Some_alter. by eapply is_Some_linked. }
      apply wp_ret. cbn [this mem]. eapply (wp_insert_counters 0 s _ _ xs (Z.to_nat pos) p d k); try done.
      * lia.
      * apply Hends; [by rewrite decide_False by lia|by rewrite decide_False by lia].
      * rewrite Emp. destruct (Z.ltb_spec (Z.of_nat k) pos); [left|right]; (split; [lia|done]).
    + assert (Z.to_nat pos = 0%nat) as E0.
      { destruct (Z.to_nat pos) as [|i]; [done|]. cbn in Eb. destruct (at_lt xs i) as (?&?&_&?); [lia|congruence]. }
      apply wp_update, wp_ret. cbn [this mem]. eapply (wp_insert_counters 0 s _ _ xs (Z.to_nat pos) p d k); try done.
      * lia.
      * apply Hends; [by rewrite decide_True|by rewrite decide_False by lia].
      * rewrite Emp. destruct (Z.ltb_spec (Z.of_nat k) pos); [left|right]; (split; [lia|done]).
  - rewrite Nat.min_r in HQ by lia. rewrite Z.min_r in HQ by lia. rewrite at_None by lia.
    pose proof (is_Some_linked _ _ _ _ Hl Hta) as Hsome.
    assert (tail (this s) = Some t) as Etl by (rewrite (ends_tail _ _ He), Hlen; done). rewrite Etl.
    wp_step; [done|]. wp_step; [by apply is_Some_alter|]. wp_step. apply wp_ret.
    pose proof (spliced_tail _ _ _ _ _ _ Hlen Hta Hfresh Hp) as Hs.
    eapply (wp_insert_counters 0 s _ _ xs (length xs) p d k); try done.
    + eapply ends_splice; try done; cbn; [|by rewrite decide_True]. by rewrite decide_False by lia.
    + rewrite Emp. destruct (Z.ltb_spec (Z.of_nat k) (Z.of_nat (length xs))); [left|right]; (split; [lia|done]).
Qed.
End Insert.

(** ** Search in a sorted list *)

(** The data of the items do not decrease, seen from [d]: [cmp d] is one on the
    first items, then zero, then minus one. *)
Definition graded {D} (cmp : D -> D -> Z) (d : D) (ds : list D) : Prop :=
  (forall x, x ∈ ds -> -1 <= cmp d x <= 1) /\
  (forall i j x y, (i <= j)%nat -> ds !! i = Some x -> ds !! j = Some y -> cmp d y <= cmp d x).

(** The position of the first item that is not smaller than [d]. *)
Fixpoint lower_bound {D} (cmp : D -> D -> Z) (d : D) (ds : list D) : nat :=
  match ds with
  | [] => 0
  | x :: ds => if cmp d x =? 1 then S (lower_bound cmp d ds) else 0
  end.

Lemma lower_bound_le {D} (cmp : D -> D -> Z) d (ds : list D) : (lower_bound cmp d ds <= length ds)%nat.
Proof. induction ds; cbn; [lia|]. case_match; cbn; lia. Qed.

Lemma lower_bound_spec {D} (cmp : D -> D -> Z) d (ds : list D) : graded cmp d ds ->
  forall j x, ds !! j = Some x -> (j < lower_bound cmp d ds)%nat <-> cmp d x = 1.
Proof.
  induction ds as [|y ds IH]; intros [Hr Hm] j x Hj; [done|]. cbn [lower_bound].
  assert (cmp d x <= cmp d y) by (by apply (Hm 0%nat j y x); [lia|..]).
  destruct (Z.eqb_spec (cmp d y) 1) as [E|E].
  - destruct j as [|j]; [injection Hj as ->; split; [done|lia]|].
    rewrite <- (IH (conj (fun z Hz => Hr z (list_elem_of_further _ _ _ Hz))
      (fun i j a b Hij Hi => Hm (S i) (S j) a b (le_n_S _ _ Hij) Hi)) j x Hj). lia.
  - assert (cmp d y <= 1) by (apply Hr; left). split; [lia|]. lia.
Qed.

Section Narrow.
Context {D X : Type} `{IHP : ItemHeap D} `{IX : Indexer D X}.
Abbreviation list_t := (LinkedList.list_t D X).
Abbreviation state := (list_state D X).
Context (cmp : D -> D -> Z) (d : D) (s : list_state D X) (xs : list (loc * D)).
Context (Hl : linked (mem s) xs) (Hlen : Z.of_nat (length xs) < 2 ^ 64) (Hg : graded cmp d xs.*2).

Abbreviation L := (lower_bound cmp d xs.*2).

(** The comparison with the item at a position. *)
Lemma item_at i : (i < length xs)%nat ->
  exists p x, at_ xs i = Some p /\ xs !! i = Some (p, x) /\ -1 <= cmp d x <= 1 /\
    mem s !! p = Some (mk_item x (at_ xs (S i)) (before xs i)) /\ ((i < L)%nat <-> cmp d x = 1).
Proof using Hl Hg.
  intros Hi. destruct (at_lt xs i Hi) as (p & x & Hx & Ha). exists p, x.
  assert (xs.*2 !! i = Some x) as Hx2 by (by rewrite list_lookup_fmap, Hx).
  split_and!; try done.
  - apply Hg. by eapply list_elem_of_lookup_2.
  - apply Hg. by eapply list_elem_of_lookup_2.
  - by eapply linked_lookup.
  - by apply lower_bound_spec.
Qed.

Lemma graded_le i j p q x y :
  (i <= j)%nat -> xs !! i = Some (p, x) -> xs !! j = Some (q, y) -> cmp d y <= cmp d x.
Proof using Hg. intros Hij Hi Hj. eapply Hg; [exact Hij|..]; by rewrite list_lookup_fmap, ?Hi, ?Hj. Qed.

Lemma wp_close_in n i j (Q : option loc * option loc -> state -> Prop) :
  (i + n < length xs)%nat -> (n <= j < length xs)%nat -> Q (at_ xs (i + n), at_ xs (j - n)) s ->
  wp (close_in n (at_ xs i) (at_ xs j)) s Q False.
Proof using Hl Hg.
  revert i j. induction n as [|n IH]; intros i j Hi Hj HQ; cbn [close_in].
  - apply wp_ret. by rewrite Nat.add_0_r, Nat.sub_0_r in HQ.
  - destruct (item_at i) as (p & x & Hp & _ & _ & Hmp & _); [lia|].
    destruct (item_at j) as (q & y & Hq & _ & _ & Hmq & _); [lia|].
    rewrite Hp, Hq. wp_step; [done|]. wp_step; [done|]. cbn [next previous].
    destruct j as [|j]; [lia|]. cbn [before]. apply IH; [lia..|].
    replace (S i + n)%nat with (i + S n)%nat by lia. done.
Qed.

(** The first loop ends at an item that is equal, or smaller, or the first
    one that is greater. *)
Definition narrowed (b : nat) (found : bool) : Prop :=
  (b < length xs)%nat /\
  (forall p x, xs !! b = Some (p, x) -> (found = true -> cmp d x = 0) /\ (cmp d x = -1 -> b = L)).

Lemma wp_narrow_loop fuel n a (Q : option loc * Z * bool -> state -> Prop) :
  (n < fuel)%nat -> (2 <= n)%nat -> (a + n <= length xs)%nat ->
  (forall p x, xs !! a = Some (p, x) -> cmp d x = -1 -> a = L) ->
  (forall b found, narrowed b found -> Q (at_ xs b, Z.of_nat b, found) s) ->
  wp (narrow_loop fuel cmp d (Z.of_nat n) (Z.of_nat a) (at_ xs a) (at_ xs (a + n - 1))) s Q False.
Proof using Hl Hlen Hg.
  revert n a. induction fuel as [|fuel IH]; intros n a Hf Hn Ha Hinv HQ; [lia|]. cbn [narrow_loop].
  destruct (item_at a) as (p & x & Hp & Hx & Hrx & Hmp & HLx); [lia|].
  destruct (item_at (a + n - 1)) as (q & y & Hq & Hy & Hry & Hmq & HLy); [lia|].
  rewrite decide_False.
  2: { rewrite Hp, Hq. intros [= ->]. assert (a = a + n - 1)%nat by (by eapply linked_inj). lia. }
  destruct (Z.eqb_spec (Z.of_nat n) 0); [lia|].
  rewrite Hp. wp_step; [exact Hmp|]. cbn [data]. rewrite <- Hp.
  assert (forall f, (f = true -> cmp d x = 0) -> narrowed a f) as Hhere.
  { intros f Hfx. split; [lia|]. intros p' x' E. rewrite Hx in E. injection E as <- <-. split; [done|]. by eapply Hinv. }
  destruct (Z.eqb_spec (cmp d x) 0) as [Ex|Ex]; [apply wp_ret, HQ, Hhere; done|].
  rewrite Hq. wp_step; [exact Hmq|]. cbn [data]. rewrite <- Hq.
  destruct (Z.eqb_spec (cmp d y) 0) as [Ey|Ey].
  { apply wp_ret. replace (u64 (Z.of_nat a + Z.of_nat n - 1)) with (Z.of_nat (a + n - 1)).
    - apply HQ. split; [lia|]. intros p' x' E. rewrite Hy in E. injection E as <- <-. split; [done|lia].
    - rewrite u64_small; lia. }
  destruct (Z.eqb_spec (Z.of_nat n) 2); [apply wp_ret, HQ, Hhere; done|].
  destruct (Z.eqb_spec (Z.of_nat n) 3).
  { destruct (Z.eqb_spec (cmp d x) 1) as [E1|]; [|apply wp_ret, HQ, Hhere; done].
    apply wp_ret. cbn [next]. rewrite u64_small by lia. replace (Z.of_nat a + 1) with (Z.of_nat (S a)) by lia.
    apply HQ. split; [lia|]. intros p' x' E. split; [done|]. intros Em.
    destruct (item_at (S a)) as (p2 & x2 & _ & Hx2 & _ & _ & HL2); [lia|]. rewrite Hx2 in E. injection E as <- <-. lia. }
  assert (Z.shiftr (Z.of_nat n) 2 = Z.of_nat (n / 4)) as -> by (rewrite Z.shiftr_div_pow2, Nat2Z.inj_div by lia; done).
  assert (1 <= n / 4 /\ 4 * (n / 4) <= n)%nat as [Hq1 Hq4].
  { split; [apply (Nat.div_le_lower_bound n 4 1); lia|apply Nat.Div0.mul_div_le]. }
  generalize dependent (n / 4)%nat. intros u Hu1 Hu4. rewrite Nat2Z.id. apply wp_bind.
  apply wp_close_in; [lia..|].
  destruct (item_at (a + u)) as (p2 & x2 & Hp2 & Hx2 & Hr2 & Hm2 & HL2); [lia|].
  destruct (item_at (a + n - 1 - u)) as (q2 & y2 & Hq2 & Hy2 & Hry2 & Hmq2 & HLq2); [lia|].
  rewrite Hp2, Hq2. wp_step; [exact Hm2|]. cbn [data]. rewrite <- Hp2.
  destruct (Z.leb_spec (cmp d x2) 0).
  { rewrite u64_small by lia. replace (Z.of_nat u + 1) with (Z.of_nat (S u)) by lia.
    replace (a + u)%nat with (a + S u - 1)%nat by lia. apply IH; try lia; done. }
  wp_step; [exact Hmq2|]. cbn [data]. rewrite <- Hq2.
  destruct (Z.leb_spec 0 (cmp d y2)).
  - rewrite !u64_small by lia. replace (Z.of_nat u + 1) with (Z.of_nat (S u)) by lia.
    replace (Z.of_nat a + (Z.of_nat n - Z.of_nat (S u))) with (Z.of_nat (a + n - 1 - u)) by lia.
    replace (at_ xs (a + n - 1)) with (at_ xs (a + n - 1 - u + S u - 1)) by (f_equal; lia).
    apply IH; try lia; [|done]. intros p' x' E. rewrite Hy2 in E. injection E as <- <-. lia.
  - rewrite !u64_small by lia. replace (Z.of_nat n - 2 * Z.of_nat u) with (Z.of_nat (n - 2 * u)) by lia.
    replace (Z.of_nat a + Z.of_nat u) with (Z.of_nat (a + u)) by lia.
    replace (a + n - 1 - u)%nat with (a + u + (n - 2 * u) - 1)%nat by lia.
    apply IH; try lia; [|done]. intros p' x' E. rewrite Hx2 in E. injection E as <- <-. lia.
Qed.

Lemma wp_walk_left fuel b p x (Q : option loc * Z * bool -> state -> Prop) :
  (b < fuel)%nat -> xs !! b = Some (p, x) -> cmp d x = 0 ->
  (forall q y, xs !! L = Some (q, y) -> cmp d y = 0 -> Q (Some q, Z.of_nat L, bool_decide (L <> 0%nat)) s) ->
  wp (walk_left fuel cmp d (Some p) (Z.of_nat b)) s Q False.
Proof using Hl Hlen Hg.
  revert b p x. induction fuel as [|fuel IH]; intros b p x Hf Hb Ex HQ; [lia|]. cbn [walk_left].
  assert (b < length xs)%nat as Hbn by (by eapply lookup_lt_Some).
  destruct (item_at b Hbn) as (p' & x' & Ha & Hx & _ & Hmem & HL). rewrite Hb in Hx. injection Hx as <- <-.
  wp_step; [exact Hmem|]. cbn [previous]. destruct b as [|b].
  - assert (L = 0%nat) as E0 by lia. rewrite E0 in HQ. cbn [before]. apply wp_ret.
    specialize (HQ _ _ Hb Ex). by rewrite bool_decide_false in HQ by lia.
  - destruct (item_at b) as (q & y & Haq & Hy & Hry & Hmq & HLy); [lia|]. cbn [before]. rewrite Haq.
    wp_step; [exact Hmq|]. cbn [data]. destruct (Z.eqb_spec (cmp d y) 0) as [Ey|Ey].
    + rewrite u64_small by lia. replace (Z.of_nat (S b) - 1) with (Z.of_nat b) by lia. eapply IH; [lia|done..].
    + assert (cmp d x <= cmp d y) by (eapply (graded_le b (S b)); [lia|done..]).
      assert (L = S b) as E0 by lia. rewrite E0 in HQ. apply wp_ret.
      specialize (HQ _ _ Hb Ex). by rewrite bool_decide_true in HQ by lia.
Qed.

Lemma wp_walk_right fuel b p x (Q : option loc * option Z * Z -> state -> Prop) :
  (length xs - b < fuel)%nat -> xs !! b = Some (p, x) -> (b <= L)%nat ->
  (forall q y, xs !! L = Some (q, y) -> Q (Some q, Some (Z.of_nat L), cmp d y) s) ->
  (L = length xs -> Q (at_ xs (length xs - 1), None, 1) s) ->
  wp (walk_right fuel cmp d (Some p) (Z.of_nat b) (cmp d x)) s Q False.
Proof using Hl Hlen Hg.
  revert b p x. induction fuel as [|fuel IH]; intros b p x Hf Hb HbL HQ HQ'; [lia|]. cbn [walk_right].
  assert (b < length xs)%nat as Hbn by (by eapply lookup_lt_Some).
  destruct (item_at b Hbn) as (p' & x' & Ha & Hx & _ & Hmem & HL). rewrite Hb in Hx. injection Hx as <- <-.
  destruct (Z.eqb_spec (cmp d x) 1) as [Ex|Ex].
  - wp_step; [exact Hmem|]. cbn [next]. destruct (decide (S b < length xs)%nat).
    + destruct (item_at (S b)) as (q & y & Haq & Hy & _ & Hmq & _); [lia|]. rewrite Haq.
      wp_step; [exact Hmq|]. cbn [data]. rewrite u64_small by lia. replace (Z.of_nat b + 1) with (Z.of_nat (S b)) by lia.
      apply IH; try done; lia.
    + rewrite at_None by lia. apply wp_ret. rewrite <- Ha. replace b with (length xs - 1)%nat by lia.
      apply HQ'. pose proof (lower_bound_le cmp d xs.*2) as Hle. rewrite length_fmap in Hle. lia.
  - apply wp_ret. assert (L = b) as E0 by lia. rewrite E0 in HQ. by apply HQ.
Qed.

(** [linkedlist_narrow] on a range of two items or more. *)
Lemma wp_narrow n a (Q : Z * option loc * Z -> state -> Prop) :
  comparator (this s) = cmp -> item_count (this s) = Z.of_nat (length xs) ->
  (2 <= n)%nat -> (a + n <= length xs)%nat ->
  (forall p x, xs !! a = Some (p, x) -> cmp d x = -1 -> a = L) ->
  (forall q y, xs !! L = Some (q, y) -> Q (cmp d y, Some q, Z.of_nat L) s) ->
  (L = length xs -> Q (1, at_ xs (length xs - 1), Z.of_nat a) s) ->
  wp (linkedlist_narrow (Z.of_nat n) d (at_ xs a) (at_ xs (a + n - 1)) (Z.of_nat a)) s Q False.
Proof using Hl Hlen Hg.
  intros Hcmp Hcount Hn Ha Hinv HQ HQ'. unfold linkedlist_narrow.
  destruct (item_at a) as (p & x & Hp & _); [lia|]. destruct (item_at (a + n - 1)) as (q & y & Hq & _); [lia|].
  rewrite Hp, Hq. wp_step. rewrite decide_False.
  2: { intros [= ->]. assert (a = a + n - 1)%nat by (by eapply linked_inj). lia. }
  rewrite <- Hp, <- Hq, Hcmp, Hcount. apply wp_bind. apply wp_narrow_loop; try lia; [done|].
  intros b found [Hb Hbx]. destruct (item_at b Hb) as (pb & xb & Hab & Hxb & Hrb & Hmb & HLb).
  destruct (Hbx _ _ Hxb) as [Hfound Hsmall]. rewrite Hab. clear p x q y Hp Hq Hbx.
  assert (forall q y, xs !! L = Some (q, y) -> cmp d y = 0 -> bool_decide (L <> 0%nat) = false ->
    Q (0, Some q, Z.of_nat L) s) as HQ0 by (intros q y Hy Ey _; rewrite <- Ey; by apply HQ).
  apply wp_bind. destruct found.
  - eapply wp_walk_left; [|exact Hxb|by apply Hfound|]; [lia|]. intros q y Hy Ey. cbn beta iota.
    specialize (HQ _ _ Hy). rewrite Ey in HQ. destruct (bool_decide (L <> 0%nat)) eqn:E; [by apply wp_ret|].
    apply bool_decide_eq_false in E. assert (L < length xs)%nat as HLn by (by eapply lookup_lt_Some).
    destruct (item_at L HLn) as (q' & y' & _ & Hy' & _ & Hmq & _). rewrite Hy in Hy'. injection Hy' as <- <-.
    wp_step; [exact Hmq|]. cbn [data]. rewrite Ey. cbn [Z.eqb]. apply wp_bind.
    eapply wp_walk_left; [|exact Hy|done|]; [lia|]. intros q2 y2 Hy2 Ey2. rewrite Hy in Hy2. injection Hy2 as <- <-.
    rewrite bool_decide_false by tauto. apply wp_bind. apply wp_ret. by apply wp_ret.
  - apply wp_ret. wp_step; [exact Hmb|]. cbn [data]. destruct (Z.eqb_spec (cmp d xb) (-1)) as [E1|E1].
    { apply wp_ret. assert (b = L) as E by (by apply Hsmall). rewrite <- E1. rewrite E in Hxb |- *. by apply HQ. }
    apply wp_bind. destruct (Z.eqb_spec (cmp d xb) 0) as [E0|E0].
    + eapply wp_walk_left; [|exact Hxb|exact E0|]; [lia|]. intros q y Hy Ey. specialize (HQ _ _ Hy). rewrite Ey in HQ.
      destruct (bool_decide (L <> 0%nat)) eqn:E; [by apply wp_ret|]. rewrite E0. apply wp_bind. apply wp_ret.
      by apply wp_ret.
    + apply wp_ret. apply wp_bind. eapply wp_walk_right; [|exact Hxb|..]; [lia|lia|..].
      * intros q y Hy. apply wp_ret. by apply HQ.
      * intros E. apply wp_ret. by apply HQ'.
Qed.

(** The search of [insert_sorted]: the part before the middle or the part from
    the middle on. *)
Lemma wp_sorted_position k (Q : Z * option loc * Z * bool -> state -> Prop) :
  repr 0 s xs -> centered 1 0 k (this s) (length xs) xs -> comparator (this s) = cmp ->
  (forall q y before_middle, xs !! L = Some (q, y) -> (before_middle = true <-> (L <= k)%nat) ->
     Q (cmp d y, Some q, Z.of_nat L, before_middle) s) ->
  (forall r, L = length xs -> Q (1, at_ xs (length xs - 1), r, false) s) ->
  wp (sorted_position (this s) d) s Q False.
Proof using Hl Hlen Hg.
  intros [He Hn _] (Hm & Hk & Hmp & _) Hcmp HQ HQ'. rewrite Z.sub_0_r, u64_small in Hmp by lia.
  unfold sorted_position.
  destruct (item_at k Hk) as (p & x & Hp & Hx & Hr & Hmem & HL).
  pose proof (lower_bound_le cmp d xs.*2) as HLn. rewrite length_fmap in HLn.
  rewrite Hm, Hp. wp_step; [exact Hmem|]. cbn [data]. rewrite Hcmp, Hmp, Hn, (ends_head _ _ He), (ends_tail _ _ He).
  destruct (Z.leb_spec (cmp d x) 0).
  - assert (L <= k)%nat by lia. apply wp_bind. rewrite u64_small by lia.
    destruct k as [|k].
    + assert (L = 0%nat) as E by lia. unfold linkedlist_narrow. rewrite Hp. wp_step. rewrite decide_True by done.
      wp_step; [exact Hmem|]. apply wp_ret, wp_ret. cbn [data]. rewrite Hcmp. rewrite E in HQ.
      by apply (HQ p x).
    + rewrite <- Hp. replace (Z.of_nat (S k) + 1) with (Z.of_nat (S (S k))) by lia.
      replace (S k) with (0 + S (S k) - 1)%nat by lia. apply (wp_narrow (S (S k)) 0); try done; try lia.
      * intros p0 x0 Hx0 E. destruct (item_at 0) as (p1 & x1 & _ & Hx1 & _ & _ & HL1); [lia|].
        rewrite Hx0 in Hx1. injection Hx1 as <- <-. lia.
      * intros q y Hy. apply wp_ret. by apply HQ.
  - assert (k < L)%nat by lia. apply wp_bind. rewrite u64_small by lia.
    destruct (decide (S k = length xs)) as [Ek|].
    + assert (L = length xs) as E by lia. unfold linkedlist_narrow. rewrite <- Ek. cbn [before]. rewrite Hp. wp_step.
      rewrite decide_True by done. wp_step; [exact Hmem|]. apply wp_ret, wp_ret. cbn [data].
      rewrite Hcmp. replace (cmp d x) with 1 by lia. rewrite <- Hp. replace k with (length xs - 1)%nat by lia. by apply HQ'.
    + rewrite <- Hp. replace (Z.of_nat (length xs) - Z.of_nat k) with (Z.of_nat (length xs - k)) by lia.
      assert (before xs (length xs) = at_ xs (k + (length xs - k) - 1)) as ->.
      { destruct (length xs) as [|n'] eqn:E; [lia|]. cbn [before]. f_equal. lia. }
      apply wp_narrow; try done; try lia.
      * intros p0 x0 Hx0 E. rewrite Hx in Hx0. injection Hx0 as <- <-. lia.
      * intros q y Hy. apply wp_ret. apply HQ; [done|]. split; [done|lia].
      * intros E. apply wp_ret. by apply HQ'.
Qed.
End Narrow.

(** ** Insertion in order *)

Section InsertSorted.
Context {D X : Type} `{IHP : ItemHeap D} `{IX : Indexer D X}.
Abbreviation list_t := (LinkedList.list_t D X).
Abbreviation state := (list_state D X).
Implicit Types (xs : list (loc * D)) (s : list_state D X) (m : items D).

Lemma wp_insert_sorted s xs p d (Q : Z -> state -> Prop) :
  new_item 0 s xs p d -> Z.of_nat (length xs) < 2 ^ 64 -> graded (comparator (this s)) d xs.*2 ->
  (forall s', inserted 0 s s' xs (lower_bound (comparator (this s)) d xs.*2) p d ->
     Q (Z.of_nat (lower_bound (comparator (this s)) d xs.*2)) s') ->
  wp (insert_sorted p d) s Q False.
Proof using.
  intros (Hr & Hne & Hp & Hfresh) Hbound Hg HQ. destruct (repr_centered _ _ _ Hr Hne) as [k Hk].
  pose proof (repr_ends _ _ _ Hr) as He. pose proof (repr_count _ _ _ Hr) as Hn. pose proof (ends_linked _ _ He) as Hl.
  remember (lower_bound (comparator (this s)) d xs.*2) as L eqn:EL.
  destruct (last_item xs Hne) as (j & t & dt & Hlen & Ht & Hta).
  unfold insert_sorted. wp_step.
  apply wp_bind. eapply (wp_sorted_position (comparator (this s)) d s xs); try done; rewrite <- EL.
  - intros c dc before_middle Hc Hbm. pose proof (at_eq _ _ _ _ Hc) as Hca.
    assert (L < length xs)%nat as HL by (by eapply lookup_lt_Some).
    assert (comparator (this s) d dc <> 1) as Hc1.
    { intros E. assert (L < lower_bound (comparator (this s)) d xs.*2)%nat; [|lia].
      eapply (lower_bound_spec _ _ _ Hg); [by rewrite list_lookup_fmap, Hc|done]. }
    destruct (spliced_before _ _ _ _ d _ Hl Hca Hfresh Hp) as [_ Hs].
    pose proof (fun l E1 E2 => ends_splice s xs _ p d l _ He (Nat.lt_le_incl _ _ HL) Hfresh Hs E1 E2) as Hends.
    pose proof (linked_lookup _ _ _ _ _ Hl Hc) as Hmc. pose proof (is_Some_linked _ _ _ _ Hl Hca) as Hsc.
    wp_step; [exact Hmc|]. destruct (Z.eqb_spec (comparator (this s) d dc) 1); [done|]. cbn [andb previous].
    apply wp_bind, wp_bind. destruct (before xs L) as [b|] eqn:Eb.
    + apply before_Some in Eb as (j' & -> & Hb). pose proof (is_Some_linked _ _ _ _ Hl Hb) as Hsb.
      apply wp_set_next; [done|]. wp_step; [by apply is_Some_alter|]. wp_step; [by do 2 apply is_Some_alter|].
      wp_step; [by do 3 apply is_Some_alter|]. apply wp_ret. cbn [this mem].
      eapply (wp_insert_counters 0 s _ _ xs (S j') p d k); try done; [lia|..].
      * apply Hends; by rewrite decide_False by lia.
      * destruct before_middle; [right|left]; (split; [|done]); [by apply Hbm|]. 
        destruct (decide (k < S j')%nat); [done|]. assert (false = true) by (apply Hbm; lia). done.
    + assert (L = 0%nat) as E0.
      { destruct L as [|i]; [done|]. cbn in Eb. destruct (at_lt xs i) as (?&?&_&?); [lia|congruence]. }
      apply wp_update. wp_step; [done|]. wp_step; [by apply is_Some_alter|].
      wp_step; [by do 2 apply is_Some_alter|]. apply wp_ret. cbn [this mem].
      eapply (wp_insert_counters 0 s _ _ xs L p d k); try done; [lia|..].
      * apply Hends; [by rewrite decide_True|by rewrite decide_False by lia].
      * right. split; [lia|]. by destruct before_middle; [|assert (false = true) by (apply Hbm; lia)].
  - intros r E. rewrite Hlen, Nat.sub_1_r. cbn [pred]. rewrite Hta.
    pose proof (linked_lookup _ _ _ _ _ Hl Ht) as Hmt. wp_step; [exact Hmt|]. cbn [next Z.eqb andb].
    rewrite at_None by lia. rewrite bool_decide_true by done. apply wp_bind.
    assert (tail (this s) = Some t) as Etl by (rewrite (ends_tail _ _ He), Hlen; done). rewrite Etl.
    wp_step. wp_step; [done|]. wp_step; [by apply is_Some_alter|]. apply wp_ret.
    rewrite Hn. rewrite E in HQ. 
    pose proof (spliced_tail _ _ _ _ _ _ Hlen Hta Hfresh Hp) as Hs.
    assert (t <> p) as Htp by (intros ->; by apply Hfresh; eapply elem_at).
    rewrite alter_alter_ne by done.
    eapply (wp_insert_counters 0 s _ _ xs (length xs) p d k); try done.
    + eapply ends_splice; try done; cbn; [|by rewrite decide_True]. by rewrite decide_False by lia.
    + left. split; [|done]. by destruct Hk as (_ & Hk & _).
Qed.

(** ** The whole operation *)

(** Where an item goes. *)
Definition insert_index (cmp : D -> D -> Z) (w : list_insert_delete_at_t) (pos : Z) (d : D) (ds : list D) : nat :=
  match w with
  | LIST_INSERT_AT_TAIL => length ds
  | LIST_INSERT_AT_POSITION => Nat.min (Z.to_nat pos) (length ds)
  | LIST_INSERT_AT_SORTED => lower_bound cmp d ds
  | _ => 0
  end.

(** What the ways of insertion ask for: the middle has to be exact for a
    position and in order. *)
Definition insert_allowed (e : Z) (cmp : D -> D -> Z) (w : list_insert_delete_at_t) (pos : Z) (d : D) (ds : list D) : Prop :=
  match w with
  | LIST_INSERT_AT_HEAD | LIST_INSERT_AT_TAIL => True
  | LIST_INSERT_AT_POSITION => e = 0 /\ 0 <= pos
  | LIST_INSERT_AT_SORTED => e = 0 /\ graded cmp d ds
  | _ => False
  end.

Lemma linked_new m xs p it : linked m xs -> m !! p = None -> linked (<[p := it]> m) xs /\ p ∉ xs.*1.
Proof using.
  intros Hl Hp. assert (p ∉ xs.*1) as Hfresh.
  { intros ([p' d] & -> & [i Hi]%list_elem_of_lookup)%list_elem_of_fmap.
    pose proof (linked_lookup _ _ _ _ _ Hl Hi) as E. cbn in Hp. congruence. }
  split; [|done]. destruct Hl as [Hnd Hl]. split; [done|]. intros i q d Hi.
  rewrite lookup_insert_ne; [by apply Hl|]. intros <-. apply Hfresh. by eapply elem_at, at_eq.
Qed.

Lemma wp_insert_first s xs p d (Q : Z -> state -> Prop) :
  repr 0 (mk_state (this s) (delete p (mem s))) [] -> mem s !! p = Some (mk_item d None None) ->
  (forall s', repr 0 s' [(p, d)] -> config (this s') = config (this s) -> mem s' = mem s -> Q 0 s') ->
  wp (insert_first p) s Q False.
Proof using.
  intros [He Hn (Hm & Hmp & _)] Hp HQ. unfold insert_first. do 5 wp_step. apply wp_ret. apply HQ; [|done..].
  cbn in Hn, Hmp. apply (repr_inhabited _ _ _ 0).
  - split; cbn; [|done..]. split; [apply NoDup_singleton|]. intros [|i] q x; [|done]. intros [= <- <-]. done.
  - cbn. rewrite Hn. done.
  - split_and!; cbn; try done; try lia.
Qed.

Lemma wp_insert_counted e s xs i p d (c : cmd state Z) r (Q : Z -> state -> Prop) :
  Z.of_nat (length xs) + 1 < 2 ^ 64 -> repr e s xs ->
  (forall Q', (forall s', inserted e s s' xs i p d -> Q' r s') -> wp c s Q' False) ->
  (forall s', repr e s' (insert_nth i (p, d) xs) -> config (this s') = config (this s) ->
     frame (p :: xs.*1) (mem s) (mem s') -> Q r s') ->
  wp (result ← c; update (add_item_count 1);; mret result) s Q False.
Proof using.
  intros Hb [_ Hn _] Hc HQ. apply wp_bind. apply Hc. intros s' [He [k Hk] En Ec Hf].
  wp_step. apply wp_ret. apply HQ; [|done..]. destruct s' as [l' m']. cbn [this mem] in *.
  apply (repr_inhabited _ _ _ k).
  - destruct He as [Hl Hh Ht]. by split.
  - cbn. rewrite En, Hn, length_insert_nth, u64_small; lia.
  - rewrite length_insert_nth. exact Hk.
Qed.
End InsertSorted.

Section InsertAt.
Context {D X : Type} `{IHP : ItemHeap D} `{IX : Indexer D X} `{IHL : !ItemHeapLaws D}.
Abbreviation list_t := (LinkedList.list_t D X).
Abbreviation state := (list_state D X).
Implicit Types (xs : list (loc * D)) (s : list_state D X) (m : items D).

Lemma wp_insert_at e s xs d w pos p (Q : Z -> state -> Prop) :
  repr e s xs -> Z.of_nat (length xs) + 1 < 2 ^ 64 -> malloc_item (mem s) = Some p ->
  (xs <> [] -> insert_allowed e (comparator (this s)) w pos d xs.*2) ->
  (forall s', let i := if decide (xs = []) then 0%nat else insert_index (comparator (this s)) w pos d xs.*2 in
     repr e s' (insert_nth i (p, d) xs) -> config (this s') = config (this s) ->
     frame (p :: xs.*1) (mem s) (mem s') -> Q (Z.of_nat i) s') ->
  wp (linkedlist_insert_at d w pos) s Q False.
Proof using IHL.
  intros Hr Hb Hmalloc Hallow HQ. unfold linkedlist_insert_at. apply wp_bind.
  unfold malloc. unfold wp at 1. rewrite Hmalloc. wp_step.
  pose proof (malloc_item_fresh _ _ Hmalloc) as Hnone. destruct s as [l m]. cbn [this mem] in *.
  destruct (linked_new m xs p (mk_item d None None) (ends_linked _ _ (repr_ends _ _ _ Hr)) Hnone) as [Hl1 Hfresh].
  pose proof (ends_head _ _ (repr_ends _ _ _ Hr)) as Eh. cbn [this] in Eh. rewrite Eh.
  assert (forall m', frame (p :: xs.*1) (<[p := mk_item d None None]> m) m' -> frame (p :: xs.*1) m m') as Hframe.
  { intros m' Hf q Hq. rewrite (Hf q Hq). apply lookup_insert_ne. intros ->. apply Hq. left. }
  destruct xs as [|x xs'].
  - cbn. assert (e = 0) as -> by (by destruct Hr as [_ _ (_ & _ & ?)]).
    apply (wp_insert_first _ [] p d); cbn; [|by rewrite lookup_insert_eq|].
    + rewrite delete_insert_id by done. exact Hr.
    + intros s' Hs' Ec Em. apply HQ; [done..|]. apply Hframe. intros q Hq. by rewrite Em.
  - remember (x :: xs') as xs eqn:Exs. assert (xs <> []) as Hne by (by subst).
    rewrite decide_False in HQ by done.
    destruct (at_lt xs 0) as (h & dh & _ & ->); [subst; cbn; lia|].
    assert (new_item e (mk_state l (<[p := mk_item d None None]> m)) xs p d) as Hnew.
    { split_and!; [|done|by apply lookup_insert_eq|done]. destruct Hr as [[Hl Hh Ht] Hn Hm]. by split; [split|..]. }
    assert (forall i c, (forall Q', (forall s', inserted e (mk_state l (<[p := mk_item d None None]> m)) s' xs i p d ->
        Q' (Z.of_nat i) s') -> wp c (mk_state l (<[p := mk_item d None None]> m)) Q' False) ->
      i = insert_index (comparator l) w pos d xs.*2 ->
      wp (result ← c; update (add_item_count 1);; mret result) (mk_state l (<[p := mk_item d None None]> m)) Q False) as Hdone.
    { intros i c Hc Ei. eapply wp_insert_counted; [done|apply Hnew|exact Hc|]. intros s' Hs' Ec Hf. subst i. by apply HQ; auto. }
    specialize (Hallow Hne). destruct w; try done; eapply Hdone; try reflexivity; intros Q' HQ'; cbn [insert_index] in *.
    + by eapply (wp_insert_head e).
    + rewrite length_fmap in *. by eapply (wp_insert_tail e).
    + destruct Hallow as [-> Hpos]. rewrite length_fmap in *. eapply (wp_insert_position _ xs pos); try done; [lia|].
      intros s' Hs'. replace (Z.min pos (Z.of_nat (length xs))) with (Z.of_nat (Nat.min (Z.to_nat pos) (length xs))) by lia.
      by apply HQ'.
    + destruct Hallow as [-> Hg]. eapply (wp_insert_sorted _ xs); try done. cbn. lia.
Qed.

(** When there is no memory, nothing changes. *)
Lemma insert_at_no_memory s d w pos :
  malloc_item (mem s) = None -> linkedlist_insert_at d w pos s = Done (2 ^ 64 - 1, s).
Proof using.
  intros Hm. unfold linkedlist_insert_at. unfold mbind, cmd_bind, malloc. by rewrite Hm.
Qed.

Lemma insert_at_bad_place s d w pos :
  head (this s) <> None -> w ∈ [LIST_DELETE_AT_HEAD; LIST_DELETE_AT_TAIL; LIST_DELETE_AT_FINDBY; LIST_DELETE_AT_POSITION] ->
  linkedlist_insert_at d w pos s = Done (2 ^ 64 - 1, s).
Proof using IHL.
  intros Hh Hw. destruct (malloc_item (mem s)) as [p|] eqn:Hm; [|by apply insert_at_no_memory].
  pose proof (malloc_item_fresh _ _ Hm). destruct s as [l m]. cbn [this mem] in *.
  unfold linkedlist_insert_at, mbind, cmd_bind, malloc, get_list. cbn. rewrite Hm. cbn. destruct (head l); [|done].
  by set_unfold; destruct Hw as [-> | [-> | [-> | [-> | []]]]]; cbn; rewrite delete_insert_id.
Qed.
End InsertAt.
