(* ===== verification/LinkedListDelete.v ===== *)
(** * Deletion from linked lists

    Every way of deletion takes one item out of the chain and frees it.  The
    drift of the middle changes only when the middle item itself is taken from
    an end of the list. *)

From S2P Require Import Prelude LinkedList LinkedListTheory LinkedListInsert.

Section Delete.
Context {D X : Type} `{IHP : ItemHeap D} `{IX : Indexer D X}.
Abbreviation list_t := (LinkedList.list_t D X).
Abbreviation state := (list_state D X).
Implicit Types (xs : list (loc * D)) (s : list_state D X) (m : items D).

(** ** Taking an item out *)

(** [m'] is [m] with the neighbours of the item [i] linked to each other. *)
Definition bridged m m' xs (i : nat) : Prop :=
  forall q, m' !! q =
    (if decide (before xs i = Some q) then fun it => mk_item (data it) (at_ xs (S i)) (previous it) else id) <$>
    ((if decide (at_ xs (S i) = Some q) then fun it => mk_item (data it) (next it) (before xs i) else id) <$> m !! q).

Lemma linked_bridge m m' xs i p d :
  linked m xs -> xs !! i = Some (p, d) -> bridged m m' xs i ->
  linked (delete p m') (delete_nth i xs) /\ frame xs.*1 m (delete p m') /\
  m' !! p = Some (mk_item d (at_ xs (S i)) (before xs i)) /\ delete p m' !! p = None.
Proof using.
  intros Hl Hi Hs. pose proof (at_eq _ _ _ _ Hi) as Hia. assert (i < length xs)%nat as Hn by (by eapply lookup_lt_Some).
  assert (before xs i <> Some p) as Hbp.
  { intros (j & -> & Hj)%before_Some. assert (j = S j) by (by eapply linked_inj). lia. }
  assert (at_ xs (S i) <> Some p) as Hap.
  { intros Ha. assert (S i = i) by (by eapply linked_inj). lia. }
  split_and!.
  - eapply linked_delete; [done..|]. intros j q e Hj Hne. pose proof (at_eq _ _ _ _ Hj) as Hja.
    rewrite lookup_delete_ne by (intros <-; apply Hne; by eapply linked_inj).
    rewrite Hs, (linked_lookup _ _ _ _ _ Hl Hj). destruct (decide (before xs i = Some q)) as [Hb|Hb].
    + apply before_Some in Hb as (j' & -> & Hj'). assert (j' = j) as -> by (by eapply linked_inj).
      rewrite (decide_False (P := at_ xs (S (S j)) = Some q)); [|intros E; assert (S (S j) = j) by (by eapply linked_inj); lia].
      cbn. by rewrite decide_True, decide_False by lia.
    + rewrite (decide_False (P := S j = i)) by (intros <-; by apply Hb).
      destruct (decide (at_ xs (S i) = Some q)) as [Ha|Ha].
      * assert (S i = j) as <- by (by eapply linked_inj). cbn. by rewrite decide_True.
      * rewrite (decide_False (P := j = S i)) by (intros ->; by apply Ha). done.
  - intros q Hq. destruct (decide (q = p)) as [-> |]; [by destruct Hq; eapply elem_at|].
    rewrite lookup_delete_ne by done. rewrite Hs, !decide_False; [by destruct (m !! q)|..].
    + intros Ha. apply Hq. by eapply elem_at.
    + intros (j & _ & Hb)%before_Some. apply Hq. by eapply elem_at.
  - rewrite Hs, !decide_False by done. by rewrite (linked_lookup _ _ _ _ _ Hl Hi).
  - apply lookup_delete_eq.
Qed.

(** The middle after a deletion. *)
Lemma centered_delete_before e k i (l l' : list_t) xs :
  centered 1 e k l (length xs) xs -> (i < k)%nat -> middle l' = middle l ->
  middle_position l' = u64 (middle_position l + -1) -> balance l' = i8 (balance l + 1) ->
  centered 2 e (pred k) l' (length (delete_nth i xs)) (delete_nth i xs).
Proof using.
  intros (Hm & Hk & Hp & Hb & Hr & He) Hi Em Ep Eb. rewrite length_delete_nth by lia. unfold centered.
  rewrite at_delete_nth, decide_False by lia. replace (S (pred k)) with k by lia.
  rewrite Em, Ep, Eb, Hp, u64_add_l, i8_id by lia. split_and!; try done; try lia. f_equal. lia.
Qed.

Lemma centered_delete_after e k i (l l' : list_t) xs :
  centered 1 e k l (length xs) xs -> (k < i < length xs)%nat -> middle l' = middle l ->
  middle_position l' = middle_position l -> balance l' = i8 (balance l + -1) ->
  centered 2 e k l' (length (delete_nth i xs)) (delete_nth i xs).
Proof using.
  intros (Hm & Hk & Hp & Hb & Hr & He) Hi Em Ep Eb. rewrite length_delete_nth by lia. unfold centered.
  rewrite at_delete_nth, decide_True by lia. rewrite Em, Ep, Eb, i8_id by lia. split_and!; try done; lia.
Qed.

(** The middle item itself is taken: its left neighbour becomes the middle, or
    its right one. *)
Lemma centered_delete_left e k (l l' : list_t) xs :
  centered 1 e (S k) l (length xs) xs -> middle l' = at_ xs k ->
  middle_position l' = u64 (middle_position l + -1) -> balance l' = i8 (balance l + 1) ->
  centered 2 e k l' (length (delete_nth (S k) xs)) (delete_nth (S k) xs).
Proof using.
  intros (Hm & Hk & Hp & Hb & Hr & He) Em Ep Eb. rewrite length_delete_nth by lia. unfold centered.
  rewrite at_delete_nth, decide_True by lia. rewrite Em, Ep, Eb, Hp, u64_add_l, i8_id by lia.
  split_and!; try done; try lia. f_equal. lia.
Qed.

Lemma centered_delete_right e (l l' : list_t) xs :
  centered 1 e 0 l (length xs) xs -> (2 <= length xs)%nat -> middle l' = at_ xs 1 ->
  middle_position l' = middle_position l -> balance l' = i8 (balance l + -1) ->
  centered 2 e 0 l' (length (delete_nth 0 xs)) (delete_nth 0 xs).
Proof using.
  intros (Hm & Hk & Hp & Hb & Hr & He) Hn Em Ep Eb. rewrite length_delete_nth by lia. unfold centered.
  rewrite at_delete_nth, decide_False by lia. rewrite Em, Ep, Eb, i8_id by lia.
  split_and!; try done; lia.
Qed.

(** ** What a deletion achieves *)
Record deleted e s s' xs i p : Prop := {
  del_repr : repr e s' (delete_nth i xs);
  del_config : config (this s') = config (this s);
  del_frame : frame xs.*1 (mem s) (mem s');
  del_freed : mem s' !! p = None;
}.

Lemma ends_bridge s xs i p d (l : list_t) m' :
  ends s xs -> xs !! i = Some (p, d) -> bridged (mem s) m' xs i ->
  head l = (if decide (i = 0%nat) then at_ xs 1 else head (this s)) ->
  tail l = (if decide (S i = length xs) then before xs i else tail (this s)) ->
  ends (mk_state l (delete p m')) (delete_nth i xs).
Proof using.
  intros [Hl Hh Ht] Hi Hs Eh Et. assert (i < length xs)%nat as Hn by (by eapply lookup_lt_Some). split; cbn [this mem].
  - by eapply linked_bridge.
  - rewrite Eh, at_delete_nth by done. repeat destruct (decide _); try lia; try done.
  - rewrite Et, length_delete_nth by done. destruct (length xs) as [|[|n]] eqn:E; cbn [pred before]; [lia|..].
    + by replace i with 0%nat by lia.
    + rewrite at_delete_nth by lia. rewrite Ht. cbn [before].
      repeat destruct (decide _); try lia; try done. destruct i as [|i]; [lia|]. cbn [before]. f_equal. lia.
Qed.

Ltac bridge :=
  let q := fresh "q" in
  intros q; rewrite ?lookup_alter;
  repeat match goal with
  | |- context [decide (?a = ?b)] => destruct (decide (a = b)); simplify_eq; try congruence
  end; try done;
  match goal with |- context [?m !! ?q] => by destruct (m !! q) end.

(** [unlink] with the neighbours of the item [i]. *)
Lemma wp_unlink s xs i p d (Q : unit -> state -> Prop) :
  ends s xs -> xs !! i = Some (p, d) ->
  (forall l' m', bridged (mem s) m' xs i ->
     middle l' = middle (this s) -> middle_position l' = middle_position (this s) ->
     balance l' = balance (this s) -> item_count l' = item_count (this s) -> config l' = config (this s) ->
     ends (mk_state l' (delete p m')) (delete_nth i xs) -> Q tt (mk_state l' m')) ->
  wp (unlink (before xs i) (at_ xs (S i))) s Q False.
Proof using.
  intros He Hi HQ. pose proof (ends_linked _ _ He) as Hl. assert (i < length xs)%nat as Hn by (by eapply lookup_lt_Some).
  assert (i = 0%nat <-> before xs i = None) as Hb0.
  { destruct i as [|j]; [done|]. cbn. destruct (at_lt xs j) as (?&?&_&->); [lia|done]. }
  assert (S i = length xs <-> at_ xs (S i) = None) as Ha0.
  { split; [intros; apply at_None; lia|]. intros E. destruct (decide (S i < length xs)%nat) as [H|]; [|lia].
    destruct (at_lt xs (S i) H) as (?&?&_&?). congruence. }
  pose proof (fun l m' Hs => ends_bridge s xs i p d l m' He Hi Hs) as Hends.
  assert (forall b a, before xs i = Some b -> at_ xs (S i) = Some a -> b <> a) as Hba.
  { intros b a (j & -> & Hj)%before_Some Ha ->. assert (j = S (S j)) by (by eapply linked_inj). lia. }
  unfold unlink. apply wp_bind. destruct (before xs i) as [b|] eqn:Eb.
  - pose proof Eb as (j & Ej & Hj)%before_Some. pose proof (is_Some_linked _ _ _ _ Hl Hj) as Hsb.
    rewrite decide_False in Hends by (intros ->; done).
    apply wp_set_next; [done|]. destruct (at_ xs (S i)) as [a|] eqn:Ea.
    + pose proof (is_Some_linked _ _ _ _ Hl Ea) as Hsa. specialize (Hba b a eq_refl eq_refl).
      apply wp_set_previous; [by apply is_Some_alter|]. cbn [this mem].
      assert (bridged (mem s) (alter (fun it => mk_item (data it) (next it) (Some b)) a
        (alter (fun it => mk_item (data it) (Some a) (previous it)) b (mem s))) xs i) as Hs.
      { unfold bridged. rewrite Eb, Ea. bridge. }
      apply HQ; try done. apply Hends; try done. rewrite decide_False; [done|]. intros E. by apply Ha0 in E.
    + wp_step. apply wp_set_next; [by apply is_Some_alter|]. cbn [this mem].
      assert (bridged (mem s) (alter (fun it => mk_item (data it) None (previous it)) b
        (alter (fun it => mk_item (data it) None (previous it)) b (mem s))) xs i) as Hs.
      { unfold bridged. rewrite Eb, Ea. bridge. }
      apply HQ; try done. apply Hends; try done. by rewrite decide_True by (by apply Ha0).
  - assert (i = 0%nat) as -> by (by apply Hb0). rewrite decide_True in Hends by done. wp_step.
    destruct (at_ xs 1) as [a|] eqn:Ea.
    + pose proof (is_Some_linked _ _ _ _ Hl Ea) as Hsa.
      apply wp_set_previous; [done|]. apply wp_set_previous; [by apply is_Some_alter|]. cbn [this mem].
      assert (bridged (mem s) (alter (fun it => mk_item (data it) (next it) None) a
        (alter (fun it => mk_item (data it) (next it) None) a (mem s))) xs 0) as Hs.
      { unfold bridged. rewrite Ea. cbn [before]. bridge. }
      apply HQ; try done. apply Hends; try done. rewrite decide_False; [done|]. intros E. by apply Ha0 in E.
    + apply wp_ret. wp_step. apply wp_ret. 
      assert (bridged (mem s) (mem s) xs 0) as Hs.
      { unfold bridged. rewrite Ea. cbn [before]. bridge. }
      apply HQ; try done. apply Hends; try done. by rewrite decide_True by (by apply Ha0).
Qed.

Lemma linked_undelete m xs p : linked (delete p m) xs -> linked m xs.
Proof using. intros [Hnd Hl]. split; [done|]. intros i q d Hi. by apply Hl, lookup_delete_Some in Hi as [_ ?]. Qed.

Lemma ends_same (l1 l2 : list_t) m xs :
  ends (mk_state l1 m) xs -> head l2 = head l1 -> tail l2 = tail l1 -> ends (mk_state l2 m) xs.
Proof using. intros [Hl Hh Ht] Eh Et. cbn in Hh, Ht. split; cbn; [done|congruence..]. Qed.

(** The state in which [rebalance] is called, [l1] being the list by then. *)
Definition recentered e (l1 : list_t) (xs' : list (loc * D)) : Prop :=
  (xs' = [] /\ e = 0 /\ middle l1 = None /\ middle_position l1 = 0 /\ balance l1 = -1) \/
  (exists k, centered 2 e k l1 (length xs') xs').

(** The end of a deletion in the middle. *)
Lemma wp_delete_end {A} e s l1 m1 xs i p d (K : cmd state A) (Q : A -> state -> Prop) :
  ends s xs -> item_count (this s) = Z.of_nat (length xs) -> Z.of_nat (length xs) < 2 ^ 64 ->
  xs !! i = Some (p, d) -> bridged (mem s) m1 xs i ->
  ends (mk_state l1 (delete p m1)) (delete_nth i xs) -> recentered e l1 (delete_nth i xs) ->
  item_count l1 = item_count (this s) -> config l1 = config (this s) ->
  (forall s', deleted e s s' xs i p -> wp K s' Q False) ->
  wp (rebalance;; update (add_item_count (-1));; free_item (Some p);; K) (mk_state l1 m1) Q False.
Proof using.
  intros He Hn Hb Hi Hbr He1 Hc En Ec HQ. assert (i < length xs)%nat as Hlt by (by eapply lookup_lt_Some).
  destruct (linked_bridge _ _ _ _ _ _ (ends_linked _ _ He) Hi Hbr) as (Hl1 & Hf & _ & Hfree).
  pose proof (fun l2 => ends_same l1 l2 _ _ He1) as He2.
  assert (u64 (item_count l1 + -1) = Z.of_nat (length (delete_nth i xs))) as Hcount.
  { rewrite En, Hn, length_delete_nth by done. rewrite u64_small by lia. lia. }
  apply wp_bind. destruct Hc as [(E & -> & Em & Emp & Eb) | (k & Hc)].
  - unfold rebalance. wp_step. rewrite Eb. cbn [Z.eqb]. apply wp_ret. do 2 wp_step. apply HQ.
    split; cbn [this mem]; try done. split; [by apply He2|done|]. rewrite E. cbn. done.
  - eapply wp_rebalance; [apply (linked_undelete _ _ p), Hl1|exact Hc|]. cbn [this mem].
    intros l' k' Hc' Ecf Eh Et En'. do 2 wp_step. apply HQ.
    split; cbn [this mem]; try done; [|exact (eq_trans Ecf Ec)].
    eapply repr_inhabited; [by apply He2|cbn; by rewrite En'|exact Hc'].
Qed.

Section Position.
Context s xs k (Hr : repr 0 s xs) (Hk : centered 1 0 k (this s) (length xs) xs) (Hb : Z.of_nat (length xs) < 2 ^ 64).

Lemma middle_position_eq : middle_position (this s) = Z.of_nat k.
Proof using Hk Hb. destruct Hk as (_ & ? & -> & _). rewrite Z.sub_0_r, u64_small; lia. Qed.

(** The four cases of the middle when the item [i] goes. *)
Lemma recentered_cases i (l1 : list_t) :
  (i < length xs)%nat ->
  (i < k)%nat /\ middle l1 = middle (this s) /\ middle_position l1 = u64 (middle_position (this s) + -1) /\
    balance l1 = i8 (balance (this s) + 1) \/
  (k < i)%nat /\ middle l1 = middle (this s) /\ middle_position l1 = middle_position (this s) /\
    balance l1 = i8 (balance (this s) + -1) \/
  i = k /\ before xs k <> None /\ middle l1 = before xs k /\
    middle_position l1 = u64 (middle_position (this s) + -1) /\ balance l1 = i8 (balance (this s) + 1) \/
  i = k /\ before xs k = None /\ middle l1 = at_ xs (S k) /\
    middle_position l1 = middle_position (this s) /\ balance l1 = i8 (balance (this s) + -1) ->
  recentered 0 l1 (delete_nth i xs).
Proof using Hk Hb.
  intros Hi [(H & Em & Ep & Eb) | [(H & Em & Ep & Eb) | [(-> & Hne & Em & Ep & Eb) | (-> & Hne & Em & Ep & Eb)]]].
  - right. exists (pred k). by eapply centered_delete_before.
  - right. exists k. by eapply centered_delete_after.
  - destruct k as [|k']; [done|]. right. exists k'. by eapply centered_delete_left.
  - assert (k = 0%nat) as E.
    { clear -Hne Hi. destruct k as [|k']; [done|]. cbn in Hne. destruct (at_lt xs k') as (?&?&_&?); [lia|congruence]. }
    pose proof middle_position_eq as Hmp. rewrite E in *. destruct (decide (2 <= length xs)%nat).
    + right. exists 0%nat. by eapply centered_delete_right.
    + left. assert (length xs = 1%nat) as E1 by lia. destruct Hk as (_ & _ & _ & Hbal & _).
      split_and!; [|done|rewrite Em; apply at_None; lia|by rewrite Ep, Hmp|].
      * apply length_zero_iff_nil. rewrite length_delete_nth by lia. lia.
      * rewrite Eb, Hbal, E1. done.
Qed.

Lemma wp_delete_position pos p d (Q : option D -> state -> Prop) :
  0 <= pos -> xs !! Z.to_nat pos = Some (p, d) ->
  (forall s', deleted 0 s s' xs (Z.to_nat pos) p -> Q (Some d) s') ->
  wp (delete_position pos) s Q False.
Proof using Hr Hk Hb.
  intros Hpos Hi HQ. pose proof (repr_ends _ _ _ Hr) as He. pose proof (repr_count _ _ _ Hr) as Hn.
  pose proof (ends_linked _ _ He) as Hl. assert (Z.to_nat pos < length xs)%nat as Hlt by (by eapply lookup_lt_Some).
  assert (k < length xs)%nat as Hkn by apply Hk. pose proof (proj1 Hk) as Hm.
  assert (forall i, (i < length xs)%nat -> Z.of_nat i <= pos -> forall Q' : option loc * Z -> state -> Prop,
    Q' (Some p, pos) s -> wp (seek (S (Z.to_nat (item_count (this s)))) pos (at_ xs i) (Z.of_nat i)) s Q' False) as Hseek.
  { intros i Hi' Hip Q' HQ'. apply wp_seek; try done; [rewrite Hn; lia|]. rewrite (at_eq _ _ _ _ Hi), Z.min_l by lia. done. }
  unfold delete_position. wp_step. rewrite middle_position_eq.
  set (start := if _ <=? pos then _ else _).
  assert (exists i, (i < length xs)%nat /\ Z.of_nat i <= pos /\ start = (at_ xs i, Z.of_nat i)) as (i & Hi' & Hip & ->).
  { unfold start. destruct (Z.leb_spec (Z.of_nat k) pos); [exists k|exists 0%nat]; (split_and!; [lia|lia|]).
    - by rewrite Hm.
    - by rewrite (ends_head _ _ He). }
  apply wp_bind. apply Hseek; [done..|].
  wp_step; [by eapply linked_lookup|]. cbn [previous next]. apply wp_bind. eapply wp_unlink; [exact He|exact Hi|].
  intros l1 m1 Hbr Em Emp Eb En Ec He1.
  pose proof (fun l2 Hl2 => recentered_cases (Z.to_nat pos) l2 Hlt Hl2) as Hcases.
  pose proof (fun l2 => ends_same l1 l2 _ _ He1) as He2.
  apply wp_bind. destruct (Z.eqb_spec (Z.of_nat k) pos) as [E|E].
  - assert (Z.to_nat pos = k) as E' by lia. rewrite E' in *. 
    destruct (linked_bridge _ _ _ _ _ _ Hl Hi Hbr) as (_ & _ & Hmp & _).
    rewrite Hm, (at_eq _ _ _ _ Hi). wp_step; [exact Hmp|]. cbn [previous next].
    destruct (before xs k) as [b|] eqn:Eb'.
    + do 2 wp_step. apply wp_update. cbn [this mem]. eapply (wp_delete_end 0 s); try done; [by apply He2|].
      apply Hcases. do 2 right. left. split_and!; try done; cbn; congruence.
    + wp_step. apply wp_update. cbn [this mem]. eapply (wp_delete_end 0 s); try done; [by apply He2|].
      apply Hcases. do 3 right. split_and!; try done; cbn; congruence.
  - destruct (Z.ltb_spec pos (Z.of_nat k)).
    + wp_step. apply wp_update. cbn [this mem]. eapply (wp_delete_end 0 s); try done; [by apply He2|].
      apply Hcases. left. split_and!; [lia|cbn; congruence..].
    + apply wp_update. cbn [this mem]. eapply (wp_delete_end 0 s); try done; [by apply He2|].
      apply Hcases. right. left. split_and!; [lia|cbn; congruence..].
Qed.

(** ** Iterators *)

Context (Ht : type (this s) <> LIST_TYPE_INDEXEDLIST).

Lemma wp_iterator_delete_item j p d dl (Q : option D * linkedlist_iterator_internal_t -> state -> Prop) :
  xs !! j = Some (p, d) ->
  (forall s', deleted 0 s s' xs j p -> Q (Some d, mk_iter (at_ xs (S j)) 1 (Z.of_nat j)) s') ->
  wp (linkedlist_iterator_delete_item (mk_iter (Some p) dl (Z.of_nat j))) s Q False.
Proof using Hr Hk Hb Ht.
  intros Hj HQ. pose proof (repr_ends _ _ _ Hr) as He. pose proof (repr_count _ _ _ Hr) as Hn.
  pose proof (ends_linked _ _ He) as Hl. assert (j < length xs)%nat as Hlt by (by eapply lookup_lt_Some).
  unfold linkedlist_iterator_delete_item. cbn [current current_position].
  wp_step; [by eapply linked_lookup|]. cbn [previous next data]. apply wp_bind. eapply wp_unlink; [exact He|exact Hj|].
  intros l1 m1 Hbr Em Emp Eb En Ec He1. wp_step.
  pose proof (fun l2 Hl2 => recentered_cases j l2 Hlt Hl2) as Hcases.
  pose proof (fun l2 => ends_same l1 l2 _ _ He1) as He2.
  assert (type l1 = type (this s)) as Ety by (by injection Ec).
  assert (forall l2, head l2 = head l1 -> tail l2 = tail l1 -> item_count l2 = item_count l1 -> config l2 = config l1 ->
    recentered 0 l2 (delete_nth j xs) ->
    wp (rebalance;; update (add_item_count (-1));; free_item (Some p);;
        (if type l1 =? LIST_TYPE_INDEXEDLIST then update (set_indexer (indexer_delete (indexer l1) (inl d))) else mret tt);;
        mret (Some d, mk_iter (at_ xs (S j)) 1 (Z.of_nat j))) (mk_state l2 m1) Q False) as Hend.
  { intros l2 Eh Et2 En2 Ec2 Hc2. eapply (wp_delete_end 0 s); try done; [by apply He2|congruence..|].
    intros s' Hs'. rewrite (proj2 (Z.eqb_neq _ _)) by (by rewrite Ety). wp_step. by apply wp_ret, HQ. }
  rewrite Emp, middle_position_eq. apply wp_bind. destruct (Z.eqb_spec (Z.of_nat k) (Z.of_nat j)) as [E|E].
  - assert (k = j) as E' by lia. destruct (before xs j) as [b|] eqn:Eb'.
    + do 2 wp_step. apply wp_update. cbn [this mem]. apply Hend; try done.
      apply Hcases. do 2 right. left. rewrite E', Eb'. split_and!; try done; cbn; congruence.
    + wp_step. apply wp_update. cbn [this mem]. apply Hend; try done.
      apply Hcases. do 3 right. rewrite E', Eb'. split_and!; try done; cbn; congruence.
  - destruct (Z.ltb_spec (Z.of_nat k) (Z.of_nat j)).
    + apply wp_update. cbn [this mem]. apply Hend; try done.
      apply Hcases. right. left. split_and!; [lia|cbn; congruence..].
    + wp_step. apply wp_update. cbn [this mem]. apply Hend; try done.
      apply Hcases. left. split_and!; [lia|cbn; congruence..].
Qed.

(** The first item equal to the data is deleted. *)
Lemma wp_find_loop cmp d fuel j (Q : option D -> state -> Prop) :
  (j <= length xs)%nat -> (length xs - j < fuel)%nat ->
  (forall i y, (i < j)%nat -> xs.*2 !! i = Some y -> cmp y d <> 0) ->
  (forall i p x s', xs !! i = Some (p, x) -> list_find (fun x => cmp x d = 0) xs.*2 = Some (i, x) ->
     deleted 0 s s' xs i p -> Q (Some x) s') ->
  (list_find (fun x => cmp x d = 0) xs.*2 = None -> Q None s) ->
  wp (find_loop fuel cmp d (mk_iter (at_ xs j) 0 (Z.of_nat j))) s Q False.
Proof using Hr Hk Hb Ht.
  pose proof (ends_linked _ _ (repr_ends _ _ _ Hr)) as Hl.
  revert j. induction fuel as [|fuel IH]; intros j Hj Hf Hno HQ HQ'; [lia|]. cbn [find_loop].
  unfold linkedlist_iterator_end_of_list. cbn [current]. destruct (decide (j < length xs)%nat) as [Hlt|].
  - destruct (at_lt xs j Hlt) as (p & x & Hx & Ha). rewrite Ha. cbn [Z.eqb]. apply wp_bind.
    unfold linkedlist_iterator_get_item. cbn [current]. wp_step; [by eapply linked_lookup|]. apply wp_ret. cbn [data].
    assert (xs.*2 !! j = Some x) as Hx2 by (by rewrite list_lookup_fmap, Hx).
    destruct (Z.eqb_spec (cmp x d) 0) as [E|E].
    + apply wp_bind. eapply wp_iterator_delete_item; [exact Hx|]. intros s' Hs'. apply wp_ret.
      eapply HQ; [exact Hx| |exact Hs']. apply list_find_Some. split_and!; [done..|].
      intros i y Hi Hij. by apply (Hno i y).
    + apply wp_bind. unfold linkedlist_iterator_next. cbn [current current_deleted current_position Z.eqb].
      wp_step; [by eapply linked_lookup|]. apply wp_ret. cbn [next]. rewrite u64_small by lia.
      replace (Z.of_nat j + 1) with (Z.of_nat (S j)) by lia. apply IH; try done; try lia.
      intros i y Hi Hy. destruct (decide (i = j)) as [-> |]; [congruence|]. apply (Hno i y); [lia|done].
  - rewrite at_None by lia. cbn [Z.eqb]. apply wp_ret, HQ'. apply list_find_None, Forall_forall.
    intros x [i Hi]%list_elem_of_lookup. apply (Hno i x); [|done].
    apply lookup_lt_Some in Hi. rewrite length_fmap in Hi. lia.
Qed.
End Position.

(** ** Deletion at the ends *)

(** The drift after the item [i] of [n] items, with the middle at [k], was taken
    from an end: it changes by one if that item was the middle. *)
Definition end_drift (e : Z) (n k i : nat) : Z :=
  if decide (n = 1%nat) then 0
  else if decide (i = k) then (if decide (i = 0%nat) then e + 1 else e - 1)
  else e.

(** The last steps of both: the list is empty, or the middle is moved. *)
Lemma wp_delete_last e s l1 m1 xs i p d r (Q : option D -> state -> Prop) :
  ends s xs -> xs !! i = Some (p, d) -> bridged (mem s) m1 xs i ->
  ends (mk_state l1 (delete p m1)) (delete_nth i xs) ->
  (delete_nth i xs = [] /\ e = 0 /\ middle l1 = None) \/ (exists k, centered 2 e k l1 (length (delete_nth i xs)) (delete_nth i xs)) ->
  item_count l1 = Z.of_nat (length xs) - 1 -> config l1 = config (this s) ->
  (forall s', deleted e s s' xs i p -> Q r s') ->
  wp (l' ← get_list;
      (match middle l' with
       | Some _ => rebalance
       | None => update (set_balance 0);; update (set_middle_position 0)
       end);;
      mret r) (mk_state l1 (delete p m1)) Q False.
Proof using.
  intros He Hi Hbr He1 Hc En Ec HQ. assert (i < length xs)%nat as Hlt by (by eapply lookup_lt_Some).
  destruct (linked_bridge _ _ _ _ _ _ (ends_linked _ _ He) Hi Hbr) as (Hl1 & Hf & _ & Hfree).
  pose proof (fun l2 => ends_same l1 l2 _ _ He1) as He2.
  assert (item_count l1 = Z.of_nat (length (delete_nth i xs))) as Hcount by (rewrite En, length_delete_nth; lia).
  wp_step. destruct Hc as [(E & -> & Em) | (k & Hc)].
  - rewrite Em. apply wp_bind. wp_step. apply wp_update, wp_ret, HQ.
    split; cbn [this mem]; try done. split; [by apply He2|done|]. rewrite E. done.
  - destruct (at_lt (delete_nth i xs) k) as (c & dc & _ & Hca); [apply Hc|]. rewrite (proj1 Hc), Hca. apply wp_bind.
    eapply wp_rebalance; [exact Hl1|exact Hc|]. cbn [this mem]. intros l' k' Hc' Ecf Eh Et En'. apply wp_ret, HQ.
    split; cbn [this mem]; try done; [|exact (eq_trans Ecf Ec)].
    eapply repr_inhabited; [by apply He2|exact (eq_trans En' Hcount)|exact Hc'].
Qed.

Section Ends.
Context e s xs k (Hr : repr e s xs) (Hk : centered 1 e k (this s) (length xs) xs) (Hb : Z.of_nat (length xs) < 2 ^ 64).

Lemma count_less : u64 (item_count (this s) + -1) = Z.of_nat (length xs) - 1.
Proof using Hr Hk Hb.
  rewrite (repr_count _ _ _ Hr). destruct Hk as (_ & Hk' & _). rewrite u64_small by lia. lia.
Qed.

Lemma wp_delete_head p d (Q : option D -> state -> Prop) :
  xs !! 0%nat = Some (p, d) ->
  (forall s', deleted (end_drift e (length xs) k 0) s s' xs 0 p -> Q (Some d) s') ->
  wp delete_head s Q False.
Proof using Hr Hk Hb.
  intros Hi HQ. pose proof (repr_ends _ _ _ Hr) as He. pose proof (ends_linked _ _ He) as Hl.
  pose proof (at_eq _ _ _ _ Hi) as Hia. pose proof count_less as Hcount.
  destruct Hk as (Hm & Hkn & Hmp & Hbal & Hrange & Hdrift).
  unfold delete_head. wp_step. rewrite (ends_head _ _ He), Hia. wp_step; [by eapply linked_lookup|]. cbn [next]. wp_step.
  apply wp_bind. destruct (decide (length xs = 1%nat)) as [E1|].
  - rewrite at_None by lia. wp_step. apply wp_update. wp_step. do 3 wp_step.
    assert (bridged (mem s) (mem s) xs 0) as Hs.
    { unfold bridged. rewrite at_None by lia. cbn [before]. bridge. }
    eapply (wp_delete_last (end_drift e (length xs) k 0) s); try done.
    + eapply ends_bridge; try done; cbn; rewrite ?at_None, ?decide_True by lia; done.
    + left. unfold end_drift. rewrite E1. split_and!; try done. apply length_zero_iff_nil. rewrite length_delete_nth; lia.
  - destruct (at_lt xs 1) as (a & da & _ & Ha); [lia|]. rewrite Ha.
    pose proof (is_Some_linked _ _ _ _ Hl Ha) as Hsa.
    assert (a <> p) as Hap by (intros ->; assert (1 = 0)%nat by (by eapply linked_inj); lia).
    wp_step; [done|]. set (m1 := alter _ a (mem s)).
    assert (bridged (mem s) m1 xs 0) as Hs.
    { unfold bridged, m1. rewrite Ha. cbn [before]. bridge. }
    destruct (linked_bridge _ _ _ _ _ _ Hl Hi Hs) as (_ & _ & Hmem & _).
    assert (end_drift e (length xs) k 0 = if decide (0%nat = k) then e + 1 else e) as Ed.
    { unfold end_drift. rewrite decide_False by done. done. }
    rewrite Hm. destruct (decide (at_ xs k = Some p)) as [E|E].
    + assert (k = 0%nat) as -> by (by eapply linked_inj). rewrite Hia. wp_step; [exact Hmem|]. cbn [next]. rewrite Ha. wp_step.
      apply wp_update. do 4 wp_step. eapply (wp_delete_last (e + 1) s); try done; [..|by rewrite Ed in HQ].
      * eapply ends_bridge; try done; cbn; by rewrite decide_False by lia.
      * right. exists 0%nat. unfold centered. rewrite length_delete_nth, at_delete_nth by lia. cbn.
        rewrite Hmp, Hbal, Ha, u64_add_l. rewrite (i8_id (_ + -1)) by lia. rewrite i8_id by lia.
        split_and!; try done; try lia. f_equal. lia.
    + assert (k <> 0%nat) by (intros ->; by apply E). apply wp_ret. do 4 wp_step.
      rewrite Ed, decide_False in HQ by lia.
      eapply (wp_delete_last e s); try done.
      * eapply ends_bridge; try done; cbn; by rewrite decide_False by lia.
      * right. exists (pred k). eapply (centered_delete_before e k 0 (this s)); try done; lia.
Qed.

Lemma wp_delete_tail j p d (Q : option D -> state -> Prop) :
  length xs = S j -> xs !! j = Some (p, d) ->
  (forall s', deleted (end_drift e (length xs) k j) s s' xs j p -> Q (Some d) s') ->
  wp delete_tail s Q False.
Proof using Hr Hk Hb.
  intros Hlen Hi HQ. pose proof (repr_ends _ _ _ Hr) as He. pose proof (ends_linked _ _ He) as Hl.
  pose proof (at_eq _ _ _ _ Hi) as Hia. pose proof count_less as Hcount.
  destruct Hk as (Hm & Hkn & Hmp & Hbal & Hrange & Hdrift).
  unfold delete_tail. wp_step. rewrite (ends_tail _ _ He), Hlen. cbn [before]. rewrite Hia.
  wp_step; [by eapply linked_lookup|]. cbn [previous]. wp_step.
  apply wp_bind. destruct j as [|j].
  - cbn [before]. wp_step. apply wp_update. wp_step. do 2 wp_step.
    assert (bridged (mem s) (mem s) xs 0) as Hs.
    { unfold bridged. rewrite at_None by lia. cbn [before]. bridge. }
    eapply (wp_delete_last (end_drift e (length xs) k 0) s); try done.
    + eapply ends_bridge; try done; cbn; rewrite ?at_None, ?decide_True by lia; done.
    + left. unfold end_drift. rewrite Hlen. split_and!; try done. apply length_zero_iff_nil. rewrite length_delete_nth; lia.
  - cbn [before]. destruct (at_lt xs j) as (b & db & _ & Hba); [lia|]. rewrite Hba.
    pose proof (is_Some_linked _ _ _ _ Hl Hba) as Hsb.
    assert (b <> p) as Hbp by (intros ->; assert (j = S j)%nat by (by eapply linked_inj); lia).
    wp_step; [done|]. set (m1 := alter _ b (mem s)).
    assert (bridged (mem s) m1 xs (S j)) as Hs.
    { unfold bridged, m1. rewrite at_None by lia. cbn [before]. rewrite Hba. bridge. }
    destruct (linked_bridge _ _ _ _ _ _ Hl Hi Hs) as (_ & _ & Hmem & _).
    assert (end_drift e (length xs) k (S j) = if decide (S j = k) then e - 1 else e) as Ed.
    { unfold end_drift. rewrite decide_False by lia. done. }
    rewrite Hm. destruct (decide (at_ xs k = Some p)) as [E|E].
    + assert (k = S j) as -> by (by eapply linked_inj). rewrite Hia. wp_step; [exact Hmem|]. cbn [previous before]. wp_step.
      rewrite Ed, decide_True in HQ by done.
      apply wp_update. do 3 wp_step. eapply (wp_delete_last (e - 1) s); try done.
      * eapply ends_bridge; try done; cbn; by rewrite Hlen, decide_True, Hba.
      * right. exists j. unfold centered. rewrite length_delete_nth, at_delete_nth by lia. cbn -[Z.of_nat].
        rewrite decide_True by lia.
        rewrite Hmp, Hbal, Hba. rewrite (i8_id (_ + 1)) by lia. rewrite i8_id by lia.
        split_and!; try done; try lia. f_equal. lia.
    + assert (k <> S j) by (intros ->; by apply E). apply wp_ret. do 3 wp_step.
      rewrite Ed, decide_False in HQ by lia.
      eapply (wp_delete_last e s); try done.
      * eapply ends_bridge; try done; cbn; by rewrite Hlen, decide_True, Hba.
      * right. exists k. eapply (centered_delete_after e k (S j) (this s)); try done; lia.
Qed.
End Ends.
End Delete.
