(* ===== verification/LinkedListClaims.v ===== *)
(** * Theorems on linked lists

    The operations on linked lists as operations on sequences: insertion and
    deletion in all places, access by position, search, iteration, copies, the
    order of sorted lists and of queues. *)

From S2P Require Import Prelude LinkedList LinkedListTheory LinkedListInsert LinkedListDelete.

Section Claims.
Context {D X : Type} `{IHP : ItemHeap D} `{IX : Indexer D X} `{IHL : !ItemHeapLaws D}.
Abbreviation list_t := (LinkedList.list_t D X).
Abbreviation state := (list_state D X).
Implicit Types (xs : list (loc * D)) (s : list_state D X) (m : items D).

(** ** Insertion and deletion *)

(** C29.  Insertion at the head, the tail, a position or in order, on a list
    with the given items: the new item is linked in at the place asked for (the
    end if the position is behind it, before the first item that is not smaller
    in a sorted list), its position is the result, the middle stays as exact
    as it was, and nothing else in memory changes.  Insertion at a position and
    in order ask for an exact middle position ([e = 0], which holds as long as
    the middle item was not taken from an end of the list; otherwise the search may
    not return, see [sorted_insert_loops]), and insertion in order for
    a list that the comparator with the new data splits into smaller items
    followed by the others.  There is memory for the item. *)
Theorem linkedlist_insert_correct e s xs d w pos p :
  repr e s xs -> Z.of_nat (length xs) + 1 < 2 ^ 64 -> malloc_item (mem s) = Some p ->
  insert_allowed e (comparator (this s)) w pos d xs.*2 ->
  let i := insert_index (comparator (this s)) w pos d xs.*2 in
  exists s', linkedlist_insert_at d w pos s = Done (Z.of_nat i, s') /\
    repr e s' (insert_nth i (p, d) xs) /\ config (this s') = config (this s) /\
    frame (p :: xs.*1) (mem s) (mem s').
Proof using IHL.
  intros Hr Hb Hm Ha i.
  assert (wp (linkedlist_insert_at d w pos) s (fun r s' => r = Z.of_nat i /\ repr e s' (insert_nth i (p, d) xs) /\
    config (this s') = config (this s) /\ frame (p :: xs.*1) (mem s) (mem s')) False) as Hwp.
  { eapply wp_insert_at; try done. intros s'. cbn zeta. 
    destruct (decide (xs = [])) as [Exs|]; [|done].
    assert (i = 0%nat) as ->; [|done]. unfold i. rewrite Exs. destruct w; cbn; try done; lia. }
  apply wp_done in Hwp as (r & s' & E & -> & H). by exists s'.
Qed.

(** Which item a deletion takes. *)
Definition delete_index (cmp : D -> D -> Z) (w : list_insert_delete_at_t) (pos : Z) (d : option D) (ds : list D)
    : option nat :=
  if (pos =? 0) && (Z.of_nat (length ds) =? 1) then Some 0%nat
  else match w with
       | LIST_DELETE_AT_HEAD => Some 0%nat
       | LIST_DELETE_AT_TAIL => Some (pred (length ds))
       | LIST_DELETE_AT_POSITION => Some (Z.to_nat pos)
       | LIST_DELETE_AT_FINDBY => d ← d; fst <$> list_find (fun x => cmp x d = 0) ds
       | _ => None
       end.

(** What the ways of deletion ask for. *)
Definition delete_allowed (e : Z) (l : list_t) (w : list_insert_delete_at_t) (d : option D) : Prop :=
  match w with
  | LIST_DELETE_AT_HEAD | LIST_DELETE_AT_TAIL => True
  | LIST_DELETE_AT_POSITION => e = 0
  | LIST_DELETE_AT_FINDBY => e = 0 /\ type l <> LIST_TYPE_INDEXEDLIST /\ d <> None
  | _ => False
  end.

Lemma wp_delete_at e s xs ok d w pos (Q : option D -> state -> Prop) :
  repr e s xs -> Z.of_nat (length xs) < 2 ^ 64 -> 0 <= pos < Z.of_nat (length xs) ->
  delete_allowed e (this s) w d -> ok = true ->
  match delete_index (default (comparator (this s)) (equality_comparator (this s))) w pos d xs.*2 with
  | Some i => forall p x e' s', xs !! i = Some (p, x) -> deleted e' s s' xs i p ->
      (w = LIST_DELETE_AT_POSITION \/ w = LIST_DELETE_AT_FINDBY -> e' = 0) -> Q (Some x) s'
  | None => Q None s
  end ->
  wp (linkedlist_delete_at ok d w pos) s Q False.
Proof using.
  intros Hr Hb Hpos Ha Hok. assert (xs <> []) as Hne by (intros ->; cbn in Hpos; lia).
  destruct (repr_centered _ _ _ Hr Hne) as [k Hk]. pose proof (repr_count _ _ _ Hr) as Hn.
  pose proof (ends_head _ _ (repr_ends _ _ _ Hr)) as Hh.
  unfold delete_index, linkedlist_delete_at. rewrite length_fmap. intros HQ. wp_step. rewrite Hn, Hh.
  destruct (at_lt xs 0) as (p0 & d0 & Hx0 & Ha0); [lia|]. rewrite Ha0.
  rewrite (proj2 (Z.leb_gt _ _)) by lia. rewrite (proj2 (Z.eqb_neq (Z.of_nat (length xs)) 0)) by lia.
  assert (bool_decide (d = None) && bool_decide (w = LIST_DELETE_AT_FINDBY) = false) as ->.
  { destruct w, d; cbn; try done. by destruct Ha as (_ & _ & []). }
  destruct ((pos =? 0) && (Z.of_nat (length xs) =? 1)) eqn:E1.
  { assert (length xs = 1%nat) as Hlen by lia. eapply wp_delete_head; [done..|]. intros s' Hs'.
    eapply HQ; [done..|]. intros _. unfold end_drift. by rewrite decide_True. }
  destruct w; try done.
  - eapply wp_delete_head; [done..|]. intros s' Hs'. eapply HQ; [done..|]. by intros [? | ?].
  - destruct (last_item xs Hne) as (j & t & dt & Hlen & Ht & _). eapply wp_delete_tail; [done..|]. rewrite Hlen in HQ.
    intros s' Hs'. eapply HQ; [done..|]. by intros [? | ?].
  - destruct d as [d|]; [|by destruct Ha as (_ & _ & [])]. destruct Ha as (-> & Hty & _).
    unfold delete_findby. wp_step. rewrite (proj2 (Z.eqb_neq _ _)) by done.
    unfold linkedlist_iterator_create. apply wp_bind. wp_step. apply wp_ret. subst ok. rewrite Hh, Hn.
    eapply (wp_find_loop s xs k Hr Hk Hb Hty _ d _ 0); [lia|lia|lia|..]; cbn in HQ.
    + intros i p x s' Hx Hf Hs'. rewrite Hf in HQ. by eapply HQ.
    + intros Hf. by rewrite Hf in HQ.
  - cbn in Ha. subst e. destruct (at_lt xs (Z.to_nat pos)) as (p & x & Hx & _); [lia|].
    eapply wp_delete_position; [done..|lia|done|]. intros s' Hs'. by eapply HQ.
Qed.

(** C30.  Deletion at the head, the tail, a position of the list or of the first
    equal item: the item is taken out of the chain and freed, its data are
    returned, the middle is exact afterwards if the place was a position or found
    by search, and nothing else in memory changes.  Deletion at a position and by
    search ask for an exact middle ([e = 0]); search is not for indexed lists.  In
    a list of more than one item a search that finds nothing changes nothing; the
    item of a list of one item is taken whatever is searched for
    ([delete_single_unmatched]). *)
Theorem linkedlist_delete_correct e s xs d w pos :
  repr e s xs -> Z.of_nat (length xs) < 2 ^ 64 -> 0 <= pos < Z.of_nat (length xs) ->
  delete_allowed e (this s) w d ->
  match delete_index (default (comparator (this s)) (equality_comparator (this s))) w pos d xs.*2 with
  | Some i => exists p x e' s', xs !! i = Some (p, x) /\
      linkedlist_delete_at true d w pos s = Done (Some x, s') /\
      repr e' s' (delete_nth i xs) /\ (w = LIST_DELETE_AT_POSITION \/ w = LIST_DELETE_AT_FINDBY -> e' = 0) /\
      config (this s') = config (this s) /\ frame xs.*1 (mem s) (mem s') /\ mem s' !! p = None
  | None => linkedlist_delete_at true d w pos s = Done (None, s)
  end.
Proof using.
  intros Hr Hb Hpos Ha.
  pose proof (fun Q => wp_delete_at e s xs true d w pos Q Hr Hb Hpos Ha eq_refl) as Hwp.
  destruct (delete_index _ w pos d xs.*2) as [i|] eqn:Ei.
  - destruct (wp_done _ _ _ (Hwp (fun r s' => exists p x e', r = Some x /\ xs !! i = Some (p, x) /\
      deleted e' s s' xs i p /\ (w = LIST_DELETE_AT_POSITION \/ w = LIST_DELETE_AT_FINDBY -> e' = 0))
      (fun p x e' s' Hx Hd He => ex_intro _ p (ex_intro _ x (ex_intro _ e' (conj eq_refl (conj Hx (conj Hd He)))))))) 
      as (r & s' & E & p & x & e' & -> & Hx & [H1 H2 H3 H4] & He). by exists p, x, e', s'.
  - destruct (wp_done _ _ _ (Hwp (fun r s' => r = None /\ s' = s) (conj eq_refl eq_refl))) as (r & s' & E & -> & ->). done.
Qed.

(** ** Access by position *)

Lemma wp_walk fuel (to_left : bool) s xs i (r : nat) (Q : option D -> state -> Prop) :
  linked (mem s) xs -> (i < length xs)%nat -> Z.of_nat (length xs) < 2 ^ 64 -> (r < fuel)%nat ->
  (if to_left then r <= i else i + r < length xs)%nat ->
  Q (xs.*2 !! (if to_left then i - r else i + r)%nat) s ->
  wp (walk fuel to_left (at_ xs i) (Z.of_nat r)) s Q False.
Proof using.
  intros Hl. revert i r. induction fuel as [|fuel IH]; intros i r Hi Hb Hf Hr HQ; [lia|]. cbn [walk].
  destruct (at_lt xs i Hi) as (p & x & Hx & Ha). rewrite Ha. wp_step; [by eapply linked_lookup|]. cbn [data next previous].
  destruct (Z.eqb_spec (Z.of_nat r) 0).
  - apply wp_ret. replace r with 0%nat in HQ by lia. rewrite Nat.sub_0_r, Nat.add_0_r in HQ.
    rewrite list_lookup_fmap in HQ. by destruct to_left; rewrite Hx in HQ.
  - destruct r as [|r]; [lia|]. rewrite u64_small by (clear -Hr Hb Hi; destruct to_left; lia).
    replace (Z.of_nat (S r) - 1) with (Z.of_nat r) by lia. destruct to_left.
    + destruct i as [|i]; [lia|]. cbn [before]. apply IH; [lia..|]. done.
    + apply IH; [lia..|]. replace (S i + r)%nat with (i + S r)%nat by lia. done.
Qed.

(** On a list whose middle is exact, [linkedlist_get_data_at_position]
    returns the data at the position, whichever of the four ways it walks, and
    [NULL] behind the end. *)
Theorem get_data_at_position_correct s xs pos :
  repr 0 s xs -> Z.of_nat (length xs) < 2 ^ 64 -> 0 <= pos ->
  linkedlist_get_data_at_position pos s = Done (xs.*2 !! Z.to_nat pos, s).
Proof using.
  intros Hr Hb Hpos.
  assert (wp (linkedlist_get_data_at_position pos) s (fun r s' => r = xs.*2 !! Z.to_nat pos /\ s' = s) False) as Hwp.
  2: { by apply wp_done in Hwp as (r & s' & E & -> & ->). }
  pose proof (repr_count _ _ _ Hr) as Hn. pose proof (repr_ends _ _ _ Hr) as [Hl Hh Ht].
  unfold linkedlist_get_data_at_position. wp_step. rewrite Hn. destruct (Z.leb_spec (Z.of_nat (length xs)) pos).
  { apply wp_ret. by rewrite lookup_ge_None_2 by (rewrite length_fmap; lia). }
  assert (xs <> []) as Hne by (intros ->; cbn in *; lia). destruct (repr_centered _ _ _ Hr Hne) as [k (Hm & Hk & Hmp & _)].
  rewrite Z.sub_0_r, u64_small in Hmp by lia. destruct (last_item xs Hne) as (j & t & dt & Hlen & _ & Hta).
  unfold walk_start. destruct (at_lt xs k Hk) as (c & dc & _ & Hca). 
  assert (before xs (length xs) = at_ xs j) as Etl by (by rewrite Hlen). rewrite Hm, Hca, <- Hca, Hmp, Hn, Hh, Ht, Etl.
  destruct (Z.leb_spec (Z.of_nat k) pos).
  - rewrite !(u64_small (pos - _)) by lia. rewrite u64_small by lia.
    destruct (Z.ltb_spec (Z.of_nat (length xs) - Z.of_nat k - (pos - Z.of_nat k) - 1) (pos - Z.of_nat k)).
    + replace (Z.of_nat (length xs) - Z.of_nat k - (pos - Z.of_nat k) - 1) with (Z.of_nat (j - Z.to_nat pos)) by lia.
      apply wp_walk; try done; try lia. replace (j - (j - Z.to_nat pos))%nat with (Z.to_nat pos) by lia. done.
    + replace (pos - Z.of_nat k) with (Z.of_nat (Z.to_nat pos - k)) by lia.
      apply wp_walk; try done; try lia. replace (k + (Z.to_nat pos - k))%nat with (Z.to_nat pos) by lia. done.
  - rewrite u64_small by lia. destruct (Z.ltb_spec (Z.of_nat k - pos) pos).
    + replace (Z.of_nat k - pos) with (Z.of_nat (k - Z.to_nat pos)) by lia.
      apply wp_walk; try done; try lia. replace (k - (k - Z.to_nat pos))%nat with (Z.to_nat pos) by lia. done.
    + replace pos with (Z.of_nat (Z.to_nat pos)) at 1 by lia. apply wp_walk; try done; lia.
Qed.

(** ** Search *)

Lemma graded_no_equal (cmp : D -> D -> Z) d (ds : list D) :
  graded cmp d ds ->
  (forall y, ds !! lower_bound cmp d ds = Some y -> cmp d y <> 0) ->
  Forall (fun x => cmp d x <> 0) ds.
Proof using.
  intros Hg Hno. apply Forall_forall. intros x [j Hj]%list_elem_of_lookup E.
  pose proof (lower_bound_spec cmp d ds Hg j x Hj) as HL.
  assert (lower_bound cmp d ds < length ds)%nat as Hlt by (apply lookup_lt_Some in Hj; lia).
  destruct (lookup_lt_is_Some_2 _ _ Hlt) as [y Hy]. destruct (decide (lower_bound cmp d ds = j)) as [E'|].
  - rewrite E' in Hy. rewrite Hj in Hy. injection Hy as <-. apply (Hno x); [by rewrite E'|done].
  - destruct Hg as [Hr Hm]. assert (cmp d x <= cmp d y) by (eapply Hm; [|done..]; lia).
    assert (-1 <= cmp d y <= 1) by (apply Hr; by eapply list_elem_of_lookup_2).
    pose proof (lower_bound_spec cmp d ds (conj Hr Hm) _ y Hy) as HLy. specialize (Hno y Hy). lia.
Qed.

(** The result of a search: a position with an equal item, or none exists. *)
Definition position_found (cmp : D -> D -> Z) d (ds : list D) (r : Z * Z) : Prop :=
  (r.1 = 0 /\ exists i x, r.2 = Z.of_nat i /\ ds !! i = Some x /\ cmp d x = 0) \/
  (r.1 <> 0 /\ Forall (fun x => cmp d x <> 0) ds).

Lemma wp_narrow_found s xs d a b n (Q : Z * option loc * Z -> state -> Prop) :
  repr 0 s xs -> Z.of_nat (length xs) < 2 ^ 64 -> graded (comparator (this s)) d xs.*2 ->
  (1 <= n)%nat -> (a + n <= length xs)%nat -> b = (a + n - 1)%nat ->
  (forall p x, xs !! a = Some (p, x) -> comparator (this s) d x = -1 -> a = 0%nat) ->
  (n = 1%nat -> a = 0%nat /\ (forall p x, xs !! a = Some (p, x) -> comparator (this s) d x = -1) \/
     length xs = S a /\ (forall p x, xs !! a = Some (p, x) -> 0 <= comparator (this s) d x)) ->
  (forall r h, position_found (comparator (this s)) d xs.*2 r -> Q (r.1, h, r.2) s) ->
  wp (linkedlist_narrow (Z.of_nat n) d (at_ xs a) (at_ xs b) (Z.of_nat a)) s Q False.
Proof using.
  intros Hr Hb Hg Hn Ha -> Hinv Hone HQ. set (cmp := comparator (this s)) in *.
  pose proof (ends_linked _ _ (repr_ends _ _ _ Hr)) as Hl.
  destruct (item_at cmp d s xs Hl Hg a) as (p & x & Hp & Hx & Hrx & Hmp & HLx); [lia|].
  assert (xs.*2 !! a = Some x) as Hx2 by (by rewrite list_lookup_fmap, Hx).
  destruct (decide (n = 1%nat)) as [E|].
  - specialize (Hone E). subst n. replace (a + 1 - 1)%nat with a by lia. unfold linkedlist_narrow. rewrite Hp.
    wp_step. rewrite decide_True by done. wp_step; [exact Hmp|]. apply wp_ret. cbn [data].
    apply (HQ (cmp d x, Z.of_nat a)). destruct (decide (cmp d x = 0)) as [E0|E0]; [left|right]; (split; [done|]).
    + by exists a, x.
    + apply graded_no_equal; [done|]. intros y Hy. destruct Hone as [[-> Hm] | [Hlen Hm]].
      * specialize (Hm _ _ Hx). replace (lower_bound cmp d xs.*2) with 0%nat in Hy by lia. congruence.
      * specialize (Hm _ _ Hx). apply lookup_lt_Some in Hy. rewrite length_fmap in Hy. lia.
  - eapply (wp_narrow cmp d s xs); try done; try lia; [apply (repr_count _ _ _ Hr)|..].
    + intros p' x' Hx' E. assert (a = 0%nat) as E0 by (by eapply Hinv). rewrite Hx' in Hx. injection Hx as -> ->. lia.
    + intros q y Hy. assert (xs.*2 !! lower_bound cmp d xs.*2 = Some y) as Hy2 by (by rewrite list_lookup_fmap, Hy).
      apply (HQ (cmp d y, _)). destruct (decide (cmp d y = 0)) as [E0|E0]; [left|right]; (split; [done|]).
      * by eexists _, y.
      * apply graded_no_equal; [done|]. intros y' Hy'. congruence.
    + intros E. apply (HQ (1, Z.of_nat a)). right. split; [done|]. apply graded_no_equal; [done|].
      intros y Hy. apply lookup_lt_Some in Hy. rewrite length_fmap in Hy. lia.
Qed.

(** [linkedlist_get_position] on a sorted list searched by its own order
    returns 0 and the position of an equal item if there is one, and something
    else if there is none. *)
Theorem get_position_sorted s xs d :
  repr 0 s xs -> Z.of_nat (length xs) < 2 ^ 64 -> type (this s) = LIST_TYPE_SORTEDLIST ->
  equality_comparator (this s) = None -> graded (comparator (this s)) d xs.*2 ->
  exists r, linkedlist_get_position d s = Done (r, s) /\ position_found (comparator (this s)) d xs.*2 r.
Proof using.
  intros Hr Hb Hty Heq Hg.
  assert (wp (linkedlist_get_position d) s (fun r s' => s' = s /\ position_found (comparator (this s)) d xs.*2 r) False) as Hwp.
  2: { apply wp_done in Hwp as (r & s' & E & -> & H). by exists r. }
  pose proof (repr_count _ _ _ Hr) as Hn. pose proof (repr_ends _ _ _ Hr) as [Hl Hh Ht].
  unfold linkedlist_get_position. wp_step. rewrite Hn, Hty, Heq.
  destruct (Z.eqb_spec (Z.of_nat (length xs)) 0) as [E0|E0].
  { apply wp_ret. split; [done|]. right. split; [done|]. destruct xs; [constructor|done]. }
  assert (xs <> []) as Hne by (intros ->; done). destruct (repr_centered _ _ _ Hr Hne) as [k (Hm & Hk & Hmp & _)].
  rewrite Z.sub_0_r, u64_small in Hmp by lia. rewrite bool_decide_true by done. cbn [Z.eqb LIST_TYPE_SORTEDLIST Pos.eqb andb].
  destruct (item_at _ d s xs Hl Hg k Hk) as (c & y & Hca & Hy & Hry & Hmy & HLy).
  rewrite Hm, Hca, Hmp. wp_step; [exact Hmy|]. cbn [data]. rewrite <- Hca.
  destruct (Z.ltb_spec (comparator (this s) d y) 0); apply wp_bind.
  - rewrite u64_small by lia. replace (Z.of_nat k + 1) with (Z.of_nat (S k)) by lia. rewrite Hh. 
    eapply (wp_narrow_found s xs d 0 k (S k)); try done; try lia.
    + intros E. left. split; [done|]. intros p x Hx. replace k with 0%nat in Hy by lia. rewrite Hx in Hy. injection Hy as <- <-. lia.
  - rewrite u64_small by lia. replace (Z.of_nat (length xs) - Z.of_nat k) with (Z.of_nat (length xs - k)) by lia.
    assert (tail (this s) = at_ xs (length xs - 1)) as ->.
    { rewrite Ht. destruct (length xs) as [|n]; [lia|]. cbn [before]. f_equal. lia. }
    eapply (wp_narrow_found s xs d k (length xs - 1) (length xs - k)); try done; try lia.
    + intros p x Hx E. rewrite Hx in Hy. injection Hy as <- <-. lia.
    + intros E. right. split; [lia|]. intros p x Hx. rewrite Hx in Hy. injection Hy as <- <-. lia.
Qed.

Lemma wp_position_loop cmp d fuel s xs j (Q : Z * Z -> state -> Prop) :
  linked (mem s) xs -> (j <= length xs)%nat -> Z.of_nat (length xs) < 2 ^ 64 -> (length xs - j < fuel)%nat ->
  (forall i y, (i < j)%nat -> xs.*2 !! i = Some y -> cmp d y <> 0) ->
  Q (match list_find (fun x => cmp d x = 0) xs.*2 with
     | Some (i, _) => (0, Z.of_nat i)
     | None => (-1, Z.of_nat (length xs))
     end) s ->
  wp (position_loop fuel cmp d (at_ xs j) (Z.of_nat j)) s Q False.
Proof using.
  intros Hl. revert j. induction fuel as [|fuel IH]; intros j Hj Hb Hf Hno HQ; [lia|]. cbn [position_loop].
  destruct (decide (j < length xs)%nat) as [Hlt|].
  - destruct (at_lt xs j Hlt) as (p & x & Hx & Ha). rewrite Ha. wp_step; [by eapply linked_lookup|]. cbn [data next].
    assert (xs.*2 !! j = Some x) as Hx2 by (by rewrite list_lookup_fmap, Hx).
    destruct (Z.eqb_spec (cmp d x) 0) as [E|E].
    + apply wp_ret. assert (list_find (fun x => cmp d x = 0) xs.*2 = Some (j, x)) as Ef; [|by rewrite Ef in HQ].
      apply list_find_Some. split_and!; [done..|]. intros i y Hi Hij. by apply (Hno i y).
    + rewrite u64_small by lia. replace (Z.of_nat j + 1) with (Z.of_nat (S j)) by lia. apply IH; try done; try lia.
      intros i y Hi Hy. destruct (decide (i = j)) as [-> |]; [congruence|]. apply (Hno i y); [lia|done].
  - rewrite at_None by lia. apply wp_ret.
    assert (list_find (fun x => cmp d x = 0) xs.*2 = None) as Ef; [|rewrite Ef in HQ; by replace j with (length xs) by lia].
    apply list_find_None, Forall_forall. intros x [i Hi]%list_elem_of_lookup. apply (Hno i x); [|done].
    apply lookup_lt_Some in Hi. rewrite length_fmap in Hi. lia.
Qed.

(** On a list that is not sorted the first equal item is found. *)
Lemma get_position_linear e s xs d :
  repr e s xs -> Z.of_nat (length xs) < 2 ^ 64 -> type (this s) <> LIST_TYPE_SORTEDLIST ->
  linkedlist_get_position d s =
    Done (match list_find (fun x => default (comparator (this s)) (equality_comparator (this s)) d x = 0) xs.*2 with
          | Some (i, _) => (0, Z.of_nat i)
          | None => (-1, Z.of_nat (length xs))
          end, s).
Proof using.
  intros Hr Hb Hty. set (cmp := default _ _). set (res := match list_find _ _ with Some _ => _ | None => _ end).
  assert (wp (linkedlist_get_position d) s (fun r s' => r = res /\ s' = s) False) as Hwp.
  2: { by apply wp_done in Hwp as (r & s' & E & -> & ->). }
  pose proof (repr_count _ _ _ Hr) as Hn. pose proof (repr_ends _ _ _ Hr) as [Hl Hh Ht].
  assert (forall fuel, (length xs < fuel)%nat -> wp (position_loop fuel cmp d (head (this s)) 0) s
    (fun r s' => r = res /\ s' = s) False) as Hloop.
  { intros fuel Hf. rewrite Hh. apply (wp_position_loop cmp d fuel s xs 0); try done; lia. }
  unfold linkedlist_get_position. wp_step. rewrite Hn.
  destruct (Z.eqb_spec (Z.of_nat (length xs)) 0) as [E0|E0].
  { apply wp_ret. split; [|done]. unfold res. destruct xs; [done|]. cbn in E0. lia. }
  rewrite (proj2 (Z.eqb_neq _ _)) by done. cbn [andb]. destruct (middle (this s)); apply Hloop; lia.
Qed.

(** ** Queues and stacks

    [list_queue_push], [list_queue_pop], [list_stack_push], [list_stack_pop]
    and [list_delete_at_tail], in any order. *)

Inductive deque_op :=
| PushHead (d : D)
| PushTail (d : D)
| PopHead
| PopTail.

Definition deque_run (op : deque_op) : cmd state (option D) :=
  match op with
  | PushHead d => linkedlist_insert_at d LIST_INSERT_AT_HEAD 0;; mret None
  | PushTail d => linkedlist_insert_at d LIST_INSERT_AT_TAIL 0;; mret None
  | PopHead => linkedlist_delete_at true None LIST_DELETE_AT_HEAD 0
  | PopTail => linkedlist_delete_at true None LIST_DELETE_AT_TAIL 0
  end.

(** The same on a sequence. *)
Definition deque_spec (op : deque_op) (q : list D) : option D * list D :=
  match op with
  | PushHead d => (None, d :: q)
  | PushTail d => (None, q ++ [d])
  | PopHead => (hd_error q, tl q)
  | PopTail => (last q, removelast q)
  end.

Fixpoint deque_specs (ops : list deque_op) (q : list D) : list (option D) * list D :=
  match ops with
  | [] => ([], q)
  | op :: ops =>
    let '(r, q) := deque_spec op q in
    let '(rs, q) := deque_specs ops q in
    (r :: rs, q)
  end.

Lemma delete_nth_last (q : list D) : q <> [] -> delete_nth (pred (length q)) q = removelast q.
Proof using.
  intros Hq. destruct (exists_last Hq) as (q' & x & ->). rewrite removelast_last, length_app. cbn.
  rewrite Nat.add_1_r. cbn [pred]. unfold delete_nth. rewrite take_app_length, drop_ge by (rewrite length_app; cbn; lia).
  apply app_nil_r.
Qed.

Lemma wp_deque_run e s xs op (Q : option D -> state -> Prop) :
  repr e s xs -> Z.of_nat (length xs) + 1 < 2 ^ 64 -> is_Some (malloc_item (mem s)) ->
  (forall e' s' xs', repr e' s' xs' -> xs'.*2 = (deque_spec op xs.*2).2 -> (length xs' <= S (length xs))%nat ->
     Q (deque_spec op xs.*2).1 s') ->
  wp (deque_run op) s Q False.
Proof using IHL.
  intros Hr Hb [p Hp] HQ.
  assert (forall d w i, xs <> [] -> delete_allowed e (this s) w None ->
    delete_index (default (comparator (this s)) (equality_comparator (this s))) w 0 None xs.*2 = Some i ->
    (deque_spec op xs.*2).1 = Some d -> xs.*2 !! i = Some d -> (deque_spec op xs.*2).2 = delete_nth i xs.*2 ->
    wp (linkedlist_delete_at true None w 0) s Q False) as Hdel.
  { intros d w i Hne Ha Hi E1 Hd E2. assert (0 < length xs)%nat by (by destruct xs; cbn; [|lia]).
    eapply wp_delete_at; try done; try lia. rewrite Hi. intros p' x e' s' Hx [H1 _ _ _] _.
    rewrite list_lookup_fmap, Hx in Hd. injection Hd as <-. rewrite E1 in HQ. eapply HQ; [exact H1|..].
    - by rewrite E2, fmap_delete_nth.
    - rewrite length_delete_nth by (by eapply lookup_lt_Some). lia. }
  destruct op as [d|d| |]; cbn [deque_run deque_spec fst snd] in *.
  - apply wp_bind. eapply wp_insert_at; try done. intros s' i Hs' _ _. subst i. cbn in Hs'. 
    assert ((if decide (xs = []) then 0%nat else 0%nat) = 0%nat) as E by (by destruct (decide (xs = []))).
    rewrite E in Hs'. apply wp_ret. eapply HQ; [exact Hs'|done|done].
  - apply wp_bind. eapply wp_insert_at; try done. intros s' i Hs' _ _. subst i. cbn in Hs'. rewrite length_fmap in Hs'.
    assert ((if decide (xs = []) then 0%nat else length xs) = length xs) as E by (by destruct (decide (xs = [])) as [-> |]).
    rewrite E in Hs'. apply wp_ret. eapply HQ; [exact Hs'|..].
    + rewrite fmap_insert_nth. unfold insert_nth. rewrite firstn_all2, drop_ge by (rewrite length_fmap; lia). done.
    + rewrite length_insert_nth. lia.
  - destruct xs as [|[p' d'] xs].
    + unfold linkedlist_delete_at. wp_step. rewrite (repr_count _ _ _ Hr). cbn. apply wp_ret. eapply HQ; [exact Hr|done|cbn; lia].
    + eapply (Hdel d' _ 0%nat); try done. unfold delete_index. by case_match.
  - destruct (decide (xs = [])) as [-> | Hne].
    + unfold linkedlist_delete_at. wp_step. rewrite (repr_count _ _ _ Hr). cbn. apply wp_ret. eapply HQ; [exact Hr|done|cbn; lia].
    + assert (xs.*2 <> []) as Hne2 by (by destruct xs). destruct (last_item xs Hne) as (j & q & x & Hlen & Hx & _).
      assert (xs.*2 !! j = Some x) as Hx2 by (by rewrite list_lookup_fmap, Hx).
      eapply (Hdel x _ j); try done.
      * unfold delete_index. rewrite length_fmap, Hlen. destruct (decide (j = 0%nat)) as [-> |]; [done|].
        by rewrite (proj2 (Z.eqb_neq (Z.of_nat (S j)) 1)) by lia.
      * rewrite last_lookup, length_fmap, Hlen. done.
      * rewrite <- delete_nth_last by done. rewrite length_fmap, Hlen. done.
Qed.

(** C31.  A list used at its ends is a double-ended queue: any sequence of
    insertions and deletions at the head and the tail, starting with an empty
    list, returns what the same operations on a sequence of data return, never
    follows a bad pointer, and leaves a list of these data, although the middle
    item moves and is deleted on the way.  There is memory for every item. *)
Theorem deque_refines ops s :
  repr 0 s [] -> Z.of_nat (length ops) + 1 < 2 ^ 64 -> (forall m, is_Some (malloc_item m)) ->
  exists e s' xs, mapM deque_run ops s = Done ((deque_specs ops []).1, s') /\ repr e s' xs /\
    xs.*2 = (deque_specs ops []).2.
Proof using IHL.
  intros Hr Hb Hmalloc.
  assert (forall ops e s xs, repr e s xs -> Z.of_nat (length xs + length ops) + 1 < 2 ^ 64 ->
    exists e' s' xs', mapM deque_run ops s = Done ((deque_specs ops xs.*2).1, s') /\ repr e' s' xs' /\
      xs'.*2 = (deque_specs ops xs.*2).2) as Hall.
  { clear - Hmalloc IHL. intros ops. induction ops as [|op ops IH]; intros e s xs Hr Hb; [by exists e, s, xs|].
    assert (wp (deque_run op) s (fun r s' => r = (deque_spec op xs.*2).1 /\ exists e' xs', repr e' s' xs' /\
      xs'.*2 = (deque_spec op xs.*2).2 /\ (length xs' <= S (length xs))%nat) False) as Hwp.
    { eapply wp_deque_run; try done; [cbn in Hb; lia|]. intros e' s' xs' H1 H2 H3. split; [done|]. by exists e', xs'. }
    apply wp_done in Hwp as (r & s1 & E & -> & e1 & xs1 & Hr1 & Hx1 & Hlen1).
    destruct (IH e1 s1 xs1 Hr1) as (e2 & s2 & xs2 & E2 & Hr2 & Hx2); [cbn in Hb; lia|].
    exists e2, s2, xs2. cbn [deque_specs mapM]. rewrite Hx1 in E2, Hx2.
    rewrite (cmd_bind_done _ _ _ _ _ E), (cmd_bind_done _ _ _ _ _ E2).
    destruct (deque_spec op xs.*2) as [r q]. cbn in *. destruct (deque_specs ops q). done. }
  apply (Hall ops 0 s []); done.
Qed.

(** ** Order *)

(** A comparator as [list_data_comparator_f] documents it: -1, 0 or 1 of a
    total preorder. *)
Record total_comparator (cmp : D -> D -> Z) : Prop := {
  tc_range a b : -1 <= cmp a b <= 1;
  tc_sym a b : cmp b a = - cmp a b;
  tc_trans a b c : cmp a b <= 0 -> cmp b c <= 0 -> cmp a c <= 0;
}.

Definition in_order (cmp : D -> D -> Z) : list D -> Prop := StronglySorted (fun a b => cmp a b <= 0).

Lemma in_order_graded cmp d ds : total_comparator cmp -> in_order cmp ds -> graded cmp d ds.
Proof using.
  intros [Hr Hs Ht] Ho. split; [intros; apply Hr|]. intros i j x y Hij Hi Hj.
  assert (cmp x y <= 0) as Hxy.
  { destruct (decide (i = j)) as [<- |]; [rewrite Hi in Hj; injection Hj as <-; specialize (Hs x x); lia|].
    assert (i < j)%nat as Hlt by lia. clear Hij n. unfold in_order in Ho.
    revert i j Hi Hj Hlt. induction Ho as [|z ds Ho IH Hz]; intros [|i] [|j] Hi Hj Hlt; try done; try lia.
    - cbn in Hi. injection Hi as ->. eapply Forall_forall in Hz; [exact Hz|]. by eapply list_elem_of_lookup_2.
    - eapply IH; [done..|lia]. }
  pose proof (Hr d x). pose proof (Hr d y). pose proof (Hs d x). pose proof (Hs d y).
  destruct (Z.le_gt_cases (cmp d y) (cmp d x)) as [|Hgt]; [done|exfalso].
  assert (cmp d x <= 0) by lia. pose proof (Ht d x y).
  assert (cmp x d <= 0); [apply (Ht x y d); lia|lia].
Qed.

Lemma in_order_insert cmp d ds :
  total_comparator cmp -> in_order cmp ds -> in_order cmp (insert_nth (lower_bound cmp d ds) d ds).
Proof using.
  intros Hc Ho. pose proof Hc as [Hr Hs Ht]. unfold in_order in *. induction Ho as [|x ds Ho IH Hx]; [by repeat constructor|].
  cbn [lower_bound]. destruct (Z.eqb_spec (cmp d x) 1) as [E|E].
  - change (insert_nth (S (lower_bound cmp d ds)) d (x :: ds)) with (x :: insert_nth (lower_bound cmp d ds) d ds).
    constructor; [done|]. rewrite insert_nth_perm. constructor; [rewrite Hs; lia|done].
  - change (insert_nth 0 d (x :: ds)) with (d :: x :: ds). pose proof (Hr d x).
    constructor; [by constructor|]. constructor; [lia|]. eapply Forall_impl; [exact Hx|]. cbn. intros y Hy. eapply Ht; [|exact Hy]. lia.
Qed.

(** Insertion into a sorted list keeps it sorted and adds the data and
    nothing else; equal data keep the newest first. *)
Theorem sorted_insert_correct s xs d p :
  repr 0 s xs -> Z.of_nat (length xs) + 1 < 2 ^ 64 -> malloc_item (mem s) = Some p ->
  total_comparator (comparator (this s)) -> in_order (comparator (this s)) xs.*2 ->
  exists r s' xs', linkedlist_insert_at d LIST_INSERT_AT_SORTED 0 s = Done (r, s') /\ repr 0 s' xs' /\
    config (this s') = config (this s) /\ in_order (comparator (this s')) xs'.*2 /\ xs'.*2 ≡ₚ d :: xs.*2 /\
    xs'.*2 !! Z.to_nat r = Some d /\
    (forall i x, (Z.to_nat r <= i)%nat -> xs.*2 !! i = Some x -> comparator (this s) d x <= 0) /\
    (forall i x, (i < Z.to_nat r)%nat -> xs.*2 !! i = Some x -> comparator (this s) d x = 1).
Proof using IHL.
  intros Hr Hb Hm Hc Ho. set (cmp := comparator (this s)) in *.
  pose proof (in_order_graded _ d _ Hc Ho) as Hg. set (i := lower_bound cmp d xs.*2).
  assert (wp (linkedlist_insert_at d LIST_INSERT_AT_SORTED 0) s (fun r s' => r = Z.of_nat i /\
    repr 0 s' (insert_nth i (p, d) xs) /\ config (this s') = config (this s)) False) as Hwp.
  { eapply wp_insert_at; try done. intros s' j. assert (j = i) as -> by (unfold j, i; by destruct (decide (xs = [])) as [-> |]).
    done. }
  apply wp_done in Hwp as (r & s' & E & -> & H1 & H2). exists (Z.of_nat i), s', (insert_nth i (p, d) xs).
  rewrite fmap_insert_nth, Nat2Z.id. cbn [snd].
  assert (comparator (this s') = cmp) as -> by (by injection H2).
  assert (i <= length xs.*2)%nat as Hi by apply lower_bound_le.
  split_and!; try done.
  - by apply in_order_insert.
  - apply insert_nth_perm.
  - rewrite lookup_insert_nth by done. by rewrite decide_False, decide_True by lia.
  - intros j x Hj Hx. pose proof (lower_bound_spec cmp d _ Hg j x Hx) as HL.
    assert (-1 <= cmp d x <= 1) by apply Hc. fold i in HL. lia.
  - intros j x Hj Hx. by apply (lower_bound_spec cmp d _ Hg j x Hx).
Qed.

(** ** Destruction and copies *)

Lemma wp_destroy_loop fuel (with_data : bool) s xs j (Q : list D -> state -> Prop) :
  (forall i p d, (j <= i)%nat -> xs !! i = Some (p, d) -> mem s !! p = Some (mk_item d (at_ xs (S i)) (before xs i))) ->
  NoDup xs.*1 -> (length xs - j < fuel)%nat ->
  (forall m' : items D, (forall i p d, (j <= i)%nat -> xs !! i = Some (p, d) -> m' !! p = None) -> frame (drop j xs.*1) (mem s) m' ->
     Q (if with_data then drop j xs.*2 else []) (mk_state (this s) m')) ->
  wp (destroy_loop fuel with_data (at_ xs j)) s Q False.
Proof using.
  revert s j Q. induction fuel as [|fuel IH]; intros s j Q Hl Hnd Hf HQ; [lia|]. cbn [destroy_loop].
  destruct (decide (j < length xs)%nat) as [Hlt|].
  - destruct (at_lt xs j Hlt) as (p & x & Hx & Ha). rewrite Ha. wp_step; [by apply (Hl j)|]. wp_step. cbn [next data].
    assert (forall i q, xs.*1 !! i = Some q -> i <> j -> q <> p) as Hdist.
    { intros i q Hi Hne ->. apply Hne. eapply (NoDup_lookup xs.*1); [done..|]. by rewrite list_lookup_fmap, Hx. }
    apply wp_bind. apply IH; try done; [|lia|].
    + intros i q d Hi Hxi. cbn. rewrite lookup_delete_ne; [apply Hl; [lia|done]|].
      apply not_eq_sym. eapply Hdist; [by rewrite list_lookup_fmap, Hxi|lia].
    + cbn [this mem]. intros m' Hfree Hframe. apply wp_ret.
      assert (drop j xs.*2 = x :: drop (S j) xs.*2) as Ed2 by (apply drop_S; by rewrite list_lookup_fmap, Hx).
      assert (drop j xs.*1 = p :: drop (S j) xs.*1) as Ed1 by (apply drop_S; by rewrite list_lookup_fmap, Hx).
      replace (if with_data then x :: if with_data then drop (S j) xs.*2 else [] else if with_data then drop (S j) xs.*2 else [])
        with (if with_data then drop j xs.*2 else []) by (destruct with_data; by rewrite ?Ed2).
      apply HQ.
      * intros i q d Hi Hxi. destruct (decide (i = j)) as [-> |]; [|by apply (Hfree i q d); [lia|]].
        rewrite Hx in Hxi. injection Hxi as <- <-. rewrite Hframe; [apply lookup_delete_eq|].
        intros (i & Hi2)%list_elem_of_lookup. rewrite lookup_drop in Hi2. eapply Hdist; [exact Hi2|lia|done].
      * intros q. rewrite Ed1. intros [Hqp Hq]%not_elem_of_cons. rewrite Hframe by done. by apply lookup_delete_ne.
  - rewrite at_None by lia. apply wp_ret. destruct s as [l m]. specialize (HQ m).
    rewrite !drop_ge in HQ by (rewrite length_fmap; lia). replace [] with (if with_data then [] else [] : list D) by (by destruct with_data).
    apply HQ; [|done]. intros i p d Hi Hx. apply lookup_lt_Some in Hx. lia.
Qed.

(** [linkedlist_destroy_with_type] frees every item once and nothing
    else, and hands the data to the destroyer in the order of the list when
    they are to be destroyed. *)
Theorem linkedlist_destroy_correct e s xs (with_data : bool) :
  repr e s xs -> exists s', linkedlist_destroy_with_type with_data s = Done (if with_data then xs.*2 else [], s') /\
    frame xs.*1 (mem s) (mem s') /\ Forall (fun p => mem s' !! p = None) xs.*1.
Proof using.
  intros Hr. pose proof (repr_ends _ _ _ Hr) as [[Hnd Hl] Hh _].
  assert (wp (linkedlist_destroy_with_type with_data) s (fun r s' => r = (if with_data then xs.*2 else []) /\
    frame xs.*1 (mem s) (mem s') /\ Forall (fun p => mem s' !! p = None) xs.*1) False) as Hwp.
  2: { apply wp_done in Hwp as (r & s' & E & -> & H). by exists s'. }
  unfold linkedlist_destroy_with_type. unfold wp. rewrite Hh.
  apply (wp_destroy_loop _ with_data s xs 0); [by intros; apply Hl|done|rewrite (repr_count _ _ _ Hr); lia|].
  intros m' Hfree Hframe. cbn [this mem]. split_and!; [done..|]. apply Forall_forall.
  intros p ([q d] & -> & [i Hi]%list_elem_of_lookup)%list_elem_of_fmap. by apply (Hfree i q d); [lia|].
Qed.

(** A list is not touched by changes of other memory. *)
Lemma repr_frame e (l : list_t) m m' ps xs :
  frame ps m m' -> (forall p, p ∈ xs.*1 -> p ∉ ps) -> repr e (mk_state l m) xs -> repr e (mk_state l m') xs.
Proof using.
  intros Hf Hd [[[Hnd Hl] Hh Ht] Hn Hm]. split; [|done..]. split; [|done..]. split; [done|]. cbn [mem] in *.
  intros i p d Hi. rewrite Hf; [by apply Hl|]. by eapply Hd, elem_at, at_eq.
Qed.

Lemma wp_on_list {A} (l' : list_t) (c : cmd state A) s (Q : A * list_t -> state -> Prop) E :
  wp c (mk_state l' (mem s)) (fun a s' => Q (a, this s') (mk_state (this s) (mem s'))) E -> wp (on_list l' c) s Q E.
Proof using. unfold wp, on_list. by destruct (c (mk_state l' (mem s))) as [[a s']| |]. Qed.

Lemma wp_duplicate_loop fuel e (l nl : list_t) m xs ys j (Q : list_t -> state -> Prop) :
  (forall m, is_Some (malloc_item m)) -> Z.of_nat (length xs) + 1 < 2 ^ 64 -> (length xs - j < fuel)%nat -> (j <= length xs)%nat ->
  repr e (mk_state l m) xs -> repr 0 (mk_state nl m) ys -> ys.*2 = take j xs.*2 -> xs.*1 ## ys.*1 ->
  (forall nl' m' ys', repr e (mk_state l m') xs -> repr 0 (mk_state nl' m') ys' -> ys'.*2 = xs.*2 -> xs.*1 ## ys'.*1 ->
     config nl' = config nl -> Q nl' (mk_state l m')) ->
  wp (duplicate_loop fuel (mk_iter (at_ xs j) 0 (Z.of_nat j)) nl) (mk_state l m) Q False.
Proof using IHL.
  intros Hmalloc Hb. revert nl m ys j. induction fuel as [|fuel IH]; intros nl m ys j Hf Hj Hr Hr' Hys Hd HQ; [lia|].
  cbn [duplicate_loop]. unfold linkedlist_iterator_end_of_list. cbn [current].
  destruct (decide (j < length xs)%nat) as [Hlt|].
  - destruct (at_lt xs j Hlt) as (p & x & Hx & Ha). rewrite Ha. cbn [Z.eqb]. apply wp_bind.
    unfold linkedlist_iterator_get_item. cbn [current]. pose proof (ends_linked _ _ (repr_ends _ _ _ Hr)) as Hl.
    wp_step; [by eapply linked_lookup|]. apply wp_ret. cbn [data]. apply wp_bind, wp_on_list. cbn [mem this].
    destruct (Hmalloc m) as [p' Hp']. assert (length ys = j) as Hlen.
    { rewrite <- (length_fmap snd), Hys, length_take, length_fmap. lia. }
    eapply wp_insert_at; [exact Hr'|lia|exact Hp'|done|]. intros s1 i Hs1 Ec Hframe. cbn [mem] in *.
    assert (i = length ys) as Ei. { unfold i. cbn. rewrite length_fmap. by destruct (decide (ys = [])) as [-> |]. }
    rewrite Ei in Hs1. clear i Ei.
    assert (p' ∉ xs.*1) as Hfresh by (eapply (linked_new m xs p' (mk_item x None None)); [done|by apply malloc_item_fresh]).
    assert (repr e (mk_state l (mem s1)) xs) as Hr1.
    { eapply repr_frame; [exact Hframe| |exact Hr]. intros q Hq [-> | Hq']%elem_of_cons; [done|by eapply Hd]. }
    apply wp_bind. unfold linkedlist_iterator_next. cbn [current current_deleted current_position Z.eqb].
    wp_step; [eapply linked_lookup; [apply (repr_ends _ _ _ Hr1)|exact Hx]|]. apply wp_ret. cbn [next].
    rewrite u64_small by lia. replace (Z.of_nat j + 1) with (Z.of_nat (S j)) by lia.
    eapply (IH _ _ (insert_nth (length ys) (p', x) ys)); try done; try lia; try by destruct s1.
    + rewrite fmap_insert_nth, Hys. cbn [snd]. unfold insert_nth. rewrite Hlen.
      rewrite firstn_all2, drop_ge by (rewrite length_take; lia). symmetry. apply take_S_r. by rewrite list_lookup_fmap, Hx.
    + intros q Hq1 Hq2. rewrite fmap_insert_nth, insert_nth_perm in Hq2. cbn [fst] in Hq2.
      apply elem_of_cons in Hq2 as [-> | Hq2]; [done|]. by eapply Hd.
    + intros nl' m' ys' H1 H2 H3 H4 H5. apply (HQ nl' m' ys'); try done. by rewrite H5.
  - rewrite at_None by lia. cbn [Z.eqb]. apply wp_ret. apply (HQ nl m ys); try done.
    rewrite Hys. apply take_ge. rewrite length_fmap. lia.
Qed.

(** A copy of a list has the same data in items of its own, and the list
    it was made of is unchanged. *)
Theorem duplicate_correct e s xs :
  repr e s xs -> Z.of_nat (length xs) + 1 < 2 ^ 64 -> (forall m, is_Some (malloc_item m)) ->
  exists nl m' ys, linkedlist_duplicate_list_with_heap true true s = Done (Some nl, mk_state (this s) m') /\
    repr e (mk_state (this s) m') xs /\ repr 0 (mk_state nl m') ys /\ ys.*2 = xs.*2 /\ xs.*1 ## ys.*1.
Proof using IHL.
  intros Hr Hb Hmalloc.
  assert (wp (linkedlist_duplicate_list_with_heap true true) s (fun r s' => exists nl m' ys, r = Some nl /\
    s' = mk_state (this s) m' /\ repr e (mk_state (this s) m') xs /\ repr 0 (mk_state nl m') ys /\ ys.*2 = xs.*2 /\
    xs.*1 ## ys.*1) False) as Hwp.
  2: { apply wp_done in Hwp as (r & s' & E & nl & m' & ys & -> & -> & H). by exists nl, m', ys. }
  unfold linkedlist_duplicate_list_with_heap. cbn [negb]. wp_step. unfold linkedlist_iterator_create. apply wp_bind. wp_step.
  apply wp_ret. apply wp_bind. rewrite (ends_head _ _ (repr_ends _ _ _ Hr)), (repr_count _ _ _ Hr). destruct s as [l m].
  apply (wp_duplicate_loop _ e l _ m xs [] 0); try done; try lia.
  - split; [split|..]; try done. split; [constructor|done].
  - by intros p Hp ?%elem_of_nil.
  - intros nl' m' ys' H1 H2 H3 H4 _. apply wp_ret. by exists nl', m', ys'.
Qed.
End Claims.

(** ** Concrete lists *)

Module ListDemo.
#[export] Instance heap : ItemHeap Z := {| malloc_item m := Some (fresh (dom m)) |}.
#[export] Instance heap_laws : ItemHeapLaws Z.
Proof. split. intros m p [= <-]. apply not_elem_of_dom, is_fresh. Qed.
#[export] Instance no_indexer : Indexer Z unit :=
  {| indexer_index x _ _ := x; indexer_search _ _ := None; indexer_delete x _ := x |}.

(** [list_default_data_comparator] on the values the data point to. *)
Definition cmp (a b : Z) : Z := if a <? b then -1 else if b <? a then 1 else 0.

Definition empty (ty : Z) : list_state Z unit :=
  mk_state (mk_list ty cmp None 0 tt None None None 0 0) ∅.

Definition items3 : list (loc * Z) := [(1%positive, 3); (2%positive, 5); (3%positive, 8)].

(** Three items in order, the second in the middle. *)
Definition sorted3 : list_state Z unit :=
  mk_state (mk_list LIST_TYPE_SORTEDLIST cmp None 3 tt (Some 1%positive) (Some 3%positive) (Some 2%positive) 1 0)
    (list_to_map [(1%positive, mk_item 3 (Some 2%positive) None);
                  (2%positive, mk_item 5 (Some 3%positive) (Some 1%positive));
                  (3%positive, mk_item 8 None (Some 2%positive))]).

Lemma empty_repr ty : repr 0 (empty ty) [].
Proof. split; [split|..]; try done. split; [constructor|done]. Qed.

Lemma sorted3_repr : repr 0 sorted3 items3.
Proof.
  apply (repr_inhabited _ _ _ 1); [|done|].
  - split; [|done..]. split; [apply (bool_decide_unpack _); vm_compute; done|].
    intros [|[|[|i]]] p d; cbn; try done; intros [= <- <-]; vm_compute; reflexivity.
  - split_and!; vm_compute; first [done|reflexivity|lia].
Qed.

Lemma cmp_total : total_comparator cmp.
Proof.
  unfold cmp. split; intros; repeat match goal with |- context [?a <? ?b] => destruct (Z.ltb_spec a b) | H : context [?a <? ?b] |- _ => destruct (Z.ltb_spec a b) end; lia.
Qed.

Lemma sorted3_in_order : in_order cmp items3.*2.
Proof. repeat constructor; cbn; done. Qed.

Definition run {A} (c : cmd (list_state Z unit) A) (s : list_state Z unit) : option A :=
  match c s with Done (a, _) => Some a | _ => None end.
End ListDemo.
#[local] Existing Instances ListDemo.heap ListDemo.heap_laws ListDemo.no_indexer.

Lemma linkedlist_insert_witness :
  exists s', linkedlist_insert_at 6 LIST_INSERT_AT_POSITION 1 ListDemo.sorted3 = Done (1, s') /\
    repr 0 s' [(1%positive, 3); (4%positive, 6); (2%positive, 5); (3%positive, 8)].
Proof.
  destruct (linkedlist_insert_correct 0 ListDemo.sorted3 ListDemo.items3 6 LIST_INSERT_AT_POSITION 1 4%positive)
    as (s' & E & H & _); [apply ListDemo.sorted3_repr|cbn; lia|vm_compute; reflexivity|split; [done|lia]|].
  exists s'. split; [exact E|exact H].
Defined.

Lemma linkedlist_delete_witness :
  exists s', linkedlist_delete_at true (Some 5) LIST_DELETE_AT_FINDBY 0 ListDemo.sorted3 = Done (Some 5, s') /\
    repr 0 s' [(1%positive, 3); (3%positive, 8)] /\ mem s' !! 2%positive = None.
Proof.
  pose proof (linkedlist_delete_correct 0 ListDemo.sorted3 ListDemo.items3 (Some 5) LIST_DELETE_AT_FINDBY 0
    ListDemo.sorted3_repr ltac:(cbn; lia) ltac:(cbn; lia) ltac:(split_and!; done)) as H.
  assert (delete_index ListDemo.cmp LIST_DELETE_AT_FINDBY 0 (Some 5) ListDemo.items3.*2 = Some 1%nat) as Hi
    by (vm_compute; reflexivity).
  cbn [this ListDemo.sorted3 equality_comparator comparator default] in H. rewrite Hi in H.
  destruct H as (p & x & e & s' & [= <- <-] & E & Hr & He & _ & _ & Hf).
  exists s'. split_and!; [exact E| |exact Hf]. rewrite He in Hr by (by right). exact Hr.
Defined.

Lemma get_data_at_position_witness :
  linkedlist_get_data_at_position 2 ListDemo.sorted3 = Done (Some 8, ListDemo.sorted3).
Proof.
  apply (get_data_at_position_correct ListDemo.sorted3 ListDemo.items3 2 ListDemo.sorted3_repr); cbn; lia.
Defined.

Lemma get_position_sorted_witness :
  exists r, linkedlist_get_position 8 ListDemo.sorted3 = Done (r, ListDemo.sorted3) /\
    position_found ListDemo.cmp 8 [3; 5; 8] r.
Proof.
  apply (get_position_sorted ListDemo.sorted3 ListDemo.items3 8 ListDemo.sorted3_repr); try done.
  apply in_order_graded; [apply ListDemo.cmp_total|apply ListDemo.sorted3_in_order].
Defined.

Lemma deque_refines_witness :
  exists e s' xs, mapM deque_run [PushTail 1; PushTail 2; PopHead; PushTail 3; PushHead 4; PopTail; PopHead]
    (ListDemo.empty LIST_TYPE_QUEUE) = Done ([None; None; Some 1; None; None; Some 3; Some 4], s') /\
    repr e s' xs /\ xs.*2 = [2].
Proof.
  apply (deque_refines [PushTail 1; PushTail 2; PopHead; PushTail 3; PushHead 4; PopTail; PopHead]
    (ListDemo.empty LIST_TYPE_QUEUE)); [apply ListDemo.empty_repr|cbn; lia|intros m; by eexists].
Defined.

Lemma sorted_insert_witness :
  exists r s' xs', linkedlist_insert_at 4 LIST_INSERT_AT_SORTED 0 ListDemo.sorted3 = Done (r, s') /\
    repr 0 s' xs' /\ in_order (comparator (this s')) xs'.*2 /\ xs'.*2 ≡ₚ [4; 3; 5; 8].
Proof.
  destruct (sorted_insert_correct ListDemo.sorted3 ListDemo.items3 4 4%positive ListDemo.sorted3_repr)
    as (r & s' & xs' & E & H1 & _ & H2 & H3 & _);
    [cbn; lia|vm_compute; reflexivity|apply ListDemo.cmp_total|apply ListDemo.sorted3_in_order|].
  by exists r, s', xs'.
Defined.

Lemma linkedlist_destroy_witness :
  exists s', linkedlist_destroy_with_type true ListDemo.sorted3 = Done ([3; 5; 8], s') /\ mem s' !! 2%positive = None.
Proof.
  destruct (linkedlist_destroy_correct 0 ListDemo.sorted3 ListDemo.items3 true ListDemo.sorted3_repr) as (s' & E & _ & Hf).
  exists s'. split; [exact E|]. apply (proj1 (Forall_forall _ _) Hf). right. left.
Defined.

Lemma duplicate_witness :
  exists nl m' ys, linkedlist_duplicate_list_with_heap true true ListDemo.sorted3 =
      Done (Some nl, mk_state (this ListDemo.sorted3) m') /\
    repr 0 (mk_state nl m') ys /\ ys.*2 = [3; 5; 8].
Proof.
  destruct (duplicate_correct 0 ListDemo.sorted3 ListDemo.items3 ListDemo.sorted3_repr) as (nl & m' & ys & E & _ & H1 & H2 & _);
    [cbn; lia|intros m; by eexists|]. exists nl, m', ys. split; [exact E|]. split; [exact H1|exact H2].
Defined.

(** ** Behaviours found *)

(** A queue of two items whose first one is taken has a wrong middle
    position: after the next insertion the data at position 0 are those of the
    second item. *)
Theorem queue_position_wrong :
  ListDemo.run
    (linkedlist_insert_at 1 LIST_INSERT_AT_TAIL 0;; linkedlist_insert_at 2 LIST_INSERT_AT_TAIL 0;;
     linkedlist_delete_at true None LIST_DELETE_AT_HEAD 0;; linkedlist_insert_at 3 LIST_INSERT_AT_TAIL 0;;
     a ← linkedlist_get_data_at_position 0; b ← linkedlist_delete_at true None LIST_DELETE_AT_HEAD 0;
     mret (a, b)) (ListDemo.empty LIST_TYPE_QUEUE) = Some (Some 3, Some 2).
Proof. vm_compute. reflexivity. Qed.

(** Once the middle position is wrong, an insertion in order may not return: a
    sorted list of four items whose first three are taken and that gets one
    more has two items, and its last one is the middle, at position 0.  The
    search for the place of the data between the two is asked to look at a range
    of one item whose ends differ, and stays there however long it runs. *)
Theorem sorted_insert_loops :
  exists r s,
    (linkedlist_insert_at 10 LIST_INSERT_AT_SORTED 0;; linkedlist_insert_at 20 LIST_INSERT_AT_SORTED 0;;
     linkedlist_insert_at 30 LIST_INSERT_AT_SORTED 0;; linkedlist_insert_at 40 LIST_INSERT_AT_SORTED 0;;
     linkedlist_delete_at true None LIST_DELETE_AT_HEAD 0;; linkedlist_delete_at true None LIST_DELETE_AT_HEAD 0;;
     linkedlist_delete_at true None LIST_DELETE_AT_HEAD 0;; linkedlist_insert_at 50 LIST_INSERT_AT_SORTED 0)
      (ListDemo.empty LIST_TYPE_SORTEDLIST) = Done (r, s) /\
    linkedlist_insert_at 45 LIST_INSERT_AT_SORTED 0 s = OutOfFuel /\
    forall fuel, narrow_loop fuel (comparator (this s)) 45 (u64 (middle_position (this s) + 1)) 0
      (head (this s)) (middle (this s)) s = OutOfFuel.
Proof.
  eexists _, _. split; [vm_compute; reflexivity|]. split; [vm_compute; reflexivity|].
  intros fuel. induction fuel as [|fuel IH]; [done|]. exact IH.
Qed.

(** A search for data that are not in a list of one item deletes that item. *)
Theorem delete_single_unmatched :
  ListDemo.run
    (linkedlist_insert_at 1 LIST_INSERT_AT_TAIL 0;; linkedlist_delete_at true (Some 7) LIST_DELETE_AT_FINDBY 0)
    (ListDemo.empty LIST_TYPE_LIST) = Some (Some 1).
Proof. vm_compute. reflexivity. Qed.

(** With an equality comparator the search of a sorted list starts at the
    middle and misses the items before it: here items are sorted by the last
    decimal digit and compared as numbers. *)
Theorem equality_search_misses :
  let by_digit a b := ListDemo.cmp (a mod 10) (b mod 10) in
  let s0 := mk_state (mk_list LIST_TYPE_SORTEDLIST by_digit (Some ListDemo.cmp) 0 tt None None None 0 0) ∅ in
  ListDemo.run
    (linkedlist_insert_at 91 LIST_INSERT_AT_SORTED 0;; linkedlist_insert_at 52 LIST_INSERT_AT_SORTED 0;;
     linkedlist_insert_at 13 LIST_INSERT_AT_SORTED 0;; linkedlist_get_position 91) s0 = Some (-1, 3).
Proof. vm_compute. reflexivity. Qed.

(** Insertion into an indexed list does not move the middle: positions are
    wrong after it. *)
Theorem indexed_insert_position_wrong :
  ListDemo.run
    (linkedlist_insert_at 1 LIST_INSERT_AT_INDEXED 0;; linkedlist_insert_at 2 LIST_INSERT_AT_INDEXED 0;;
     linkedlist_insert_at 3 LIST_INSERT_AT_INDEXED 0;; linkedlist_get_data_at_position 0)
    (ListDemo.empty LIST_TYPE_INDEXEDLIST) = Some (Some 1).
Proof. vm_compute. reflexivity. Qed.
