(* ===== verification/FrameList.v ===== *)
(** * The free list of the frame allocator as a linked list

    The allocator keeps its free blocks in a sorted list with the comparator by
    size and the equality comparator by address.  The operations that the model
    of the allocator uses on sequences are what the linked list does. *)

From S2P Require Import Prelude Frame FrameAllocator FrameTheory FrameClaims.
From S2P Require Import LinkedList LinkedListTheory LinkedListInsert LinkedListDelete LinkedListClaims.

Import RefContainers.

Section FreeList.
Context {X : Type} `{IHP : ItemHeap frame_t} `{IX : Indexer frame_t X} `{IHL : !ItemHeapLaws frame_t}.

Lemma cmp_by_size_total : total_comparator frame_allocator_cmp_by_size.
Proof using.
  unfold frame_allocator_cmp_by_size.
  split; intros; repeat match goal with
    | |- context [?a <? ?b] => destruct (Z.ltb_spec a b)
    | H : context [?a <? ?b] |- _ => destruct (Z.ltb_spec a b)
    end; lia.
Qed.

Lemma size_insert_nth f l :
  size_insert l f = insert_nth (lower_bound frame_allocator_cmp_by_size f l) f l.
Proof using.
  induction l as [|g l IH]; [done|]. cbn [size_insert lower_bound].
  pose proof (tc_range _ cmp_by_size_total f g).
  destruct (Z.leb_spec (frame_allocator_cmp_by_size f g) 0); destruct (Z.eqb_spec (frame_allocator_cmp_by_size f g) 1); try lia.
  - done.
  - by rewrite IH.
Qed.

Lemma sortedlist_delete_nth f l :
  sortedlist_delete l f =
    match list_find (fun g => frame_allocator_cmp_by_address g f = 0) l with
    | Some (i, _) => delete_nth i l
    | None => l
    end.
Proof using.
  induction l as [|g l IH]; [done|]. cbn [sortedlist_delete list_find].
  destruct (Z.eqb_spec (frame_allocator_cmp_by_address g f) 0); [by rewrite decide_True|]. rewrite decide_False by done.
  rewrite IH. by destruct (list_find _ l) as [[i h]|].
Qed.

Lemma sorted_by_size l : StronglySorted size_le l <-> in_order frame_allocator_cmp_by_size l.
Proof using.
  unfold in_order, size_le, frame_allocator_cmp_by_size.
  split; intros Hs; induction Hs as [|f l Hs IH Hf]; constructor; try done;
    (eapply Forall_impl; [exact Hf|]); cbn; intros g Hg;
    destruct (Z.ltb_spec (frame_count g) (frame_count f)), (Z.ltb_spec (frame_count f) (frame_count g)); lia.
Qed.

(** A free list of the allocator, with the given blocks. *)
Record free_list (s : list_state frame_t X) (xs : list (loc * frame_t)) : Prop := {
  fl_repr : repr 0 s xs;
  fl_comparator : comparator (this s) = frame_allocator_cmp_by_size;
  fl_equality : equality_comparator (this s) = Some frame_allocator_cmp_by_address;
  fl_type : type (this s) = LIST_TYPE_SORTEDLIST;
  fl_sorted : StronglySorted size_le xs.*2;
}.

Lemma free_list_same s s' xs' :
  comparator (this s) = frame_allocator_cmp_by_size ->
  equality_comparator (this s) = Some frame_allocator_cmp_by_address -> type (this s) = LIST_TYPE_SORTEDLIST ->
  repr 0 s' xs' -> config (this s') = config (this s) -> StronglySorted size_le xs'.*2 -> free_list s' xs'.
Proof using. intros Hc He Ht Hr Hcf Hs. injection Hcf as E1 E2 E3 _. split; [done|congruence..|done]. Qed.

Lemma free_list_insert s xs f p :
  free_list s xs -> Z.of_nat (length xs) + 1 < 2 ^ 64 -> malloc_item (mem s) = Some p -> exists r s' xs',
    linkedlist_insert_at f LIST_INSERT_AT_SORTED 0 s = Done (r, s') /\ free_list s' xs' /\
    xs'.*2 = sortedlist_insert xs.*2 f.
Proof using IHL.
  intros [Hr Hc He Ht Hs] Hb Hp. pose proof (proj1 (sorted_by_size _) Hs) as Ho.
  assert (wp (linkedlist_insert_at f LIST_INSERT_AT_SORTED 0) s (fun _ s' => config (this s') = config (this s) /\
    repr 0 s' (insert_nth (lower_bound frame_allocator_cmp_by_size f xs.*2) (p, f) xs)) False) as Hwp.
  { eapply wp_insert_at; try done.
    - intros _. split; [done|]. rewrite Hc. by apply in_order_graded; [apply cmp_by_size_total|].
    - intros s' i Hs' Ecf _. split; [done|]. unfold i in Hs'. cbn in Hs'. rewrite Hc in Hs'.
      by destruct (decide (xs = [])) as [-> |]. }
  apply wp_done in Hwp as (r & s' & E & Hcf & H). exists r, s', (insert_nth (lower_bound frame_allocator_cmp_by_size f xs.*2) (p, f) xs).
  split; [exact E|]. rewrite fmap_insert_nth. cbn [snd].
  assert (insert_nth (lower_bound frame_allocator_cmp_by_size f xs.*2) f xs.*2 = sortedlist_insert xs.*2 f) as Ei
    by (symmetry; apply size_insert_nth).
  split; [|exact Ei]. eapply (free_list_same s); try eassumption. rewrite fmap_insert_nth. cbn [snd]. rewrite Ei.
  by apply sortedlist_insert_sorted.
Qed.

Lemma delete_nth_sorted i l : StronglySorted size_le l -> StronglySorted size_le (delete_nth i l).
Proof using.
  intros Hs. revert i. induction Hs as [|f l Hs IH Hf]; intros [|i]; try (by constructor); [done|].
  change (delete_nth (S i) (f :: l)) with (f :: delete_nth i l). constructor; [apply IH|].
  unfold delete_nth. apply Forall_app. split; [by apply Forall_take|by apply Forall_drop].
Qed.

Lemma free_list_delete s xs f :
  free_list s xs -> Z.of_nat (length xs) + 1 < 2 ^ 64 ->
  Exists (fun g => frame_allocator_cmp_by_address g f = 0) xs.*2 -> exists g s' xs',
    linkedlist_delete_at true (Some f) LIST_DELETE_AT_FINDBY 0 s = Done (Some g, s') /\ free_list s' xs' /\
    frame_allocator_cmp_by_address g f = 0 /\ xs'.*2 = sortedlist_delete xs.*2 f.
Proof using IHL.
  intros [Hr Hc He Ht Hs] Hb Hex. rewrite sortedlist_delete_nth.
  destruct (list_find (fun g => frame_allocator_cmp_by_address g f = 0) xs.*2) as [[i g]|] eqn:Ef.
  2: { apply list_find_None in Ef. apply Exists_exists in Hex as (g & Hg & E). by eapply Forall_forall in Ef. }
  pose proof Ef as (Hi & Hg & _)%list_find_Some. assert (i < length xs)%nat as Hlt by (apply lookup_lt_Some in Hi; by rewrite length_fmap in Hi).
  assert (wp (linkedlist_delete_at true (Some f) LIST_DELETE_AT_FINDBY 0) s (fun r s' => r = Some g /\
    config (this s') = config (this s) /\ repr 0 s' (delete_nth i xs)) False) as Hwp.
  { eapply (wp_delete_at 0); try done; try lia; [split_and!; [done|by rewrite Ht|done]|].
    assert (delete_index (default (comparator (this s)) (equality_comparator (this s))) LIST_DELETE_AT_FINDBY 0 (Some f) xs.*2
      = Some i) as ->.
    { unfold delete_index. rewrite He, length_fmap. cbn. rewrite Ef. case_match; [|done]. f_equal. lia. }
    intros p x e' s' Hx [H1 H2 _ _] He'. rewrite list_lookup_fmap, Hx in Hi. injection Hi as ->.
    rewrite He' in H1 by (by right). done. }
  apply wp_done in Hwp as (r & s' & E & -> & Hcf & H). exists g, s', (delete_nth i xs). rewrite fmap_delete_nth.
  split_and!; [done| |done|done]. eapply (free_list_same s); try eassumption. rewrite fmap_delete_nth. by apply delete_nth_sorted.
Qed.

(** C40.  The linked list of free blocks implements the sequence the allocator
    is modelled with: [list_sortedlist_insert] is [sortedlist_insert], which
    keeps the blocks sorted by size, and [list_sortedlist_delete] of a block
    that overlaps one of the list is [sortedlist_delete]; both keep it a free
    list. *)
Theorem free_list_refines s xs f :
  free_list s xs -> Z.of_nat (length xs) + 1 < 2 ^ 64 ->
  (forall p, malloc_item (mem s) = Some p -> exists r s' xs',
     linkedlist_insert_at f LIST_INSERT_AT_SORTED 0 s = Done (r, s') /\ free_list s' xs' /\
     xs'.*2 = sortedlist_insert xs.*2 f) /\
  (Exists (fun g => frame_allocator_cmp_by_address g f = 0) xs.*2 -> exists g s' xs',
     linkedlist_delete_at true (Some f) LIST_DELETE_AT_FINDBY 0 s = Done (Some g, s') /\ free_list s' xs' /\
     frame_allocator_cmp_by_address g f = 0 /\ xs'.*2 = sortedlist_delete xs.*2 f).
Proof using IHL.
  intros Hfl Hb. split.
  - intros p Hp. by eapply free_list_insert.
  - intros Hex. by apply free_list_delete.
Qed.
End FreeList.

Module FreeListDemo.
#[export] Instance heap : ItemHeap frame_t := {| malloc_item m := Some (fresh (dom m)) |}.
#[export] Instance heap_laws : ItemHeapLaws frame_t.
Proof. split. intros m p [= <-]. apply not_elem_of_dom, is_fresh. Qed.
#[export] Instance no_indexer : Indexer frame_t unit :=
  {| indexer_index x _ _ := x; indexer_search _ _ := None; indexer_delete x _ := x |}.

(** The free list with the block of four frames. *)
Definition single : list_state frame_t unit :=
  mk_state (mk_list LIST_TYPE_SORTEDLIST frame_allocator_cmp_by_size (Some frame_allocator_cmp_by_address) 1 tt
    (Some 1%positive) (Some 1%positive) (Some 1%positive) 0 0) {[ 1%positive := mk_item demo_small None None ]}.

Lemma single_free_list : free_list single [(1%positive, demo_small)].
Proof.
  split; [|done..|by repeat constructor]. apply (repr_inhabited _ _ _ 0); [|done|].
  - split; [|done..]. split; [apply NoDup_singleton|]. intros [|i] p d; [|done]. intros [= <- <-]. done.
  - split_and!; vm_compute; first [done|reflexivity|lia].
Qed.
End FreeListDemo.
#[local] Existing Instances FreeListDemo.heap FreeListDemo.heap_laws FreeListDemo.no_indexer.

Lemma free_list_refines_witness :
  exists r s' xs', linkedlist_insert_at demo_large LIST_INSERT_AT_SORTED 0 FreeListDemo.single = Done (r, s') /\
    free_list s' xs' /\ xs'.*2 = [demo_small; demo_large].
Proof.
  destruct (free_list_refines FreeListDemo.single [(1%positive, demo_small)] demo_large FreeListDemo.single_free_list)
    as [Hi _]; [cbn; lia|]. apply (Hi 2%positive). vm_compute. reflexivity.
Defined.
