(* ===== verification/SimpleHeap.v ===== *)
(** * The simple heap ([cc/memory/memory_simple.xx.c])

    The heap keeps a header of 0x20 bytes before every block.  Free blocks are
    chained by address from [first_empty]; small ones that were freed are kept
    in 128 queues by size instead, and blocks are never joined again.

    Addresses are numbers, 0 is [NULL].  [hdrs] holds the headers that were
    written, by address.  [dirty] is the set of addresses, in steps of 0x20, at
    which the program may have left data that are not zero, and [raw] is what a
    header reads as there; other memory reads as zero.  The lock is taken by the
    callers in [cc/memory/memory.xx.c]. *)

From S2P Require Import Prelude.

Definition HEAP_INFO_FLAG_STARTEND : Z := 1.
Definition HEAP_INFO_FLAG_USED : Z := 2.
Definition HEAP_INFO_FLAG_NOTUSED : Z := 0.
Definition HEAP_INFO_FLAG_HEAP : Z := 16.
Definition HEAP_INFO_MAGIC : Z := 0xaa55.
Definition HEAP_INFO_PADDING : Z := 0xaa55aa55.

(** [sizeof(heapinfo_t)], [sizeof(memory_heap_t)], [sizeof(heapmetainfo_t)] and
    [SYNC_LOCK_SIZE]. *)
Definition SIZEOF_HEAPINFO : Z := 0x20.
Definition SIZEOF_HEAP : Z := 0x38.
Definition SIZEOF_METAINFO : Z := 0x860.
Definition SYNC_LOCK_SIZE : Z := 0x28.

Record heapinfo_t := mk_hi {
  magic : Z;
  flags : Z;
  size : Z;
  next : Z;
  previous : Z;
  padding : Z;
}.

(** [heapmetainfo_t] without its own magic, flags and padding, and the memory
    of the heap. *)
Record heap_t := mk_heap {
  first : Z;
  last : Z;
  first_empty : Z;
  last_full : Z;
  fast_classes : list (Z * Z);
  malloc_count : Z;
  free_count : Z;
  total_size : Z;
  free_size : Z;
  fast_hit : Z;
  header_count : Z;
  hdrs : gmap Z heapinfo_t;
  dirty : gset Z;
}.

Record memory_heap_stat_t := mk_stat {
  stat_malloc_count : Z;
  stat_free_count : Z;
  stat_total_size : Z;
  stat_free_size : Z;
  stat_fast_hit : Z;
  stat_header_count : Z;
}.

Section Operations.
Context (raw : Z -> heapinfo_t).

Abbreviation M := (cmd heap_t).

(** ** Headers and fields *)

Definition zero_hi : heapinfo_t := mk_hi 0 0 0 0 0 0.

Definition read_hi (h : heap_t) (a : Z) : heapinfo_t :=
  match hdrs h !! a with
  | Some hi => hi
  | None => if decide (a ∈ dirty h) then raw a else zero_hi
  end.

Definition load (a : Z) : M heapinfo_t := fun h => if a =? 0 then Halted else Done (read_hi h a, h).

Definition set_hdrs (m : gmap Z heapinfo_t) (h : heap_t) : heap_t :=
  mk_heap (first h) (last h) (first_empty h) (last_full h) (fast_classes h) (malloc_count h) (free_count h)
    (total_size h) (free_size h) (fast_hit h) (header_count h) m (dirty h).
Definition set_dirty (d : gset Z) (h : heap_t) : heap_t :=
  mk_heap (first h) (last h) (first_empty h) (last_full h) (fast_classes h) (malloc_count h) (free_count h)
    (total_size h) (free_size h) (fast_hit h) (header_count h) (hdrs h) d.
Definition set_first_empty (a : Z) (h : heap_t) : heap_t :=
  mk_heap (first h) (last h) a (last_full h) (fast_classes h) (malloc_count h) (free_count h)
    (total_size h) (free_size h) (fast_hit h) (header_count h) (hdrs h) (dirty h).
Definition set_fast_classes (c : list (Z * Z)) (h : heap_t) : heap_t :=
  mk_heap (first h) (last h) (first_empty h) (last_full h) c (malloc_count h) (free_count h)
    (total_size h) (free_size h) (fast_hit h) (header_count h) (hdrs h) (dirty h).
Definition add_free_size (n : Z) (h : heap_t) : heap_t :=
  mk_heap (first h) (last h) (first_empty h) (last_full h) (fast_classes h) (malloc_count h) (free_count h)
    (total_size h) (u64 (free_size h + n)) (fast_hit h) (header_count h) (hdrs h) (dirty h).
Definition count_malloc (h : heap_t) : heap_t :=
  mk_heap (first h) (last h) (first_empty h) (last_full h) (fast_classes h) (u64 (malloc_count h + 1)) (free_count h)
    (total_size h) (free_size h) (fast_hit h) (header_count h) (hdrs h) (dirty h).
Definition count_free (h : heap_t) : heap_t :=
  mk_heap (first h) (last h) (first_empty h) (last_full h) (fast_classes h) (malloc_count h) (u64 (free_count h + 1))
    (total_size h) (free_size h) (fast_hit h) (header_count h) (hdrs h) (dirty h).
Definition count_fast_hit (h : heap_t) : heap_t :=
  mk_heap (first h) (last h) (first_empty h) (last_full h) (fast_classes h) (malloc_count h) (free_count h)
    (total_size h) (free_size h) (u64 (fast_hit h + 1)) (header_count h) (hdrs h) (dirty h).
Definition count_header (h : heap_t) : heap_t :=
  mk_heap (first h) (last h) (first_empty h) (last_full h) (fast_classes h) (malloc_count h) (free_count h)
    (total_size h) (free_size h) (fast_hit h) (u64 (header_count h + 1)) (hdrs h) (dirty h).

Definition get_heap : M heap_t := fun h => Done (h, h).
Definition update (f : heap_t -> heap_t) : M unit := fun h => Done (tt, f h).

(** A write to fields of a header. *)
Definition store (a : Z) (f : heapinfo_t -> heapinfo_t) : M unit := fun h =>
  if a =? 0 then Halted else Done (tt, set_hdrs (<[a := f (read_hi h a)]> (hdrs h)) h).

Definition set_next (a v : Z) : M unit :=
  store a (fun hi => mk_hi (magic hi) (flags hi) (size hi) v (previous hi) (padding hi)).
Definition set_previous (a v : Z) : M unit :=
  store a (fun hi => mk_hi (magic hi) (flags hi) (size hi) (next hi) v (padding hi)).
Definition set_size (a v : Z) : M unit :=
  store a (fun hi => mk_hi (magic hi) (flags hi) v (next hi) (previous hi) (padding hi)).
Definition set_flags (a v : Z) : M unit :=
  store a (fun hi => mk_hi (magic hi) v (size hi) (next hi) (previous hi) (padding hi)).
(** The stores of magic and padding of a new header, with its flags. *)
Definition stamp (a fl : Z) : M unit :=
  store a (fun hi => mk_hi HEAP_INFO_MAGIC fl (size hi) (next hi) (previous hi) HEAP_INFO_PADDING).

(** The addresses from [a] on, in steps of 0x20. *)
Definition units (a n : Z) : gset Z := list_to_set ((fun i => a + i * SIZEOF_HEAPINFO) <$> seqZ 0 n).

(** [memory_memclean] of [n] times 0x20 bytes. *)
Definition memclean (a n : Z) (h : heap_t) : heap_t :=
  set_dirty (dirty h ∖ units a n) (set_hdrs (filter (fun p => p.1 ∉ units a n) (hdrs h)) h).

(** ** Creation *)

Definition align_up (a : Z) : Z := if a mod 0x20 =? 0 then a else u64 (a + (0x20 - a mod 0x20)).

(** The heap between two addresses that are not 0; the memory was cleaned
    first, so the test whether it is initialised already fails. *)
Definition memory_create_heap_simple (heap_start heap_end : Z) : heap_t :=
  let lock_start := align_up (u64 (heap_start + SIZEOF_HEAP)) in
  let metadata_start := align_up (u64 (lock_start + SYNC_LOCK_SIZE)) in
  let hibottom := align_up (u64 (metadata_start + SIZEOF_METAINFO)) in
  let hitop := u64 (heap_end - SIZEOF_HEAPINFO) in
  let total := u64 (heap_end - hibottom - SIZEOF_HEAPINFO * 2) in
  mk_heap hibottom hitop hibottom hitop (replicate 128 (0, 0)) 0 0 total total 0 0
    {[ hibottom := mk_hi HEAP_INFO_MAGIC (Z.lor HEAP_INFO_FLAG_STARTEND HEAP_INFO_FLAG_NOTUSED)
         (u64 ((hitop - hibottom) / SIZEOF_HEAPINFO)) 0 0 HEAP_INFO_PADDING;
       hitop := mk_hi HEAP_INFO_MAGIC (Z.lor HEAP_INFO_FLAG_STARTEND HEAP_INFO_FLAG_USED) 1 0 0 HEAP_INFO_PADDING ]}
    ∅.

(** ** The chain of free blocks *)

Fixpoint insert_full_loop (fuel : nat) (end_ item : Z) : M unit :=
  match fuel with
  | O => out_of_fuel
  | S fuel =>
    e ← load end_;
    if previous e =? 0 then
      set_previous end_ item;;
      set_next item end_
    else if item <? previous e then insert_full_loop fuel (previous e) item
    else
      set_next (previous e) item;;
      set_previous item (previous e);;
      set_next item end_;;
      set_previous end_ item
  end.

(** The last block of the chain before [item]. *)
Fixpoint insert_seek (fuel : nat) (prev item : Z) : M Z :=
  match fuel with
  | O => out_of_fuel
  | S fuel =>
    p ← load prev;
    if negb (next p =? 0) && (next p <? item) then insert_seek fuel (next p) item else mret prev
  end.

Definition memory_simple_insert_sorted (tofull : bool) (item : Z) : M unit :=
  h ← get_heap;
  let fuel := S (base.size (hdrs h)) in
  if tofull then insert_full_loop fuel (last_full h) item
  else
    let prev := first_empty h in
    if item <? prev then
      update (set_first_empty item);;
      set_next item prev;;
      set_previous prev item
    else
      prev ← insert_seek fuel prev item;
      p ← load prev;
      set_next item (next p);;
      set_next prev item;;
      set_previous item prev;;
      i ← load item;
      if next i =? 0 then mret tt else set_previous (next i) item.

(** ** Allocation *)

(** The first block of the chain that fits; 0 if there is none. *)
Fixpoint find_fit (fuel : nat) (fits : Z -> bool) (a : Z) : M Z :=
  match fuel with
  | O => out_of_fuel
  | S fuel =>
    hi ← load a;
    if fits (size hi) then mret a
    else if next hi =? 0 then mret 0
    else find_fit fuel fits (next hi)
  end.

(** A block is taken from the head of a queue. *)
Definition fast_malloc (c : nat) : M Z :=
  h ← get_heap;
  let '(head, tail) := default (0, 0) (fast_classes h !! c) in
  r ← load head;
  update (set_fast_classes (<[c := (next r, tail)]> (fast_classes h)));;
  (if next r =? 0 then mret tt else set_previous (next r) 0);;
  (if head =? tail
   then update (fun h => set_fast_classes (<[c := (next r, 0)]> (fast_classes h)) h)
   else mret tt);;
  set_previous head 0;;
  set_next head 0;;
  r ← load head;
  set_flags head (Z.lor (flags r) HEAP_INFO_FLAG_USED);;
  update (add_free_size (- u64 ((size r - 1) * SIZEOF_HEAPINFO)));;
  update count_malloc;;
  update count_fast_hit;;
  mret (u64 (head + SIZEOF_HEAPINFO)).

(** A block is taken out of the chain and becomes used. *)
Definition detach (a : Z) : M Z :=
  e ← load a;
  (if previous e =? 0 then update (set_first_empty (next e)) else set_next (previous e) (next e));;
  (if next e =? 0 then mret tt else set_previous (next e) (previous e));;
  set_previous a 0;;
  set_next a 0;;
  e ← load a;
  set_flags a (Z.lor (flags e) HEAP_INFO_FLAG_USED);;
  update (add_free_size (- u64 ((size e - 1) * SIZEOF_HEAPINFO)));;
  update count_malloc;;
  mret (u64 (a + SIZEOF_HEAPINFO)).

(** What is left of a block behind the header and [t_size] times 0x20 bytes
    becomes a free block of its own if it has room for data. *)
Definition split (a t_size : Z) : M unit :=
  e ← load a;
  let rem := u64 (size e - (t_size + 1)) in
  if 1 <? rem then
    let empty_tmp := u64 (a + (1 + t_size) * SIZEOF_HEAPINFO) in
    stamp empty_tmp HEAP_INFO_FLAG_NOTUSED;;
    set_size empty_tmp rem;;
    set_previous empty_tmp a;;
    set_next empty_tmp (next e);;
    (if next e =? 0 then mret tt else set_previous (next e) empty_tmp);;
    set_next a empty_tmp;;
    set_size a (u64 (1 + t_size));;
    update (add_free_size (- SIZEOF_HEAPINFO));;
    update count_header
  else mret tt.

(** The block is divided into a left part, the aligned block and a right part. *)
Definition malloc_aligned (a sz align : Z) : M Z :=
  let free_addr := u64 (a + SIZEOF_HEAPINFO) in
  let aligned_addr := u64 ((free_addr / align + 1) * align) in
  let hi_a := u64 (aligned_addr - SIZEOF_HEAPINFO) in
  let hi_a_size := u64 (sz / SIZEOF_HEAPINFO + (if sz mod SIZEOF_HEAPINFO =? 0 then 0 else 1)) in
  let hi_r := u64 (hi_a + (hi_a_size + 1) * SIZEOF_HEAPINFO) in
  e ← load a;
  let a_end := u64 (a + size e * SIZEOF_HEAPINFO) in
  let right_exists := u64 (hi_r + SIZEOF_HEAPINFO) <? a_end in
  (if right_exists then
     stamp hi_r HEAP_INFO_FLAG_USED;;
     set_size hi_r (u64 ((a_end - hi_r) / SIZEOF_HEAPINFO));;
     update count_header;;
     set_next hi_r (next e);;
     (if next e =? 0 then mret tt else set_previous (next e) hi_r);;
     update (add_free_size (- SIZEOF_HEAPINFO))
   else mret tt);;
  (if 1 <? (hi_a - a) / SIZEOF_HEAPINFO then
     set_size a (u64 ((hi_a - a) / SIZEOF_HEAPINFO));;
     (if previous e =? 0 then update (set_first_empty a) else mret tt);;
     (if right_exists then set_next a hi_r;; set_previous hi_r a else mret tt);;
     update (add_free_size (- SIZEOF_HEAPINFO))
   else
     (if right_exists then
        if previous e =? 0 then update (set_first_empty hi_r)
        else set_previous hi_r (previous e);; set_next (previous e) hi_r
      else
        (if previous e =? 0 then
           update (set_first_empty (next e));;
           set_previous (next e) 0
         else
           set_next (previous e) (next e);;
           set_previous (next e) (previous e));;
        update (memclean a 1));;
     update (add_free_size (- SIZEOF_HEAPINFO)));;
  stamp hi_a HEAP_INFO_FLAG_USED;;
  set_size hi_a (u64 (hi_a_size + 1));;
  update count_header;;
  update (add_free_size (- u64 (hi_a_size * SIZEOF_HEAPINFO)));;
  update count_malloc;;
  mret aligned_addr.

(** Sizes are rounded up to whole headers. *)
Definition round_up (n : Z) : Z :=
  if n mod SIZEOF_HEAPINFO =? 0 then n else u64 (n + (SIZEOF_HEAPINFO - n mod SIZEOF_HEAPINFO)).

Definition slots_of (n : Z) : Z := u64 (n + SIZEOF_HEAPINFO - 1) / SIZEOF_HEAPINFO.

Definition memory_simple_malloc_ext (sz align : Z) : M Z :=
  let sz := round_up sz in
  let align := if align =? 0 then 0 else round_up align in
  h ← get_heap;
  let fuel := S (base.size (hdrs h)) in
  let t_size := slots_of sz in
  if (if (align <=? SIZEOF_HEAPINFO) && (u64 (t_size - 1) <? 128)
      then negb ((default (0, 0) (fast_classes h !! Z.to_nat (u64 (t_size - 1)))).1 =? 0) else false)
  then fast_malloc (Z.to_nat (u64 (t_size - 1)))
  else if first_empty h =? 0 then mret 0
  else if align =? 0 then
    a ← find_fit fuel (fun n => u64 (t_size + 1) <=? n) (first_empty h);
    if a =? 0 then mret 0
    else
      split a t_size;;
      detach a
  else
    a ← find_fit fuel (fun n => n =? u64 (t_size + 1)) (first_empty h);
    if (a =? 0) || negb (u64 (a + SIZEOF_HEAPINFO) mod align =? 0) then
      let t_size := slots_of (u64 (sz + align)) in
      a ← find_fit fuel (fun n => u64 (t_size + 1) <=? n) (first_empty h);
      if a =? 0 then mret 0
      else
        split a t_size;;
        malloc_aligned a sz align
    else detach a.

(** ** Release *)

Definition free_push (c : nat) (a : Z) : M unit :=
  h ← get_heap;
  let '(head, tail) := default (0, 0) (fast_classes h !! c) in
  if tail =? 0 then update (set_fast_classes (<[c := (a, a)]> (fast_classes h)))
  else
    set_previous a tail;;
    set_next tail a;;
    update (fun h => set_fast_classes (<[c := (head, a)]> (fast_classes h)) h).

Definition memory_simple_free (address : Z) : M Z :=
  h ← get_heap;
  if address =? 0 then mret (-1)
  else if negb (address mod SIZEOF_HEAPINFO =? 0) then mret (-1)
  else if (address <? first h) || (last h <=? address) then mret (-1)
  else
    let a := u64 (address - SIZEOF_HEAPINFO) in
    hi ← load a;
    if negb (magic hi =? HEAP_INFO_MAGIC) && negb (padding hi =? HEAP_INFO_PADDING) then mret (-1)
    else if negb (Z.land (flags hi) HEAP_INFO_FLAG_USED =? HEAP_INFO_FLAG_USED) then mret 0
    else
      let n := u64 ((size hi - 1) * SIZEOF_HEAPINFO) in
      if last h <=? u64 (address + n) then mret (-1)
      else
        update (memclean address (n / SIZEOF_HEAPINFO));;
        set_flags a (Z.lxor (flags hi) HEAP_INFO_FLAG_USED);;
        set_previous a 0;;
        set_next a 0;;
        update count_free;;
        update (add_free_size n);;
        (if u64 (size hi - 2) <? 128 then free_push (Z.to_nat (u64 (size hi - 2))) a
         else memory_simple_insert_sorted false a);;
        mret 0.

Definition memory_simple_stat (h : heap_t) : memory_heap_stat_t :=
  mk_stat (malloc_count h) (free_count h) (total_size h) (free_size h) (fast_hit h) (header_count h).

(** The program writes to its memory: to the data of a block it has. *)
Definition user_write (a : Z) (h : heap_t) : heap_t := set_dirty ({[ a ]} ∪ dirty h) h.
End Operations.
