(* ===== verification/SimpleHeapTheory.v ===== *)
(** * Invariant of the simple heap

    [geo]: the blocks lie between the ends of the heap, no header lies inside
    another block, and only data of used blocks may be dirty.  [chain]: a
    doubly linked chain of headers.  [inv]: the free chain [F], the queues [C]
    and the used blocks [U] make up the heap. *)

From S2P Require Import Prelude SimpleHeap.

(** ** Chains of headers *)

Definition at0 (xs : list Z) (i : nat) : Z := default 0 (xs !! i).
Definition before0 (xs : list Z) (i : nat) : Z := match i with O => 0 | S j => at0 xs j end.
Definition links (hi : heapinfo_t) : Z * Z := (next hi, previous hi).

Record chain (m : gmap Z heapinfo_t) (xs : list Z) : Prop := {
  ch_nodup : NoDup xs;
  ch_zero : 0 ∉ xs;
  ch_links i a : xs !! i = Some a -> links <$> m !! a = Some (at0 xs (S i), before0 xs i);
}.

Lemma at0_Some xs i a : xs !! i = Some a -> at0 xs i = a.
Proof. intros E. unfold at0. by rewrite E. Qed.

Lemma at0_None xs i : (length xs <= i)%nat -> at0 xs i = 0.
Proof. intros. unfold at0. by rewrite lookup_ge_None_2. Qed.

Lemma at0_elem xs i : at0 xs i <> 0 -> xs !! i = Some (at0 xs i).
Proof. unfold at0. by destruct (xs !! i). Qed.

Lemma at0_inj xs i j : NoDup xs -> at0 xs i <> 0 -> at0 xs i = at0 xs j -> i = j.
Proof.
  intros Hnd Hi E. pose proof (at0_elem xs i Hi) as H1. rewrite E in Hi. pose proof (at0_elem xs j Hi) as H2.
  rewrite E in H1. eapply NoDup_lookup; done.
Qed.

(** A chain is not affected by changes of other headers, nor by changes of
    other fields. *)
Lemma chain_frame m m' xs :
  chain m xs -> (forall a, a ∈ xs -> links <$> m' !! a = links <$> m !! a) -> chain m' xs.
Proof.
  intros [Hnd Hz Hl] Hf. split; [done..|]. intros i a Hi. rewrite Hf by (by eapply list_elem_of_lookup_2). by apply Hl.
Qed.

Lemma chain_Some m xs i a :
  chain m xs -> xs !! i = Some a ->
  a <> 0 /\ exists hi, m !! a = Some hi /\ next hi = at0 xs (S i) /\ previous hi = before0 xs i.
Proof.
  intros [Hnd Hz Hl] Hi. split; [intros ->; apply Hz; by eapply list_elem_of_lookup_2|].
  specialize (Hl i a Hi). destruct (m !! a) as [hi|]; [|done]. exists hi. injection Hl. done.
Qed.

Lemma chain_at0 m xs i : chain m xs -> at0 xs i <> 0 -> exists hi, m !! at0 xs i = Some hi.
Proof. intros Hc Hi. destruct (chain_Some m xs i _ Hc (at0_elem _ _ Hi)) as (_ & hi & ? & _). by exists hi. Qed.

Lemma chain_nil m : chain m [].
Proof. split; [constructor|apply not_elem_of_nil|done]. Qed.

(** [xs] with [p] behind its first [i] addresses. *)
Lemma at0_insert xs i j p :
  (i <= length xs)%nat ->
  at0 (take i xs ++ p :: drop i xs) j = if decide (j < i)%nat then at0 xs j else if decide (j = i) then p else before0 xs j.
Proof.
  intros Hi. unfold at0. destruct (decide (j < i)%nat).
  { rewrite lookup_app_l by (rewrite length_take; lia). by rewrite lookup_take_lt. }
  rewrite lookup_app_r by (rewrite length_take; lia). rewrite length_take, Nat.min_l by done.
  destruct (decide (j = i)) as [-> | ]; [by rewrite Nat.sub_diag|].
  destruct (j - i)%nat as [|k] eqn:E; [lia|]. change ((p :: drop i xs) !! S k) with (drop i xs !! k).
  rewrite lookup_drop. destruct j; [lia|]. cbn. unfold at0. do 2 f_equal. lia.
Qed.

Lemma lookup_insert_at xs i j (p : Z) :
  (i <= length xs)%nat ->
  (take i xs ++ p :: drop i xs) !! j = if decide (j < i)%nat then xs !! j else if decide (j = i) then Some p else xs !! pred j.
Proof.
  intros Hi. destruct (decide (j < i)%nat).
  { rewrite lookup_app_l by (rewrite length_take; lia). by rewrite lookup_take_lt. }
  rewrite lookup_app_r by (rewrite length_take; lia). rewrite length_take, Nat.min_l by done.
  destruct (decide (j = i)) as [-> | ]; [by rewrite Nat.sub_diag|].
  destruct (j - i)%nat as [|k] eqn:E; [lia|]. change ((p :: drop i xs) !! S k) with (drop i xs !! k).
  rewrite lookup_drop. f_equal. lia.
Qed.

Lemma chain_insert m m' xs i p :
  chain m xs -> (i <= length xs)%nat -> p ∉ xs -> p <> 0 ->
  links <$> m' !! p = Some (at0 xs i, before0 xs i) ->
  (forall j a, xs !! j = Some a ->
     links <$> m' !! a = Some (if decide (S j = i) then p else at0 xs (S j), if decide (j = i) then p else before0 xs j)) ->
  chain m' (take i xs ++ p :: drop i xs).
Proof.
  intros [Hnd Hz Hl] Hi Hp Hp0 Hnew Hold.
  assert (take i xs ++ p :: drop i xs ≡ₚ p :: xs) as Hperm by (rewrite <- Permutation_middle; by rewrite take_drop).
  split; [rewrite Hperm; by constructor|rewrite Hperm; by apply not_elem_of_cons|].
  assert (forall j, before0 (take i xs ++ p :: drop i xs) j =
    if decide (j <= i)%nat then before0 xs j else if decide (j = S i) then p else before0 xs (pred j)) as Hb.
  { intros [|j]; cbn [before0]; [by rewrite decide_True by lia|]. rewrite at0_insert by done. cbn [pred].
    repeat destruct (decide _); try lia; done. }
  intros j a. rewrite lookup_insert_at, at0_insert, Hb by done.
  destruct (decide (j < i)%nat).
  - intros Hj. rewrite (Hold _ _ Hj). rewrite (decide_True (P := (j <= i)%nat)) by lia. do 2 f_equal.
    + repeat destruct (decide _); try lia; done.
    + rewrite decide_False by lia. done.
  - destruct (decide (j = i)) as [-> |].
    + intros [= <-]. rewrite Hnew. rewrite !decide_False, (decide_True (P := (i <= i)%nat)) by lia. done.
    + destruct j as [|j]; [lia|]. cbn [pred before0]. intros Hj. rewrite (Hold _ _ Hj). do 2 f_equal.
      * rewrite !decide_False by lia. done.
      * repeat destruct (decide _); try lia; done.
Qed.

(** [xs] without its [i]th address. *)
Lemma lookup_remove_at (xs : list Z) i j :
  (i < length xs)%nat -> (take i xs ++ drop (S i) xs) !! j = if decide (j < i)%nat then xs !! j else xs !! S j.
Proof.
  intros Hi. destruct (decide (j < i)%nat).
  { rewrite lookup_app_l by (rewrite length_take; lia). by rewrite lookup_take_lt. }
  rewrite lookup_app_r by (rewrite length_take; lia). rewrite length_take, Nat.min_l by lia.
  rewrite lookup_drop. f_equal. lia.
Qed.

Lemma chain_delete m m' xs i :
  chain m xs -> (i < length xs)%nat ->
  (forall j a, xs !! j = Some a -> j <> i ->
     links <$> m' !! a = Some (if decide (S j = i) then at0 xs (S i) else at0 xs (S j),
                               if decide (j = S i) then before0 xs i else before0 xs j)) ->
  chain m' (take i xs ++ drop (S i) xs).
Proof.
  intros [Hnd Hz Hl] Hi Hold.
  assert (take i xs ++ drop (S i) xs `sublist_of` xs) as Hsub by (rewrite <- delete_take_drop; apply sublist_delete).
  split; [by eapply sublist_NoDup|intros Hin; apply Hz; by eapply elem_of_submseteq, sublist_submseteq|].
  assert (forall j, at0 (take i xs ++ drop (S i) xs) j = if decide (j < i)%nat then at0 xs j else at0 xs (S j)) as Ha.
  { intros j. unfold at0. rewrite lookup_remove_at by done. by destruct (decide _). }
  assert (forall j, before0 (take i xs ++ drop (S i) xs) j = if decide (j <= i)%nat then before0 xs j else at0 xs j) as Hb.
  { intros [|k]; cbn [before0]; [by rewrite decide_True by lia|]. rewrite Ha.
    repeat destruct (decide _); try lia; done. }
  intros j a. rewrite lookup_remove_at, Ha, Hb by done.
  destruct (decide (j < i)%nat); intros Hj; rewrite (Hold _ _ Hj) by lia; do 2 f_equal;
    repeat destruct (decide _); try lia; try done; cbn [before0]; try (f_equal; lia).
Qed.

(** ** Geometry *)

Definition shape (hi : heapinfo_t) : Z * Z * Z := (magic hi, padding hi, size hi).

Record geo (lo hi_ : Z) (m : gmap Z heapinfo_t) (d : gset Z) (bs U : list Z) : Prop := {
  g_range : 0 < lo /\ lo mod 0x20 = 0 /\ hi_ mod 0x20 = 0 /\ hi_ < 2 ^ 64;
  g_nodup : NoDup bs;
  g_null : m !! 0 = None;
  g_block a : a ∈ bs -> exists sz, shape <$> m !! a = Some (HEAP_INFO_MAGIC, HEAP_INFO_PADDING, sz) /\
    lo <= a /\ a mod 0x20 = 0 /\ 2 <= sz /\ a + sz * 0x20 <= hi_;
  g_stray a i k : a ∈ bs -> m !! a = Some i -> is_Some (m !! k) -> a < k -> a + size i * 0x20 <= k;
  g_dirty k : k ∈ d -> k mod 0x20 = 0 /\ exists a i, a ∈ U /\ m !! a = Some i /\ a < k < a + size i * 0x20;
  g_used a : a ∈ U -> a ∈ bs;
}.

Lemma shape_Some (m : gmap Z heapinfo_t) a mg pd sz :
  shape <$> m !! a = Some (mg, pd, sz) -> exists i, m !! a = Some i /\ magic i = mg /\ padding i = pd /\ size i = sz.
Proof. destruct (m !! a) as [i|]; [|done]. intros [= <- <- <-]. by exists i. Qed.

Lemma geo_block lo hi_ m d bs U a :
  geo lo hi_ m d bs U -> a ∈ bs -> exists i, m !! a = Some i /\ magic i = HEAP_INFO_MAGIC /\
    padding i = HEAP_INFO_PADDING /\ lo <= a /\ a <> 0 /\ a mod 0x20 = 0 /\ 2 <= size i /\ a + size i * 0x20 <= hi_ /\
    0 < lo /\ hi_ < 2 ^ 64.
Proof.
  intros Hg Ha. destruct (g_range _ _ _ _ _ _ Hg) as (? & _ & _ & ?).
  destruct (g_block _ _ _ _ _ _ Hg a Ha) as (sz & (i & Hi & E1 & E2 & E3)%shape_Some & H1 & H2 & H3 & H4).
  exists i. split_and!; try done; lia.
Qed.

(** Two blocks do not overlap. *)
Lemma geo_disjoint lo hi_ m d bs U a b i :
  geo lo hi_ m d bs U -> a ∈ bs -> b ∈ bs -> m !! a = Some i -> a < b -> a + size i * 0x20 <= b.
Proof.
  intros Hg Ha Hb Hi Hlt. destruct (geo_block _ _ _ _ _ _ b Hg Hb) as (j & Hj & _).
  eapply (g_stray _ _ _ _ _ _ Hg); try done.
Qed.

Lemma geo_ext lo hi_ m m' d bs U :
  geo lo hi_ m d bs U -> (forall k, shape <$> m' !! k = shape <$> m !! k) -> geo lo hi_ m' d bs U.
Proof.
  intros [Hr Hnd H0 Hb Hs Hd Hu] E.
  assert (forall k i, m' !! k = Some i -> exists j, m !! k = Some j /\ size j = size i) as Hback.
  { intros k i Hk. specialize (E k). rewrite Hk in E. destruct (m !! k) as [j|]; [|done]. exists j. by injection E. }
  assert (forall k i, m !! k = Some i -> exists j, m' !! k = Some j /\ size j = size i) as Hforth.
  { intros k i Hk. specialize (E k). rewrite Hk in E. destruct (m' !! k) as [j|]; [|done]. exists j. by injection E. }
  split; try done.
  - specialize (E 0). rewrite H0 in E. by destruct (m' !! 0).
  - intros a Ha. rewrite E. by apply Hb.
  - intros a i k Ha (j & Hj & <-)%Hback [l (l' & Hl' & _)%Hback] Hlt. by eapply Hs.
  - intros k (Hm & a & i & Ha & (j & Hj & <-)%Hforth & Hk)%Hd. split; [done|]. by exists a, j.
Qed.

Lemma geo_perm lo hi_ m d bs bs' U U' :
  bs ≡ₚ bs' -> U ≡ₚ U' -> geo lo hi_ m d bs U -> geo lo hi_ m d bs' U'.
Proof.
  intros Hp Hu [Hr Hnd H0 Hb Hs Hd Hg]. split; try done.
  - by rewrite <- Hp.
  - intros a. rewrite <- Hp. apply Hb.
  - intros a i k. rewrite <- Hp. apply Hs.
  - intros k (Hm & a & i & Ha & H)%Hd. split; [done|]. exists a, i. by rewrite <- Hu.
  - intros a. rewrite <- Hu, <- Hp. apply Hg.
Qed.

(** A block becomes used. *)
Lemma geo_use lo hi_ m d bs U a : geo lo hi_ m d bs U -> a ∈ bs -> geo lo hi_ m d bs (a :: U).
Proof.
  intros [Hr Hnd H0 Hb Hs Hd Hg] Ha. split; try done.
  - intros k (Hm & b & i & Hbu & H)%Hd. split; [done|]. exists b, i. split; [by right|done].
  - intros b [-> | Hbu]%elem_of_cons; [done|by apply Hg].
Qed.

(** Its data are not dirty. *)
Lemma geo_clean lo hi_ m d bs U a i k :
  geo lo hi_ m d bs U -> a ∈ bs -> a ∉ U -> m !! a = Some i -> a < k < a + size i * 0x20 ->
  (k ∉ d) /\ m !! k = None.
Proof.
  intros Hg Ha Hn Hi Hk. split.
  - intros (_ & b & j & Hb & Hj & Hbk)%(g_dirty _ _ _ _ _ _ Hg).
    pose proof (g_used _ _ _ _ _ _ Hg b Hb) as Hbb. destruct (Z.lt_trichotomy a b) as [Hlt|[->|Hlt]]; [|done|].
    + pose proof (geo_disjoint _ _ _ _ _ _ a b i Hg Ha Hbb Hi Hlt). lia.
    + pose proof (geo_disjoint _ _ _ _ _ _ b a j Hg Hbb Ha Hj Hlt). lia.
  - destruct (m !! k) eqn:E; [|done]. pose proof (g_stray _ _ _ _ _ _ Hg a i k Ha Hi (ex_intro _ _ E)). lia.
Qed.

(** A block is split: [p] is the header of its rest. *)
Lemma geo_split lo hi_ m m' d bs U a i p n :
  geo lo hi_ m d bs U -> a ∈ bs -> a ∉ U -> m !! a = Some i -> 2 <= n -> n + 2 <= size i -> p = a + n * 0x20 ->
  (forall k, shape <$> m' !! k =
     if decide (k = p) then Some (HEAP_INFO_MAGIC, HEAP_INFO_PADDING, size i - n)
     else if decide (k = a) then Some (HEAP_INFO_MAGIC, HEAP_INFO_PADDING, n)
     else shape <$> m !! k) ->
  geo lo hi_ m' d (p :: bs) U.
Proof.
  intros Hg Ha Hau Hi Hn Hsz -> E. destruct (geo_block _ _ _ _ _ _ a Hg Ha) as (i' & Hi' & _ & _ & Hlo & _ & Hmod & _ & Hhi & _).
  rewrite Hi in Hi'. injection Hi' as <-. set (p := a + n * 0x20) in *.
  destruct (geo_clean _ _ _ _ _ _ a i p Hg Ha Hau Hi) as [Hpd Hpm]; [lia|].
  assert (p ∉ bs) as Hpb.
  { intros Hin. destruct (geo_block _ _ _ _ _ _ p Hg Hin) as (j & Hj & _). congruence. }
  assert (forall b, b ∈ bs -> b <> p) as Hbp by (intros b Hb ->; done).
  pose proof Hg as [Hr Hnd H0 Hb Hs Hd Hu].
  assert (forall k j, m' !! k = Some j -> k <> p -> k <> a -> exists j', m !! k = Some j' /\ size j' = size j) as Hback.
  { intros k j Hk H1 H2. specialize (E k). rewrite decide_False, decide_False, Hk in E by done.
    destruct (m !! k) as [j'|]; [|done]. exists j'. by injection E. }
  assert (forall j, m' !! p = Some j -> size j = size i - n) as Hp'.
  { intros j Hj. specialize (E p). rewrite decide_True, Hj in E by done. by injection E. }
  assert (forall j, m' !! a = Some j -> size j = n) as Ha'.
  { intros j Hj. specialize (E a). rewrite decide_False, decide_True, Hj in E by (done || lia). by injection E. }
  split; try done.
  - by constructor.
  - specialize (E 0). rewrite !decide_False, H0 in E by lia. by destruct (m' !! 0).
  - intros b [-> | Hbb]%elem_of_cons.
    + exists (size i - n). rewrite E, decide_True by done. split_and!; try done; try lia.
      unfold p. rewrite Z_mod_plus_full. done.
    + rewrite E, decide_False by auto. destruct (decide (b = a)) as [-> |]; [|by apply Hb].
      exists n. split_and!; try done; lia.
  - intros b j k Hbb Hj [l Hl] Hlt.
    assert (k = p \/ k = a \/ (k <> p /\ k <> a /\ is_Some (m !! k))) as Hk.
    { destruct (decide (k = p)); [by left|]. destruct (decide (k = a)); [by right; left|].
      destruct (Hback k l Hl) as (j' & Hj' & _); try done. right. right. split_and!; [done..|by exists j']. }
    apply elem_of_cons in Hbb as [-> | Hbb].
    + rewrite (Hp' _ Hj). destruct Hk as [-> | [-> | (_ & _ & Hk)]]; [lia|lia|].
      pose proof (Hs a i k Ha Hi Hk). lia.
    + destruct (decide (b = a)) as [-> |].
      * rewrite (Ha' _ Hj). destruct Hk as [-> | [-> | (_ & _ & Hk)]]; [lia|lia|].
        pose proof (Hs a i k Ha Hi Hk). lia.
      * destruct (Hback b j Hj) as (j' & Hj' & <-); [auto|done|].
        destruct Hk as [-> | [-> | (_ & _ & Hk)]]; [|by eapply Hs|by eapply Hs].
        destruct (Z.lt_trichotomy a b) as [Hab|[->|Hab]]; [|done|].
        { pose proof (Hs a i b Ha Hi (ex_intro _ _ Hj') Hab). lia. }
        { pose proof (Hs b j' a Hbb Hj' (ex_intro _ _ Hi) Hab). lia. }
  - intros k (Hkm & b & j & Hbu & Hj & Hk)%Hd. split; [done|]. assert (b <> a) by congruence. assert (b <> p) by (apply Hbp, Hu, Hbu).
    specialize (E b). rewrite !decide_False, Hj in E by done. destruct (m' !! b) as [j'|] eqn:Ej'; [|done].
    exists b, j'. split_and!; try done; injection E; lia.
  - intros b Hbu. right. by apply Hu.
Qed.

Lemma elem_of_units a n k : k ∈ units a n <-> exists i, k = a + i * 0x20 /\ 0 <= i < n.
Proof.
  unfold units. rewrite elem_of_list_to_set, list_elem_of_fmap. split.
  - intros (i & -> & Hi%elem_of_seqZ). exists i. split; [done|lia].
  - intros (i & -> & Hi). exists i. split; [done|]. apply elem_of_seqZ. lia.
Qed.

(** A block that is not used any more, after its data were cleaned. *)
Lemma geo_free lo hi_ m d bs U a i :
  geo lo hi_ m d bs (a :: U) -> m !! a = Some i -> a ∉ U ->
  geo lo hi_ m (d ∖ units (a + 0x20) (size i - 1)) bs U.
Proof.
  intros Hg Hi Ha. pose proof Hg as [Hr Hnd H0 Hb Hs Hd Hu]. split; try done.
  - intros k [Hk Hn]%elem_of_difference. destruct (Hd k Hk) as (Hm & b & j & [-> | Hbu]%elem_of_cons & Hj & Hlt).
    + exfalso. apply Hn. apply elem_of_units. exists ((k - a) / 0x20 - 1). rewrite Hi in Hj. injection Hj as <-.
      destruct (geo_block _ _ _ _ _ _ a Hg) as (_ & _ & _ & _ & _ & _ & Hma & _); [apply Hu; left|].
      assert ((k - a) mod 0x20 = 0) as Hmod by (rewrite Zminus_mod, Hm, Hma; done).
      apply Z.div_exact in Hmod; [|lia]. lia.
    + split; [done|]. by exists b, j.
  - intros b Hbu. apply Hu. by right.
Qed.

Lemma geo_hdrs_clean lo hi_ m d bs U a i :
  geo lo hi_ m d bs U -> a ∈ bs -> m !! a = Some i ->
  filter (fun p => p.1 ∉ units (a + 0x20) (size i - 1)) m = m.
Proof.
  intros Hg Ha Hi. apply map_filter_id. intros k j Hj. cbn. rewrite elem_of_units. intros (n & -> & Hn).
  pose proof (g_stray _ _ _ _ _ _ Hg a i (a + 0x20 + n * 0x20) Ha Hi (ex_intro _ _ Hj)). lia.
Qed.

(** The program writes into a block it uses. *)
Lemma geo_write lo hi_ m d bs U a i k :
  geo lo hi_ m d bs U -> a ∈ U -> m !! a = Some i -> a < k < a + size i * 0x20 -> k mod 0x20 = 0 ->
  geo lo hi_ m ({[ k ]} ∪ d) bs U.
Proof.
  intros [Hr Hnd H0 Hb Hs Hd Hu] Ha Hi Hk Hm. split; try done.
  intros k' [->%elem_of_singleton | Hk']%elem_of_union; [|by apply Hd]. split; [done|]. by exists a, i.
Qed.

(** ** The invariant *)

Definition is_used (hi : heapinfo_t) : bool := Z.land (flags hi) HEAP_INFO_FLAG_USED =? HEAP_INFO_FLAG_USED.

Record inv (h : heap_t) (F : list Z) (C : list (list Z)) (U : list Z) : Prop := {
  inv_geo : geo (first h) (last h) (hdrs h) (dirty h) (F ++ concat C ++ U) U;
  inv_empty : first_empty h = at0 F 0;
  inv_chain : chain (hdrs h) F;
  inv_sorted : StronglySorted Z.lt F;
  inv_classes : length C = 128%nat /\ length (fast_classes h) = 128%nat;
  inv_queue c q : C !! c = Some q ->
    fast_classes h !! c = Some (at0 q 0, before0 q (length q)) /\ chain (hdrs h) q /\
    (forall a i, a ∈ q -> hdrs h !! a = Some i -> size i = Z.of_nat c + 2);
  inv_free_flags a i : a ∈ F ++ concat C -> hdrs h !! a = Some i -> is_used i = false;
  inv_used_flags a i : a ∈ U -> hdrs h !! a = Some i -> is_used i = true;
}.

(** ** Rules of the commands *)

Section Rules.
Context (raw : Z -> heapinfo_t).

Lemma read_hi_Some h a i : hdrs h !! a = Some i -> read_hi raw h a = i.
Proof using. intros E. unfold read_hi. by rewrite E. Qed.

Lemma wp_get_heap h (Q : heap_t -> heap_t -> Prop) E : Q h h -> wp get_heap h Q E.
Proof using. done. Qed.

Lemma wp_update_heap f h (Q : unit -> heap_t -> Prop) E : Q tt (f h) -> wp (update f) h Q E.
Proof using. done. Qed.

Lemma wp_load_hi a i h (Q : heapinfo_t -> heap_t -> Prop) E :
  a <> 0 -> hdrs h !! a = Some i -> Q i h -> wp (load raw a) h Q E.
Proof using.
  intros Ha Hi HQ. unfold wp, load. destruct (Z.eqb_spec a 0); [done|]. by rewrite (read_hi_Some _ _ _ Hi).
Qed.

Lemma wp_store_new a f h (Q : unit -> heap_t -> Prop) E :
  a <> 0 -> Q tt (set_hdrs (<[a := f (read_hi raw h a)]> (hdrs h)) h) -> wp (store raw a f) h Q E.
Proof using. intros Ha HQ. unfold wp, store. by destruct (Z.eqb_spec a 0). Qed.

(** A write to a header that exists. *)
Lemma wp_store_hi a f h (Q : unit -> heap_t -> Prop) E :
  a <> 0 -> is_Some (hdrs h !! a) -> Q tt (set_hdrs (alter f a (hdrs h)) h) -> wp (store raw a f) h Q E.
Proof using.
  intros Ha [i Hi] HQ. apply wp_store_new; [done|]. rewrite (read_hi_Some _ _ _ Hi).
  replace (<[a := f i]> (hdrs h)) with (alter f a (hdrs h)); [done|].
  apply map_eq. intros k. rewrite lookup_alter, lookup_insert. destruct (decide (a = k)) as [<- |]; [by rewrite Hi|done].
Qed.

(** A write through a pointer that may be [NULL], where nothing is written. *)
Lemma wp_store_null a f h (Q : unit -> heap_t -> Prop) E :
  hdrs h !! 0 = None -> (a <> 0 -> is_Some (hdrs h !! a)) -> Q tt (set_hdrs (alter f a (hdrs h)) h) ->
  wp (if a =? 0 then mret tt else store raw a f) h Q E.
Proof using.
  intros H0 Ha HQ. destruct (Z.eqb_spec a 0) as [-> |]; [|by apply wp_store_hi; auto].
  apply wp_ret. replace h with (set_hdrs (alter f 0 (hdrs h)) h); [done|].
  assert (alter f 0 (hdrs h) = hdrs h) as -> by (apply alter_id; intros x; by rewrite H0). by destruct h.
Qed.
End Rules.

Lemma is_Some_alter_hi f a k (m : gmap Z heapinfo_t) : is_Some (m !! k) -> is_Some (alter f a m !! k).
Proof. rewrite lookup_alter. destruct (decide (a = k)) as [-> |]; [by intros [x ->]|done]. Qed.

Lemma null_alter f a (m : gmap Z heapinfo_t) : m !! 0 = None -> alter f a m !! 0 = None.
Proof. intros H. rewrite lookup_alter. destruct (decide (a = 0)) as [-> |]; [by rewrite H|done]. Qed.

(** Fields that a write leaves alone. *)
Lemma alter_keeps {A} (g : heapinfo_t -> A) f a k (m : gmap Z heapinfo_t) :
  (forall i, g (f i) = g i) -> g <$> alter f a m !! k = g <$> m !! k.
Proof.
  intros Hf. rewrite lookup_alter. destruct (decide (a = k)) as [-> |]; [|done].
  destruct (m !! k); cbn; [by rewrite Hf|done].
Qed.

Create HintDb heap discriminated.
#[export] Hint Resolve is_Some_alter_hi null_alter : heap.

Ltac heap_step :=
  apply wp_bind;
  lazymatch goal with
  | |- wp get_heap _ _ _ => apply wp_get_heap
  | |- wp (SimpleHeap.update _) _ _ _ => apply wp_update_heap
  | |- wp (mret _) _ _ _ => apply wp_ret
  | |- wp (SimpleHeap.load _ _) _ _ _ => eapply wp_load_hi
  | |- wp (if ?a =? 0 then mret tt else _) _ _ _ => apply wp_store_null
  | |- wp _ _ _ _ => apply wp_store_hi
  end; cbn [first last first_empty last_full fast_classes hdrs dirty set_hdrs set_dirty set_first_empty set_fast_classes
            add_free_size count_malloc count_free count_fast_hit count_header].
