(* ===== verification/SimpleHeapProps.v ===== *)
(** * Allocation and release on the simple heap *)

From S2P Require Import Prelude SimpleHeap SimpleHeapTheory.

Lemma before0_elem xs i : before0 xs i <> 0 -> exists j, i = S j /\ xs !! j = Some (before0 xs i).
Proof. destruct i as [|j]; cbn; [done|]. intros H. exists j. split; [done|]. by apply at0_elem. Qed.

(** A chain after the neighbours of its item [i] were linked to each other. *)
Lemma chain_bridge (m m' : gmap Z heapinfo_t) xs i a :
  chain m xs -> xs !! i = Some a ->
  (forall k, k <> a -> links <$> m' !! k =
     (fun l : Z * Z => (if decide (k = before0 xs i) then at0 xs (S i) else l.1,
                        if decide (k = at0 xs (S i)) then before0 xs i else l.2)) <$> (links <$> m !! k)) ->
  chain m' (take i xs ++ drop (S i) xs).
Proof.
  intros Hc Hi Hm. assert (i < length xs)%nat as Hlt by (by eapply lookup_lt_Some).
  eapply chain_delete; [done..|]. intros j b Hj Hne. destruct (chain_Some _ _ _ _ Hc Hj) as [Hb0 _].
  assert (b <> a) as Hba. { intros ->. apply Hne. eapply NoDup_lookup; [apply (ch_nodup _ _ Hc)|done..]. }
  rewrite Hm, (ch_links _ _ Hc j b Hj) by done. cbn. do 2 f_equal.
  - destruct (decide (b = before0 xs i)) as [E|E].
    + rewrite E in Hb0, Hj. destruct (before0_elem _ _ Hb0) as (j' & -> & Hj').
      assert (j' = j) as -> by (eapply NoDup_lookup; [apply (ch_nodup _ _ Hc)|done..]). by rewrite decide_True.
    + rewrite decide_False; [done|]. intros <-. apply E. cbn. symmetry. by apply at0_Some.
  - destruct (decide (b = at0 xs (S i))) as [E|E].
    + rewrite E in Hb0, Hj. assert (j = S i) as -> by (eapply NoDup_lookup; [apply (ch_nodup _ _ Hc)|exact Hj|by apply at0_elem]).
      by rewrite decide_True.
    + rewrite decide_False; [done|]. intros ->. apply E. symmetry. by apply at0_Some.
Qed.

Lemma sorted_remove_at xs i : StronglySorted Z.lt xs -> StronglySorted Z.lt (take i xs ++ drop (S i) xs).
Proof.
  intros Hs. revert i. induction Hs as [|x xs Hs IH Hx]; intros [|i]; cbn; try (by constructor); [done|].
  constructor; [apply IH|]. apply Forall_app. split; [by apply Forall_take|by apply Forall_drop].
Qed.

Lemma remove_at_perm (xs : list Z) i a : xs !! i = Some a -> xs ≡ₚ a :: (take i xs ++ drop (S i) xs).
Proof. intros Hi. rewrite <- (take_drop_middle xs i a Hi) at 1. by rewrite Permutation_middle. Qed.

(** What [malloc] does to the blocks: [a] becomes used, and its size is [n]. *)
Record allocated (h h' : heap_t) (U : list Z) (a n : Z) : Prop := {
  al_new : a ∉ U;
  al_size : exists i, hdrs h' !! a = Some i /\ size i = n;
  al_ends : first h' = first h /\ last h' = last h;
  al_inv : exists F C, inv h' F C (a :: U);
  al_dirty : dirty h' = dirty h;
  al_others b : b ∈ U -> size <$> hdrs h' !! b = size <$> hdrs h !! b;
}.

(** The memory after [a] was taken out of the chain. *)
Definition detached (m : gmap Z heapinfo_t) (F : list Z) (i : nat) (a v : Z) : gmap Z heapinfo_t :=
  alter (fun j => mk_hi (magic j) v (size j) (next j) (previous j) (padding j)) a
  (alter (fun j => mk_hi (magic j) (flags j) (size j) 0 (previous j) (padding j)) a
  (alter (fun j => mk_hi (magic j) (flags j) (size j) (next j) 0 (padding j)) a
  (alter (fun j => mk_hi (magic j) (flags j) (size j) (next j) (before0 F i) (padding j)) (at0 F (S i))
  (alter (fun j => mk_hi (magic j) (flags j) (size j) (at0 F (S i)) (previous j) (padding j)) (before0 F i) m)))).

Lemma detached_shape m F i a v k : shape <$> detached m F i a v !! k = shape <$> m !! k.
Proof. unfold detached. by rewrite !alter_keeps. Qed.

Lemma detached_flags m F i a v k : k <> a -> flags <$> detached m F i a v !! k = flags <$> m !! k.
Proof. intros Hk. unfold detached. rewrite lookup_alter_ne by done. by rewrite !alter_keeps. Qed.

Lemma detached_links m F i a v k :
  k <> a -> links <$> detached m F i a v !! k =
     (fun l : Z * Z => (if decide (k = before0 F i) then at0 F (S i) else l.1,
                        if decide (k = at0 F (S i)) then before0 F i else l.2)) <$> (links <$> m !! k).
Proof.
  intros Hk. unfold detached. rewrite !(lookup_alter_ne _ _ a) by done. rewrite !lookup_alter.
  destruct (decide (at0 F (S i) = k)) as [E1|], (decide (before0 F i = k)) as [E2|];
    rewrite ?E1, ?E2; repeat destruct (decide _); try congruence; by destruct (m !! k).
Qed.

(** Free and used headers after one was marked. *)
Lemma queues_frame m m' (C : list (list Z)) (fc : list (Z * Z)) c q :
  (forall k, k ∈ concat C -> links <$> m' !! k = links <$> m !! k) ->
  (forall k, size <$> m' !! k = size <$> m !! k) ->
  C !! c = Some q ->
  chain m q /\ (forall a i, a ∈ q -> m !! a = Some i -> size i = Z.of_nat c + 2) ->
  chain m' q /\ (forall a i, a ∈ q -> m' !! a = Some i -> size i = Z.of_nat c + 2).
Proof.
  intros Hl Hsz Hc [Hch Hs]. split.
  - eapply chain_frame; [done|]. intros a Ha. apply Hl. apply list_elem_of_In, in_concat. exists q.
    split; apply list_elem_of_In; [by eapply list_elem_of_lookup_2|done].
  - intros a i Ha Hi. specialize (Hsz a). rewrite Hi in Hsz. destruct (m !! a) as [j|] eqn:Ej; [|done].
    injection Hsz as ->. by eapply Hs.
Qed.

(** A free block [a] became used, and its header was taken out of its chain. *)
Lemma inv_taken h h' F F' C C' U a :
  inv h F C U -> F ++ concat C ≡ₚ a :: (F' ++ concat C') ->
  first h' = first h -> last h' = last h -> dirty h' = dirty h ->
  (forall k, shape <$> hdrs h' !! k = shape <$> hdrs h !! k) ->
  (forall k, k <> a -> flags <$> hdrs h' !! k = flags <$> hdrs h !! k) ->
  (forall i, hdrs h' !! a = Some i -> is_used i = true) ->
  first_empty h' = at0 F' 0 -> chain (hdrs h') F' -> StronglySorted Z.lt F' ->
  length C' = 128%nat -> length (fast_classes h') = 128%nat ->
  (forall c q, C' !! c = Some q ->
     fast_classes h' !! c = Some (at0 q 0, before0 q (length q)) /\ chain (hdrs h') q /\
     (forall b i, b ∈ q -> hdrs h' !! b = Some i -> size i = Z.of_nat c + 2)) ->
  inv h' F' C' (a :: U).
Proof.
  intros [Hg He Hc Hs Hcl Hq Hff Huf] Hperm E1 E2 E3 Hshape Hflags Hused Hfe Hch Hso Hl1 Hl2 Hqs.
  assert (F ++ concat C ++ U ≡ₚ F' ++ concat C' ++ a :: U) as Hp.
  { rewrite app_assoc, Hperm. cbn. rewrite app_assoc. rewrite <- Permutation_middle. by rewrite <- app_assoc. }
  assert (a ∈ F ++ concat C ++ U) as Hin by (rewrite Hp, !elem_of_app, elem_of_cons; auto).
  assert (forall b i, hdrs h' !! b = Some i -> b <> a -> exists j, hdrs h !! b = Some j /\ is_used i = is_used j) as Hback.
  { intros b i Hb Hba. specialize (Hflags b Hba). rewrite Hb in Hflags. destruct (hdrs h !! b) as [j|]; [|done].
    exists j. split; [done|]. unfold is_used. by injection Hflags as ->. }
  pose proof (g_nodup _ _ _ _ _ _ Hg) as Hnd. rewrite Hp in Hnd.
  split; try done.
  - rewrite E1, E2, E3. eapply (geo_perm _ _ _ _ (F ++ concat C ++ U) _ (a :: U)); [done|done|].
    eapply geo_ext; [|exact Hshape]. by apply geo_use.
  - intros b i Hb Hi. rewrite app_assoc in Hnd. apply NoDup_app in Hnd as (_ & Hd & _).
    assert (b <> a) as Hba by (intros ->; apply (Hd a Hb); left).
    destruct (Hback b i Hi Hba) as (j & Hj & ->). eapply Hff; [|exact Hj]. rewrite Hperm. by right.
  - intros b i [-> | Hb]%elem_of_cons Hi; [by apply Hused|].
    assert (b <> a) as Hba.
    { intros ->. rewrite !NoDup_app, NoDup_cons in Hnd. tauto. }
    destruct (Hback b i Hi Hba) as (j & Hj & ->). by eapply Huf.
Qed.

Lemma shape_size h h' : (forall k, shape <$> hdrs h' !! k = shape <$> hdrs h !! k) ->
  forall k, size <$> hdrs h' !! k = size <$> hdrs h !! k.
Proof.
  intros H k. specialize (H k). destruct (hdrs h' !! k), (hdrs h !! k); try done. cbn in *. by injection H as _ _ ->.
Qed.

Lemma used_lor fl : Z.land (Z.lor fl HEAP_INFO_FLAG_USED) HEAP_INFO_FLAG_USED = HEAP_INFO_FLAG_USED.
Proof.
  apply Z.bits_inj'. intros n Hn. rewrite Z.land_spec, Z.lor_spec. by destruct (Z.testbit fl n), (Z.testbit HEAP_INFO_FLAG_USED n).
Qed.

(** The memory after the rest [p] of the block [a], before [b] in the chain, was
    made a block. *)
Definition split_mem (m : gmap Z heapinfo_t) (a b p n rem : Z) : gmap Z heapinfo_t :=
  alter (fun j => mk_hi (magic j) (flags j) n (next j) (previous j) (padding j)) a
  (alter (fun j => mk_hi (magic j) (flags j) (size j) p (previous j) (padding j)) a
  (alter (fun j => mk_hi (magic j) (flags j) (size j) (next j) p (padding j)) b
  (<[p := mk_hi HEAP_INFO_MAGIC HEAP_INFO_FLAG_NOTUSED rem b a HEAP_INFO_PADDING]> m))).

Section SplitMem.
Context (m : gmap Z heapinfo_t) (a b p n rem : Z) (Hap : a <> p) (Hbp : b <> p) (Hab : b <> a).

Lemma split_lookup k :
  split_mem m a b p n rem !! k =
    if decide (k = p) then Some (mk_hi HEAP_INFO_MAGIC HEAP_INFO_FLAG_NOTUSED rem b a HEAP_INFO_PADDING)
    else if decide (k = a) then (fun j => mk_hi (magic j) (flags j) n p (previous j) (padding j)) <$> m !! k
    else if decide (k = b) then (fun j => mk_hi (magic j) (flags j) (size j) (next j) p (padding j)) <$> m !! k
    else m !! k.
Proof using Hap Hbp Hab.
  unfold split_mem. destruct (decide (k = p)) as [-> |].
  { by rewrite !lookup_alter_ne, lookup_insert_eq by done. }
  destruct (decide (k = a)) as [-> |].
  { rewrite !lookup_alter_eq, lookup_alter_ne, lookup_insert_ne by done. by destruct (m !! a). }
  rewrite !(lookup_alter_ne _ _ a) by done. destruct (decide (k = b)) as [-> |].
  { by rewrite lookup_alter_eq, lookup_insert_ne by done. }
  by rewrite lookup_alter_ne, lookup_insert_ne by done.
Qed.
End SplitMem.

Lemma sorted_insert_after xs i a p :
  StronglySorted Z.lt xs -> xs !! i = Some a -> a < p -> (forall b, xs !! S i = Some b -> p < b) ->
  StronglySorted Z.lt (take (S i) xs ++ p :: drop (S i) xs).
Proof.
  intros Hs. revert i. induction Hs as [|x xs Hs IH Hx]; intros i Hi Hap Hpb; [done|].
  destruct i as [|i].
  - injection Hi as ->. cbn. rewrite drop_0 in *. assert (Forall (Z.lt p) xs) as Hp.
    { destruct xs as [|y xs]; [constructor|]. assert (p < y) by (by apply Hpb). constructor; [done|].
      apply StronglySorted_inv in Hs as [_ Hs]. eapply Forall_impl; [exact Hs|]. cbn. lia. }
    constructor; [by constructor|]. constructor; [done|]. eapply Forall_impl; [exact Hp|]. cbn. lia.
  - cbn. constructor; [by apply IH|]. rewrite Forall_app, Forall_cons. split_and!; [by apply Forall_take| |by apply Forall_drop].
    assert (x < a); [|lia]. apply (proj1 (Forall_forall _ _) Hx). by eapply list_elem_of_lookup_2.
Qed.

(** The next free block lies behind the end of a free block. *)
Lemma next_above h F C U i a hi b :
  inv h F C U -> F !! i = Some a -> hdrs h !! a = Some hi -> F !! S i = Some b -> a < b /\ a + size hi * 0x20 <= b.
Proof.
  intros [Hg _ _ Hs _ _ _ _] Hi Hhi Hb. assert (a < b) as Hlt.
  { clear -Hs Hi Hb. revert i Hi Hb. induction Hs as [|x xs Hs IH Hx]; intros [|i] Hi Hb; try done.
    - injection Hi as ->. apply (proj1 (Forall_forall _ _) Hx). by eapply list_elem_of_lookup_2.
    - by eapply IH. }
  split; [done|]. eapply (geo_disjoint _ _ _ _ _ _ a b hi Hg); try done;
    apply elem_of_app; left; by eapply list_elem_of_lookup_2.
Qed.

Lemma inv_split h h' F C U i a hi n p b :
  inv h F C U -> F !! i = Some a -> hdrs h !! a = Some hi -> 2 <= n -> n + 2 <= size hi -> p = a + n * 0x20 ->
  b = at0 F (S i) -> b <> p -> b <> a ->
  (forall k, hdrs h' !! k =
    if decide (k = p) then Some (mk_hi HEAP_INFO_MAGIC HEAP_INFO_FLAG_NOTUSED (size hi - n) b a HEAP_INFO_PADDING)
    else if decide (k = a) then (fun j => mk_hi (magic j) (flags j) n p (previous j) (padding j)) <$> hdrs h !! k
    else if decide (k = b) then (fun j => mk_hi (magic j) (flags j) (size j) (next j) p (padding j)) <$> hdrs h !! k
    else hdrs h !! k) ->
  first h' = first h -> last h' = last h -> first_empty h' = first_empty h -> fast_classes h' = fast_classes h ->
  dirty h' = dirty h -> (a ∉ concat C ++ U) -> (p ∉ F ++ concat C ++ U) ->
  inv h' (take (S i) F ++ p :: drop (S i) F) C U.
Proof.
  intros Hinv Hi Hhi Hn Hfit Ep Eb Hbp Hba Hlook E1 E2 E3 E4 E5 HaCU Hpnew.
  pose proof Hinv as [Hg He Hc Hs Hcl Hq Hff Huf].
  assert (i < length F)%nat as Hlt by (by eapply lookup_lt_Some).
  assert (a ∈ F) as HaF by (by eapply list_elem_of_lookup_2).
  destruct (geo_block _ _ _ _ _ _ a Hg) as (hi' & Hhi' & Hmg & Hpd & Hla & Ha0 & _ & _ & _ & Hlo & _); [apply elem_of_app; by left|].
  rewrite Hhi in Hhi'. injection Hhi' as <-.
  apply not_elem_of_app in HaCU as [HaC HaU]. apply not_elem_of_app in Hpnew as [HpF [HpC HpU]%not_elem_of_app].
  assert (forall k, k <> p -> k <> a -> k <> b -> hdrs h' !! k = hdrs h !! k) as Hother
    by (intros k ? ? ?; by rewrite Hlook, !decide_False).
  assert (forall k, k ∈ concat C -> k <> b) as HCb.
  { intros k Hk ->. assert (b <> 0) as Hb0.
    { intros E. rewrite E in Hk. destruct (geo_block _ _ _ _ _ _ 0 Hg) as (x & Hx & _); [rewrite !elem_of_app; auto|].
      rewrite (g_null _ _ _ _ _ _ Hg) in Hx. done. }
    rewrite Eb in Hb0. apply at0_elem, list_elem_of_lookup_2 in Hb0. rewrite <- Eb in Hb0.
    pose proof (g_nodup _ _ _ _ _ _ Hg) as (_ & Hd & _)%NoDup_app. apply (Hd b Hb0), elem_of_app. by left. }
  assert (forall k, k ∈ concat C -> hdrs h' !! k = hdrs h !! k) as HC.
  { intros k Hk. apply Hother; [by intros ->|by intros ->|by apply HCb]. }
  assert (forall k x, hdrs h' !! k = Some x -> k <> p -> exists y, hdrs h !! k = Some y /\ flags y = flags x) as Hflags.
  { intros k x Hk Hkp. rewrite Hlook, decide_False in Hk by done.
    destruct (decide (k = a)); [|destruct (decide (k = b))]; [..|by exists x];
      apply fmap_Some in Hk as (y & Hy & ->); by exists y. }
  split.
  - rewrite E1, E2, E5. eapply geo_perm; [|done|eapply (geo_split _ _ (hdrs h) _ _ (F ++ concat C ++ U) U a hi p n); try done].
    + rewrite <- (take_drop (S i) F) at 1. rewrite <- !app_assoc. cbn. by rewrite Permutation_middle.
    + apply elem_of_app. by left.
    + intros k. rewrite Hlook. destruct (decide (k = p)); [done|]. destruct (decide (k = a)) as [-> |].
      * rewrite Hhi. cbn. unfold shape. cbn. by rewrite Hmg, Hpd.
      * destruct (decide (k = b)); [|done]. by destruct (hdrs h !! k).
  - rewrite E3, He. unfold at0. rewrite lookup_app_l by (rewrite length_take; lia). by rewrite lookup_take_lt by lia.
  - eapply chain_insert; [exact Hc|lia|done|lia| |].
    + rewrite Hlook, decide_True by done. cbn. unfold links. cbn. by rewrite <- Eb, (at0_Some _ _ _ Hi).
    + intros j c Hj. destruct (chain_Some _ _ _ _ Hc Hj) as (Hc0 & x & Hx & Hnx & Hpx).
      assert (c <> p) as Hcp by (intros ->; apply HpF; by eapply list_elem_of_lookup_2).
      rewrite Hlook, decide_False by done. destruct (decide (c = a)) as [-> |].
      * assert (j = i) as -> by (eapply NoDup_lookup; [apply (ch_nodup _ _ Hc)|done..]).
        rewrite Hx. cbn. unfold links. cbn. rewrite (decide_True (P := S i = S i)), decide_False by lia. by rewrite Hpx.
      * rewrite (decide_False (P := S j = S i)) by (intros [= ->]; congruence).
        destruct (decide (c = b)) as [-> |].
        { rewrite Eb in Hc0, Hj. assert (j = S i) as -> by (eapply NoDup_lookup; [apply (ch_nodup _ _ Hc)|exact Hj|by apply at0_elem]).
          rewrite Hx. cbn. unfold links. cbn. rewrite decide_True by done. by rewrite Hnx. }
        { rewrite (decide_False (P := j = S i)) by (intros ->; apply (at0_Some) in Hj; congruence).
          rewrite Hx. cbn. unfold links. by rewrite Hnx, Hpx. }
  - eapply sorted_insert_after; [done|exact Hi|lia|]. intros c Hcc.
    destruct (next_above h F C U i a hi c Hinv Hi Hhi Hcc). lia.
  - rewrite E4. done.
  - intros c q Hcq. destruct (Hq c q Hcq) as (Hfc & Hch & Hsz). split; [by rewrite E4|].
    assert (forall k, k ∈ q -> hdrs h' !! k = hdrs h !! k) as Hqk.
    { intros k Hk. apply HC, list_elem_of_In, in_concat. exists q. split; apply list_elem_of_In; [by eapply list_elem_of_lookup_2|done]. }
    split; [eapply chain_frame; [exact Hch|]; intros k Hk; by rewrite Hqk|]. intros k x Hk Hx. rewrite Hqk in Hx by done. by eapply Hsz.
  - intros k x Hk Hx. destruct (decide (k = p)) as [-> |Hkp].
    { rewrite Hlook, decide_True in Hx by done. by injection Hx as <-. }
    destruct (Hflags k x Hx Hkp) as (y & Hy & Ef). assert (is_used x = is_used y) as -> by (unfold is_used; by rewrite Ef).
    eapply Hff; [|exact Hy]. rewrite <- (take_drop (S i) F). rewrite !elem_of_app, elem_of_cons in *. tauto.
  - intros k x Hk Hx. assert (k <> p) as Hkp by (by intros ->).
    destruct (Hflags k x Hx Hkp) as (y & Hy & Ef). assert (is_used x = is_used y) as -> by (unfold is_used; by rewrite Ef).
    by eapply Huf.
Qed.

Section Props.
Context (raw : Z -> heapinfo_t).

Lemma wp_unlink_first p n h (Q : unit -> heap_t -> Prop) :
  hdrs h !! 0 = None -> (p <> 0 -> is_Some (hdrs h !! p)) ->
  Q tt (set_hdrs (alter (fun i => mk_hi (magic i) (flags i) (size i) n (previous i) (padding i)) p (hdrs h))
         (if decide (p = 0) then set_first_empty n h else h)) ->
  wp (if p =? 0 then update (set_first_empty n) else set_next raw p n) h Q False.
Proof using.
  intros H0 Hp HQ. destruct (Z.eqb_spec p 0) as [-> |].
  - apply wp_update_heap. rewrite decide_True, alter_id in HQ by (done || (intros x; by rewrite H0)). by destruct h.
  - rewrite decide_False in HQ by done. apply wp_store_hi; auto.
Qed.

Lemma wp_detach h F C U i a hi (Q : Z -> heap_t -> Prop) :
  inv h F C U -> F !! i = Some a -> hdrs h !! a = Some hi ->
  (forall h', allocated h h' U a (size hi) -> Q (a + 0x20) h') ->
  wp (detach raw a) h Q False.
Proof using.
  intros Hinv Hi Hhi HQ. pose proof Hinv as [Hg He Hc Hs Hcl Hq Hff Huf].
  assert (a ∈ F ++ concat C ++ U) as Hin by (apply elem_of_app; left; by eapply list_elem_of_lookup_2).
  destruct (geo_block _ _ _ _ _ _ a Hg Hin) as (hi' & Hhi' & _ & _ & Hlo & Ha0 & Hmod & Hsz & Hend & Hlo' & Hhi2).
  rewrite Hhi in Hhi'. injection Hhi' as <-. pose proof (g_null _ _ _ _ _ _ Hg) as H0.
  pose proof (ch_links _ _ Hc i a Hi) as Hlinks. rewrite Hhi in Hlinks. injection Hlinks as Hnext Hprev.
  assert (before0 F i <> 0 -> is_Some (hdrs h !! before0 F i)) as Hpsome.
  { intros (j & _ & Hj)%before0_elem. destruct (chain_Some _ _ _ _ Hc Hj) as (_ & x & -> & _). done. }
  assert (at0 F (S i) <> 0 -> is_Some (hdrs h !! at0 F (S i))) as Hnsome.
  { intros Hn. destruct (chain_at0 _ _ _ Hc Hn) as [x ->]. done. }
  unfold detach. heap_step; [done|exact Hhi|]. rewrite Hnext, Hprev.
  apply wp_bind, wp_unlink_first; [done|done|].
  set (h1 := if decide (before0 F i = 0) then _ else _).
  assert (hdrs h1 = hdrs h /\ first h1 = first h /\ last h1 = last h /\ fast_classes h1 = fast_classes h /\ dirty h1 = dirty h /\
    first_empty h1 = at0 (take i F ++ drop (S i) F) 0) as (E1 & E2 & E3 & E4 & E5 & E6).
  { unfold h1. assert (i < length F)%nat as Hlt by (by eapply lookup_lt_Some).
    assert (at0 (take i F ++ drop (S i) F) 0 = if decide (i = 0%nat) then at0 F 1 else at0 F 0) as Eat.
    { unfold at0. rewrite lookup_remove_at by done. destruct i; [by rewrite !decide_False, decide_True by lia|].
      by rewrite decide_True, decide_False by lia. }
    destruct (decide (before0 F i = 0)) as [Eb|Eb]; (split_and!; try done).
    - cbn. rewrite Eat. destruct i as [|j]; [by rewrite decide_True|exfalso]. cbn in Eb.
      destruct (lookup_lt_is_Some_2 F j) as [b Hb]; [lia|]. rewrite (at0_Some _ _ _ Hb) in Eb. subst b.
      destruct (chain_Some _ _ _ _ Hc Hb). done.
    - rewrite Eat, He. rewrite decide_False; [done|]. intros ->. done. }
  clearbody h1. cbn [hdrs set_hdrs].
  assert (before0 F i <> a /\ at0 F (S i) <> a) as [Hpa Hna].
  { split.
    - intros E. destruct (before0_elem F i) as (j & -> & Hj); [congruence|]. rewrite E in Hj.
      assert (j = S j) by (eapply NoDup_lookup; [apply (ch_nodup _ _ Hc)|done..]). lia.
    - intros E. assert (F !! S i = Some a) as Hj by (rewrite <- E; apply at0_elem; congruence).
      assert (i = S i) by (eapply NoDup_lookup; [apply (ch_nodup _ _ Hc)|done..]). lia. }
  heap_step; [auto with heap|auto with heap|].
  heap_step; [done|by do 2 apply is_Some_alter_hi|]. heap_step; [done|by do 3 apply is_Some_alter_hi|].
  heap_step; [done| |].
  { rewrite !lookup_alter_eq, !lookup_alter_ne, Hhi by done. reflexivity. }
  heap_step; [done|by do 4 apply is_Some_alter_hi|]. do 2 heap_step. apply wp_ret.
  rewrite u64_small by (unfold SIZEOF_HEAPINFO; lia). cbn [flags size magic padding].
  set (v := Z.lor (flags hi) HEAP_INFO_FLAG_USED).
  assert ((a ∉ U) /\ (a ∉ concat C)) as [HaU HaC].
  { pose proof (g_nodup _ _ _ _ _ _ Hg) as Hnd. apply NoDup_app in Hnd as (_ & Hd & _).
    specialize (Hd a (list_elem_of_lookup_2 _ _ _ Hi)). rewrite elem_of_app in Hd. tauto. }
  match goal with |- Q _ ?x => set (h' := x) end.
  assert (hdrs h' = detached (hdrs h) F i a v) as Em by done.
  assert (forall k, shape <$> hdrs h' !! k = shape <$> hdrs h !! k) as Hshape by (intros k; rewrite Em; apply detached_shape).
  apply HQ. split; try done.
  - pose proof (shape_size _ _ Hshape a) as Ha. rewrite Hhi in Ha. destruct (hdrs h' !! a) as [x|]; [|done]. exists x.
    by injection Ha.
  - exists (take i F ++ drop (S i) F), C. eapply inv_taken; try done.
    + by rewrite (remove_at_perm F i a Hi) at 1.
    + intros k Hk. rewrite Em. by apply detached_flags.
    + intros x Hx. rewrite Em in Hx. unfold detached in Hx. rewrite lookup_alter_eq in Hx.
      apply fmap_Some in Hx as (y & _ & ->). unfold is_used. cbn. apply Z.eqb_eq, used_lor.
    + rewrite Em. eapply chain_bridge; [exact Hc|exact Hi|]. intros k Hk. by apply detached_links.
    + by apply sorted_remove_at.
    + apply Hcl.
    + unfold h'. cbn. rewrite E4. apply Hcl.
    + intros c q Hcq. destruct (Hq c q Hcq) as (Hfc & Hch). split; [unfold h'; cbn; by rewrite E4|].
      eapply (queues_frame (hdrs h)); [..|exact Hcq|exact Hch]; [exact (fast_classes h)| |by apply shape_size].
      intros k Hk. rewrite Em, detached_links by (intros ->; done).
      pose proof (g_nodup _ _ _ _ _ _ Hg) as Hnd. apply NoDup_app in Hnd as (_ & Hd & _).
      assert (forall b, b <> 0 -> b ∈ F -> k <> b) as HkF by (intros b _ Hb ->; apply (Hd b Hb), elem_of_app; by left).
      destruct (hdrs h !! k) as [x|] eqn:Ek; [|done]. cbn. unfold links. cbn.
      assert (k <> 0) as Hk0 by (intros ->; congruence).
      rewrite !decide_False; [done|..].
      * intros ->. apply (HkF (at0 F (S i))); [done| |done]. by eapply list_elem_of_lookup_2, at0_elem.
      * intros ->. destruct (before0_elem F i Hk0) as (j & _ & Hj). eapply HkF; [done|by eapply list_elem_of_lookup_2|done].
  - by intros b Hb; apply shape_size.
Qed.

(** A split keeps the invariant; the block [a] has [n] or [n + 1] slots then. *)
Record cut (h h' : heap_t) (U : list Z) (a n : Z) : Prop := {
  cut_ends : first h' = first h /\ last h' = last h /\ dirty h' = dirty h;
  cut_size : exists i, hdrs h' !! a = Some i /\ n <= size i <= n + 1;
  cut_others b : b ∈ U -> size <$> hdrs h' !! b = size <$> hdrs h !! b;
}.

Lemma wp_split h F C U i a hi t (Q : unit -> heap_t -> Prop) :
  inv h F C U -> F !! i = Some a -> hdrs h !! a = Some hi -> 1 <= t -> t + 1 <= size hi ->
  (forall h' F', inv h' F' C U -> F' !! i = Some a -> cut h h' U a (t + 1) -> Q tt h') ->
  wp (split raw a t) h Q False.
Proof using.
  intros Hinv Hi Hhi Ht Hfit HQ. pose proof Hinv as [Hg He Hc Hs Hcl Hq Hff Huf].
  assert (a ∈ F) as HaF by (by eapply list_elem_of_lookup_2).
  assert (a ∈ F ++ concat C ++ U) as Hin by (apply elem_of_app; by left).
  destruct (geo_block _ _ _ _ _ _ a Hg Hin) as (hi' & Hhi' & Hmg & Hpd & Hlo & Ha0 & Hmod & Hsz & Hend & Hlo' & Hhi2).
  rewrite Hhi in Hhi'. injection Hhi' as <-. pose proof (g_null _ _ _ _ _ _ Hg) as H0.
  pose proof (ch_links _ _ Hc i a Hi) as Hlinks. rewrite Hhi in Hlinks. injection Hlinks as Hnext Hprev.
  pose proof (g_nodup _ _ _ _ _ _ Hg) as Hnd. apply NoDup_app in Hnd as (HndF & Hdisj & _).
  unfold split. heap_step; [done|exact Hhi|]. rewrite (u64_small (size hi - _)) by lia.
  destruct (Z.ltb_spec 1 (size hi - (t + 1))).
  2: { apply wp_ret. eapply HQ; [exact Hinv|exact Hi|]. split; [done| |done]. exists hi. split; [done|lia]. }
  rewrite (u64_small (a + _)) by (unfold SIZEOF_HEAPINFO; lia). rewrite (u64_small (1 + t)) by lia.
  set (p := a + (1 + t) * SIZEOF_HEAPINFO) in *. set (b := next hi) in *.
  assert (p = a + (t + 1) * 0x20) as Ep by (unfold p, SIZEOF_HEAPINFO; lia).
  destruct (geo_clean _ _ _ _ _ _ a hi p Hg Hin) as [_ Hpm]; [intros HaU; apply (Hdisj a HaF), elem_of_app; by right|done|lia|].
  assert (b <> 0 -> F !! S i = Some b) as HbF by (rewrite Hnext; apply at0_elem).
  assert (b <> 0 -> is_Some (hdrs h !! b)) as Hbsome.
  { intros Hb. destruct (chain_Some _ _ _ _ Hc (HbF Hb)) as (_ & x & -> & _). done. }
  assert (b <> 0 -> a < b /\ a + size hi * 0x20 <= b) as Hab by (intros Hb; by eapply next_above; [..|apply HbF]).
  apply wp_bind, wp_store_new; [lia|]. cbn [hdrs set_hdrs].
  heap_step; [lia|by rewrite lookup_insert_eq|]. rewrite alter_insert_eq.
  heap_step; [lia|by rewrite lookup_insert_eq|]. rewrite alter_insert_eq.
  heap_step; [lia|by rewrite lookup_insert_eq|]. rewrite alter_insert_eq. cbn [magic flags size next previous padding].
  assert (forall k, is_Some (hdrs h !! k) -> is_Some (<[p := mk_hi HEAP_INFO_MAGIC HEAP_INFO_FLAG_NOTUSED (size hi - (t + 1)) b a
    HEAP_INFO_PADDING]> (hdrs h) !! k)) as Hins.
  { intros k Hk. rewrite lookup_insert. by destruct (decide (p = k)). }
  heap_step; [by rewrite lookup_insert_ne by lia|auto|].
  heap_step; [done|by apply is_Some_alter_hi, Hins|].
  heap_step; [done|by do 2 apply is_Some_alter_hi; apply Hins|].
  heap_step. apply wp_update_heap.
  match goal with |- Q _ ?x => set (h' := x) end.
  assert (hdrs h' = split_mem (hdrs h) a b p (1 + t) (size hi - (t + 1))) as Em by done.
  assert (b <> p) as Hbp. { destruct (decide (b = 0)) as [-> |]; [lia|]. destruct Hab; [done|]. lia. }
  assert (b <> a) as Hba. { destruct (decide (b = 0)) as [-> |]; [done|]. destruct Hab; [done|]. lia. }
  assert (a <> p) as Hap by lia.
  pose proof (split_lookup (hdrs h) a b p (1 + t) (size hi - (t + 1)) Hap Hbp Hba) as Hlook. rewrite <- Em in Hlook.
  assert (p ∉ F ++ concat C ++ U) as Hpnew.
  { intros Hp. destruct (geo_block _ _ _ _ _ _ p Hg Hp) as (x & Hx & _). congruence. }
  assert (i < length F)%nat as Hlt by (by eapply lookup_lt_Some).
  apply (HQ h' (take (S i) F ++ p :: drop (S i) F)).
  - replace (size hi - (t + 1)) with (size hi - (1 + t)) in Hlook by lia.
    apply (inv_split h h' F C U i a hi (1 + t) p b);
      [done|done|done|lia|lia|done|done|done|done|exact Hlook|done|done|done|done|done|by apply Hdisj|done].
  - rewrite lookup_app_l by (rewrite length_take; lia). by rewrite lookup_take_lt by lia.
  - split; [done| |].
    + rewrite Hlook, decide_False, decide_True, Hhi by done. eexists. split; [done|]. cbn. lia.
    + intros c Hcu. rewrite Hlook, decide_False by (intros ->; apply Hpnew; rewrite !elem_of_app; auto).
      rewrite decide_False by (intros ->; apply (Hdisj a HaF), elem_of_app; auto).
      destruct (decide (c = b)); [|done]. by destruct (hdrs h !! c).
Qed.

(** ** The search *)

Lemma chain_fuel (m : gmap Z heapinfo_t) xs : chain m xs -> (length xs <= base.size m)%nat.
Proof using.
  intros Hc. rewrite <- size_dom. rewrite <- (size_list_to_set (C := gset Z) xs) by apply (ch_nodup _ _ Hc).
  apply subseteq_size. intros a Ha%elem_of_list_to_set. apply list_elem_of_lookup in Ha as [i Hi].
  destruct (chain_Some _ _ _ _ Hc Hi) as (_ & x & Hx & _). by eapply elem_of_dom_2.
Qed.

Lemma wp_find_fit fits h F fuel i a (Q : Z -> heap_t -> Prop) :
  chain (hdrs h) F -> F !! i = Some a -> (length F <= i + fuel)%nat -> (0 < fuel)%nat ->
  (forall j b hi, F !! j = Some b -> hdrs h !! b = Some hi -> fits (size hi) = true -> Q b h) ->
  ((forall j b hi, (i <= j)%nat -> F !! j = Some b -> hdrs h !! b = Some hi -> fits (size hi) = false) -> Q 0 h) ->
  wp (find_fit raw fuel fits a) h Q False.
Proof using.
  intros Hc. revert i a. induction fuel as [|fuel IH]; intros i a Hi Hf Hpos Hyes Hno; [lia|].
  destruct (chain_Some _ _ _ _ Hc Hi) as (Ha & hi & Hhi & Hnext & _).
  cbn [find_fit]. heap_step; [done|exact Hhi|]. destruct (fits (size hi)) eqn:E; [apply wp_ret; by eapply Hyes|].
  assert ((forall j b hi, (S i <= j)%nat -> F !! j = Some b -> hdrs h !! b = Some hi -> fits (size hi) = false) -> Q 0 h) as Hno'.
  { intros H. apply Hno. intros j b x Hj Hb Hx. destruct (decide (j = i)) as [-> |]; [congruence|]. eapply (H j); [lia|done..]. }
  destruct (Z.eqb_spec (next hi) 0) as [E0|E0].
  - apply wp_ret, Hno'. intros j b x Hj Hb Hx. rewrite Hnext in E0. exfalso.
    destruct (lookup_lt_is_Some_2 F (S i)) as [c Hcc]; [apply lookup_lt_Some in Hb; lia|].
    rewrite (at0_Some _ _ _ Hcc) in E0. subst c. by destruct (chain_Some _ _ _ _ Hc Hcc).
  - rewrite Hnext in *. pose proof (at0_elem _ _ E0) as Hi'. apply lookup_lt_Some in Hi' as Hlt.
    apply (IH (S i)); [done|lia|lia|exact Hyes|done].
Qed.
End Props.
