(* ===== verification/SimpleHeapAlloc.v ===== *)
(** * Allocation on the simple heap: the queues, and the whole of [malloc] *)

From S2P Require Import Prelude SimpleHeap SimpleHeapTheory SimpleHeapProps.

(** ** Queues as parts of the heap *)

Lemma concat_lookup (C : list (list Z)) c q x : C !! c = Some q -> x ∈ q -> x ∈ concat C.
Proof.
  intros Hc Hx. apply list_elem_of_In, in_concat. exists q.
  split; apply list_elem_of_In; [by eapply list_elem_of_lookup_2|done].
Qed.

Lemma concat_disjoint (C : list (list Z)) c d q q' x :
  NoDup (concat C) -> C !! c = Some q -> C !! d = Some q' -> x ∈ q -> x ∈ q' -> c = d.
Proof.
  revert c d. induction C as [|r C IH]; intros c d Hnd Hc Hd Hx Hx'; [done|]. cbn in Hnd.
  apply NoDup_app in Hnd as (_ & Hdis & Hnd).
  destruct c as [|c], d as [|d]; cbn in Hc, Hd.
  - done.
  - injection Hc as ->. by destruct (Hdis x Hx (concat_lookup C d q' x Hd Hx')).
  - injection Hd as ->. by destruct (Hdis x Hx' (concat_lookup C c q x Hc Hx)).
  - f_equal. by apply IH.
Qed.

Lemma concat_insert (C : list (list Z)) c q r :
  C !! c = Some q -> q ++ concat (<[c := r]> C) ≡ₚ r ++ concat C.
Proof.
  intros Hc. assert (c < length C)%nat by (by eapply lookup_lt_Some).
  rewrite insert_take_drop by done. rewrite <- (take_drop_middle C c q Hc) at 3.
  rewrite !concat_app. cbn. rewrite !(Permutation_app_swap_app _ (concat (take c C))). f_equiv.
  apply Permutation_app_swap_app.
Qed.

Lemma before0_last (q : list Z) : before0 q (length q) = default 0 (list.last q).
Proof. destruct q as [|x q]; [done|]. cbn [before0 length]. unfold at0. rewrite last_lookup. done. Qed.

(** The rest of a queue: its last block, unless the queue is empty now. *)
Lemma tail_of_rest (a : Z) q :
  NoDup (a :: q) -> a <> 0 ->
  before0 q (length q) = if a =? before0 (a :: q) (length (a :: q)) then 0 else before0 (a :: q) (length (a :: q)).
Proof.
  intros Hnd Ha. rewrite !before0_last. destruct q as [|b q]; [cbn; by rewrite Z.eqb_refl|].
  change (list.last (a :: b :: q)) with (list.last (b :: q)).
  destruct (list.last (b :: q)) as [z|] eqn:E; [|by apply last_None in E]. cbn.
  destruct (Z.eqb_spec a z) as [-> |]; [|done]. apply NoDup_cons in Hnd as [Hn _]. destruct Hn.
  rewrite last_lookup in E. by eapply list_elem_of_lookup_2.
Qed.

(** The number of headers that hold [sz] bytes. *)
Definition slots (sz : Z) : Z := (sz + 31) / 0x20.

Lemma slots_bounds sz : 1 <= sz <= 2 ^ 63 -> 1 <= slots sz <= 2 ^ 58 /\ sz <= slots sz * 0x20 < sz + 0x20.
Proof.
  intros Hsz. unfold slots. pose proof (Z.div_mod (sz + 31) 0x20). pose proof (Z.mod_pos_bound (sz + 31) 0x20). lia.
Qed.

Lemma slots_of_round_up sz : 1 <= sz <= 2 ^ 63 -> slots_of (round_up sz) = slots sz.
Proof.
  intros Hsz. pose proof (slots_bounds sz Hsz) as [H1 H2]. unfold slots_of, round_up, SIZEOF_HEAPINFO.
  pose proof (Z.div_mod sz 0x20). pose proof (Z.mod_pos_bound sz 0x20).
  assert (forall k, slots sz * 0x20 <= k < slots sz * 0x20 + 0x20 -> u64 k / 0x20 = slots sz) as Hd.
  { intros k Hk. rewrite u64_small by lia. symmetry. apply (Z.div_unique_pos _ _ _ (k - slots sz * 0x20)); lia. }
  destruct (Z.eqb_spec (sz mod 0x20) 0) as [E|E]; [apply Hd; lia|].
  rewrite (u64_small (sz + _)) by lia. apply Hd. lia.
Qed.

(** [split] before [detach]. *)
Lemma allocated_cut h h1 h2 U a n m :
  cut h h1 U a n -> allocated h1 h2 U a m -> allocated h h2 U a m.
Proof.
  intros [(E1 & E2 & E3) _ Ho] [Hn Hs [E4 E5] Hi Hd Ho']. split; try done; [by rewrite E4, E5|by rewrite Hd|].
  intros b Hb. rewrite Ho' by done. by apply Ho.
Qed.

Section Alloc.
Context (raw : Z -> heapinfo_t).

(** The first block of a queue that is not empty. *)
Lemma wp_fast_malloc h F C U c a q (Q : Z -> heap_t -> Prop) :
  inv h F C U -> C !! c = Some (a :: q) ->
  (forall h', allocated h h' U a (Z.of_nat c + 2) -> Q (a + 0x20) h') ->
  wp (fast_malloc raw c) h Q False.
Proof using.
  intros Hinv Hc HQ. pose proof Hinv as [Hg He Hch Hs Hcl Hq Hff Huf].
  destruct (Hq c _ Hc) as (Hfc & Hqc & Hqs).
  assert (a ∈ concat C) as HaC by (eapply concat_lookup; [exact Hc|left]).
  assert (a ∈ F ++ concat C ++ U) as Hin by (rewrite !elem_of_app; auto).
  destruct (geo_block _ _ _ _ _ _ a Hg Hin) as (hi & Hhi & _ & _ & Hlo & Ha0 & Hmod & Hsz & Hend & Hlo' & Hhi2).
  pose proof (g_null _ _ _ _ _ _ Hg) as H0. pose proof (g_nodup _ _ _ _ _ _ Hg) as Hnd.
  apply NoDup_app in Hnd as (_ & HdF & HndCU). apply NoDup_app in HndCU as (HndC & HdC & _).
  destruct (chain_Some _ _ 0 a Hqc eq_refl) as (_ & hi' & Hhi' & Hnext & _). rewrite Hhi in Hhi'. injection Hhi' as <-.
  assert (at0 (a :: q) 1 <> 0 -> is_Some (hdrs h !! at0 (a :: q) 1)) as Hnsome.
  { intros Hn. destruct (chain_at0 _ _ _ Hqc Hn) as [x ->]. done. }
  assert (at0 (a :: q) 1 <> a) as Hna.
  { intros E. assert (1 = 0)%nat; [|done]. eapply at0_inj; [apply (ch_nodup _ _ Hqc)|congruence|]. by rewrite E. }
  unfold fast_malloc. heap_step. rewrite Hfc. cbn [from_option id fst snd].
  change (at0 (a :: q) 0) with a. heap_step; [done|exact Hhi|]. rewrite Hnext. heap_step.
  heap_step; [done|done|]. set (tail := before0 (a :: q) (length (a :: q))).
  set (m1 := alter _ (at0 (a :: q) 1) (hdrs h)).
  apply wp_bind.
  assert (forall (P : unit -> heap_t -> Prop),
    P tt (set_fast_classes (<[c := (at0 (a :: q) 1, if a =? tail then 0 else tail)]> (fast_classes h)) (set_hdrs m1 h)) ->
    wp (if a =? tail then update (fun h0 => set_fast_classes (<[c := (at0 (a :: q) 1, 0)]> (fast_classes h0)) h0) else mret tt)
      (set_hdrs m1 (set_fast_classes (<[c := (at0 (a :: q) 1, tail)]> (fast_classes h)) h)) P False) as Hif.
  { intros P HP. destruct (a =? tail); [|by apply wp_ret]. apply wp_update_heap. cbn. by rewrite list_insert_insert_eq. }
  apply Hif. heap_step; [done|by apply is_Some_alter_hi|]. heap_step; [done|by do 2 apply is_Some_alter_hi|].
  heap_step; [done| |].
  { rewrite !lookup_alter_eq. unfold m1. rewrite lookup_alter_ne, Hhi by done. reflexivity. }
  heap_step; [done|by do 3 apply is_Some_alter_hi|]. do 3 heap_step. apply wp_ret.
  rewrite u64_small by (unfold SIZEOF_HEAPINFO; lia). cbn [flags size magic padding].
  set (v := Z.lor (flags hi) HEAP_INFO_FLAG_USED).
  match goal with |- Q _ ?x => set (h' := x) end.
  assert (hdrs h' = detached (hdrs h) (a :: q) 0 a v) as Em.
  { unfold h', m1, detached. cbn [before0 hdrs add_free_size count_malloc count_fast_hit set_hdrs].
    by rewrite (alter_id _ (hdrs h) 0) by (intros x; by rewrite H0). }
  assert (forall k, shape <$> hdrs h' !! k = shape <$> hdrs h !! k) as Hshape by (intros k; rewrite Em; apply detached_shape).
  assert (forall k, k ∉ a :: q -> k <> 0 -> links <$> hdrs h' !! k = links <$> hdrs h !! k) as Hlk.
  { intros k Hk Hk0. rewrite Em, detached_links by (intros ->; apply Hk; left). cbn [before0].
    destruct (hdrs h !! k); [|done]. cbn [fmap option_fmap option_map]. rewrite !decide_False; [done| |done].
    intros ->. apply Hk. by eapply list_elem_of_lookup_2, at0_elem. }
  assert (forall k, k ∈ F ++ concat C ++ U -> k <> 0) as Hk0.
  { intros k Hk. destruct (geo_block _ _ _ _ _ _ k Hg Hk) as (? & _ & _ & _ & _ & Hk0 & _). done. }
  apply HQ. split; try done.
  - intros HaU. by apply (HdC a).
  - pose proof (shape_size _ _ Hshape a) as Ha. rewrite Hhi in Ha. destruct (hdrs h' !! a) as [x|]; [|done]. exists x.
    split; [done|]. injection Ha as ->. eapply Hqs; [left|exact Hhi].
  - exists F, (<[c := q]> C). eapply inv_taken; try done.
    + pose proof (concat_insert C c (a :: q) q Hc) as Hp. cbn in Hp.
      assert (concat C ≡ₚ a :: concat (<[c := q]> C)) as ->; [|by rewrite Permutation_middle].
      apply (Permutation_app_inv_l q). rewrite <- Hp. apply Permutation_middle.
    + intros k Hk. rewrite Em. by apply detached_flags.
    + intros x Hx. rewrite Em in Hx. unfold detached in Hx. rewrite lookup_alter_eq in Hx.
      apply fmap_Some in Hx as (y & _ & ->). unfold is_used. cbn. apply Z.eqb_eq, used_lor.
    + eapply chain_frame; [exact Hch|]. intros k Hk. apply Hlk; [|apply Hk0, elem_of_app; by left].
      intros Hkq. apply (HdF k Hk), elem_of_app. left. by eapply concat_lookup.
    + rewrite length_insert. apply Hcl.
    + unfold h'. cbn. rewrite length_insert. apply Hcl.
    + intros d r Hd. destruct (decide (d = c)) as [-> |Hdc].
      * rewrite list_lookup_insert_eq in Hd by (by eapply lookup_lt_Some). injection Hd as <-. split_and!.
        { unfold h'. cbn. rewrite list_lookup_insert_eq by (by eapply lookup_lt_Some). do 2 f_equal. symmetry.
          apply tail_of_rest; [apply (ch_nodup _ _ Hqc)|done]. }
        { change q with (take 0 (a :: q) ++ drop 1 (a :: q)). eapply chain_bridge; [exact Hqc|done|].
          intros k Hk. rewrite Em. by apply detached_links. }
        { intros b x Hb Hx. pose proof (shape_size _ _ Hshape b) as E. rewrite Hx in E.
          destruct (hdrs h !! b) as [y|] eqn:Ey; [|done]. injection E as ->. eapply Hqs; [by right|done]. }
      * rewrite list_lookup_insert_ne in Hd by done. destruct (Hq d r Hd) as (Hfd & Hdch & Hds). split_and!.
        { unfold h'. cbn. by rewrite list_lookup_insert_ne. }
        { eapply chain_frame; [exact Hdch|]. intros k Hk. apply Hlk.
          - intros Hkq. apply Hdc. by eapply concat_disjoint.
          - apply Hk0. rewrite !elem_of_app. right. left. by eapply concat_lookup. }
        { intros b x Hb Hx. pose proof (shape_size _ _ Hshape b) as E. rewrite Hx in E.
          destruct (hdrs h !! b) as [y|] eqn:Ey; [|done]. injection E as ->. by eapply Hds. }
  - intros b Hb. by apply shape_size.
Qed.

(** A block of the chain that fits. *)
Lemma wp_take h F C U i a hi t (Q : Z -> heap_t -> Prop) :
  inv h F C U -> F !! i = Some a -> hdrs h !! a = Some hi -> 1 <= t -> t + 1 <= size hi ->
  (forall h' n, allocated h h' U a n -> t + 1 <= n <= t + 2 -> Q (a + 0x20) h') ->
  wp (split raw a t;; detach raw a) h Q False.
Proof using.
  intros Hinv Hi Hhi Ht Hfit HQ. apply wp_bind. eapply wp_split; [exact Hinv|exact Hi|exact Hhi|done|done|].
  intros h1 F1 Hinv1 Hi1 Hcut. destruct (cut_size _ _ _ _ _ Hcut) as (x & Hx & Hsz).
  eapply wp_detach; [exact Hinv1|exact Hi1|exact Hx|]. intros h2 Hal.
  eapply HQ; [by eapply allocated_cut|lia].
Qed.

(** What [malloc] of [sz] bytes returns. *)
Definition malloc_post (h : heap_t) (F : list Z) (C : list (list Z)) (U : list Z) (sz p : Z) (h' : heap_t) : Prop :=
  (p = 0 /\ h' = h /\ (forall q, C !! Z.to_nat (slots sz - 1) = Some q -> q = []) /\
     (forall a i, a ∈ F -> hdrs h !! a = Some i -> size i < slots sz + 1)) \/
  (exists a n, p = a + 0x20 /\ allocated h h' U a n /\ slots sz + 1 <= n <= slots sz + 2).

Lemma wp_heap_malloc h F C U sz :
  inv h F C U -> 1 <= sz <= 2 ^ 63 ->
  wp (memory_simple_malloc_ext raw sz 0) h (malloc_post h F C U sz) False.
Proof using.
  intros Hinv Hsz. pose proof Hinv as [Hg He Hch Hs Hcl Hq Hff Huf].
  pose proof (slots_bounds sz Hsz) as [Ht Hbytes]. unfold memory_simple_malloc_ext. cbn [Z.eqb].
  heap_step.
  lazymatch goal with |- context [if (if ?x then ?y else false) then _ else _] => change (if x then y else false) with (x && y) end.
  rewrite slots_of_round_up by done. set (t := slots sz) in *. rewrite (u64_small (t - 1)), (u64_small (t + 1)) by lia.
  cbn [Z.leb]. change (0 <=? SIZEOF_HEAPINFO) with true. cbn [andb].
  assert (forall q, C !! Z.to_nat (t - 1) = Some q -> (t - 1 <? 128) &&
    negb ((default (0, 0) (fast_classes h !! Z.to_nat (t - 1))).1 =? 0) = match q with [] => false | _ => true end) as Hcond.
  { intros q Hc. destruct (Hq _ q Hc) as (Hfc & Hqc & _). rewrite Hfc. cbn. apply lookup_lt_Some in Hc as Hlt.
    destruct (Z.ltb_spec (t - 1) 128); [|lia]. destruct q as [|a q]; [done|]. cbn.
    destruct (Z.eqb_spec a 0) as [-> |]; [|done]. by destruct (ch_zero _ _ Hqc); left. }
  assert ((t - 1 <? 128) && negb ((default (0, 0) (fast_classes h !! Z.to_nat (t - 1))).1 =? 0) = false \/
    exists a q, C !! Z.to_nat (t - 1) = Some (a :: q)) as [Hno|(a & q & Hc)].
  { destruct (C !! Z.to_nat (t - 1)) as [[|a q]|] eqn:E; [left; by rewrite (Hcond [])|right; by eexists _, _|].
    left. destruct (Z.ltb_spec (t - 1) 128); [|done]. apply lookup_ge_None in E. lia. }
  2: { rewrite (Hcond _ Hc). eapply wp_fast_malloc; [exact Hinv|exact Hc|]. intros h' Hal. right.
       exists a, (Z.of_nat (Z.to_nat (t - 1)) + 2). split_and!; [done..|lia|lia]. }
  assert (forall q, C !! Z.to_nat (t - 1) = Some q -> q = []) as Hempty.
  { intros q Hc. rewrite (Hcond q Hc) in Hno. by destruct q. }
  rewrite Hno. cbn [Z.leb]. destruct (Z.eqb_spec (first_empty h) 0) as [E0|E0].
  { apply wp_ret. left. split_and!; [done..|]. intros a i Ha. rewrite He in E0. destruct F as [|b F]; [by apply elem_of_nil in Ha|].
    cbn in E0. subst b. by destruct (ch_zero _ _ Hch); left. }
  rewrite He in E0. apply at0_elem in E0 as H0. rewrite He.
  apply wp_bind. eapply wp_find_fit; [exact Hch|exact H0|pose proof (chain_fuel _ _ Hch); lia|lia| |].
  - intros j b hi Hj Hhi Hfit%Z.leb_le. destruct (chain_Some _ _ _ _ Hch Hj) as [Hb _].
    destruct (Z.eqb_spec b 0); [done|]. eapply wp_take; [exact Hinv|exact Hj|exact Hhi|lia|done|].
    intros h' k Hal Hk. right. by exists b, k.
  - intros Hnone. apply wp_ret. left. split_and!; [done..|]. intros a i [j Hj]%list_elem_of_lookup Hi.
    specialize (Hnone j a i ltac:(lia) Hj Hi). lia.
Qed.
End Alloc.
