(* ===== verification/SimpleHeapFree.v ===== *)
(** * Release on the simple heap *)

From S2P Require Import Prelude SimpleHeap SimpleHeapTheory SimpleHeapProps SimpleHeapAlloc.

(** Between the two steps of [free]: the block [a] is not used any more and is
    not yet linked. *)
Record limbo (h : heap_t) (F : list Z) (C : list (list Z)) (U : list Z) (a : Z) : Prop := {
  li_geo : geo (first h) (last h) (hdrs h) (dirty h) (F ++ concat C ++ a :: U) U;
  li_links : links <$> hdrs h !! a = Some (0, 0);
  li_empty : first_empty h = at0 F 0;
  li_chain : chain (hdrs h) F;
  li_sorted : StronglySorted Z.lt F;
  li_classes : length C = 128%nat /\ length (fast_classes h) = 128%nat;
  li_queue c q : C !! c = Some q ->
    fast_classes h !! c = Some (at0 q 0, before0 q (length q)) /\ chain (hdrs h) q /\
    (forall b i, b ∈ q -> hdrs h !! b = Some i -> size i = Z.of_nat c + 2);
  li_free_flags b i : b ∈ a :: F ++ concat C -> hdrs h !! b = Some i -> is_used i = false;
  li_used_flags b i : b ∈ U -> hdrs h !! b = Some i -> is_used i = true;
}.

Lemma limbo_block h F C U a :
  limbo h F C U a -> exists i, hdrs h !! a = Some i /\ a <> 0 /\ next i = 0 /\ previous i = 0 /\ 2 <= size i.
Proof.
  intros Hl. destruct (geo_block _ _ _ _ _ _ a (li_geo _ _ _ _ _ Hl)) as (i & Hi & _ & _ & _ & Ha & _ & Hsz & _).
  { rewrite !elem_of_app, elem_of_cons. auto. }
  exists i. pose proof (li_links _ _ _ _ _ Hl) as E. rewrite Hi in E. injection E as -> ->. done.
Qed.

Lemma limbo_new h F C U a : limbo h F C U a -> (a ∉ F) /\ (a ∉ concat C).
Proof.
  intros Hl. pose proof (g_nodup _ _ _ _ _ _ (li_geo _ _ _ _ _ Hl)) as Hnd. rewrite app_assoc in Hnd.
  apply NoDup_app in Hnd as (_ & Hd & _). apply not_elem_of_app. intros Ha. apply (Hd a Ha). left.
Qed.

Lemma is_used_flags (x y : heapinfo_t) : flags x = flags y -> is_used x = is_used y.
Proof. intros E. unfold is_used. by rewrite E. Qed.

(** The block is linked. *)
Lemma limbo_linked h h' F F' C C' U a :
  limbo h F C U a -> F' ++ concat C' ≡ₚ a :: F ++ concat C ->
  first h' = first h -> last h' = last h -> dirty h' = dirty h ->
  (forall k, shape <$> hdrs h' !! k = shape <$> hdrs h !! k) ->
  (forall k, flags <$> hdrs h' !! k = flags <$> hdrs h !! k) ->
  first_empty h' = at0 F' 0 -> chain (hdrs h') F' -> StronglySorted Z.lt F' ->
  length C' = 128%nat -> length (fast_classes h') = 128%nat ->
  (forall c q, C' !! c = Some q ->
     fast_classes h' !! c = Some (at0 q 0, before0 q (length q)) /\ chain (hdrs h') q /\
     (forall b i, b ∈ q -> hdrs h' !! b = Some i -> size i = Z.of_nat c + 2)) ->
  inv h' F' C' U.
Proof.
  intros [Hg _ _ _ _ _ _ Hff Huf] Hperm E1 E2 E3 Hshape Hflags Hfe Hch Hso Hl1 Hl2 Hqs.
  assert (forall b i, hdrs h' !! b = Some i -> exists j, hdrs h !! b = Some j /\ is_used i = is_used j) as Hback.
  { intros b i Hb. specialize (Hflags b). rewrite Hb in Hflags. destruct (hdrs h !! b) as [j|]; [|done].
    exists j. split; [done|]. apply is_used_flags. by injection Hflags. }
  split; try done.
  - rewrite E1, E2, E3. eapply geo_ext; [|exact Hshape]. eapply geo_perm; [|reflexivity|exact Hg].
    rewrite app_assoc, <- Permutation_middle. rewrite (app_assoc F'), Hperm. done.
  - intros b i Hb Hi. destruct (Hback b i Hi) as (j & Hj & ->). eapply Hff; [|exact Hj]. by rewrite <- Hperm.
  - intros b i Hb Hi. destruct (Hback b i Hi) as (j & Hj & ->). by eapply Huf.
Qed.

Lemma set_hdrs_id h : set_hdrs (hdrs h) h = h.
Proof. by destruct h. Qed.

Lemma inv_perm h F C U U' : U ≡ₚ U' -> inv h F C U -> inv h F C U'.
Proof.
  intros Hp [Hg He Hch Hs Hcl Hq Hff Huf]. split; try done.
  - eapply geo_perm; [|exact Hp|exact Hg]. by rewrite Hp.
  - intros b i Hb. apply Huf. by rewrite Hp.
Qed.

Lemma used_lxor fl :
  Z.land fl HEAP_INFO_FLAG_USED = HEAP_INFO_FLAG_USED ->
  (Z.land (Z.lxor fl HEAP_INFO_FLAG_USED) HEAP_INFO_FLAG_USED =? HEAP_INFO_FLAG_USED) = false.
Proof.
  intros E. apply Z.eqb_neq. intros E'. apply (f_equal (fun z => Z.testbit z 1)) in E, E'.
  rewrite !Z.land_spec, ?Z.lxor_spec in *. change (Z.testbit HEAP_INFO_FLAG_USED 1) with true in *.
  by destruct (Z.testbit fl 1).
Qed.

(** The memory of a block that is given back, before it is linked. *)
Definition unmarked (m : gmap Z heapinfo_t) (a v : Z) : gmap Z heapinfo_t :=
  alter (fun j => mk_hi (magic j) (flags j) (size j) 0 (previous j) (padding j)) a
  (alter (fun j => mk_hi (magic j) (flags j) (size j) (next j) 0 (padding j)) a
  (alter (fun j => mk_hi (magic j) v (size j) (next j) (previous j) (padding j)) a m)).

Lemma inv_limbo h h' F C U a i v :
  inv h F C (a :: U) -> hdrs h !! a = Some i -> v = Z.lxor (flags i) HEAP_INFO_FLAG_USED ->
  hdrs h' = unmarked (hdrs h) a v -> dirty h' = dirty h ∖ units (a + 0x20) (size i - 1) ->
  first h' = first h -> last h' = last h -> first_empty h' = first_empty h -> fast_classes h' = fast_classes h ->
  limbo h' F C U a.
Proof.
  intros [Hg He Hch Hs Hcl Hq Hff Huf] Hi -> Em Ed E1 E2 E3 E4.
  pose proof (g_nodup _ _ _ _ _ _ Hg) as Hnd. rewrite app_assoc in Hnd.
  apply NoDup_app in Hnd as (_ & HdF & HndU). apply NoDup_cons in HndU as [HaU _].
  assert (a ∉ F ++ concat C) as HaFC by (intros Ha; apply (HdF a Ha); left).
  assert (forall k, k <> a -> hdrs h' !! k = hdrs h !! k) as Hother.
  { intros k Hk. rewrite Em. unfold unmarked. by rewrite !lookup_alter_ne by done. }
  assert (forall k, shape <$> hdrs h' !! k = shape <$> hdrs h !! k) as Hshape.
  { intros k. rewrite Em. unfold unmarked. by rewrite !alter_keeps. }
  assert (hdrs h' !! a = Some (mk_hi (magic i) (Z.lxor (flags i) HEAP_INFO_FLAG_USED) (size i) 0 0 (padding i))) as Ha'.
  { rewrite Em. unfold unmarked. by rewrite !lookup_alter_eq, Hi. }
  split.
  - rewrite E1, E2, Ed. eapply geo_ext; [|exact Hshape]. by eapply geo_free.
  - by rewrite Ha'.
  - congruence.
  - eapply chain_frame; [exact Hch|]. intros k Hk. rewrite Hother; [done|]. intros ->. apply HaFC, elem_of_app. by left.
  - done.
  - by rewrite E4.
  - intros c q Hc. rewrite E4. destruct (Hq c q Hc) as (Hfc & Hqc). split; [done|].
    eapply (queues_frame (hdrs h)); [exact (fast_classes h)| |by apply shape_size|exact Hc|exact Hqc].
    intros k Hk. rewrite Hother; [done|]. intros ->. apply HaFC, elem_of_app. by right.
  - intros b x [-> | Hb]%elem_of_cons Hx.
    + rewrite Ha' in Hx. injection Hx as <-. apply used_lxor. apply Z.eqb_eq, (Huf a i); [left|done].
    + rewrite Hother in Hx by (intros ->; done). by eapply Hff.
  - intros b x Hb Hx. rewrite Hother in Hx by (intros ->; done). eapply Huf; [by right|done].
Qed.

(** ** The last place of a queue *)

Lemma chain_append (m m' : gmap Z heapinfo_t) q a i :
  chain m q -> a ∉ q -> a <> 0 -> m !! 0 = None -> m !! a = Some i -> next i = 0 ->
  m' = alter (fun j => mk_hi (magic j) (flags j) (size j) a (previous j) (padding j)) (before0 q (length q))
         (alter (fun j => mk_hi (magic j) (flags j) (size j) (next j) (before0 q (length q)) (padding j)) a m) ->
  chain m' (q ++ [a]).
Proof.
  intros Hc Ha Ha0 H0 Hi Hn ->. replace (q ++ [a]) with (take (length q) q ++ a :: drop (length q) q)
    by (by rewrite firstn_all, drop_all).
  assert (before0 q (length q) <> a) as Hba.
  { intros E. destruct (before0_elem q (length q)) as (j & _ & Hj); [congruence|]. apply Ha. rewrite E in Hj.
    by eapply list_elem_of_lookup_2. }
  eapply chain_insert; [exact Hc|done|done|done| |].
  - rewrite lookup_alter_ne, lookup_alter_eq, Hi by done. cbn. unfold links. cbn. by rewrite Hn, at0_None.
  - intros j b Hj. destruct (chain_Some _ _ _ _ Hc Hj) as (Hb0 & x & Hx & Hnx & Hpx). apply lookup_lt_Some in Hj as Hlt.
    assert (b <> a) as Hne by (intros ->; apply Ha; by eapply list_elem_of_lookup_2).
    rewrite (decide_False (P := j = length q)) by lia. rewrite lookup_alter. destruct (decide (before0 q (length q) = b)) as [E|E].
    + rewrite E, lookup_alter_ne, Hx by done. cbn. unfold links. cbn.
      destruct (before0_elem q (length q)) as (k & Ek & Hk); [congruence|]. rewrite E in Hk.
      assert (k = j) as -> by (eapply NoDup_lookup; [apply (ch_nodup _ _ Hc)|done..]).
      rewrite decide_True by done. by rewrite Hpx.
    + rewrite lookup_alter_ne, Hx by done. cbn. unfold links. rewrite decide_False; [by rewrite Hnx, Hpx|].
      intros Ej. apply E. rewrite <- Ej. cbn. by apply at0_Some.
Qed.

(** ** A place in the chain *)

Lemma chain_link (m m' : gmap Z heapinfo_t) F i a :
  chain m F -> (i <= length F)%nat -> a ∉ F -> a <> 0 ->
  links <$> m' !! a = Some (at0 F i, before0 F i) ->
  (forall k, k <> 0 -> k <> a -> links <$> m' !! k =
     (fun l : Z * Z => (if decide (k = before0 F i) then a else l.1, if decide (k = at0 F i) then a else l.2)) <$> (links <$> m !! k)) ->
  chain m' (take i F ++ a :: drop i F).
Proof.
  intros Hc Hle Ha Ha0 Hnew Hold. eapply chain_insert; [exact Hc|done|done|done|done|].
  intros j b Hj. destruct (chain_Some _ _ _ _ Hc Hj) as (Hb0 & _).
  rewrite Hold, (ch_links _ _ Hc j b Hj) by (done || (intros ->; apply Ha; by eapply list_elem_of_lookup_2)). cbn [fmap option_fmap option_map fst snd].
  do 2 f_equal.
  - destruct (decide (b = before0 F i)) as [E|E].
    + rewrite E in Hb0, Hj. destruct (before0_elem _ _ Hb0) as (k & -> & Hk).
      assert (k = j) as -> by (eapply NoDup_lookup; [apply (ch_nodup _ _ Hc)|done..]). by rewrite decide_True.
    + rewrite decide_False; [done|]. intros <-. apply E. cbn. symmetry. by apply at0_Some.
  - destruct (decide (b = at0 F i)) as [E|E].
    + rewrite E in Hb0, Hj. assert (j = i) as -> by (eapply NoDup_lookup; [apply (ch_nodup _ _ Hc)|exact Hj|by apply at0_elem]).
      by rewrite decide_True.
    + rewrite decide_False; [done|]. intros ->. apply E. symmetry. by apply at0_Some.
Qed.

(** The chain with [a] at its place. *)
Lemma limbo_inserted h h' F C U a i :
  limbo h F C U a -> (i <= length F)%nat ->
  links <$> hdrs h' !! a = Some (at0 F i, before0 F i) ->
  (forall k, k <> 0 -> k <> a -> links <$> hdrs h' !! k =
     (fun l : Z * Z => (if decide (k = before0 F i) then a else l.1, if decide (k = at0 F i) then a else l.2)) <$> (links <$> hdrs h !! k)) ->
  (forall k, shape <$> hdrs h' !! k = shape <$> hdrs h !! k) ->
  (forall k, flags <$> hdrs h' !! k = flags <$> hdrs h !! k) ->
  StronglySorted Z.lt (take i F ++ a :: drop i F) ->
  first h' = first h -> last h' = last h -> dirty h' = dirty h -> fast_classes h' = fast_classes h ->
  first_empty h' = at0 (take i F ++ a :: drop i F) 0 ->
  inv h' (take i F ++ a :: drop i F) C U.
Proof.
  intros Hl Hle Hnew Hold Hshape Hflags Hso E1 E2 E3 E4 E5. pose proof Hl as [Hg _ He Hch Hs Hcl Hq Hff Huf].
  destruct (limbo_new _ _ _ _ _ Hl) as [HaF HaC]. destruct (limbo_block _ _ _ _ _ Hl) as (hi & Hhi & Ha0 & _).
  pose proof (g_nodup _ _ _ _ _ _ Hg) as (_ & HdF & _)%NoDup_app.
  eapply limbo_linked; [exact Hl|..]; try done.
  - rewrite <- app_assoc. cbn. rewrite <- Permutation_middle. by rewrite app_assoc, take_drop.
  - by eapply chain_link.
  - apply Hcl.
  - rewrite E4. apply Hcl.
  - intros c q Hc. rewrite E4. destruct (Hq c q Hc) as (Hfc & Hqc). split; [done|].
    eapply (queues_frame (hdrs h)); [exact (fast_classes h)| |by apply shape_size|exact Hc|exact Hqc].
    intros k Hk. assert (k ∉ F) as HkF by (intros HkF; apply (HdF k HkF), elem_of_app; by left).
    assert (k <> 0) as Hk0.
    { destruct (geo_block _ _ _ _ _ _ k Hg) as (_ & _ & _ & _ & _ & Hk0 & _); [rewrite !elem_of_app; auto|done]. }
    rewrite Hold by (done || (intros ->; done)). destruct (hdrs h !! k) as [x|]; [|done]. cbn [fmap option_fmap option_map].
    rewrite !decide_False; [done|..]; intros ->; apply HkF.
    + by eapply list_elem_of_lookup_2, at0_elem.
    + destruct (before0_elem F i Hk0) as (j & _ & Hj). by eapply list_elem_of_lookup_2.
Qed.

(** The neighbours after the stores of [insert_sorted]. *)
Definition inserted (m : gmap Z heapinfo_t) (p n a : Z) : gmap Z heapinfo_t :=
  alter (fun j => mk_hi (magic j) (flags j) (size j) (next j) a (padding j)) n
  (alter (fun j => mk_hi (magic j) (flags j) (size j) (next j) p (padding j)) a
  (alter (fun j => mk_hi (magic j) (flags j) (size j) a (previous j) (padding j)) p
  (alter (fun j => mk_hi (magic j) (flags j) (size j) n (previous j) (padding j)) a m))).

Lemma inserted_keeps {A} (g : heapinfo_t -> A) m p n a k :
  (forall mg fl sz n p n' p' pd, g (mk_hi mg fl sz n p pd) = g (mk_hi mg fl sz n' p' pd)) ->
  g <$> inserted m p n a !! k = g <$> m !! k.
Proof. intros E. unfold inserted. rewrite !alter_keeps; [done|..]; intros []; apply E. Qed.

Lemma inserted_new m p n a i : m !! a = Some i -> p <> a -> n <> a -> links <$> inserted m p n a !! a = Some (n, p).
Proof. intros Hi Hp Hn. unfold inserted. by rewrite lookup_alter_ne, lookup_alter_eq, lookup_alter_ne, lookup_alter_eq, Hi by done. Qed.

Lemma inserted_old m p n a k :
  k <> a -> links <$> inserted m p n a !! k =
     (fun l : Z * Z => (if decide (k = p) then a else l.1, if decide (k = n) then a else l.2)) <$> (links <$> m !! k).
Proof.
  intros Hk. unfold inserted. rewrite !lookup_alter.
  destruct (decide (n = k)) as [En|], (decide (a = k)), (decide (p = k)) as [Ep|]; try congruence;
    rewrite ?En, ?Ep; repeat destruct (decide _); try congruence; by destruct (m !! k).
Qed.

Section Free.
Context (raw : Z -> heapinfo_t).

Lemma wp_free_push h F C U a i (Q : unit -> heap_t -> Prop) :
  limbo h F C U a -> hdrs h !! a = Some i -> size i < 130 ->
  (forall h' F' C', inv h' F' C' U -> a ∈ F' ++ concat C' -> first h' = first h /\ last h' = last h /\ dirty h' = dirty h ->
    (forall k, size <$> hdrs h' !! k = size <$> hdrs h !! k) -> Q tt h') ->
  wp (free_push raw (Z.to_nat (size i - 2)) a) h Q False.
Proof using.
  intros Hl Hi Hsmall HQ. pose proof Hl as [Hg _ He Hch Hs Hcl Hq Hff Huf].
  destruct (limbo_block _ _ _ _ _ Hl) as (i' & Hi' & Ha0 & Hn & Hp & Hsz). rewrite Hi in Hi'. injection Hi' as <-.
  destruct (limbo_new _ _ _ _ _ Hl) as [HaF HaC]. pose proof (g_null _ _ _ _ _ _ Hg) as H0.
  set (c := Z.to_nat (size i - 2)). destruct (lookup_lt_is_Some_2 C c) as [q Hc]; [lia|].
  destruct (Hq c q Hc) as (Hfc & Hqc & Hqs). set (tail := before0 q (length q)) in *.
  assert (a ∉ q) as Haq by (intros Hin; apply HaC; by eapply concat_lookup).
  set (m' := alter (fun j => mk_hi (magic j) (flags j) (size j) a (previous j) (padding j)) tail
               (alter (fun j => mk_hi (magic j) (flags j) (size j) (next j) tail (padding j)) a (hdrs h))).
  assert (chain m' (q ++ [a])) as Hnew by (by eapply chain_append).
  assert (wp (free_push raw c a) h (fun _ h' => h' = set_fast_classes (<[c := (at0 (q ++ [a]) 0, a)]> (fast_classes h)) (set_hdrs m' h)) False) as Hrun.
  { unfold free_push. heap_step. rewrite Hfc. cbn [from_option id fst snd]. destruct (Z.eqb_spec tail 0) as [E0|E0].
    - apply wp_update_heap. assert (q = []) as ->.
      { destruct q as [|b q _] using rev_ind; [done|]. unfold tail in E0. rewrite length_app, Nat.add_1_r in E0. cbn in E0.
        unfold at0 in E0. rewrite lookup_app_r, Nat.sub_diag in E0 by done. cbn in E0. subst b.
        destruct (ch_zero _ _ Hqc). apply elem_of_app. right. by left. }
      assert (m' = hdrs h) as ->; [|by rewrite set_hdrs_id]. unfold m'. rewrite E0.
      rewrite alter_id by (intros x; rewrite null_alter; done). apply alter_id. intros x. rewrite Hi. intros [= <-].
      rewrite <- Hp. by destruct i.
    - heap_step; [done|by rewrite Hi|]. destruct (before0_elem q (length q) E0) as (j & Ej & Hj).
      destruct (chain_Some _ _ _ _ Hqc Hj) as (_ & x & Hx & _).
      heap_step; [done|apply is_Some_alter_hi; unfold tail; by rewrite Hx|].
      apply wp_update_heap. cbn. destruct q as [|b q]; [done|]. done. }
  eapply wp_mono; [exact Hrun|]. intros [] h' ->.
  assert (forall {A} (g : heapinfo_t -> A) k, (forall mg fl sz n p n' p' pd, g (mk_hi mg fl sz n p pd) = g (mk_hi mg fl sz n' p' pd)) ->
    g <$> m' !! k = g <$> hdrs h !! k) as Hkeep.
  { intros A g k E. unfold m'. rewrite !alter_keeps; [done|..]; intros []; apply E. }
  assert (forall k, k <> 0 -> k <> a -> k ∉ q -> m' !! k = hdrs h !! k) as Hother.
  { intros k Hk0 Hka Hkq. unfold m'. rewrite !lookup_alter_ne; [done|done|]. intros <-.
    destruct (before0_elem q (length q) Hk0) as (j & _ & Hj). apply Hkq. by eapply list_elem_of_lookup_2. }
  pose proof (g_nodup _ _ _ _ _ _ Hg) as Hnd. apply NoDup_app in Hnd as (_ & HdF & HndC). apply NoDup_app in HndC as (HndC & _ & _).
  eapply (HQ _ F (<[c := q ++ [a]]> C)); [| |done|intros k; by apply Hkeep].
  2: { apply elem_of_app. right. eapply concat_lookup; [apply list_lookup_insert_eq; by eapply lookup_lt_Some|].
       apply elem_of_app. right. by left. }
  eapply limbo_linked; [exact Hl|..]; try done.
  - pose proof (concat_insert C c q (q ++ [a]) Hc) as Hperm. rewrite <- app_assoc in Hperm. apply Permutation_app_inv_l in Hperm.
    rewrite Hperm. cbn. by rewrite <- Permutation_middle.
  - intros k. by apply Hkeep.
  - intros k. by apply Hkeep.
  - eapply chain_frame; [exact Hch|]. intros k Hk. cbn. rewrite Hother; [done|intros ->; by apply (ch_zero _ _ Hch)|by intros ->|].
    intros Hkq. apply (HdF k Hk), elem_of_app. left. by eapply concat_lookup.
  - rewrite length_insert. apply Hcl.
  - cbn. rewrite length_insert. apply Hcl.
  - intros d r Hd. cbn. destruct (decide (d = c)) as [-> |Hdc].
    + rewrite list_lookup_insert_eq in Hd by (by eapply lookup_lt_Some). injection Hd as <-. split_and!; [|exact Hnew|].
      * rewrite list_lookup_insert_eq by (by eapply lookup_lt_Some). do 2 f_equal. rewrite before0_last, last_snoc. done.
      * intros b x Hb Hx. pose proof (Hkeep _ size b ltac:(done)) as E. rewrite Hx in E. destruct (hdrs h !! b) as [y|] eqn:Ey; [|done].
        injection E as ->. apply elem_of_app in Hb as [Hb | ->%list_elem_of_singleton]; [by eapply Hqs|].
        rewrite Hi in Ey. injection Ey as <-. unfold c. lia.
    + rewrite list_lookup_insert_ne in Hd by done. destruct (Hq d r Hd) as (Hfd & Hdch & Hds). split_and!.
      * by rewrite list_lookup_insert_ne.
      * eapply chain_frame; [exact Hdch|]. intros k Hk. rewrite Hother; [done|intros ->; by apply (ch_zero _ _ Hdch)| |].
        -- intros ->. apply HaC. by eapply concat_lookup.
        -- intros Hkq. apply Hdc. by eapply concat_disjoint.
      * intros b x Hb Hx. pose proof (Hkeep _ size b ltac:(done)) as E. rewrite Hx in E. destruct (hdrs h !! b) as [y|] eqn:Ey; [|done].
        injection E as ->. by eapply Hds.
Qed.

Lemma wp_insert_seek h F a fuel i b (Q : Z -> heap_t -> Prop) :
  chain (hdrs h) F -> a ∉ F -> F !! i = Some b -> b < a -> (length F <= i + fuel)%nat -> (0 < fuel)%nat ->
  (forall j c, F !! j = Some c -> c < a -> (forall d, F !! S j = Some d -> a < d) -> Q c h) ->
  wp (insert_seek raw fuel b a) h Q False.
Proof using.
  intros Hc Ha. revert i b. induction fuel as [|fuel IH]; intros i b Hi Hb Hf Hpos HQ; [lia|].
  destruct (chain_Some _ _ _ _ Hc Hi) as (Hb0 & x & Hx & Hnext & _).
  cbn [insert_seek]. heap_step; [done|exact Hx|]. rewrite Hnext.
  destruct (Z.eqb_spec (at0 F (S i)) 0) as [E0|E0]; cbn [negb andb].
  - apply wp_ret. eapply HQ; [exact Hi|done|]. intros d Hd. rewrite (at0_Some _ _ _ Hd) in E0. subst d.
    by destruct (chain_Some _ _ _ _ Hc Hd).
  - pose proof (at0_elem _ _ E0) as Hi'. apply lookup_lt_Some in Hi' as Hlt.
    destruct (Z.ltb_spec (at0 F (S i)) a) as [Hlt'|Hge].
    + apply (IH (S i)); [done|done|lia|lia|done].
    + apply wp_ret. eapply HQ; [exact Hi|done|]. intros d Hd. rewrite (at0_Some _ _ _ Hd) in Hge.
      assert (d <> a); [|lia]. intros ->. apply Ha. by eapply list_elem_of_lookup_2.
Qed.

Lemma wp_heap_insert_sorted h F C U a (Q : unit -> heap_t -> Prop) :
  limbo h F C U a -> F <> [] ->
  (forall h' F' C', inv h' F' C' U -> a ∈ F' ++ concat C' -> first h' = first h /\ last h' = last h /\ dirty h' = dirty h ->
    (forall k, size <$> hdrs h' !! k = size <$> hdrs h !! k) -> Q tt h') ->
  wp (memory_simple_insert_sorted raw false a) h Q False.
Proof using.
  intros Hl HF HQ. pose proof Hl as [Hg _ He Hch Hs Hcl Hq Hff Huf].
  destruct (limbo_block _ _ _ _ _ Hl) as (x & Hx & Ha0 & Hn & Hp & _). destruct (limbo_new _ _ _ _ _ Hl) as [HaF HaC].
  pose proof (g_null _ _ _ _ _ _ Hg) as H0. assert (forall k, at0 F k <> a) as Hat.
  { intros k E. apply HaF. eapply list_elem_of_lookup_2. rewrite <- E. apply at0_elem. congruence. }
  assert (forall i m' h', (i <= length F)%nat -> m' = inserted (hdrs h) (before0 F i) (at0 F i) a -> hdrs h' = m' ->
    StronglySorted Z.lt (take i F ++ a :: drop i F) ->
    first h' = first h -> last h' = last h -> dirty h' = dirty h -> fast_classes h' = fast_classes h ->
    first_empty h' = at0 (take i F ++ a :: drop i F) 0 -> Q tt h') as Hdone.
  { intros i m' h' Hle -> Em Hso E1 E2 E3 E4 E5. assert (before0 F i <> a) by (destruct i; cbn; auto).
    eapply HQ; [eapply (limbo_inserted h h' F C U a i)|..]; try done; try (intros k; rewrite Em; by apply inserted_keeps).
    - rewrite Em. by eapply inserted_new.
    - intros k _ Hk. rewrite Em. by apply inserted_old.
    - rewrite !elem_of_app, elem_of_cons. auto. }
  unfold memory_simple_insert_sorted. heap_step. destruct F as [|b F']; [done|]. set (F := b :: F') in *.
  assert (b <> 0) as Hb0. { intros ->. apply (ch_zero _ _ Hch). left. }
  destruct (chain_Some _ _ 0 b Hch eq_refl) as (_ & y & Hy & _). assert (a <> b) as Hab by (intros ->; apply HaF; left).
  change (at0 F 0) with b in He. rewrite He. destruct (Z.ltb_spec a b) as [Hlt|Hge].
  - heap_step. heap_step; [done|by rewrite Hx|]. apply wp_store_hi; [done|apply is_Some_alter_hi; by rewrite Hy|].
    eapply (Hdone 0%nat); [lia|reflexivity| | |done..|]; cbn [hdrs set_hdrs set_first_empty].
    + unfold inserted. change (at0 F 0) with b. cbn [before0]. f_equal.
      rewrite (alter_id _ _ 0) by (intros j; by rewrite null_alter). symmetry. apply alter_id. intros j. rewrite lookup_alter_eq, Hx.
      intros [= <-]. cbn. by rewrite Hp.
    + rewrite drop_0, take_0. cbn. constructor; [done|]. constructor; [done|]. apply StronglySorted_inv in Hs as [_ Hs].
      eapply Forall_impl; [exact Hs|]. cbn. lia.
    + done.
  - apply wp_bind. eapply (wp_insert_seek h F a _ 0 b); [done|done|done|lia|pose proof (chain_fuel _ _ Hch); lia|lia|].
    intros j c Hj Hca Hnc. destruct (chain_Some _ _ _ _ Hch Hj) as (Hc0 & z & Hz & Hnz & _).
    assert (c <> a) as Hca' by lia. apply lookup_lt_Some in Hj as Hlt. pose proof (Hat (S j)) as HatS.
    heap_step; [done|exact Hz|]. rewrite Hnz. heap_step; [done|by rewrite Hx|].
    heap_step; [done|apply is_Some_alter_hi; by rewrite Hz|]. heap_step; [done|do 2 apply is_Some_alter_hi; by rewrite Hx|].
    heap_step; [done|rewrite lookup_alter_eq, lookup_alter_ne, lookup_alter_eq, Hx by done; reflexivity|].
    cbn [next]. apply wp_store_null; [cbn; by do 3 apply null_alter| |].
    + intros Hn0. cbn [hdrs set_hdrs]. do 3 apply is_Some_alter_hi. destruct (chain_at0 _ _ _ Hch Hn0) as [w ->]. done.
    + eapply (Hdone (S j)); [lia|reflexivity| |by eapply sorted_insert_after|done..|].
      * cbn [hdrs set_hdrs before0]. unfold inserted. by rewrite (at0_Some _ _ _ Hj).
      * cbn [first_empty set_hdrs]. rewrite He. done.
Qed.

(** What [free] does to the blocks: [a] is not used any more, and its data are
    clean. *)
Definition free_post (h : heap_t) (U : list Z) (a : Z) (r : Z) (h' : heap_t) : Prop :=
  r = 0 /\ (exists F' C', inv h' F' C' U /\ a ∈ F' ++ concat C') /\ first h' = first h /\ last h' = last h /\
  (forall k, size <$> hdrs h' !! k = size <$> hdrs h !! k) /\ (forall k, k ∈ dirty h' -> k ∈ dirty h).

Lemma wp_free h F C U a i :
  inv h F C (a :: U) -> hdrs h !! a = Some i -> a + size i * 0x20 < last h ->
  (size i < 130 \/ F <> []) ->
  wp (memory_simple_free raw (a + 0x20)) h (free_post h U a) False.
Proof using.
  intros Hinv Hi Hlast Hbig. pose proof Hinv as [Hg He Hch Hs Hcl Hq Hff Huf].
  assert (a ∈ F ++ concat C ++ a :: U) as Hin by (rewrite !elem_of_app, elem_of_cons; auto).
  destruct (geo_block _ _ _ _ _ _ a Hg Hin) as (i' & Hi' & Hmg & Hpd & Hlo & Ha0 & Hmod & Hsz & Hend & Hlo' & Hhi).
  rewrite Hi in Hi'. injection Hi' as <-.
  unfold memory_simple_free. heap_step. unfold SIZEOF_HEAPINFO. destruct (Z.eqb_spec (a + 0x20) 0); [lia|].
  assert ((a + 0x20) mod 0x20 = 0) as -> by (rewrite <- Hmod; apply (Z_mod_plus_full a 1 0x20)). cbn [Z.eqb negb].
  destruct (Z.ltb_spec (a + 0x20) (first h)); [lia|]. destruct (Z.leb_spec (last h) (a + 0x20)); [lia|]. cbn [orb].
  rewrite (u64_small (a + 0x20 - 0x20)) by lia. replace (a + 0x20 - 0x20) with a by lia.
  heap_step; [done|exact Hi|]. rewrite Hmg, Hpd. cbn [Z.eqb Pos.eqb negb andb].
  change (HEAP_INFO_MAGIC =? HEAP_INFO_MAGIC) with true. cbn [negb andb].
  pose proof (Huf a i ltac:(left) Hi) as Hus. unfold is_used in Hus. rewrite Hus. cbn [negb].
  rewrite (u64_small ((size i - 1) * 0x20)) by lia. rewrite (u64_small (a + 0x20 + _)) by lia.
  destruct (Z.leb_spec (last h) (a + 0x20 + (size i - 1) * 0x20)); [lia|]. rewrite Z.div_mul by lia.
  heap_step. unfold memclean. rewrite (geo_hdrs_clean _ _ _ _ _ _ a i Hg Hin Hi), set_hdrs_id.
  heap_step; [done|by rewrite Hi|]. heap_step; [done|by apply is_Some_alter_hi; rewrite Hi|].
  heap_step; [done|by do 2 apply is_Some_alter_hi; rewrite Hi|]. do 2 heap_step.
  set (v := Z.lxor (flags i) HEAP_INFO_FLAG_USED). rewrite (u64_small (size i - 2)) by lia.
  match goal with |- wp _ ?x _ _ => set (h1 := x) end.
  assert (limbo h1 F C U a) as Hl by (by eapply (inv_limbo h h1 F C U a i v)).
  assert (exists j, hdrs h1 !! a = Some j /\ size j = size i) as (j & Hj & Esz).
  { unfold h1. cbn. rewrite !lookup_alter_eq, Hi. by eexists. }
  assert (forall k, size <$> hdrs h1 !! k = size <$> hdrs h !! k) as Hsize by (intros k; unfold h1; cbn; by rewrite !alter_keeps).
  assert (forall h' F' C', inv h' F' C' U -> a ∈ F' ++ concat C' -> first h' = first h1 /\ last h' = last h1 /\ dirty h' = dirty h1 ->
    (forall k, size <$> hdrs h' !! k = size <$> hdrs h1 !! k) -> free_post h U a 0 h') as Hpost.
  { intros h' F' C' Hinv' Hlinked (E1 & E2 & E3) Hk. split_and!; [done|by exists F', C'|done|done|intros k; by rewrite Hk|].
    intros k. rewrite E3. unfold h1. cbn. by intros [Hd _]%elem_of_difference. }
  clearbody h1 v. apply wp_bind. rewrite <- Esz. destruct (Z.ltb_spec (size j - 2) 128).
  - eapply wp_free_push; [exact Hl|exact Hj|lia|]. intros h' F' C' Hinv' Hlinked Hends Hk. apply wp_ret. by eapply Hpost.
  - eapply wp_heap_insert_sorted; [exact Hl|destruct Hbig; [lia|done]|]. intros h' F' C' Hinv' Hlinked Hends Hk. apply wp_ret. by eapply Hpost.
Qed.

(** A block that is free already: nothing happens. *)
Lemma free_again h F C U a :
  inv h F C U -> a ∈ F ++ concat C -> memory_simple_free raw (a + 0x20) h = Done (0, h).
Proof using.
  intros [Hg _ _ _ _ _ Hff _] Ha.
  destruct (geo_block _ _ _ _ _ _ a Hg) as (i & Hi & Hmg & Hpd & Hlo & Ha0 & Hmod & Hsz & Hend & Hlo' & Hhi).
  { rewrite app_assoc. apply elem_of_app. by left. }
  unfold memory_simple_free, mbind, cmd_bind, get_heap, SIZEOF_HEAPINFO. destruct (Z.eqb_spec (a + 0x20) 0); [lia|].
  assert ((a + 0x20) mod 0x20 = 0) as -> by (rewrite <- Hmod; apply (Z_mod_plus_full a 1 0x20)). cbn [Z.eqb negb].
  destruct (Z.ltb_spec (a + 0x20) (first h)); [lia|]. destruct (Z.leb_spec (last h) (a + 0x20)); [lia|]. cbn [orb].
  rewrite (u64_small (a + 0x20 - 0x20)) by lia. replace (a + 0x20 - 0x20) with a by lia.
  unfold load. destruct (Z.eqb_spec a 0); [done|]. rewrite (read_hi_Some _ _ _ _ Hi), Hmg, Hpd.
  change (HEAP_INFO_MAGIC =? HEAP_INFO_MAGIC) with true. cbn [negb andb].
  pose proof (Hff a i Ha Hi) as Hus. unfold is_used in Hus. by rewrite Hus.
Qed.
End Free.
