(* ===== verification/SimpleHeapClaims.v ===== *)
(** * What the simple heap promises to the programs that use it *)

From S2P Require Import Prelude SimpleHeap SimpleHeapTheory SimpleHeapProps SimpleHeapAlloc SimpleHeapFree.

(** ** Creation *)

Lemma align_up_spec a : 0 <= a -> a + 0x20 < 2 ^ 64 -> align_up a mod 0x20 = 0 /\ a <= align_up a < a + 0x20.
Proof.
  intros Ha Hlt. unfold align_up. pose proof (Z.mod_pos_bound a 0x20). destruct (Z.eqb_spec (a mod 0x20) 0); [lia|].
  rewrite u64_small by lia. split; [|lia]. replace (a + (0x20 - a mod 0x20)) with ((a / 0x20 + 1) * 0x20).
  - apply Z.mod_mul. lia.
  - pose proof (Z.div_mod a 0x20). lia.
Qed.

Lemma concat_replicate_nil n : concat (replicate n (@nil Z)) = [].
Proof. induction n; [done|]. cbn. done. Qed.

Lemma created_inv heap_start heap_end :
  0 < heap_start -> heap_start + 0xa00 <= heap_end -> heap_end < 2 ^ 64 -> heap_end mod 0x20 = 0 ->
  let h := memory_create_heap_simple heap_start heap_end in inv h [first h] (replicate 128 []) [].
Proof.
  intros Hs Hroom He Hmod. unfold memory_create_heap_simple, SIZEOF_HEAP, SYNC_LOCK_SIZE, SIZEOF_METAINFO, SIZEOF_HEAPINFO.
  rewrite (u64_small (heap_start + 0x38)) by lia. destruct (align_up_spec (heap_start + 0x38)) as [_ H1]; [lia..|].
  set (l := align_up (heap_start + 0x38)) in *. rewrite (u64_small (l + 0x28)) by lia.
  destruct (align_up_spec (l + 0x28)) as [_ H2]; [lia..|]. set (md := align_up (l + 0x28)) in *.
  rewrite (u64_small (md + 0x860)) by lia. destruct (align_up_spec (md + 0x860)) as [Hm H3]; [lia..|].
  set (b := align_up (md + 0x860)) in *. rewrite (u64_small (heap_end - 0x20)) by lia. set (t := heap_end - 0x20) in *.
  assert (t + 0x20 = heap_end) as Et by (unfold t; lia).
  assert (t mod 0x20 = 0) as Ht by (unfold t; rewrite Zminus_mod, Hmod; done).
  assert ((t - b) mod 0x20 = 0) as Hd by (rewrite Zminus_mod, Ht, Hm; done). apply Z.div_exact in Hd; [|lia].
  rewrite (u64_small ((t - b) / 0x20)) by lia. set (n := (t - b) / 0x20) in *. clearbody l md b t n.
  assert (b <> t) by lia. split; cbn [first last hdrs dirty first_empty fast_classes]; try done.
  - rewrite concat_replicate_nil. split; try done.
    + split_and!; [lia|done|done|lia].
    + apply NoDup_singleton.
    + by rewrite lookup_insert_ne, lookup_singleton_ne by lia.
    + intros a ->%list_elem_of_singleton. exists n. rewrite lookup_insert_eq. split_and!; [done|lia..].
    + intros a i k ->%list_elem_of_singleton Hi [j Hk] Hlt. rewrite lookup_insert_eq in Hi. injection Hi as <-. cbn [size].
      rewrite lookup_insert_ne in Hk by lia. apply lookup_singleton_Some in Hk as [<- _]. lia.
    + intros a Ha%elem_of_nil. done.
  - split; [apply NoDup_singleton|intros E%list_elem_of_singleton; lia|].
    intros [|i] a Ha; [|done]. injection Ha as <-. by rewrite lookup_insert_eq.
  - repeat constructor.
  - intros c q [-> Hc]%lookup_replicate. split_and!.
    + by rewrite lookup_replicate_2 by done.
    + apply chain_nil.
    + intros a i Ha%elem_of_nil. done.
  - intros a i Ha Hi. rewrite concat_replicate_nil, app_nil_r in Ha. apply list_elem_of_singleton in Ha as ->.
    rewrite lookup_insert_eq in Hi. by injection Hi as <-.
  - intros a i Ha%elem_of_nil. done.
Qed.

(** ** Programs *)

Section Programs.
Context (raw : Z -> heapinfo_t).

(** The states of a heap under a program, with the headers of the blocks the
    program holds.  The program writes only to the data of blocks it holds and
    frees them once.  It does not free the block that ends at the last header,
    which [free] refuses, nor a block of more than 128 times 0x20 bytes while
    there is no free chain. *)
Inductive runs : heap_t -> list Z -> Prop :=
| runs_create s e :
    0 < s -> s + 0xa00 <= e -> e < 2 ^ 64 -> e mod 0x20 = 0 -> runs (memory_create_heap_simple s e) []
| runs_malloc h U sz p h' :
    runs h U -> 1 <= sz <= 2 ^ 63 -> memory_simple_malloc_ext raw sz 0 h = Done (p, h') ->
    runs h' (if p =? 0 then U else p - 0x20 :: U)
| runs_write h U a i k :
    runs h U -> a ∈ U -> hdrs h !! a = Some i -> a < k < a + size i * 0x20 -> k mod 0x20 = 0 -> runs (user_write k h) U
| runs_free h U U' a i r h' :
    runs h U -> U ≡ₚ a :: U' -> hdrs h !! a = Some i -> a + size i * 0x20 < last h ->
    (size i < 130 \/ first_empty h <> 0) -> memory_simple_free raw (a + 0x20) h = Done (r, h') -> runs h' U'.

Lemma first_empty_nonempty h F C U : inv h F C U -> first_empty h <> 0 -> F <> [].
Proof using. intros [_ He _ _ _ _ _ _] H ->. by rewrite He in H. Qed.

Lemma malloc_post_inv h F C U sz p h' :
  inv h F C U -> malloc_post h F C U sz p h' -> exists F' C', inv h' F' C' (if p =? 0 then U else p - 0x20 :: U).
Proof using.
  intros Hinv [(-> & -> & _)|(a & n & -> & Hal & _)]; [by exists F, C|].
  destruct (al_inv _ _ _ _ _ Hal) as (F' & C' & Hinv'). exists F', C'.
  destruct (geo_block _ _ _ _ _ _ a (inv_geo _ _ _ _ Hinv')) as (_ & _ & _ & _ & Hlo & _ & _ & _ & _ & Hlo' & _).
  { rewrite !elem_of_app, elem_of_cons. auto. }
  destruct (Z.eqb_spec (a + 0x20) 0); [lia|]. by replace (a + 0x20 - 0x20) with a by lia.
Qed.

Lemma runs_inv h U : runs h U -> exists F C, inv h F C U.
Proof using.
  induction 1 as [s e|h U sz p h' _ (F & C & Hinv) Hsz Hrun|h U a i k _ (F & C & Hinv) Ha Hi Hk Hm
                 |h U U' a i r h' _ (F & C & Hinv) Hp Hi Hlast Hbig Hrun].
  - eexists _, _. by apply created_inv.
  - eapply malloc_post_inv; [exact Hinv|]. eapply wp_result; [by eapply wp_heap_malloc|exact Hrun].
  - exists F, C. destruct Hinv as [Hg ? ? ? ? ? ? ?]. split; try done. cbn. by eapply geo_write.
  - apply (inv_perm _ _ _ _ _ Hp) in Hinv as Hinv'.
    assert (size i < 130 \/ F <> []) as Hbig' by (destruct Hbig; [by left|right; by eapply first_empty_nonempty]).
    pose proof (wp_free raw h F C U' a i Hinv' Hi Hlast Hbig') as Hw.
    destruct (wp_result _ _ _ _ _ _ Hw Hrun) as (_ & (F' & C' & H & _) & _). by exists F', C'.
Qed.

(** The data at [p] of a block that was allocated: inside the heap, away from
    all blocks in [U], and all zero. *)
Record fresh (h' : heap_t) (U : list Z) (p sz : Z) : Prop := {
  fr_aligned : p mod 0x20 = 0;
  fr_inside : first h' < p /\ p + sz <= last h';
  fr_apart b i : b ∈ U -> hdrs h' !! b = Some i -> p + sz <= b \/ b + size i * 0x20 <= p;
  fr_zero k : p <= k < p + sz -> (k ∉ dirty h') /\ hdrs h' !! k = None;
}.

Lemma allocated_fresh h h' F C U a n sz :
  inv h F C U -> allocated h h' U a n -> sz <= (n - 1) * 0x20 -> fresh h' U (a + 0x20) sz.
Proof using.
  intros Hinv [Hnew (i & Hi & <-) [E1 E2] (F' & C' & Hinv') Hd Ho] Hsz.
  pose proof (inv_geo _ _ _ _ Hinv') as Hg. set (bs := F' ++ concat C' ++ a :: U) in *.
  assert (a ∈ bs) as Ha by (unfold bs; rewrite !elem_of_app, elem_of_cons; auto).
  assert (forall b, b ∈ U -> b ∈ bs) as HU by (intros b Hb; unfold bs; rewrite !elem_of_app, elem_of_cons; auto).
  destruct (geo_block _ _ _ _ _ _ a Hg Ha) as (i' & Hi' & _ & _ & Hlo & Ha0 & Hmod & H2 & Hend & Hlo' & Hhi).
  rewrite Hi in Hi'. injection Hi' as <-.
  assert (forall b j, b ∈ U -> hdrs h' !! b = Some j -> a + size i * 0x20 <= b \/ b + size j * 0x20 <= a) as Hapart.
  { intros b j Hb Hj. destruct (Z.lt_trichotomy a b) as [Hlt|[->|Hlt]]; [left|done|right];
      by eapply (geo_disjoint _ _ _ _ _ _ _ _ _ Hg); auto. }
  split.
  - rewrite <- Hmod. apply (Z_mod_plus_full a 1 0x20).
  - lia.
  - intros b j Hb Hj. destruct (Hapart b j Hb Hj); [left|right]; lia.
  - intros k Hk. split.
    + rewrite Hd. intros (_ & b & j & Hb & Hj & Hbk)%(g_dirty _ _ _ _ _ _ (inv_geo _ _ _ _ Hinv)).
      specialize (Ho b Hb). rewrite Hj in Ho. destruct (hdrs h' !! b) as [j'|] eqn:Ej; [|done]. injection Ho as Ho.
      destruct (Hapart b j' Hb Ej); lia.
    + destruct (hdrs h' !! k) eqn:Ek; [|done].
      pose proof (g_stray _ _ _ _ _ _ Hg a i k Ha Hi (ex_intro _ _ Ek)). lia.
Qed.

(** C9.  Take a heap that was created on a range of at least 0xa00 bytes whose end
    is aligned to 32 bytes, and a program that requests blocks of 1 to [2 ^ 63]
    bytes without alignment, writes only inside the blocks it holds, and frees
    only those, once, and neither the block that ends at the last header nor a
    block of more than 128 times 32 bytes while the free chain is empty (the
    cases [free_last_block_refused] and [free_large_without_chain_halts]).  In
    every state it can bring the heap to, [malloc] of [sz] bytes, within 1 and
    [2 ^ 63] and without alignment, neither loops nor follows a null pointer.  It
    returns a block of at least [sz] bytes inside the heap that overlaps no other
    block the program holds and holds zeros only, or 0 and leaves the heap as it
    was, in which case no block of the free chain is large enough. *)
Theorem heap_malloc_correct h U sz :
  runs h U -> 1 <= sz <= 2 ^ 63 ->
  exists p h', memory_simple_malloc_ext raw sz 0 h = Done (p, h') /\
    ((p = 0 /\ h' = h /\ exists F C, inv h F C U /\ forall a i, a ∈ F -> hdrs h !! a = Some i -> (size i - 1) * 0x20 < sz) \/
     (p <> 0 /\ fresh h' U p sz /\ (forall b, b ∈ U -> size <$> hdrs h' !! b = size <$> hdrs h !! b) /\ runs h' (p - 0x20 :: U))).
Proof using.
  intros Hr Hsz. destruct (runs_inv h U Hr) as (F & C & Hinv). pose proof (slots_bounds sz Hsz) as [_ Hb].
  pose proof (wp_heap_malloc raw h F C U sz Hinv Hsz) as Hw. unfold wp in Hw.
  destruct (memory_simple_malloc_ext raw sz 0 h) as [[p h']| |] eqn:E; [|done..]. exists p, h'. split; [done|].
  pose proof (runs_malloc h U sz p h' Hr Hsz E) as Hr'. destruct Hw as [(-> & -> & _ & Hno)|(a & n & -> & Hal & Hn)].
  - left. split_and!; [done..|]. exists F, C. split; [done|]. intros a i Ha Hi. specialize (Hno a i Ha Hi). lia.
  - right. pose proof (allocated_fresh h h' F C U a n sz Hinv Hal) as Hf. specialize (Hf ltac:(lia)).
    assert (a + 0x20 <> 0) as Hp.
    { destruct (runs_inv _ _ Hr') as (F' & C' & Hinv'). pose proof (g_range _ _ _ _ _ _ (inv_geo _ _ _ _ Hinv')) as (H0 & _).
      pose proof (fr_inside _ _ _ _ Hf). lia. }
    destruct (Z.eqb_spec (a + 0x20) 0); [done|]. split_and!; try done. apply (al_others _ _ _ _ _ Hal).
Qed.

(** C10.  In the states of such a program ([runs]: requests without alignment for
    1 to [2 ^ 63] bytes, writes inside its blocks, and frees as here), [free] of a
    block the program holds returns 0 if the block does not end at the last
    header and has at most 128 times 32 bytes or the free chain is not empty; the
    block is not used any more, its data are zero again, the other blocks keep
    their sizes, and a second [free] of the same address changes nothing. *)
Theorem heap_free_correct h U U' a i :
  runs h U -> U ≡ₚ a :: U' -> hdrs h !! a = Some i -> a + size i * 0x20 < last h ->
  (size i < 130 \/ first_empty h <> 0) ->
  exists h', memory_simple_free raw (a + 0x20) h = Done (0, h') /\ runs h' U' /\
    (forall k, a < k < a + size i * 0x20 -> k ∉ dirty h') /\
    (forall b, b ∈ U' -> size <$> hdrs h' !! b = size <$> hdrs h !! b) /\
    memory_simple_free raw (a + 0x20) h' = Done (0, h').
Proof using.
  intros Hr Hp Hi Hlast Hbig. destruct (runs_inv h U Hr) as (F & C & Hinv). apply (inv_perm _ _ _ _ _ Hp) in Hinv.
  assert (size i < 130 \/ F <> []) as Hbig' by (destruct Hbig; [by left|right; by eapply first_empty_nonempty]).
  pose proof (wp_free raw h F C U' a i Hinv Hi Hlast Hbig') as Hw. unfold wp in Hw.
  destruct (memory_simple_free raw (a + 0x20) h) as [[r h']| |] eqn:E; [|done..].
  destruct Hw as (-> & (F' & C' & Hinv' & Ha) & E1 & E2 & Hsz & _). exists h'.
  pose proof (Hsz a) as Hsa. rewrite Hi in Hsa. destruct (hdrs h' !! a) as [j|] eqn:Ej; [|done]. injection Hsa as Hsa.
  pose proof (inv_geo _ _ _ _ Hinv') as Hg. pose proof (g_nodup _ _ _ _ _ _ Hg) as Hnd. rewrite app_assoc in Hnd.
  apply NoDup_app in Hnd as (_ & Hdis & _). split_and!; [done|by eapply runs_free| |by intros b _|by eapply free_again].
  intros k Hk. eapply (geo_clean _ _ _ _ _ _ a j k Hg); [rewrite app_assoc; apply elem_of_app; by left|by apply Hdis|done|lia].
Qed.

(** C11.  In every state that a program of such requests ([runs]: a heap of at
    least 0xa00 bytes, requests without alignment for 1 to [2 ^ 63] bytes, writes
    inside its blocks, frees that neither give back the block at the last header
    nor a large block while the free chain is empty) can bring the heap to, the
    blocks it holds lie inside the heap and do not overlap, and no free block
    overlaps one of them. *)
Theorem heap_blocks_disjoint h U :
  runs h U ->
  exists F C, inv h F C U /\
    (forall a i, a ∈ U -> hdrs h !! a = Some i -> first h <= a /\ a + size i * 0x20 <= last h /\ is_used i = true) /\
    (forall a b i j, a ∈ U -> b ∈ U ++ F ++ concat C -> a <> b -> hdrs h !! a = Some i -> hdrs h !! b = Some j ->
       a + size i * 0x20 <= b \/ b + size j * 0x20 <= a).
Proof using.
  intros Hr. destruct (runs_inv h U Hr) as (F & C & Hinv). exists F, C. split; [done|].
  pose proof (inv_geo _ _ _ _ Hinv) as Hg. split.
  - intros a i Ha Hi. destruct (geo_block _ _ _ _ _ _ a Hg (g_used _ _ _ _ _ _ Hg a Ha)) as (i' & Hi' & _ & _ & H).
    rewrite Hi in Hi'. injection Hi' as <-. split_and!; [lia|lia|]. by eapply (inv_used_flags _ _ _ _ Hinv).
  - intros a b i j Ha Hb Hne Hi Hj. pose proof (g_used _ _ _ _ _ _ Hg a Ha) as Ha'.
    assert (b ∈ F ++ concat C ++ U) as Hb' by (rewrite !elem_of_app in *; tauto).
    destruct (Z.lt_trichotomy a b) as [Hlt|[->|Hlt]]; [left|done|right]; by eapply (geo_disjoint _ _ _ _ _ _ _ _ _ Hg).
Qed.
End Programs.

(** ** Examples *)

Definition zero_raw (a : Z) : heapinfo_t := zero_hi.
Definition demo_start : heap_t := memory_create_heap_simple 0x1000 0x4000.

(** The heap after a command. *)
Definition after {A} (c : cmd heap_t A) (h : heap_t) : heap_t := match c h with Done (_, h') => h' | _ => h end.
Definition demo_malloc : heap_t := after (memory_simple_malloc_ext zero_raw 100 0) demo_start.

Lemma demo_start_runs : runs zero_raw demo_start [].
Proof. by apply runs_create. Qed.

Lemma demo_malloc_runs : runs zero_raw demo_malloc [0x18e0].
Proof. eapply (runs_malloc _ demo_start [] 100 0x1900); [apply demo_start_runs|lia|]. vm_compute. reflexivity. Qed.

Lemma heap_malloc_correct_witness :
  exists p h', memory_simple_malloc_ext zero_raw 50 0 demo_malloc = Done (p, h') /\ p = 0x19a0 /\ fresh h' [0x18e0] p 50.
Proof.
  destruct (heap_malloc_correct zero_raw demo_malloc [0x18e0] 50 demo_malloc_runs ltac:(lia)) as (p & h' & E & H).
  assert (p = 0x19a0) as Ep. { vm_compute in E. injection E as E _. by symmetry. }
  exists p, h'. split; [exact E|]. split; [exact Ep|]. destruct H as [(E0 & _)|(_ & Hf & _)]; [lia|exact Hf].
Defined.

Lemma heap_free_correct_witness :
  exists h', memory_simple_free zero_raw 0x1900 demo_malloc = Done (0, h') /\ runs zero_raw h' [] /\
    memory_simple_free zero_raw 0x1900 h' = Done (0, h').
Proof.
  assert (exists i, hdrs demo_malloc !! 0x18e0 = Some i /\ 0x18e0 + size i * 0x20 < last demo_malloc /\ size i < 130)
    as (i & Hi & H1 & H2) by (vm_compute; eexists; split; [reflexivity|split; reflexivity]).
  destruct (heap_free_correct zero_raw demo_malloc [0x18e0] [] 0x18e0 i demo_malloc_runs (reflexivity _) Hi H1 (or_introl H2))
    as (h' & E & Hr & _ & _ & E2).
  exists h'. split; [exact E|]. split; [exact Hr|exact E2].
Defined.

Lemma heap_blocks_disjoint_witness :
  exists F C, inv demo_malloc F C [0x18e0].
Proof.
  destruct (heap_blocks_disjoint zero_raw demo_malloc [0x18e0] demo_malloc_runs) as (F & C & H & _).
  exists F, C. exact H.
Defined.

(** ** Requests that the code does not serve *)

(** The block that ends at the last header cannot be given back. *)
Lemma free_last_block_refused :
  (p ← memory_simple_malloc_ext zero_raw (311 * 0x20) 0; r ← memory_simple_free zero_raw p; mret (p, r)) demo_start =
  Done (0x1900, -1, after (memory_simple_malloc_ext zero_raw (311 * 0x20) 0) demo_start).
Proof. vm_compute. reflexivity. Qed.

(** A large block is given back while the free chain is empty: a null pointer
    is followed. *)
Lemma free_large_without_chain_halts :
  (p ← memory_simple_malloc_ext zero_raw (150 * 0x20) 0; q ← memory_simple_malloc_ext zero_raw (160 * 0x20) 0;
   memory_simple_free zero_raw p) demo_start = Halted.
Proof. vm_compute. reflexivity. Qed.

(** An aligned request takes the whole of the only free block: a null pointer is
    followed. *)
Lemma aligned_malloc_whole_block_halts :
  memory_simple_malloc_ext zero_raw 0x40 0x40 (memory_create_heap_simple 0x1020 0x19c0) = Halted.
Proof. vm_compute. reflexivity. Qed.

(** A size close to the largest number becomes 0 when it is rounded up, and the
    request succeeds: the block has no room for data. *)
Lemma malloc_size_wraps :
  let c := memory_simple_malloc_ext zero_raw (2 ^ 64 - 1) 0 in
  c demo_start = Done (0x1900, after c demo_start) /\ size <$> hdrs (after c demo_start) !! 0x18e0 = Some 1.
Proof. split; vm_compute; reflexivity. Qed.

(** The right part of a block after an aligned request is in the free chain and
    marked as used. *)
Lemma aligned_malloc_right_part_used :
  let h' := after (memory_simple_malloc_ext zero_raw 0x200 0x100) (memory_create_heap_simple 0x1080 0x4000) in
  (i ← hdrs h' !! first_empty h'; is_used <$> hdrs h' !! next i) = Some true.
Proof. vm_compute. reflexivity. Qed.
