(* ===== verification/RbTree.v ===== *)
(** * Red-black trees ([cc/lib/rbtree.64.c])

    The nodes are records of a memory, linked to their children and to their
    parent.  Every pointer of the code is a pointer here ([None] is [NULL]), and
    an access through one that is [NULL] or freed ends in [Halted].

    Keys and data are objects; the comparator of the index is a parameter.  The
    lock of the tree is left out, an operation is one step.  Whether and where
    [memory_malloc_ext] finds room for a node is the parameter [NodeHeap]; its
    memory is zero.  The stack and the results of a traversal are sequences,
    which the linked list implements. *)

From S2P Require Import Prelude.

Inductive rbtree_color_t := RBTREE_COLOR_RED | RBTREE_COLOR_BLACK.

#[export] Instance rbtree_color_eq_dec : EqDecision rbtree_color_t.
Proof. solve_decision. Defined.

Inductive index_key_search_criteria_t :=
| INDEXER_KEY_COMPARATOR_CRITERIA_NULL
| INDEXER_KEY_COMPARATOR_CRITERIA_LESS
| INDEXER_KEY_COMPARATOR_CRITERIA_LESSOREQUAL
| INDEXER_KEY_COMPARATOR_CRITERIA_EQUAL
| INDEXER_KEY_COMPARATOR_CRITERIA_EQUALORGREATER
| INDEXER_KEY_COMPARATOR_CRITERIA_GREATER
| INDEXER_KEY_COMPARATOR_CRITERIA_BETWEEN.

Abbreviation loc := positive.

Record rbtree_node_t (K D : Type) := mk_node {
  parent : option loc;
  left : option loc;
  right : option loc;
  color : rbtree_color_t;
  key : K;
  data : D;
}.
Arguments mk_node {K D}.
Arguments parent {K D}.
Arguments left {K D}.
Arguments right {K D}.
Arguments color {K D}.
Arguments key {K D}.
Arguments data {K D}.

(** The tree and the memory its nodes live in. *)
Record rbtree_t (K D : Type) := mk_rbtree {
  size : Z;
  root : option loc;
  nodes : gmap loc (rbtree_node_t K D);
}.
Arguments mk_rbtree {K D}.
Arguments size {K D}.
Arguments root {K D}.
Arguments nodes {K D}.

(** The memory a node gets from [memory_malloc_ext], [None] for [NULL]. *)
Class NodeHeap (K D : Type) := { malloc_node : gmap loc (rbtree_node_t K D) -> option loc }.

Section Operations.
Context {K D : Type} `{NH : NodeHeap K D} (comparator : K -> K -> Z).

Abbreviation node := (rbtree_node_t K D).
Abbreviation tree := (rbtree_t K D).
Abbreviation M := (cmd (rbtree_t K D)).

(** ** Fields and pointers *)

Definition get_tree : M tree := fun s => Done (s, s).
Definition set_root (p : option loc) : M unit := fun s => Done (tt, mk_rbtree (size s) p (nodes s)).
Definition add_size (n : Z) : M unit := fun s => Done (tt, mk_rbtree (u64 (size s + n)) (root s) (nodes s)).

Definition load (p : option loc) : M node := fun s =>
  match p ≫= fun q => nodes s !! q with
  | Some n => Done (n, s)
  | None => Halted
  end.

Definition store (p : option loc) (f : node -> node) : M unit := fun s =>
  match p with
  | Some q =>
    match nodes s !! q with
    | Some n => Done (tt, mk_rbtree (size s) (root s) (<[q := f n]> (nodes s)))
    | None => Halted
    end
  | None => Halted
  end.

Definition set_parent (p v : option loc) : M unit :=
  store p (fun n => mk_node v (left n) (right n) (color n) (key n) (data n)).
Definition set_left (p v : option loc) : M unit :=
  store p (fun n => mk_node (parent n) v (right n) (color n) (key n) (data n)).
Definition set_right (p v : option loc) : M unit :=
  store p (fun n => mk_node (parent n) (left n) v (color n) (key n) (data n)).
Definition set_color (p : option loc) (c : rbtree_color_t) : M unit :=
  store p (fun n => mk_node (parent n) (left n) (right n) c (key n) (data n)).
Definition set_item (p : option loc) (k : K) (d : D) : M unit :=
  store p (fun n => mk_node (parent n) (left n) (right n) (color n) k d).

(** [memory_free_ext(rbt->heap, p)]. *)
Definition free_node (p : option loc) : M unit := fun s =>
  Done (tt, mk_rbtree (size s) (root s) (match p with Some q => delete q (nodes s) | None => nodes s end)).

(** ** Nodes *)

Definition rbtree_node_new (k : K) (d : D) : M (option loc) := fun s =>
  match malloc_node (nodes s) with
  | Some p => Done (Some p, mk_rbtree (size s) (root s) (<[p := mk_node None None None RBTREE_COLOR_RED k d]> (nodes s)))
  | None => Done (None, s)
  end.

Definition rbtree_node_is_on_left (rbn : option loc) : M bool :=
  n ← load rbn;
  match parent n with
  | None => mret false
  | Some _ =>
    p ← load (parent n);
    mret (bool_decide (rbn = left p))
  end.

(** [p && p->color == RBTREE_COLOR_RED]. *)
Definition is_red (p : option loc) : M bool :=
  match p with
  | None => mret false
  | Some _ =>
    n ← load p;
    mret (bool_decide (color n = RBTREE_COLOR_RED))
  end.

Definition rbtree_node_has_red_child (rbn : option loc) : M bool :=
  n ← load rbn;
  b ← is_red (left n);
  if b : bool then mret true else is_red (right n).

Definition rbtree_node_uncle (rbn : option loc) : M (option loc) :=
  n ← load rbn;
  match parent n with
  | None => mret None
  | Some _ =>
    p ← load (parent n);
    match parent p with
    | None => mret None
    | Some _ =>
      b ← rbtree_node_is_on_left (parent n);
      g ← load (parent p);
      mret (if b : bool then right g else left g)
    end
  end.

Definition rbtree_node_sibling (rbn : option loc) : M (option loc) :=
  match rbn with
  | None => mret None
  | Some _ =>
    n ← load rbn;
    match parent n with
    | None => mret None
    | Some _ =>
      b ← rbtree_node_is_on_left rbn;
      p ← load (parent n);
      mret (if b : bool then right p else left p)
    end
  end.

Definition rbtree_node_move_down (rbn new_parent : option loc) : M unit :=
  n ← load rbn;
  match parent n with
  | None => mret tt
  | Some _ =>
    b ← rbtree_node_is_on_left rbn;
    if b : bool then set_left (parent n) new_parent else set_right (parent n) new_parent
  end;;
  set_parent new_parent (parent n);;
  set_parent rbn new_parent.

Definition rbtree_node_swap_colors (rbn1 rbn2 : option loc) : M unit :=
  n1 ← load rbn1;
  n2 ← load rbn2;
  set_color rbn1 (color n2);;
  set_color rbn2 (color n1).

Definition rbtree_node_swap_values (rbn1 rbn2 : option loc) : M unit :=
  n1 ← load rbn1;
  n2 ← load rbn2;
  set_item rbn1 (key n2) (data n2);;
  set_item rbn2 (key n1) (data n1).

Fixpoint rbtree_node_successor (fuel : nat) (x : option loc) : M (option loc) :=
  match fuel with
  | O => out_of_fuel
  | S fuel =>
    n ← load x;
    match left n with
    | None => mret x
    | Some _ => rbtree_node_successor fuel (left n)
    end
  end.

Definition rbtree_node_bst_replace (fuel : nat) (x : option loc) : M (option loc) :=
  n ← load x;
  match left n, right n with
  | Some _, Some _ => rbtree_node_successor fuel (right n)
  | None, None => mret None
  | Some _, None => mret (left n)
  | None, Some _ => mret (right n)
  end.

(** ** Rotations *)

Definition rbtree_left_rotate (rbn : option loc) : M unit :=
  n ← load rbn;
  t ← get_tree;
  (if decide (rbn = root t) then set_root (right n) else mret tt);;
  rbtree_node_move_down rbn (right n);;
  p ← load (right n);
  set_right rbn (left p);;
  match left p with
  | None => mret tt
  | Some _ => set_parent (left p) rbn
  end;;
  set_left (right n) rbn.

Definition rbtree_right_rotate (rbn : option loc) : M unit :=
  n ← load rbn;
  t ← get_tree;
  (if decide (rbn = root t) then set_root (left n) else mret tt);;
  rbtree_node_move_down rbn (left n);;
  p ← load (left n);
  set_left rbn (right p);;
  match right p with
  | None => mret tt
  | Some _ => set_parent (right p) rbn
  end;;
  set_right (left n) rbn.

(** ** Balance *)

(** The uncle is black. *)
Definition redred_rotate (rbn parent_ grandparent : option loc) : M unit :=
  parent_on_left ← rbtree_node_is_on_left parent_;
  rbn_on_left ← rbtree_node_is_on_left rbn;
  if parent_on_left : bool then
    (if rbn_on_left : bool then rbtree_node_swap_colors parent_ grandparent
     else
       rbtree_left_rotate parent_;;
       rbtree_node_swap_colors rbn grandparent);;
    rbtree_right_rotate grandparent
  else
    (if rbn_on_left : bool then
       rbtree_right_rotate parent_;;
       rbtree_node_swap_colors rbn grandparent
     else rbtree_node_swap_colors parent_ grandparent);;
    rbtree_left_rotate grandparent.

Fixpoint rbtree_fix_redred (fuel : nat) (rbn : option loc) : M unit :=
  match fuel with
  | O => out_of_fuel
  | S fuel =>
    t ← get_tree;
    if decide (rbn = root t) then set_color rbn RBTREE_COLOR_BLACK
    else
      n ← load rbn;
      let parent_ := parent n in
      p ← load parent_;
      let grandparent := parent p in
      uncle ← rbtree_node_uncle rbn;
      if decide (color p = RBTREE_COLOR_BLACK) then mret tt
      else
        ur ← is_red uncle;
        if ur : bool then
          set_color parent_ RBTREE_COLOR_BLACK;;
          set_color uncle RBTREE_COLOR_BLACK;;
          set_color grandparent RBTREE_COLOR_RED;;
          rbtree_fix_redred fuel grandparent
        else
          redred_rotate rbn parent_ grandparent
  end.

(** The sibling is black and has a red child. *)
Definition blackblack_rotate (sibling parent_ : option loc) : M unit :=
  s ← load sibling;
  lr ← is_red (left s);
  on_left ← rbtree_node_is_on_left sibling;
  p ← load parent_;
  (if lr : bool then
     if on_left : bool then
       set_color (left s) (color s);;
       set_color sibling (color p);;
       rbtree_right_rotate parent_
     else
       set_color (left s) (color p);;
       rbtree_right_rotate sibling;;
       rbtree_left_rotate parent_
   else
     if on_left : bool then
       set_color (right s) (color p);;
       rbtree_left_rotate sibling;;
       rbtree_right_rotate parent_
     else
       set_color (right s) (color s);;
       set_color sibling (color p);;
       rbtree_left_rotate parent_);;
  set_color parent_ RBTREE_COLOR_BLACK.

Fixpoint rbtree_fix_blackblack (fuel : nat) (rbn : option loc) : M unit :=
  match fuel with
  | O => out_of_fuel
  | S fuel =>
    t ← get_tree;
    if decide (rbn = root t) then mret tt
    else if decide (rbn = None) then mret tt
    else
      sibling ← rbtree_node_sibling rbn;
      n ← load rbn;
      let parent_ := parent n in
      match sibling with
      | None => rbtree_fix_blackblack fuel parent_
      | Some _ =>
        s ← load sibling;
        if decide (color s = RBTREE_COLOR_RED) then
          set_color parent_ RBTREE_COLOR_RED;;
          set_color sibling RBTREE_COLOR_BLACK;;
          on_left ← rbtree_node_is_on_left sibling;
          (if on_left : bool then rbtree_right_rotate parent_ else rbtree_left_rotate parent_);;
          rbtree_fix_blackblack fuel rbn
        else
          red ← rbtree_node_has_red_child sibling;
          if red : bool then blackblack_rotate sibling parent_
          else
            set_color sibling RBTREE_COLOR_RED;;
            p ← load parent_;
            if decide (color p = RBTREE_COLOR_BLACK) then rbtree_fix_blackblack fuel parent_
            else set_color parent_ RBTREE_COLOR_BLACK
      end
  end.

(** ** Deletion of a node *)

(** A node without children. *)
Definition delete_leaf (fuel : nat) (v : option loc) : M unit :=
  n ← load v;
  let parent_ := parent n in
  t ← get_tree;
  (if decide (v = root t) then set_root None
   else
     (if decide (color n = RBTREE_COLOR_BLACK) then rbtree_fix_blackblack fuel v
      else
        v_sibling ← rbtree_node_sibling v;
        match v_sibling with
        | None => mret tt
        | Some _ => set_color v_sibling RBTREE_COLOR_RED
        end);;
     on_left ← rbtree_node_is_on_left v;
     if on_left : bool then set_left parent_ None
     else match parent_ with None => mret tt | Some _ => set_right parent_ None end);;
  free_node v.

(** A node with the only child [u]. *)
Definition delete_single (fuel : nat) (v u : option loc) : M unit :=
  n ← load v;
  let parent_ := parent n in
  un ← load u;
  let uv_black := bool_decide (color un = RBTREE_COLOR_BLACK) && bool_decide (color n = RBTREE_COLOR_BLACK) in
  t ← get_tree;
  if decide (v = root t) then
    set_item v (key un) (data un);;
    set_left v None;;
    set_right v None;;
    free_node u
  else
    on_left ← rbtree_node_is_on_left v;
    (if on_left : bool then set_left parent_ u else set_right parent_ u);;
    free_node v;;
    set_parent u parent_;;
    if uv_black then rbtree_fix_blackblack fuel u else set_color u RBTREE_COLOR_BLACK.

Fixpoint rbtree_delete_node (fuel : nat) (v : option loc) : M unit :=
  match fuel with
  | O => out_of_fuel
  | S fuel =>
    t ← get_tree;
    let steps := (2 + base.size (nodes t))%nat in
    u ← rbtree_node_bst_replace steps v;
    match u with
    | None => delete_leaf steps v
    | Some _ =>
      n ← load v;
      match left n, right n with
      | Some _, Some _ =>
        rbtree_node_swap_values u v;;
        rbtree_delete_node fuel u
      | _, _ => delete_single steps v u
      end
    end
  end.

(** ** Search *)

(** The node with the key, or the node below which it belongs. *)
Fixpoint search_loop (fuel : nat) (k : K) (temp : option loc) : M (bool * option loc) :=
  match fuel with
  | O => out_of_fuel
  | S fuel =>
    match temp with
    | None => mret (false, None)
    | Some _ =>
      n ← load temp;
      let c_res := comparator k (key n) in
      if c_res =? -1 then
        match left n with None => mret (false, temp) | Some _ => search_loop fuel k (left n) end
      else if c_res =? 0 then mret (true, temp)
      else match right n with None => mret (false, temp) | Some _ => search_loop fuel k (right n) end
    end
  end.

Definition rbtree_search_node (k : K) : M (bool * option loc) :=
  t ← get_tree;
  search_loop (2 + base.size (nodes t))%nat k (root t).

Definition rbtree_size (t : tree) : Z := size t.

Definition rbtree_contains (k : K) : M bool :=
  r ← rbtree_search_node k;
  mret r.1.

Definition rbtree_find (k : K) : M (option D) :=
  r ← rbtree_search_node k;
  if r.1 : bool then
    n ← load r.2;
    mret (Some (data n))
  else mret None.

(** ** Insertion and deletion *)

(** The result and what is written to [removed_data]. *)
Definition rbtree_insert (k : K) (d : D) : M (Z * option D) :=
  t ← get_tree;
  match root t with
  | None =>
    new_node ← rbtree_node_new k d;
    match new_node with
    | None => mret (-1, None)
    | Some _ =>
      set_root new_node;;
      set_color new_node RBTREE_COLOR_BLACK;;
      add_size 1;;
      mret (0, None)
    end
  | Some _ =>
    r ← rbtree_search_node k;
    let fn := r.2 in
    if r.1 : bool then
      n ← load fn;
      set_item fn k d;;
      mret (0, Some (data n))
    else
      new_node ← rbtree_node_new k d;
      match new_node with
      | None => mret (-1, None)
      | Some _ =>
        set_parent new_node fn;;
        n ← load fn;
        (if comparator k (key n) =? -1 then set_left fn new_node else set_right fn new_node);;
        t ← get_tree;
        rbtree_fix_redred (2 + base.size (nodes t))%nat new_node;;
        add_size 1;;
        mret (0, None)
      end
  end.

Definition rbtree_delete (k : K) : M (Z * option D) :=
  r ← rbtree_search_node k;
  let fn := r.2 in
  if r.1 : bool then
    n ← load fn;
    rbtree_delete_node 2 fn;;
    add_size (-1);;
    mret (0, Some (data n))
  else mret (0, None).

(** ** Creation and destruction *)

Definition rbtree_create_index_with_heap (rbt_ok idx_ok : bool) : option tree :=
  if rbt_ok && idx_ok then Some (mk_rbtree 0 None ∅) else None.

(** Frees the nodes from below. *)
Fixpoint destroy_loop (fuel : nat) (rbn : option loc) : M unit :=
  match fuel with
  | O => out_of_fuel
  | S fuel =>
    n ← load rbn;
    match left n, right n with
    | Some _, _ => destroy_loop fuel (left n)
    | None, Some _ => destroy_loop fuel (right n)
    | None, None =>
      match parent n with
      | None => free_node rbn
      | Some _ =>
        p ← load (parent n);
        (if decide (rbn = left p) then set_left (parent n) None else set_right (parent n) None);;
        free_node rbn;;
        destroy_loop fuel (parent n)
      end
    end
  end.

Definition rbtree_destroy_index : M Z :=
  t ← get_tree;
  match root t with
  | None => mret 0
  | Some _ =>
    destroy_loop (2 * base.size (nodes t))%nat (root t);;
    mret 0
  end.

(** ** Traversal *)

(** What the inner loop does at a node: whether the node is pushed, and where it
    goes on ([None] leaves the loop there). *)
Definition visit (criteria : index_key_search_criteria_t) (key1 key2 : K) (n : node) : bool * option (option loc) :=
  let c_res_1 := comparator (key n) key1 in
  match criteria with
  | INDEXER_KEY_COMPARATOR_CRITERIA_NULL => (true, Some (left n))
  | INDEXER_KEY_COMPARATOR_CRITERIA_LESS => (c_res_1 =? -1, Some (left n))
  | INDEXER_KEY_COMPARATOR_CRITERIA_LESSOREQUAL => (c_res_1 <=? 0, Some (left n))
  | INDEXER_KEY_COMPARATOR_CRITERIA_EQUAL =>
    if c_res_1 =? 0 then (true, Some (left n))
    else if c_res_1 =? -1 then (false, None)
    else (false, Some (left n))
  | INDEXER_KEY_COMPARATOR_CRITERIA_EQUALORGREATER =>
    if 0 <=? c_res_1 then (true, Some (left n))
    else (false, Some (match right n with Some _ => right n | None => left n end))
  | INDEXER_KEY_COMPARATOR_CRITERIA_GREATER =>
    if 0 <? c_res_1 then (true, Some (left n))
    else (false, Some (match right n with Some _ => right n | None => left n end))
  | INDEXER_KEY_COMPARATOR_CRITERIA_BETWEEN =>
    let c_res_2 := comparator (key n) key2 in
    if (0 <=? c_res_1) && (c_res_2 <=? 0) then (true, Some (left n))
    else if c_res_1 =? -1 then
      (false, match right n with Some _ => Some (right n) | None => None end)
    else (false, Some (left n))
  end.

Fixpoint inorder_down (fuel : nat) (criteria : index_key_search_criteria_t) (key1 key2 : K)
    (current : option loc) (stack : list loc) : M (option loc * list loc) :=
  match fuel with
  | O => out_of_fuel
  | S fuel =>
    match current with
    | None => mret (None, stack)
    | Some p =>
      n ← load current;
      let '(push, go) := visit criteria key1 key2 n in
      let stack := if push : bool then p :: stack else stack in
      match go with
      | None => mret (current, stack)
      | Some next => inorder_down fuel criteria key1 key2 next stack
      end
    end
  end.

Fixpoint inorder_loop (fuel : nat) (criteria : index_key_search_criteria_t) (key1 key2 : K)
    (current : option loc) (stack results : list loc) : M (list loc) :=
  match fuel with
  | O => out_of_fuel
  | S fuel =>
    if decide (current = None /\ stack = []) then mret results
    else
      t ← get_tree;
      r ← inorder_down (2 + base.size (nodes t))%nat criteria key1 key2 current stack;
      let '(current, stack, results) :=
        match r.2 with
        | [] => (r.1, [], results)
        | p :: stack => (Some p, stack, results ++ [p])
        end in
      match current with
      | None => inorder_loop fuel criteria key1 key2 None stack results
      | Some _ =>
        n ← load current;
        inorder_loop fuel criteria key1 key2 (right n) stack results
      end
  end.

(** [ok] says whether the stack and the list of results can be allocated. *)
Definition rbtree_inorder (ok : bool) (key1 key2 : K) (criteria : index_key_search_criteria_t) : M (option (list loc)) :=
  if ok then
    t ← get_tree;
    r ← inorder_loop (2 + base.size (nodes t))%nat criteria key1 key2 (root t) [] [];
    mret (Some r)
  else mret None.

(** ** Iterators *)

Record rbtree_iterator_t := mk_iterator {
  it_size : Z;
  current_index : Z;
  items : list loc;
}.

Definition rbtree_search (iter_ok list_ok iterator_ok : bool) (key1 key2 : K)
    (criteria : index_key_search_criteria_t) : M (option rbtree_iterator_t) :=
  if iter_ok then
    r ← rbtree_inorder list_ok key1 key2 criteria;
    match r with
    | None => mret None
    | Some l => mret (if iterator_ok then Some (mk_iterator (Z.of_nat (length l)) 0 l) else None)
    end
  else mret None.

Definition rbtree_create_iterator (iter_ok list_ok iterator_ok : bool) (null : K) : M (option rbtree_iterator_t) :=
  rbtree_search iter_ok list_ok iterator_ok null null INDEXER_KEY_COMPARATOR_CRITERIA_NULL.

Definition rbtree_iterator_end_of_index (iter : rbtree_iterator_t) : Z :=
  if current_index iter =? it_size iter then 0 else 1.

Definition rbtree_iterator_next (iter : rbtree_iterator_t) : rbtree_iterator_t :=
  let i := u64 (current_index iter + 1) in
  mk_iterator (it_size iter) (if it_size iter <=? i then it_size iter else i) (items iter).

Definition rbtree_iterator_get_key (iter : rbtree_iterator_t) : M (option K) :=
  if current_index iter =? it_size iter then mret None
  else
    n ← load (items iter !! Z.to_nat (current_index iter));
    mret (Some (key n)).

Definition rbtree_iterator_get_data (iter : rbtree_iterator_t) : M (option D) :=
  if current_index iter =? it_size iter then mret None
  else
    n ← load (items iter !! Z.to_nat (current_index iter));
    mret (Some (data n)).
End Operations.
