(* ===== verification/RbTreeTheory.v ===== *)
(** * Red-black trees in memory

    [rbt] are trees with the addresses of their nodes, [plug fs t] is the tree
    with [t] at the place that the frames [fs] lead to, from the inside out.
    [is_tree s T]: the memory of [s] is the tree [T].  Every step of the code is
    a step of such trees: loads and stores at a node, and the rotations. *)

From S2P Require Import Prelude RbTree.

Inductive rbt (K D : Type) :=
| Leaf
| Node (p : loc) (c : rbtree_color_t) (k : K) (d : D) (l r : rbt K D).
Arguments Leaf {K D}.
Arguments Node {K D}.

(** A node on the way to a place: whether the place is on its left, the node, and
    its other child. *)
Record frame (K D : Type) := mk_frame {
  on_left : bool;
  f_addr : loc;
  f_color : rbtree_color_t;
  f_key : K;
  f_data : D;
  other : rbt K D;
}.
Arguments mk_frame {K D}.
Arguments on_left {K D}.
Arguments f_addr {K D}.
Arguments f_color {K D}.
Arguments f_key {K D}.
Arguments f_data {K D}.
Arguments other {K D}.

Section Trees.
Context {K D : Type}.
Abbreviation rbt := (rbt K D).
Abbreviation frame := (frame K D).
Abbreviation node := (rbtree_node_t K D).
Implicit Types (t l r : rbt) (f : frame) (fs : list frame) (m : gmap loc node) (s : rbtree_t K D).

Definition addr t : option loc := match t with Leaf => None | Node p _ _ _ _ _ => Some p end.

(** The nodes in order: their addresses, keys and data. *)
Fixpoint cells t : list (loc * (K * D)) :=
  match t with
  | Leaf => []
  | Node p _ k d l r => cells l ++ (p, (k, d)) :: cells r
  end.
Definition addrs t : list loc := (cells t).*1.
Definition elems t : list (K * D) := (cells t).*2.

Definition fill f t : rbt :=
  if on_left f then Node (f_addr f) (f_color f) (f_key f) (f_data f) t (other f)
  else Node (f_addr f) (f_color f) (f_key f) (f_data f) (other f) t.

Fixpoint plug fs t : rbt := match fs with [] => t | f :: fs => plug fs (fill f t) end.

Definition up fs : option loc := match fs with [] => None | f :: _ => Some (f_addr f) end.

(** What lies before and behind a place. *)
Fixpoint before fs : list (loc * (K * D)) :=
  match fs with
  | [] => []
  | f :: fs => before fs ++ if on_left f then [] else cells (other f) ++ [(f_addr f, (f_key f, f_data f))]
  end.
Fixpoint behind fs : list (loc * (K * D)) :=
  match fs with
  | [] => []
  | f :: fs => (if on_left f then (f_addr f, (f_key f, f_data f)) :: cells (other f) else []) ++ behind fs
  end.

Lemma cells_plug fs t : cells (plug fs t) = before fs ++ cells t ++ behind fs.
Proof using.
  revert t. induction fs as [|f fs IH]; intros t; cbn; [by rewrite app_nil_r|].
  rewrite IH. unfold fill. destruct (on_left f); cbn; by rewrite <- ?app_assoc, ?app_nil_r; cbn; rewrite <- ?app_assoc.
Qed.

Lemma plug_app fs gs t : plug (fs ++ gs) t = plug gs (plug fs t).
Proof using. revert t. induction fs as [|f fs IH]; intros t; [done|]. cbn. by rewrite IH. Qed.

(** The addresses around a place. *)
Definition around fs : list loc := (before fs ++ behind fs).*1.

Lemma around_cons f fs : around (f :: fs) ≡ₚ f_addr f :: addrs (other f) ++ around fs.
Proof using.
  unfold around, addrs. cbn. destruct (on_left f); rewrite ?fmap_app; cbn; rewrite ?fmap_app, ?app_nil_r; cbn; solve_Permutation.
Qed.

Lemma addrs_plug fs t : addrs (plug fs t) ≡ₚ addrs t ++ around fs.
Proof using. unfold addrs, around. rewrite cells_plug, !fmap_app. solve_Permutation. Qed.

(** ** Memory *)

Fixpoint rep m (par : option loc) t : Prop :=
  match t with
  | Leaf => True
  | Node p c k d l r => m !! p = Some (mk_node par (addr l) (addr r) c k d) /\ rep m (Some p) l /\ rep m (Some p) r
  end.

Fixpoint rep_around m fs (hole : option loc) : Prop :=
  match fs with
  | [] => True
  | f :: fs =>
    m !! f_addr f = Some (mk_node (up fs) (if on_left f then hole else addr (other f))
      (if on_left f then addr (other f) else hole) (f_color f) (f_key f) (f_data f)) /\
    rep m (Some (f_addr f)) (other f) /\ rep_around m fs (Some (f_addr f))
  end.

Lemma rep_plug_up m fs t : rep m None (plug fs t) <-> rep_around m fs (addr t) /\ rep m (up fs) t.
Proof using.
  revert t. induction fs as [|f fs IH]; intros t; cbn; [tauto|]. rewrite IH. unfold fill. destruct (on_left f); cbn; tauto.
Qed.

Lemma rep_frame m m' par t : rep m par t -> (forall q, q ∈ addrs t -> m' !! q = m !! q) -> rep m' par t.
Proof using.
  revert par. induction t as [|p c k d l IHl r IHr]; intros par; [done|]. cbn. intros (Hp & Hl & Hr) E. unfold addrs in *. cbn in E.
  rewrite fmap_app in E. cbn in E. rewrite E by (apply elem_of_app; right; left). split_and!; [done|apply IHl|apply IHr]; try done;
    intros q Hq; apply E, elem_of_app; [by left|right; by right].
Qed.

Lemma rep_around_frame m m' fs hole :
  rep_around m fs hole -> (forall q, q ∈ around fs -> m' !! q = m !! q) -> rep_around m' fs hole.
Proof using.
  revert hole. induction fs as [|f fs IH]; intros hole; [done|]. cbn. intros (Hp & Ho & Hr) E.
  setoid_rewrite around_cons in E. rewrite E by left. split_and!; [done| |].
  - eapply rep_frame; [done|]. intros q Hq. apply E. right. apply elem_of_app. by left.
  - apply IH; [done|]. intros q Hq. apply E. right. apply elem_of_app. by right.
Qed.

(** Another subtree is put into a place: only the node above it changes. *)
Definition new_child f (hole : option loc) (n : node) : node :=
  if on_left f then mk_node (parent n) hole (right n) (color n) (key n) (data n)
  else mk_node (parent n) (left n) hole (color n) (key n) (data n).

Lemma rep_around_hole m m' fs hole hole' :
  NoDup (around fs) -> rep_around m fs hole ->
  (forall q, q ∈ around fs -> Some q <> up fs -> m' !! q = m !! q) ->
  match fs with [] => True | f :: _ => m' !! f_addr f = new_child f hole' <$> m !! f_addr f end ->
  rep_around m' fs hole'.
Proof using.
  destruct fs as [|f fs]; [done|]. cbn [up]. intros Hnd (Hp & Ho & Hr) E Hf. cbn. rewrite around_cons in Hnd.
  setoid_rewrite around_cons in E. apply NoDup_cons in Hnd as [Hn _].
  assert (forall q, q ∈ addrs (other f) ++ around fs -> m' !! q = m !! q) as E'.
  { intros q Hq. apply E; [by right|]. intros [= ->]. done. }
  rewrite Hf, Hp. split_and!.
  - unfold new_child. by destruct (on_left f).
  - eapply rep_frame; [done|]. intros q Hq. apply E', elem_of_app. by left.
  - eapply rep_around_frame; [done|]. intros q Hq. apply E', elem_of_app. by right.
Qed.

Definition new_parent (par : option loc) (n : node) : node :=
  mk_node par (left n) (right n) (color n) (key n) (data n).

(** A subtree gets another parent. *)
Lemma rep_reparent m m' par par' t :
  NoDup (addrs t) -> rep m par t -> (forall q, q ∈ addrs t -> addr t <> Some q -> m' !! q = m !! q) ->
  (forall q, addr t = Some q -> m' !! q = new_parent par' <$> m !! q) -> rep m' par' t.
Proof using.
  destruct t as [|p c k d l r]; [done|]. unfold addrs. cbn. rewrite fmap_app. cbn. intros Hnd (Hp & Hl & Hr) E Hq.
  rewrite (Hq p eq_refl), Hp. rewrite <- Permutation_middle, NoDup_cons in Hnd. destruct Hnd as [Hn _]. rewrite elem_of_app in Hn.
  split_and!; [done|..]; (eapply rep_frame; [done|]; intros q Hin; apply E; [rewrite elem_of_app, elem_of_cons; auto|]);
    intros [= ->]; tauto.
Qed.

(** ** The tree of a state *)

Record is_tree s t : Prop := {
  it_root : root s = addr t;
  it_rep : rep (nodes s) None t;
  it_nodup : NoDup (addrs t);
  it_dom : dom (nodes s) = list_to_set (addrs t);
}.

Lemma is_tree_length s t : is_tree s t -> base.size (nodes s) = length (cells t).
Proof using.
  intros [_ _ Hnd Hd]. rewrite <- size_dom, Hd, size_list_to_set by done. unfold addrs. by rewrite length_fmap.
Qed.

Lemma is_tree_load s T fs p c k d l r :
  is_tree s T -> T = plug fs (Node p c k d l r) -> nodes s !! p = Some (mk_node (up fs) (addr l) (addr r) c k d).
Proof using. intros [_ Hr _ _] ->. apply rep_plug_up in Hr as [_ [Hp _]]. done. Qed.

(** A node is not in another part of the tree. *)
Lemma plug_nodup fs t : NoDup (addrs (plug fs t)) -> NoDup (addrs t) /\ NoDup (around fs) /\ (forall q, q ∈ addrs t -> q ∉ around fs).
Proof using. rewrite addrs_plug. intros (H1 & H2 & H3)%NoDup_app. done. Qed.

Lemma node_nodup p c k d l r :
  NoDup (addrs (Node p c k d l r)) ->
  (p ∉ addrs l) /\ (p ∉ addrs r) /\ NoDup (addrs l) /\ NoDup (addrs r) /\ (forall q, q ∈ addrs l -> q ∉ addrs r).
Proof using.
  unfold addrs. cbn. rewrite fmap_app. cbn. intros (H1 & H2 & [H3 H4]%NoDup_cons)%NoDup_app. split_and!; try done.
  - intros Hin. apply (H2 _ Hin). left.
  - intros q Hq Hq'. apply (H2 _ Hq). by right.
Qed.

Lemma addr_in t q : addr t = Some q -> q ∈ addrs t.
Proof using. destruct t; [done|]. intros [= ->]. unfold addrs. cbn. rewrite fmap_app. apply elem_of_app. right. left. Qed.

Lemma root_plug fs t t' : addr t = addr t' -> addr (plug fs t) = addr (plug fs t').
Proof using.
  destruct fs as [|f fs]; [done|]. intros _. cbn. revert f t t'. induction fs as [|g fs IH]; intros f t t'; cbn.
  - unfold fill. by destruct (on_left f).
  - apply IH.
Qed.

(** The root of a tree does not change below its root. *)
Lemma root_below f fs t t' : addr (plug (f :: fs) t) = addr (plug (f :: fs) t').
Proof using. cbn. apply root_plug. unfold fill. by destruct (on_left f). Qed.

Lemma root_in_around f fs t q : addr (plug (f :: fs) t) = Some q -> q ∈ around (f :: fs).
Proof using.
  revert f t. induction fs as [|g fs IH]; intros f t E; rewrite around_cons.
  - cbn in E. unfold fill in E. destruct (on_left f); injection E as ->; left.
  - right. apply elem_of_app. right. eapply IH. exact E.
Qed.
End Trees.

(** ** Rules *)

Section Rules.
Context {K D : Type}.
Abbreviation node := (rbtree_node_t K D).
Implicit Types (t l r : rbt K D) (f : frame K D) (fs : list (frame K D)) (m : gmap loc node) (s : rbtree_t K D).

(** The memory after a store. *)
Definition alter_at (g : node -> node) (p : option loc) m : gmap loc node :=
  match p with Some q => alter g q m | None => m end.

Lemma lookup_alter_at g p m q : alter_at g p m !! q = if decide (p = Some q) then g <$> m !! q else m !! q.
Proof using.
  destruct p as [p|]; [|done]. cbn. rewrite lookup_alter. destruct (decide (p = q)) as [-> |].
  - by rewrite decide_True.
  - rewrite decide_False by congruence. done.
Qed.

Definition with_nodes m s : rbtree_t K D := mk_rbtree (size s) (root s) m.

Lemma wp_get_tree s (Q : rbtree_t K D -> rbtree_t K D -> Prop) E : Q s s -> wp get_tree s Q E.
Proof using. done. Qed.

Lemma wp_load_node p n s (Q : node -> rbtree_t K D -> Prop) E :
  nodes s !! p = Some n -> Q n s -> wp (load (Some p)) s Q E.
Proof using. intros Hn HQ. unfold wp, load. cbn. by rewrite Hn. Qed.

Lemma wp_store_node p g n s (Q : unit -> rbtree_t K D -> Prop) E :
  nodes s !! p = Some n -> Q tt (with_nodes (alter_at g (Some p) (nodes s)) s) -> wp (store (Some p) g) s Q E.
Proof using.
  intros Hn HQ. unfold wp, store. rewrite Hn. replace (<[p := g n]> (nodes s)) with (alter g p (nodes s)); [done|].
  apply map_eq. intros q. rewrite lookup_alter, lookup_insert. destruct (decide (p = q)) as [<- |]; [by rewrite Hn|done].
Qed.

(** A store that is skipped for [NULL]. *)
Lemma wp_store_if p g s (Q : unit -> rbtree_t K D -> Prop) E :
  (forall q, p = Some q -> is_Some (nodes s !! q)) -> Q tt (with_nodes (alter_at g p (nodes s)) s) ->
  wp (match p with None => mret tt | Some _ => store p g end) s Q E.
Proof using.
  intros Hp HQ. destruct p as [q|]; [|apply wp_ret; by destruct s]. destruct (Hp q eq_refl) as [n Hn].
  by eapply wp_store_node.
Qed.

Lemma with_nodes_id s : with_nodes (nodes s) s = s.
Proof using. by destruct s. Qed.

Lemma dom_alter_at g p m : dom (alter_at g p m) = dom m.
Proof using. destruct p; [apply dom_alter_L|done]. Qed.

(** A change of the color or of the item of a node. *)
Lemma is_tree_set s T fs p c k d l r c' k' d' :
  is_tree s T -> T = plug fs (Node p c k d l r) ->
  is_tree (with_nodes (alter_at (fun n => mk_node (parent n) (left n) (right n) c' k' d') (Some p) (nodes s)) s)
    (plug fs (Node p c' k' d' l r)).
Proof using.
  intros [Hroot Hrep Hnd Hdom] ->.
  assert (addrs (plug fs (Node p c' k' d' l r)) = addrs (plug fs (Node p c k d l r))) as Ea.
  { unfold addrs. rewrite !cells_plug, !fmap_app. cbn. by rewrite !fmap_app. }
  destruct (plug_nodup _ _ Hnd) as (Hnt & Hna & Hdis). destruct (node_nodup _ _ _ _ _ _ Hnt) as (Hpl & Hpr & _).
  split; rewrite ?Ea; [cbn; rewrite Hroot; by apply root_plug| |done|cbn [nodes with_nodes]; by rewrite dom_alter_at].
  cbn [nodes with_nodes]. apply rep_plug_up in Hrep as [Har (Hp & Hl & Hr)]. apply rep_plug_up.
  assert (forall q, q <> p -> alter_at (fun n => mk_node (parent n) (left n) (right n) c' k' d') (Some p) (nodes s) !! q = nodes s !! q) as Eo
    by (intros q Hq; rewrite lookup_alter_at, decide_False by congruence; done).
  split; [|cbn [rep]; split_and!].
  - eapply rep_around_frame; [exact Har|]. intros q Hq. apply Eo. intros ->. eapply Hdis; [|exact Hq]. by apply addr_in.
  - by rewrite lookup_alter_at, decide_True, Hp.
  - eapply rep_frame; [exact Hl|]. intros q Hq. apply Eo. by intros ->.
  - eapply rep_frame; [exact Hr|]. intros q Hq. apply Eo. by intros ->.
Qed.

Lemma alter_at_ext g g' p m : (forall q n, p = Some q -> m !! q = Some n -> g n = g' n) -> alter_at g p m = alter_at g' p m.
Proof using.
  intros E. apply map_eq. intros q. rewrite !lookup_alter_at. destruct (decide (p = Some q)) as [-> |]; [|done].
  destruct (m !! q) as [n|] eqn:En; [|done]. cbn. f_equal. by eapply E.
Qed.

Lemma wp_load_at s T fs p c k d l r (Q : node -> rbtree_t K D -> Prop) :
  is_tree s T -> T = plug fs (Node p c k d l r) -> Q (mk_node (up fs) (addr l) (addr r) c k d) s -> wp (load (Some p)) s Q False.
Proof using. intros Ht E HQ. eapply wp_load_node; [by eapply is_tree_load|done]. Qed.

Lemma wp_set_color s T fs p c k d l r c' (Q : unit -> rbtree_t K D -> Prop) :
  is_tree s T -> T = plug fs (Node p c k d l r) ->
  (forall s', is_tree s' (plug fs (Node p c' k d l r)) -> size s' = size s -> Q tt s') ->
  wp (set_color (Some p) c') s Q False.
Proof using.
  intros Ht E HQ. pose proof (is_tree_load _ _ _ _ _ _ _ _ _ Ht E) as Hp. eapply wp_store_node; [exact Hp|]. apply HQ; [|done].
  erewrite alter_at_ext; [by eapply (is_tree_set s T fs p c k d l r c' k d)|]. intros q n [= <-] Hn. rewrite Hp in Hn. by injection Hn as <-.
Qed.

Lemma wp_set_item s T fs p c k d l r k' d' (Q : unit -> rbtree_t K D -> Prop) :
  is_tree s T -> T = plug fs (Node p c k d l r) ->
  (forall s', is_tree s' (plug fs (Node p c k' d' l r)) -> size s' = size s -> Q tt s') ->
  wp (set_item (Some p) k' d') s Q False.
Proof using.
  intros Ht E HQ. pose proof (is_tree_load _ _ _ _ _ _ _ _ _ Ht E) as Hp. eapply wp_store_node; [exact Hp|]. apply HQ; [|done].
  erewrite alter_at_ext; [by eapply (is_tree_set s T fs p c k d l r c k' d')|]. intros q n [= <-] Hn. rewrite Hp in Hn. by injection Hn as <-.
Qed.

(** The side of a node that is not the root.  The memory is that of a tree; the
    root pointer of the state may be another one. *)
Lemma wp_is_on_left_mem s s0 T f fs p c k d l r (Q : bool -> rbtree_t K D -> Prop) :
  is_tree s0 T -> nodes s = nodes s0 -> T = plug (f :: fs) (Node p c k d l r) -> Q (on_left f) s ->
  wp (rbtree_node_is_on_left (Some p)) s Q False.
Proof using.
  intros Ht Em E HQ. unfold rbtree_node_is_on_left.
  eapply wp_bind, wp_load_node; [rewrite Em; by eapply is_tree_load|]. cbn [parent up].
  pose proof (it_rep _ _ Ht) as Hrep. rewrite E in Hrep. apply rep_plug_up in Hrep as [(Hf & _) _].
  eapply wp_bind, wp_load_node; [rewrite Em; exact Hf|]. apply wp_ret. cbn [left addr].
  replace (bool_decide _) with (on_left f); [done|]. destruct (on_left f) eqn:Ef; [by rewrite bool_decide_true|].
  rewrite bool_decide_false; [done|]. intros Ho. symmetry in Ho. apply addr_in in Ho.
  pose proof (it_nodup _ _ Ht) as Hnd. rewrite E in Hnd. destruct (plug_nodup _ _ Hnd) as (_ & _ & Hdis).
  eapply (Hdis p); [by apply addr_in|]. rewrite around_cons. right. apply elem_of_app. by left.
Qed.

Lemma wp_is_on_left s T f fs p c k d l r (Q : bool -> rbtree_t K D -> Prop) :
  is_tree s T -> T = plug (f :: fs) (Node p c k d l r) -> Q (on_left f) s -> wp (rbtree_node_is_on_left (Some p)) s Q False.
Proof using. intros Ht E HQ. by eapply wp_is_on_left_mem. Qed.

Lemma wp_is_on_left_root s T p c k d l r (Q : bool -> rbtree_t K D -> Prop) :
  is_tree s T -> T = Node p c k d l r -> Q false s -> wp (rbtree_node_is_on_left (Some p)) s Q False.
Proof using. intros Ht E HQ. unfold rbtree_node_is_on_left. by eapply wp_bind, (wp_load_at s T []). Qed.

(** The color of a subtree. *)
Definition color_of t : rbtree_color_t := match t with Leaf => RBTREE_COLOR_BLACK | Node _ c _ _ _ _ => c end.

Lemma wp_is_red s T fs t (Q : bool -> rbtree_t K D -> Prop) :
  is_tree s T -> T = plug fs t -> Q (bool_decide (color_of t = RBTREE_COLOR_RED)) s -> wp (is_red (addr t)) s Q False.
Proof using.
  intros Ht E HQ. destruct t as [|p c k d l r]; [by apply wp_ret|]. cbn [addr is_red].
  eapply wp_bind, wp_load_at; [exact Ht|exact E|]. by apply wp_ret.
Qed.

Lemma wp_sibling s T f fs p c k d l r (Q : option loc -> rbtree_t K D -> Prop) :
  is_tree s T -> T = plug (f :: fs) (Node p c k d l r) -> Q (addr (other f)) s -> wp (rbtree_node_sibling (Some p)) s Q False.
Proof using.
  intros Ht E HQ. unfold rbtree_node_sibling. eapply wp_bind, wp_load_at; [done..|]. cbn [parent up].
  eapply wp_bind, wp_is_on_left; [done..|]. pose proof (it_rep _ _ Ht) as Hrep. rewrite E in Hrep.
  apply rep_plug_up in Hrep as [(Hf & _) _]. eapply wp_bind, wp_load_node; [exact Hf|]. apply wp_ret. cbn [left right].
  by destruct (on_left f).
Qed.

(** ** Rotations

    [node_at dir] and [cell_at dir] are a node with a child on the side [dir] and
    one on the other side, so that one statement is about both rotations. *)

Definition node_at (dir : bool) p c k d t1 t2 : rbt K D :=
  if dir then Node p c k d t1 t2 else Node p c k d t2 t1.
Definition cell_at (dir : bool) (par a1 a2 : option loc) c k d : node :=
  if dir then mk_node par a1 a2 c k d else mk_node par a2 a1 c k d.

Lemma rep_node_at m dir par p c k d t1 t2 :
  rep m par (node_at dir p c k d t1 t2) <->
  m !! p = Some (cell_at dir par (addr t1) (addr t2) c k d) /\ rep m (Some p) t1 /\ rep m (Some p) t2.
Proof using. destruct dir; cbn; tauto. Qed.

Lemma addr_node_at dir p c k d t1 t2 : addr (node_at dir p c k d t1 t2) = Some p.
Proof using. by destruct dir. Qed.

Lemma addrs_node_at dir p c k d t1 t2 : addrs (node_at dir p c k d t1 t2) ≡ₚ p :: addrs t1 ++ addrs t2.
Proof using. unfold addrs. destruct dir; cbn; rewrite fmap_app; cbn; solve_Permutation. Qed.

Lemma cells_rotate dir p c k d q c2 k2 d2 a b r :
  cells (node_at dir q c2 k2 d2 a (node_at dir p c k d b r)) = cells (node_at dir p c k d (node_at dir q c2 k2 d2 a b) r).
Proof using. destruct dir; cbn; rewrite <- !app_assoc; cbn; done. Qed.

Lemma is_tree_rotate s m' fs dir p c k d q c2 k2 d2 a b r :
  let t := node_at dir p c k d (node_at dir q c2 k2 d2 a b) r in
  let t' := node_at dir q c2 k2 d2 a (node_at dir p c k d b r) in
  is_tree s (plug fs t) ->
  m' !! p = Some (cell_at dir (Some q) (addr b) (addr r) c k d) ->
  m' !! q = Some (cell_at dir (up fs) (addr a) (Some p) c2 k2 d2) ->
  (forall x, addr b = Some x -> m' !! x = new_parent (Some p) <$> nodes s !! x) ->
  match fs with [] => True | f :: _ => m' !! f_addr f = new_child f (Some q) <$> nodes s !! f_addr f end ->
  (forall x, x <> p -> x <> q -> addr b <> Some x -> up fs <> Some x -> m' !! x = nodes s !! x) ->
  dom m' = dom (nodes s) ->
  is_tree (mk_rbtree (size s) (addr (plug fs t')) m') (plug fs t').
Proof using.
  intros t t' [Hroot Hrep Hnd Hdom] Hp Hq Hb Hup Ho Hd.
  assert (addrs (plug fs t') = addrs (plug fs t)) as Ea by (unfold addrs, t, t'; by rewrite !cells_plug, cells_rotate).
  split; cbn [nodes root]; [done| |by rewrite Ea|by rewrite Ea, Hd]. clear Ea.
  destruct (plug_nodup _ _ Hnd) as (Hnt & Hna & Hdis). unfold t in Hnt, Hdis. rewrite !addrs_node_at in Hnt.
  setoid_rewrite addrs_node_at in Hdis. setoid_rewrite addrs_node_at in Hdis.
  apply NoDup_cons in Hnt as [Hpn Hnt]. cbn [app] in Hnt, Hpn. apply NoDup_cons in Hnt as [Hqn Hnt]. rewrite <- app_assoc in Hnt.
  apply NoDup_app in Hnt as (_ & Ha & Hnt). apply NoDup_app in Hnt as (Hndb & Hbr & _).
  assert (forall x, (x ∈ addrs a \/ x ∈ addrs b \/ x ∈ addrs r) -> x ∈ p :: (q :: addrs a ++ addrs b) ++ addrs r) as Hin
    by (intros x; rewrite elem_of_cons, elem_of_app, elem_of_cons, elem_of_app; tauto).
  assert (forall x, (x ∈ addrs a \/ x ∈ addrs b \/ x ∈ addrs r) -> up fs <> Some x) as Hux.
  { intros x Hx E. apply (Hdis x (Hin x Hx)). destruct fs as [|f fs]; [done|]. injection E as <-. rewrite around_cons. left. }
  assert (forall x, (x ∈ addrs a \/ x ∈ addrs r) -> addr b <> Some x) as Hbx.
  { intros x [Hx|Hx] E%addr_in; [|by apply (Hbr x)]. apply (Ha x Hx), elem_of_app. by left. }
  assert (forall x, (x ∈ addrs a \/ x ∈ addrs b \/ x ∈ addrs r) -> x <> p /\ x <> q) as Hpq.
  { intros x Hx. split; intros ->; [apply Hpn|apply Hqn]; rewrite ?elem_of_cons, !elem_of_app; tauto. }
  clear Ha.
  unfold t in Hrep. rewrite rep_plug_up, !rep_node_at in Hrep. destruct Hrep as (Har & Hp0 & (Hq0 & Ha & Hbb) & Hr).
  unfold t'. rewrite rep_plug_up, !rep_node_at, !addr_node_at. split_and!; try done.
  - eapply rep_around_hole; [exact Hna|exact Har| |exact Hup]. intros x Hx Hxu. apply Ho; try done.
    + intros ->. apply (Hdis p); [left|done].
    + intros ->. apply (Hdis q); [right; left|done].
    + intros E%addr_in. apply (Hdis x); [apply Hin; auto|done].
  - eapply rep_frame; [exact Ha|]. intros x Hx. destruct (Hpq x ltac:(auto)). apply Ho; auto.
  - eapply rep_reparent; [exact Hndb|exact Hbb| |exact Hb]. intros x Hx Hxb. destruct (Hpq x ltac:(auto)). apply Ho; auto.
  - eapply rep_frame; [exact Hr|]. intros x Hx. destruct (Hpq x ltac:(auto)). apply Ho; auto.
Qed.

Ltac decide_all :=
  repeat match goal with
  | |- context [decide ?P] =>
    first [rewrite (decide_True (P := P)) by congruence | rewrite (decide_False (P := P)) by congruence]
  end; unfold id.

(** The memory after another subtree was hung below the last frame. *)
Definition hang fs (hole : option loc) m : gmap loc node :=
  match fs with [] => m | f :: _ => alter_at (new_child f hole) (Some (f_addr f)) m end.

Lemma lookup_hang fs hole m q :
  up fs <> Some q -> hang fs hole m !! q = m !! q.
Proof using. intros H. destruct fs; [done|]. cbn [hang up] in *. by rewrite lookup_alter_at, decide_False. Qed.

Lemma dom_hang fs hole m : dom (hang fs hole m) = dom m.
Proof using. destruct fs; [done|]. apply dom_alter_at. Qed.

Lemma wp_move_down s s0 T fs p c k d l r q n (Q : unit -> rbtree_t K D -> Prop) :
  is_tree s0 T -> nodes s = nodes s0 -> T = plug fs (Node p c k d l r) -> nodes s !! q = Some n ->
  up fs <> Some p -> up fs <> Some q -> p <> q ->
  Q tt (with_nodes (alter_at (new_parent (Some q)) (Some p) (alter_at (new_parent (up fs)) (Some q)
    (hang fs (Some q) (nodes s)))) s) ->
  wp (rbtree_node_move_down (Some p) (Some q)) s Q False.
Proof using.
  intros Ht Em E Hq Hup Huq Hpq HQ. unfold rbtree_node_move_down.
  pose proof (is_tree_load _ _ _ _ _ _ _ _ _ Ht E) as Hp. eapply wp_bind, wp_load_node; [rewrite Em; exact Hp|]. cbn [parent].
  assert (forall R : unit -> rbtree_t K D -> Prop, R tt (with_nodes (hang fs (Some q) (nodes s)) s) ->
    wp (match up fs with None => mret tt | Some _ =>
      b ← rbtree_node_is_on_left (Some p); if b : bool then set_left (up fs) (Some q) else set_right (up fs) (Some q) end) s R False) as Hhang.
  { intros R HR. destruct fs as [|f fs]; [apply wp_ret; by rewrite <- (with_nodes_id s)|]. cbn [up].
    eapply wp_bind, wp_is_on_left_mem; [exact Ht|exact Em|exact E|].
    pose proof (it_rep _ _ Ht) as Hrep. rewrite E in Hrep. apply rep_plug_up in Hrep as [(Hf & _) _]. rewrite <- Em in Hf.
    unfold hang, new_child in HR. destruct (on_left f); (eapply wp_store_node; [exact Hf|exact HR]). }
  apply wp_bind, Hhang. eapply wp_bind, wp_store_node; [cbn [nodes with_nodes]; rewrite lookup_hang; done|]. cbn [nodes with_nodes].
  eapply wp_store_node; [|exact HQ]. cbn [nodes with_nodes]. rewrite lookup_alter_at, decide_False, lookup_hang, Em by congruence. exact Hp.
Qed.

Lemma wp_rotate dir s T fs p c k d q c2 k2 d2 a b r (Q : unit -> rbtree_t K D -> Prop) :
  is_tree s T -> T = plug fs (node_at dir p c k d (node_at dir q c2 k2 d2 a b) r) ->
  (forall s', is_tree s' (plug fs (node_at dir q c2 k2 d2 a (node_at dir p c k d b r))) -> size s' = size s -> Q tt s') ->
  wp (if dir then rbtree_right_rotate (Some p) else rbtree_left_rotate (Some p)) s Q False.
Proof using.
  intros Ht E HQ. pose proof Ht as [Hroot Hrep Hnd Hdom]. rewrite E in Hrep, Hnd, Hroot.
  destruct (plug_nodup _ _ Hnd) as (Hnt & _ & Hdis). rewrite !addrs_node_at in Hnt.
  setoid_rewrite addrs_node_at in Hdis. setoid_rewrite addrs_node_at in Hdis.
  apply NoDup_cons in Hnt as [Hpn Hnt]. cbn [app] in Hnt, Hpn. apply NoDup_cons in Hnt as [Hqn _].
  assert (forall x, x ∈ p :: (q :: addrs a ++ addrs b) ++ addrs r -> up fs <> Some x) as Hux.
  { intros x Hx Eu. apply (Hdis x Hx). destruct fs as [|f fs]; [done|]. injection Eu as <-. rewrite around_cons. left. }
  assert (up fs <> Some p) as Hup by (apply Hux; left). assert (up fs <> Some q) as Huq by (apply Hux; right; left).
  assert (p <> q) as Hpq by (intros ->; apply Hpn; left).
  assert (addr b <> Some p /\ addr b <> Some q) as [Hbp Hbq].
  { split; intros Eb%addr_in; [apply Hpn; right|apply Hqn]; rewrite !elem_of_app; auto. }
  assert (forall x, addr b = Some x -> up fs <> Some x) as Hbu.
  { intros x Eb%addr_in. apply Hux. rewrite elem_of_cons, elem_of_app, elem_of_cons, elem_of_app. auto. }
  apply rep_plug_up in Hrep as [_ Hrep]. rewrite !rep_node_at, addr_node_at in Hrep. destruct Hrep as (Hp & (Hq & Ha & Hb) & Hr).
  assert (forall x, addr b = Some x -> is_Some (nodes s !! x)) as Hbs.
  { destruct b; [done|]. intros x [= <-]. destruct Hb as [-> _]. done. }
  assert (bool_decide (Some p = root s) = bool_decide (fs = [])) as Hisroot.
  { apply bool_decide_ext. rewrite Hroot. split; [|intros ->; cbn [plug]; by rewrite addr_node_at]. destruct fs as [|f fs]; [done|]. intros Er. symmetry in Er.
    apply root_in_around in Er. by destruct (Hdis p ltac:(left)). }
  set (s1 := mk_rbtree (size s) (if bool_decide (fs = []) then Some q else root s) (nodes s)).
  assert (forall R : unit -> rbtree_t K D -> Prop, R tt s1 ->
    wp (if decide (Some p = root s) then set_root (Some q) else mret tt) s R False) as Hset.
  { intros R HR. unfold s1 in HR. rewrite <- Hisroot in HR.
    destruct (decide (Some p = root s)) as [Hs|Hs]; [rewrite bool_decide_true in HR by done|rewrite bool_decide_false in HR by done]; [exact HR|].
    apply wp_ret. by destruct s. }
  assert (root s1 = addr (plug fs (node_at dir q c2 k2 d2 a (node_at dir p c k d b r)))) as Hroot'.
  { unfold s1. cbn [root]. destruct fs as [|f fs]; [cbn [plug]; by rewrite addr_node_at|]. rewrite bool_decide_false by done. rewrite Hroot. apply root_below. }
  set (m3 := alter_at (new_parent (Some q)) (Some p) (alter_at (new_parent (up fs)) (Some q) (hang fs (Some q) (nodes s)))).
  set (g1 := fun n : node => cell_at dir (parent n) (addr b) (if dir then right n else left n) (color n) (key n) (data n)).
  set (g2 := fun n : node => cell_at dir (parent n) (if dir then left n else right n) (Some p) (color n) (key n) (data n)).
  set (m' := alter_at g2 (Some q) (alter_at (new_parent (Some p)) (addr b) (alter_at g1 (Some p) m3))).
  assert (forall x, m' !! x = (if decide (Some q = Some x) then fmap g2 else id)
    ((if decide (addr b = Some x) then fmap (new_parent (Some p)) else id) ((if decide (Some p = Some x) then fmap g1 else id)
    ((if decide (Some p = Some x) then fmap (new_parent (Some q)) else id) ((if decide (Some q = Some x) then fmap (new_parent (up fs)) else id)
      (hang fs (Some q) (nodes s) !! x)))))) as Hlook.
  { intros x. unfold m', m3. rewrite !lookup_alter_at. by repeat destruct (decide _). }
  assert (Q tt (with_nodes m' s1)) as Hfinal.
  { apply HQ; [|done]. unfold with_nodes. rewrite Hroot'. apply (is_tree_rotate s); [by rewrite <- E|..].
    - rewrite Hlook. decide_all. rewrite lookup_hang, Hp by done. by destruct dir.
    - rewrite Hlook. decide_all. rewrite lookup_hang, Hq by done. by destruct dir.
    - intros x Hx. rewrite Hlook. decide_all. rewrite lookup_hang by auto. done.
    - destruct fs as [|f fs]; [done|]. cbn [up] in *. assert (addr b <> Some (f_addr f)) by (intros Ex; by apply (Hbu _ Ex)).
      rewrite Hlook. decide_all. unfold hang. rewrite lookup_alter_at. by decide_all.
    - intros x H1 H2 H3 H4. rewrite Hlook. decide_all. by rewrite lookup_hang.
    - unfold m', m3. rewrite !dom_alter_at. apply dom_hang. }
  assert (m3 !! q = Some (cell_at dir (up fs) (addr a) (addr b) c2 k2 d2)) as Hq3.
  { unfold m3. rewrite !lookup_alter_at. decide_all. rewrite lookup_hang, Hq by done. by destruct dir. }
  assert (m3 !! p = Some (cell_at dir (Some q) (Some q) (addr r) c k d)) as Hp3.
  { unfold m3. rewrite !lookup_alter_at. decide_all. rewrite lookup_hang, Hp by done. by destruct dir. }
  assert (forall x, addr b = Some x -> is_Some (alter_at g1 (Some p) m3 !! x)) as Hb3.
  { intros x Hx. unfold m3. rewrite !lookup_alter_at. decide_all. rewrite lookup_hang by auto. auto. }
  assert (is_Some (alter_at (new_parent (Some p)) (addr b) (alter_at g1 (Some p) m3) !! q)) as [nq Hnq].
  { rewrite !lookup_alter_at. decide_all. by rewrite Hq3. }
  destruct dir; [unfold rbtree_right_rotate|unfold rbtree_left_rotate];
    (eapply wp_bind, wp_load_node; [exact Hp|]; apply wp_bind, wp_get_tree; apply wp_bind, Hset;
     eapply wp_bind, (wp_move_down s1 s T fs p); [exact Ht|done|exact E|exact Hq|done|done|done|];
     change (with_nodes _ s1) with (with_nodes m3 s1);
     eapply wp_bind, wp_load_node; [exact Hq3|]; eapply wp_bind, wp_store_node; [exact Hp3|];
     apply wp_bind; eapply wp_store_if; [exact Hb3|]; eapply wp_store_node; [exact Hnq|exact Hfinal]).
Qed.
End Rules.
