(* ===== verification/RbTreeInsert.v ===== *)
(** * Red-black trees: balance, and the repair after an insertion *)

From S2P Require Import Prelude RbTree RbTreeTheory.

Abbreviation Red := RBTREE_COLOR_RED.
Abbreviation Black := RBTREE_COLOR_BLACK.

Section Balance.
Context {K D : Type}.
Implicit Types (t l r : rbt K D) (f : frame K D) (fs : list (frame K D)) (s : rbtree_t K D).

(** [rb n t]: no red node has a red child, and there are [n] black nodes on every
    path from the root to a leaf. *)
Inductive rb : nat -> rbt K D -> Prop :=
| rb_leaf : rb 0 Leaf
| rb_red n p k d l r : color_of l = Black -> color_of r = Black -> rb n l -> rb n r -> rb n (Node p Red k d l r)
| rb_black n p k d l r : rb n l -> rb n r -> rb (S n) (Node p Black k d l r).

Definition balanced t : Prop := color_of t = Black /\ exists n, rb n t.

(** A tree of black height [n] with a root of color [c] may be put there. *)
Fixpoint accepts fs (n : nat) (c : rbtree_color_t) : Prop :=
  match fs with
  | [] => c = Black
  | f :: fs =>
    match f_color f with
    | Black => rb n (other f) /\ accepts fs (S n) Black
    | Red => c = Black /\ color_of (other f) = Black /\ rb n (other f) /\ accepts fs n Red
    end
  end.

Lemma accepts_plug fs n t : rb n t -> accepts fs n (color_of t) -> balanced (plug fs t).
Proof using.
  revert n t. induction fs as [|f fs IH]; intros n t Hrb Hac; [split; [done|by exists n]|]. cbn in *. destruct (f_color f) eqn:Ef.
  - destruct Hac as (Hc & Ho & Hro & Hac). apply (IH n); unfold fill; rewrite Ef; destruct (on_left f); try done; by constructor.
  - destruct Hac as (Hro & Hac). apply (IH (S n)); unfold fill; rewrite Ef; destruct (on_left f); try done; by constructor.
Qed.

Lemma rb_Node n p c k d l r :
  rb n (Node p c k d l r) ->
  match c with
  | Red => color_of l = Black /\ color_of r = Black /\ rb n l /\ rb n r
  | Black => exists n', n = S n' /\ rb n' l /\ rb n' r
  end.
Proof using. inversion 1; subst; [done|]. by eexists. Qed.

Lemma rb_child n f t :
  rb n (fill f t) ->
  match f_color f with
  | Red => color_of t = Black /\ color_of (other f) = Black /\ rb n t /\ rb n (other f)
  | Black => exists n', n = S n' /\ rb n' t /\ rb n' (other f)
  end.
Proof using.
  unfold fill. destruct (on_left f); intros H%rb_Node; destruct (f_color f); try tauto. destruct H as (n' & ? & ? & ?). by exists n'.
Qed.

Lemma plug_accepts fs t : balanced (plug fs t) -> exists n, rb n t /\ accepts fs n (color_of t).
Proof using.
  revert t. induction fs as [|f fs IH]; intros t; [intros (Hc & n & Hn); by exists n|]. cbn [plug]. intros (n & Hn & Hac)%IH.
  apply rb_child in Hn. assert (color_of (fill f t) = f_color f) as Ec by (unfold fill; by destruct (on_left f)). rewrite Ec in Hac.
  cbn. destruct (f_color f).
  - exists n. tauto.
  - destruct Hn as (n' & -> & H1 & H2). by exists n'.
Qed.

Lemma accepts_black fs n c : accepts fs n c -> accepts fs n Black.
Proof using. destruct fs as [|f fs]; [done|]. cbn. destruct (f_color f); tauto. Qed.

Lemma rb_recolor n p k d l r : rb n (Node p Red k d l r) -> rb (S n) (Node p Black k d l r).
Proof using. intros (_ & _ & H1 & H2)%rb_Node. by constructor. Qed.

(** ** Insertion *)

Lemma wp_uncle s T f fs p c k d l r (Q : option loc -> rbtree_t K D -> Prop) :
  is_tree s T -> T = plug (f :: fs) (Node p c k d l r) ->
  Q (match fs with [] => None | g :: _ => addr (other g) end) s -> wp (rbtree_node_uncle (Some p)) s Q False.
Proof using.
  intros Ht E HQ. unfold rbtree_node_uncle. eapply wp_bind, wp_load_at; [done..|]. cbn [parent up].
  assert (exists l' r', T = plug fs (Node (f_addr f) (f_color f) (f_key f) (f_data f) l' r')) as (l' & r' & E').
  { rewrite E. cbn. unfold fill. destruct (on_left f); by eexists _, _. }
  eapply wp_bind, wp_load_at; [exact Ht|exact E'|]. cbn [parent]. destruct fs as [|g fs]; [by apply wp_ret|]. cbn [up].
  eapply wp_bind, wp_is_on_left; [exact Ht|exact E'|].
  pose proof (it_rep _ _ Ht) as Hrep. rewrite E' in Hrep. apply rep_plug_up in Hrep as [(Hg & _) _].
  eapply wp_bind, wp_load_node; [exact Hg|]. apply wp_ret. cbn [left right]. by destruct (on_left g).
Qed.

Lemma not_root s T f fs p c k d l r : is_tree s T -> T = plug (f :: fs) (Node p c k d l r) -> Some p <> root s.
Proof using.
  intros [Hroot _ Hnd _] -> E. rewrite Hroot in E. symmetry in E. apply root_in_around in E.
  destruct (plug_nodup _ _ Hnd) as (_ & _ & Hdis). apply (Hdis p); [by apply addr_in|done].
Qed.

Lemma wp_swap_colors s T p1 p2 c1 c2 fs1 k1 d1 l1 r1 fs2 k2 d2 l2 r2 (Q : unit -> rbtree_t K D -> Prop) T' :
  is_tree s T -> T = plug fs1 (Node p1 c1 k1 d1 l1 r1) -> T = plug fs2 (Node p2 c2 k2 d2 l2 r2) ->
  (exists fs3 l3 r3, plug fs1 (Node p1 c2 k1 d1 l1 r1) = plug fs3 (Node p2 c2 k2 d2 l3 r3) /\
     T' = plug fs3 (Node p2 c1 k2 d2 l3 r3)) ->
  (forall s', is_tree s' T' -> size s' = size s -> Q tt s') ->
  wp (rbtree_node_swap_colors (Some p1) (Some p2)) s Q False.
Proof using.
  intros Ht E1 E2 (fs3 & l3 & r3 & E3 & ->) HQ. unfold rbtree_node_swap_colors.
  eapply wp_bind, wp_load_at; [exact Ht|exact E1|]. eapply wp_bind, wp_load_at; [exact Ht|exact E2|]. cbn [color].
  eapply wp_bind, wp_set_color; [exact Ht|exact E1|]. intros s1 Ht1 Hs1. eapply wp_set_color; [exact Ht1|exact E3|].
  intros s2 Ht2 Hs2. apply HQ; [exact Ht2|congruence].
Qed.

(** The subtree of the grandparent after the rotation. *)
Definition redred_tree (dg df : bool) g kg dg' pa kp dp p k d l r sib unc : rbt K D :=
  match dg, df with
  | true, true => Node pa Black kp dp (Node p Red k d l r) (Node g Red kg dg' sib unc)
  | true, false => Node p Black k d (Node pa Red kp dp sib l) (Node g Red kg dg' r unc)
  | false, true => Node p Black k d (Node g Red kg dg' unc l) (Node pa Red kp dp r sib)
  | false, false => Node pa Black kp dp (Node g Red kg dg' unc sib) (Node p Red k d l r)
  end.

Lemma wp_redred_rotate s T fs dg df g kg dg' pa kp dp p k d l r sib unc (Q : unit -> rbtree_t K D -> Prop) :
  is_tree s T -> T = plug fs (node_at dg g Black kg dg' (node_at df pa Red kp dp (Node p Red k d l r) sib) unc) ->
  (forall s', is_tree s' (plug fs (redred_tree dg df g kg dg' pa kp dp p k d l r sib unc)) -> size s' = size s -> Q tt s') ->
  wp (redred_rotate (Some p) (Some pa) (Some g)) s Q False.
Proof using.
  intros Ht E HQ. set (fg := mk_frame dg g Black kg dg' unc). set (ff := mk_frame df pa Red kp dp sib).
  assert (T = plug (ff :: fg :: fs) (Node p Red k d l r)) as E1 by (rewrite E; by destruct dg, df).
  assert (exists l' r', T = plug (fg :: fs) (Node pa Red kp dp l' r')) as (l' & r' & E2)
    by (rewrite E; destruct dg, df; by eexists _, _).
  unfold redred_rotate. eapply wp_bind, wp_is_on_left; [exact Ht|exact E2|]. eapply wp_bind, wp_is_on_left; [exact Ht|exact E1|].
  clear E1 E2 l' r'. subst fg ff. cbn [on_left]. destruct dg, df; cbn [node_at redred_tree] in *; apply wp_bind.
  - eapply (wp_swap_colors s T pa g Red Black (mk_frame true g Black kg dg' unc :: fs) _ _ _ _ fs); [exact Ht|exact E|exact E|
      by eexists fs, _, _|]. intros s1 Ht1 Hs1. eapply (wp_rotate true); [exact Ht1|reflexivity|].
    intros s2 Ht2 Hs2. apply HQ; [exact Ht2|congruence].
  - eapply wp_bind, (wp_rotate false s T (mk_frame true g Black kg dg' unc :: fs)); [exact Ht|exact E|]. intros s1 Ht1 Hs1.
    eapply (wp_swap_colors s1 _ p g Red Black (mk_frame true g Black kg dg' unc :: fs) _ _ _ _ fs);
      [exact Ht1|reflexivity|reflexivity|by eexists fs, _, _|].
    intros s2 Ht2 Hs2. eapply (wp_rotate true); [exact Ht2|reflexivity|]. intros s3 Ht3 Hs3. apply HQ; [exact Ht3|congruence].
  - eapply wp_bind, (wp_rotate true s T (mk_frame false g Black kg dg' unc :: fs)); [exact Ht|exact E|]. intros s1 Ht1 Hs1.
    eapply (wp_swap_colors s1 _ p g Red Black (mk_frame false g Black kg dg' unc :: fs) _ _ _ _ fs);
      [exact Ht1|reflexivity|reflexivity|by eexists fs, _, _|].
    intros s2 Ht2 Hs2. eapply (wp_rotate false); [exact Ht2|reflexivity|]. intros s3 Ht3 Hs3. apply HQ; [exact Ht3|congruence].
  - eapply (wp_swap_colors s T pa g Red Black (mk_frame false g Black kg dg' unc :: fs) _ _ _ _ fs); [exact Ht|exact E|exact E|
      by eexists fs, _, _|]. intros s1 Ht1 Hs1. eapply (wp_rotate false); [exact Ht1|reflexivity|].
    intros s2 Ht2 Hs2. apply HQ; [exact Ht2|congruence].
Qed.

Lemma cells_redred dg df g kg dg' pa kp dp p k d l r sib unc :
  cells (redred_tree dg df g kg dg' pa kp dp p k d l r sib unc) =
  cells (node_at dg g Black kg dg' (node_at df pa Red kp dp (Node p Red k d l r) sib) unc).
Proof using. destruct dg, df; cbn; rewrite <- ?app_assoc; cbn; rewrite <- ?app_assoc; done. Qed.

Lemma rb_redred n dg df g kg dg' pa kp dp p k d l r sib unc :
  rb n (Node p Red k d l r) -> rb n sib -> rb n unc -> color_of sib = Black -> color_of unc = Black ->
  rb (S n) (redred_tree dg df g kg dg' pa kp dp p k d l r sib unc) /\
  color_of (redred_tree dg df g kg dg' pa kp dp p k d l r sib unc) = Black.
Proof using.
  intros Hp Hs Hu Cs Cu. pose proof (rb_Node _ _ _ _ _ _ _ Hp) as (Cl & Cr & Hl & Hr).
  destruct dg, df; (split; [|done]); repeat (done || constructor).
Qed.

(** The focus is red and may have a red parent; everything else is in order. *)
Lemma wp_fix_redred fuel s T fs p k d l r n (Q : unit -> rbtree_t K D -> Prop) :
  is_tree s T -> T = plug fs (Node p Red k d l r) -> rb n (Node p Red k d l r) -> accepts fs n Black -> (length fs < fuel)%nat ->
  (forall s' T', is_tree s' T' -> cells T' = cells T -> balanced T' -> size s' = size s -> Q tt s') ->
  wp (rbtree_fix_redred fuel (Some p)) s Q False.
Proof using.
  revert s T fs p k d l r n. induction fuel as [|fuel IH]; intros s T fs p k d l r n Ht E Hrb Hac Hf HQ; [lia|].
  cbn [rbtree_fix_redred]. apply wp_bind, wp_get_tree. destruct fs as [|f fs].
  { assert (root s = Some p) as Hroot by (rewrite (it_root _ _ Ht), E; done). rewrite decide_True by done.
    eapply wp_set_color; [exact Ht|exact E|]. intros s1 Ht1 Hs1. eapply HQ; [exact Ht1| |split; [done|]|done].
    - by rewrite E.
    - exists (S n). by apply rb_recolor. }
  rewrite decide_False by (by eapply not_root). eapply wp_bind, wp_load_at; [exact Ht|exact E|]. cbn [parent up].
  assert (exists l' r', T = plug fs (Node (f_addr f) (f_color f) (f_key f) (f_data f) l' r')) as (l' & r' & E2).
  { rewrite E. cbn. unfold fill. destruct (on_left f); by eexists _, _. }
  eapply wp_bind, wp_load_at; [exact Ht|exact E2|]. cbn [parent color].
  eapply wp_bind, wp_uncle; [exact Ht|exact E|]. destruct (decide (f_color f = Black)) as [Ef|Ef].
  { apply wp_ret. eapply HQ; [exact Ht|done| |done]. rewrite E. eapply accepts_plug; [exact Hrb|]. cbn in *. by rewrite Ef in *. }
  destruct f as [df pa cf kp dp sib]. cbn [f_color f_addr f_key f_data] in *. destruct cf; [|done].
  cbn in Hac. destruct Hac as (_ & Csib & Hsib & Hac). destruct fs as [|g fs]; [done|].
  destruct g as [dg ga cg kg dgg unc]. cbn in Hac. destruct cg; [by destruct Hac|]. destruct Hac as [Hunc Hac]. cbn [other].
  set (fx := mk_frame (negb dg) ga Black kg dgg (node_at df pa Red kp dp (Node p Red k d l r) sib)).
  eapply wp_bind, (wp_is_red s T (fx :: fs) unc); [exact Ht|rewrite E; by destruct dg, df|].
  destruct unc as [|u cu ku du ul ur]; [|destruct cu].
  1,3: (rewrite bool_decide_false by done; eapply (wp_redred_rotate s T fs dg df); [exact Ht|rewrite E; by destruct dg, df|];
    intros s1 Ht1 Hs1; eapply HQ; [exact Ht1| | |exact Hs1]; [rewrite E, cells_plug, cells_redred, <- cells_plug; by destruct dg, df|];
    pose proof (rb_redred n dg df ga kg dgg pa kp dp p k d l r sib _ Hrb Hsib Hunc Csib eq_refl) as [H1 H2];
    apply (accepts_plug fs (S n) _ H1); rewrite H2; exact Hac).
  rewrite bool_decide_true by done. cbn [color_of addr].
  (* the parent, the uncle and the grandparent change their colors *)
  set (fp := mk_frame dg ga Black kg dgg (Node u Red ku du ul ur)).
  assert (T = plug (fp :: fs) (node_at df pa Red kp dp (Node p Red k d l r) sib)) as E3 by (rewrite E; by destruct dg, df).
  eapply wp_bind. destruct dg, df; cbn [node_at] in E3;
    (eapply wp_set_color; [exact Ht|exact E3|]; intros s1 Ht1 Hs1;
     eapply wp_bind, (wp_set_color s1 _ (mk_frame (negb (on_left fp)) ga Black kg dgg (Node pa Black kp dp _ _) :: fs) u);
       [exact Ht1|reflexivity|]; intros s2 Ht2 Hs2;
     eapply wp_bind, (wp_set_color s2 _ fs ga); [exact Ht2|reflexivity|]; intros s3 Ht3 Hs3;
     eapply (IH s3 _ fs ga _ _ _ _ (S n)); [exact Ht3|reflexivity| |exact Hac|cbn in Hf; lia|];
     [cbn; constructor; [done|done|..]; first [by apply rb_recolor|constructor; done]
     |intros s4 T4 Ht4 Hc4 Hb4 Hs4; apply (HQ s4 T4); [exact Ht4| |exact Hb4|congruence];
      rewrite Hc4, E; cbn; unfold fill; cbn; rewrite !cells_plug; done]).
Qed.
End Balance.
