(* ===== verification/RbTreeDelete.v ===== *)
(** * Red-black trees: the repair before a black node is taken out *)

From S2P Require Import Prelude RbTree RbTreeTheory RbTreeInsert.

(** Two trees have the same nodes in the same order. *)
Ltac cells_done :=
  repeat progress (cbn [plug fill on_left other f_addr f_color f_key f_data cells app]; unfold fill; rewrite ?cells_plug, <- ?app_assoc);
  reflexivity.

Section Delete.
Context {K D : Type}.
Implicit Types (t l r : rbt K D) (f : frame K D) (fs cin : list (frame K D)) (s : rbtree_t K D).

(** ** A black sibling with a red child *)

(** The frames around the focus after the rotations. *)
Definition blackblack_frames (df : bool) pa cp kp dp sb ks ds (a b : rbt K D) : list (frame K D) :=
  match df, a, b with
  | true, Node al Red ka da a1 a2, _ => [mk_frame true pa Black kp dp a1; mk_frame true al cp ka da (Node sb Black ks ds a2 b)]
  | true, _, Node br Red kb db b1 b2 => [mk_frame true pa Black kp dp a; mk_frame true sb cp ks ds (Node br Black kb db b1 b2)]
  | false, Node al Red ka da a1 a2, _ => [mk_frame false pa Black kp dp b; mk_frame false sb cp ks ds (Node al Black ka da a1 a2)]
  | false, _, Node br Red kb db b1 b2 => [mk_frame false pa Black kp dp b2; mk_frame false br cp kb db (Node sb Black ks ds a b1)]
  | _, _, _ => []
  end.

Lemma wp_blackblack_rotate s T fs df pa cp kp dp X sb ks ds a b (Q : unit -> rbtree_t K D -> Prop) :
  is_tree s T -> T = plug fs (node_at df pa cp kp dp X (Node sb Black ks ds a b)) -> (color_of a = Red \/ color_of b = Red) ->
  (forall s', is_tree s' (plug (blackblack_frames df pa cp kp dp sb ks ds a b ++ fs) X) -> size s' = size s -> Q tt s') ->
  wp (blackblack_rotate (Some sb) (Some pa)) s Q False.
Proof using.
  intros Ht E Hred HQ. set (fx := mk_frame (negb df) pa cp kp dp X).
  assert (T = plug (fx :: fs) (Node sb Black ks ds a b)) as E1 by (rewrite E; by destruct df).
  unfold blackblack_rotate. eapply wp_bind, wp_load_at; [exact Ht|exact E1|]. cbn [left right color].
  eapply wp_bind, (wp_is_red s T (mk_frame true sb Black ks ds b :: fx :: fs)); [exact Ht|exact E1|].
  eapply wp_bind, wp_is_on_left; [exact Ht|exact E1|].
  assert (exists l' r', T = plug fs (Node pa cp kp dp l' r')) as (l' & r' & E2) by (rewrite E; destruct df; by eexists _, _).
  eapply wp_bind, wp_load_at; [exact Ht|exact E2|]. cbn [color]. clear l' r' E2. apply wp_bind.
  destruct (decide (color_of a = Red)) as [Ca|Ca].
  - rewrite bool_decide_true by done. destruct a as [|al ca ka da a1 a2]; [done|]. cbn in Ca. subst ca. cbn [addr].
    set (fa := mk_frame true sb Black ks ds b). subst fx. destruct df; cbn [negb on_left node_at blackblack_frames app] in *.
    + eapply wp_bind, (wp_set_color s T (fa :: mk_frame false pa cp kp dp X :: fs)); [exact Ht|exact E1|]. intros s1 Ht1 Hs1.
      eapply wp_bind, (wp_rotate true s1 _ (mk_frame false pa cp kp dp X :: fs)); [exact Ht1|reflexivity|]. intros s2 Ht2 Hs2.
      eapply (wp_rotate false s2 _ fs); [exact Ht2|reflexivity|]. intros s3 Ht3 Hs3.
      eapply (wp_set_color s3 _ (mk_frame true al cp ka da (Node sb Black ks ds a2 b) :: fs)); [exact Ht3|reflexivity|].
      intros s4 Ht4 Hs4. apply HQ; [exact Ht4|congruence].
    + eapply wp_bind, (wp_set_color s T (fa :: mk_frame true pa cp kp dp X :: fs)); [exact Ht|exact E1|]. intros s1 Ht1 Hs1.
      eapply wp_bind, (wp_set_color s1 _ (mk_frame true pa cp kp dp X :: fs)); [exact Ht1|reflexivity|]. intros s2 Ht2 Hs2.
      eapply (wp_rotate true s2 _ fs); [exact Ht2|reflexivity|]. intros s3 Ht3 Hs3.
      eapply (wp_set_color s3 _ (mk_frame false sb cp ks ds (Node al Black ka da a1 a2) :: fs)); [exact Ht3|reflexivity|].
      intros s4 Ht4 Hs4. apply HQ; [exact Ht4|congruence].
  - rewrite bool_decide_false by done. destruct Hred as [Hr|Cb]; [done|]. destruct b as [|br cb kb db b1 b2]; [done|]. cbn in Cb. subst cb.
    set (fb := mk_frame false sb Black ks ds a). subst fx. cbn [addr].
    assert (T = plug (fb :: mk_frame (negb df) pa cp kp dp X :: fs) (Node br Red kb db b1 b2)) as E3 by exact E1.
    destruct df; cbn [negb on_left node_at app] in *.
    + eapply wp_bind, (wp_set_color s T (fb :: _)); [exact Ht|exact E3|]. intros s1 Ht1 Hs1.
      eapply wp_bind, (wp_set_color s1 _ (mk_frame false pa cp kp dp X :: fs)); [exact Ht1|reflexivity|]. intros s2 Ht2 Hs2.
      eapply (wp_rotate false s2 _ fs); [exact Ht2|reflexivity|]. intros s3 Ht3 Hs3.
      eapply (wp_set_color s3 _ (mk_frame true sb cp ks ds (Node br Black kb db b1 b2) :: fs)); [exact Ht3|reflexivity|].
      intros s4 Ht4 Hs4. apply HQ; [|congruence]. unfold blackblack_frames. by destruct a as [|? [] ? ? ? ?].
    + eapply wp_bind, (wp_set_color s T (fb :: _)); [exact Ht|exact E3|]. intros s1 Ht1 Hs1.
      eapply wp_bind, (wp_rotate false s1 _ (mk_frame true pa cp kp dp X :: fs)); [exact Ht1|reflexivity|]. intros s2 Ht2 Hs2.
      eapply (wp_rotate true s2 _ fs); [exact Ht2|reflexivity|]. intros s3 Ht3 Hs3.
      eapply (wp_set_color s3 _ (mk_frame false br cp kb db (Node sb Black ks ds a b1) :: fs)); [exact Ht3|reflexivity|].
      intros s4 Ht4 Hs4. apply HQ; [|congruence]. unfold blackblack_frames. by destruct a as [|? [] ? ? ? ?].
Qed.

Lemma cells_blackblack df pa cp kp dp sb ks ds a b X :
  (color_of a = Red \/ color_of b = Red) ->
  cells (plug (blackblack_frames df pa cp kp dp sb ks ds a b) X) = cells (node_at df pa cp kp dp X (Node sb Black ks ds a b)).
Proof using.
  intros H. destruct df, a as [|al [] ka da a1 a2], b as [|br [] kb db b1 b2]; cbn in *; try (by destruct H);
    rewrite <- ?app_assoc; cbn; rewrite <- ?app_assoc; done.
Qed.

(** The place of a frame, with two black trees below it. *)
Lemma balanced_replace f fs n q k d (dir : bool) x y :
  accepts (f :: fs) (S n) Black -> rb (S n) x -> rb (S n) y -> color_of x = Black -> color_of y = Black ->
  balanced (plug fs (node_at dir q (f_color f) k d x y)).
Proof using.
  intros Hac Hx Hy Cx Cy. cbn in Hac. destruct (f_color f).
  - destruct Hac as (_ & _ & _ & Hac). apply (accepts_plug fs (S n)); [destruct dir; by constructor|by destruct dir].
  - destruct Hac as (_ & Hac). apply (accepts_plug fs (S (S n))); [destruct dir; by constructor|by destruct dir].
Qed.

Lemma balanced_blackblack f fs n df pa kp dp sb ks ds a b X :
  accepts (f :: fs) (S n) Black -> rb n X -> color_of X = Black -> rb n a -> rb n b -> (color_of a = Red \/ color_of b = Red) ->
  balanced (plug (blackblack_frames df pa (f_color f) kp dp sb ks ds a b ++ fs) X).
Proof using.
  intros Hac HX CX Ha Hb Hred. rewrite plug_app.
  destruct a as [|al [] ka da a1 a2]; [|apply rb_Node in Ha as (C1 & C2 & H1 & H2)|];
    (destruct b as [|br [] kb db b1 b2]; [|pose proof (rb_Node _ _ _ _ _ _ _ Hb) as (C3 & C4 & H3 & H4)|]);
    destruct df; cbn [blackblack_frames plug fill on_left f_addr f_color f_key f_data other]; try (by destruct Hred);
    first [apply (balanced_replace f fs n _ _ _ true); [exact Hac|repeat (done || constructor)..|done|done]].
Qed.

(** ** The loop *)

(** The innermost frame: its node and its side. *)
Definition innermost fs : option (loc * bool) := match fs with [] => None | f :: _ => Some (f_addr f, on_left f) end.

Definition steps_needed fs : nat :=
  match fs with
  | [] => 1
  | f :: _ => if decide (f_color f = Red) then 1 else 2 + length fs
  end.

Lemma innermost_app cin f g fs gs :
  f_addr f = f_addr g -> on_left f = on_left g -> innermost (cin ++ f :: fs) = innermost (cin ++ g :: gs).
Proof using. intros E1 E2. destruct cin; [cbn; by rewrite E1, E2|done]. Qed.

(** The focus is the tree [plug cin t].  One black node is missing below it once
    [t] is gone; the loop makes up for it somewhere around. *)
Lemma wp_fix_blackblack fuel s T fs cin t p n (Q : unit -> rbtree_t K D -> Prop) :
  is_tree s T -> T = plug fs (plug cin t) -> addr (plug cin t) = Some p ->
  rb n (plug cin Leaf) -> color_of (plug cin Leaf) = Black -> accepts fs (S n) Black -> (steps_needed fs <= fuel)%nat ->
  (forall s' gs, is_tree s' (plug gs t) -> (forall x, cells (plug gs x) = cells (plug fs (plug cin x))) ->
     innermost gs = innermost (cin ++ fs) -> balanced (plug gs Leaf) -> size s' = size s -> Q tt s') ->
  wp (rbtree_fix_blackblack fuel (Some p)) s Q False.
Proof using.
  revert s T fs cin p n. induction fuel as [|fuel IH]; intros s T fs cin p n Ht E Hp Hrb Hcol Hac Hf HQ.
  { destruct fs; cbn in Hf; [lia|]. destruct (decide _); lia. }
  cbn [rbtree_fix_blackblack]. apply wp_bind, wp_get_tree. destruct fs as [|f fs].
  { assert (root s = Some p) as Hroot by (rewrite (it_root _ _ Ht), E; done). rewrite decide_True by done. apply wp_ret.
    apply (HQ s cin); [subst T; exact Ht|done|by rewrite app_nil_r|split; [done|by exists n]|done]. }
  set (X := plug cin t) in *. assert (exists cx kx dx lx rx, X = Node p cx kx dx lx rx) as (cx & kx & dx & lx & rx & EX).
  { destruct X; [done|]. injection Hp as ->. by eexists _, _, _, _, _. }
  rewrite EX in E. rewrite decide_False by (by eapply not_root). rewrite decide_False by done.
  eapply wp_bind, wp_sibling; [exact Ht|exact E|]. eapply wp_bind, wp_load_at; [exact Ht|exact E|]. cbn [parent up]. rewrite <- EX in E.
  assert (rb (S n) (other f)) as Hsib by (cbn in Hac; destruct (f_color f); tauto).
  destruct f as [df pa cp kp dp sib]. cbn [other f_addr] in *. destruct sib as [|sb cs ks ds a b]; [by inversion Hsib|]. cbn [addr].

  set (fx := mk_frame (negb df) pa cp kp dp X).
  assert (T = plug (fx :: fs) (Node sb cs ks ds a b)) as Es by (rewrite E; by destruct df).
  assert (T = plug fs (node_at df pa cp kp dp X (Node sb cs ks ds a b))) as Ep by (rewrite E; by destruct df).
  eapply wp_bind, wp_load_at; [exact Ht|exact Es|]. cbn [color]. destruct (decide (cs = Red)) as [-> |Hcs].
  - (* a red sibling: the parent is black *)
    cbn in Hac. destruct cp; [by destruct Hac as (_ & ? & _)|]. destruct Hac as [_ Hac].
    apply rb_Node in Hsib as (Ca & Cb & Ha & Hb).
    assert (exists l' r', T = plug fs (Node pa Black kp dp l' r')) as (l' & r' & E2) by (rewrite Ep; destruct df; by eexists _, _).
    cbn [steps_needed f_color length] in Hf. rewrite decide_False in Hf by done.
    eapply wp_bind. subst fx. destruct df; cbn [negb node_at] in *.
    + eapply (wp_set_color s T fs pa); [exact Ht|exact Ep|]. intros s1 Ht1 Hs1.
      eapply wp_bind, (wp_set_color s1 _ (mk_frame false pa Red kp dp X :: fs) sb); [exact Ht1|reflexivity|]. intros s2 Ht2 Hs2.
      eapply wp_bind, (wp_is_on_left s2 _ (mk_frame false pa Red kp dp X) fs sb); [exact Ht2|reflexivity|]. cbn [on_left].
      eapply wp_bind, (wp_rotate false s2 _ fs pa); [exact Ht2|reflexivity|]. intros s3 Ht3 Hs3.
      eapply (IH s3 _ (mk_frame true pa Red kp dp a :: mk_frame true sb Black ks ds b :: fs) cin p n);
        [exact Ht3|reflexivity|exact Hp|exact Hrb|exact Hcol|done|cbn [steps_needed f_color]; rewrite decide_True by done; lia|].
      intros s4 gs Ht4 Hc4 Hi4 Hb4 Hs4. eapply (HQ s4 gs); [exact Ht4| |by rewrite Hi4; apply innermost_app|exact Hb4|congruence].
      intros x. rewrite Hc4. cells_done.
    + eapply (wp_set_color s T fs pa); [exact Ht|exact Ep|]. intros s1 Ht1 Hs1.
      eapply wp_bind, (wp_set_color s1 _ (mk_frame true pa Red kp dp X :: fs) sb); [exact Ht1|reflexivity|]. intros s2 Ht2 Hs2.
      eapply wp_bind, (wp_is_on_left s2 _ (mk_frame true pa Red kp dp X) fs sb); [exact Ht2|reflexivity|]. cbn [on_left].
      eapply wp_bind, (wp_rotate true s2 _ fs pa); [exact Ht2|reflexivity|]. intros s3 Ht3 Hs3.
      eapply (IH s3 _ (mk_frame false pa Red kp dp b :: mk_frame false sb Black ks ds a :: fs) cin p n);
        [exact Ht3|reflexivity|exact Hp|exact Hrb|exact Hcol|done|cbn [steps_needed f_color]; rewrite decide_True by done; lia|].
      intros s4 gs Ht4 Hc4 Hi4 Hb4 Hs4. eapply (HQ s4 gs); [exact Ht4| |by rewrite Hi4; apply innermost_app|exact Hb4|congruence].
      intros x. rewrite Hc4. cells_done.
  - destruct cs; [done|]. apply rb_Node in Hsib as (n' & [= <-] & Ha & Hb).
    eapply wp_bind. unfold rbtree_node_has_red_child. eapply wp_bind, wp_load_at; [exact Ht|exact Es|]. cbn [left right].
    assert (forall R : bool -> rbtree_t K D -> Prop, R (bool_decide (color_of a = Red \/ color_of b = Red)) s ->
      wp (b0 ← is_red (addr a); if b0 : bool then mret true else is_red (addr b)) s R False) as Hchild.
    { intros R HR. eapply wp_bind, (wp_is_red s T (mk_frame true sb Black ks ds b :: fx :: fs)); [exact Ht|exact Es|].
      destruct (decide (color_of a = Red)) as [Ca|Ca].
      - rewrite bool_decide_true by done. apply wp_ret. rewrite bool_decide_true in HR by auto. done.
      - rewrite bool_decide_false by done. eapply (wp_is_red s T (mk_frame false sb Black ks ds a :: fx :: fs)); [exact Ht|exact Es|].
        rewrite (bool_decide_ext _ (color_of b = Red)) in HR by tauto. done. }
    apply Hchild. clear Hchild. destruct (decide (color_of a = Red \/ color_of b = Red)) as [Hred|Hred].
    + rewrite bool_decide_true by done. eapply wp_blackblack_rotate; [exact Ht|exact Ep|exact Hred|]. intros s1 Ht1 Hs1.
      set (bf := blackblack_frames df pa cp kp dp sb ks ds a b) in *.
      eapply (HQ s1 (cin ++ bf ++ fs)); [by rewrite plug_app| | | |done].
      * intros x. rewrite !plug_app. cbn [plug]. rewrite !(cells_plug fs). subst bf. rewrite cells_blackblack by done.
        by destruct df.
      * subst bf. destruct df, a as [|? [] ? ? ? ?], b as [|? [] ? ? ? ?]; cbn in Hred; try (by destruct Hred); by apply innermost_app.
      * rewrite plug_app. apply (balanced_blackblack (mk_frame df pa cp kp dp (Node sb Black ks ds a b)) fs n); try done.
    + rewrite bool_decide_false by done. assert (color_of a = Black /\ color_of b = Black) as [Ca Cb]
        by (destruct (color_of a), (color_of b); naive_solver).
      eapply wp_bind, wp_set_color; [exact Ht|exact Es|]. intros s1 Ht1 Hs1.
      set (sib := Node sb Red ks ds a b) in *. assert (rb n sib) as Hsib by (by constructor).
      assert (plug (fx :: fs) sib = plug fs (node_at df pa cp kp dp X sib)) as E1 by (by destruct df).
      assert (exists l' r', plug (fx :: fs) sib = plug fs (Node pa cp kp dp l' r')) as (l' & r' & E2)
        by (rewrite E1; destruct df; by eexists _, _).
      eapply wp_bind, wp_load_at; [exact Ht1|exact E2|]. cbn [color]. destruct (decide (cp = Black)) as [-> |Hcp].
      * set (fp := mk_frame df pa Black kp dp sib).
        assert (forall x, plug (cin ++ [fp]) x = fill fp (plug cin x)) as Ef by (intros x; by rewrite plug_app).
        eapply (IH s1 _ fs (cin ++ [fp]) pa (S n)); [exact Ht1| | | | |by destruct Hac| |].
        -- rewrite E1, Ef. by destruct df.
        -- rewrite Ef. by destruct df.
        -- rewrite Ef. unfold fp, fill. cbn. destruct df; by constructor.
        -- rewrite Ef. by destruct df.
        -- cbn [steps_needed f_color length] in Hf. rewrite decide_False in Hf by done.
           destruct fs; cbn [steps_needed length] in *; [lia|]. destruct (decide _); lia.
        -- intros s2 gs Ht2 Hc2 Hi2 Hb2 Hs2. apply (HQ s2 gs); [exact Ht2| |rewrite Hi2, <- app_assoc; by apply innermost_app|exact Hb2|congruence].
           intros x. rewrite Hc2, Ef. cbn [plug]. rewrite !(cells_plug fs). by destruct df.
      * destruct cp; [|done]. destruct Hac as (_ & _ & _ & Hac%accepts_black). clear l' r' E2.
        assert (forall s2, is_tree s2 (plug fs (node_at df pa Black kp dp X sib)) -> size s2 = size s1 -> Q tt s2) as Hend.
        { intros s2 Ht2 Hs2. apply (HQ s2 (cin ++ mk_frame df pa Black kp dp sib :: fs)); [| |by apply innermost_app| |congruence].
          - rewrite plug_app. by destruct df.
          - intros x. rewrite plug_app. cbn [plug]. rewrite !(cells_plug fs). by destruct df.
          - rewrite plug_app. apply (accepts_plug fs (S n)); unfold fill; cbn; destruct df; by try constructor. }
        destruct df; (eapply (wp_set_color s1 _ fs pa); [exact Ht1|exact E1|]; exact Hend).
Qed.
End Delete.
