(* ===== verification/RbTreeRemove.v ===== *)
(** * Red-black trees: a node is taken out *)

From S2P Require Import Prelude RbTree RbTreeTheory RbTreeInsert RbTreeDelete.

Lemma set_remove (X : gset loc) p : p ∉ X -> (({[ p ]} ∪ ∅) ∪ X) ∖ {[ p ]} = ∅ ∪ X.
Proof. set_solver. Qed.

Lemma set_remove_2 (X : gset loc) p u : p ∉ X -> p <> u -> ({[ p; u ]} ∪ X) ∖ {[ p ]} = ({[ u ]} ∪ ∅) ∪ X.
Proof. set_solver. Qed.

Section Remove.
Context {K D : Type}.
Implicit Types (t l r : rbt K D) (f : frame K D) (fs cin : list (frame K D)) (m : gmap loc (rbtree_node_t K D)) (s : rbtree_t K D).

(** Another subtree at a place. *)
Lemma is_tree_replace s m' fs t t' :
  is_tree s (plug fs t) -> rep m' (up fs) t' ->
  (forall x, x ∈ around fs -> up fs <> Some x -> m' !! x = nodes s !! x) ->
  match fs with [] => True | f :: _ => m' !! f_addr f = new_child f (addr t') <$> nodes s !! f_addr f end ->
  NoDup (addrs t') -> (forall x, x ∈ addrs t' -> x ∉ around fs) ->
  dom m' = list_to_set (addrs t') ∪ list_to_set (around fs) ->
  is_tree (mk_rbtree (size s) (addr (plug fs t')) m') (plug fs t').
Proof using.
  intros [_ Hrep Hnd _] Ht' Ho Hup Hnd' Hdis Hd. destruct (plug_nodup _ _ Hnd) as (_ & Hna & _).
  apply rep_plug_up in Hrep as [Har _]. split; cbn [root nodes]; [done|..].
  - apply rep_plug_up. split; [|done]. eapply rep_around_hole; [exact Hna|exact Har| |exact Hup]. intros x Hx Hu. apply Ho; congruence.
  - rewrite addrs_plug. by apply NoDup_app.
  - rewrite Hd. apply leibniz_equiv. rewrite addrs_plug. by rewrite list_to_set_app.
Qed.

Lemma dom_plug s fs t : is_tree s (plug fs t) -> dom (nodes s) = list_to_set (addrs t) ∪ list_to_set (around fs).
Proof using. intros [_ _ _ ->]. apply leibniz_equiv. rewrite addrs_plug. by rewrite list_to_set_app. Qed.

(** A node without children is unlinked and freed. *)
Lemma is_tree_prune s f fs p c k d :
  is_tree s (plug (f :: fs) (Node p c k d Leaf Leaf)) ->
  is_tree (mk_rbtree (size s) (root s) (delete p (alter_at (new_child f None) (Some (f_addr f)) (nodes s)))) (plug (f :: fs) Leaf).
Proof using.
  intros Ht. pose proof (it_nodup _ _ Ht) as Hnd. destruct (plug_nodup _ _ Hnd) as (_ & Hna & Hdis).
  assert (p ∉ around (f :: fs)) as Hp by (apply Hdis; by apply addr_in).
  rewrite (it_root _ _ Ht), (root_below f fs _ Leaf). eapply (is_tree_replace s _ (f :: fs)); [exact Ht|done| | |constructor|by intros x Hx%elem_of_nil|].
  - intros x Hx Hu. rewrite lookup_delete_ne by (by intros ->). rewrite lookup_alter_at, decide_False; [done|]. intros E. by apply Hu.
  - rewrite lookup_delete_ne; [by rewrite lookup_alter_at, decide_True|]. intros ->. apply Hp. rewrite around_cons. left.
  - rewrite dom_delete_L, dom_alter_at, (dom_plug _ _ _ Ht). apply set_remove. by rewrite elem_of_list_to_set.
Qed.

Lemma length_frames fs t : (length fs + length (cells t) <= length (cells (plug fs t)))%nat.
Proof using.
  revert t. induction fs as [|f fs IH]; intros t; [done|]. cbn [plug length]. specialize (IH (fill f t)).
  unfold fill in *. destruct (on_left f); cbn in IH; rewrite ?length_app in IH; cbn in IH; lia.
Qed.

(** What the deletion of a node leaves: its tree and the items of it. *)
Definition removed s (es : list (K * D)) (s' : rbtree_t K D) : Prop :=
  exists T', is_tree s' T' /\ elems T' = es /\ balanced T' /\ size s' = size s.

Lemma elems_plug_leaf fs : elems (plug fs Leaf) = (before fs).*2 ++ (behind fs).*2.
Proof using. unfold elems. rewrite cells_plug. cbn. by rewrite fmap_app. Qed.

Lemma cells_around gs fs t :
  (forall x, cells (plug gs x) = cells (plug fs x)) -> elems (plug gs Leaf) = elems (plug fs Leaf).
Proof using. intros H. unfold elems. by rewrite H. Qed.

(** The end of [delete_leaf]. *)
Lemma wp_unlink_leaf s f fs p c k d (Q : unit -> rbtree_t K D -> Prop) :
  is_tree s (plug (f :: fs) (Node p c k d Leaf Leaf)) ->
  (forall s', is_tree s' (plug (f :: fs) Leaf) -> size s' = size s -> Q tt s') ->
  wp (on_left ← rbtree_node_is_on_left (Some p);
      if on_left : bool then set_left (Some (f_addr f)) None else set_right (Some (f_addr f)) None) s
    (fun _ s' => wp (free_node (Some p)) s' Q False) False.
Proof using.
  intros Ht HQ. eapply wp_bind, wp_is_on_left; [exact Ht|reflexivity|].
  pose proof (it_rep _ _ Ht) as Hrep. apply rep_plug_up in Hrep as [(Hf & _) _].
  assert (Q tt (mk_rbtree (size s) (root s) (delete p (alter_at (new_child f None) (Some (f_addr f)) (nodes s))))) as Hend
    by (apply HQ; [by eapply is_tree_prune|done]).
  unfold new_child in Hend. destruct (on_left f); (eapply wp_store_node; [exact Hf|exact Hend]).
Qed.

(** The only child of a black node is red, and so is the only sibling of a red
    leaf. *)
Lemma rb_zero t : rb 0 t -> t = Leaf \/ exists p k d, t = Node p Red k d Leaf Leaf.
Proof using.
  inversion 1 as [|n p k d l r Cl Cr Hl Hr|]; [by left|right]. inversion Hl; [|subst; done]. inversion Hr; [|subst; done].
  by exists p, k, d.
Qed.

Lemma wp_delete_leaf s T fs p c k d fuel (Q : unit -> rbtree_t K D -> Prop) :
  is_tree s T -> T = plug fs (Node p c k d Leaf Leaf) -> balanced T -> (2 + length fs <= fuel)%nat ->
  (forall s', removed s (elems (plug fs Leaf)) s' -> Q tt s') -> wp (delete_leaf fuel (Some p)) s Q False.
Proof using.
  intros Ht E Hbal Hf HQ. rewrite E in Hbal. destruct (plug_accepts _ _ Hbal) as (n & Hrb & Hac). cbn [color_of] in Hac.
  unfold delete_leaf. eapply wp_bind, wp_load_at; [exact Ht|exact E|]. cbn [parent color].
  apply wp_bind, wp_get_tree. apply wp_bind. destruct fs as [|f fs].
  { assert (root s = Some p) as Hroot by (rewrite (it_root _ _ Ht), E; done). rewrite decide_True by done.
    apply HQ. exists Leaf. split_and!; [|done|split; [done|by exists 0%nat; constructor]|done].
    rewrite E in Ht. apply (is_tree_replace s (delete p (nodes s)) [] (Node p c k d Leaf Leaf) Leaf);
      [exact Ht|done|by intros x Hx%elem_of_nil|done|constructor|by intros x Hx%elem_of_nil|].
    rewrite dom_delete_L, (dom_plug _ [] _ Ht). by apply set_remove. }
  rewrite decide_False by (by eapply not_root). cbn [up].
  assert (forall s1 g gs, is_tree s1 (plug (g :: gs) (Node p c k d Leaf Leaf)) -> f_addr g = f_addr f -> size s1 = size s ->
    elems (plug (g :: gs) Leaf) = elems (plug (f :: fs) Leaf) -> balanced (plug (g :: gs) Leaf) ->
    wp (on_left ← rbtree_node_is_on_left (Some p);
        if on_left : bool then set_left (Some (f_addr f)) None else set_right (Some (f_addr f)) None) s1
      (fun _ s' => wp (free_node (Some p)) s' Q False) False) as Hend.
  { intros s1 g gs Ht1 Eg Hs1 He Hb. rewrite <- Eg. eapply wp_unlink_leaf; [exact Ht1|]. intros s2 Ht2 Hs2.
    apply HQ. eexists. split_and!; [exact Ht2|exact He|exact Hb|congruence]. }
  apply wp_bind. destruct (decide (c = Black)) as [-> |Hc].
  - apply rb_Node in Hrb as (n' & -> & Hl & _). inversion Hl; subst n'.
    eapply (wp_fix_blackblack fuel s T (f :: fs) [] (Node p Black k d Leaf Leaf) p 0);
      [exact Ht|exact E|done|constructor|done|exact Hac|cbn in *; destruct (decide _); lia|].
    intros s1 [|g gs] Ht1 Hc1 Hi1 Hb1 Hs1; [done|]. injection Hi1 as Ea _. apply (Hend s1 g gs); try done.
    by apply (cells_around (g :: gs) (f :: fs) Leaf).
  - destruct c; [|done]. apply rb_Node in Hrb as (_ & _ & Hl & _). inversion Hl; subst n. cbn in Hac.
    destruct (f_color f) eqn:Ef; [by destruct Hac|]. destruct Hac as [Ho Hac].
    assert (forall s1, is_tree s1 (plug (f :: fs) (Node p Red k d Leaf Leaf)) -> size s1 = size s ->
      wp (on_left ← rbtree_node_is_on_left (Some p);
          if on_left : bool then set_left (Some (f_addr f)) None else set_right (Some (f_addr f)) None) s1
        (fun _ s' => wp (free_node (Some p)) s' Q False) False) as Hend'.
    { intros s1 Ht1 Hs1. apply (Hend s1 f fs); try done. apply (accepts_plug _ 0); [constructor|]. cbn. by rewrite Ef. }
    eapply wp_bind, wp_sibling; [exact Ht|exact E|]. destruct (rb_zero _ Ho) as [Eo|(u & ku & du & Eo)]; rewrite Eo; cbn [addr].
    + apply wp_ret, Hend'; [by rewrite <- E|done].
    + destruct f as [df pa cf kf df' ot]. cbn in *. subst ot cf.
      eapply (wp_set_color s T (mk_frame (negb df) pa Black kf df' (Node p Red k d Leaf Leaf) :: fs) u);
        [exact Ht|rewrite E; by destruct df|]. intros s1 Ht1 Hs1. apply Hend'; [|done]. by destruct df.
Qed.

Lemma dom_single s fs dir p k d u ku du :
  is_tree s (plug fs (node_at dir p Black k d (Node u Red ku du Leaf Leaf) Leaf)) ->
  dom (nodes s) = {[ p; u ]} ∪ list_to_set (around fs) /\ p <> u /\ (p ∉ around fs) /\ (u ∉ around fs).
Proof using.
  intros Ht. destruct (plug_nodup _ _ (it_nodup _ _ Ht)) as (Hnd & _ & Hdis).
  rewrite (dom_plug _ _ _ Ht). rewrite addrs_node_at in Hnd. setoid_rewrite addrs_node_at in Hdis. cbn in Hnd, Hdis.
  split_and!; [|intros ->; by apply NoDup_cons in Hnd as [[]%not_elem_of_cons _]|apply Hdis; left|apply Hdis; right; left].
  f_equal. apply leibniz_equiv. rewrite addrs_node_at. cbn. clear. set_solver.
Qed.

Lemma wp_delete_single s T fs dir p k d u ku du fuel (Q : unit -> rbtree_t K D -> Prop) :
  is_tree s T -> T = plug fs (node_at dir p Black k d (Node u Red ku du Leaf Leaf) Leaf) -> balanced T ->
  (forall s', removed s ((before fs).*2 ++ (ku, du) :: (behind fs).*2) s' -> Q tt s') ->
  wp (delete_single fuel (Some p) (Some u)) s Q False.
Proof using.
  intros Ht E Hbal HQ. rewrite E in Hbal. destruct (plug_accepts _ _ Hbal) as (n & Hrb & Hac).
  assert (n = 1%nat /\ accepts fs n Black) as [-> Hac'].
  { destruct dir; cbn in *; apply rb_Node in Hrb as (n' & -> & H1 & H2); [inversion H2|inversion H1]; by subst. }
  rewrite E in Ht. destruct (dom_single _ _ _ _ _ _ _ _ _ Ht) as (Hd & Hpu & Hpa & Hua).
  pose proof (it_rep _ _ Ht) as Hrep. apply rep_plug_up in Hrep as [Har Hrep]. rewrite rep_node_at in Hrep. cbn in Hrep.
  destruct Hrep as (Hp & (Hu & _ & _) & _).
  unfold delete_single. eapply wp_bind, wp_load_node; [exact Hp|]. eapply wp_bind, wp_load_node; [exact Hu|]. cbn [color key data].
  apply wp_bind, wp_get_tree. replace (parent _) with (up fs) by (by destruct dir).
  replace (bool_decide (Red = Black)) with false by done. cbn [andb].
  assert (removed s ((before fs).*2 ++ (ku, du) :: (behind fs).*2) = removed s (elems (plug fs (Node u Black ku du Leaf Leaf)))) as Er.
  { f_equal. unfold elems. rewrite cells_plug. cbn. by rewrite fmap_app. }
  assert (balanced (plug fs (Node u Black ku du Leaf Leaf))) as Hb by (apply (accepts_plug fs 1); [by repeat constructor|done]).
  destruct fs as [|f fs].
  - assert (root s = Some p) as Hroot by (rewrite (it_root _ _ Ht); cbn [plug]; apply addr_node_at). rewrite decide_True by done.
    eapply wp_bind, wp_store_node; [exact Hp|]. eapply wp_bind, wp_store_node; [cbn [nodes with_nodes]; rewrite lookup_alter_at, decide_True, Hp by done; reflexivity|].
    eapply wp_bind, wp_store_node; [cbn [nodes with_nodes]; rewrite !lookup_alter_at, !decide_True, Hp by done; reflexivity|].
    apply HQ. exists (Node p Black ku du Leaf Leaf). split_and!; [|done|split; [done|exists 1%nat; by repeat constructor]|done].
    match goal with |- is_tree (mk_rbtree _ _ ?m) _ => set (m' := m) end.
    assert (m' !! p = Some (mk_node None None None Black ku du)) as Hp'.
    { unfold m'. rewrite lookup_delete_ne by done. cbn [nodes with_nodes]. rewrite !lookup_alter_at, !decide_True, Hp by done. by destruct dir. }
    replace (root _) with (addr (plug [] (Node p Black ku du (@Leaf K D) Leaf))) by (by rewrite <- Hroot).
    apply (is_tree_replace s m' [] _ (Node p Black ku du Leaf Leaf)) in Ht; try done.
    + by intros x Hx%elem_of_nil.
    + apply NoDup_singleton.
    + intros x _ Hx%elem_of_nil. done.
    + unfold m'. rewrite dom_delete_L. cbn [nodes with_nodes]. rewrite !dom_alter_at, Hd. rewrite (union_comm_L {[ p ]}). by apply set_remove_2.
  - rewrite decide_False by (intros Ep; rewrite (it_root _ _ Ht) in Ep; symmetry in Ep; by apply root_in_around in Ep).
    pose proof Har as (Hf & _). cbn [up].
    assert (exists l' r', plug (f :: fs) (node_at dir p Black k d (Node u Red ku du Leaf Leaf) Leaf) = plug (f :: fs) (Node p Black k d l' r'))
      as (l' & r' & E2) by (destruct dir; by eexists _, _).
    eapply wp_bind, wp_is_on_left; [exact Ht|exact E2|]. apply wp_bind.
    set (m1 := alter_at (new_child f (Some u)) (Some (f_addr f)) (nodes s)).
    assert (forall R : unit -> rbtree_t K D -> Prop, R tt (with_nodes m1 s) ->
      wp (if on_left f then set_left (Some (f_addr f)) (Some u) else set_right (Some (f_addr f)) (Some u)) s R False) as Hset.
    { intros R HR. unfold m1, new_child in HR. destruct (on_left f); (eapply wp_store_node; [exact Hf|exact HR]). }
    assert (f_addr f ∈ around (f :: fs)) as Hfa by (rewrite around_cons; left).
    assert (f_addr f <> u /\ f_addr f <> p) as [Hfu Hfp] by (split; intros Ex; rewrite Ex in Hfa; done).
    apply Hset. apply wp_bind. unfold free_node. unfold wp at 1. cbn [nodes with_nodes size root].
    assert (delete p m1 !! u = Some (mk_node (Some p) None None Red ku du)) as Hu1.
    { rewrite lookup_delete_ne by done. unfold m1. rewrite lookup_alter_at, decide_False by congruence. done. }
    eapply wp_bind, wp_store_node; [exact Hu1|]. eapply wp_store_node; [cbn [nodes with_nodes]; rewrite lookup_alter_at, decide_True, Hu1 by done; reflexivity|].
    apply HQ. rewrite Er. exists (plug (f :: fs) (Node u Black ku du Leaf Leaf)). split_and!; [|done|done|done].
    match goal with |- is_tree (with_nodes ?m _) _ => set (m' := m) end. unfold with_nodes. cbn [size root].
    rewrite (it_root _ _ Ht), (root_below f fs _ (Node u Black ku du Leaf Leaf)).
    eapply (is_tree_replace s m' (f :: fs)); [exact Ht|..].
    + cbn [rep up]. split; [|done]. unfold m'. cbn [nodes with_nodes]. by rewrite !lookup_alter_at, !decide_True, Hu1 by done.
    + intros x Hx Hux. unfold m'. cbn [nodes with_nodes up] in *. rewrite !lookup_alter_at, !decide_False by (intros [= ->]; done).
      rewrite lookup_delete_ne by (intros ->; done). unfold m1. by rewrite lookup_alter_at, decide_False by congruence.
    + unfold m'. cbn [nodes with_nodes]. rewrite !lookup_alter_at, !decide_False by congruence. rewrite lookup_delete_ne by congruence.
      unfold m1. by rewrite lookup_alter_at, decide_True.
    + apply NoDup_singleton.
    + intros x ->%list_elem_of_singleton. done.
    + unfold m'. cbn [nodes with_nodes]. rewrite !dom_alter_at, dom_delete_L. unfold m1. rewrite dom_alter_at, Hd.
      apply set_remove_2; [by rewrite elem_of_list_to_set|done].
Qed.

(** ** The successor *)

Lemma wp_successor fuel s T fs t p (Q : option loc -> rbtree_t K D -> Prop) :
  is_tree s T -> T = plug fs t -> addr t = Some p -> (length (cells t) <= fuel)%nat ->
  (forall cin q c k d r, t = plug cin (Node q c k d Leaf r) -> before cin = [] -> Q (Some q) s) ->
  wp (rbtree_node_successor fuel (Some p)) s Q False.
Proof using.
  revert fs t p. induction fuel as [|fuel IH]; intros fs t p Ht E Hp Hf HQ; (destruct t as [|p' c k d l r]; [done|]; injection Hp as ->).
  { cbn in Hf. rewrite length_app in Hf. cbn in Hf. lia. }
  cbn [rbtree_node_successor]. eapply wp_bind, wp_load_at; [exact Ht|exact E|]. cbn [left].
  destruct l as [|q cq kq dq ll lr]; [apply wp_ret; by apply (HQ [] p c k d r)|].
  eapply (IH (mk_frame true p c k d r :: fs)); [exact Ht|exact E|done| |].
  - cbn [cells] in *. rewrite length_app in Hf. cbn [length] in Hf. lia.
  - intros cin x cx kx dx rx Ex Hb. apply (HQ (cin ++ [mk_frame true p c k d r]) x cx kx dx rx).
    + rewrite plug_app, <- Ex. done.
    + clear -Hb. induction cin as [|g cin IH]; [done|]. cbn in *. apply app_nil in Hb as [Hb1 Hb2]. rewrite (IH Hb1). exact Hb2.
Qed.

(** The color of a place does not depend on the items around it. *)
Lemma accepts_item cin f g fs n c :
  f_color f = f_color g -> other f = other g -> accepts (cin ++ f :: fs) n c -> accepts (cin ++ g :: fs) n c.
Proof using.
  intros E1 E2. revert n c. induction cin as [|h cin IH]; intros n c; cbn; [by rewrite E1, E2|].
  destruct (f_color h); intros H; destruct_and?; auto using conj.
Qed.

Lemma rb_item n p c k d k' d' l r : rb n (Node p c k d l r) -> rb n (Node p c k' d' l r).
Proof using. inversion 1; by constructor. Qed.

Lemma wp_swap_values s T p1 p2 c1 c2 fs1 k1 d1 l1 r1 fs2 k2 d2 l2 r2 (Q : unit -> rbtree_t K D -> Prop) T' :
  is_tree s T -> T = plug fs1 (Node p1 c1 k1 d1 l1 r1) -> T = plug fs2 (Node p2 c2 k2 d2 l2 r2) ->
  (exists fs3 l3 r3, plug fs1 (Node p1 c1 k2 d2 l1 r1) = plug fs3 (Node p2 c2 k2 d2 l3 r3) /\
     T' = plug fs3 (Node p2 c2 k1 d1 l3 r3)) ->
  (forall s', is_tree s' T' -> size s' = size s -> Q tt s') ->
  wp (rbtree_node_swap_values (Some p1) (Some p2)) s Q False.
Proof using.
  intros Ht E1 E2 (fs3 & l3 & r3 & E3 & ->) HQ. unfold rbtree_node_swap_values.
  eapply wp_bind, wp_load_at; [exact Ht|exact E1|]. eapply wp_bind, wp_load_at; [exact Ht|exact E2|]. cbn [key data].
  eapply wp_bind, wp_set_item; [exact Ht|exact E1|]. intros s1 Ht1 Hs1. eapply wp_set_item; [exact Ht1|exact E3|].
  intros s2 Ht2 Hs2. apply HQ; [exact Ht2|congruence].
Qed.

(** ** Deletion *)

(** A node with at most one child. *)
Lemma wp_delete_one fuel s T fs p c k d l r (Q : unit -> rbtree_t K D -> Prop) :
  is_tree s T -> T = plug fs (Node p c k d l r) -> balanced T -> (l = Leaf \/ r = Leaf) -> (0 < fuel)%nat ->
  (forall s', removed s ((before fs ++ cells l).*2 ++ (cells r ++ behind fs).*2) s' -> Q tt s') ->
  wp (rbtree_delete_node fuel (Some p)) s Q False.
Proof using.
  intros Ht E Hbal Hlr Hf HQ. destruct fuel as [|fuel]; [lia|]. cbn [rbtree_delete_node]. apply wp_bind, wp_get_tree.
  set (steps := (2 + base.size (nodes s))%nat). assert (2 + length fs <= steps)%nat as Hsteps.
  { unfold steps. rewrite (is_tree_length _ _ Ht), E. pose proof (length_frames fs (Node p c k d l r)). lia. }
  assert (balanced (plug fs (Node p c k d l r))) as Hb by (by rewrite <- E). destruct (plug_accepts _ _ Hb) as (n & Hrb & Hac).
  apply wp_bind. unfold rbtree_node_bst_replace. eapply wp_bind, wp_load_at; [exact Ht|exact E|]. cbn [left right].
  destruct l as [|u cu ku du ul ur], r as [|v cv kv dv vl vr]; cbn [addr]; [|..|by destruct Hlr].
  - apply wp_ret. eapply wp_delete_leaf; [exact Ht|exact E|done|done|]. intros s' Hs'. apply HQ.
    rewrite elems_plug_leaf in Hs'. by rewrite app_nil_r.
  - assert (c = Black /\ Node v cv kv dv vl vr = Node v Red kv dv Leaf Leaf) as [-> [= -> -> ->]].
    { destruct c; apply rb_Node in Hrb; [destruct Hrb as (_ & Cv & Hl & Hv)|destruct Hrb as (n' & -> & Hl & Hv)]; inversion Hl; subst;
        (destruct (rb_zero _ Hv) as [?|(? & ? & ? & [= -> -> -> -> -> ->])]; done). }
    apply wp_ret. eapply wp_bind, wp_load_at; [exact Ht|exact E|]. cbn [left right addr].
    eapply (wp_delete_single s T fs false); [exact Ht|exact E|exact Hbal|]. intros s' Hs'. apply HQ. cbn. by rewrite app_nil_r.
  - assert (c = Black /\ Node u cu ku du ul ur = Node u Red ku du Leaf Leaf) as [-> [= -> -> ->]].
    { destruct c; apply rb_Node in Hrb; [destruct Hrb as (Cu & _ & Hu & Hl)|destruct Hrb as (n' & -> & Hu & Hl)]; inversion Hl; subst;
        (destruct (rb_zero _ Hu) as [?|(? & ? & ? & [= -> -> -> -> -> ->])]; done). }
    apply wp_ret. eapply wp_bind, wp_load_at; [exact Ht|exact E|]. cbn [left right addr].
    eapply (wp_delete_single s T fs true); [exact Ht|exact E|exact Hbal|]. intros s' Hs'. apply HQ. cbn.
    by rewrite fmap_app, <- app_assoc.
Qed.

Lemma wp_delete_node s T fs p c k d l r (Q : unit -> rbtree_t K D -> Prop) :
  is_tree s T -> T = plug fs (Node p c k d l r) -> balanced T ->
  (forall s', removed s ((before fs ++ cells l).*2 ++ (cells r ++ behind fs).*2) s' -> Q tt s') ->
  wp (rbtree_delete_node 2 (Some p)) s Q False.
Proof using.
  intros Ht E Hbal HQ. destruct (decide (addr l = None \/ addr r = None)) as [Hlr|Hlr].
  { eapply wp_delete_one; [exact Ht|exact E|exact Hbal| |lia|exact HQ]. destruct l, r; try (by left); try (by right). by destruct Hlr. }
  destruct l as [|u cu ku du ul ur]; [by destruct Hlr; left|]. destruct r as [|v cv kv dv vl vr]; [by destruct Hlr; right|]. clear Hlr.
  set (l := Node u cu ku du ul ur) in *. set (r := Node v cv kv dv vl vr) in *.
  cbn [rbtree_delete_node]. apply wp_bind, wp_get_tree. apply wp_bind.
  unfold rbtree_node_bst_replace. eapply wp_bind, wp_load_at; [exact Ht|exact E|]. cbn [left right addr l r].
  set (fr := mk_frame false p c k d l).
  eapply (wp_successor _ s T (fr :: fs) r v); [exact Ht|exact E|done| |].
  { rewrite (is_tree_length _ _ Ht), E. pose proof (length_frames (fr :: fs) r) as H.
    change (plug (fr :: fs) r) with (plug fs (Node p c k d l r)) in H. lia. }
  intros cin q cq kq dq rr Er Hb. eapply wp_bind, wp_load_at; [exact Ht|exact E|]. cbn [left right addr].
  assert (T = plug (cin ++ fr :: fs) (Node q cq kq dq Leaf rr)) as Eq by (rewrite plug_app, <- Er; exact E).
  set (fr' := mk_frame false p c kq dq l). set (tq := Node q cq k d Leaf rr).
  eapply wp_bind, (wp_swap_values s T q p cq c (cin ++ fr :: fs) _ _ _ _ fs _ _ _ _ _ (plug (cin ++ fr' :: fs) tq));
    [exact Ht|exact Eq|exact E| |].
  { exists fs, l, (plug cin tq). by rewrite !plug_app. }
  intros s1 Ht1 Hs1. eapply (wp_delete_one 1 s1 _ (cin ++ fr' :: fs)); [exact Ht1|reflexivity| |by left|lia|].
  - rewrite Eq in Hbal. destruct (plug_accepts _ _ Hbal) as (n & Hrb & Hac). apply (accepts_plug _ n); [by eapply rb_item|].
    by eapply (accepts_item cin fr fr').
  - intros s2 (T2 & Ht2 & He2 & Hb2 & Hs2). apply HQ. exists T2. split_and!; [exact Ht2| |exact Hb2|congruence]. rewrite He2.
    assert (forall g gs, before (cin ++ g :: gs) = before (g :: gs)) as Ebef.
    { intros g gs. clear -Hb. induction cin as [|h cin IH]; [done|]. cbn in Hb. apply app_nil in Hb as [Hb1 Hb2].
      change (before ((h :: cin) ++ g :: gs)) with (before (cin ++ g :: gs) ++ (if on_left h then [] else cells (other h) ++ [(f_addr h, (f_key h, f_data h))])).
      rewrite (IH Hb1), Hb2. apply app_nil_r. }
    assert (forall gs, behind (cin ++ gs) = behind cin ++ behind gs) as Ebeh.
    { intros gs. clear. induction cin as [|h cin IH]; [done|]. cbn. by rewrite IH, app_assoc. }
    rewrite Er, cells_plug, Hb, Ebef, Ebeh. cbn. rewrite app_nil_r, !fmap_app. cbn. rewrite <- ?app_assoc. cbn. by rewrite <- ?app_assoc.
Qed.
End Remove.
