(* ===== verification/RbTreeSearch.v ===== *)
(** * Red-black trees: order and search

    The items of a tree in order are a sorted association list; searching,
    insertion and deletion are stated on such lists. *)

From S2P Require Import Prelude RbTree RbTreeTheory RbTreeInsert RbTreeDelete RbTreeRemove.

(** What an index relies on: the comparator is a total order up to equivalence. *)
Class KeyOrder {K} (cmp : K -> K -> Z) : Prop := {
  cmp_values x y : cmp x y = -1 \/ cmp x y = 0 \/ cmp x y = 1;
  cmp_opp x y : cmp y x = - cmp x y;
  cmp_trans x y z : cmp x y = -1 -> cmp y z = -1 -> cmp x z = -1;
  cmp_congr x y z : cmp x y = 0 -> cmp x z = cmp y z;
}.

Section Items.
Context {K D : Type} (cmp : K -> K -> Z) `{KO : !KeyOrder cmp}.
Implicit Types (e : K * D) (es xs ys : list (K * D)).

Definition precedes e1 e2 : Prop := cmp e1.1 e2.1 = -1.
Definition sorted es : Prop := StronglySorted precedes es.

(** The data of a key. *)
Fixpoint lookup_item (k : K) es : option D :=
  match es with
  | [] => None
  | e :: es => if cmp k e.1 =? 0 then Some e.2 else lookup_item k es
  end.

(** The list with an item of a key; an item of the same key is replaced. *)
Fixpoint insert_item (k : K) (d : D) es : list (K * D) :=
  match es with
  | [] => [(k, d)]
  | e :: es => if cmp k e.1 =? -1 then (k, d) :: e :: es else if cmp k e.1 =? 0 then (k, d) :: es else e :: insert_item k d es
  end.

Fixpoint delete_item (k : K) es : list (K * D) :=
  match es with
  | [] => []
  | e :: es => if cmp k e.1 =? 0 then delete_item k es else e :: delete_item k es
  end.

Definition below (k : K) es : Prop := Forall (fun e => cmp k e.1 = 1) es.
Definition above (k : K) es : Prop := Forall (fun e => cmp k e.1 = -1) es.

Lemma lookup_below k xs ys : below k xs -> lookup_item k (xs ++ ys) = lookup_item k ys.
Proof using. induction 1 as [|e xs He _ IH]; [done|]. cbn. by rewrite He. Qed.

Lemma lookup_above k ys : above k ys -> lookup_item k ys = None.
Proof using. induction 1 as [|e ys He _ IH]; [done|]. cbn. by rewrite He. Qed.

Lemma insert_below k d xs ys : below k xs -> insert_item k d (xs ++ ys) = xs ++ insert_item k d ys.
Proof using. induction 1 as [|e xs He _ IH]; [done|]. cbn. by rewrite He, IH. Qed.

Lemma insert_above k d ys : above k ys -> insert_item k d ys = (k, d) :: ys.
Proof using. destruct 1 as [|e ys He _]; [done|]. cbn. by rewrite He. Qed.

Lemma delete_none k xs : Forall (fun e => cmp k e.1 <> 0) xs -> delete_item k xs = xs.
Proof using. induction 1 as [|e xs He _ IH]; [done|]. cbn. destruct (Z.eqb_spec (cmp k e.1) 0); [done|]. by rewrite IH. Qed.

Lemma delete_app k xs ys : delete_item k (xs ++ ys) = delete_item k xs ++ delete_item k ys.
Proof using. induction xs as [|e xs IH]; [done|]. cbn. destruct (cmp k e.1 =? 0); [done|]. by rewrite IH. Qed.

Lemma below_delete k xs : below k xs -> delete_item k xs = xs.
Proof using. intros H. apply delete_none. eapply Forall_impl; [exact H|]. cbn. lia. Qed.

Lemma above_delete k xs : above k xs -> delete_item k xs = xs.
Proof using. intros H. apply delete_none. eapply Forall_impl; [exact H|]. cbn. lia. Qed.

Lemma sorted_app xs ys : sorted (xs ++ ys) <-> sorted xs /\ sorted ys /\ (forall x y, x ∈ xs -> y ∈ ys -> precedes x y).
Proof using.
  unfold sorted. induction xs as [|e xs IH]; cbn.
  - split; [intros H; split_and!; [constructor|done|by intros x y Hx%elem_of_nil]|by intros (_ & H & _)].
  - split.
    + intros [H1 H2]%StronglySorted_inv. apply IH in H1 as (H3 & H4 & H5). apply Forall_app in H2 as [H6 H7]. split_and!; [by constructor|done|].
      intros x y [-> |Hx]%elem_of_cons Hy; [by apply (proj1 (Forall_forall _ _) H7)|by apply H5].
    + intros ([H1 H2]%StronglySorted_inv & H3 & H4). constructor.
      * apply IH. split_and!; try done. intros x y Hx. apply H4. by right.
      * apply Forall_app. split; [done|]. apply Forall_forall. intros y Hy. apply H4; [left|done].
Qed.

(** A list around an item with the key. *)
Lemma sorted_around k xs e ys : sorted (xs ++ e :: ys) -> cmp k e.1 = 0 -> below k xs /\ above k ys.
Proof using KO.
  intros (_ & [_ Hy]%StronglySorted_inv & H)%sorted_app Hk. split; apply Forall_forall; intros z Hz.
  - specialize (H z e Hz ltac:(left)). unfold precedes in H. rewrite (cmp_congr k e.1 z.1 Hk), cmp_opp, H. done.
  - rewrite (cmp_congr k e.1 z.1 Hk). by apply (proj1 (Forall_forall _ _) Hy).
Qed.

Lemma sorted_insert xs k d ys : sorted (xs ++ ys) -> below k xs -> above k ys -> sorted (xs ++ (k, d) :: ys).
Proof using KO.
  intros (H1 & H2 & H3)%sorted_app Hb Ha. apply sorted_app. split_and!; [done|by constructor|].
  intros x y Hx [-> |Hy]%elem_of_cons; [|by apply H3]. unfold precedes. cbn.
  rewrite cmp_opp. by rewrite (proj1 (Forall_forall _ _) Hb x Hx).
Qed.

Lemma sorted_replace xs e k d ys : sorted (xs ++ e :: ys) -> cmp k e.1 = 0 -> sorted (xs ++ (k, d) :: ys).
Proof using KO.
  intros Hs Hk. destruct (sorted_around k xs e ys Hs Hk) as [Hb Ha]. apply sorted_insert; [|done|done].
  apply sorted_app in Hs as (H1 & [H2 _]%StronglySorted_inv & H3). apply sorted_app. split_and!; try done. intros x y Hx Hy. apply H3; [done|by right].
Qed.

Lemma sorted_without xs e ys : sorted (xs ++ e :: ys) -> sorted (xs ++ ys).
Proof using.
  intros (H1 & [H2 _]%StronglySorted_inv & H3)%sorted_app. apply sorted_app. split_and!; try done. intros x y Hx Hy. apply H3; [done|by right].
Qed.
End Items.

Section Search.
Context {K D : Type} `{NH : NodeHeap K D} (cmp : K -> K -> Z) `{KO : !KeyOrder cmp}.
Implicit Types (t l r T : rbt K D) (f : frame K D) (fs gs : list (frame K D)) (s : rbtree_t K D).

Lemma elems_plug fs t : elems (plug fs t) = (before fs).*2 ++ elems t ++ (behind fs).*2.
Proof using. unfold elems. by rewrite cells_plug, !fmap_app. Qed.

Lemma elems_node p c k d l r : elems (Node p c k d l r) = elems l ++ (k, d) :: elems r.
Proof using. unfold elems. cbn. by rewrite fmap_app. Qed.

(** Going down to one side of a node. *)
Lemma search_left fs k p c k' d' l r :
  sorted cmp (elems (plug fs (Node p c k' d' l r))) -> cmp k k' = -1 -> above cmp k (behind fs).*2 ->
  above cmp k (behind (mk_frame true p c k' d' r :: fs)).*2.
Proof using KO.
  intros Hs Hk Ha. cbn. rewrite elems_plug, elems_node in Hs. apply sorted_app in Hs as (_ & Hs & _). apply sorted_app in Hs as (Hs & _ & _).
  apply sorted_app in Hs as (_ & [_ Hr]%StronglySorted_inv & _). constructor; [done|]. rewrite fmap_app. apply Forall_app. split; [|done].
  eapply Forall_impl; [exact Hr|]. intros e He. unfold precedes in He. cbn in *. by eapply cmp_trans.
Qed.

Lemma search_right fs k p c k' d' l r :
  sorted cmp (elems (plug fs (Node p c k' d' l r))) -> cmp k k' = 1 -> below cmp k (before fs).*2 ->
  below cmp k (before (mk_frame false p c k' d' l :: fs)).*2.
Proof using KO.
  intros Hs Hk Hb. cbn. rewrite elems_plug, elems_node in Hs. apply sorted_app in Hs as (_ & Hs & _). apply sorted_app in Hs as (Hs & _ & _).
  apply sorted_app in Hs as (_ & _ & Hl). rewrite !fmap_app. apply Forall_app. split; [done|]. apply Forall_app. split; [|by repeat constructor].
  apply Forall_forall. intros e He. specialize (Hl e (k', d') He ltac:(left)). unfold precedes in Hl. cbn in *.
  rewrite cmp_opp. rewrite (cmp_trans e.1 k' k); [done|exact Hl|]. rewrite cmp_opp, Hk. done.
Qed.

Lemma wp_search_loop fuel k s T fs t p (Q : bool * option loc -> rbtree_t K D -> Prop) :
  is_tree s T -> T = plug fs t -> addr t = Some p -> sorted cmp (elems T) ->
  below cmp k (before fs).*2 -> above cmp k (behind fs).*2 -> (length (cells t) <= fuel)%nat ->
  (forall gs q c k' d' l r, T = plug gs (Node q c k' d' l r) -> cmp k k' = 0 -> Q (true, Some q) s) ->
  (forall f gs, T = plug (f :: gs) Leaf -> below cmp k (before (f :: gs)).*2 -> above cmp k (behind (f :: gs)).*2 ->
     on_left f = (cmp k (f_key f) =? -1) -> Q (false, Some (f_addr f)) s) ->
  wp (search_loop cmp fuel k (Some p)) s Q False.
Proof using KO.
  revert fs t p. induction fuel as [|fuel IH]; intros fs t p Ht E Hp Hs Hb Ha Hf Hyes Hno; (destruct t as [|p' c k' d' l r]; [done|]; injection Hp as ->).
  { cbn in Hf. rewrite length_app in Hf. cbn in Hf. lia. }
  cbn [search_loop]. eapply wp_bind, wp_load_at; [exact Ht|exact E|]. cbn [key left right].
  assert (sorted cmp (elems (plug fs (Node p c k' d' l r)))) as Hs' by (by rewrite <- E).
  cbn [cells] in Hf. rewrite length_app in Hf. cbn [length] in Hf. destruct (cmp_values k k') as [Hc|[Hc|Hc]]; rewrite Hc; cbn [Z.eqb Pos.eqb].
  - pose proof (search_left _ _ _ _ _ _ _ _ Hs' Hc Ha) as Ha'.
    assert (below cmp k (before (mk_frame true p c k' d' r :: fs)).*2) as Hb' by (cbn; by rewrite app_nil_r).
    destruct l as [|q cq kq dq ll lr]; cbn [addr].
    + apply wp_ret. apply (Hno (mk_frame true p c k' d' r) fs); [exact E|exact Hb'|exact Ha'|cbn; by rewrite Hc].
    + eapply (IH (mk_frame true p c k' d' r :: fs)); [exact Ht|exact E|done|exact Hs|exact Hb'|exact Ha'|lia|exact Hyes|exact Hno].
  - apply wp_ret. by eapply Hyes.
  - pose proof (search_right _ _ _ _ _ _ _ _ Hs' Hc Hb) as Hb'.
    assert (above cmp k (behind (mk_frame false p c k' d' l :: fs)).*2) as Ha' by done.
    destruct r as [|q cq kq dq rl rr]; cbn [addr].
    + apply wp_ret. apply (Hno (mk_frame false p c k' d' l) fs); [exact E|exact Hb'|exact Ha'|cbn; by rewrite Hc].
    + eapply (IH (mk_frame false p c k' d' l :: fs)); [exact Ht|exact E|done|exact Hs|exact Hb'|exact Ha'|lia|exact Hyes|exact Hno].
Qed.

(** ** The invariant *)

Record rbtree_inv s T : Prop := {
  ri_tree : is_tree s T;
  ri_balanced : balanced T;
  ri_sorted : sorted cmp (elems T);
  ri_size : size s = Z.of_nat (length (elems T));
}.

Lemma length_elems T : length (elems T) = length (cells T).
Proof using. apply length_fmap. Qed.

(** A search: the node with the key, or the place where it belongs. *)
Lemma wp_search_node k s T (Q : bool * option loc -> rbtree_t K D -> Prop) :
  is_tree s T -> sorted cmp (elems T) ->
  (forall gs q c k' d' l r, T = plug gs (Node q c k' d' l r) -> cmp k k' = 0 -> lookup_item cmp k (elems T) = Some d' -> Q (true, Some q) s) ->
  (forall f gs, T = plug (f :: gs) Leaf -> below cmp k (before (f :: gs)).*2 -> above cmp k (behind (f :: gs)).*2 ->
     on_left f = (cmp k (f_key f) =? -1) -> lookup_item cmp k (elems T) = None -> Q (false, Some (f_addr f)) s) ->
  (T = Leaf -> Q (false, None) s) ->
  wp (rbtree_search_node cmp k) s Q False.
Proof using KO.
  intros Ht Hs Hyes Hno Hleaf. unfold rbtree_search_node. apply wp_bind, wp_get_tree. rewrite (it_root _ _ Ht), (is_tree_length _ _ Ht).
  destruct (addr T) as [p|] eqn:Ep; [|destruct T; [by apply Hleaf|done]].
  eapply (wp_search_loop _ k s T [] T); [exact Ht|done|exact Ep|done|constructor|constructor|lia|..].
  - intros gs q cq k' d' ll rr E Hk. eapply Hyes; [exact E|exact Hk|]. rewrite E, elems_plug, elems_node in *.
    rewrite <- app_assoc in *. cbn in *. rewrite app_assoc in *.
    destruct (sorted_around cmp k _ _ _ Hs Hk) as [Hb _]. rewrite lookup_below by done. cbn. by rewrite Hk.
  - intros f gs E Hb Ha Hf. apply (Hno f gs); try done. rewrite E, elems_plug. cbn [elems cells fmap list_fmap app].
    rewrite lookup_below by done. by apply lookup_above.
Qed.
End Search.
