(* ===== verification/RbTreeTraverse.v ===== *)
(** * Red-black trees: traversal

    [rbtree_inorder] walks over the tree with a stack.  For every criterion it
    finds the nodes whose keys meet it, in order. *)

From S2P Require Import Prelude RbTree RbTreeTheory RbTreeInsert RbTreeDelete RbTreeRemove RbTreeSearch.

Section Order.
Context {K : Type} (cmp : K -> K -> Z) `{KO : !KeyOrder cmp}.

Lemma order_up k e x : cmp k e = -1 -> 0 <= cmp k x -> cmp e x = 1.
Proof using KO.
  intros He Hx. rewrite cmp_opp. destruct (cmp_values k x) as [E|[E|E]]; [lia| |].
  - rewrite (cmp_congr x k e); [by rewrite He|]. rewrite cmp_opp. lia.
  - rewrite (cmp_trans x k e); [done| |done]. rewrite cmp_opp. lia.
Qed.

Lemma order_down k e x : cmp e k = -1 -> cmp k x <= 0 -> cmp e x = -1.
Proof using KO.
  intros He Hx. destruct (cmp_values k x) as [E|[E|E]]; [by eapply cmp_trans| |lia].
  rewrite cmp_opp, (cmp_congr x k e); [rewrite cmp_opp; lia|]. rewrite cmp_opp. lia.
Qed.
End Order.

Section Visit.
Context {K D : Type} (cmp : K -> K -> Z) `{KO : !KeyOrder cmp}.
Implicit Types (t l r T : rbt K D) (cs : list (loc * (K * D))) (criteria : index_key_search_criteria_t) (k : K).

(** The keys that meet the criterion. *)
Definition selected criteria (key1 key2 : K) k : bool :=
  match criteria with
  | INDEXER_KEY_COMPARATOR_CRITERIA_NULL => true
  | INDEXER_KEY_COMPARATOR_CRITERIA_LESS => cmp k key1 =? -1
  | INDEXER_KEY_COMPARATOR_CRITERIA_LESSOREQUAL => cmp k key1 <=? 0
  | INDEXER_KEY_COMPARATOR_CRITERIA_EQUAL => cmp k key1 =? 0
  | INDEXER_KEY_COMPARATOR_CRITERIA_EQUALORGREATER => 0 <=? cmp k key1
  | INDEXER_KEY_COMPARATOR_CRITERIA_GREATER => 0 <? cmp k key1
  | INDEXER_KEY_COMPARATOR_CRITERIA_BETWEEN => (0 <=? cmp k key1) && (cmp k key2 <=? 0)
  end.

Definition picked (sel : K -> bool) cs : list (loc * (K * D)) := List.filter (fun c => sel c.2.1) cs.

Lemma picked_app sel cs cs' : picked sel (cs ++ cs') = picked sel cs ++ picked sel cs'.
Proof using. apply List.filter_app. Qed.

Lemma picked_none sel cs : (forall c, c ∈ cs -> sel c.2.1 = false) -> picked sel cs = [].
Proof using.
  induction cs as [|c cs IH]; intros H; [done|]. cbn. rewrite (H c) by left. apply IH. intros c' Hc'. apply H. by right.
Qed.

Lemma picked_node sel p c k d l r :
  picked sel (cells (Node p c k d l r)) = picked sel (cells l) ++ (if sel k then [(p, (k, d))] else []) ++ picked sel (cells r).
Proof using. cbn [cells]. rewrite picked_app. cbn. by destruct (sel k). Qed.

Lemma sorted_node l k d r c :
  sorted cmp (elems l ++ (k, d) :: elems r) -> (c ∈ cells l -> cmp c.2.1 k = -1) /\ (c ∈ cells r -> cmp k c.2.1 = -1).
Proof using.
  intros (_ & [_ Hr]%StronglySorted_inv & Hl)%sorted_app. split; intros Hc.
  - apply (Hl c.2 (k, d)); [|left]. apply list_elem_of_fmap. by exists c.
  - apply (proj1 (Forall_forall _ _) Hr). apply list_elem_of_fmap. by exists c.
Qed.

(** The step of the inner loop at a node. *)
Lemma visit_correct criteria (key1 key2 : K) par p c k d l r :
  sorted cmp (elems l ++ (k, d) :: elems r) ->
  let sel := selected criteria key1 key2 in
  let '(push, go) := visit cmp criteria key1 key2 (mk_node par (addr l) (addr r) c k d) in
  push = sel k /\
  match go with
  | Some next =>
    if push : bool then next = addr l
    else exists t', (t' = l \/ t' = r) /\ next = addr t' /\ picked sel (cells (Node p c k d l r)) = picked sel (cells t')
  | None =>
    push = false /\ picked sel (cells l) = [] /\ (r = Leaf \/ (criteria = INDEXER_KEY_COMPARATOR_CRITERIA_EQUAL /\ cmp k key1 = -1))
  end.
Proof using KO.
  intros Hs sel. pose proof (fun cc => proj1 (sorted_node l k d r cc Hs)) as Hl. pose proof (fun cc => proj2 (sorted_node l k d r cc Hs)) as Hr.
  assert (sel k = false -> (forall cc, cc ∈ cells r -> sel cc.2.1 = false) -> picked sel (cells (Node p c k d l r)) = picked sel (cells l)) as Hgol.
  { intros Hk H. by rewrite picked_node, Hk, (picked_none sel (cells r)), app_nil_r. }
  assert (sel k = false -> (forall cc, cc ∈ cells l -> sel cc.2.1 = false) -> picked sel (cells (Node p c k d l r)) = picked sel (cells r)) as Hgor.
  { intros Hk H. by rewrite picked_node, Hk, (picked_none sel (cells l)). }
  assert (0 <= cmp k key1 -> forall cc, cc ∈ cells r -> cmp cc.2.1 key1 = 1) as Hr1 by (intros H cc Hcc; eapply (order_up cmp k); [by apply Hr|done]).
  assert (cmp k key1 <= 0 -> forall cc, cc ∈ cells l -> cmp cc.2.1 key1 = -1) as Hl1 by (intros H cc Hcc; eapply (order_down cmp k); [by apply Hl|done]).
  assert (0 <= cmp k key2 -> forall cc, cc ∈ cells r -> cmp cc.2.1 key2 = 1) as Hr2 by (intros H cc Hcc; eapply (order_up cmp k); [by apply Hr|done]).
  clear Hs Hl Hr. unfold visit. cbn [key left right]. subst sel. destruct criteria; cbn [selected] in *.
  - done.
  - split; [done|]. destruct (Z.eqb_spec (cmp k key1) (-1)) as [E|E]; [done|]. exists l. split_and!; [by left|done|]. apply Hgol; [done|].
    intros cc Hcc. cbn [selected]. rewrite Hr1; [done| |done]. pose proof (cmp_values k key1). lia.
  - split; [done|]. destruct (Z.leb_spec (cmp k key1) 0) as [E|E]; [done|]. exists l. split_and!; [by left|done|]. apply Hgol; [done|].
    intros cc Hcc. cbn [selected]. rewrite Hr1; [done|lia|done].
  - destruct (Z.eqb_spec (cmp k key1) 0) as [E|E]; [done|]. destruct (Z.eqb_spec (cmp k key1) (-1)) as [E'|E'].
    + split_and!; [done..| |by right]. apply picked_none. intros cc Hcc. cbn [selected]. rewrite Hl1; [done|lia|done].
    + split; [done|]. exists l. split_and!; [by left|done|]. apply Hgol; [done|]. intros cc Hcc. cbn [selected]. rewrite Hr1; [done| |done].
      pose proof (cmp_values k key1). lia.
  - destruct (Z.leb_spec 0 (cmp k key1)) as [E|E]; [done|]. split; [done|].
    assert (forall cc, cc ∈ cells l -> (0 <=? cmp cc.2.1 key1) = false) as H by (intros cc Hcc; rewrite Hl1; [done|lia|done]).
    destruct r as [|q cq kq dq rl rr] eqn:Er; cbn [addr]; rewrite <- ?Er in *.
    + exists l. split_and!; [by left|done|]. apply Hgol; [done|]. rewrite Er. by intros cc Hcc%elem_of_nil.
    + exists r. split_and!; [by right|by rewrite Er|]. by apply Hgor.
  - destruct (Z.ltb_spec 0 (cmp k key1)) as [E|E]; [done|]. split; [done|].
    assert (forall cc, cc ∈ cells l -> (0 <? cmp cc.2.1 key1) = false) as H by (intros cc Hcc; rewrite Hl1; [done|lia|done]).
    destruct r as [|q cq kq dq rl rr] eqn:Er; cbn [addr]; rewrite <- ?Er in *.
    + exists l. split_and!; [by left|done|]. apply Hgol; [done|]. rewrite Er. by intros cc Hcc%elem_of_nil.
    + exists r. split_and!; [by right|by rewrite Er|]. by apply Hgor.
  - destruct ((0 <=? cmp k key1) && (cmp k key2 <=? 0)) eqn:Eb; [done|]. destruct (Z.eqb_spec (cmp k key1) (-1)) as [E|E].
    + assert (forall cc, cc ∈ cells l -> (0 <=? cmp cc.2.1 key1) && (cmp cc.2.1 key2 <=? 0) = false) as H
        by (intros cc Hcc; rewrite Hl1; [done|lia|done]).
      destruct r as [|q cq kq dq rl rr] eqn:Er; cbn [addr]; rewrite <- ?Er in *.
      * split_and!; [done..|by apply picked_none|by left].
      * split; [done|]. exists r. split_and!; [by right|by rewrite Er|]. by apply Hgor.
    + split; [done|]. exists l. split_and!; [by left|done|]. apply Hgol; [done|]. intros cc Hcc.
      assert (0 <= cmp k key1) as H1 by (pose proof (cmp_values k key1); lia). apply andb_false_iff in Eb as [Eb|Eb]; [lia|].
      cbn [selected]. rewrite (Hr2 ltac:(lia) cc Hcc). apply andb_false_r.
Qed.
End Visit.

Section Walk.
Context {K D : Type} (cmp : K -> K -> Z) `{KO : !KeyOrder cmp} (criteria : index_key_search_criteria_t) (key1 key2 : K).
Context (s : rbtree_t K D) (T : rbt K D) (Htree : is_tree s T).
Abbreviation sel := (selected cmp criteria key1 key2).
Implicit Types (t l r : rbt K D) (fs gs : list (frame K D)) (rest : list (loc * (K * D))).

(** The nodes on the stack, and what is left to visit after the present subtree:
    each node of the stack with its right subtree. *)
Inductive stacked : list loc -> list (loc * (K * D)) -> Prop :=
| stacked_nil : stacked [] []
| stacked_cons fs p c k d l r stack rest :
    T = plug fs (Node p c k d l r) -> sel k = true -> stacked stack rest -> stacked (p :: stack) ((p, (k, d)) :: cells r ++ rest).

(** What the inner loop leaves to do. *)
Definition down_post (todo : list (loc * (K * D))) (res : option loc * list loc) : Prop :=
  (exists rest, stacked res.2 rest /\ sorted cmp rest.*2 /\ picked sel rest = picked sel todo /\ (length rest <= length todo)%nat /\
     (res.2 = [] -> res.1 = None)) \/
  (exists gs x c k d l r, res = (Some x, []) /\ T = plug gs (Node x c k d l r) /\ sorted cmp (elems r) /\
     picked sel (cells r) = picked sel todo /\ (length (cells r) < length todo)%nat).

Lemma sorted_fmap_app (cs cs' : list (loc * (K * D))) : sorted cmp (cs ++ cs').*2 ->
  sorted cmp cs.*2 /\ sorted cmp cs'.*2 /\ (forall c c', c ∈ cs -> c' ∈ cs' -> cmp c.2.1 c'.2.1 = -1).
Proof using.
  rewrite fmap_app. intros (H1 & H2 & H3)%sorted_app. split_and!; [done..|]. intros c c' Hc Hc'.
  apply (H3 c.2 c'.2); apply list_elem_of_fmap; eauto.
Qed.

(** Nothing below the stack meets the criterion of equality. *)
Lemma equal_below_stack t p stack rest :
  criteria = INDEXER_KEY_COMPARATOR_CRITERIA_EQUAL -> stacked (p :: stack) rest -> sorted cmp (cells t ++ rest).*2 -> picked sel (cells t) = [].
Proof using KO.
  intros Ec Hst Hs. inversion Hst as [|fs p' c k d l r stack' rest' E Hk Hst' Ep Er]. subst p' stack' rest.
  apply sorted_fmap_app in Hs as (_ & _ & Hs). apply picked_none. intros e He. specialize (Hs e (p, (k, d)) He ltac:(left)). cbn in *.
  unfold selected in *. rewrite Ec in *. apply Z.eqb_eq in Hk. rewrite (order_down cmp k); [done|done|lia].
Qed.

Lemma wp_inorder_down fuel fs t stack rest (Q : option loc * list loc -> rbtree_t K D -> Prop) :
  T = plug fs t -> stacked stack rest -> sorted cmp (cells t ++ rest).*2 -> (length (cells t) < fuel)%nat ->
  (forall res, down_post (cells t ++ rest) res -> Q res s) ->
  wp (inorder_down cmp fuel criteria key1 key2 (addr t) stack) s Q False.
Proof using Htree KO.
  revert fs t stack rest. induction fuel as [|fuel IH]; intros fs t stack rest E Hst Hs Hf HQ; [lia|]. cbn [inorder_down].
  destruct t as [|p c k d l r]; cbn [addr].
  { apply wp_ret, HQ. left. exists rest. by split_and!. }
  eapply wp_bind, wp_load_at; [exact Htree|exact E|].
  pose proof (sorted_fmap_app _ _ Hs) as (Ht & _ & _). change (cells (Node p c k d l r)).*2 with (elems (Node p c k d l r)) in Ht. rewrite elems_node in Ht.
  pose proof (visit_correct cmp criteria key1 key2 (up fs) p c k d l r Ht) as Hv. cbn zeta in Hv.
  destruct (visit cmp criteria key1 key2 _) as [push go]. destruct Hv as [-> Hv]. cbn [cells] in Hf. rewrite length_app in Hf. cbn [length] in Hf.
  destruct go as [next|].
  - destruct (sel k) eqn:Ek.
    + subst next. cbn [cells] in Hs, HQ. rewrite <- app_assoc in Hs, HQ. cbn [app] in Hs, HQ.
      eapply (IH (mk_frame true p c k d r :: fs)); [exact E|by econstructor|exact Hs|lia|exact HQ].
    + destruct Hv as (t' & Ht' & -> & Hp). assert (exists gs, T = plug gs t') as [gs E'].
      { destruct Ht' as [-> | ->]; [by exists (mk_frame true p c k d r :: fs)|by exists (mk_frame false p c k d l :: fs)]. }
      assert (length (cells t') < length (cells (Node p c k d l r)))%nat as Hlen.
      { cbn [cells]. rewrite length_app. cbn. destruct Ht' as [-> | ->]; lia. }
      assert (sorted cmp (cells t' ++ rest).*2) as Hs'.
      { cbn [cells] in Hs. destruct Ht' as [-> | ->]; rewrite <- app_assoc in Hs; cbn [app] in Hs.
        - rewrite fmap_app in *. cbn in Hs. rewrite fmap_app in Hs. rewrite app_comm_cons, app_assoc in Hs.
          apply sorted_app in Hs as (H1 & H2 & H3). apply sorted_app in H1 as (H1 & _ & _). apply sorted_app. split_and!; try done.
          intros x y Hx. apply H3, elem_of_app. by left.
        - rewrite fmap_app in Hs. apply sorted_app in Hs as (_ & [Hs _]%StronglySorted_inv & _). done. }
      eapply (IH gs t' stack rest); [exact E'|exact Hst|exact Hs'|destruct Ht' as [-> | ->]; lia|]. intros res Hres. apply HQ.
      unfold down_post in *. rewrite !length_app in *. rewrite !picked_app in *. rewrite Hp.
      destruct Hres as [(S' & H1 & H2 & H3 & H4 & H5)|(gs' & x & cx & kx & dx & lx & rx & H1 & H2 & H3 & H4 & H5)]; [left|right].
      * exists S'. split_and!; try done. lia.
      * exists gs', x, cx, kx, dx, lx, rx. split_and!; try done. lia.
  - destruct Hv as (Ek & Hl & Hr). apply wp_ret, HQ. rewrite Ek in *.
    assert (picked sel (cells (Node p c k d l r)) = picked sel (cells r)) as Hp by (by rewrite picked_node, Ek, Hl).
    destruct stack as [|p' stack].
    + right. inversion Hst. exists fs, p, c, k, d, l, r. split_and!; [done|exact E| |by rewrite app_nil_r|].
      * apply sorted_app in Ht as (_ & [Hr' _]%StronglySorted_inv & _). done.
      * rewrite app_nil_r. cbn [cells]. rewrite length_app. cbn. lia.
    + left. exists rest. apply sorted_fmap_app in Hs as Hs'. destruct Hs' as (_ & Hs' & _). split_and!; [done|done| |rewrite length_app; lia|done].
      rewrite picked_app, Hp. destruct Hr as [-> |[Ec _]]; [done|]. rewrite <- Hp. by rewrite (equal_below_stack _ _ _ _ Ec Hst Hs).
Qed.

Lemma wp_inorder_loop fuel fs t stack rest results (Q : list loc -> rbtree_t K D -> Prop) :
  T = plug fs t -> stacked stack rest -> sorted cmp (cells t ++ rest).*2 ->
  ((addr t = None /\ stack = [] /\ 1 <= fuel) \/ 2 + length (cells t ++ rest) <= fuel)%nat ->
  Q (results ++ (picked sel (cells t ++ rest)).*1) s ->
  wp (inorder_loop cmp fuel criteria key1 key2 (addr t) stack results) s Q False.
Proof using Htree KO.
  revert fs t stack rest results. induction fuel as [|fuel IH]; intros fs t stack rest results E Hst Hs Hf HQ; [lia|]. cbn [inorder_loop].
  destruct (decide (addr t = None /\ stack = [])) as [[Hn ->]|Hmore].
  { apply wp_ret. inversion Hst; subst rest. destruct t; [|done]. cbn in HQ. by rewrite app_nil_r in HQ. }
  assert (2 + length (cells t ++ rest) <= S fuel)%nat as Hf' by tauto. clear Hf Hmore. apply wp_bind, wp_get_tree. apply wp_bind.
  eapply wp_inorder_down; [exact E|exact Hst|exact Hs| |].
  { rewrite (is_tree_length _ _ Htree), E. pose proof (length_frames fs t). lia. }
  intros [cur stk] [(S' & H1 & H2 & H3 & H4 & H5)|(gs & x & c & k & d & l & r & [= -> ->] & E' & H3 & H4 & H5)]; cbn [fst snd] in *.
  - inversion H1 as [|gs p c k d l r stk' rest' E' Hk Hst' Ep Er]; subst stk.
    + subst S'. rewrite (H5 eq_refl). destruct fuel as [|fuel]; [lia|]. cbn [inorder_loop]. rewrite decide_True by done. apply wp_ret.
      rewrite <- H3 in HQ. cbn in HQ. by rewrite app_nil_r in HQ.
    + subst S'. eapply wp_bind, wp_load_at; [exact Htree|exact E'|]. cbn [right].
      apply (IH (mk_frame false p c k d l :: gs) r stk' rest'); [exact E'|exact Hst'| |right; cbn in H4; lia|].
      * apply StronglySorted_inv in H2 as [H2 _]. exact H2.
      * rewrite <- H3 in HQ. cbn [picked List.filter fst snd] in HQ. rewrite Hk in HQ. cbn in HQ. by rewrite <- app_assoc.
  - eapply wp_bind, wp_load_at; [exact Htree|exact E'|]. cbn [right].
    apply (IH (mk_frame false x c k d l :: gs) r [] []); [exact E'|constructor|by rewrite app_nil_r|right; rewrite app_nil_r; lia|].
    by rewrite app_nil_r, H4.
Qed.

(** The traversal finds the nodes that meet the criterion. *)
Lemma wp_inorder :
  sorted cmp (elems T) ->
  wp (rbtree_inorder cmp true key1 key2 criteria) s (fun res s' => s' = s /\ res = Some (picked sel (cells T)).*1) False.
Proof using Htree KO.
  intros Hs. unfold rbtree_inorder. apply wp_bind, wp_get_tree. apply wp_bind. rewrite (it_root _ _ Htree), (is_tree_length _ _ Htree).
  eapply (wp_inorder_loop _ [] T [] []); [done|constructor|by rewrite app_nil_r|right; rewrite app_nil_r; lia|].
  rewrite app_nil_r. by apply wp_ret.
Qed.
End Walk.
