(* ===== verification/RbTreeClaims.v ===== *)
(** * What red-black trees promise

    The operations as operations on sorted association lists, the height of the
    trees, and their destruction. *)

From S2P Require Import Prelude RbTree RbTreeTheory RbTreeInsert RbTreeDelete RbTreeRemove RbTreeSearch RbTreeTraverse.

(** [memory_malloc_ext] returns memory that is not in use. *)
Class NodeHeapLaws (K D : Type) `{NH : NodeHeap K D} : Prop := {
  malloc_node_fresh (m : gmap loc (rbtree_node_t K D)) p : malloc_node m = Some p -> m !! p = None;
}.

Lemma set_remove_last (p : loc) : ({[ p ]} ∪ ∅) ∖ {[ p ]} =@{gset loc} ∅.
Proof. set_solver. Qed.

Section Claims.
Context {K D : Type} `{NH : NodeHeap K D} `{NHL : !NodeHeapLaws K D} (cmp : K -> K -> Z) `{KO : !KeyOrder cmp}.
Implicit Types (t l r T : rbt K D) (f : frame K D) (fs gs : list (frame K D)) (s : rbtree_t K D).

(** ** Insertion *)

Lemma is_tree_add s f fs p k d :
  is_tree s (plug (f :: fs) Leaf) -> nodes s !! p = None ->
  is_tree (mk_rbtree (size s) (root s)
      (alter_at (new_child f (Some p)) (Some (f_addr f))
        (alter_at (new_parent (Some (f_addr f))) (Some p) (<[p := mk_node None None None Red k d]> (nodes s)))))
    (plug (f :: fs) (Node p Red k d Leaf Leaf)).
Proof using.
  intros Ht Hp. pose proof (dom_plug _ _ _ Ht) as Hd. assert (p ∉ around (f :: fs)) as Hpa.
  { intros Hin. apply not_elem_of_dom in Hp. apply Hp. rewrite Hd, elem_of_union, !elem_of_list_to_set. by right. }
  assert (f_addr f <> p) as Hfp by (intros <-; apply Hpa; rewrite around_cons; left).
  rewrite (it_root _ _ Ht), (root_below f fs _ (Node p Red k d Leaf Leaf)). eapply (is_tree_replace s _ (f :: fs)); [exact Ht|..].
  - cbn [rep up]. rewrite lookup_alter_at, decide_False by congruence. rewrite lookup_alter_at, decide_True, lookup_insert_eq by done. done.
  - intros x Hx Hux. cbn [up] in Hux. rewrite lookup_alter_at, decide_False by congruence.
    rewrite lookup_alter_at, decide_False by (intros [= ->]; done). by rewrite lookup_insert_ne by (intros ->; done).
  - rewrite lookup_alter_at, decide_True by done. by rewrite lookup_alter_at, decide_False, lookup_insert_ne by congruence.
  - apply NoDup_singleton.
  - intros x ->%list_elem_of_singleton. done.
  - rewrite !dom_alter_at, dom_insert_L, Hd. cbn. by rewrite union_empty_l_L, union_empty_r_L.
Qed.

Lemma rb_zero_leaf n : rb n (@Leaf K D) -> n = 0%nat.
Proof using. by inversion 1. Qed.

Lemma add_size_state s n : n < 2 ^ 64 -> 0 <= n -> size s + 1 = n -> u64 (size s + 1) = n.
Proof using. intros H1 H2 ->. by apply u64_small. Qed.

(** The state after a counter changed. *)
Lemma is_tree_size s T n : is_tree s T -> is_tree (mk_rbtree n (root s) (nodes s)) T.
Proof using. intros [? ? ? ?]. by split. Qed.

(** The result of an insertion. *)
Definition insert_post s T (k : K) (d : D) (res : Z * option D) (s' : rbtree_t K D) : Prop :=
  (res = (0, lookup_item cmp k (elems T)) /\ exists T', rbtree_inv cmp s' T' /\ elems T' = insert_item cmp k d (elems T)) \/
  (res = (-1, None) /\ s' = s /\ lookup_item cmp k (elems T) = None /\ malloc_node (nodes s) = None).

Lemma wp_insert_root s k d :
  rbtree_inv cmp s Leaf -> root s = None -> wp (rbtree_insert cmp k d) s (insert_post s Leaf k d) False.
Proof using.
  intros [Ht _ _ Hsz] Hroot. unfold rbtree_insert. apply wp_bind, wp_get_tree. rewrite Hroot.
  apply wp_bind. unfold rbtree_node_new, wp at 1. destruct (malloc_node (nodes s)) as [p|] eqn:Em; [|by right].
  assert (nodes s = ∅) as Hnodes. { pose proof (it_dom _ _ Ht) as Hd. by apply dom_empty_inv_L in Hd. }
  apply wp_bind. unfold set_root, wp at 1. cbn [size nodes root]. eapply wp_bind, wp_store_node; [cbn; by rewrite lookup_insert_eq|].
  apply wp_bind. unfold add_size, wp at 1. cbn [size nodes root with_nodes]. apply wp_ret. left. split; [done|].
  exists (Node p Black k d Leaf Leaf). split; [split|done].
  - split; [done| |apply NoDup_singleton|].
    + cbn [nodes]. rewrite Hnodes. cbn [rep]. split; [|done]. rewrite lookup_alter_at, decide_True, lookup_insert_eq by done. done.
    + cbn [nodes]. rewrite dom_alter_at, Hnodes, dom_insert_L, dom_empty_L. done.
  - split; [done|]. exists 1%nat. by repeat constructor.
  - repeat constructor.
  - cbn in *. rewrite Hsz. done.
Qed.

Lemma wp_insert s T k d :
  rbtree_inv cmp s T -> Z.of_nat (length (elems T)) + 1 < 2 ^ 64 -> wp (rbtree_insert cmp k d) s (insert_post s T k d) False.
Proof using NHL KO.
  intros Hinv Hlen. pose proof Hinv as [Ht Hbal Hs Hsz]. destruct (root s) as [rt|] eqn:Hroot.
  2: { assert (T = Leaf) as -> by (rewrite (it_root _ _ Ht) in Hroot; by destruct T). by apply wp_insert_root. }
  unfold rbtree_insert. apply wp_bind, wp_get_tree. rewrite Hroot. apply wp_bind. eapply (wp_search_node cmp); [exact Ht|exact Hs|..].
  - intros gs q c k' d' l r E Hk Hlook. cbn [fst snd]. eapply wp_bind, wp_load_at; [exact Ht|exact E|]. cbn [data].
    eapply wp_bind, wp_set_item; [exact Ht|exact E|]. intros s1 Ht1 Hs1. apply wp_ret. left. rewrite Hlook. split; [done|].
    rewrite E in Hbal, Hs, Hsz. rewrite elems_plug, elems_node, <- !app_assoc in Hs, Hsz. cbn in Hs, Hsz. rewrite app_assoc in Hs, Hsz.
    destruct (sorted_around cmp k _ _ _ Hs Hk) as [Hb Ha].
    assert (elems (plug gs (Node q c k d l r)) = ((before gs).*2 ++ elems l) ++ (k, d) :: elems r ++ (behind gs).*2) as Ee.
    { rewrite elems_plug, elems_node. by rewrite <- !app_assoc. }
    exists (plug gs (Node q c k d l r)). split; [split; try done|].
    + destruct (plug_accepts _ _ Hbal) as (n & Hrb & Hac). eapply accepts_plug; [by eapply rb_item|exact Hac].
    + rewrite Ee. by eapply sorted_replace.
    + rewrite Hs1, Hsz, Ee, !length_app. cbn. done.
    + rewrite Ee, E, elems_plug, elems_node, <- !app_assoc. cbn. rewrite !(app_assoc (before gs).*2), insert_below by done. cbn. by rewrite Hk.
  - intros f gs E Hb Ha Hside Hlook. cbn [fst snd]. apply wp_bind. unfold rbtree_node_new, wp at 1.
    destruct (malloc_node (nodes s)) as [p|] eqn:Em; [|by right]. pose proof (malloc_node_fresh _ _ Em) as Hp.
    set (m1 := <[p := _]> (nodes s)). rewrite E in Ht. pose proof (it_rep _ _ Ht) as Hrep. apply rep_plug_up in Hrep as [(Hf & _) _].
    assert (f_addr f <> p) as Hfp by congruence.
    eapply wp_bind, wp_store_node; [cbn; unfold m1; by rewrite lookup_insert_eq|].
    assert (alter_at (new_parent (Some (f_addr f))) (Some p) m1 !! f_addr f = nodes s !! f_addr f) as Hf1.
    { unfold m1. by rewrite lookup_alter_at, decide_False, lookup_insert_ne by congruence. }
    eapply wp_bind, wp_load_node; [cbn [nodes with_nodes]; rewrite <- Hf, <- Hf1; reflexivity|]. cbn [key].
    pose proof (is_tree_add s f gs p k d Ht Hp) as Ht1. fold m1 in Ht1. apply wp_bind.
    assert (forall R : unit -> rbtree_t K D -> Prop,
      R tt (with_nodes (alter_at (new_child f (Some p)) (Some (f_addr f)) (alter_at (new_parent (Some (f_addr f))) (Some p) m1)) s) ->
      wp (if cmp k (f_key f) =? -1 then set_left (Some (f_addr f)) (Some p) else set_right (Some (f_addr f)) (Some p))
        (with_nodes (alter_at (new_parent (Some (f_addr f))) (Some p) m1) s) R False) as Hset.
    { intros R HR. rewrite <- Hside. unfold new_child in HR.
      destruct (on_left f); (eapply wp_store_node; [cbn [nodes with_nodes]; rewrite Hf1; exact Hf|exact HR]). }
    apply Hset. clear Hset. apply wp_bind, wp_get_tree. set (s1 := with_nodes _ s). apply wp_bind.
    rewrite E in Hbal. destruct (plug_accepts _ _ Hbal) as (n & Hn%rb_zero_leaf & Hac). subst n.
    eapply (wp_fix_redred _ s1 _ (f :: gs) p k d Leaf Leaf 0); [exact Ht1|reflexivity|by repeat constructor|exact Hac| |].
    { rewrite (is_tree_length s1 _ Ht1). pose proof (length_frames (f :: gs) (Node p Red k d Leaf Leaf)). lia. }
    intros s2 T2 Ht2 Hc2 Hb2 Hs2. apply wp_bind. unfold add_size, wp at 1. apply wp_ret. left. rewrite Hlook. split; [done|].
    assert (elems T2 = (before (f :: gs)).*2 ++ (k, d) :: (behind (f :: gs)).*2) as Ee.
    { unfold elems. by rewrite Hc2, cells_plug, !fmap_app. }
    rewrite E, elems_plug in Hs, Hsz, Hlen. cbn [elems cells fmap list_fmap app] in Hs, Hsz, Hlen.
    exists T2. split; [split; [by apply is_tree_size|done| |]|].
    + rewrite Ee. by apply sorted_insert.
    + cbn [size]. rewrite Hs2. unfold s1. cbn [size with_nodes]. rewrite Ee, Hsz, !length_app in *. cbn [length] in *. rewrite u64_small; lia.
    + rewrite Ee, E, elems_plug. cbn [elems cells fmap list_fmap app]. rewrite insert_below by done. by rewrite insert_above.
  - intros ->. rewrite (it_root _ _ Ht) in Hroot. done.
Qed.

(** ** Deletion and search *)

Definition delete_post T (k : K) (res : Z * option D) (s' : rbtree_t K D) : Prop :=
  res = (0, lookup_item cmp k (elems T)) /\ exists T', rbtree_inv cmp s' T' /\ elems T' = delete_item cmp k (elems T).

Lemma wp_delete s T k :
  rbtree_inv cmp s T -> Z.of_nat (length (elems T)) < 2 ^ 64 -> wp (rbtree_delete cmp k) s (delete_post T k) False.
Proof using KO.
  intros Hinv Hlen. pose proof Hinv as [Ht Hbal Hs Hsz]. unfold rbtree_delete. apply wp_bind.
  eapply (wp_search_node cmp); [exact Ht|exact Hs|..].
  - intros gs q c k' d' l r E Hk Hlook. cbn [fst snd]. eapply wp_bind, wp_load_at; [exact Ht|exact E|]. cbn [data].
    eapply wp_bind, wp_delete_node; [exact Ht|exact E|exact Hbal|]. intros s1 (T1 & Ht1 & He1 & Hb1 & Hs1).
    apply wp_bind. unfold add_size, wp at 1. apply wp_ret. split; [by rewrite Hlook|].
    rewrite E, elems_plug, elems_node, <- !app_assoc in Hs, Hsz, Hlen. cbn in Hs, Hsz, Hlen. rewrite app_assoc in Hs, Hsz, Hlen.
    destruct (sorted_around cmp k _ _ _ Hs Hk) as [Hb Ha].
    assert (elems T1 = ((before gs).*2 ++ elems l) ++ elems r ++ (behind gs).*2) as Ee by (by rewrite He1, !fmap_app).
    exists T1. split; [split; [by apply is_tree_size|done| |]|].
    + rewrite Ee. by eapply sorted_without.
    + cbn [size]. rewrite Hs1, Ee, Hsz. rewrite !length_app in *. cbn [length] in *. rewrite !length_app in *. rewrite u64_small; lia.
    + rewrite Ee, E, elems_plug, elems_node, <- !app_assoc. cbn. rewrite !(app_assoc (before gs).*2), delete_app. cbn. rewrite Hk. cbn.
      by rewrite below_delete, above_delete.
  - intros f gs E Hb Ha Hside Hlook. apply wp_ret. split; [by rewrite Hlook|]. exists T. split; [done|].
    rewrite E, elems_plug. cbn [elems cells fmap list_fmap app]. by rewrite delete_app, below_delete, above_delete.
  - intros ->. apply wp_ret. split; [done|]. by exists Leaf.
Qed.

Lemma wp_find s T k :
  rbtree_inv cmp s T -> wp (rbtree_find cmp k) s (fun res s' => s' = s /\ res = lookup_item cmp k (elems T)) False.
Proof using KO.
  intros [Ht _ Hs _]. unfold rbtree_find. apply wp_bind. eapply (wp_search_node cmp); [exact Ht|exact Hs|..].
  - intros gs q c k' d' l r E Hk Hlook. cbn [fst snd]. eapply wp_bind, wp_load_at; [exact Ht|exact E|]. by apply wp_ret.
  - intros f gs E Hb Ha Hside Hlook. by apply wp_ret.
  - intros ->. by apply wp_ret.
Qed.

Lemma wp_contains s T k :
  rbtree_inv cmp s T -> wp (rbtree_contains cmp k) s (fun res s' => s' = s /\ res = bool_decide (is_Some (lookup_item cmp k (elems T)))) False.
Proof using KO.
  intros [Ht _ Hs _]. unfold rbtree_contains. apply wp_bind. eapply (wp_search_node cmp); [exact Ht|exact Hs|..].
  - intros gs q c k' d' l r E Hk Hlook. apply wp_ret. by rewrite Hlook.
  - intros f gs E Hb Ha Hside Hlook. apply wp_ret. by rewrite Hlook.
  - intros ->. by apply wp_ret.
Qed.

(** ** Height *)

Fixpoint height t : nat := match t with Leaf => 0 | Node _ _ _ _ l r => S (max (height l) (height r)) end.

Lemma rb_height n t : rb n t -> (height t <= 2 * n + (if decide (color_of t = Red) then 1 else 0))%nat.
Proof using.
  induction 1 as [|n p k d l r Cl Cr Hl IHl Hr IHr|n p k d l r Hl IHl Hr IHr]; [done| |]; cbn [height color_of].
  - rewrite Cl in IHl. rewrite Cr in IHr. rewrite decide_False in IHl, IHr by done. rewrite decide_True by done. lia.
  - repeat destruct (decide _); try done; lia.
Qed.

Lemma rb_cells n t : rb n t -> (2 ^ n <= length (cells t) + 1)%nat.
Proof using.
  induction 1 as [|n p k d l r Cl Cr Hl IHl Hr IHr|n p k d l r Hl IHl Hr IHr]; [done| |]; cbn [cells Nat.pow]; rewrite length_app; cbn; lia.
Qed.

Lemma balanced_height T : balanced T -> (height T <= 2 * Nat.log2 (length (elems T) + 1))%nat.
Proof using.
  intros [Hc (n & Hn)]. rewrite length_elems. pose proof (rb_height n T Hn) as H1. pose proof (rb_cells n T Hn) as H2. rewrite Hc, decide_False in H1 by done.
  assert (n <= Nat.log2 (length (cells T) + 1))%nat; [|lia]. apply Nat.log2_le_pow2; lia.
Qed.

(** ** Destruction *)

Lemma wp_rb_destroy_loop fuel s T fs t p (Q : unit -> rbtree_t K D -> Prop) :
  is_tree s T -> T = plug fs t -> addr t = Some p -> (2 * length (cells T) <= fuel + length fs + 1)%nat ->
  (forall s', nodes s' = ∅ -> Q tt s') -> wp (destroy_loop fuel (Some p)) s Q False.
Proof using.
  revert s T fs t p. induction fuel as [|fuel IH]; intros s T fs t p Ht E Hp Hf HQ; (destruct t as [|p' c k d l r]; [done|]; injection Hp as ->);
    pose proof (length_frames fs (Node p c k d l r)) as Hl; rewrite <- E in Hl; cbn [cells] in Hl; rewrite length_app in Hl; cbn [length] in Hl.
  { lia. }
  cbn [destroy_loop]. eapply wp_bind, wp_load_at; [exact Ht|exact E|]. cbn [left right parent].
  destruct l as [|u cu ku du ul ur]; cbn [addr].
  2: { eapply (IH s T (mk_frame true p c k d r :: fs)); [exact Ht|exact E|done|cbn [length]; lia|exact HQ]. }
  destruct r as [|u cu ku du ul ur]; cbn [addr].
  2: { eapply (IH s T (mk_frame false p c k d Leaf :: fs)); [exact Ht|exact E|done|cbn [length]; lia|exact HQ]. }
  destruct fs as [|f fs]; cbn [up].
  { apply HQ. cbn. apply dom_empty_inv_L. rewrite dom_delete_L, (it_dom _ _ Ht), E. apply set_remove_last. }
  assert (exists l' r', T = plug fs (Node (f_addr f) (f_color f) (f_key f) (f_data f) l' r') /\
     (if on_left f then l' else r') = Node p c k d Leaf Leaf /\ (on_left f = false -> addr l' <> Some p)) as (l' & r' & E' & Hside & Hne).
  { pose proof (it_nodup _ _ Ht) as Hnd. rewrite E in Hnd. destruct (plug_nodup _ _ Hnd) as (_ & _ & Hdis). rewrite E. cbn. unfold fill.
    destruct (on_left f); eexists _, _; (split; [reflexivity|split; [done|]]); [done|]. intros _ Ho%addr_in. apply (Hdis p); [by apply addr_in|].
    rewrite around_cons. right. apply elem_of_app. by left. }
  eapply wp_bind, wp_load_at; [exact Ht|exact E'|]. cbn [left]. rewrite E in Ht.
  pose proof (it_rep _ _ Ht) as Hrep. apply rep_plug_up in Hrep as [(Hfm & _) _]. pose proof (is_tree_prune _ _ _ _ _ _ _ Ht) as Ht1.
  assert (length (cells (plug (f :: fs) Leaf)) + 1 = length (cells T))%nat as Hlen.
  { rewrite E, !cells_plug, !length_app. cbn. lia. }
  set (s1 := mk_rbtree _ _ _) in Ht1. assert (wp (destroy_loop fuel (Some (f_addr f))) s1 Q False) as Hrec.
  { eapply (IH s1 _ fs (fill f Leaf)); [exact Ht1|done|unfold fill; by destruct (on_left f)| |exact HQ]. cbn [length] in Hf. lia. }
  unfold s1, new_child in Hrec. destruct (on_left f); cbn in Hside.
  - subst l'. rewrite decide_True by done. eapply wp_bind, wp_store_node; [exact Hfm|]. exact Hrec.
  - subst r'. rewrite decide_False by (intros Ex; symmetry in Ex; by apply Hne in Ex). eapply wp_bind, wp_store_node; [exact Hfm|]. exact Hrec.
Qed.

Lemma wp_destroy_index s T : is_tree s T -> wp rbtree_destroy_index s (fun res s' => res = 0 /\ nodes s' = ∅) False.
Proof using.
  intros Ht. unfold rbtree_destroy_index. apply wp_bind, wp_get_tree. rewrite (it_root _ _ Ht), (is_tree_length _ _ Ht).
  destruct (addr T) as [p|] eqn:Ep.
  - eapply wp_bind, (wp_rb_destroy_loop _ s T [] T); [exact Ht|done|exact Ep|lia|]. intros s' Hs'. by apply wp_ret.
  - apply wp_ret. split; [done|]. pose proof (it_dom _ _ Ht) as Hd. destruct T; [|done]. by apply dom_empty_inv_L in Hd.
Qed.

(** ** Iteration *)

(** A loop over an iterator: the keys and data it gives until its end. *)
Fixpoint iterate (fuel : nat) (it : rbtree_iterator_t) : cmd (rbtree_t K D) (list (K * D)) :=
  match fuel with
  | O => out_of_fuel
  | S fuel =>
    if rbtree_iterator_end_of_index it =? 0 then mret []
    else
      k ← rbtree_iterator_get_key it;
      d ← rbtree_iterator_get_data it;
      rest ← iterate fuel (rbtree_iterator_next it);
      mret (match k, d with Some k, Some d => (k, d) :: rest | _, _ => rest end)
  end.

Lemma cell_at_address s T p kd : is_tree s T -> (p, kd) ∈ cells T -> exists n, nodes s !! p = Some n /\ key n = kd.1 /\ data n = kd.2.
Proof using.
  intros [_ Hrep _ _]. revert Hrep. generalize (@None loc). induction T as [|q c k d l IHl r IHr]; intros par; [by intros _ Hin%elem_of_nil|].
  cbn. intros (Hq & Hl & Hr) [Hin|[E|Hin]%elem_of_cons]%elem_of_app; [by eapply IHl| |by eapply IHr].
  injection E as -> ->. by eexists.
Qed.

Lemma wp_iterate fuel s T cs cs' :
  is_tree s T -> (length cs' < fuel)%nat -> (forall c, c ∈ cs ++ cs' -> c ∈ cells T) -> Z.of_nat (length (cs ++ cs')) < 2 ^ 64 ->
  wp (iterate fuel (mk_iterator (Z.of_nat (length (cs ++ cs'))) (Z.of_nat (length cs)) (cs ++ cs').*1)) s
    (fun res s' => s' = s /\ res = cs'.*2) False.
Proof using.
  intros Ht. revert fuel cs. induction cs' as [|[p [k d]] cs' IH]; intros fuel cs Hf Hin Hlen; (destruct fuel as [|fuel]; [cbn in Hf; lia|]); cbn [iterate].
  { unfold rbtree_iterator_end_of_index. cbn [current_index it_size]. rewrite app_nil_r, Z.eqb_refl. by apply wp_ret. }
  set (it := mk_iterator _ _ _). assert ((current_index it =? it_size it) = false) as Hne.
  { cbn. apply Z.eqb_neq. rewrite length_app. cbn. lia. }
  unfold rbtree_iterator_end_of_index, rbtree_iterator_get_key, rbtree_iterator_get_data. rewrite !Hne. cbn [Z.eqb].
  assert (items it !! Z.to_nat (current_index it) = Some p) as Hi.
  { cbn. rewrite Nat2Z.id, fmap_app, lookup_app_r by (by rewrite length_fmap). by rewrite length_fmap, Nat.sub_diag. }
  destruct (cell_at_address s T p (k, d) Ht) as (n & Hn & Hk & Hd); [apply Hin, elem_of_app; right; left|].
  cbn in Hk, Hd. subst k d. rewrite Hi.
  apply wp_bind. eapply wp_bind, wp_load_node; [exact Hn|]. apply wp_ret. apply wp_bind. eapply wp_bind, wp_load_node; [exact Hn|]. apply wp_ret.
  assert (rbtree_iterator_next it = mk_iterator (Z.of_nat (length ((cs ++ [(p, (key n, data n))]) ++ cs')))
    (Z.of_nat (length (cs ++ [(p, (key n, data n))]))) ((cs ++ [(p, (key n, data n))]) ++ cs').*1) as ->.
  { unfold rbtree_iterator_next. cbn [current_index it_size items it]. rewrite <- app_assoc. cbn [app]. rewrite !length_app in *. cbn [length] in *.
    rewrite u64_small by lia. f_equal. destruct (Z.leb_spec (Z.of_nat (length cs + S (length cs'))) (Z.of_nat (length cs) + 1)); lia. }
  apply wp_bind. eapply wp_mono; [apply IH|].
  - cbn in Hf. lia.
  - intros c Hc. apply Hin. by rewrite <- app_assoc in Hc.
  - by rewrite <- app_assoc.
  - intros rest s' [-> ->]. by apply wp_ret.
Qed.

Lemma elem_of_picked sel (cs : list (loc * (K * D))) c : c ∈ picked sel cs -> c ∈ cs.
Proof using. intros [H _]%list_elem_of_In%List.filter_In. by apply list_elem_of_In. Qed.

Lemma picked_items sel (cs : list (loc * (K * D))) : (picked sel cs).*2 = List.filter (fun e => sel e.1) cs.*2.
Proof using.
  induction cs as [|c cs IH]; [done|]. unfold picked in *. cbn. destruct (sel c.2.1); [cbn; f_equal|]; exact IH.
Qed.

(** ** Theorems *)

(** An insertion ends without following a null pointer.  It
    returns 0 and the data the key had before; the tree holds the items of before
    with the new one at its place in the order, and it is again balanced and
    ordered.  Only if there is no memory for a node does it return -1, and the tree is as before. *)
Theorem rbtree_insert_correct s T k d :
  rbtree_inv cmp s T -> Z.of_nat (length (elems T)) + 1 < 2 ^ 64 ->
  exists res s', rbtree_insert cmp k d s = Done (res, s') /\
    ((res = (0, lookup_item cmp k (elems T)) /\ exists T', rbtree_inv cmp s' T' /\ elems T' = insert_item cmp k d (elems T)) \/
     (res = (-1, None) /\ s' = s /\ lookup_item cmp k (elems T) = None /\ malloc_node (nodes s) = None)).
Proof using NHL KO. intros Hinv Hlen. by apply wp_done, wp_insert. Qed.

(** A deletion ends without following a null pointer.  It
    returns 0 and the data of the key; the tree holds the other items in order and
    is again balanced and ordered, and a node that was taken out is freed. *)
Theorem rbtree_delete_correct s T k :
  rbtree_inv cmp s T -> Z.of_nat (length (elems T)) < 2 ^ 64 ->
  exists s' T', rbtree_delete cmp k s = Done ((0, lookup_item cmp k (elems T)), s') /\
    rbtree_inv cmp s' T' /\ elems T' = delete_item cmp k (elems T) /\ base.size (nodes s') = length (delete_item cmp k (elems T)).
Proof using KO.
  intros Hinv Hlen. destruct (wp_done _ _ _ (wp_delete s T k Hinv Hlen)) as (res & s' & E & -> & T' & Hinv' & He).
  exists s', T'. split_and!; [done..|]. by rewrite (is_tree_length _ _ (ri_tree _ _ _ Hinv')), <- length_elems, He.
Qed.

(** The states of a tree under insertions and deletions from its
    creation on, with the association list that the same operations make. *)
Inductive tree_runs : rbtree_t K D -> list (K * D) -> Prop :=
| tree_create s : rbtree_create_index_with_heap true true = Some s -> tree_runs s []
| tree_insert s es k d s' : tree_runs s es -> Z.of_nat (length es) + 1 < 2 ^ 64 ->
    rbtree_insert cmp k d s = Done ((0, lookup_item cmp k es), s') -> tree_runs s' (insert_item cmp k d es)
| tree_delete s es k res s' : tree_runs s es -> Z.of_nat (length es) < 2 ^ 64 -> rbtree_delete cmp k s = Done (res, s') ->
    tree_runs s' (delete_item cmp k es).

Lemma tree_runs_inv s es : tree_runs s es -> exists T, rbtree_inv cmp s T /\ elems T = es.
Proof using NHL KO.
  induction 1 as [s [= <-]|s es k d s' _ (T & Hinv & <-) Hlen Hrun|s es k res s' _ (T & Hinv & <-) Hlen Hrun].
  - exists Leaf. split; [|done]. split; [by split; [..|constructor|]|split; [done|exists 0%nat; constructor]|constructor|done].
  - destruct (wp_result _ _ _ _ _ _ (wp_insert s T k d Hinv Hlen) Hrun) as [(_ & T' & H1 & H2)|([=] & _)]. by exists T'.
  - destruct (wp_result _ _ _ _ _ _ (wp_delete s T k Hinv Hlen) Hrun) as (_ & T' & H1 & H2). by exists T'.
Qed.

(** C32.  Whatever insertions and deletions were made, the tree answers
    as the association list that the same operations make: [find] gives the data
    of a key, [contains] says whether there are some, [size] is the number of
    items; neither of them changes the tree. *)
Theorem rbtree_refines s es k :
  tree_runs s es ->
  rbtree_find cmp k s = Done (lookup_item cmp k es, s) /\
  rbtree_contains cmp k s = Done (bool_decide (is_Some (lookup_item cmp k es)), s) /\
  rbtree_size s = Z.of_nat (length es) /\ sorted cmp es.
Proof using NHL KO.
  intros (T & Hinv & <-)%tree_runs_inv. destruct (wp_done _ _ _ (wp_find s T k Hinv)) as (r1 & s1 & E1 & -> & ->).
  destruct (wp_done _ _ _ (wp_contains s T k Hinv)) as (r2 & s2 & E2 & -> & ->). split_and!; [done|done|apply Hinv|apply Hinv].
Qed.

(** C33.  Every tree that insertions and deletions make has a height
    of at most twice the logarithm of the number of its items, which bounds the
    number of nodes a search visits. *)
Theorem rbtree_height_bound s es :
  tree_runs s es -> exists T, is_tree s T /\ elems T = es /\ (height T <= 2 * Nat.log2 (length es + 1))%nat.
Proof using NHL KO.
  intros (T & Hinv & <-)%tree_runs_inv. exists T. split_and!; [apply Hinv|done|apply balanced_height, Hinv].
Qed.

(** A search with any criterion, and a loop over the iterator it
    returns, give exactly the items whose keys meet the criterion, in order. *)
Theorem rbtree_search_correct s es criteria key1 key2 :
  tree_runs s es -> Z.of_nat (length es) < 2 ^ 64 ->
  exists it, rbtree_search cmp true true true key1 key2 criteria s = Done (Some it, s) /\
    iterate (S (length es)) it s = Done (List.filter (fun e => selected cmp criteria key1 key2 e.1) es, s).
Proof using NHL KO.
  intros (T & Hinv & <-)%tree_runs_inv Hlen. pose proof (ri_tree _ _ _ Hinv) as Ht.
  destruct (wp_done _ _ _ (wp_inorder cmp criteria key1 key2 s T Ht (ri_sorted _ _ _ Hinv))) as (r & s1 & E & -> & ->).
  set (cs := picked (selected cmp criteria key1 key2) (cells T)) in *.
  exists (mk_iterator (Z.of_nat (length cs)) 0 cs.*1). split.
  { unfold rbtree_search, mbind, cmd_bind. rewrite E. by rewrite length_fmap. }
  assert (length cs <= length (elems T))%nat as Hle by (rewrite length_elems; apply List.filter_length_le).
  assert (cs.*2 = List.filter (fun e => selected cmp criteria key1 key2 e.1) (elems T)) as <- by apply picked_items.
  assert (forall c, c ∈ [] ++ cs -> c ∈ cells T) as Hin by (intros c Hc; by eapply elem_of_picked).
  destruct (wp_done _ _ _ (wp_iterate (S (length (elems T))) s T [] cs Ht ltac:(lia) Hin ltac:(cbn; lia))) as (r & s1 & E1 & -> & ->).
  exact E1.
Qed.

(** [rbtree_destroy_index] frees every node. *)
Lemma rbtree_destroy_frees s es : tree_runs s es -> exists s', rbtree_destroy_index s = Done (0, s') /\ nodes s' = ∅.
Proof using NHL KO.
  intros (T & Hinv & _)%tree_runs_inv. destruct (wp_done _ _ _ (wp_destroy_index s T (ri_tree _ _ _ Hinv))) as (r & s' & E & -> & Hn). by exists s'.
Qed.
End Claims.

(** ** Examples *)

Module RbDemo.
#[export] Instance heap : NodeHeap Z Z := {| malloc_node m := Some (fresh (dom m)) |}.
#[export] Instance heap_laws : NodeHeapLaws Z Z.
Proof. split. intros m p [= <-]. apply not_elem_of_dom, is_fresh. Qed.

Definition cmp (a b : Z) : Z := if a <? b then -1 else if b <? a then 1 else 0.

#[export] Instance cmp_order : KeyOrder cmp.
Proof.
  split; unfold cmp; intros; repeat match goal with |- context [?a <? ?b] => destruct (Z.ltb_spec a b) end;
    repeat match goal with H : context [?a <? ?b] |- _ => destruct (Z.ltb_spec a b) end; lia.
Qed.

Definition empty : rbtree_t Z Z := mk_rbtree 0 None ∅.

(** The state after a command. *)
Definition after {A} (c : cmd (rbtree_t Z Z) A) (s : rbtree_t Z Z) : rbtree_t Z Z :=
  match c s with Done (_, s') => s' | _ => s end.

Definition one : rbtree_t Z Z := after (rbtree_insert cmp 5 50) empty.
Definition two : rbtree_t Z Z := after (rbtree_insert cmp 3 30) one.
Definition three : rbtree_t Z Z := after (rbtree_insert cmp 8 80) two.

Lemma three_runs : tree_runs cmp three [(3, 30); (5, 50); (8, 80)].
Proof.
  apply (tree_insert cmp two [(3, 30); (5, 50)] 8 80); [|vm_compute; reflexivity|vm_compute; reflexivity].
  apply (tree_insert cmp one [(5, 50)] 3 30); [|vm_compute; reflexivity|vm_compute; reflexivity].
  apply (tree_insert cmp empty [] 5 50); [|vm_compute; reflexivity|vm_compute; reflexivity]. by apply tree_create.
Qed.

Lemma three_inv : exists T, rbtree_inv cmp three T /\ elems T = [(3, 30); (5, 50); (8, 80)].
Proof. exact (tree_runs_inv cmp three _ three_runs). Qed.
End RbDemo.
Import RbDemo.

Lemma rbtree_insert_witness :
  exists res s', rbtree_insert RbDemo.cmp 8 81 RbDemo.three = Done (res, s') /\ res = (0, Some 80).
Proof.
  destruct RbDemo.three_inv as (T & Hinv & He).
  destruct (rbtree_insert_correct RbDemo.cmp RbDemo.three T 8 81 Hinv) as (res & s' & E & H); [rewrite He; vm_compute; reflexivity|].
  exists res, s'. split; [exact E|]. destruct H as [(H & _)|(H & _ & Hl & _)]; rewrite He in *; [exact H|vm_compute in Hl; discriminate Hl].
Defined.

Lemma rbtree_delete_witness :
  exists s', rbtree_delete RbDemo.cmp 5 RbDemo.three = Done ((0, Some 50), s') /\ base.size (nodes s') = 2%nat.
Proof.
  destruct RbDemo.three_inv as (T & Hinv & He).
  destruct (rbtree_delete_correct RbDemo.cmp RbDemo.three T 5 Hinv) as (s' & T' & E & _ & _ & Hn); [rewrite He; vm_compute; reflexivity|].
  rewrite He in *. exists s'. split; [exact E|exact Hn].
Defined.

Lemma rbtree_refines_witness :
  rbtree_find RbDemo.cmp 5 RbDemo.three = Done (Some 50, RbDemo.three) /\ rbtree_size RbDemo.three = 3.
Proof.
  destruct (rbtree_refines RbDemo.cmp RbDemo.three _ 5 RbDemo.three_runs) as (H1 & _ & H2 & _). split; [exact H1|exact H2].
Defined.

Lemma rbtree_height_witness :
  exists T, is_tree RbDemo.three T /\ (height T <= 4)%nat.
Proof.
  destruct (rbtree_height_bound RbDemo.cmp RbDemo.three _ RbDemo.three_runs) as (T & H1 & _ & H2). exists T. split; [exact H1|exact H2].
Defined.

Lemma rbtree_search_witness :
  exists it, rbtree_search RbDemo.cmp true true true 5 0 INDEXER_KEY_COMPARATOR_CRITERIA_EQUALORGREATER RbDemo.three = Done (Some it, RbDemo.three) /\
    iterate 4 it RbDemo.three = Done ([(5, 50); (8, 80)], RbDemo.three).
Proof.
  destruct (rbtree_search_correct RbDemo.cmp RbDemo.three _ INDEXER_KEY_COMPARATOR_CRITERIA_EQUALORGREATER 5 0 RbDemo.three_runs)
    as (it & H1 & H2); [vm_compute; reflexivity|]. exists it. split; [exact H1|exact H2].
Defined.
