(* ===== verification/BigInt.v ===== *)
(** * Big integers ([cc/lib/bigint.64.c])

    A [bigint_t] is a chain of items of 48 bits from [lsb] to [msb], a sign and
    a flag: a negative number whose [neged_with_sign] is set holds the two's
    complement of its magnitude.  The operations work on objects in memory,
    through pointers that may be equal, and change the representation of
    operands that are declared [const]: the model keeps the objects in a store
    and [NULL] is [None].

    [items] is the chain from [lsb]; [msb] is its last item.  (The operations
    that fail for lack of memory, or at a character that is no digit, may leave
    [msb] behind the chain; the model does not follow it there.)

    [room n] tells whether the [n]-th call of [memory_malloc] finds memory, which
    is zero; [rand64 n] is the [n]-th random word.  Both are arbitrary. *)

From S2P Require Import Prelude.

Definition BIGINT_ITEM_BITS : Z := 48.
Definition BIGINT_ITEM_HEX_DIGITS : Z := 12.
Definition BIGINT_ITEM_MAX : Z := 0x0000FFFFFFFFFFFF.
Definition BIGINT_ITEM_MSB : Z := 0x0000800000000000.

Abbreviation loc := positive.

Record bigint_t := mk_bigint {
  items : list Z;
  sign : Z;
  neged_with_sign : bool;
}.

Record heap := mk_heap {
  objs : gmap loc bigint_t;
  mallocs : nat;
  rands : nat;
}.

(** The first items of a list that satisfy a test, removed. *)
Fixpoint skip_while (test : Z -> bool) (l : list Z) : list Z :=
  match l with
  | [] => []
  | v :: l' => if test v then skip_while test l' else l
  end.

(** [bit_most_significant]: the [bsrq] instruction. *)
Definition bit_most_significant (num : Z) : Z := Z.log2 num.

Class Machine := {
  room : nat -> bool;
  rand : nat -> Z;
}.

Abbreviation M := (cmd heap).
Abbreviation ptr := (option loc).

Section Operations.
Context `{Machine}.

(** ** Memory *)

Definition is_null (p : ptr) : bool := match p with None => true | Some _ => false end.

Definition load (p : ptr) : M bigint_t := fun s =>
  match p ≫= fun q => objs s !! q with
  | Some x => Done (x, s)
  | None => Halted
  end.

Definition store (p : ptr) (x : bigint_t) : M unit := fun s =>
  match p with
  | Some q =>
    match objs s !! q with
    | Some _ => Done (tt, mk_heap (<[q := x]> (objs s)) (mallocs s) (rands s))
    | None => Halted
    end
  | None => Halted
  end.

Definition set_items (p : ptr) (l : list Z) : M unit :=
  x ← load p; store p (mk_bigint l (sign x) (neged_with_sign x)).
Definition set_sign (p : ptr) (z : Z) : M unit :=
  x ← load p; store p (mk_bigint (items x) z (neged_with_sign x)).
Definition set_neged (p : ptr) (f : bool) : M unit :=
  x ← load p; store p (mk_bigint (items x) (sign x) f).

(** [memory_malloc(sizeof(bigint_item_t))]: whether it is not [NULL]. *)
Definition malloc_item : M bool := fun s =>
  Done (room (mallocs s), mk_heap (objs s) (S (mallocs s)) (rands s)).

Definition rand64 : M Z := fun s =>
  Done (u64 (rand (rands s)), mk_heap (objs s) (mallocs s) (S (rands s))).

Definition push_item (p : ptr) (v : Z) : M unit :=
  x ← load p; set_items p (items x ++ [v]).

(** The item at index [i] of a chain is given a value. *)
Definition set_item (p : ptr) (i : nat) (v : Z) : M unit :=
  x ← load p;
  if bool_decide (i < length (items x))%nat then set_items p (<[i := v]> (items x)) else cpu_hlt.

(** [if(c == -1) { err }] and what follows. *)
Definition or_fail (c : M Z) (err : M Z) (k : M Z) : M Z :=
  rc ← c; if rc =? -1 then err else k.

(** ** Objects *)

Definition bigint_create : M ptr := fun s =>
  if room (mallocs s) then
    let p := fresh (dom (objs s)) in
    Done (Some p, mk_heap (<[p := mk_bigint [] 0 false]> (objs s)) (S (mallocs s)) (rands s))
  else Done (None, mk_heap (objs s) (S (mallocs s)) (rands s)).

Definition bigint_destroy_items (bigint : ptr) : M unit :=
  if is_null bigint then mret tt else store bigint (mk_bigint [] 0 false).

(** [memory_free]. *)
Definition free_bigint (p : ptr) : M unit := fun s =>
  Done (tt, match p with Some q => mk_heap (delete q (objs s)) (mallocs s) (rands s) | None => s end).

Definition bigint_destroy (bigint : ptr) : M unit :=
  bigint_destroy_items bigint ;; free_bigint bigint.

(** The calls of [bigint_destroy] before a return. *)
Fixpoint destroy_all (ps : list ptr) : M unit :=
  match ps with
  | [] => mret tt
  | p :: ps => bigint_destroy p ;; destroy_all ps
  end.

Definition fail_with (ps : list ptr) : M Z := destroy_all ps ;; mret (-1).

Definition bigint_item_count (bigint : ptr) : M nat :=
  x ← load bigint; mret (length (items x)).

(** The items of a 64-bit word: the tail that [bigint_set_int64] and
    [bigint_set_uint64] share. *)
Definition set_word (bigint : ptr) (uvalue : Z) : M Z :=
  let need_next := BIGINT_ITEM_MAX <? uvalue in
  let next_value := Z.shiftr uvalue BIGINT_ITEM_BITS in
  let uvalue := if need_next then Z.land uvalue BIGINT_ITEM_MAX else uvalue in
  ok ← malloc_item;
  if negb ok then mret (-1) else
  if need_next then
    ok ← malloc_item;
    if negb ok then mret (-1) else set_items bigint [uvalue; next_value] ;; mret 0
  else set_items bigint [uvalue] ;; mret 0.

Definition bigint_set_int64 (bigint : ptr) (value : Z) : M Z :=
  if is_null bigint then mret (-1) else
  bigint_destroy_items bigint ;;
  if value =? 0 then mret 0 else
  if value <? 0 then set_sign bigint (-1) ;; set_word bigint (u64 (- value))
  else set_sign bigint 1 ;; set_word bigint value.

Definition bigint_set_uint64 (bigint : ptr) (value : Z) : M Z :=
  bigint_destroy_items bigint ;;
  if value =? 0 then mret 0 else
  set_sign bigint 1 ;; set_word bigint value.

Definition bigint_one : M ptr :=
  bigint ← bigint_create;
  if is_null bigint then mret bigint else bigint_set_int64 bigint 1 ;; mret bigint.

Definition bigint_two : M ptr :=
  bigint ← bigint_create;
  if is_null bigint then mret bigint else bigint_set_int64 bigint 2 ;; mret bigint.

(** Items allocated at the end of a chain, one by one. *)
Fixpoint push_items (p : ptr) (vs : list Z) : M bool :=
  match vs with
  | [] => mret true
  | v :: vs =>
    ok ← malloc_item;
    if negb ok then mret false else push_item p v ;; push_items p vs
  end.

(** Items allocated for a chain that is not linked into an object yet. *)
Fixpoint malloc_items (n : nat) : M bool :=
  match n with
  | O => mret true
  | S n =>
    ok ← malloc_item;
    if negb ok then mret false else malloc_items n
  end.

Definition bigint_set_bigint (bigint src : ptr) : M Z :=
  if is_null bigint || is_null src then mret (-1) else
  s ← load src;
  d ← load bigint;
  let n := min (length (items d)) (length (items s)) in
  store bigint (mk_bigint (take n (items s) ++ drop n (items d)) (sign s) (neged_with_sign s)) ;;
  if bool_decide (length (items s) = length (items d)) then mret 0 else
  if bool_decide (length (items s) < length (items d))%nat then
    set_items bigint (items s) ;;
    (if bool_decide (items s = []) then set_sign bigint 0 else mret tt) ;;
    mret 0
  else if bool_decide (items d = []) then
    ok ← malloc_items (length (items s));
    if negb ok then mret (-1) else set_items bigint (items s) ;; mret 0
  else
    ok ← push_items bigint (drop n (items s));
    if negb ok then mret (-1) else mret 0.

Definition bigint_clone (src : ptr) : M ptr :=
  if is_null src then mret None else
  bigint ← bigint_create;
  if is_null bigint then mret bigint else
  rc ← bigint_set_bigint bigint src;
  if rc =? -1 then bigint_destroy bigint ;; mret None else mret bigint.

(** ** Strings *)

Definition hex_digit (c : Z) : option Z :=
  if (48 <=? c) && (c <=? 57) then Some (c - 48)
  else if (65 <=? c) && (c <=? 70) then Some (c - 65 + 10)
  else if (97 <=? c) && (c <=? 102) then Some (c - 97 + 10)
  else None.

(** The inner loop of [bigint_set_str]: the value of the digits of one item. *)
Fixpoint hex_value (value : Z) (str : list Z) : option Z :=
  match str with
  | [] => Some value
  | c :: str =>
    match hex_digit c with
    | Some d => hex_value (u64 (u64 (Z.shiftl value 4) + d)) str
    | None => None
    end
  end.

(** The loop over the [parts]; [next] is the chain built so far. *)
Fixpoint set_str_loop (parts part_len : nat) (str next : list Z) : M (option (list Z)) :=
  match parts with
  | O => mret (Some next)
  | S parts =>
    match hex_value 0 (take part_len str) with
    | None => mret None
    | Some value =>
      ok ← malloc_item;
      if negb ok then mret None else
      set_str_loop parts (Z.to_nat BIGINT_ITEM_HEX_DIGITS) (drop part_len str) (value :: next)
    end
  end.

(** The string is given without its terminating zero.  Its length is cut to 32
    bits: of a longer string only the first digits are read.  After a failure
    the object has no items. *)
Definition bigint_set_str (bigint : ptr) (str : option (list Z)) : M Z :=
  match str with
  | None => mret (-1)
  | Some str =>
    if is_null bigint then mret (-1) else
    let '(sgn, str) := match str with c :: rest => if c =? 45 then (-1, rest) else (1, str) | [] => (1, str) end in
    let str := skip_while (Z.eqb 48) str in
    let len := u32 (Z.of_nat (length str)) in
    if len =? 0 then set_sign bigint 0 ;; mret 0 else
    bigint_destroy_items bigint ;;
    set_sign bigint sgn ;;
    let parts := i32 (i32 (len / BIGINT_ITEM_HEX_DIGITS) + (if len mod BIGINT_ITEM_HEX_DIGITS =? 0 then 0 else 1)) in
    let first_len := i32 (len mod BIGINT_ITEM_HEX_DIGITS) in
    let first_len := if first_len =? 0 then BIGINT_ITEM_HEX_DIGITS else first_len in
    r ← set_str_loop (Z.to_nat parts) (Z.to_nat first_len) str [];
    match r with
    | None => mret (-1)
    | Some l => set_items bigint l ;; mret 0
    end
  end.

(** ** Two's complement *)

Fixpoint inc_items (carry : Z) (l : list Z) : list Z :=
  match l with
  | [] => []
  | v :: l =>
    let v := u64 (v + carry) in
    let carry := Z.shiftr v BIGINT_ITEM_BITS in
    let v := Z.land v BIGINT_ITEM_MAX in
    if carry =? 0 then v :: l else v :: inc_items carry l
  end.

Definition bigint_inc_with_overflow (bigint : ptr) : M Z :=
  x ← load bigint;
  if sign x =? 0 then
    set_sign bigint 1 ;;
    ok ← malloc_item;
    if negb ok then set_items bigint [] ;; mret (-1) else
    set_items bigint [1] ;; mret 0
  else set_items bigint (inc_items 1 (items x)) ;; mret 0.

(** The items that are left of a chain, from [msb], when the leading items that
    are all ones go but for [lsb]. *)
Fixpoint strip_ones (l : list Z) : list Z :=
  match l with
  | [] => []
  | v :: l' =>
    match l' with
    | [] => l
    | _ :: _ => if v =? BIGINT_ITEM_MAX then strip_ones l' else l
    end
  end.

Definition bigint_remove_leading_zeros (bigint : ptr) : M Z :=
  x ← load bigint;
  let l := reverse (skip_while (Z.eqb 0) (reverse (items x))) in
  set_items bigint l ;;
  (if bool_decide (l = []) then set_sign bigint 0 ;; set_neged bigint false else mret tt) ;;
  x ← load bigint;
  if (sign x =? -1) && neged_with_sign x then
    let l := reverse (strip_ones (reverse (items x))) in
    set_items bigint l ;;
    if bool_decide (l = []) then set_sign bigint 0 ;; set_neged bigint false ;; mret 0 else mret 0
  else mret 0.

Definition not_items (l : list Z) : list Z := map (fun v => Z.land (u64 (Z.lnot v)) BIGINT_ITEM_MAX) l.

Definition bigint_not_inplace (a : ptr) : M Z :=
  if is_null a then mret (-1) else
  x ← load a;
  if sign x =? 0 then mret 0 else set_items a (not_items (items x)) ;; mret 0.

Definition bigint_not (result a : ptr) : M Z :=
  if is_null result || is_null a then mret (-1) else
  if bool_decide (result = a) then bigint_not_inplace result else
  bigint_destroy_items result ;;
  x ← load a;
  set_sign result (sign x) ;;
  ok ← push_items result (not_items (items x));
  if negb ok then cpu_hlt else mret 0.

Definition bigint_neg_with_sign_inplace (a : ptr) (force : bool) : M Z :=
  x ← load a;
  if sign x =? 0 then mret 0 else
  if negb force && (0 <? sign x) then mret 0 else
  if negb force && neged_with_sign x && (sign x <? 0) then mret 0 else
  or_fail (bigint_not a a) (mret (-1)) (
  or_fail (bigint_inc_with_overflow a) (mret (-1)) (
  x ← load a;
  set_neged a (negb (neged_with_sign x)) ;; mret 0)).

Definition bigint_neg_with_sign (result a : ptr) (force : bool) : M Z :=
  if bool_decide (result = a) then bigint_neg_with_sign_inplace result force else
  x ← load a;
  if sign x =? 0 then set_sign result 0 ;; mret 0 else
  if negb force && (0 <? sign x) then mret 0 else
  if negb force && neged_with_sign x && (sign x <? 0) then mret 0 else
  or_fail (bigint_set_bigint result a) (mret (-1)) (
  or_fail (bigint_not result result) (mret (-1)) (
  or_fail (bigint_inc_with_overflow result) (mret (-1)) (
  x ← load result;
  set_neged result (negb (neged_with_sign x)) ;; mret 0))).

(** [DIGIT_TO_HEX] and the digits that [buffer_printf] writes for [%llx]. *)
Definition digit_to_hex (r : Z) : Z := if r <? 10 then r + 48 else r + 55.

Fixpoint hex_digits (n : nat) (v : Z) (acc : list Z) : list Z :=
  match n with
  | O => acc
  | S n => hex_digits n (v / 16) (digit_to_hex (v mod 16) :: acc)
  end.

(** [%llx] of a word that is not zero, and [%012llx]. *)
Definition print_hex (v : Z) : list Z := hex_digits (Z.to_nat (Z.log2 v / 4 + 1)) v [].
Definition print_hex12 (v : Z) : list Z :=
  let d := if v =? 0 then [48] else print_hex v in replicate (12 - length d) 48 ++ d.

Definition bigint_to_str (bigint : ptr) : M (option (list Z)) :=
  if is_null bigint then mret None else
  x ← load bigint;
  if bool_decide (items x = []) then mret (Some [48]) else
  if sign x =? 0 then mret (Some [48]) else
  (if (sign x <? 0) && neged_with_sign x then bigint_neg_with_sign_inplace bigint true ;; mret tt else mret tt) ;;
  y ← load bigint;
  match skip_while (Z.eqb 0) (reverse (items y)) with
  | [] => mret (Some [48])
  | v :: rest => mret (Some ((if sign x <? 0 then [45] else []) ++ print_hex v ++ rest ≫= print_hex12))
  end.

(** ** Tests *)

Definition bigint_is_zero (a : ptr) : M bool :=
  if is_null a then mret true else x ← load a; mret (sign x =? 0).

Definition bigint_is_negative (a : ptr) : M bool :=
  if is_null a then mret false else x ← load a; mret (sign x <? 0).

(** [a->lsb->value]. *)
Definition lsb_value (x : bigint_t) : M Z :=
  match items x with [] => cpu_hlt | v :: _ => mret v end.

Definition bigint_is_odd (a : ptr) : M bool :=
  if is_null a then mret false else
  x ← load a;
  if sign x =? 0 then mret false else
  v ← lsb_value x; mret (negb (Z.land v 1 =? 0)).

Definition bigint_is_even (a : ptr) : M bool :=
  if is_null a then mret false else
  x ← load a;
  if sign x =? 0 then mret true else
  match items x with [] => mret false | v :: _ => mret (Z.land v 1 =? 0) end.

Definition bigint_is_int64 (a : ptr) (value : Z) : M bool :=
  if is_null a then mret false else
  x ← load a;
  if sign x =? 0 then mret (value =? 0) else
  if (sign x <? 0) && (0 <? value) then mret false else
  if (0 <? sign x) && (value <? 0) then mret false else
  let uvalue := if value <? 0 then u64 (- value) else value in
  let low := Z.land uvalue BIGINT_ITEM_MAX in
  let high := Z.shiftr uvalue BIGINT_ITEM_BITS in
  match items x with
  | [] => mret false
  | v :: rest =>
    if negb (v =? low) then mret false else
    if high =? 0 then mret (bool_decide (rest = [])) else
    match rest with
    | [w] => mret (w =? high)
    | _ => mret false
    end
  end.

(** The items of a chain from the most significant one that is not zero. *)
Definition significant (x : bigint_t) : list Z := skip_while (Z.eqb 0) (reverse (items x)).

(** A chain has far fewer than [2 ^ 58] items, so the length does not overflow. *)
Definition bigint_bit_length (bigint : ptr) : M Z :=
  if is_null bigint then mret 0 else
  x ← load bigint;
  if sign x =? 0 then mret 0 else
  match significant x with
  | [] => mret 0
  | v :: rest => mret (bit_most_significant v + BIGINT_ITEM_BITS * Z.of_nat (length rest))
  end.

Definition bigint_is_uint64 (a : ptr) (value : Z) : M bool :=
  if is_null a then mret false else
  x ← load a;
  if sign x =? 0 then mret (value =? 0) else
  let low := Z.land value BIGINT_ITEM_MAX in
  let high := Z.shiftr value BIGINT_ITEM_BITS in
  bit_count ← bigint_bit_length a;
  if 63 <? bit_count then mret false else
  v ← lsb_value x;
  if negb (v =? low) then mret false else
  if high =? 0 then mret (bit_count <=? 47) else
  match items x with
  | _ :: w :: _ => mret (w =? high)
  | _ => cpu_hlt
  end.

Definition bigint_sign_extend (bigint : ptr) (item_count : nat) : M Z :=
  if is_null bigint then mret (-1) else
  count ← bigint_item_count bigint;
  if bool_decide (item_count <= count)%nat then mret 0 else
  x ← load bigint;
  or_fail (if (sign x <? 0) && negb (neged_with_sign x) then bigint_neg_with_sign_inplace bigint false else mret 0) (mret (-1)) (
  x ← load bigint;
  ok ← push_items bigint (replicate (item_count - count) (if sign x <? 0 then BIGINT_ITEM_MAX else 0));
  if negb ok then mret (-1) else mret 0).

Definition bigint_neg (result a : ptr) : M Z :=
  if is_null result || is_null a then mret (-1) else
  x ← load a;
  or_fail (if (sign x <? 0) && neged_with_sign x then bigint_neg_with_sign_inplace a true else mret 0) (mret (-1)) (
  if bool_decide (result = a) then
    x ← load result; set_sign result (- sign x) ;; mret 0
  else
  x ← load a;
  if sign x =? 0 then mret 0 else
  or_fail (bigint_set_bigint result a) (mret (-1)) (
  x ← load result; set_sign result (- sign x) ;; mret 0)).

(** ** Results in an operand

    The operations whose result may be their first operand work on a temporary
    then: [open_result] is their prologue and [close_result] copies the
    temporary back. *)

Definition open_result (result a : ptr) : M (option ptr) :=
  if bool_decide (result = a) then
    tmp ← bigint_create;
    if is_null tmp then mret None else mret (Some tmp)
  else bigint_destroy_items result ;; mret (Some result).

Definition temp (orig_result_is_a : bool) (result : ptr) : list ptr := if orig_result_is_a then [result] else [].

Definition close_result (orig_result_is_a : bool) (orig_result result : ptr) : M Z :=
  if orig_result_is_a then bigint_set_bigint orig_result result ;; bigint_destroy result ;; mret 0 else mret 0.

(** ** Bitwise operations *)

(** The loops that build the result of a bitwise operation. *)
Fixpoint push_zip (op : Z -> Z -> Z) (result : ptr) (la lb : list Z) : M bool :=
  match la, lb with
  | va :: la, vb :: lb =>
    ok ← malloc_item;
    if negb ok then mret false else push_item result (op va vb) ;; push_zip op result la lb
  | _, _ => mret true
  end.

(** The part that [bigint_and], [bigint_or] and [bigint_xor] share: both operands
    in two's complement and of one length, the items combined. *)
Definition combine (op : Z -> Z -> Z) (result a b : ptr) (temps : list ptr) (k : M Z) : M Z :=
  xa ← load a;
  or_fail (if sign xa <? 0 then bigint_neg_with_sign_inplace a false else mret 0) (fail_with temps) (
  xb ← load b;
  or_fail (if sign xb <? 0 then bigint_neg_with_sign_inplace b false else mret 0) (fail_with temps) (
  na ← bigint_item_count a;
  nb ← bigint_item_count b;
  let item_count := max na nb in
  or_fail (bigint_sign_extend a item_count) (fail_with temps) (
  or_fail (bigint_sign_extend b item_count) (fail_with temps) (
  xa ← load a;
  xb ← load b;
  ok ← push_zip op result (items xa) (items xb);
  if negb ok then fail_with temps else
  xr ← load result;
  (if sign xr <? 0 then set_neged result true else mret tt) ;;
  or_fail (bigint_remove_leading_zeros result) (fail_with temps) k)))).

Definition bigint_and (result a b : ptr) : M Z :=
  if is_null result || is_null a || is_null b then mret (-1) else
  let orig_result := result in
  let orig_result_is_a := bool_decide (result = a) in
  r ← open_result result a;
  match r with
  | None => mret (-1)
  | Some result =>
    xa ← load a;
    xb ← load b;
    if (sign xa =? 0) || (sign xb =? 0) then
      set_sign result 0 ;; close_result orig_result_is_a orig_result result
    else
    set_sign result (if (sign xa <? 0) && (sign xb <? 0) then -1 else 1) ;;
    combine Z.land result a b (temp orig_result_is_a result) (
    close_result orig_result_is_a orig_result result)
  end.

(** The loops of [bigint_or_inplace], [bigint_add], [bigint_sub] and
    [bigint_shl]: item [i] of the result is written after item [i] of the
    operands is read; the objects may be the same. *)
Fixpoint item_loop (f : Z -> Z -> Z -> Z * Z) (result a b : ptr) (n i : nat) (carry : Z) : M (nat * Z) :=
  match n with
  | O => mret (i, carry)
  | S n =>
    xa ← load a;
    xb ← load b;
    match items xa !! i, items xb !! i with
    | Some va, Some vb =>
      let '(v, carry) := f va vb carry in
      set_item result i v ;; item_loop f result a b n (S i) carry
    | _, _ => mret (i, carry)
    end
  end.

(** The items of a chain from index [i] are set to zero. *)
Definition zero_items (p : ptr) (i : nat) : M unit :=
  x ← load p; set_items p (take i (items x) ++ replicate (length (items x) - i) 0).

Definition bigint_or_inplace (result a : ptr) : M Z :=
  xr ← load result;
  if sign xr =? 0 then bigint_set_bigint result a else
  xa ← load a;
  if sign xa =? 0 then bigint_set_bigint result a else
  or_fail (if sign xr <? 0 then bigint_neg_with_sign result result false else mret 0) (mret (-1)) (
  xr ← load result;
  xa ← load a;
  set_sign result (if (0 <? sign xr) && (0 <? sign xa) then 1 else -1) ;;
  xa ← load a;
  or_fail (if sign xa <? 0 then bigint_neg_with_sign a a false else mret 0) (mret (-1)) (
  na ← bigint_item_count a;
  nr ← bigint_item_count result;
  let item_count := max nr na in
  or_fail (bigint_sign_extend result item_count) (mret (-1)) (
  or_fail (bigint_sign_extend a item_count) (mret (-1)) (
  n ← bigint_item_count a;
  item_loop (fun vr va _ => (Z.lor vr va, 0)) result result a n 0 0 ;;
  xr ← load result;
  (if sign xr <? 0 then set_neged result true else mret tt) ;;
  or_fail (bigint_remove_leading_zeros result) (mret (-1)) (mret 0))))).

Definition bigint_or (result a b : ptr) : M Z :=
  if is_null result || is_null a || is_null b then mret (-1) else
  if bool_decide (result = a) then bigint_or_inplace result b else
  bigint_destroy_items result ;;
  xa ← load a;
  if sign xa =? 0 then bigint_set_bigint result b else
  xb ← load b;
  if sign xb =? 0 then bigint_set_bigint result a else
  set_sign result (if (0 <? sign xa) && (0 <? sign xb) then 1 else -1) ;;
  combine Z.lor result a b [] (mret 0).

Definition bigint_xor (result a b : ptr) : M Z :=
  if is_null result || is_null a || is_null b then mret (-1) else
  let orig_result := result in
  let orig_result_is_a := bool_decide (result = a) in
  r ← open_result result a;
  match r with
  | None => mret (-1)
  | Some result =>
    xa ← load a;
    if sign xa =? 0 then
      destroy_all (temp orig_result_is_a result) ;; bigint_set_bigint orig_result b
    else
    xb ← load b;
    if sign xb =? 0 then
      if orig_result_is_a then bigint_destroy result ;; mret 0 else bigint_set_bigint orig_result a
    else
    set_sign result
      (if (sign xa <? 0) && (sign xb <? 0) then 1
       else if (0 <? sign xa) && (0 <? sign xb) then 1 else -1) ;;
    combine Z.lxor result a b (temp orig_result_is_a result) (
    close_result orig_result_is_a orig_result result)
  end.

(** ** Shifts *)

Fixpoint shl_one_items (carry : Z) (l : list Z) : list Z * Z :=
  match l with
  | [] => ([], carry)
  | v :: l =>
    let next_carry := Z.shiftr v (BIGINT_ITEM_BITS - 1) in
    let v := Z.land (Z.lor (u64 (Z.shiftl v 1)) carry) BIGINT_ITEM_MAX in
    let '(l, c) := shl_one_items next_carry l in (v :: l, c)
  end.

Definition bigint_shl_one (a : ptr) : M Z :=
  if is_null a then mret (-1) else
  x ← load a;
  if sign x =? 0 then mret 0 else
  let '(l, carry) := shl_one_items 0 (items x) in
  set_items a l ;;
  if carry =? 0 then mret 0 else
  ok ← malloc_item;
  if negb ok then mret (-1) else
  push_item a (if (sign x <? 0) && neged_with_sign x then BIGINT_ITEM_MAX else carry) ;;
  mret 0.

(** From [msb] down. *)
Fixpoint shr_one_items (carry : Z) (l : list Z) : list Z :=
  match l with
  | [] => []
  | v :: l =>
    let next_carry := Z.land v 1 in
    Z.lor carry (Z.shiftr v 1) :: shr_one_items (Z.shiftl next_carry (BIGINT_ITEM_BITS - 1)) l
  end.

Definition bigint_shr_one (a : ptr) : M Z :=
  if is_null a then mret (-1) else
  x ← load a;
  if sign x =? 0 then mret 0 else
  let carry := if (sign x <? 0) && neged_with_sign x then BIGINT_ITEM_MSB else 0 in
  set_items a (reverse (shr_one_items carry (reverse (items x)))) ;;
  bigint_remove_leading_zeros a ;;
  mret 0.

(** [n] items of value zero in front of a chain. *)
Fixpoint prepend_zeros (p : ptr) (n : nat) : M unit :=
  match n with
  | O => mret tt
  | S n =>
    ok ← malloc_item;
    if negb ok then cpu_hlt else
    x ← load p;
    match items x with
    | [] => cpu_hlt
    | l => set_items p (0 :: l) ;; prepend_zeros p n
    end
  end.

(** [bigint_shl] for a [shift] that is not negative. *)
Definition bigint_shl_by (result a : ptr) (shift : Z) : M Z :=
  xa ← load a;
  set_sign result (sign xa) ;;
  set_neged result (neged_with_sign xa) ;;
  let item_shift := shift / BIGINT_ITEM_BITS in
  let bit_shift := shift mod BIGINT_ITEM_BITS in
  len ← bigint_bit_length a;
  let result_bit_count := len + bit_shift + 1 in
  let result_item_count := result_bit_count / BIGINT_ITEM_BITS + (if result_bit_count mod BIGINT_ITEM_BITS =? 0 then 0 else 1) in
  or_fail (bigint_sign_extend result (Z.to_nat result_item_count)) (mret (-1)) (
  n ← bigint_item_count a;
  r ← item_loop (fun v _ carry =>
        (Z.land (Z.lor (u64 (Z.shiftl v bit_shift)) carry) BIGINT_ITEM_MAX, Z.shiftr v (BIGINT_ITEM_BITS - bit_shift)))
        result a a n 0 0;
  let '(i, carry) := r in
  let tail : M Z :=
    (if item_shift =? 0 then mret tt else prepend_zeros result (Z.to_nat item_shift)) ;; mret 0 in
  if carry =? 0 then zero_items result i ;; tail else
  xr ← load result;
  ok ← (if bool_decide (i < length (items xr))%nat then mret true
        else ok ← malloc_item; if negb ok then mret false else push_item result 0 ;; mret true);
  if negb ok then mret (-1) else
  let mask := BIGINT_ITEM_MAX - Z.shiftr BIGINT_ITEM_MAX (BIGINT_ITEM_BITS - bit_most_significant carry) in
  set_item result i (if (sign xr <? 0) && neged_with_sign xr then Z.lor carry mask else carry) ;;
  zero_items result (S i) ;;
  tail).

(** From [msb] down. *)
Fixpoint shr_items (bit_shift carry : Z) (l : list Z) : list Z :=
  match l with
  | [] => []
  | v :: l =>
    Z.lor carry (Z.shiftr v bit_shift) ::
    shr_items bit_shift (Z.land (u64 (Z.shiftl v (BIGINT_ITEM_BITS - bit_shift))) BIGINT_ITEM_MAX) l
  end.

(** [bigint_shr]; [shl] is what it calls for a [shift] that is negative. *)
Definition bigint_shr_by (shl : ptr -> ptr -> Z -> M Z) (result a : ptr) (shift : Z) : M Z :=
  if is_null result || is_null a then mret (-1) else
  let orig_result := result in
  let orig_result_is_a := bool_decide (result = a) in
  r ← open_result result a;
  match r with
  | None => mret (-1)
  | Some result =>
    xa ← load a;
    if sign xa =? 0 then destroy_all (temp orig_result_is_a result) ;; mret 0 else
    if shift <? 0 then shl result a (- shift) else
    set_sign result (sign xa) ;;
    set_neged result (neged_with_sign xa) ;;
    let item_shift := shift / BIGINT_ITEM_BITS in
    let bit_shift := shift mod BIGINT_ITEM_BITS in
    let carry := if (sign xa <? 0) && neged_with_sign xa
                 then BIGINT_ITEM_MAX - Z.shiftr BIGINT_ITEM_MAX bit_shift else 0 in
    ok ← malloc_items (length (items xa));
    if negb ok then fail_with (temp orig_result_is_a result) else
    let l := reverse (shr_items bit_shift carry (reverse (items xa))) in
    set_items result (drop (Z.to_nat (Z.min item_shift (Z.of_nat (length l)))) l) ;;
    or_fail (bigint_remove_leading_zeros result) (fail_with (temp orig_result_is_a result)) (
    close_result orig_result_is_a orig_result result)
  end.

Definition bigint_shl (result a : ptr) (shift : Z) : M Z :=
  if is_null result || is_null a then mret (-1) else
  xa ← load a;
  if sign xa =? 0 then mret 0 else
  if shift <? 0 then bigint_shr_by (fun _ _ _ => out_of_fuel) result a (- shift) else bigint_shl_by result a shift.

Definition bigint_shr (result a : ptr) (shift : Z) : M Z := bigint_shr_by bigint_shl result a shift.

(** ** Single bits *)

(** Zero items are appended until the chain has an item at index [i]. *)
Definition ensure_item (bigint : ptr) (i : nat) : M bool :=
  x ← load bigint;
  if bool_decide (i < length (items x))%nat then mret true else
  ok ← malloc_item;
  if negb ok then mret false else
  match items x with
  | [] => cpu_hlt
  | l => set_items bigint (l ++ [0]) ;; mret true
  end.

Fixpoint ensure_items (bigint : ptr) (n i : nat) : M bool :=
  match n with
  | O => ensure_item bigint i
  | S n =>
    ok ← ensure_item bigint i;
    if negb ok then mret false else ensure_items bigint n (S i)
  end.

(** A number that is zero gets its first item. *)
Definition first_item (bigint : ptr) : M bool :=
  set_sign bigint 1 ;;
  ok ← malloc_item;
  if negb ok then set_items bigint [] ;; mret false else set_items bigint [0] ;; mret true.

Definition item_at (x : bigint_t) (bit : Z) : option Z :=
  let q := bit / BIGINT_ITEM_BITS in
  if q <? Z.of_nat (length (items x)) then items x !! Z.to_nat q else None.

(** The bit's item exists and is changed by [f]. *)
Definition update_bit (f : Z -> Z -> Z) (bigint : ptr) (bit : Z) : M Z :=
  ok ← ensure_items bigint (Z.to_nat (bit / BIGINT_ITEM_BITS)) 0;
  if negb ok then mret (-1) else
  x ← load bigint;
  match item_at x bit with
  | Some v => set_item bigint (Z.to_nat (bit / BIGINT_ITEM_BITS)) (f v (Z.shiftl 1 (bit mod BIGINT_ITEM_BITS))) ;; mret 0
  | None => cpu_hlt
  end.

Definition bigint_set_bit (bigint : ptr) (bit : Z) (value : bool) : M Z :=
  if is_null bigint then mret (-1) else
  x ← load bigint;
  if (sign x =? 0) && negb value then mret 0 else
  ok ← (if sign x =? 0 then first_item bigint else mret true);
  if negb ok then mret (-1) else
  update_bit (fun v m => if value then Z.lor v m else Z.land v (u64 (Z.lnot m))) bigint bit.

Definition bigint_get_bit (bigint : ptr) (bit : Z) : M (Z * bool) :=
  if is_null bigint then mret (-1, false) else
  x ← load bigint;
  if sign x =? 0 then mret (0, false) else
  match item_at x bit with
  | Some v => mret (0, negb (Z.land (Z.shiftr v (bit mod BIGINT_ITEM_BITS)) 1 =? 0))
  | None => mret (0, false)
  end.

Definition bigint_flip_bit (bigint : ptr) (bit : Z) : M Z :=
  if is_null bigint then mret (-1) else
  x ← load bigint;
  ok ← (if sign x =? 0 then first_item bigint else mret true);
  if negb ok then mret (-1) else
  update_bit Z.lxor bigint bit.

Definition bigint_clear_bit (bigint : ptr) (bit : Z) : M Z :=
  if is_null bigint then mret (-1) else
  x ← load bigint;
  if sign x =? 0 then mret 0 else
  match item_at x bit with
  | Some v =>
    set_item bigint (Z.to_nat (bit / BIGINT_ITEM_BITS)) (Z.land v (u64 (Z.lnot (Z.shiftl 1 (bit mod BIGINT_ITEM_BITS))))) ;;
    mret 0
  | None => mret 0
  end.

(** ** Addition, subtraction and comparison *)

(** One step of the subtraction: the item and the next borrow. *)
Definition sub_item (a_value b_value borrow : Z) : Z * Z :=
  let next_borrow := negb (borrow =? 0) && (a_value =? 0) in
  let a_value := if negb (borrow =? 0) then if a_value =? 0 then BIGINT_ITEM_MAX else a_value - 1 else a_value in
  if a_value <? b_value then (Z.land (u64 (a_value + (BIGINT_ITEM_MAX + 1) - b_value)) BIGINT_ITEM_MAX, 1)
  else (Z.land (u64 (a_value - b_value)) BIGINT_ITEM_MAX, if negb next_borrow then 0 else borrow).

(** The second half of [bigint_sub]. *)
Definition sub_items (result a b : ptr) (result_item_count : nat) : M Z :=
  or_fail (bigint_sign_extend a result_item_count) (mret (-1)) (
  or_fail (bigint_sign_extend b result_item_count) (mret (-1)) (
  or_fail (if bool_decide (a = result) then mret 0 else bigint_sign_extend result result_item_count) (mret (-1)) (
  n ← bigint_item_count a;
  r ← item_loop sub_item result a b n 0 0;
  let '(i, borrow) := r in
  zero_items result i ;;
  (if borrow =? 0 then set_sign result 1 else set_sign result (-1) ;; set_neged result true) ;;
  or_fail (bigint_remove_leading_zeros result) (mret (-1)) (mret 0)))).

Definition bigint_sub (result a b : ptr) : M Z :=
  if is_null result || is_null a || is_null b then mret (-1) else
  xa ← load a;
  if sign xa =? 0 then bigint_neg result b else
  xb ← load b;
  if sign xb =? 0 then
    if bool_decide (a = result) then mret 0 else bigint_set_bigint result a
  else
  let result_item_count := max (length (items xa)) (length (items xb)) in
  or_fail (if sign xa <? 0 then bigint_neg_with_sign a a false else mret 0) (mret (-1)) (
  xb ← load b;
  or_fail (if sign xb <? 0 then bigint_neg_with_sign b b false else mret 0) (mret (-1)) (
  sub_items result a b result_item_count)).

Definition add_item (a_value b_value carry : Z) : Z * Z :=
  let v := u64 (a_value + b_value + carry) in (Z.land v BIGINT_ITEM_MAX, Z.shiftr v BIGINT_ITEM_BITS).

(** The item that [bigint_add] appends for a last carry: after the last item
    that was written, the items behind it are cut off. *)
Definition append_carry (result : ptr) (i : nat) (carry : Z) : M bool :=
  ok ← malloc_item;
  if negb ok then mret false else
  x ← load result; set_items result (take i (items x) ++ [carry]) ;; mret true.

(** The second half of [bigint_add]: the operands are in two's complement, [sgn] is
    what their signs tell about the sign of the sum. *)
Definition add_items (result a b : ptr) (sgn : Z) (item_count : nat) : M Z :=
  or_fail (bigint_sign_extend a item_count) (mret (-1)) (
  or_fail (bigint_sign_extend b item_count) (mret (-1)) (
  n ← bigint_item_count a;
  r ← item_loop add_item result a b n 0 0;
  let '(i, carry) := r in
  zero_items result i ;;
  ok ← (if negb (carry =? 0) then
          if sgn =? -2 then set_sign result 1 ;; set_neged result false ;; mret true
          else if sgn =? 1 then
            ok ← append_carry result i carry;
            if negb ok then mret false else set_sign result sgn ;; mret true
          else set_sign result (-1) ;; set_neged result true ;; set_sign result sgn ;; mret true
        else if negb (sgn =? -2) then set_sign result sgn ;; mret true
        else set_sign result (-1) ;; set_neged result true ;; mret true);
  if negb ok then mret (-1) else
  or_fail (bigint_remove_leading_zeros result) (mret (-1)) (mret 0))).

Definition bigint_add (result a b : ptr) : M Z :=
  if is_null result || is_null a || is_null b then mret (-1) else
  xa ← load a;
  if sign xa =? 0 then bigint_set_bigint result b else
  xb ← load b;
  if sign xb =? 0 then
    if bool_decide (result = a) then mret 0 else bigint_set_bigint result a
  else
  or_fail (if sign xa <? 0 then bigint_neg_with_sign a a false else mret 0) (mret (-1)) (
  xb ← load b;
  or_fail (if sign xb <? 0 then bigint_neg_with_sign b b false else mret 0) (mret (-1)) (
  xa ← load a;
  xb ← load b;
  let sgn := if (sign xa <? 0) && (sign xb <? 0) then -1
             else if (sign xa <? 0) || (sign xb <? 0) then -2 else 1 in
  let item_count := S (max (length (items xa)) (length (items xb))) in
  or_fail (if bool_decide (result = a) then mret 0 else
           or_fail (bigint_sign_extend result item_count) (mret (-1)) (set_sign result 1 ;; mret 0)) (mret (-1)) (
  add_items result a b sgn item_count))).

(** The items of two chains of one length, from [msb] down. *)
Fixpoint cmp_items (sgn : Z) (la lb : list Z) : Z :=
  match la, lb with
  | va :: la, vb :: lb =>
    if va <? vb then - sgn else if vb <? va then sgn else cmp_items sgn la lb
  | _, _ => 0
  end.

Definition bigint_cmp (a b : ptr) : M Z :=
  if is_null a || is_null b then mret (-1) else
  xa ← load a;
  xb ← load b;
  if sign xa <? sign xb then mret (-1) else
  if sign xb <? sign xa then mret 1 else
  if sign xa =? 0 then mret 0 else
  or_fail (if (sign xa <? 0) && neged_with_sign xa then bigint_neg_with_sign_inplace a true else mret 0) (mret (-1)) (
  xb ← load b;
  or_fail (if (sign xb <? 0) && neged_with_sign xb then bigint_neg_with_sign_inplace b true else mret 0) (mret (-1)) (
  a_length ← bigint_bit_length a;
  b_length ← bigint_bit_length b;
  xa ← load a;
  xb ← load b;
  if a_length <? b_length then mret (- sign xa) else
  if b_length <? a_length then mret (sign xa) else
  mret (cmp_items (sign xa) (significant xa) (significant xb)))).

End Operations.
