(* ===== verification/BigIntArith.v ===== *)
(** * Big integers: multiplication, division, powers and primes

    The second half of [cc/lib/bigint.64.c], on the operations of [BigInt].  The
    loops that run until a number is zero have fuel from the length of the
    number; [BigIntClaims] shows that it is enough. *)

From S2P Require Import Prelude BigInt.

Section Operations.
Context `{Machine}.

(** ** Multiplication *)

(** A row: the items of [b] times one item of [a].  The value has 128 bits. *)
Fixpoint mul_row (va carry : Z) (lb : list Z) : list Z * Z :=
  match lb with
  | [] => ([], carry)
  | vb :: lb =>
    let value := va * vb + carry in
    let '(l, c) := mul_row va (Z.shiftr value BIGINT_ITEM_BITS) lb in
    (Z.land value BIGINT_ITEM_MAX :: l, c)
  end.

(** The row is written over the items of [row_result]. *)
Definition write_row (row_result : ptr) (va : Z) (lb : list Z) : M unit :=
  x ← load row_result;
  let '(l, carry) := mul_row va 0 lb in
  if bool_decide (length lb < length (items x))%nat then
    set_items row_result (l ++ u64 carry :: replicate (length (items x) - length lb - 1) 0)
  else cpu_hlt.

(** The loop over the items of [a], from [msb] down. *)
Fixpoint mul_loop (result row_result : ptr) (temps : list ptr) (la lb : list Z) : M Z :=
  match la with
  | [] => mret 0
  | va :: la =>
    write_row row_result va lb ;;
    or_fail (bigint_shl result result BIGINT_ITEM_BITS) (fail_with (temps ++ [row_result])) (
    or_fail (bigint_add result result row_result) (fail_with (temps ++ [row_result])) (
    mul_loop result row_result temps la lb))
  end.

(** The product of two magnitudes that are not zero. *)
Definition mul_rows (result a b : ptr) (temps : list ptr) : M Z :=
  xa ← load a;
  xb ← load b;
  row_result ← bigint_create;
  if is_null row_result then mret (-1) else
  or_fail (bigint_sign_extend row_result (S (length (items xb)))) (fail_with (row_result :: temps)) (
  set_sign row_result 1 ;;
  or_fail (mul_loop result row_result temps (reverse (items xa)) (items xb)) (mret (-1)) (
  bigint_destroy row_result ;;
  set_sign result (sign xa * sign xb) ;;
  set_neged result false ;;
  mret 0)).

Definition bigint_mul (result a b : ptr) : M Z :=
  if is_null result || is_null a || is_null b then mret (-1) else
  let orig_result := result in
  let orig_result_is_a := bool_decide (result = a) in
  r ← open_result result a;
  match r with
  | None => mret (-1)
  | Some result =>
    let temps := temp orig_result_is_a result in
    xa ← load a;
    xb ← load b;
    if (sign xa =? 0) || (sign xb =? 0) then
      set_sign result 0 ;; close_result orig_result_is_a orig_result result
    else
    or_fail (if (sign xa <? 0) && neged_with_sign xa then bigint_neg_with_sign_inplace a true else mret 0) (fail_with temps) (
    xb ← load b;
    or_fail (if (sign xb <? 0) && neged_with_sign xb then bigint_neg_with_sign_inplace b true else mret 0) (fail_with temps) (
    or_fail (mul_rows result a b temps) (mret (-1)) (
    close_result orig_result_is_a orig_result result)))
  end.

(** ** Powers *)

(** An exponent has at most so many bits. *)
Definition bits_fuel (x : bigint_t) : nat := Z.to_nat BIGINT_ITEM_BITS * length (items x).

(** The loop of [bigint_pow] and of [bigint_pow_mod]: [mul] is the product they use. *)
Fixpoint pow_loop (mul : ptr -> ptr -> ptr -> M Z) (fuel : nat) (result base exp : ptr) (temps : list ptr) : M Z :=
  xe ← load exp;
  if negb (0 <? sign xe) then mret 0 else
  match fuel with
  | O => out_of_fuel
  | S fuel =>
    odd ← bigint_is_odd exp;
    or_fail (if odd : bool then mul result result base else mret 0) (fail_with (temps ++ [base; exp])) (
    or_fail (mul base base base) (fail_with (temps ++ [base; exp])) (
    or_fail (bigint_shr_one exp) (fail_with (temps ++ [base; exp])) (
    pow_loop mul fuel result base exp temps)))
  end.

(** What [bigint_pow] and [bigint_pow_mod] do before they copy their operands:
    [k] goes on with the result and the temporaries. *)
Definition pow_prologue (result a b : ptr) (k : ptr -> list ptr -> M Z) : M Z :=
  let orig_result := result in
  let orig_result_is_a := bool_decide (result = a) in
  r ← open_result result a;
  match r with
  | None => mret (-1)
  | Some result =>
    let temps := temp orig_result_is_a result in
    xa ← load a;
    xb ← load b;
    if (sign xa =? 0) && (sign xb =? 0) then fail_with temps else
    if sign xa =? 0 then set_sign result 0 ;; close_result orig_result_is_a orig_result result else
    if sign xb =? 0 then
      set_sign result 1 ;; bigint_set_int64 result 1 ;; close_result orig_result_is_a orig_result result
    else
    if sign xb <? 0 then fail_with temps else
    k result temps
  end.

Definition bigint_pow (result a b : ptr) : M Z :=
  if is_null result || is_null a || is_null b then mret (-1) else
  let orig_result := result in
  let orig_result_is_a := bool_decide (result = a) in
  pow_prologue result a b (fun result temps =>
    base ← bigint_clone a;
    if is_null base then fail_with (temps ++ [base]) else
    exp ← bigint_clone b;
    if is_null exp then fail_with (temps ++ [base; exp]) else
    or_fail (bigint_set_uint64 result 1) (fail_with (temps ++ [base; exp])) (
    xe ← load exp;
    or_fail (pow_loop bigint_mul (bits_fuel xe) result base exp temps) (mret (-1)) (
    destroy_all [base; exp] ;;
    close_result orig_result_is_a orig_result result))).

(** ** Division *)

(** The long division: the bits of [a] from [n - 1] down to zero. *)
Fixpoint div_loop (n : nat) (quotient tmp_remainder a b : ptr) (temps : list ptr) : M Z :=
  match n with
  | O => mret 0
  | S n =>
    let i := Z.of_nat n in
    or_fail (bigint_shl_one tmp_remainder) (fail_with (temps ++ [tmp_remainder])) (
    bit ← bigint_get_bit a i;
    if bit.1 =? -1 then fail_with (temps ++ [tmp_remainder]) else
    or_fail (if bit.2 : bool then bigint_set_bit tmp_remainder 0 true else mret 0) (fail_with (temps ++ [tmp_remainder])) (
    c ← bigint_cmp tmp_remainder b;
    if negb (c =? -1) then
      or_fail (bigint_sub tmp_remainder tmp_remainder b) (fail_with (temps ++ [tmp_remainder])) (
      or_fail (bigint_set_bit quotient i true) (fail_with (temps ++ [tmp_remainder])) (
      div_loop n quotient tmp_remainder a b temps))
    else div_loop n quotient tmp_remainder a b temps))
  end.

Definition bigint_div_unsigned (result remainder a b : ptr) : M Z :=
  if is_null result || is_null a || is_null b then mret (-1) else
  let orig_result := result in
  let orig_result_is_a := bool_decide (result = a) in
  r ← open_result result a;
  match r with
  | None => mret (-1)
  | Some result =>
    let temps := temp orig_result_is_a result in
    xb ← load b;
    if sign xb =? 0 then fail_with temps else
    xa ← load a;
    if sign xa =? 0 then
      (if orig_result_is_a then bigint_destroy_items orig_result ;; bigint_destroy result else mret tt) ;; mret 0
    else
    a_length ← bigint_bit_length a;
    b_length ← bigint_bit_length b;
    let max_bit_length := Z.max a_length b_length in
    tmp_remainder ← bigint_create;
    if is_null tmp_remainder then fail_with temps else
    or_fail (div_loop (Z.to_nat (max_bit_length + 1)) result tmp_remainder a b temps) (mret (-1)) (
    (if is_null remainder then mret tt
     else bigint_remove_leading_zeros tmp_remainder ;; bigint_set_bigint remainder tmp_remainder ;; mret tt) ;;
    bigint_destroy tmp_remainder ;;
    bigint_remove_leading_zeros result ;;
    close_result orig_result_is_a orig_result result)
  end.

(** A copy of a number without its sign. *)
Definition div_operand (neg_a a : ptr) (temps : list ptr) (k : M Z) : M Z :=
  xa ← load a;
  if negb (sign xa =? -1) then
    or_fail (bigint_set_bigint neg_a a) (fail_with temps) (set_sign neg_a 1 ;; k)
  else
    or_fail (if neged_with_sign xa then bigint_neg_with_sign_inplace a true else mret 0) (fail_with temps) (
    or_fail (bigint_neg neg_a a) (fail_with temps) k).

Definition bigint_div_with_remainder (result remainder a b : ptr) : M Z :=
  if is_null result || is_null a || is_null b then mret (-1) else
  let orig_result := result in
  let orig_result_is_a := bool_decide (result = a) in
  r ← open_result result a;
  match r with
  | None => mret (-1)
  | Some result =>
    let temps := temp orig_result_is_a result in
    xb ← load b;
    if sign xb =? 0 then fail_with temps else
    xa ← load a;
    if sign xa =? 0 then set_sign result 0 ;; close_result orig_result_is_a orig_result result else
    destroy_all temps ;;
    if (sign xb =? 1) && (sign xa =? 1) then bigint_div_unsigned orig_result remainder a b else
    if (sign xb =? -1) && (sign xa =? -1) then
      neg_a ← bigint_create;
      or_fail (if neged_with_sign xa then bigint_neg_with_sign_inplace a true else mret 0) (fail_with [neg_a]) (
      or_fail (bigint_neg neg_a a) (fail_with [neg_a]) (
      neg_b ← bigint_create;
      xb ← load b;
      or_fail (if neged_with_sign xb then bigint_neg_with_sign_inplace b true else mret 0) (fail_with [neg_a; neg_b]) (
      or_fail (bigint_neg neg_b b) (fail_with [neg_a; neg_b]) (
      ret ← bigint_div_unsigned orig_result remainder neg_a neg_b;
      set_sign orig_result 1 ;;
      set_neged orig_result false ;;
      destroy_all [neg_a; neg_b] ;;
      mret ret))))
    else
    neg_a ← bigint_create;
    div_operand neg_a a [neg_a] (
    neg_b ← bigint_create;
    div_operand neg_b b [neg_a; neg_b] (
    or_fail (bigint_div_unsigned orig_result remainder neg_a neg_b) (fail_with [neg_a; neg_b]) (
    one ← bigint_one;
    if is_null one then fail_with [neg_a; neg_b] else
    or_fail (bigint_add orig_result orig_result one) (fail_with [neg_a; neg_b; one]) (
    bigint_destroy one ;;
    set_sign orig_result (-1) ;;
    destroy_all [neg_a; neg_b] ;;
    mret 0))))
  end.

Definition bigint_div (result a b : ptr) : M Z := bigint_div_with_remainder result None a b.

Definition bigint_mod (result a b : ptr) : M Z :=
  if is_null result || is_null a || is_null b then mret (-1) else
  tmp_result ← bigint_create;
  tmp_remainder ← bigint_create;
  if is_null tmp_result || is_null tmp_remainder then fail_with [tmp_result; tmp_remainder] else
  or_fail (bigint_div_with_remainder tmp_result tmp_remainder a b) (fail_with [tmp_result; tmp_remainder]) (
  xa ← load a;
  xb ← load b;
  or_fail (
    if (0 <? sign xa) && (0 <? sign xb) then mret 0
    else if (sign xa <? 0) && (sign xb <? 0) then
      xr ← load tmp_remainder;
      (if (sign xr <? 0) && neged_with_sign xr then bigint_neg_with_sign_inplace tmp_remainder true ;; mret tt else mret tt) ;;
      set_sign tmp_remainder (-1) ;; set_neged tmp_remainder false ;; mret 0
    else if sign xa <? 0 then
      or_fail (bigint_sub tmp_remainder tmp_remainder b) (mret (-1)) (
      or_fail (bigint_neg_with_sign_inplace tmp_remainder true) (mret (-1)) (
      set_sign tmp_remainder 1 ;; mret 0))
    else
      or_fail (bigint_add tmp_remainder tmp_remainder b) (mret (-1)) (
      set_sign tmp_remainder (-1) ;; mret 0)
  ) (fail_with [tmp_result; tmp_remainder]) (
  bigint_destroy tmp_result ;;
  bigint_remove_leading_zeros tmp_remainder ;;
  or_fail (bigint_set_bigint result tmp_remainder) (fail_with [tmp_remainder]) (
  bigint_destroy tmp_remainder ;;
  mret 0))).

Definition bigint_mul_mod (result a b c : ptr) : M Z :=
  if is_null result || is_null a || is_null b || is_null c then mret (-1) else
  xc ← load c;
  if sign xc =? 0 then mret (-1) else
  xa ← load a;
  xb ← load b;
  if (sign xa =? 0) || (sign xb =? 0) then
    if bool_decide (a = result) then mret 0 else bigint_destroy_items result ;; mret 0
  else
  or_fail (bigint_mul result a b) (mret (-1)) (
  or_fail (bigint_mod result result c) (mret (-1)) (
  mret 0)).

Definition bigint_pow_mod (result a b c : ptr) : M Z :=
  if is_null result || is_null a || is_null b || is_null c then mret (-1) else
  let orig_result := result in
  let orig_result_is_a := bool_decide (result = a) in
  pow_prologue result a b (fun result temps =>
    base ← bigint_clone a;
    if is_null base then fail_with (temps ++ [base]) else
    or_fail (bigint_mod base base c) (fail_with (temps ++ [base])) (
    exp ← bigint_clone b;
    if is_null exp then fail_with (temps ++ [base; exp]) else
    or_fail (bigint_set_uint64 result 1) (fail_with (temps ++ [base; exp])) (
    xe ← load exp;
    or_fail (pow_loop (fun r x y => bigint_mul_mod r x y c) (bits_fuel xe) result base exp temps) (mret (-1)) (
    destroy_all [base; exp] ;;
    bigint_remove_leading_zeros result ;;
    close_result orig_result_is_a orig_result result)))).

(** ** Greatest common divisor *)

Fixpoint gcd_loop (fuel : nat) (tmp tmp_a tmp_b : ptr) (temps : list ptr) : M Z :=
  xa ← load tmp_a;
  if sign xa =? 0 then mret 0 else
  match fuel with
  | O => out_of_fuel
  | S fuel =>
    or_fail (bigint_mod tmp tmp_b tmp_a) (fail_with (temps ++ [tmp_a; tmp_b; tmp])) (
    or_fail (bigint_set_bigint tmp_b tmp_a) (fail_with (temps ++ [tmp_a; tmp_b; tmp])) (
    or_fail (bigint_set_bigint tmp_a tmp) (fail_with (temps ++ [tmp_a; tmp_b; tmp])) (
    gcd_loop fuel tmp tmp_a tmp_b temps)))
  end.

Definition bigint_gcd (result a b : ptr) : M Z :=
  if is_null result || is_null a || is_null b then mret (-1) else
  let orig_result := result in
  let orig_result_is_a := bool_decide (result = a) in
  r ← open_result result a;
  match r with
  | None => mret (-1)
  | Some result =>
    let temps := temp orig_result_is_a result in
    cmp ← bigint_cmp a b;
    if cmp =? 0 then
      (if orig_result_is_a then bigint_set_bigint orig_result a ;; bigint_destroy result else mret tt) ;; mret 0
    else
    tmp_a ← bigint_clone a;
    if is_null tmp_a then fail_with temps else
    tmp_b ← bigint_clone b;
    if is_null tmp_b then fail_with (temps ++ [tmp_a]) else
    tmp ← bigint_create;
    if is_null tmp then fail_with (temps ++ [tmp_a; tmp_b]) else
    let '(tmp_a, tmp_b) := if cmp =? -1 then (tmp_a, tmp_b) else (tmp_b, tmp_a) in
    xa ← load tmp_a;
    xb ← load tmp_b;
    or_fail (gcd_loop (bits_fuel xa + bits_fuel xb) tmp tmp_a tmp_b temps) (mret (-1)) (
    or_fail (bigint_set_bigint result tmp_b) (fail_with (temps ++ [tmp_a; tmp_b; tmp])) (
    xr ← load result;
    (if sign xr =? -1 then set_sign result 1 else mret tt) ;;
    bigint_remove_leading_zeros result ;;
    destroy_all [tmp_a; tmp_b; tmp] ;;
    close_result orig_result_is_a orig_result result))
  end.

(** ** Random numbers and primes *)

(** Items with random values, at the end of a chain. *)
Fixpoint push_random (result : ptr) (n : nat) : M bool :=
  match n with
  | O => mret true
  | S n =>
    ok ← malloc_item;
    if negb ok then mret false else
    v ← rand64;
    push_item result (Z.land v BIGINT_ITEM_MAX) ;;
    push_random result n
  end.

(** The most significant item is changed. *)
Definition update_msb (p : ptr) (f : Z -> Z) : M unit :=
  x ← load p;
  match reverse (items x) with
  | [] => cpu_hlt
  | v :: rest => set_items p (reverse (f v :: rest))
  end.

Definition bigint_random_internal (bits : Z) (force_msb : bool) : M ptr :=
  result ← bigint_create;
  if is_null result then mret None else
  if bits =? 0 then mret result else
  let item_count := bits / BIGINT_ITEM_BITS in
  let remaining_bits := bits mod BIGINT_ITEM_BITS in
  ok ← push_random result (Z.to_nat item_count);
  if negb ok then bigint_destroy result ;; mret None else
  ok ← (if remaining_bits =? 0 then mret true else
        ok ← malloc_item;
        if negb ok then mret false else
        v ← rand64;
        push_item result (Z.land v (Z.shiftl 1 remaining_bits - 1)) ;; mret true);
  if negb ok then bigint_destroy result ;; mret None else
  set_sign result 1 ;;
  if negb force_msb then mret result else
  update_msb result (fun v => Z.lor v (Z.shiftl 1 ((if remaining_bits =? 0 then BIGINT_ITEM_BITS else remaining_bits) - 1))) ;;
  mret result.

Definition bigint_random (bits : Z) : M ptr := bigint_random_internal bits true.

Definition bigint_random_range (min max : ptr) : M ptr :=
  if is_null min || is_null max then mret None else
  range ← bigint_create;
  if is_null range then mret None else
  rc ← bigint_sub range max min;
  if rc =? -1 then bigint_destroy range ;; mret None else
  result ← bigint_create;
  if is_null result then bigint_destroy range ;; mret None else
  bits_upper ← bigint_bit_length range;
  v ← rand64;
  if bits_upper =? 0 then cpu_hlt (* division by zero *) else
  let bits_random := v mod bits_upper in
  tmp ← bigint_random_internal bits_random false;
  if is_null tmp then destroy_all [range; result] ;; mret None else
  rc ← bigint_add result min tmp;
  if rc =? -1 then destroy_all [range; result; tmp] ;; mret None else
  destroy_all [range; tmp] ;; mret result.

(** [while(bigint_is_even(d))]: the factors two of [d] are counted in [r]. *)
Fixpoint factor_twos (fuel : nat) (d r one : ptr) : M bool :=
  even ← bigint_is_even d;
  if negb even then mret true else
  match fuel with
  | O => out_of_fuel
  | S fuel =>
    rc ← bigint_add r r one;
    if rc =? -1 then mret false else
    rc ← bigint_shr_one d;
    if rc =? -1 then mret false else
    xd ← load d;
    if sign xd =? 0 then mret true else factor_twos fuel d r one
  end.

(** The squarings of one round; the result tells whether the round goes on. *)
Fixpoint square_loop (fuel : nat) (x j r_minus_1 n_minus_1 one two a : ptr) : M bool :=
  c1 ← bigint_cmp j r_minus_1;
  if negb (c1 =? -1) then mret true else
  c2 ← bigint_cmp x n_minus_1;
  if c2 =? 0 then mret true else
  match fuel with
  | O => out_of_fuel
  | S fuel =>
    rc ← bigint_pow_mod x x two a;
    if rc =? -1 then bigint_destroy j ;; mret false else
    is_one ← bigint_is_uint64 x 1;
    if is_one : bool then mret false else
    bigint_add j j one ;;
    square_loop fuel x j r_minus_1 n_minus_1 one two a
  end.

(** One round of the loop over [try]. *)
Definition miller_rabin_round (fuel : nat) (x d r_minus_1 n_minus_1 a_minus_2 one two a : ptr) : M bool :=
  test_random ← bigint_random_range two a_minus_2;
  if is_null test_random then mret false else
  rc ← bigint_pow_mod x test_random d a;
  if rc =? -1 then bigint_destroy test_random ;; mret false else
  is_one ← bigint_is_uint64 x 1;
  c ← (if is_one : bool then mret 0 else bigint_cmp x n_minus_1);
  if negb is_one && negb (c =? 0) then
    j ← bigint_create;
    if is_null j then bigint_destroy test_random ;; mret false else
    ok ← square_loop fuel x j r_minus_1 n_minus_1 one two a;
    if negb ok then bigint_destroy test_random ;; mret false else
    bigint_destroy j ;;
    c ← bigint_cmp x n_minus_1;
    bigint_destroy test_random ;;
    mret (c =? 0)
  else bigint_destroy test_random ;; mret true.

Fixpoint miller_rabin_rounds (try fuel : nat) (x d r_minus_1 n_minus_1 a_minus_2 one two a : ptr) : M bool :=
  match try with
  | O => mret true
  | S try =>
    ok ← miller_rabin_round fuel x d r_minus_1 n_minus_1 a_minus_2 one two a;
    if negb ok then mret false else miller_rabin_rounds try fuel x d r_minus_1 n_minus_1 a_minus_2 one two a
  end.

Definition return_false (ps : list ptr) : M bool := destroy_all ps ;; mret false.

Definition bigint_is_prime_miller_rabin (a : ptr) (try : nat) : M bool :=
  if is_null a then mret false else
  xa ← load a;
  if sign xa <=? 0 then mret false else
  is2 ← bigint_is_uint64 a 2;
  is3 ← (if is2 : bool then mret true else bigint_is_uint64 a 3);
  if is3 : bool then mret true else
  is1 ← bigint_is_uint64 a 1;
  if is1 : bool then mret false else
  even ← bigint_is_even a;
  if even : bool then mret false else
  one ← bigint_one;
  two ← bigint_two;
  if is_null one || is_null two then return_false [one; two] else
  n_minus_1 ← bigint_clone a;
  if is_null n_minus_1 then return_false [one; two] else
  rc ← bigint_sub n_minus_1 n_minus_1 one;
  if rc =? -1 then return_false [n_minus_1; one; two] else
  d ← bigint_clone n_minus_1;
  if is_null d then return_false [n_minus_1; one; two] else
  r ← bigint_create;
  if is_null r then return_false [n_minus_1; d; one; two] else
  xd ← load d;
  ok ← factor_twos (bits_fuel xd) d r one;
  if negb ok then return_false [n_minus_1; d; r; one; two] else
  rc ← bigint_sub r r one;
  if rc =? -1 then return_false [n_minus_1; d; r; one; two] else
  x ← bigint_create;
  if is_null x then return_false [n_minus_1; d; r; one; two] else
  a_minus_2 ← bigint_clone a;
  if is_null a_minus_2 then return_false [n_minus_1; d; r; x; one; two] else
  rc ← bigint_sub a_minus_2 a_minus_2 two;
  if rc =? -1 then return_false [n_minus_1; d; r; x; a_minus_2; one; two] else
  ok ← miller_rabin_rounds try (bits_fuel xd) x d r n_minus_1 a_minus_2 one two a;
  destroy_all [n_minus_1; d; r; x; a_minus_2; one; two] ;;
  mret ok.

Definition bigint_is_prime (a : ptr) : M bool :=
  if is_null a then mret false else bigint_is_prime_miller_rabin a 128.

(** The hundred candidates of one random start. *)
Fixpoint next_primes (n : nat) (result two : ptr) : M (option bool) :=
  match n with
  | O => mret (Some false)
  | S n =>
    p ← bigint_is_prime result;
    if p : bool then mret (Some true) else
    rc ← bigint_add result result two;
    if rc =? -1 then mret None else next_primes n result two
  end.

Definition set_lsb_bit (p : ptr) : M unit :=
  x ← load p;
  match items x with
  | [] => cpu_hlt
  | v :: rest => set_items p (Z.lor v 1 :: rest)
  end.

Fixpoint random_prime_loop (fuel : nat) (bits : Z) (two : ptr) : M ptr :=
  match fuel with
  | O => out_of_fuel
  | S fuel =>
    result ← bigint_random bits;
    if is_null result then bigint_destroy two ;; mret None else
    set_lsb_bit result ;;
    found ← next_primes 100 result two;
    match found with
    | Some true => bigint_destroy two ;; mret result
    | Some false => bigint_destroy result ;; random_prime_loop fuel bits two
    | None => destroy_all [result; two] ;; mret None
    end
  end.

Definition bigint_random_prime (fuel : nat) (bits : Z) : M ptr :=
  if bits <? 2 then mret None else
  two ← bigint_one;
  if is_null two then mret None else
  random_prime_loop fuel bits two.

End Operations.
