(* ===== verification/BigIntDigits.v ===== *)
(** * Chains of 48-bit items as numbers

    [digits l] is the number that the items [l] denote, least significant first.
    The lemmas give the meaning of the loops of [BigInt] over items: two's
    complement, carries and borrows, leading zeros and leading ones. *)

From S2P Require Import Prelude BigInt.

Definition base : Z := 2 ^ 48.

Definition item_ok (v : Z) : Prop := 0 <= v < base.

Fixpoint digits (l : list Z) : Z :=
  match l with
  | [] => 0
  | v :: l => v + base * digits l
  end.

(** The number of values of [n] items. *)
Definition size (n : nat) : Z := base ^ Z.of_nat n.

Lemma base_pos : 0 < base.
Proof. done. Qed.

Lemma max_base : BIGINT_ITEM_MAX = base - 1.
Proof. done. Qed.

Lemma size_0 : size 0 = 1.
Proof. done. Qed.

Lemma size_S n : size (S n) = base * size n.
Proof. unfold size. rewrite Nat2Z.inj_succ, Z.pow_succ_r by lia. done. Qed.

Lemma size_pos n : 0 < size n.
Proof. apply Z.pow_pos_nonneg; [done|lia]. Qed.

Lemma size_add n m : size (n + m) = size n * size m.
Proof. unfold size. rewrite Nat2Z.inj_add, Z.pow_add_r by lia. done. Qed.

Lemma size_mono n m : (n <= m)%nat -> size n <= size m.
Proof. intros H. apply Z.pow_le_mono_r; [done|lia]. Qed.

Lemma size_bits n : size n = 2 ^ (48 * Z.of_nat n).
Proof. unfold size, base. rewrite <- Z.pow_mul_r by lia. done. Qed.

Lemma land_max v : Z.land v BIGINT_ITEM_MAX = v mod base.
Proof. by apply (land_ones_mod v 48). Qed.

Lemma shiftr_item v : Z.shiftr v BIGINT_ITEM_BITS = v / base.
Proof. by rewrite Z.shiftr_div_pow2. Qed.

Lemma digits_app l k : digits (l ++ k) = digits l + size (length l) * digits k.
Proof.
  induction l as [|v l IH]; cbn [app digits length]; [rewrite size_0; lia|]. rewrite IH, size_S. ring.
Qed.

Lemma digits_bound l : Forall item_ok l -> 0 <= digits l < size (length l).
Proof.
  induction 1 as [|v l [Hv1 Hv2] _ IH]; cbn [digits length]; [rewrite size_0; lia|]. rewrite size_S.
  pose proof base_pos. nia.
Qed.

Lemma digits_zeros n : digits (replicate n 0) = 0.
Proof. induction n as [|n IH]; cbn [replicate digits]; [done|]. rewrite IH. lia. Qed.

Lemma digits_ones n : digits (replicate n BIGINT_ITEM_MAX) = size n - 1.
Proof. induction n as [|n IH]; cbn [replicate digits]; [done|]. rewrite IH, max_base, size_S. lia. Qed.

Lemma item_ok_0 : item_ok 0.
Proof. done. Qed.
Lemma item_ok_max : item_ok BIGINT_ITEM_MAX.
Proof. done. Qed.
Lemma item_ok_mod v : item_ok (v mod base).
Proof. by apply Z.mod_pos_bound. Qed.
#[export] Hint Resolve item_ok_0 item_ok_max item_ok_mod : word.

Lemma zeros_ok n : Forall item_ok (replicate n 0).
Proof. apply Forall_replicate, item_ok_0. Qed.
Lemma ones_ok n : Forall item_ok (replicate n BIGINT_ITEM_MAX).
Proof. apply Forall_replicate, item_ok_max. Qed.

(** ** Two's complement *)

Lemma not_item v : item_ok v -> Z.land (u64 (Z.lnot v)) BIGINT_ITEM_MAX = base - 1 - v.
Proof.
  intros [Hv1 Hv2]. rewrite land_max. unfold u64, base in *.
  unfold Z.lnot. rewrite <- (Z_mod_plus_full (Z.pred (- v)) 1), (Z.mod_small _ (2 ^ 64)) by lia.
  replace (Z.pred (- v) + 1 * 2 ^ 64) with (2 ^ 48 - 1 - v + (2 ^ 16 - 1) * 2 ^ 48) by lia.
  rewrite Z_mod_plus_full, Z.mod_small by lia. done.
Qed.

Lemma length_not l : length (not_items l) = length l.
Proof. apply length_map. Qed.

Lemma not_items_ok l : Forall item_ok (not_items l).
Proof. apply Forall_fmap, Forall_true. intros v. cbn. rewrite land_max. apply item_ok_mod. Qed.

Lemma digits_not l : Forall item_ok l -> digits (not_items l) = size (length l) - 1 - digits l.
Proof.
  induction 1 as [|v l Hv _ IH]; [done|]. cbn [not_items map digits length]. unfold not_items in IH.
  rewrite IH, not_item, size_S by done. ring.
Qed.

Lemma inc_step v c : item_ok v -> 0 <= c <= 1 ->
  u64 (v + c) = v + c /\ 0 <= (v + c) / base <= 1 /\ v + c = base * ((v + c) / base) + (v + c) mod base.
Proof.
  intros [Hv1 Hv2] Hc. split_and!.
  - apply u64_small. unfold base in *. lia.
  - apply Z.div_pos; [lia|done].
  - apply Z.lt_succ_r. unfold Z.succ. apply Z.div_lt_upper_bound; [done|]. lia.
  - by apply Z.div_mod.
Qed.

Lemma length_inc c l : length (inc_items c l) = length l.
Proof. revert c. induction l as [|v l IH]; intros c; [done|]. cbn. case_match; cbn; by rewrite ?IH. Qed.

Lemma inc_items_ok c l : Forall item_ok l -> Forall item_ok (inc_items c l).
Proof.
  intros Hl. revert c. induction Hl as [|v l Hv Hl IH]; intros c; [done|].
  cbn. rewrite land_max. case_match; constructor; auto with word.
Qed.

Lemma digits_inc c l : Forall item_ok l -> 0 <= c <= 1 ->
  digits (inc_items c l) = (digits l + c) mod size (length l).
Proof.
  intros Hl. revert c. induction Hl as [|v l Hv Hl IH]; intros c Hc; [symmetry; apply Z.mod_1_r|].
  cbn [inc_items digits length]. destruct (inc_step v c Hv Hc) as (-> & Hq & Hd).
  rewrite shiftr_item, land_max, size_S. pose proof (digits_bound l Hl) as Hb. pose proof (item_ok_mod (v + c)) as [Hm1 Hm2].
  destruct (Z.eqb_spec ((v + c) / base) 0) as [Hz|Hz].
  - rewrite Hz in Hd. cbn [digits]. rewrite (Z.mod_small (v + base * digits l + c)); [lia|]. pose proof base_pos. nia.
  - assert ((v + c) / base = 1) as Hq1 by lia. cbn [digits]. rewrite Hq1.
    rewrite IH by lia.
    pose proof (size_pos (length l)) as Hs. pose proof (Z.mod_pos_bound (digits l + 1) _ Hs).
    apply (Z.mod_unique _ _ ((digits l + 1) / size (length l))).
    + left. pose proof base_pos. nia.
    + pose proof (Z.div_mod (digits l + 1) (size (length l))) as E. rewrite Hq1 in Hd. nia.
Qed.

(** The two's complement of a magnitude that is not zero, and back. *)
Lemma digits_complement l : Forall item_ok l -> 0 < digits l ->
  digits (inc_items 1 (not_items l)) = size (length l) - digits l.
Proof.
  intros Hl Hd. pose proof (digits_bound l Hl).
  rewrite digits_inc, length_not, digits_not by (done || lia || apply not_items_ok). rewrite Z.mod_small; lia.
Qed.

(** ** Leading items *)

Lemma skip_while_suffix test l : exists k, l = k ++ skip_while test l /\ Forall (fun v => test v = true) k.
Proof.
  induction l as [|v l [k [E Hk]]]; [by exists []|]. cbn. destruct (test v) eqn:Ht; [|by exists []].
  exists (v :: k). split; [by rewrite E at 1|]. by constructor.
Qed.

Lemma skip_while_head test l v k : skip_while test l = v :: k -> test v = false.
Proof. induction l as [|w l IH]; cbn; [done|]. case_match eqn:Ht; [auto|]. by intros [= -> ->]. Qed.

Definition strip_zeros (l : list Z) : list Z := reverse (skip_while (Z.eqb 0) (reverse l)).

Lemma strip_zeros_app l : exists n, l = strip_zeros l ++ replicate n 0.
Proof.
  unfold strip_zeros. destruct (skip_while_suffix (Z.eqb 0) (reverse l)) as (k & E & Hk).
  exists (length k). rewrite <- (reverse_involutive l), E at 1. rewrite reverse_app. f_equal.
  clear E. induction Hk as [|v k Hv _ IH]; [done|]. apply Z.eqb_eq in Hv as <-. rewrite reverse_cons, IH.
  cbn [length]. by rewrite replicate_S_end.
Qed.

Lemma digits_strip_zeros l : digits (strip_zeros l) = digits l.
Proof. destruct (strip_zeros_app l) as [n E]. rewrite E at 2. rewrite digits_app, digits_zeros. lia. Qed.

Lemma strip_zeros_ok l : Forall item_ok l -> Forall item_ok (strip_zeros l).
Proof. destruct (strip_zeros_app l) as [n E]. rewrite E at 1. by intros [? _]%Forall_app. Qed.

Lemma digits_last l v : Forall item_ok l -> 0 < v -> size (length l) <= digits (l ++ [v]).
Proof.
  intros Hl Hv. rewrite digits_app. cbn [digits]. pose proof (digits_bound l Hl). pose proof (size_pos (length l)). nia.
Qed.

Lemma reverse_cons_inv {A} (l k : list A) v : reverse l = v :: k -> l = reverse k ++ [v].
Proof. intros E. rewrite <- (reverse_involutive l), E. apply reverse_cons. Qed.

(** The most significant item that is left is not zero. *)
Lemma strip_zeros_last l k v : Forall item_ok l -> strip_zeros l = k ++ [v] -> 0 < v.
Proof.
  unfold strip_zeros. intros Hl E. assert (skip_while (Z.eqb 0) (reverse l) = v :: reverse k) as E'.
  { rewrite <- (reverse_involutive (skip_while _ _)), E. by rewrite reverse_app. }
  pose proof (skip_while_head _ _ _ _ E') as Hv. apply Z.eqb_neq in Hv.
  assert (item_ok v) as [? _]; [|lia].
  eapply (Forall_forall item_ok); [by apply Forall_reverse|].
  destruct (skip_while_suffix (Z.eqb 0) (reverse l)) as (k0 & E0 & _). rewrite E0, E'. set_solver.
Qed.

Lemma strip_zeros_nil l : Forall item_ok l -> strip_zeros l = [] <-> digits l = 0.
Proof.
  intros Hl. rewrite <- digits_strip_zeros. split; [by intros ->|]. intros Hd.
  destruct (strip_zeros l) as [|v k _] eqn:E using rev_ind; [done|]. exfalso.
  pose proof (strip_zeros_last l k v Hl E). pose proof (strip_zeros_ok l Hl) as Hk. rewrite E in Hk. apply Forall_app in Hk as [Hk _].
  pose proof (digits_last k v Hk). pose proof (size_pos (length k)). lia.
Qed.

Lemma strip_ones_suffix l : exists n, l = replicate n BIGINT_ITEM_MAX ++ strip_ones l.
Proof.
  induction l as [|v l [n IH]]; [by exists 0%nat|]. destruct l as [|w l]; [by exists 0%nat|].
  cbn [strip_ones] in *. destruct (Z.eqb_spec v BIGINT_ITEM_MAX) as [->|]; [|by exists 0%nat].
  exists (S n). cbn [replicate app]. by rewrite IH at 1.
Qed.

Lemma strip_ones_nil l : strip_ones l = [] -> l = [].
Proof.
  induction l as [|v l IH]; [done|]. destruct l as [|w l]; [by intros [=]|]. cbn [strip_ones] in *.
  destruct (v =? BIGINT_ITEM_MAX); [|done]. intros E. by apply IH in E.
Qed.

Lemma reverse_strip_ones l : exists n, l = reverse (strip_ones (reverse l)) ++ replicate n BIGINT_ITEM_MAX.
Proof.
  destruct (strip_ones_suffix (reverse l)) as [n E]. exists n.
  rewrite <- (reverse_involutive l), E at 1. by rewrite reverse_app, reverse_replicate.
Qed.
