(* ===== verification/BigIntTheory.v ===== *)
(** * Big integers: objects and the operations on one object

    [value x] is the number that an object represents and [valid x] says that
    the object is one that the operations can work on.  [run c m Q]: from every
    heap with the objects [m] the command [c] ends, without a fault, with a
    result and objects that satisfy [Q], when memory does not run out.

    The operations on one object are given as functions on [bigint_t]:
    [to_complement], [to_magnitude], [extend] and [normalize] change how a number
    is represented and keep its value. *)

From S2P Require Import Prelude BigInt BigIntDigits.

Definition value (x : bigint_t) : Z :=
  if sign x =? 0 then 0
  else if 0 <? sign x then digits (items x)
  else if neged_with_sign x then digits (items x) - size (length (items x))
  else - digits (items x).

Record valid (x : bigint_t) : Prop := {
  valid_items : Forall item_ok (items x);
  valid_sign : sign x = 0 \/ sign x = 1 \/ sign x = -1;
  valid_nonempty : sign x <> 0 -> items x <> [];
  valid_magnitude : sign x = -1 -> neged_with_sign x = false -> 0 < digits (items x);
}.

(** The sign tells the sign of the value. *)
Definition normal (x : bigint_t) : Prop := sign x = Z.sgn (value x).

(** A negative number that is the complement of zero: its magnitude cannot be
    recovered. *)
Definition collapsed (x : bigint_t) : Prop :=
  sign x = -1 /\ neged_with_sign x = true /\ digits (items x) = 0.

Lemma value_pos x : sign x = 1 -> value x = digits (items x).
Proof. intros E. unfold value. by rewrite E. Qed.

Lemma value_zero x : sign x = 0 -> value x = 0.
Proof. intros E. unfold value. by rewrite E. Qed.

Lemma value_complement x : sign x = -1 -> neged_with_sign x = true ->
  value x = digits (items x) - size (length (items x)).
Proof. intros E F. unfold value. by rewrite E, F. Qed.

Lemma value_magnitude x : sign x = -1 -> neged_with_sign x = false -> value x = - digits (items x).
Proof. intros E F. unfold value. by rewrite E, F. Qed.

Lemma value_negative x : valid x -> sign x = -1 -> value x < 0.
Proof.
  intros [Hi _ _ Hm] Hs. pose proof (digits_bound _ Hi). destruct (neged_with_sign x) eqn:F.
  - rewrite value_complement by done. lia.
  - rewrite value_magnitude by done. specialize (Hm Hs eq_refl). lia.
Qed.

Lemma value_nonneg x : valid x -> sign x = 1 -> 0 <= value x.
Proof. intros [Hi _ _ _] Hs. rewrite value_pos by done. by apply digits_bound. Qed.

Lemma normal_sign x : valid x -> sign x = 1 -> (normal x <-> 0 < value x).
Proof. intros Hv Hs. unfold normal. rewrite Hs. pose proof (value_nonneg x Hv Hs). lia. Qed.

(** Only negative powers of the base have a collapsed representation. *)
Lemma collapsed_value x : valid x -> collapsed x -> exists n, (0 < n)%nat /\ value x = - size n.
Proof.
  intros Hv (Hs & Hn & Hd). exists (length (items x)). split.
  - pose proof (valid_nonempty x Hv). destruct (items x); [|cbn; lia]. exfalso. by apply H; [rewrite Hs|].
  - rewrite value_complement, Hd by done. lia.
Qed.

(** ** Functions on one object *)

Definition negate (x : bigint_t) : bigint_t :=
  mk_bigint (inc_items 1 (not_items (items x))) (sign x) (negb (neged_with_sign x)).

Definition to_complement (x : bigint_t) : bigint_t :=
  if (sign x <? 0) && negb (neged_with_sign x) then negate x else x.

Definition to_magnitude (x : bigint_t) : bigint_t :=
  if (sign x <? 0) && neged_with_sign x then negate x else x.

Definition extend (n : nat) (x : bigint_t) : bigint_t :=
  if bool_decide (n <= length (items x))%nat then x else
  let y := to_complement x in
  mk_bigint (items y ++ replicate (n - length (items x)) (if sign x <? 0 then BIGINT_ITEM_MAX else 0)) (sign y) (neged_with_sign y).

Definition normalize (x : bigint_t) : bigint_t :=
  let l := strip_zeros (items x) in
  let '(s, f) := if bool_decide (l = []) then (0, false) else (sign x, neged_with_sign x) in
  if (s =? -1) && f then mk_bigint (reverse (strip_ones (reverse l))) s f else mk_bigint l s f.

(** Two representations of one number. *)
Record same (x y : bigint_t) : Prop := {
  same_valid : valid y;
  same_sign : sign y = sign x;
  same_value : value y = value x;
}.

Lemma same_refl x : valid x -> same x x.
Proof. by split. Qed.
Lemma same_trans x y z : same x y -> same y z -> same x z.
Proof. intros [_ ? ?] [? ? ?]. split; [done|congruence..]. Qed.

Lemma negate_items x : Forall item_ok (items x) -> Forall item_ok (items (negate x)).
Proof. intros _. cbn. apply inc_items_ok, not_items_ok. Qed.

Lemma length_negate x : length (items (negate x)) = length (items x).
Proof. cbn. by rewrite length_inc, length_not. Qed.

Lemma to_complement_same x : valid x -> same x (to_complement x).
Proof.
  intros Hv. unfold to_complement. destruct ((sign x <? 0) && negb (neged_with_sign x)) eqn:E; [|by apply same_refl].
  apply andb_prop in E as [Hs%Z.ltb_lt Hn%negb_true_iff]. destruct Hv as [Hi Hsgn Hne Hm].
  assert (sign x = -1) as Hs1 by lia. specialize (Hm Hs1 Hn).
  assert (value (negate x) = value x) as Hval.
  { rewrite value_complement, value_magnitude by (cbn; by rewrite ?Hn). rewrite length_negate. cbn [items negate].
    rewrite digits_complement by done. lia. }
  split; [|done..]. split; [by apply negate_items|done| |cbn; by rewrite Hn].
  cbn [sign negate]. intros H0. specialize (Hne H0). intros E. apply Hne, nil_length_inv. by rewrite <- length_negate, E.
Qed.

Lemma length_to_complement x : length (items (to_complement x)) = length (items x).
Proof. unfold to_complement. case_match; [apply length_negate|done]. Qed.

Lemma to_complement_neged x : sign x = -1 -> neged_with_sign (to_complement x) = true.
Proof. intros E. unfold to_complement. rewrite E. cbn. destruct (neged_with_sign x) eqn:F; cbn; by rewrite F. Qed.

Lemma to_complement_pos x : 0 <= sign x -> to_complement x = x.
Proof. intros E. unfold to_complement. destruct (Z.ltb_spec (sign x) 0); [lia|done]. Qed.

Lemma to_complement_id x : neged_with_sign x = true -> to_complement x = x.
Proof. intros E. unfold to_complement. rewrite E. by rewrite andb_false_r. Qed.

Lemma to_magnitude_same x : valid x -> ~ collapsed x -> same x (to_magnitude x).
Proof.
  intros Hv Hc. unfold to_magnitude. destruct ((sign x <? 0) && neged_with_sign x) eqn:E; [|by apply same_refl].
  apply andb_prop in E as [Hs%Z.ltb_lt Hn]. destruct Hv as [Hi Hsgn Hne Hm].
  assert (sign x = -1) as Hs1 by lia. pose proof (digits_bound _ Hi).
  assert (0 < digits (items x)) as Hpos.
  { destruct (decide (digits (items x) = 0)); [exfalso; apply Hc; done|lia]. }
  assert (digits (items (negate x)) = size (length (items x)) - digits (items x)) as Hd by by apply digits_complement.
  assert (value (negate x) = value x) as Hval.
  { rewrite value_magnitude, value_complement by (cbn; by rewrite ?Hn). rewrite Hd. lia. }
  split; [|done..]. split; [by apply negate_items|done| |lia].
  cbn [sign negate]. intros H0. specialize (Hne H0). intros E. apply Hne, nil_length_inv. by rewrite <- length_negate, E.
Qed.

Lemma to_magnitude_neged x : sign x = -1 -> neged_with_sign (to_magnitude x) = false.
Proof. intros E. unfold to_magnitude. rewrite E. cbn. destruct (neged_with_sign x) eqn:F; cbn; by rewrite F. Qed.

Lemma to_magnitude_pos x : 0 <= sign x -> to_magnitude x = x.
Proof. intros E. unfold to_magnitude. destruct (Z.ltb_spec (sign x) 0); [lia|done]. Qed.

(** The magnitude of a number that is not zero. *)
Lemma to_magnitude_digits x : valid x -> ~ collapsed x -> sign x <> 0 ->
  digits (items (to_magnitude x)) = Z.abs (value x) /\ value x = sign x * digits (items (to_magnitude x)).
Proof.
  intros Hv Hc Hs. destruct (to_magnitude_same x Hv Hc) as [Hv' Es Ev]. pose proof (digits_bound _ (valid_items _ Hv')).
  destruct (valid_sign x Hv) as [|[H1|H1]]; [done| |].
  - rewrite <- Ev, value_pos by congruence. rewrite H1. lia.
  - rewrite <- Ev, value_magnitude by (congruence || by apply to_magnitude_neged). rewrite H1. lia.
Qed.

Lemma app_not_nil {A} (l k : list A) : l <> [] -> l ++ k <> [].
Proof. by destruct l. Qed.

Lemma extend_same n x : valid x -> same x (extend n x).
Proof.
  intros Hv. unfold extend. case_bool_decide; [by apply same_refl|].
  pose proof (to_complement_same x Hv) as [[Hi Hs Hne Hm] Es Ev]. pose proof (length_to_complement x) as Hl.
  set (y := to_complement x) in *. pose proof (app_not_nil (items y) (replicate (n - length (items x)) (if sign x <? 0 then BIGINT_ITEM_MAX else 0))) as Hnn.
  assert (digits (items y) <= digits (items y ++ replicate (n - length (items x)) (if sign x <? 0 then BIGINT_ITEM_MAX else 0))) as Hge.
  { rewrite digits_app. pose proof (size_pos (length (items y))). pose proof (size_pos (n - length (items x))).
    destruct (sign x <? 0); rewrite ?digits_ones, ?digits_zeros; nia. }
  split; [|done|].
  - split; cbn [items sign neged_with_sign]; [|done|auto|].
    + apply Forall_app. split; [done|]. destruct (sign x <? 0); [apply ones_ok|apply zeros_ok].
    + intros H1 H2. specialize (Hm H1 H2). lia.
  - rewrite <- Ev. unfold value. cbn [items sign neged_with_sign]. destruct (Z.eqb_spec (sign y) 0); [done|].
    rewrite Es in *. destruct (Z.ltb_spec 0 (sign x)).
    + destruct (Z.ltb_spec (sign x) 0); [lia|]. rewrite digits_app, digits_zeros. lia.
    + destruct (Z.ltb_spec (sign x) 0); [|lia]. assert (neged_with_sign y = true) as -> by (apply to_complement_neged; lia).
      rewrite length_app, length_replicate, size_add, digits_app, digits_ones. lia.
Qed.

Lemma length_extend n x : length (items (extend n x)) = max n (length (items x)).
Proof.
  unfold extend. case_bool_decide; [lia|]. cbn [items]. rewrite length_app, length_replicate, length_to_complement. lia.
Qed.

Lemma extend_neged n x : sign x = -1 -> neged_with_sign x = true -> neged_with_sign (extend n x) = true.
Proof. intros E F. unfold extend. case_bool_decide; [done|]. by apply to_complement_neged. Qed.

Lemma extend_longer n x : (n <= length (items x))%nat -> extend n x = x.
Proof. intros E. unfold extend. by rewrite bool_decide_true. Qed.

(** The items of an operand in two's complement: the value, modulo the size. *)
Definition raw (n : nat) (v : Z) : Z := if v <? 0 then v + size n else v.

Lemma raw_digits n x : valid x -> length (items x) = n -> (sign x = -1 -> neged_with_sign x = true) -> sign x <> 0 ->
  digits (items x) = raw n (value x).
Proof.
  intros Hv <- Hn Hs. unfold raw. destruct (valid_sign x Hv) as [|[H1|H1]]; [done| |].
  - pose proof (value_nonneg x Hv H1). destruct (Z.ltb_spec (value x) 0); [lia|]. by rewrite value_pos.
  - pose proof (value_negative x Hv H1). destruct (Z.ltb_spec (value x) 0); [|lia]. rewrite value_complement by auto. lia.
Qed.

(** What [normalize] asks for: a complement has no leading zero item, which would
    be taken away. *)
Definition normalizable (x : bigint_t) : Prop :=
  Forall item_ok (items x) /\ (sign x = 1 \/ sign x = -1) /\
  (sign x = -1 -> neged_with_sign x = true -> size (length (items x) - 1) <= digits (items x)).

Lemma strip_zeros_full l : Forall item_ok l -> size (length l - 1) <= digits l -> strip_zeros l = l.
Proof.
  intros Hl Hd. destruct (strip_zeros_app l) as [n E]. destruct n as [|n]; [by rewrite app_nil_r in E|exfalso].
  assert (length l = length (strip_zeros l) + S n)%nat as Hlen by (rewrite E at 1; rewrite length_app, length_replicate; done).
  pose proof (digits_bound _ (strip_zeros_ok l Hl)) as Hb. rewrite digits_strip_zeros in Hb.
  pose proof (size_mono (length (strip_zeros l)) (length l - 1)). lia.
Qed.

Lemma normalize_correct x : normalizable x ->
  valid (normalize x) /\ normal (normalize x) /\ value (normalize x) = value x.
Proof.
  intros (Hi & Hs & Hfull). unfold normalize. pose proof (strip_zeros_nil _ Hi) as Hnil. pose proof (strip_zeros_ok _ Hi) as Hok.
  pose proof (digits_strip_zeros (items x)) as Hd. pose proof (digits_bound _ Hi) as Hb.
  case_bool_decide as E; [apply Hnil in E as E0|assert (digits (items x) <> 0) by tauto].
  - assert (value x = 0) as Hx.
    { unfold value. rewrite E0. destruct (sign x =? 0); [done|]. destruct (0 <? sign x) eqn:Hlt; [done|].
      destruct (neged_with_sign x) eqn:F; [|done]. exfalso. specialize (Hfull ltac:(lia) eq_refl).
      pose proof (size_pos (length (items x) - 1)). lia. }
    cbn. rewrite Hx. split_and!; [|done..]. split; cbn; try done; auto.
  - destruct ((sign x =? -1) && neged_with_sign x) eqn:F.
    + apply andb_prop in F as [F1%Z.eqb_eq F2]. rewrite (strip_zeros_full _ Hi (Hfull F1 F2)).
      destruct (reverse_strip_ones (items x)) as [n En]. set (l := reverse (strip_ones (reverse (items x)))) in *.
      assert (l <> []) as Hl.
      { intros El. unfold l in El. apply (f_equal reverse) in El. rewrite reverse_involutive in El. apply strip_ones_nil in El.
        apply (f_equal reverse) in El. rewrite reverse_involutive in El. by rewrite El in *. }
      assert (Forall item_ok l) as Hlok by (rewrite En in Hi; by apply Forall_app in Hi as [? _]).
      rewrite F1, F2. assert (value (mk_bigint l (-1) true) = value x) as Hval.
      { rewrite !value_complement by done. cbn [items]. rewrite En. rewrite length_app, length_replicate, size_add, digits_app, digits_ones. lia. }
      assert (valid (mk_bigint l (-1) true)) as Hv by (split; cbn; try done; auto).
      split_and!; [done| |done]. unfold normal. cbn [sign]. pose proof (value_negative _ Hv eq_refl). lia.
    + set (y := mk_bigint _ _ _). assert (value y = value x) as Hval.
      { unfold value. cbn [y sign items neged_with_sign]. rewrite Hd. destruct (sign x =? 0); [done|].
        destruct (0 <? sign x) eqn:Hlt; [done|]. destruct (neged_with_sign x); [|done]. assert (sign x = -1) by lia.
        exfalso. destruct (Z.eqb_spec (sign x) (-1)); [done|lia]. }
      assert (valid y) as Hv.
      { split; cbn [y sign items neged_with_sign]; [done|lia|done|]. intros _ _. rewrite Hd. lia. }
      split_and!; [done| |done]. unfold normal. cbn [y sign]. rewrite Hval. destruct Hs as [H1|H1].
      * pose proof (value_pos _ H1). rewrite H1. lia.
      * pose proof (value_negative _ Hv H1). rewrite H1. lia.
Qed.
