(* ===== verification/BigIntRun.v ===== *)
(** * Running the operations on big integers

    The rules for [run] and what the operations on single objects do to the
    objects: [BigIntTheory] gives the functions. *)

From S2P Require Import Prelude BigInt BigIntDigits BigIntTheory.

Abbreviation objects := (gmap loc bigint_t).

Definition run {A} (c : M A) (m : objects) (Q : A -> objects -> Prop) : Prop :=
  forall s, objs s = m -> wp c s (fun a s' => Q a (objs s')) False.

Lemma run_ret {A} (x : A) m (Q : A -> objects -> Prop) : Q x m -> run (mret x) m Q.
Proof. intros HQ s <-. exact HQ. Qed.

Lemma run_bind {A B} (c : M A) (k : A -> M B) m Q :
  run c m (fun a m' => run (k a) m' Q) -> run (mbind k c) m Q.
Proof. intros Hc s Hs. apply wp_bind. eapply wp_mono; [by apply Hc|]. intros a s' Hk. by apply Hk. Qed.

Lemma run_mono {A} (c : M A) m (Q R : A -> objects -> Prop) :
  run c m Q -> (forall a m', Q a m' -> R a m') -> run c m R.
Proof. intros Hc HR s Hs. eapply wp_mono; [by apply Hc|]. auto. Qed.

(** A run of a command. *)
Lemma run_done {A} (c : M A) s (Q : A -> objects -> Prop) :
  run c (objs s) Q -> exists a s', c s = Done (a, s') /\ Q a (objs s').
Proof. intros Hc. by apply wp_done, Hc. Qed.

Lemma run_load p m x Q : m !! p = Some x -> Q x m -> run (load (Some p)) m Q.
Proof. intros Hp HQ s <-. unfold wp, load. cbn. by rewrite Hp. Qed.

Lemma run_store p m x y Q : m !! p = Some x -> Q tt (<[p := y]> m) -> run (store (Some p) y) m Q.
Proof. intros Hp HQ s <-. unfold wp, store. by rewrite Hp. Qed.

Lemma run_set_items p m x l Q :
  m !! p = Some x -> Q tt (<[p := mk_bigint l (sign x) (neged_with_sign x)]> m) -> run (set_items (Some p) l) m Q.
Proof. intros Hp HQ. apply run_bind. eapply run_load; [done|]. by eapply run_store. Qed.

Lemma run_set_sign p m x z Q :
  m !! p = Some x -> Q tt (<[p := mk_bigint (items x) z (neged_with_sign x)]> m) -> run (set_sign (Some p) z) m Q.
Proof. intros Hp HQ. apply run_bind. eapply run_load; [done|]. by eapply run_store. Qed.

Lemma run_set_neged p m x f Q :
  m !! p = Some x -> Q tt (<[p := mk_bigint (items x) (sign x) f]> m) -> run (set_neged (Some p) f) m Q.
Proof. intros Hp HQ. apply run_bind. eapply run_load; [done|]. by eapply run_store. Qed.

Lemma run_push_item p m x v Q :
  m !! p = Some x -> Q tt (<[p := mk_bigint (items x ++ [v]) (sign x) (neged_with_sign x)]> m) -> run (push_item (Some p) v) m Q.
Proof. intros Hp HQ. apply run_bind. eapply run_load; [done|]. by eapply run_set_items. Qed.

Lemma run_set_item p m x i v Q :
  m !! p = Some x -> (i < length (items x))%nat ->
  Q tt (<[p := mk_bigint (<[i := v]> (items x)) (sign x) (neged_with_sign x)]> m) -> run (set_item (Some p) i v) m Q.
Proof.
  intros Hp Hi HQ. apply run_bind. eapply run_load; [done|]. cbn beta. rewrite bool_decide_true by done. by eapply run_set_items.
Qed.

Lemma run_count p m x Q : m !! p = Some x -> Q (length (items x)) m -> run (bigint_item_count (Some p)) m Q.
Proof. intros Hp HQ. apply run_bind. eapply run_load; [done|]. by apply run_ret. Qed.

Lemma run_destroy_items p m x Q :
  m !! p = Some x -> Q tt (<[p := mk_bigint [] 0 false]> m) -> run (bigint_destroy_items (Some p)) m Q.
Proof. intros Hp HQ. by eapply run_store. Qed.

Lemma run_destroy p m x Q : m !! p = Some x -> Q tt (delete p m) -> run (bigint_destroy (Some p)) m Q.
Proof.
  intros Hp HQ. apply run_bind. eapply run_destroy_items; [done|]. intros s Hs. unfold wp, free_bigint. cbn. rewrite Hs.
  by rewrite delete_insert_eq.
Qed.

Lemma run_zero_items p m x i Q :
  m !! p = Some x ->
  Q tt (<[p := mk_bigint (take i (items x) ++ replicate (length (items x) - i) 0) (sign x) (neged_with_sign x)]> m) ->
  run (zero_items (Some p) i) m Q.
Proof. intros Hp HQ. apply run_bind. eapply run_load; [done|]. by eapply run_set_items. Qed.

(** [or_fail]: the check of a call that succeeds. *)
Lemma run_or_fail (c err k : M Z) m Q :
  run c m (fun rc m' => rc = 0 /\ run k m' Q) -> run (or_fail c err k) m Q.
Proof. intros Hc. apply run_bind. eapply run_mono; [exact Hc|]. cbn. by intros rc m' [-> Hk]. Qed.

(** An object that is looked up in a changed store. *)
Ltac lookup_obj :=
  repeat first
    [ eassumption
    | rewrite lookup_insert_eq; reflexivity
    | rewrite lookup_insert_ne by congruence
    | rewrite lookup_delete_ne by congruence ].

(** Stores to one object, one after the other. *)
Ltac fold_stores := rewrite ?insert_insert_eq; cbn [items sign neged_with_sign].

Ltac step_load := apply run_bind; eapply run_load; [lookup_obj|]; cbn beta.
Ltac step lem := apply run_bind; eapply lem; [lookup_obj|..]; cbn beta; fold_stores.

Class Plenty (HM : Machine) : Prop := plenty : forall n, room n = true.

Section Memory.
Context {HM : Machine} {HP : Plenty HM}.

Lemma run_negate p m x (force : bool) Q :
  m !! p = Some x -> sign x <> 0 ->
  (force = true \/ (sign x < 0 /\ neged_with_sign x = false)) ->
  Q 0 (<[p := negate x]> m) -> run (bigint_neg_with_sign_inplace (Some p) force) m Q.
Proof using HM.
  intros Hp Hs Hf HQ. unfold bigint_neg_with_sign_inplace. step_load. destruct (Z.eqb_spec (sign x) 0); [done|].
  assert (negb force && (0 <? sign x) = false) as ->.
  { destruct Hf as [->|[Hf _]]; [done|]. destruct (Z.ltb_spec 0 (sign x)); [lia|]. by rewrite andb_false_r. }
  assert (negb force && neged_with_sign x && (sign x <? 0) = false) as ->.
  { destruct Hf as [->|[_ ->]]; [done|]. by rewrite andb_false_r. }
  apply run_or_fail. unfold bigint_not. cbn [is_null orb]. rewrite bool_decide_true by done.
  unfold bigint_not_inplace. cbn [is_null]. step_load. destruct (Z.eqb_spec (sign x) 0); [done|].
  step run_set_items. apply run_ret. split; [done|].
  apply run_or_fail. unfold bigint_inc_with_overflow. step_load. cbn [sign].
  destruct (Z.eqb_spec (sign x) 0); [done|]. step run_set_items. apply run_ret. split; [done|].
  step_load. step run_set_neged. by apply run_ret.
Qed.

(** A number that is not negative is left alone. *)
Lemma run_negate_not p m x Q :
  m !! p = Some x -> (0 <= sign x \/ neged_with_sign x = true) ->
  Q 0 m -> run (bigint_neg_with_sign_inplace (Some p) false) m Q.
Proof using HM.
  intros Hp Hs HQ. unfold bigint_neg_with_sign_inplace. step_load. destruct (Z.eqb_spec (sign x) 0); [by apply run_ret|].
  cbn [negb andb]. destruct (Z.ltb_spec 0 (sign x)); [by apply run_ret|].
  destruct Hs as [|Hs]; [lia|]. rewrite Hs. destruct (Z.ltb_spec (sign x) 0); [|lia]. by apply run_ret.
Qed.

Lemma run_to_complement p m x Q :
  m !! p = Some x -> Q 0 (<[p := to_complement x]> m) -> run (bigint_neg_with_sign_inplace (Some p) false) m Q.
Proof using HM.
  intros Hp HQ. unfold to_complement in HQ. destruct (Z.ltb_spec (sign x) 0); [destruct (neged_with_sign x) eqn:F|]; cbn in HQ.
  - rewrite insert_id in HQ by done. eapply run_negate_not; [done|by right|done].
  - eapply run_negate; [done|lia|by right|done].
  - rewrite insert_id in HQ by done. eapply run_negate_not; [done|by left|done].
Qed.

(** The guarded calls of the operations. *)
Lemma run_complement p m x Q :
  m !! p = Some x -> Q 0 (<[p := to_complement x]> m) ->
  run (if sign x <? 0 then bigint_neg_with_sign (Some p) (Some p) false else mret 0) m Q.
Proof using HM.
  intros Hp HQ. destruct (Z.ltb_spec (sign x) 0).
  - unfold bigint_neg_with_sign. rewrite bool_decide_true by done. by eapply run_to_complement.
  - rewrite to_complement_pos, insert_id in HQ by done. by apply run_ret.
Qed.

Lemma run_complement_inplace p m x Q :
  m !! p = Some x -> Q 0 (<[p := to_complement x]> m) ->
  run (if sign x <? 0 then bigint_neg_with_sign_inplace (Some p) false else mret 0) m Q.
Proof using HM.
  intros Hp HQ. destruct (Z.ltb_spec (sign x) 0); [by eapply run_to_complement|].
  rewrite to_complement_pos, insert_id in HQ by done. by apply run_ret.
Qed.

Lemma run_to_magnitude p m x Q :
  m !! p = Some x -> Q 0 (<[p := to_magnitude x]> m) ->
  run (if (sign x <? 0) && neged_with_sign x then bigint_neg_with_sign_inplace (Some p) true else mret 0) m Q.
Proof using HM.
  intros Hp HQ. unfold to_magnitude in HQ. destruct ((sign x <? 0) && neged_with_sign x) eqn:E.
  - apply andb_prop in E as [E%Z.ltb_lt _]. eapply run_negate; [done|lia|by left|done].
  - rewrite insert_id in HQ by done. by apply run_ret.
Qed.

Lemma run_normalize p m x Q :
  m !! p = Some x -> Q 0 (<[p := normalize x]> m) -> run (bigint_remove_leading_zeros (Some p)) m Q.
Proof using HM.
  intros Hp HQ. unfold bigint_remove_leading_zeros. step_load. unfold normalize in HQ. fold (strip_zeros (items x)) in *.
  set (l := strip_zeros (items x)) in *. step run_set_items. apply run_bind. destruct (bool_decide (l = [])) eqn:El.
  - apply bool_decide_eq_true in El. step run_set_sign. eapply run_set_neged; [lookup_obj|]. fold_stores. step_load. by apply run_ret.
  - apply run_ret. step_load. cbn [sign neged_with_sign items]. destruct ((sign x =? -1) && neged_with_sign x); [|by apply run_ret].
    step run_set_items. assert (bool_decide (reverse (strip_ones (reverse l)) = []) = false) as ->.
    { apply bool_decide_eq_false. apply bool_decide_eq_false in El. intros E. apply El.
      apply (f_equal reverse) in E. rewrite reverse_involutive in E. apply strip_ones_nil in E.
      apply (f_equal reverse) in E. by rewrite reverse_involutive in E. }
    by apply run_ret.
Qed.

(** ** Operations that allocate *)

Lemma run_malloc_item m Q : Q true m -> run malloc_item m Q.
Proof using HM HP. intros HQ s <-. unfold wp, malloc_item. cbn. by rewrite plenty. Qed.

Lemma run_create m Q :
  (forall p, m !! p = None -> Q (Some p) (<[p := mk_bigint [] 0 false]> m)) -> run bigint_create m Q.
Proof using HM HP.
  intros HQ s <-. unfold wp, bigint_create. rewrite plenty. apply HQ.
  apply not_elem_of_dom, is_fresh.
Qed.

Lemma run_rand64 m Q : (forall v, 0 <= v < 2 ^ 64 -> Q v m) -> run rand64 m Q.
Proof using HM. intros HQ s <-. unfold wp, rand64. cbn. by apply HQ, Z.mod_pos_bound. Qed.

Lemma run_push_items p m x vs Q :
  m !! p = Some x -> Q true (<[p := mk_bigint (items x ++ vs) (sign x) (neged_with_sign x)]> m) ->
  run (push_items (Some p) vs) m Q.
Proof using HM HP.
  revert m x. induction vs as [|v vs IH]; intros m x Hp HQ; cbn [push_items].
  - apply run_ret. rewrite app_nil_r in HQ. rewrite insert_id in HQ; [done|by destruct x].
  - apply run_bind, run_malloc_item. cbn [negb]. step run_push_item. eapply IH; [lookup_obj|]. fold_stores.
    by rewrite <- app_assoc.
Qed.

Lemma run_malloc_items n m Q : Q true m -> run (malloc_items n) m Q.
Proof using HM HP.
  intros HQ. induction n as [|n IH]; cbn [malloc_items]; [by apply run_ret|]. by apply run_bind, run_malloc_item.
Qed.

Lemma run_sign_extend p m x n Q :
  m !! p = Some x -> Q 0 (<[p := extend n x]> m) -> run (bigint_sign_extend (Some p) n) m Q.
Proof using HM HP.
  intros Hp HQ. unfold bigint_sign_extend. cbn [is_null]. step run_count. unfold extend in HQ.
  destruct (bool_decide (n <= length (items x))%nat); [rewrite insert_id in HQ by done; by apply run_ret|].
  step_load. apply run_or_fail.
  assert (run (if (sign x <? 0) && negb (neged_with_sign x) then bigint_neg_with_sign_inplace (Some p) false else mret 0) m
    (fun rc m' => rc = 0 /\ m' = <[p := to_complement x]> m)) as Hc.
  { unfold to_complement. destruct ((sign x <? 0) && negb (neged_with_sign x)) eqn:E.
    - apply andb_prop in E as [E%Z.ltb_lt F%negb_true_iff]. eapply run_negate; [done|lia|by right|done].
    - apply run_ret. by rewrite insert_id. }
  eapply run_mono; [exact Hc|]. intros rc m' [-> ->]. split; [done|]. step_load.
  assert (sign (to_complement x) = sign x) as -> by (unfold to_complement; by case_match).
  step run_push_items. by apply run_ret.
Qed.

(** A copy; the items of a number without items are not those of a number with a
    sign. *)
Lemma run_set_bigint p q m x y Q :
  m !! p = Some x -> m !! q = Some y -> (items y = [] -> sign y = 0) ->
  Q 0 (<[p := y]> m) -> run (bigint_set_bigint (Some p) (Some q)) m Q.
Proof using HM HP.
  intros Hp Hq Hy HQ. unfold bigint_set_bigint. cbn [is_null orb]. step_load. step_load. step run_store. clear Hq.
  destruct y as [l z f]; cbn [items sign neged_with_sign] in *.
  case_bool_decide as E1; [|case_bool_decide as E2; [|case_bool_decide as E3]].
  - apply run_ret. by rewrite <- E1, Nat.min_id, firstn_all, drop_ge, app_nil_r by lia.
  - step run_set_items. apply run_bind. destruct (bool_decide (l = [])) eqn:El.
    + apply bool_decide_eq_true in El. eapply run_set_sign; [lookup_obj|]. fold_stores. apply run_ret. by rewrite (Hy El) in HQ.
    + apply run_ret. by apply run_ret.
  - apply run_bind, run_malloc_items. cbn [negb]. step run_set_items. by apply run_ret.
  - step run_push_items. cbn [negb]. apply run_ret. rewrite Nat.min_l by lia. rewrite (drop_ge (items x)), app_nil_r by lia.
    by rewrite take_drop.
Qed.

Lemma run_clone q m y Q :
  m !! q = Some y -> (items y = [] -> sign y = 0) ->
  (forall p, m !! p = None -> Q (Some p) (<[p := y]> m)) -> run (bigint_clone (Some q)) m Q.
Proof using HM HP.
  intros Hq Hy HQ. unfold bigint_clone. cbn [is_null]. apply run_bind, run_create. intros p Hp. cbn [is_null].
  assert (p <> q) by congruence. apply run_bind. eapply run_set_bigint; [lookup_obj|lookup_obj|done|]. fold_stores. apply run_ret. by apply HQ.
Qed.

Lemma valid_copyable y : valid y -> items y = [] -> sign y = 0.
Proof using HM. intros Hv E. destruct (decide (sign y = 0)); [done|]. by destruct (valid_nonempty y Hv). Qed.

(** Destroying several objects. *)
Lemma run_destroy_all ps m Q :
  NoDup ps -> (forall p, p ∈ ps -> exists x, m !! p = Some x) ->
  Q tt (foldr (fun p m => delete p m) m ps) -> run (destroy_all (Some <$> ps)) m Q.
Proof using HM.
  revert m. induction ps as [|p ps IH]; intros m Hnd Hin HQ; cbn [fmap list_fmap destroy_all]; [by apply run_ret|].
  apply NoDup_cons in Hnd as [Hp Hnd]. destruct (Hin p) as [x Hx]; [left|]. apply run_bind. eapply run_destroy; [done|].
  apply IH; [done| |].
  - intros q Hq. destruct (Hin q) as [y Hy]; [by right|]. exists y. rewrite lookup_delete_ne; [done|]. by intros ->.
  - cbn in HQ. replace (foldr _ (delete p m) ps) with (delete p (foldr (fun p m => delete p m) m ps)); [done|].
    clear. induction ps as [|q ps IH]; [done|]. cbn. by rewrite delete_delete, IH.
Qed.

(** ** Loops over the items of several objects *)

Fixpoint zip_items (f : Z -> Z -> Z -> Z * Z) (la lb : list Z) (carry : Z) : list Z * Z :=
  match la, lb with
  | va :: la, vb :: lb =>
    let '(v, c) := f va vb carry in
    let '(l, c) := zip_items f la lb c in (v :: l, c)
  | _, _ => ([], carry)
  end.

Lemma length_zip_items f la lb c : length la = length lb -> length (zip_items f la lb c).1 = length la.
Proof using HM.
  revert lb c. induction la as [|va la IH]; intros [|vb lb] c E; try done. cbn. destruct (f va vb c) as [v c'].
  specialize (IH lb c' ltac:(by injection E)). destruct (zip_items f la lb c') as [l c'']. cbn in *. by rewrite IH.
Qed.

Lemma run_item_loop f r a b n i c m xr xa xb Q :
  m !! r = Some xr -> m !! a = Some xa -> m !! b = Some xb ->
  (i + n <= length (items xr))%nat -> length (drop i (items xa)) = n -> length (drop i (items xb)) = n ->
  (let '(l, c') := zip_items f (drop i (items xa)) (drop i (items xb)) c in
   Q ((i + n)%nat, c') (<[r := mk_bigint (take i (items xr) ++ l ++ drop (i + n) (items xr)) (sign xr) (neged_with_sign xr)]> m)) ->
  run (item_loop f (Some r) (Some a) (Some b) n i c) m Q.
Proof using HM.
  revert i c m xr xa xb. induction n as [|n IH]; intros i c m xr xa xb Hr Ha Hb Hn Hla Hlb HQ; cbn [item_loop].
  - apply nil_length_inv in Hla as Ela. rewrite Ela in HQ. cbn in HQ. apply run_ret. rewrite Nat.add_0_r, take_drop in HQ.
    rewrite insert_id in HQ; [done|by destruct xr].
  - rewrite length_drop in Hla, Hlb. step_load. step_load.
    destruct (lookup_lt_is_Some_2 (items xa) i) as [va Hva]; [lia|]. destruct (lookup_lt_is_Some_2 (items xb) i) as [vb Hvb]; [lia|].
    rewrite Hva, Hvb. rewrite (drop_S _ _ _ Hva), (drop_S _ _ _ Hvb) in HQ. cbn [zip_items] in HQ.
    destruct (f va vb c) as [v c']. apply run_bind. eapply run_set_item; [done|lia|].
    set (m' := <[r := _]> m). assert (forall q xq, m !! q = Some xq -> exists xq', m' !! q = Some xq' /\ drop (S i) (items xq') = drop (S i) (items xq)) as Hfr.
    { intros q xq Hq. destruct (decide (q = r)) as [->|].
      - eexists. split; [apply lookup_insert_eq|]. cbn [items]. rewrite drop_insert_lt by lia. congruence.
      - exists xq. split; [|done]. unfold m'. by rewrite lookup_insert_ne. }
    destruct (Hfr a xa Ha) as (xa' & Ha' & Ea). destruct (Hfr b xb Hb) as (xb' & Hb' & Eb).
    eapply (IH (S i) c' m' _ xa' xb'); [apply lookup_insert_eq|done|done|cbn [items]; rewrite length_insert; lia|rewrite Ea, length_drop; lia|rewrite Eb, length_drop; lia|].
    rewrite Ea, Eb. destruct (zip_items f (drop (S i) (items xa)) (drop (S i) (items xb)) c') as [l c'']. unfold m'. rewrite insert_insert_eq.
    cbn [items sign neged_with_sign]. rewrite (take_S_r _ _ v) by (apply list_lookup_insert_eq; lia).
    rewrite take_insert_ge by lia. rewrite drop_insert_lt by lia. replace (S i + n)%nat with (i + S n)%nat by lia.
    rewrite <- app_assoc. done.
Qed.
End Memory.
