(* ===== verification/BigIntSum.v ===== *)
(** * Big integers: addition and subtraction

    The objects of a store are seen as their signs and values ([view]).  An
    operation writes one object, and may change the representation of the others
    ([frame]): the aliasing of the operands of [bigint_add] and [bigint_sub] needs
    no case of its own. *)

From S2P Require Import Prelude BigInt BigIntDigits BigIntTheory BigIntRun.

(** ** Carries and borrows *)

Lemma add_item_spec va vb c : item_ok va -> item_ok vb -> 0 <= c <= 1 ->
  add_item va vb c = ((va + vb + c) mod base, (va + vb + c) / base) /\ 0 <= (va + vb + c) / base <= 1.
Proof.
  intros [Ha1 Ha2] [Hb1 Hb2] Hc. unfold add_item. rewrite land_max, shiftr_item, u64_small by (unfold base in *; lia).
  split; [done|]. split; [apply Z.div_pos; [lia|done]|]. apply Z.lt_succ_r, Z.div_lt_upper_bound; [done|]. unfold base in *. lia.
Qed.

Lemma sub_item_spec va vb c : item_ok va -> item_ok vb -> 0 <= c <= 1 ->
  sub_item va vb c = ((va - vb - c) mod base, if va - vb - c <? 0 then 1 else 0).
Proof.
  intros [Ha1 Ha2] [Hb1 Hb2] Hc. unfold sub_item. rewrite !land_max, max_base.
  assert (forall k, 0 <= k -> va - vb - c + k * base < 2 ^ 64 -> 0 <= va - vb - c + k * base ->
    u64 (va - vb - c + k * base) mod base = (va - vb - c) mod base) as Hmod.
  { intros k Hk H1 H2. rewrite u64_small by lia. by rewrite Z_mod_plus_full. }
  destruct (Z.eqb_spec c 0) as [->|Hc0]; [|assert (c = 1) as -> by lia]; cbn [negb andb].
  - destruct (Z.ltb_spec va vb); destruct (Z.ltb_spec (va - vb - 0) 0); try lia; f_equal.
    + rewrite <- (Hmod 1) by (unfold base in *; lia). do 2 f_equal. lia.
    + rewrite <- (Hmod 0) by (unfold base in *; lia). do 2 f_equal. lia.
  - destruct (Z.eqb_spec va 0) as [->|Hva]; cbn [negb].
    + destruct (Z.ltb_spec (base - 1) vb); [unfold base in *; lia|]. destruct (Z.ltb_spec (0 - vb - 1) 0); [|lia]. f_equal.
      rewrite <- (Hmod 1) by (unfold base in *; lia). do 2 f_equal. lia.
    + destruct (Z.ltb_spec (va - 1) vb); destruct (Z.ltb_spec (va - vb - 1) 0); try lia; f_equal.
      * rewrite <- (Hmod 1) by (unfold base in *; lia). do 2 f_equal. lia.
      * rewrite <- (Hmod 0) by (unfold base in *; lia). do 2 f_equal. lia.
Qed.

(** The sum of two chains of one length. *)
Lemma zip_add la lb c : length la = length lb -> Forall item_ok la -> Forall item_ok lb -> 0 <= c <= 1 ->
  let '(l, c') := zip_items add_item la lb c in
  Forall item_ok l /\ 0 <= c' <= 1 /\ digits l + c' * size (length la) = digits la + digits lb + c.
Proof.
  revert lb c. induction la as [|va la IH]; intros [|vb lb] c E Ha Hb Hc; try done.
  { cbn. rewrite size_0. split_and!; [done|lia..]. }
  apply Forall_cons in Ha as [Hva Ha]. apply Forall_cons in Hb as [Hvb Hb]. cbn [zip_items].
  destruct (add_item_spec va vb c Hva Hvb Hc) as [-> Hc']. specialize (IH lb _ ltac:(by injection E) Ha Hb Hc').
  destruct (zip_items add_item la lb _) as [l c'']. destruct IH as (Hl & Hc'' & IH). split_and!; [|lia..|].
  - constructor; [apply item_ok_mod|done].
  - cbn [digits length]. rewrite size_S. pose proof (Z.div_mod (va + vb + c) base ltac:(done)). nia.
Qed.

(** The difference; [c'] is the last borrow. *)
Lemma zip_sub la lb c : length la = length lb -> Forall item_ok la -> Forall item_ok lb -> 0 <= c <= 1 ->
  let '(l, c') := zip_items sub_item la lb c in
  Forall item_ok l /\ 0 <= c' <= 1 /\ digits l - c' * size (length la) = digits la - digits lb - c.
Proof.
  revert lb c. induction la as [|va la IH]; intros [|vb lb] c E Ha Hb Hc; try done.
  { cbn. rewrite size_0. split_and!; [done|lia..]. }
  apply Forall_cons in Ha as [Hva Ha]. apply Forall_cons in Hb as [Hvb Hb]. cbn [zip_items].
  rewrite (sub_item_spec va vb c Hva Hvb Hc).
  set (c1 := if va - vb - c <? 0 then 1 else 0).
  assert (0 <= c1 <= 1 /\ (va - vb - c) mod base - base * c1 = va - vb - c) as [Hc1 E1].
  { unfold c1, item_ok in *. destruct (Z.ltb_spec (va - vb - c) 0).
    - split; [lia|]. rewrite <- (Z_mod_plus_full _ 1), Z.mod_small; lia.
    - split; [lia|]. rewrite Z.mod_small; lia. }
  specialize (IH lb c1 ltac:(by injection E) Ha Hb Hc1).
  destruct (zip_items sub_item la lb _) as [l c'']. destruct IH as (Hl & Hc'' & IH). split_and!; [|lia..|].
  - constructor; [apply item_ok_mod|done].
  - cbn [digits length]. rewrite size_S. nia.
Qed.

(** ** The values of the objects *)

Definition view (m : objects) : gmap loc (Z * Z) := (fun x => (sign x, value x)) <$> m.
Definition all_valid (m : objects) : Prop := map_Forall (fun _ x => valid x) m.

Lemma view_lookup m p x : m !! p = Some x -> view m !! p = Some (sign x, value x).
Proof. intros Hp. unfold view. by rewrite lookup_fmap, Hp. Qed.

Lemma view_lookup_inv m p z v : view m !! p = Some (z, v) -> exists x, m !! p = Some x /\ sign x = z /\ value x = v.
Proof. unfold view. rewrite lookup_fmap, fmap_Some. intros (x & Hx & [= -> ->]). eauto. Qed.

(** The objects other than [r] have the values they had in [m0], and no fewer
    items. *)
Definition frame (r : loc) (m m0 : objects) : Prop :=
  forall p, p <> r ->
  match m0 !! p, m !! p with
  | Some x, Some y => same x y /\ (length (items x) <= length (items y))%nat
  | None, None => True
  | _, _ => False
  end.

Lemma frame_start r m : all_valid m -> frame r m m.
Proof. intros Hm p _. destruct (m !! p) as [x|] eqn:E; [|done]. split; [|done]. by apply same_refl, (Hm p). Qed.

Lemma frame_valid r m m0 p x : frame r m m0 -> p <> r -> m !! p = Some x -> valid x.
Proof. intros Hf Hp Hx. specialize (Hf p Hp). rewrite Hx in Hf. destruct (m0 !! p); [|done]. by destruct Hf as [[]]. Qed.

Lemma frame_update r m m0 p x y : frame r m m0 -> m !! p = Some x ->
  (p <> r -> valid x -> same x y /\ (length (items x) <= length (items y))%nat) -> frame r (<[p := y]> m) m0.
Proof.
  intros Hf Hp Hs q Hq. pose proof (Hf q Hq) as Hfq. destruct (decide (p = q)) as [->|Hne]; [|by rewrite lookup_insert_ne].
  destruct (Hs Hq (frame_valid _ _ _ _ _ Hf Hq Hp)) as [Hxy Hlen]. rewrite lookup_insert_eq. rewrite Hp in Hfq.
  destruct (m0 !! q) as [z|]; [|done]. destruct Hfq as [Hzx Hl]. split; [by eapply same_trans|lia].
Qed.

Lemma frame_finish r m m0 x : frame r m m0 -> valid x ->
  all_valid (<[r := x]> m) /\ view (<[r := x]> m) = <[r := (sign x, value x)]> (view m0) /\ frame r (<[r := x]> m) m0.
Proof.
  intros Hf Hx. split_and!.
  - intros p y. destruct (decide (r = p)) as [->|]; [rewrite lookup_insert_eq; by intros [= <-]|].
    rewrite lookup_insert_ne by done. apply (frame_valid r m m0); [done|congruence].
  - unfold view. rewrite fmap_insert. apply map_eq. intros p. destruct (decide (r = p)) as [->|]; [by rewrite !lookup_insert_eq|].
    rewrite !lookup_insert_ne, !lookup_fmap by done. specialize (Hf p ltac:(congruence)).
    destruct (m0 !! p), (m !! p); [|done..]. destruct Hf as [[_ Es Ev] _]. cbn. congruence.
  - intros p Hp. rewrite lookup_insert_ne by done. by apply Hf.
Qed.

(** A representation is changed, values are not. *)
Lemma view_update m p x y : all_valid m -> m !! p = Some x -> same x y -> all_valid (<[p := y]> m) /\ view (<[p := y]> m) = view m.
Proof.
  intros Hm Hp [Hy Es Ev]. destruct (frame_finish p m m y) as (H1 & H2 & _); [by apply frame_start|done|].
  split; [done|]. rewrite H2, Es, Ev. apply insert_id. by apply view_lookup.
Qed.

(** A property of the object at [q], kept by a change of the object at [p]. *)
Definition object_at (m : objects) (q : loc) (P : bigint_t -> Prop) : Prop := exists x, m !! q = Some x /\ P x.

Lemma object_update m p q x y (P : bigint_t -> Prop) :
  object_at m q P -> m !! p = Some x -> (q = p -> P x -> P y) -> object_at (<[p := y]> m) q P.
Proof.
  intros (z & Hz & HP) Hp Hy. destruct (decide (q = p)) as [->|].
  - exists y. rewrite lookup_insert_eq. split; [done|]. apply Hy; [done|]. congruence.
  - exists z. by rewrite lookup_insert_ne.
Qed.

Lemma object_impl m q (P R : bigint_t -> Prop) : object_at m q P -> (forall x, P x -> R x) -> object_at m q R.
Proof. intros (x & Hx & HP) HR. exists x. auto. Qed.

(** An operand in two's complement, of [l] or of [n] items. *)
Record operand (s v : Z) (l n : nat) (x : bigint_t) : Prop := {
  operand_valid : valid x;
  operand_sign : sign x = s;
  operand_value : value x = v;
  operand_neged : s = -1 -> neged_with_sign x = true;
  operand_length : length (items x) = l \/ length (items x) = n;
}.

Lemma operand_complement s v l n x : valid x -> sign x = s -> value x = v -> length (items x) = l -> operand s v l n (to_complement x).
Proof.
  intros Hx Hs Hv Hl. destruct (to_complement_same x Hx) as [H1 H2 H3]. split; [done|congruence|congruence| |].
  - intros ->. by apply to_complement_neged.
  - left. by rewrite length_to_complement.
Qed.

Lemma operand_complement_id s v l n x : operand s v l n x -> to_complement x = x.
Proof.
  intros [Hx Hs _ Hn _]. destruct (valid_sign x Hx) as [E|[E|E]]; [apply to_complement_pos; lia..|].
  apply to_complement_id, Hn. congruence.
Qed.

Lemma operand_extend s v l n x : (l <= n)%nat -> operand s v l n x -> operand s v n n (extend n x).
Proof.
  intros Hln [Hx Hs Hv Hn Hl]. destruct (extend_same n x Hx) as [H1 H2 H3]. split; [done|congruence|congruence| |].
  - intros Hs'. apply extend_neged; [congruence|auto].
  - rewrite length_extend. lia.
Qed.

(** The items of an operand of [n] items. *)
Definition chain (n : nat) (d : Z) (x : bigint_t) : Prop :=
  Forall item_ok (items x) /\ length (items x) = n /\ digits (items x) = d.

Lemma operand_chain s v n x : s <> 0 -> operand s v n n x -> chain n (raw n v) x.
Proof.
  intros Hs0 [Hx Hs Hv Hn Hl]. split_and!; [apply Hx|lia|]. rewrite <- Hv. apply raw_digits; [done|lia| |congruence].
  intros E. apply Hn. congruence.
Qed.

(** ** Bounds *)

Lemma sign_cases x : valid x -> sign x <> 0 -> (sign x = 1 \/ sign x = -1) /\ (sign x = 1 <-> 0 <= value x).
Proof.
  intros Hx Hs. destruct (valid_sign x Hx) as [E|[E|E]]; [done| |].
  - pose proof (value_nonneg x Hx E). lia.
  - pose proof (value_negative x Hx E). lia.
Qed.

Lemma value_bound x : valid x -> - size (length (items x)) <= value x < size (length (items x)).
Proof.
  intros Hx. pose proof (digits_bound _ (valid_items x Hx)). unfold value.
  destruct (sign x =? 0); [lia|]. destruct (0 <? sign x); [lia|]. destruct (neged_with_sign x); lia.
Qed.

Lemma strip_zeros_zeros l n : strip_zeros (l ++ replicate n 0) = strip_zeros l.
Proof.
  unfold strip_zeros. f_equal. rewrite reverse_app, reverse_replicate. induction n as [|n IH]; [done|]. exact IH.
Qed.

Lemma normalize_zeros l n s f : normalize (mk_bigint (l ++ replicate n 0) s f) = normalize (mk_bigint l s f).
Proof. unfold normalize. cbn [items sign neged_with_sign]. by rewrite strip_zeros_zeros. Qed.

(** The result of a sum or difference of chains of [n] items, written to an
    object with items to spare. *)
Lemma finish_positive l s n f : Forall item_ok l -> s = 1 ->
  let x := normalize (mk_bigint (l ++ replicate n 0) s f) in
  valid x /\ sign x = Z.sgn (digits l) /\ value x = digits l.
Proof.
  intros Hl -> x. unfold x. rewrite normalize_zeros.
  destruct (normalize_correct (mk_bigint l 1 f)) as (H1 & H2 & H3).
  { split_and!; [done|by left|done]. }
  rewrite (value_pos (mk_bigint l 1 f)) in H3 by done. cbn [items] in H3. split_and!; [done| |done]. rewrite <- H3. exact H2.
Qed.

Lemma finish_negative l n : Forall item_ok l -> size (length l - 1) <= digits l ->
  let x := normalize (mk_bigint (l ++ replicate n 0) (-1) true) in
  valid x /\ sign x = Z.sgn (digits l - size (length l)) /\ value x = digits l - size (length l).
Proof.
  intros Hl Hd x. unfold x. rewrite normalize_zeros.
  destruct (normalize_correct (mk_bigint l (-1) true)) as (H1 & H2 & H3).
  { split_and!; [done|by right|done]. }
  rewrite (value_complement (mk_bigint l (-1) true)) in H3 by done. cbn [items] in H3. split_and!; [done| |done]. rewrite <- H3. exact H2.
Qed.

Lemma size_max l k : size (S (max l k) - 1) = size (max l k).
Proof. f_equal. lia. Qed.

(** ** Commands on values *)

(** [exec c v Q]: from objects with the signs and values [v]. *)
Definition exec {A} (c : M A) (v : gmap loc (Z * Z)) (Q : A -> gmap loc (Z * Z) -> Prop) : Prop :=
  forall m, all_valid m -> view m = v -> run c m (fun a m' => all_valid m' /\ Q a (view m')).

Definition sum_sign (sa sb v : Z) : Z := if sa =? 0 then sb else if sb =? 0 then sa else Z.sgn v.

Lemma sum_sign_normal va vb : sum_sign (Z.sgn va) (Z.sgn vb) (va + vb) = Z.sgn (va + vb).
Proof.
  unfold sum_sign. destruct (Z.eqb_spec (Z.sgn va) 0); [f_equal; lia|]. destruct (Z.eqb_spec (Z.sgn vb) 0); [f_equal; lia|done].
Qed.

Section Sums.
Context {HM : Machine} {HP : Plenty HM}.

(** The copy of an object. *)
Lemma exec_set_bigint p q v z y Q :
  v !! p = Some z -> v !! q = Some y -> Q 0 (<[p := y]> v) -> exec (bigint_set_bigint (Some p) (Some q)) v Q.
Proof using HM HP.
  intros Hp Hq HQ m Hm <-. destruct z as [z1 z2], y as [y1 y2].
  apply view_lookup_inv in Hp as (x & Hp & _ & _). apply view_lookup_inv in Hq as (y & Hq & Es & Ev).
  pose proof (Hm q y Hq) as Hy. eapply run_set_bigint; [done|done|by apply valid_copyable|].
  destruct (frame_finish p m m y) as (H1 & H2 & _); [by apply frame_start|done|]. split; [done|]. by rewrite H2, Es, Ev.
Qed.

Lemma to_complement_step x : valid x -> same x (to_complement x) /\ (length (items x) <= length (items (to_complement x)))%nat.
Proof using. intros Hx. rewrite length_to_complement. split; [by apply to_complement_same|done]. Qed.

Lemma extend_step n x : valid x -> same x (extend n x) /\ (length (items x) <= length (items (extend n x)))%nat.
Proof using. intros Hx. rewrite length_extend. split; [by apply extend_same|lia]. Qed.

(** What the two operations share: both operands are put into two's complement
    and become chains of [n] items. *)
Lemma run_operands a b m xa xb (Q : Z -> objects -> Prop) (k : M Z) r m0 :
  frame r m m0 -> m !! a = Some xa -> m !! b = Some xb ->
  (a = r -> valid xa) -> (b = r -> valid xb) ->
  (forall m', frame r m' m0 -> (forall P, (forall x, P x -> P (to_complement x)) -> object_at m r P -> object_at m' r P) ->
    object_at m' a (operand (sign xa) (value xa) (length (items xa)) (length (items xa))) ->
    object_at m' b (operand (sign xb) (value xb) (length (items xb)) (length (items xb))) -> run k m' Q) ->
  run (or_fail (if sign xa <? 0 then bigint_neg_with_sign (Some a) (Some a) false else mret 0) (mret (-1)) (
       xb ← load (Some b);
       or_fail (if sign xb <? 0 then bigint_neg_with_sign (Some b) (Some b) false else mret 0) (mret (-1)) k)) m Q.
Proof using HM.
  intros Hf Ha Hb Hva Hvb Hk. assert (valid xa) as Hxa by (destruct (decide (a = r)); [auto|by eapply frame_valid]).
  assert (valid xb) as Hxb by (destruct (decide (b = r)); [auto|by eapply frame_valid]).
  apply run_or_fail. eapply run_complement; [done|]. split; [done|].
  assert (object_at (<[a := to_complement xa]> m) a (operand (sign xa) (value xa) (length (items xa)) (length (items xa)))) as Oa.
  { eexists. split; [apply lookup_insert_eq|]. by apply operand_complement. }
  assert (exists yb, <[a := to_complement xa]> m !! b = Some yb /\ valid yb /\ sign yb = sign xb /\ value yb = value xb /\ length (items yb) = length (items xb)) as (yb & Hyb & Vyb & Syb & Wyb & Lyb).
  { destruct (decide (a = b)) as [<-|].
    - assert (xb = xa) as -> by congruence. exists (to_complement xa). rewrite lookup_insert_eq.
      destruct (to_complement_same xa Hxa). split_and!; [done..|]. apply length_to_complement.
    - exists xb. by rewrite lookup_insert_ne. }
  step_load. apply run_or_fail. eapply run_complement; [exact Hyb|]. split; [done|]. apply Hk.
  - eapply frame_update; [|exact Hyb|by intros; apply to_complement_step].
    eapply frame_update; [done|exact Ha|by intros; apply to_complement_step].
  - intros P HP' HO. eapply object_update; [|exact Hyb|auto]. eapply object_update; [done|exact Ha|auto].
  - eapply object_update; [exact Oa|exact Hyb|]. intros _ HO. by rewrite (operand_complement_id _ _ _ _ _ HO).
  - eexists. split; [apply lookup_insert_eq|]. rewrite <- Syb, <- Wyb, <- Lyb. by apply operand_complement.
Qed.

(** An operand, or the items of one. *)
Definition operand_or_chain (s v : Z) (l n : nat) (x : bigint_t) : Prop := operand s v l n x \/ chain n (raw n v) x.

Lemma operand_weaken s v l n x : operand s v l l x -> operand s v l n x.
Proof using. intros [? ? ? ? []]; split; auto. Qed.

Lemma chain_extend n d x : chain n d x -> chain n d (extend n x).
Proof using. intros (H1 & H2 & H3). by rewrite extend_longer by lia. Qed.

Lemma operand_chain_extend s v l n x : (l <= n)%nat -> s <> 0 -> operand_or_chain s v l n x -> chain n (raw n v) (extend n x).
Proof using.
  intros Hl Hs [Ho|Hc]; [|by apply chain_extend]. eapply operand_chain; [done|]. by eapply operand_extend.
Qed.

Lemma run_extend_operands a b n r m0 m sa va la sb vb lb (k : M Z) Q :
  frame r m m0 -> object_at m a (operand_or_chain sa va la n) -> object_at m b (operand_or_chain sb vb lb n) ->
  (la <= n)%nat -> (lb <= n)%nat -> sa <> 0 -> sb <> 0 ->
  (forall m', frame r m' m0 -> object_at m' a (chain n (raw n va)) -> object_at m' b (chain n (raw n vb)) ->
    (forall P : bigint_t -> Prop, (forall x, P x -> P (extend n x)) -> object_at m r P -> object_at m' r P) -> run k m' Q) ->
  run (or_fail (bigint_sign_extend (Some a) n) (mret (-1)) (or_fail (bigint_sign_extend (Some b) n) (mret (-1)) k)) m Q.
Proof using HM HP.
  intros Hf Oa Ob Hla Hlb Hsa Hsb Hk. destruct Oa as (xa & Ha & Oa).
  apply run_or_fail. eapply run_sign_extend; [done|]. split; [done|].
  set (m1 := <[a := extend n xa]> m). assert (frame r m1 m0) as Hf1.
  { eapply frame_update; [done|exact Ha|]. intros _. apply extend_step. }
  assert (object_at m1 a (chain n (raw n va))) as Ca.
  { eexists. split; [apply lookup_insert_eq|]. exact (operand_chain_extend _ _ _ _ _ Hla Hsa Oa). }
  assert (object_at m1 b (operand_or_chain sb vb lb n)) as Ob1.
  { eapply object_update; [done|exact Ha|]. intros _ HO. right. exact (operand_chain_extend _ _ _ _ _ Hlb Hsb HO). }
  destruct Ob1 as (xb & Hb & Ob1). apply run_or_fail. eapply run_sign_extend; [done|]. split; [done|]. apply Hk.
  - eapply frame_update; [done|exact Hb|]. intros _. apply extend_step.
  - eapply object_update; [done|exact Hb|]. intros _. apply chain_extend.
  - eexists. split; [apply lookup_insert_eq|]. exact (operand_chain_extend _ _ _ _ _ Hlb Hsb Ob1).
  - intros P HP' HO. eapply object_update; [|exact Hb|auto]. eapply object_update; [done|exact Ha|auto].
Qed.

(** The result of the addition, from the chains of the operands. *)
Lemma add_result sa va sb vb la lb l c k f (x := fun s f => normalize (mk_bigint (l ++ replicate k 0) s f)) :
  (sa = 1 \/ sa = -1) -> (sb = 1 \/ sb = -1) ->
  (sa = 1 <-> 0 <= va) -> (sb = 1 <-> 0 <= vb) -> - size la <= va < size la -> - size lb <= vb < size lb ->
  Forall item_ok l -> length l = S (max la lb) -> 0 <= c <= 1 ->
  digits l + c * size (length l) = raw (length l) va + raw (length l) vb ->
  let res := fun y : bigint_t => valid y /\ sign y = Z.sgn (va + vb) /\ value y = va + vb in
  if (sa <? 0) && (sb <? 0) then c = 1 /\ res (x (-1) true)
  else if (sa <? 0) || (sb <? 0) then (if c =? 0 then res (x (-1) true) else res (x 1 false))
  else c = 0 /\ res (x 1 f).
Proof using.
  intros Hsa Hsb Ea Eb Ba Bb Hl Hlen Hc Hsum. unfold raw in Hsum. rewrite Hlen in Hsum.
  pose proof (size_mono la (max la lb) ltac:(lia)). pose proof (size_mono lb (max la lb) ltac:(lia)).
  pose proof (size_S (max la lb)) as HS. pose proof (digits_bound _ Hl) as Hb. rewrite Hlen in Hb.
  pose proof (size_pos (max la lb)). assert (4 * size (max la lb) <= size (S (max la lb))) by (rewrite HS; unfold base; lia).
  assert (forall s f, s = 1 -> digits l = va + vb -> valid (x s f) /\ sign (x s f) = Z.sgn (va + vb) /\ value (x s f) = va + vb) as Hpos.
  { intros s g Hs <-. by apply finish_positive. }
  assert (digits l = va + vb + size (S (max la lb)) -> va + vb < 0 -> valid (x (-1) true) /\ sign (x (-1) true) = Z.sgn (va + vb) /\ value (x (-1) true) = va + vb) as Hneg.
  { intros Hd Hlt. destruct (finish_negative l k Hl) as (H3 & H4 & H5).
    - rewrite Hlen, size_max. lia.
    - rewrite Hlen, Hd in H4, H5. fold (x (-1) true) in H3, H4, H5. split_and!; [done| |]; rewrite ?H4, ?H5; [f_equal|]; lia. }
  destruct Hsa as [-> | ->], Hsb as [-> | ->]; cbn -[Z.mul Z.add Z.sub];
    destruct (Z.ltb_spec va 0); destruct (Z.ltb_spec vb 0); try lia.
  - assert (c = 0) as -> by nia. split; [done|]. apply Hpos; lia.
  - destruct (Z.eqb_spec c 0) as [->|]; [apply Hneg; lia|]. assert (c = 1) as -> by lia. apply Hpos; lia.
  - destruct (Z.eqb_spec c 0) as [->|]; [apply Hneg; lia|]. assert (c = 1) as -> by lia. apply Hpos; lia.
  - assert (c = 1) as -> by nia. split; [done|]. apply Hneg; lia.
Qed.


(** The last steps: the object [r] is normalized. *)
Lemma run_finish r m0 m x Q res :
  frame r m m0 -> valid (normalize x) -> sign (normalize x) = Z.sgn res -> value (normalize x) = res ->
  (forall m', all_valid m' -> view m' = <[r := (Z.sgn res, res)]> (view m0) -> frame r m' m0 -> Q 0 m') ->
  run (or_fail (bigint_remove_leading_zeros (Some r)) (mret (-1)) (mret 0)) (<[r := x]> m) Q.
Proof using HM.
  intros Hf F1 F2 F3 HQ. apply run_or_fail. eapply run_normalize; [apply lookup_insert_eq|]. split; [done|].
  apply run_ret. rewrite insert_insert_eq. destruct (frame_finish r m m0 _ Hf F1) as (G1 & G2 & G3). apply HQ; [done| |done]. by rewrite G2, F2, F3.
Qed.

Lemma run_add_items r a b m0 m sa va la sb vb lb (n := S (max la lb)) Q
  (sgn := if (sa <? 0) && (sb <? 0) then -1 else if (sa <? 0) || (sb <? 0) then -2 else 1) :
  frame r m m0 -> object_at m a (operand_or_chain sa va la n) -> object_at m b (operand_or_chain sb vb lb n) ->
  (r = a \/ object_at m r (fun x => n <= length (items x))%nat) ->
  (sa = 1 \/ sa = -1) /\ (sa = 1 <-> 0 <= va) -> (sb = 1 \/ sb = -1) /\ (sb = 1 <-> 0 <= vb) ->
  - size la <= va < size la -> - size lb <= vb < size lb ->
  (forall m', all_valid m' -> view m' = <[r := (Z.sgn (va + vb), va + vb)]> (view m0) -> frame r m' m0 -> Q 0 m') ->
  run (add_items (Some r) (Some a) (Some b) sgn n) m Q.
Proof using HM HP.
  intros Hf2 Ka Kb Hlr [S1 S2] [S3 S4] Ba Bb HQ. unfold add_items.
  eapply run_extend_operands; [exact Hf2|exact Ka|exact Kb|lia|lia|lia|lia|]. intros m3 Hf3 Ca Cb Hr3.
  assert (object_at m3 r (fun x => n <= length (items x))%nat) as (y & Hy & Ly).
  { destruct Hlr as [->|HO]; [eapply object_impl; [exact Ca|]; intros x (_ & -> & _); lia|].
    apply Hr3; [|done]. intros x. rewrite length_extend. lia. }
  destruct Ca as (ya & Hya & Fa & La & Da). destruct Cb as (yb & Hyb & Fb & Lb & Db).
  step run_count. rewrite La. apply run_bind.
  eapply run_item_loop; [exact Hy|exact Hya|exact Hyb|lia|done|done|]. rewrite !drop_0.
  pose proof (zip_add (items ya) (items yb) 0 ltac:(lia) Fa Fb ltac:(lia)) as Hz.
  pose proof (length_zip_items add_item (items ya) (items yb) 0 ltac:(lia)) as Hzl.
  destruct (zip_items add_item (items ya) (items yb) 0) as [l c]. destruct Hz as (Hl & Hc & Hsum). cbn [fst] in Hzl.
  rewrite La, Da, Db in *. cbn [Nat.add]. rewrite take_0. cbn [app]. step run_zero_items. rewrite take_app_length' by lia.
  rewrite length_app, length_drop, Hzl. set (j := (n + (length (items y) - n) - n)%nat). rewrite <- Hzl in Hsum.
  pose proof (add_result sa va sb vb la lb l c j (neged_with_sign y) S1 S3 S2 S4 Ba Bb Hl Hzl Hc ltac:(lia)) as Hres. cbv zeta in Hres.
  unfold sgn. destruct (sa <? 0), (sb <? 0); cbn [andb orb] in Hres; cbn [andb orb Z.eqb Pos.eqb negb].
  - destruct Hres as [-> (F1 & F2 & F3)]. cbn [Z.eqb Pos.eqb negb]. apply run_bind.
    step run_set_sign. step run_set_neged. step run_set_sign. apply run_ret. by eapply run_finish.
  - apply run_bind. destruct (c =? 0), Hres as (F1 & F2 & F3); cbn [negb];
      step run_set_sign; step run_set_neged; apply run_ret; by eapply run_finish.
  - apply run_bind. destruct (c =? 0), Hres as (F1 & F2 & F3); cbn [negb];
      step run_set_sign; step run_set_neged; apply run_ret; by eapply run_finish.
  - destruct Hres as [-> (F1 & F2 & F3)]. cbn [Z.eqb Pos.eqb negb]. apply run_bind. step run_set_sign. apply run_ret. by eapply run_finish.
Qed.

Lemma run_set_bigint_view p q m x y Q :
  all_valid m -> m !! p = Some x -> m !! q = Some y ->
  (forall m', all_valid m' -> view m' = <[p := (sign y, value y)]> (view m) -> frame p m' m -> Q 0 m') ->
  run (bigint_set_bigint (Some p) (Some q)) m Q.
Proof using HM HP.
  intros Hm Hp Hq HQ. assert (valid y) as Hy by by apply (Hm q). eapply run_set_bigint; [done|done|by apply valid_copyable|].
  destruct (frame_finish p m m y) as (H1 & H2 & H3); [by apply frame_start|done|]. by apply HQ.
Qed.

Lemma run_add r a b m xr xa xb Q :
  all_valid m -> m !! r = Some xr -> m !! a = Some xa -> m !! b = Some xb ->
  (forall m', all_valid m' ->
    view m' = <[r := (sum_sign (sign xa) (sign xb) (value xa + value xb), value xa + value xb)]> (view m) -> frame r m' m -> Q 0 m') ->
  run (bigint_add (Some r) (Some a) (Some b)) m Q.
Proof using HM HP.
  intros Hm Hr Ha Hb HQ. unfold bigint_add. cbn [is_null orb]. step_load. unfold sum_sign in HQ.
  assert (valid xa) as Hxa by by apply (Hm a). assert (valid xb) as Hxb by by apply (Hm b).
  destruct (Z.eqb_spec (sign xa) 0) as [E|Hsa0].
  { eapply run_set_bigint_view; [done..|]. rewrite (value_zero xa) in HQ by done. done. }
  step_load. destruct (Z.eqb_spec (sign xb) 0) as [E|Hsb0].
  { rewrite (value_zero xb), Z.add_0_r in HQ by done. case_bool_decide as Era; [|by eapply run_set_bigint_view].
    injection Era as ->. apply run_ret. apply HQ; [done| |by apply frame_start]. rewrite insert_id; [done|]. by apply view_lookup. }
  eapply (run_operands a b m xa xb _ _ r m); [by apply frame_start|done..|].
  intros m1 Hf1 Hr1 Oa Ob. assert (object_at m1 r (fun _ => True)) as (xr1 & Hmr1 & _) by (apply Hr1; [done|by exists xr]).
  pose proof (sign_cases xa Hxa Hsa0) as Ca. pose proof (sign_cases xb Hxb Hsb0) as Cb.
  pose proof (value_bound xa Hxa) as Ba. pose proof (value_bound xb Hxb) as Bb.
  destruct Oa as (ya & Hya & Oa). destruct Ob as (yb & Hyb & Ob). step_load. step_load.
  rewrite (operand_sign _ _ _ _ _ Oa), (operand_sign _ _ _ _ _ Ob).
  assert (length (items ya) = length (items xa)) as -> by by destruct (operand_length _ _ _ _ _ Oa).
  assert (length (items yb) = length (items xb)) as -> by by destruct (operand_length _ _ _ _ _ Ob).
  set (n := S (max (length (items xa)) (length (items xb)))).
  apply (operand_weaken _ _ _ n) in Oa. apply (operand_weaken _ _ _ n) in Ob. apply run_or_fail. case_bool_decide as Era.
  - injection Era as ->. apply run_ret. split; [done|].
    eapply run_add_items; [done|exists ya; split; [done|by left]|exists yb; split; [done|by left]|by left|done..].
  - assert (r <> a) as Hra by congruence. apply run_or_fail. eapply run_sign_extend; [done|]. split; [done|].
    step run_set_sign. apply run_ret. split; [done|].
    eapply run_add_items; [by eapply frame_update|exists ya; rewrite lookup_insert_ne by done; split; [done|by left]| | |done..].
    + destruct (decide (r = b)) as [->|]; [|exists yb; rewrite lookup_insert_ne by done; split; [done|by left]].
      eexists. rewrite lookup_insert_eq. split; [done|]. right. assert (xr1 = yb) as -> by congruence.
      apply (operand_chain_extend (sign xb) (value xb) (length (items xb)) n yb); [lia|done|by left].
    + right. eexists. rewrite lookup_insert_eq. split; [done|]. cbn [items]. rewrite length_extend. lia.
Qed.

Lemma exec_add r a b v z sa va sb vb Q :
  v !! r = Some z -> v !! a = Some (sa, va) -> v !! b = Some (sb, vb) ->
  Q 0 (<[r := (sum_sign sa sb (va + vb), va + vb)]> v) -> exec (bigint_add (Some r) (Some a) (Some b)) v Q.
Proof using HM HP.
  intros Hr Ha Hb HQ m Hm <-. destruct z. apply view_lookup_inv in Hr as (xr & Hmr & _ & _).
  apply view_lookup_inv in Ha as (xa & Hma & <- & <-). apply view_lookup_inv in Hb as (xb & Hmb & <- & <-).
  eapply run_add; [done..|]. intros m' Hm' -> _. done.
Qed.

(** ** Subtraction *)

(** Differences [- d] whose two's complement begins with an item of zeros, which
    [bigint_remove_leading_zeros] takes away. *)
Definition loses_item (d : Z) : Prop := exists n, size (S n) - size n < d < size (S n).

Lemma sub_result va vb n l c k f (x := fun s f => normalize (mk_bigint (l ++ replicate k 0) s f)) :
  - size n <= va < size n -> - size n <= vb < size n -> (0 <= va <-> 0 <= vb) -> (0 < n)%nat ->
  vb <= va \/ ~ loses_item (vb - va) ->
  Forall item_ok l -> length l = n -> 0 <= c <= 1 -> digits l - c * size n = raw n va - raw n vb ->
  let res := fun y : bigint_t => valid y /\ sign y = Z.sgn (va - vb) /\ value y = va - vb in
  if c =? 0 then res (x 1 f) else res (x (-1) true).
Proof using.
  intros Ba Bb Es Hn Hd Hl Hlen Hc Hdiff. pose proof (digits_bound _ Hl) as Hb. rewrite Hlen in Hb.
  assert (digits l - c * size n = va - vb) as E.
  { rewrite Hdiff. unfold raw. destruct (Z.ltb_spec va 0); destruct (Z.ltb_spec vb 0); lia. }
  destruct (Z.eqb_spec c 0) as [->|]; cbv zeta.
  - rewrite <- E, Z.mul_0_l, Z.sub_0_r. by apply finish_positive.
  - assert (c = 1) as -> by lia. destruct (finish_negative l k Hl) as (H1 & H2 & H3).
    + destruct n as [|n]; [lia|]. rewrite Hlen. cbn [Nat.sub]. rewrite Nat.sub_0_r.
      destruct Hd as [|Hd]; [lia|]. destruct (Z.le_gt_cases (size n) (digits l)); [done|]. exfalso. apply Hd. exists n. lia.
    + rewrite Hlen in H2, H3. fold (x (-1) true) in *. split_and!; [done| |]; rewrite ?H2, ?H3; [f_equal|]; lia.
Qed.

Lemma run_sub_items r a b m0 m s va la vb lb (n := max la lb) Q :
  frame r m m0 -> object_at m a (operand_or_chain s va la n) -> object_at m b (operand_or_chain s vb lb n) ->
  object_at m r (fun _ => True) -> s <> 0 -> (0 < n)%nat -> (0 <= va <-> 0 <= vb) ->
  - size n <= va < size n -> - size n <= vb < size n -> vb <= va \/ ~ loses_item (vb - va) ->
  (forall m', all_valid m' -> view m' = <[r := (Z.sgn (va - vb), va - vb)]> (view m0) -> frame r m' m0 -> Q 0 m') ->
  run (sub_items (Some r) (Some a) (Some b) n) m Q.
Proof using HM HP.
  intros Hf2 Ka Kb Hr Hs Hn Es Ba Bb Hd HQ. unfold sub_items.
  eapply run_extend_operands; [exact Hf2|exact Ka|exact Kb|lia|lia|lia|lia|]. intros m3 Hf3 Ca Cb Hr3.
  destruct (Hr3 (fun _ => True)) as (y0 & Hy0 & _); [done|done|].
  assert (run (if bool_decide (Some a = Some r) then mret 0 else bigint_sign_extend (Some r) n) m3 (fun rc m4 =>
    rc = 0 /\ frame r m4 m0 /\ object_at m4 a (chain n (raw n va)) /\ object_at m4 b (chain n (raw n vb)) /\
    object_at m4 r (fun x => n <= length (items x))%nat)) as Hext.
  { case_bool_decide as E.
    - injection E as ->. apply run_ret. split_and!; [done..|]. eapply object_impl; [exact Ca|]. intros x (_ & -> & _). lia.
    - eapply run_sign_extend; [done|]. split_and!; [done|by eapply frame_update|..].
      + eapply object_update; [done|done|]. intros _. apply chain_extend.
      + eapply object_update; [done|done|]. intros _. apply chain_extend.
      + eexists. split; [apply lookup_insert_eq|]. rewrite length_extend. lia. }
  apply run_or_fail. eapply run_mono; [exact Hext|]. intros rc m4 (-> & Hf4 & (ya & Hya & Fa & La & Da) & (yb & Hyb & Fb & Lb & Db) & (y & Hy & Ly)).
  split; [done|]. step run_count. rewrite La. apply run_bind.
  eapply run_item_loop; [exact Hy|exact Hya|exact Hyb|lia|done|done|]. rewrite !drop_0.
  pose proof (zip_sub (items ya) (items yb) 0 ltac:(lia) Fa Fb ltac:(lia)) as Hz.
  pose proof (length_zip_items sub_item (items ya) (items yb) 0 ltac:(lia)) as Hzl.
  destruct (zip_items sub_item (items ya) (items yb) 0) as [l c]. destruct Hz as (Hl & Hc & Hdiff). cbn [fst] in Hzl.
  rewrite La, Da, Db in *. cbn [Nat.add]. rewrite take_0. cbn [app]. step run_zero_items. rewrite take_app_length' by lia.
  rewrite length_app, length_drop, Hzl. set (j := (n + (length (items y) - n) - n)%nat).
  pose proof (sub_result va vb n l c j (neged_with_sign y) Ba Bb Es Hn Hd Hl Hzl Hc ltac:(lia)) as Hres. cbv zeta in Hres.
  apply run_bind. destruct (c =? 0), Hres as (F1 & F2 & F3).
  - eapply run_set_sign; [lookup_obj|]. fold_stores. by eapply run_finish.
  - step run_set_sign. eapply run_set_neged; [lookup_obj|]. fold_stores. by eapply run_finish.
Qed.

(** The difference of two numbers of one sign, and of a number and zero. *)
Lemma exec_sub r a b v z sa va sb vb Q :
  v !! r = Some z -> v !! a = Some (sa, va) -> v !! b = Some (sb, vb) ->
  sa <> 0 -> sb = sa \/ sb = 0 -> vb <= va \/ ~ loses_item (vb - va) ->
  Q 0 (<[r := (if sb =? 0 then sa else Z.sgn (va - vb), va - vb)]> v) -> exec (bigint_sub (Some r) (Some a) (Some b)) v Q.
Proof using HM HP.
  intros Hr Ha Hb Hsa0 Hsb Hd HQ m Hm <-. unfold bigint_sub. cbn [is_null orb]. destruct z.
  apply view_lookup_inv in Hr as (xr & Hmr & _ & _). apply view_lookup_inv in Ha as (xa & Hma & <- & <-).
  apply view_lookup_inv in Hb as (xb & Hmb & <- & <-). step_load. destruct (Z.eqb_spec (sign xa) 0); [done|].
  assert (valid xa) as Hxa by by apply (Hm a). assert (valid xb) as Hxb by by apply (Hm b).
  step_load. destruct (Z.eqb_spec (sign xb) 0) as [E|Hsb0].
  { rewrite (value_zero xb), Z.sub_0_r in HQ by done. case_bool_decide as Era.
    - injection Era as ->. apply run_ret. split; [done|]. rewrite insert_id in HQ; [done|by apply view_lookup].
    - eapply run_set_bigint_view; [done..|]. by intros m' ? -> _. }
  destruct Hsb as [Hsb|]; [|done]. eapply (run_operands a b m xa xb _ _ r m); [by apply frame_start|done..|].
  intros m1 Hf1 Hr1 Oa Ob. pose proof (sign_cases xa Hxa Hsa0) as Ca. pose proof (sign_cases xb Hxb Hsb0) as Cb.
  pose proof (value_bound xa Hxa) as Ba. pose proof (value_bound xb Hxb) as Bb. pose proof (valid_nonempty xa Hxa Hsa0) as Hne.
  assert (0 < length (items xa))%nat by (destruct (items xa); [done|cbn; lia]).
  pose proof (size_mono (length (items xa)) (max (length (items xa)) (length (items xb))) ltac:(lia)).
  pose proof (size_mono (length (items xb)) (max (length (items xa)) (length (items xb))) ltac:(lia)).
  rewrite Hsb in Ob. eapply run_sub_items; [done|eapply object_impl; [exact Oa|intros x Ho; left; by apply operand_weaken]|
    eapply object_impl; [exact Ob|intros x Ho; left; by apply operand_weaken]|apply Hr1; [done|by exists xr]|done|lia|lia|lia|lia|done|].
  by intros m' ? -> _.
Qed.
End Sums.
