(* ===== verification/BigIntBits.v ===== *)
(** * Big integers: lengths, comparison, single bits and shifts *)

From S2P Require Import Prelude BigInt BigIntDigits BigIntTheory BigIntRun BigIntSum.

(** ** Rules for [exec] *)

Lemma exec_ret {A} (x : A) v (Q : A -> gmap loc (Z * Z) -> Prop) : Q x v -> exec (mret x) v Q.
Proof. intros HQ m Hm <-. by apply run_ret. Qed.

Lemma exec_bind {A B} (c : M A) (k : A -> M B) v Q :
  exec c v (fun a v' => exec (k a) v' Q) -> exec (mbind k c) v Q.
Proof.
  intros Hc m Hm Hv. apply run_bind. eapply run_mono; [by apply Hc|]. intros a m' [Hm' Hk]. by apply Hk.
Qed.

Lemma exec_mono {A} (c : M A) v (Q R : A -> gmap loc (Z * Z) -> Prop) :
  exec c v Q -> (forall a v', Q a v' -> R a v') -> exec c v R.
Proof. intros Hc HR m Hm Hv. eapply run_mono; [by apply Hc|]. intros a m' [? ?]. auto. Qed.

Lemma exec_or_fail (c err k : M Z) v Q :
  exec c v (fun rc v' => rc = 0 /\ exec k v' Q) -> exec (or_fail c err k) v Q.
Proof. intros Hc. apply exec_bind. eapply exec_mono; [exact Hc|]. cbn. by intros rc v' [-> Hk]. Qed.

Lemma exec_load p v s n Q :
  v !! p = Some (s, n) -> (forall x, valid x -> sign x = s -> value x = n -> Q x v) -> exec (load (Some p)) v Q.
Proof.
  intros Hp HQ m Hm <-. apply view_lookup_inv in Hp as (x & Hx & Es & Ev). eapply run_load; [done|].
  split; [done|]. apply HQ; [by apply (Hm p)|done..].
Qed.

Lemma all_valid_delete m p : all_valid m -> all_valid (delete p m).
Proof. intros Hm. by apply map_Forall_delete. Qed.

Lemma view_delete m p : view (delete p m) = delete p (view m).
Proof. apply fmap_delete. Qed.

Lemma exec_destroy p v y Q : v !! p = Some y -> Q tt (delete p v) -> exec (bigint_destroy (Some p)) v Q.
Proof.
  intros Hp HQ m Hm <-. destruct y. apply view_lookup_inv in Hp as (x & Hx & _ & _). eapply run_destroy; [done|].
  split; [by apply all_valid_delete|]. by rewrite view_delete.
Qed.

(** An object that is not negative is replaced. *)
Lemma exec_replace m p x y : all_valid m -> m !! p = Some x -> valid y ->
  all_valid (<[p := y]> m) /\ view (<[p := y]> m) = <[p := (sign y, value y)]> (view m).
Proof. intros Hm Hp Hy. destruct (frame_finish p m m y) as (H1 & H2 & _); [by apply frame_start|done|done]. Qed.

Lemma empty_valid : valid (mk_bigint [] 0 false).
Proof. split; cbn; auto; lia. Qed.

Lemma positive_valid l f : Forall item_ok l -> l <> [] -> valid (mk_bigint l 1 f).
Proof. split; cbn; auto; lia. Qed.

Lemma exec_destroy_items p v y Q :
  v !! p = Some y -> Q tt (<[p := (0, 0)]> v) -> exec (bigint_destroy_items (Some p)) v Q.
Proof.
  intros Hp HQ m Hm <-. destruct y. apply view_lookup_inv in Hp as (x & Hx & _ & _). eapply run_destroy_items; [done|].
  destruct (exec_replace m p x _ Hm Hx empty_valid) as [H1 H2]. split; [done|]. by rewrite H2.
Qed.

(** ** Lengths *)

Lemma significant_strip x : significant x = reverse (strip_zeros (items x)).
Proof. unfold significant, strip_zeros. by rewrite reverse_involutive. Qed.

Lemma log2_digits l v : Forall item_ok l -> item_ok v -> 0 < v ->
  Z.log2 (digits (l ++ [v])) = Z.log2 v + 48 * Z.of_nat (length l).
Proof.
  intros Hl [_ Hv] Hpos. pose proof (digits_bound l Hl). rewrite digits_app. cbn [digits].
  rewrite size_bits in *. replace (v + base * 0) with v by lia.
  pose proof (Z.log2_spec v Hpos) as [H1 H2]. apply Z.log2_unique; [pose proof (Z.log2_nonneg v); lia|].
  pose proof (Z.log2_nonneg v). rewrite <- Z.add_succ_l, !Z.pow_add_r by lia.
  set (p := 2 ^ (48 * Z.of_nat (length l))) in *. nia.
Qed.

Lemma log2_significant x v rest : Forall item_ok (items x) -> significant x = v :: rest ->
  Z.log2 (digits (items x)) = Z.log2 v + 48 * Z.of_nat (length rest) /\ 0 < v /\ item_ok v /\ Forall item_ok rest.
Proof.
  rewrite significant_strip. intros Hx E. apply reverse_cons_inv in E. pose proof (strip_zeros_last _ _ _ Hx E) as Hv.
  pose proof (strip_zeros_ok _ Hx) as Hok. rewrite E in Hok. apply Forall_app in Hok as [Hok1 [Hok2 _]%Forall_cons].
  rewrite <- digits_strip_zeros, E, log2_digits; [rewrite length_reverse|exact Hok1|exact Hok2|exact Hv]. split; [done|]. split; [exact Hv|]. split; [exact Hok2|].
  rewrite <- (reverse_involutive rest). by apply Forall_reverse.
Qed.

Lemma run_bit_length p m x Q :
  m !! p = Some x -> Forall item_ok (items x) -> sign x <> 0 -> Q (Z.log2 (digits (items x))) m -> run (bigint_bit_length (Some p)) m Q.
Proof.
  intros Hp Hx Hs HQ. unfold bigint_bit_length. cbn [is_null]. step_load. destruct (Z.eqb_spec (sign x) 0); [done|].
  destruct (significant x) as [|v rest] eqn:E; apply run_ret.
  - rewrite significant_strip in E. apply (f_equal reverse) in E. rewrite reverse_involutive in E.
    apply strip_zeros_nil in E; [|done]. by rewrite E in HQ.
  - destruct (log2_significant x v rest Hx E) as (E' & _). rewrite E' in HQ. exact HQ.
Qed.

(** ** Comparison *)

Lemma cmp_items_spec s la lb : length la = length lb -> Forall item_ok la -> Forall item_ok lb ->
  cmp_items s la lb = s * Z.sgn (digits (reverse la) - digits (reverse lb)).
Proof.
  revert lb. induction la as [|va la IH]; intros [|vb lb] E Ha Hb; try done; [cbn; lia|].
  apply Forall_cons in Ha as [[Ha1 Ha2] Ha]. apply Forall_cons in Hb as [[Hb1 Hb2] Hb]. cbn [cmp_items].
  assert (length la = length lb) as El by (by injection E).
  rewrite !reverse_cons, !digits_app, !length_reverse, <- El. cbn [digits].
  pose proof (digits_bound (reverse la) ltac:(by apply Forall_reverse)) as H1. rewrite length_reverse in H1.
  pose proof (digits_bound (reverse lb) ltac:(by apply Forall_reverse)) as H2. rewrite length_reverse, <- El in H2.
  destruct (Z.ltb_spec va vb); [|destruct (Z.ltb_spec vb va)].
  - rewrite Z.sgn_neg; [lia|]. nia.
  - rewrite Z.sgn_pos; [lia|]. nia.
  - assert (va = vb) as -> by lia. rewrite IH by done. do 2 f_equal. lia.
Qed.

(** The comparison of two magnitudes that are not zero. *)
Lemma cmp_magnitudes s xa xb : Forall item_ok (items xa) -> Forall item_ok (items xb) ->
  0 < digits (items xa) -> 0 < digits (items xb) ->
  (if Z.log2 (digits (items xa)) <? Z.log2 (digits (items xb)) then - s
   else if Z.log2 (digits (items xb)) <? Z.log2 (digits (items xa)) then s
   else cmp_items s (significant xa) (significant xb)) = s * Z.sgn (digits (items xa) - digits (items xb)).
Proof.
  intros Ha Hb Pa Pb. destruct (Z.ltb_spec (Z.log2 (digits (items xa))) (Z.log2 (digits (items xb)))) as [Hlt|Hge].
  { apply Z.log2_lt_cancel in Hlt. rewrite Z.sgn_neg; lia. }
  destruct (Z.ltb_spec (Z.log2 (digits (items xb))) (Z.log2 (digits (items xa)))) as [Hlt|Hge'].
  { apply Z.log2_lt_cancel in Hlt. rewrite Z.sgn_pos; lia. }
  assert (digits (reverse (significant xa)) = digits (items xa)) as Ea by (rewrite significant_strip, reverse_involutive; apply digits_strip_zeros).
  assert (digits (reverse (significant xb)) = digits (items xb)) as Eb by (rewrite significant_strip, reverse_involutive; apply digits_strip_zeros).
  destruct (significant xa) as [|va la] eqn:Sa; [cbn in Ea; lia|]. destruct (significant xb) as [|vb lb] eqn:Sb; [cbn in Eb; lia|].
  destruct (log2_significant xa va la Ha Sa) as (La & Va & Oa & Fa). destruct (log2_significant xb vb lb Hb Sb) as (Lb & Vb & Ob & Fb).
  rewrite cmp_items_spec, Ea, Eb; [done| |by constructor..]. cbn [length]. f_equal.
  assert (forall v, item_ok v -> 0 < v -> 0 <= Z.log2 v < 48) as Hlog.
  { intros v [_ Hv] Hv0. split; [apply Z.log2_nonneg|]. by apply Z.log2_lt_pow2. }
  pose proof (Hlog va Oa Va). pose proof (Hlog vb Ob Vb). lia.
Qed.

(** Numbers whose magnitude can be recovered from every representation. *)
Definition recoverable (v : Z) : Prop := forall n, (0 < n)%nat -> v <> - size n.

Lemma recoverable_nonneg v : 0 <= v -> recoverable v.
Proof. intros Hv n _. pose proof (size_pos n). lia. Qed.

Lemma recoverable_not_collapsed x : valid x -> recoverable (value x) -> ~ collapsed x.
Proof. intros Hx Hr Hc. destruct (collapsed_value x Hx Hc) as (n & Hn & E). by apply (Hr n). Qed.

Section Bits.
Context {HM : Machine} {HP : Plenty HM}.

(** Both operands of a comparison or of a product become magnitudes. *)
Lemma run_magnitudes a b m xa xb (err1 err2 k : M Z) Q :
  all_valid m -> m !! a = Some xa -> m !! b = Some xb -> recoverable (value xa) -> recoverable (value xb) ->
  (forall m' ya yb, all_valid m' -> view m' = view m -> m' !! a = Some ya -> m' !! b = Some yb ->
    (sign ya = -1 -> neged_with_sign ya = false) -> (sign yb = -1 -> neged_with_sign yb = false) -> run k m' Q) ->
  run (or_fail (if (sign xa <? 0) && neged_with_sign xa then bigint_neg_with_sign_inplace (Some a) true else mret 0) err1 (
       xb ← load (Some b);
       or_fail (if (sign xb <? 0) && neged_with_sign xb then bigint_neg_with_sign_inplace (Some b) true else mret 0) err2 k)) m Q.
Proof using HM.
  intros Hm Ha Hb Ra Rb Hk. assert (valid xa) as Hxa by by apply (Hm a). assert (valid xb) as Hxb by by apply (Hm b).
  apply run_or_fail. eapply run_to_magnitude; [done|]. split; [done|].
  destruct (view_update m a xa (to_magnitude xa) Hm Ha) as [Hm1 Hv1].
  { by apply to_magnitude_same, recoverable_not_collapsed. }
  set (m1 := <[a := to_magnitude xa]> m) in *.
  assert (exists yb, m1 !! b = Some yb /\ value yb = value xb) as (yb & Hyb & Eyb).
  { pose proof (view_lookup m b xb Hb) as Hbv. rewrite <- Hv1 in Hbv. apply view_lookup_inv in Hbv as (y & ? & _ & ?). eauto. }
  assert (valid yb) as Vyb by by apply (Hm1 b). step_load. apply run_or_fail. eapply run_to_magnitude; [done|]. split; [done|].
  destruct (view_update m1 b yb (to_magnitude yb) Hm1 Hyb) as [Hm2 Hv2].
  { apply to_magnitude_same; [done|]. apply recoverable_not_collapsed; [done|]. by rewrite Eyb. }
  destruct (decide (a = b)) as [<-|Hab].
  - eapply (Hk _ (to_magnitude yb) (to_magnitude yb)); [done|congruence|apply lookup_insert_eq..| |];
      intros E; apply to_magnitude_neged; unfold to_magnitude in E; by case_match.
  - eapply (Hk _ (to_magnitude xa) (to_magnitude yb)); [done|congruence| |apply lookup_insert_eq| |].
    + unfold m1. by rewrite lookup_insert_ne, lookup_insert_eq.
    + intros E. apply to_magnitude_neged. unfold to_magnitude in E. by case_match.
    + intros E. apply to_magnitude_neged. unfold to_magnitude in E. by case_match.
Qed.

Lemma magnitude_value x : valid x -> (sign x = -1 -> neged_with_sign x = false) -> value x = sign x * digits (items x).
Proof using.
  intros Hx Hn. destruct (valid_sign x Hx) as [E|[E|E]]; rewrite E.
  - by rewrite value_zero.
  - rewrite value_pos by done. lia.
  - rewrite value_magnitude by auto. lia.
Qed.

Lemma exec_cmp a b v va vb Q :
  v !! a = Some (Z.sgn va, va) -> v !! b = Some (Z.sgn vb, vb) -> recoverable va -> recoverable vb ->
  Q (Z.sgn (va - vb)) v -> exec (bigint_cmp (Some a) (Some b)) v Q.
Proof using HM.
  intros Ha Hb Ra Rb HQ m Hm <-. unfold bigint_cmp. cbn [is_null orb]. pose proof Ha as Ha0. pose proof Hb as Hb0.
  apply view_lookup_inv in Ha as (xa & Hma & Sa & Va). apply view_lookup_inv in Hb as (xb & Hmb & Sb & Vb).
  step_load. step_load. rewrite Sa, Sb.
  destruct (Z.ltb_spec (Z.sgn va) (Z.sgn vb)); [apply run_ret; split; [done|]; by replace (Z.sgn (va - vb)) with (-1) in HQ by lia|].
  destruct (Z.ltb_spec (Z.sgn vb) (Z.sgn va)); [apply run_ret; split; [done|]; by replace (Z.sgn (va - vb)) with 1 in HQ by lia|].
  destruct (Z.eqb_spec (Z.sgn va) 0); [apply run_ret; split; [done|]; by replace (Z.sgn (va - vb)) with 0 in HQ by lia|].
  rewrite <- Sa. eapply run_magnitudes; [done|done|done|by rewrite Va|by rewrite Vb|].
  intros m' ya yb Hm' Hv Hya Hyb Na Nb. assert (valid ya) as Vya by by apply (Hm' a). assert (valid yb) as Vyb by by apply (Hm' b).
  assert (sign ya = Z.sgn va /\ value ya = va) as [Sya Wya].
  { rewrite <- Hv in Ha0. rewrite (view_lookup m' a ya Hya) in Ha0. by injection Ha0. }
  assert (sign yb = Z.sgn vb /\ value yb = vb) as [Syb Wyb].
  { rewrite <- Hv in Hb0. rewrite (view_lookup m' b yb Hyb) in Hb0. by injection Hb0. }
  pose proof (magnitude_value ya Vya Na) as Ea. pose proof (magnitude_value yb Vyb Nb) as Eb.
  pose proof (digits_bound _ (valid_items _ Vya)). pose proof (digits_bound _ (valid_items _ Vyb)).
  apply run_bind. eapply run_bit_length; [done|apply Vya|lia|]. apply run_bind. eapply run_bit_length; [done|apply Vyb|lia|].
  step_load. step_load. pose proof (cmp_magnitudes (sign ya) ya yb (valid_items _ Vya) (valid_items _ Vyb) ltac:(nia) ltac:(nia)) as Hc.
  assert (sign ya * Z.sgn (digits (items ya) - digits (items yb)) = Z.sgn (va - vb)) as Hsgn.
  { rewrite <- Wya, <- Wyb, Ea, Eb. replace (sign yb) with (sign ya) by lia. rewrite <- Z.mul_sub_distr_l, Z.sgn_mul, Sya. f_equal. lia. }
  rewrite Hsgn in Hc. destruct (Z.log2 (digits (items ya)) <? _); [|destruct (Z.log2 (digits (items yb)) <? _)];
    apply run_ret; (split; [done|]); rewrite Hv; by rewrite Hc.
Qed.
End Bits.
