(* ===== verification/BigIntShift.v ===== *)
(** * Big integers: single bits and shifts of numbers that are not negative *)

From S2P Require Import Prelude BigInt BigIntDigits BigIntTheory BigIntRun BigIntSum BigIntBits.

(** ** Items and bits *)

Lemma digits_split l i v : l !! i = Some v -> digits l = digits (take i l) + size i * (v + base * digits (drop (S i) l)).
Proof.
  intros Hi. rewrite <- (take_drop_middle l i v Hi) at 1. rewrite digits_app, length_take_le; [done|].
  apply lookup_lt_Some in Hi. lia.
Qed.

Lemma digits_insert l i v w : l !! i = Some v -> digits (<[i := w]> l) = digits l + (w - v) * size i.
Proof.
  intros Hi. pose proof (lookup_lt_Some _ _ _ Hi). rewrite (digits_split l i v Hi), (digits_split (<[i := w]> l) i w).
  - rewrite take_insert_ge, drop_insert_lt by lia. ring.
  - by apply list_lookup_insert_eq.
Qed.

Lemma digits_drop l i : Forall item_ok l -> (i <= length l)%nat -> digits (drop i l) = digits l / size i.
Proof.
  intros Hl Hi. rewrite <- (take_drop i l) at 2. rewrite digits_app, length_take_le by done.
  pose proof (digits_bound (take i l) ltac:(by apply Forall_take)) as Hb. rewrite length_take_le in Hb by done.
  apply (Z.div_unique_pos _ _ _ (digits (take i l))); lia.
Qed.

Lemma testbit_digits l i v r : Forall item_ok l -> l !! i = Some v -> 0 <= r < 48 ->
  Z.testbit (digits l) (48 * Z.of_nat i + r) = Z.testbit v r.
Proof.
  intros Hl Hi Hr. pose proof (lookup_lt_Some _ _ _ Hi).
  assert (item_ok v) as [Hv1 Hv2] by (eapply Forall_lookup_1; [exact Hl|exact Hi]).
  rewrite Z.add_comm, <- Z.div_pow2_bits, <- size_bits, <- digits_drop by (done || lia).
  rewrite (drop_S l v i Hi). cbn [digits]. rewrite <- (Z.mod_pow2_bits_low _ 48) by lia.
  rewrite Z.mul_comm. unfold base in *. rewrite Z_mod_plus_full, Z.mod_small; [done|lia].
Qed.

Lemma testbit_digits_high l k : Forall item_ok l -> 48 * Z.of_nat (length l) <= k -> Z.testbit (digits l) k = false.
Proof.
  intros Hl Hk. pose proof (digits_bound l Hl) as Hb. rewrite size_bits in Hb. destruct (decide (digits l = 0)) as [->|]; [apply Z.bits_0|].
  apply Z.bits_above_log2; [lia|]. apply Z.log2_lt_pow2; [lia|]. pose proof (Z.pow_le_mono_r 2 _ k ltac:(lia) Hk). lia.
Qed.

Lemma lor_bit n k : 0 <= k -> Z.lor n (2 ^ k) = n + if Z.testbit n k then 0 else 2 ^ k.
Proof.
  intros Hk. destruct (Z.testbit n k) eqn:Hb.
  - rewrite Z.add_0_r. apply Z.bits_inj'. intros j Hj. rewrite Z.lor_spec, Z.pow2_bits_eqb by done.
    destruct (Z.eqb_spec k j) as [<-|]; [by rewrite Hb|by rewrite orb_false_r].
  - rewrite Z.add_nocarry_lxor, Z.lxor_lor; [done|..]; apply Z.bits_inj'; intros j Hj;
      rewrite Z.land_spec, Z.pow2_bits_eqb, Z.bits_0 by done; destruct (Z.eqb_spec k j) as [<-|]; rewrite ?Hb; try done; apply andb_false_r.
Qed.

Lemma item_at_spec x bit : Forall item_ok (items x) -> 0 <= bit ->
  match item_at x bit with
  | Some v => items x !! Z.to_nat (bit / 48) = Some v /\ item_ok v /\ Z.testbit v (bit mod 48) = Z.testbit (digits (items x)) bit
  | None => Z.testbit (digits (items x)) bit = false
  end.
Proof.
  intros Hx Hbit. unfold item_at, BIGINT_ITEM_BITS. pose proof (Z.div_mod bit 48 ltac:(lia)) as E. pose proof (Z.mod_pos_bound bit 48 ltac:(lia)).
  pose proof (Z.div_pos bit 48 Hbit ltac:(lia)). destruct (Z.ltb_spec (bit / 48) (Z.of_nat (length (items x)))).
  - destruct (lookup_lt_is_Some_2 (items x) (Z.to_nat (bit / 48))) as [v Hv]; [lia|]. rewrite Hv. split; [done|].
    split; [by eapply Forall_lookup_1|]. rewrite <- (testbit_digits (items x) _ v _ Hx Hv) by done. f_equal. rewrite Z2Nat.id by done. lia.
  - apply testbit_digits_high; [done|]. lia.
Qed.

Section Shifts.
Context {HM : Machine} {HP : Plenty HM}.

(** ** Single bits *)

Lemma run_ensure_item p m x i Q :
  m !! p = Some x -> items x <> [] -> (i <= length (items x))%nat ->
  Q true (<[p := mk_bigint (items x ++ replicate (S i - length (items x)) 0) (sign x) (neged_with_sign x)]> m) ->
  run (ensure_item (Some p) i) m Q.
Proof using HM HP.
  intros Hp Hne Hi HQ. unfold ensure_item. step_load. case_bool_decide.
  - apply run_ret. replace (S i - length (items x))%nat with 0%nat in HQ by lia. cbn in HQ. rewrite app_nil_r in HQ.
    rewrite insert_id in HQ; [done|by destruct x].
  - apply run_bind, run_malloc_item. cbn [negb]. replace (S i - length (items x))%nat with 1%nat in HQ by lia.
    destruct (items x) as [|v l] eqn:E; [done|]. step run_set_items. by apply run_ret.
Qed.

Lemma run_ensure_items p n i m x Q :
  m !! p = Some x -> items x <> [] -> (i <= length (items x))%nat ->
  Q true (<[p := mk_bigint (items x ++ replicate (S (i + n) - length (items x)) 0) (sign x) (neged_with_sign x)]> m) ->
  run (ensure_items (Some p) n i) m Q.
Proof using HM HP.
  revert i m x. induction n as [|n IH]; intros i m x Hp Hne Hi HQ; cbn [ensure_items].
  - rewrite Nat.add_0_r in HQ. by eapply run_ensure_item.
  - apply run_bind. eapply run_ensure_item; [done..|]. cbn [negb]. eapply IH; [lookup_obj|by apply app_not_nil|cbn [items]; rewrite length_app, length_replicate; lia|].
    fold_stores. rewrite length_app, length_replicate, <- app_assoc, <- replicate_add.
    replace (S i - length (items x) + (S (S i + n) - (length (items x) + (S i - length (items x)))))%nat
      with (S (i + S n) - length (items x))%nat by lia. done.
Qed.

Lemma run_update_bit f p bit m x Q :
  m !! p = Some x -> items x <> [] -> Forall item_ok (items x) -> 0 <= bit ->
  (forall l v, Forall item_ok l -> digits l = digits (items x) -> l !! Z.to_nat (bit / 48) = Some v -> item_ok v ->
    Z.testbit v (bit mod 48) = Z.testbit (digits (items x)) bit ->
    Q 0 (<[p := mk_bigint (<[Z.to_nat (bit / 48) := f v (Z.shiftl 1 (bit mod 48))]> l) (sign x) (neged_with_sign x)]> m)) ->
  run (update_bit f (Some p) bit) m Q.
Proof using HM HP.
  intros Hp Hne Hx Hbit HQ. unfold update_bit. apply run_bind. eapply run_ensure_items; [done|done|lia|]. cbn [negb]. step_load.
  unfold BIGINT_ITEM_BITS. cbn [Nat.add].
  set (y := mk_bigint _ _ _). assert (Forall item_ok (items y)) as Hy by (apply Forall_app; split; [done|apply zeros_ok]).
  assert (digits (items y) = digits (items x)) as Hd by (cbn [y items]; rewrite digits_app, digits_zeros; lia).
  pose proof (Z.div_pos bit 48 Hbit ltac:(lia)).
  pose proof (item_at_spec y bit Hy Hbit) as Hspec. destruct (item_at y bit) as [v|] eqn:Ev.
  - destruct Hspec as (H1 & H2 & H3). rewrite Hd in H3. apply run_bind. eapply run_set_item; [lookup_obj|by apply lookup_lt_Some in H1|].
    fold_stores. apply run_ret. by apply HQ.
  - exfalso. unfold item_at, BIGINT_ITEM_BITS in Ev. cbn [y items] in Ev. rewrite length_app, length_replicate in Ev.
    destruct (Z.ltb_spec (bit / 48) (Z.of_nat (length (items x) + (S (Z.to_nat (bit / 48)) - length (items x))))); [|lia].
    apply lookup_ge_None in Ev. rewrite length_app, length_replicate in Ev. lia.
Qed.

Lemma run_first_item p m x Q :
  m !! p = Some x -> Q true (<[p := mk_bigint [0] 1 (neged_with_sign x)]> m) -> run (first_item (Some p)) m Q.
Proof using HM HP.
  intros Hp HQ. unfold first_item. step run_set_sign. apply run_bind, run_malloc_item. cbn [negb]. step run_set_items. by apply run_ret.
Qed.

(** [2 ^ bit] in an item. *)
Lemma lor_item v r : item_ok v -> 0 <= r < 48 -> item_ok (Z.lor v (Z.shiftl 1 r)).
Proof using.
  intros [Hv1 Hv2] Hr. rewrite Z.shiftl_1_l. pose proof (Z.pow_pos_nonneg 2 r ltac:(lia) ltac:(lia)).
  assert (0 <= Z.lor v (2 ^ r)) as H0 by (apply Z.lor_nonneg; lia). split; [done|].
  destruct (decide (Z.lor v (2 ^ r) = 0)); [unfold base in *; lia|]. apply Z.log2_lt_pow2; [lia|].
  rewrite Z.log2_lor, Z.log2_pow2 by lia. apply Z.max_lub_lt; [|lia].
  destruct (decide (v = 0)) as [->|]; [done|]. apply Z.log2_lt_pow2; [lia|done].
Qed.

Lemma exec_set_bit p bit v s n Q :
  v !! p = Some (s, n) -> 0 <= s -> 0 <= bit ->
  Q 0 (<[p := (1, Z.lor n (2 ^ bit))]> v) -> exec (bigint_set_bit (Some p) bit true) v Q.
Proof using HM HP.
  intros Hp Hs Hbit HQ m Hm <-. apply view_lookup_inv in Hp as (x & Hx & Es & Ev). pose proof (Hm p x Hx) as Vx. cbn beta in Vx.
  unfold bigint_set_bit. cbn [is_null]. step_load. rewrite andb_false_r.
  assert (exists y, (run (if sign x =? 0 then first_item (Some p) else mret true) m (fun ok m' => ok = true /\ m' = <[p := y]> m)) /\
    sign y = 1 /\ items y <> [] /\ Forall item_ok (items y) /\ digits (items y) = n) as (y & Hrun & Sy & Ny & Fy & Dy).
  { destruct (Z.eqb_spec (sign x) 0) as [E|E].
    - eexists. split; [by eapply run_first_item|]. split_and!; [done|done|by constructor|]. by rewrite value_zero in Ev.
    - assert (sign x = 1) as E1 by (destruct (valid_sign x Vx) as [|[]]; lia). exists x. split_and!; [|done| |apply Vx|].
      + apply run_ret. split; [done|]. by rewrite insert_id.
      + apply Vx. done.
      + by rewrite <- value_pos. }
  apply run_bind. eapply run_mono; [exact Hrun|]. intros ok m' [-> ->]. cbn [negb].
  eapply run_update_bit; [lookup_obj|done|done|done|]. intros l w Fl Dl Hl Hw Tw. fold_stores.
  pose proof (Z.mod_pos_bound bit 48 ltac:(lia)) as Hmod. pose proof (Z.div_pos bit 48 Hbit ltac:(lia)).
  set (z := mk_bigint _ _ _). assert (valid z) as Vz.
  { unfold z. rewrite Sy. apply positive_valid; [by apply Forall_insert, lor_item|]. intros E. apply (f_equal length) in E. rewrite length_insert in E.
    apply lookup_lt_Some in Hl. cbn in E. lia. }
  destruct (exec_replace m p x z Hm Hx Vz) as [H1 H2]. split; [done|]. rewrite H2. cbn [z sign]. rewrite Sy.
  rewrite (value_pos z) by done. cbn [z items]. rewrite (digits_insert l _ w _ Hl), Z.shiftl_1_l, !lor_bit in * by lia.
  rewrite Tw, Dy. replace (digits l) with n by congruence.
  replace (n + (w + (if Z.testbit n bit then 0 else 2 ^ (bit mod 48)) - w) * size (Z.to_nat (bit / 48)))
    with (n + if Z.testbit n bit then 0 else 2 ^ bit); [done|]. destruct (Z.testbit n bit); [lia|].
  rewrite size_bits, Z2Nat.id by done. rewrite (Z.div_mod bit 48 ltac:(lia)) at 1. rewrite Z.pow_add_r by lia. ring.
Qed.

Lemma exec_get_bit p bit v n Q :
  v !! p = Some (Z.sgn n, n) -> 0 <= n -> 0 <= bit ->
  Q (0, Z.testbit n bit) v -> exec (bigint_get_bit (Some p) bit) v Q.
Proof using HM.
  intros Hp Hn Hbit HQ m Hm <-. apply view_lookup_inv in Hp as (x & Hx & Es & Ev). pose proof (Hm p x Hx) as Vx. cbn beta in Vx.
  unfold bigint_get_bit. cbn [is_null]. step_load. destruct (Z.eqb_spec (sign x) 0) as [E|E].
  { apply run_ret. split; [done|]. assert (n = 0) as E0 by lia. rewrite E0, Z.bits_0 in HQ. done. }
  assert (sign x = 1) as E1 by (destruct (valid_sign x Vx) as [|[]]; lia). rewrite value_pos in Ev by done.
  pose proof (item_at_spec x bit (valid_items x Vx) Hbit) as Hspec. pose proof (Z.mod_pos_bound bit 48 ltac:(lia)). rewrite Ev in Hspec.
  destruct (item_at x bit) as [w|]; apply run_ret; (split; [done|]); [|by rewrite Hspec in HQ].
  destruct Hspec as (_ & _ & Hw). rewrite <- Hw in HQ. unfold BIGINT_ITEM_BITS. rewrite Z.land_ones with (n := 1) by lia.
  rewrite Z.shiftr_div_pow2, <- Z.testbit_spec' by lia. by destruct (Z.testbit w (bit mod 48)).
Qed.

(** ** Shifts by one bit *)

Lemma shl_one_items_spec l c : Forall item_ok l -> 0 <= c <= 1 ->
  let '(l', c') := shl_one_items c l in
  Forall item_ok l' /\ length l' = length l /\ 0 <= c' <= 1 /\ digits l' + c' * size (length l) = 2 * digits l + c.
Proof using.
  intros Hl. revert c. induction Hl as [|v l [Hv1 Hv2] Hl IH]; intros c Hc; [cbn; rewrite size_0; split_and!; done || lia|].
  cbn [shl_one_items]. unfold BIGINT_ITEM_BITS. rewrite Z.shiftr_div_pow2, Z.shiftl_mul_pow2, land_max by lia.
  rewrite u64_small by (unfold base in *; lia). rewrite (lor_low_add 1) by (try lia; apply Z.mod_mul; lia).
  assert (0 <= v / 2 ^ (48 - 1) <= 1) as Hc'.
  { split; [apply Z.div_pos; lia|]. apply Z.lt_succ_r, Z.div_lt_upper_bound; unfold base in *; lia. }
  specialize (IH _ Hc'). destruct (shl_one_items (v / 2 ^ (48 - 1)) l) as [l' c'']. destruct IH as (H1 & H2 & H3 & H4).
  cbn [length digits]. rewrite H2, size_S. split_and!; [constructor; [apply item_ok_mod|done]|done|lia|lia|].
  assert ((v * 2 ^ 1 + c) mod base = 2 * v + c - base * (v / 2 ^ (48 - 1))) as ->; [|nia].
  symmetry. apply (Z.mod_unique_pos _ _ (v / 2 ^ (48 - 1))); [|lia].
  pose proof (Z.div_mod v (2 ^ (48 - 1)) ltac:(lia)). pose proof (Z.mod_pos_bound v (2 ^ (48 - 1)) ltac:(lia)). unfold base in *. lia.
Qed.

Lemma exec_shl_one p v n Q :
  v !! p = Some (Z.sgn n, n) -> 0 <= n -> Q 0 (<[p := (Z.sgn (2 * n), 2 * n)]> v) -> exec (bigint_shl_one (Some p)) v Q.
Proof using HM HP.
  intros Hp Hn HQ m Hm <-. pose proof Hp as Hp0. apply view_lookup_inv in Hp as (x & Hx & Es & Ev). pose proof (Hm p x Hx) as Vx. cbn beta in Vx.
  unfold bigint_shl_one. cbn [is_null]. step_load. destruct (Z.eqb_spec (sign x) 0) as [E|E].
  { apply run_ret. split; [done|]. assert (n = 0) as E0 by lia. rewrite E0 in HQ, Hp0. by rewrite insert_id in HQ. }
  assert (sign x = 1) as E1 by (destruct (valid_sign x Vx) as [|[]]; lia). rewrite value_pos in Ev by done.
  pose proof (shl_one_items_spec (items x) 0 (valid_items x Vx) ltac:(lia)) as Hs. destruct (shl_one_items 0 (items x)) as [l c].
  destruct Hs as (Fl & Ll & Hc & Hd). rewrite Ev in Hd.
  assert (forall y, valid y -> sign y = 1 -> digits (items y) = 2 * n ->
    all_valid (<[p := y]> m) /\ Q 0 (view (<[p := y]> m))) as Hfin.
  { intros y Vy Sy Dy. destruct (exec_replace m p x y Hm Hx Vy) as [H1 H2]. split; [done|]. rewrite H2, Sy, value_pos, Dy by done.
    replace 1 with (Z.sgn (2 * n)) by lia. done. }
  assert (l <> []) as Hne.
  { intros ->. pose proof (valid_nonempty x Vx E). by destruct (items x). }
  step run_set_items. destruct (Z.eqb_spec c 0) as [->|].
  - apply run_ret. rewrite E1. apply Hfin; [by apply positive_valid|done|cbn [items]; lia].
  - apply run_bind, run_malloc_item. cbn [negb]. step run_push_item. apply run_ret. rewrite E1. cbn [Z.ltb Z.compare andb].
    assert (c = 1) as -> by lia. apply Hfin; [apply positive_valid; [|by apply app_not_nil]|done|].
    + apply Forall_app. split; [done|]. by constructor.
    + cbn [items]. rewrite digits_app, Ll. cbn [digits]. lia.
Qed.

Lemma shr_one_items_spec l c : Forall item_ok l -> 0 <= c <= 1 ->
  Forall item_ok (shr_one_items (c * 2 ^ 47) l) /\ length (shr_one_items (c * 2 ^ 47) l) = length l /\
  digits (reverse (shr_one_items (c * 2 ^ 47) l)) = (digits (reverse l) + c * size (length l)) / 2.
Proof using.
  intros Hl. revert c. induction Hl as [|v l [Hv1 Hv2] Hl IH]; intros c Hc.
  { cbn. rewrite size_0. split_and!; [done..|]. symmetry. apply Z.div_small. lia. }
  cbn [shr_one_items]. unfold BIGINT_ITEM_BITS. change (Z.land v 1) with (Z.land v (Z.ones 1)).
  rewrite Z.land_ones, Z.shiftl_mul_pow2, Z.shiftr_div_pow2 by lia.
  pose proof (Z.mod_pos_bound v (2 ^ 1) ltac:(lia)). pose proof (Z.div_mod v (2 ^ 1) ltac:(lia)) as Ev.
  rewrite (lor_low_add 47) by first [lia | apply Z.mod_mul; lia | unfold base in *; lia].
  change (48 - 1) with 47. destruct (IH (v mod 2 ^ 1) ltac:(lia)) as (H1 & H2 & H3). split_and!.
  - constructor; [|done]. unfold item_ok, base in *. lia.
  - cbn [length]. by rewrite H2.
  - rewrite !reverse_cons, !digits_app, !length_reverse, H2, H3. cbn [digits length]. rewrite size_S.
    rewrite <- Z.div_add by lia. f_equal. clear -Ev. set (q := v / 2 ^ 1) in *. set (r := v mod 2 ^ 1) in *. clearbody q r.
    rewrite Ev. unfold base. ring.
Qed.

Lemma exec_shr_one p v n Q :
  v !! p = Some (Z.sgn n, n) -> 0 <= n -> Q 0 (<[p := (Z.sgn (n / 2), n / 2)]> v) -> exec (bigint_shr_one (Some p)) v Q.
Proof using HM.
  intros Hp Hn HQ m Hm <-. pose proof Hp as Hp0. apply view_lookup_inv in Hp as (x & Hx & Es & Ev). pose proof (Hm p x Hx) as Vx. cbn beta in Vx.
  unfold bigint_shr_one. cbn [is_null]. step_load. destruct (Z.eqb_spec (sign x) 0) as [E|E].
  { apply run_ret. split; [done|]. assert (n = 0) as E0 by lia. rewrite E0 in HQ, Hp0. by rewrite insert_id in HQ. }
  assert (sign x = 1) as E1 by (destruct (valid_sign x Vx) as [|[]]; lia). rewrite value_pos in Ev by done. rewrite E1. cbn [Z.ltb Z.compare andb].
  destruct (shr_one_items_spec (reverse (items x)) 0 ltac:(by apply Forall_reverse, Vx) ltac:(lia)) as (Fl & Ll & Hd).
  rewrite Z.mul_0_l, reverse_involutive, Z.add_0_r, Ev in *. step run_set_items. apply run_bind. eapply run_normalize; [lookup_obj|]. fold_stores.
  apply run_ret. destruct (normalize_correct (mk_bigint (reverse (shr_one_items 0 (reverse (items x)))) (sign x) (neged_with_sign x))) as (H1 & H2 & H3).
  { split_and!; cbn; [by apply Forall_reverse|lia|lia]. }
  rewrite (value_pos (mk_bigint _ _ _)) in H3 by done. cbn [items] in H3. rewrite Hd in H3.
  destruct (exec_replace m p x _ Hm Hx H1) as [G1 G2]. split; [done|]. rewrite G2, H2, H3. done.
Qed.

(** ** Shifts *)

Definition shl_item (bit_shift v : Z) (_ : Z) (carry : Z) : Z * Z :=
  (Z.land (Z.lor (u64 (Z.shiftl v bit_shift)) carry) BIGINT_ITEM_MAX, Z.shiftr v (BIGINT_ITEM_BITS - bit_shift)).

Lemma shl_item_spec k v c : 0 <= k < 48 -> item_ok v -> 0 <= c < 2 ^ k ->
  shl_item k v v c = ((v * 2 ^ k + c) mod base, (v * 2 ^ k + c) / base) /\ 0 <= (v * 2 ^ k + c) / base < 2 ^ k.
Proof using.
  intros Hk [Hv1 Hv2] Hc. unfold shl_item, BIGINT_ITEM_BITS. rewrite Z.shiftl_mul_pow2, Z.shiftr_div_pow2, land_max by lia.
  pose proof (Z.pow_pos_nonneg 2 k ltac:(lia) ltac:(lia)) as Hp.
  assert (base = 2 ^ k * 2 ^ (48 - k)) as Eb by (rewrite <- Z.pow_add_r by lia; unfold base; f_equal; lia).
  assert ((v * 2 ^ k + c) / base = v / 2 ^ (48 - k)) as Ed.
  { rewrite Eb, <- Z.div_div by lia. rewrite Z.div_add_l, (Z.div_small c), Z.add_0_r by lia. done. }
  rewrite Ed. split.
  - f_equal. unfold u64. assert (2 ^ 64 = 2 ^ k * 2 ^ (64 - k)) as E64 by (rewrite <- Z.pow_add_r by lia; f_equal; lia).
    rewrite (lor_low_add k) by first [lia | rewrite E64, (Z.mul_comm v), Z.mul_mod_distr_l, Z.mul_comm, Z.mod_mul by lia; lia].
    rewrite <- Zplus_mod_idemp_l, Z.mod_mod_divide; [by rewrite Zplus_mod_idemp_l|]. by exists (2 ^ 16).
  - split; [apply Z.div_pos; lia|]. apply Z.div_lt_upper_bound; [lia|]. lia.
Qed.

Lemma zip_shl k l c : 0 <= k < 48 -> Forall item_ok l -> 0 <= c < 2 ^ k ->
  let '(l', c') := zip_items (shl_item k) l l c in
  Forall item_ok l' /\ 0 <= c' < 2 ^ k /\ digits l' + c' * size (length l) = digits l * 2 ^ k + c.
Proof using.
  intros Hk Hl. revert c. induction Hl as [|v l Hv Hl IH]; intros c Hc; [cbn; rewrite size_0; split_and!; done || lia|].
  cbn [zip_items]. destruct (shl_item_spec k v c Hk Hv Hc) as [-> Hc']. specialize (IH _ Hc').
  destruct (zip_items (shl_item k) l l _) as [l' c'']. destruct IH as (H1 & H2 & H3). split_and!; [|lia..|].
  - constructor; [apply item_ok_mod|done].
  - cbn [digits length]. rewrite size_S. pose proof (Z.div_mod (v * 2 ^ k + c) base ltac:(done)). nia.
Qed.

Lemma run_prepend_zeros p n m x Q :
  m !! p = Some x -> items x <> [] ->
  Q tt (<[p := mk_bigint (replicate n 0 ++ items x) (sign x) (neged_with_sign x)]> m) -> run (prepend_zeros (Some p) n) m Q.
Proof using HM HP.
  revert m x. induction n as [|n IH]; intros m x Hp Hne HQ; cbn [prepend_zeros].
  - apply run_ret. cbn in HQ. rewrite insert_id in HQ; [done|by destruct x].
  - apply run_bind, run_malloc_item. cbn [negb]. step_load. destruct (items x) as [|v l] eqn:E; [done|]. step run_set_items.
    eapply IH; [lookup_obj|done|]. fold_stores. by rewrite replicate_S_end, <- app_assoc in HQ.
Qed.

(** The items that the shift by less than an item gets: no carry is left. *)
Lemma shl_no_carry d k n c : 0 <= d -> 0 <= k ->
  Z.log2 d + k + 1 <= 48 * Z.of_nat n -> 0 <= c -> c * size n <= d * 2 ^ k -> c = 0.
Proof using.
  intros Hd Hk Hn Hc Hle. rewrite size_bits in Hle. pose proof (Z.log2_nonneg d).
  assert (d < 2 ^ (Z.log2 d + 1)).
  { destruct (decide (d = 0)) as [->|]; [done|]. by apply Z.log2_spec; lia. }
  assert (d * 2 ^ k < 2 ^ (48 * Z.of_nat n)).
  { apply (Z.lt_le_trans _ (2 ^ (Z.log2 d + 1) * 2 ^ k)).
    - apply Z.mul_lt_mono_pos_r; [|done]. apply Z.pow_pos_nonneg; lia.
    - rewrite <- Z.pow_add_r by lia. apply Z.pow_le_mono_r; lia. }
  nia.
Qed.

Lemma ceil_items b : 0 <= b -> b <= 48 * Z.of_nat (Z.to_nat (b / 48 + (if b mod 48 =? 0 then 0 else 1))).
Proof using.
  intros Hb. pose proof (Z.div_mod b 48 ltac:(lia)). pose proof (Z.mod_pos_bound b 48 ltac:(lia)). pose proof (Z.div_pos b 48 Hb ltac:(lia)).
  destruct (Z.eqb_spec (b mod 48) 0); lia.
Qed.

(** [bigint_shl] in place: a number with its [bit_shift] and the items in front. *)
Lemma run_shl p m x shift Q :
  all_valid m -> m !! p = Some x -> 0 <= sign x -> 0 <= shift ->
  (forall y, valid y -> sign y = sign x -> value y = value x * 2 ^ shift -> Q 0 (<[p := y]> m)) ->
  run (bigint_shl (Some p) (Some p) shift) m Q.
Proof using HM HP.
  intros Hm Hx Hs Hsh HQ. assert (valid x) as Vx by by apply (Hm p).
  unfold bigint_shl. cbn [is_null orb]. step_load. destruct (Z.eqb_spec (sign x) 0) as [E|E].
  { apply run_ret. rewrite <- (insert_id m p x Hx). apply HQ; [done..|]. by rewrite value_zero. }
  destruct (Z.ltb_spec shift 0); [lia|]. assert (sign x = 1) as E1 by (destruct (valid_sign x Vx) as [|[]]; lia).
  assert (forall f z, Forall item_ok z -> z <> [] -> digits z = value x * 2 ^ shift -> Q 0 (<[p := mk_bigint z 1 f]> m)) as Hfin.
  { intros f z Fz Nz Dz. apply HQ; [by apply positive_valid|done|]. by rewrite value_pos. }
  clear HQ. set (n := value x) in *. assert (digits (items x) = n) as Ev by (symmetry; by apply value_pos).
  unfold bigint_shl_by. step_load. step run_set_sign. step run_set_neged.
  rewrite (insert_id m p (mk_bigint _ _ _)) by (by destruct x).
  apply run_bind. eapply run_bit_length; [done|apply Vx|done|]. rewrite Ev.
  set (k := shift mod BIGINT_ITEM_BITS). set (q := shift / BIGINT_ITEM_BITS).
  assert (shift = 48 * q + k /\ 0 <= k < 48 /\ 0 <= q) as (Eq & Hk & Hq).
  { split; [by apply Z.div_mod|]. split; [by apply Z.mod_pos_bound|by apply Z.div_pos]. }
  set (N := Z.to_nat _). assert (Z.log2 n + k + 1 <= 48 * Z.of_nat N) as HN.
  { apply ceil_items. pose proof (Z.log2_nonneg n). lia. }
  clearbody N. apply run_or_fail. eapply run_sign_extend; [done|]. split; [done|].
  destruct (extend_same N x Vx) as [Vy Sy Wy]. pose proof (length_extend N x) as Ly. set (y := extend N x) in *.
  assert (digits (items y) = n) as Dy by (rewrite <- value_pos, Wy; [done|congruence]).
  pose proof (digits_bound _ (valid_items y Vy)) as By. rewrite Dy in By. step run_count. apply run_bind.
  eapply (run_item_loop (shl_item k) p p p); [lookup_obj..|lia|done|done|]. rewrite !drop_0, take_0. cbn [Nat.add app].
  pose proof (zip_shl k (items y) 0 Hk (valid_items y Vy) ltac:(split; [lia|apply Z.pow_pos_nonneg; lia])) as Hz.
  pose proof (length_zip_items (shl_item k) (items y) (items y) 0 eq_refl) as Hzl.
  destruct (zip_items (shl_item k) (items y) (items y) 0) as [l c]. destruct Hz as (Fl & Hc & Hd). cbn [fst] in Hzl. rewrite Dy in Hd.
  pose proof (digits_bound l Fl). assert (c = 0) as -> by (apply (shl_no_carry n k (length (items y)) c); lia).
  cbn [Z.eqb]. fold_stores. rewrite drop_ge, app_nil_r by lia. step run_zero_items. rewrite <- Hzl, firstn_all, Nat.sub_diag. cbn [replicate].
  rewrite app_nil_r, Sy, E1. assert (l <> []) as Hne.
  { intros ->. pose proof (valid_nonempty y Vy ltac:(lia)). by destruct (items y). }
  assert (digits l = n * 2 ^ k) as Dl by lia. apply run_bind. destruct (Z.eqb_spec q 0) as [E0|].
  - apply run_ret, run_ret. apply Hfin; [done..|]. rewrite Dl, Eq, E0. done.
  - eapply run_prepend_zeros; [lookup_obj|done|]. fold_stores. apply run_ret, Hfin.
    + apply Forall_app. split; [apply zeros_ok|done].
    + by destruct (replicate (Z.to_nat q) 0).
    + rewrite digits_app, digits_zeros, length_replicate, size_bits, Z2Nat.id, Dl, Eq, Z.pow_add_r by lia. lia.
Qed.

Lemma exec_shl p v s n shift Q :
  v !! p = Some (s, n) -> 0 <= s -> 0 <= shift ->
  Q 0 (<[p := (s, n * 2 ^ shift)]> v) -> exec (bigint_shl (Some p) (Some p) shift) v Q.
Proof using HM HP.
  intros Hp Hs Hsh HQ m Hm <-. apply view_lookup_inv in Hp as (x & Hx & <- & <-). eapply run_shl; [done..|].
  intros y Hy Es Ev. destruct (exec_replace m p x y Hm Hx Hy) as [H1 H2]. split; [done|]. by rewrite H2, Es, Ev.
Qed.
End Shifts.
