(* ===== verification/BigIntMul.v ===== *)
(** * Big integers: products *)

From S2P Require Import Prelude BigInt BigIntArith BigIntDigits BigIntTheory BigIntRun BigIntSum BigIntBits BigIntShift.

(** ** Rows *)

Lemma mul_row_spec va c l : item_ok va -> 0 <= c < base -> Forall item_ok l ->
  let '(l', c') := mul_row va c l in
  Forall item_ok l' /\ length l' = length l /\ 0 <= c' < base /\ digits l' + c' * size (length l) = va * digits l + c.
Proof.
  intros [Ha1 Ha2] Hc Hl. revert c Hc. induction Hl as [|v l [Hv1 Hv2] Hl IH]; intros c Hc; [cbn; rewrite size_0; split_and!; done || lia|].
  cbn [mul_row]. rewrite shiftr_item, land_max.
  assert (0 <= (va * v + c) / base < base) as Hq.
  { split; [apply Z.div_pos; [nia|done]|]. apply Z.div_lt_upper_bound; [done|]. nia. }
  specialize (IH _ Hq). destruct (mul_row va ((va * v + c) / base) l) as [l' c']. destruct IH as (H1 & H2 & H3 & H4).
  cbn [length digits]. rewrite H2, size_S. split_and!; [constructor; [apply item_ok_mod|done]|done|lia|lia|].
  pose proof (Z.div_mod (va * v + c) base ltac:(done)). nia.
Qed.

Section Products.
Context {HM : Machine} {HP : Plenty HM}.

Lemma run_write_row row m x va lb Q :
  m !! row = Some x -> sign x = 1 -> item_ok va -> Forall item_ok lb -> (length lb < length (items x))%nat ->
  (forall y, valid y -> sign y = 1 -> value y = va * digits lb -> length (items y) = length (items x) -> Q tt (<[row := y]> m)) ->
  run (write_row (Some row) va lb) m Q.
Proof using HM.
  intros Hx Hs Hva Hlb Hlen HQ. unfold write_row. step_load. pose proof (mul_row_spec va 0 lb Hva ltac:(done) Hlb) as Hrow.
  destruct (mul_row va 0 lb) as [l c]. destruct Hrow as (Fl & Ll & Hc & Hd). rewrite bool_decide_true by done.
  eapply run_set_items; [done|]. rewrite Hs, u64_small by (unfold base in *; lia).
  assert (Forall item_ok (l ++ c :: replicate (length (items x) - length lb - 1) 0)) as Hok.
  { apply Forall_app. split; [done|]. constructor; [done|apply zeros_ok]. }
  apply HQ.
  - apply positive_valid; [done|]. by destruct l.
  - done.
  - rewrite value_pos by done. cbn [items]. rewrite digits_app, Ll. cbn [digits]. rewrite digits_zeros. lia.
  - cbn [items]. rewrite length_app, Ll. cbn [length]. rewrite length_replicate. lia.
Qed.

(** The rows of the items of [a], most significant first: the sum in [t] is
    multiplied by the base before each. *)
Lemma run_mul_loop t row temps la lb m xt xr Q :
  t <> row -> all_valid m -> m !! t = Some xt -> 0 <= sign xt ->
  m !! row = Some xr -> sign xr = 1 -> (length lb < length (items xr))%nat -> Forall item_ok la -> Forall item_ok lb ->
  (forall m' s w, all_valid m' -> 0 <= s ->
    view m' = <[row := (1, w)]> (<[t := (s, value xt * size (length la) + digits (reverse la) * digits lb)]> (view m)) -> Q 0 m') ->
  run (mul_loop (Some t) (Some row) temps la lb) m Q.
Proof using HM HP.
  intros Hne. revert m xt xr. induction la as [|va la IH]; intros m xt xr Hm Ht Hst Hr Hsr Hlen Hla Hlb HQ; cbn [mul_loop].
  { apply run_ret. eapply (HQ m (sign xt) (value xr)); [done|done|]. cbn [length reverse digits]. rewrite size_0, Z.mul_1_r, Z.add_0_r.
    rewrite !insert_id; [done| |]; rewrite ?insert_id; by apply view_lookup || (rewrite <- Hsr; by apply view_lookup). }
  apply Forall_cons in Hla as [Hva Hla]. pose proof (digits_bound lb Hlb) as Hb. destruct Hva as [Hva1 Hva2].
  assert (valid xt) as Vt by by apply (Hm t).
  apply run_bind. eapply run_write_row; [done|done|done|done|done|]. intros yr Vyr Syr Wyr Lyr.
  destruct (exec_replace m row xr yr Hm Hr Vyr) as [Hm1 Hv1]. set (m1 := <[row := yr]> m) in *.
  assert (m1 !! t = Some xt) as Ht1 by (unfold m1; by rewrite lookup_insert_ne). apply run_or_fail.
  eapply run_shl; [done|exact Ht1|done|done|]. intros yt Vyt Syt Wyt. split; [done|].
  destruct (exec_replace m1 t xt yt Hm1 Ht1 Vyt) as [Hm2 Hv2]. set (m2 := <[t := yt]> m1) in *.
  assert (m2 !! row = Some yr) as Hr2 by (unfold m2; rewrite lookup_insert_ne by done; apply lookup_insert_eq).
  assert (m2 !! t = Some yt) as Ht2 by apply lookup_insert_eq. apply run_or_fail.
  eapply run_add; [done|exact Ht2|exact Ht2|exact Hr2|]. intros m3 Hm3 Hv3 Hf3. split; [done|].
  assert (exists zr, m3 !! row = Some zr /\ sign zr = 1 /\ (length (items yr) <= length (items zr))%nat) as (zr & Hzr & Szr & Lzr).
  { specialize (Hf3 row ltac:(congruence)). rewrite Hr2 in Hf3. destruct (m3 !! row) as [zr|]; [|done]. destruct Hf3 as [[_ Es _] Hl].
    exists zr. split_and!; [done|congruence|done]. }
  assert (view m3 !! t = Some (sum_sign (sign yt) (sign yr) (value yt + value yr), value yt + value yr)) as Hzt by (rewrite Hv3; apply lookup_insert_eq).
  apply view_lookup_inv in Hzt as (zt & Hzt & Szt & Wzt). pose proof (value_nonneg yr Vyr Syr) as Nr.
  assert (0 <= value yt) as Nt.
  { destruct (valid_sign yt Vyt) as [E|[E|E]]; [by rewrite value_zero|by apply value_nonneg|lia]. }
  eapply (IH m3 zt zr); [done|done| |done|done|lia|done|done|].
  - rewrite Szt. unfold sum_sign. destruct (sign yt =? 0); [lia|]. destruct (sign yr =? 0); lia.
  - intros m' s w Hm' Hs Hv'. apply (HQ m' s w); [done|done|]. rewrite Hv', Hv3, Hv2, Hv1.
    assert (forall y1 y2 y3 y4 y5 : Z * Z, y3 = y5 -> <[row := y1]> (<[t := y3]> (<[t := y2]> (<[t := y4]> (<[row := (sign yr, value yr)]> (view m))))) = <[row := y1]> (<[t := y5]> (view m))) as Hins.
    { intros y1 y2 y3 y4 y5 ->. rewrite !insert_insert_eq, (insert_insert_ne _ t row) by done. by rewrite insert_insert_eq. }
    apply Hins. f_equal. rewrite Wzt, Wyt, Wyr, reverse_cons, digits_app, length_reverse. cbn [length digits].
    rewrite size_S. change (2 ^ BIGINT_ITEM_BITS) with base. ring.
Qed.

(** ** Temporaries *)

Lemma exec_create v Q : (forall p, v !! p = None -> Q (Some p) (<[p := (0, 0)]> v)) -> exec bigint_create v Q.
Proof using HM HP.
  intros HQ m Hm <-. apply run_create. intros p Hp. destruct (frame_finish p m m _ (frame_start p m Hm) empty_valid) as (H1 & H2 & _).
  split; [done|]. rewrite H2. apply HQ. unfold view. by rewrite lookup_fmap, Hp.
Qed.

(** The object [t] that an operation with the result [r] works on. *)
Definition working (r a : loc) (v : gmap loc (Z * Z)) (t : loc) (v' : gmap loc (Z * Z)) : Prop :=
  if decide (r = a) then v !! t = None /\ v' = <[t := (0, 0)]> v else t = r /\ v' = <[r := (0, 0)]> v.

Lemma exec_open_result r a v z Q :
  v !! r = Some z -> (forall t v', working r a v t v' -> Q (Some (Some t)) v') -> exec (open_result (Some r) (Some a)) v Q.
Proof using HM HP.
  intros Hr HQ. unfold open_result, working in *. case_bool_decide as E.
  - injection E as ->. apply exec_bind, exec_create. intros t Ht. cbn [is_null]. apply exec_ret, HQ. by rewrite decide_True.
  - apply exec_bind. eapply exec_destroy_items; [done|]. apply exec_ret, HQ. rewrite decide_False by congruence. done.
Qed.

Lemma exec_close_result r a v t v' z y Q :
  working r a v t v' -> v !! r = Some z -> Q 0 (<[r := y]> v) ->
  exec (close_result (bool_decide (Some r = Some a)) (Some r) (Some t)) (<[t := y]> v') Q.
Proof using HM HP.
  unfold working. intros Hw Hr HQ. unfold close_result. destruct (decide (r = a)) as [->|Hne].
  - rewrite bool_decide_true by done. destruct Hw as [Ht ->]. assert (a <> t) by congruence. rewrite insert_insert_eq. apply exec_bind.
    eapply exec_set_bigint; [rewrite lookup_insert_ne by done; done|apply lookup_insert_eq|]. apply exec_bind.
    eapply exec_destroy; [rewrite lookup_insert_ne by done; apply lookup_insert_eq|]. apply exec_ret.
    rewrite insert_insert_ne, delete_insert_eq, delete_id; [done|by rewrite lookup_insert_ne|done].
  - rewrite bool_decide_false by congruence. destruct Hw as [-> ->]. apply exec_ret. by rewrite insert_insert_eq.
Qed.

(** The working object is none of the operands. *)
Lemma working_lookup r a b v t v' y z : working r a v t v' -> (r = a \/ r <> b) -> v !! a = Some y -> v !! b = Some z ->
  t <> a /\ t <> b /\ v' !! t = Some (0, 0) /\ v' !! a = Some y /\ v' !! b = Some z.
Proof using.
  unfold working. intros Hw Hrb Ha Hb. destruct (decide (r = a)) as [->|Hne].
  - destruct Hw as [Ht ->]. assert (t <> a) by congruence. assert (t <> b) by congruence.
    rewrite lookup_insert_eq, !lookup_insert_ne by done. done.
  - destruct Hw as [-> ->]. assert (r <> b) by tauto. rewrite lookup_insert_eq, !lookup_insert_ne by done. done.
Qed.

Lemma exec_set_sign_zero p v y Q : v !! p = Some y -> Q tt (<[p := (0, 0)]> v) -> exec (set_sign (Some p) 0) v Q.
Proof using HM.
  intros Hp HQ m Hm <-. destruct y. apply view_lookup_inv in Hp as (x & Hx & _ & _). eapply run_set_sign; [done|].
  destruct (exec_replace m p x (mk_bigint (items x) 0 (neged_with_sign x)) Hm Hx) as [H1 H2].
  { split; cbn; [by apply (Hm p)|by left|lia|lia]. }
  split; [done|]. rewrite H2. done.
Qed.

(** ** The product *)

Lemma signed_value l s : s = 1 \/ s = -1 -> value (mk_bigint l s false) = s * digits l.
Proof using. intros [-> | ->]; unfold value; cbn [sign items neged_with_sign Z.eqb Z.ltb Z.compare]; lia. Qed.

Lemma run_mul_rows t a b temps m xt xa xb Q :
  all_valid m -> m !! t = Some xt -> m !! a = Some xa -> m !! b = Some xb -> t <> a -> t <> b -> sign xt = 0 ->
  (sign xa = -1 -> neged_with_sign xa = false) -> (sign xb = -1 -> neged_with_sign xb = false) ->
  value xa <> 0 -> value xb <> 0 ->
  (forall m', all_valid m' -> view m' = <[t := (Z.sgn (value xa * value xb), value xa * value xb)]> (view m) -> Q 0 m') ->
  run (mul_rows (Some t) (Some a) (Some b) temps) m Q.
Proof using HM HP.
  intros Hm Ht Ha Hb Hta Htb Ht0 Na Nb Za Zb HQ. unfold mul_rows. step_load. step_load.
  assert (valid xa) as Va by by apply (Hm a). assert (valid xb) as Vb by by apply (Hm b).
  pose proof (magnitude_value xa Va Na) as Ea. pose proof (magnitude_value xb Vb Nb) as Eb.
  pose proof (digits_bound _ (valid_items xa Va)) as Ba. pose proof (digits_bound _ (valid_items xb Vb)) as Bb.
  apply run_bind, run_create. intros row Hrow. cbn [is_null]. assert (t <> row) by congruence.
  apply run_or_fail. eapply run_sign_extend; [lookup_obj|]. split; [done|]. rewrite insert_insert_eq.
  set (n := length (items xb)). step run_set_sign. set (y := mk_bigint _ 1 _).
  assert (items y = replicate (S n) 0) as Iy by done.
  assert (valid y) as Vy by (apply positive_valid; [rewrite <- Iy at 1; rewrite Iy; apply zeros_ok|done]).
  destruct (frame_finish row m m y (frame_start row m Hm) Vy) as (Hm1 & Hv1 & _). apply run_or_fail.
  eapply (run_mul_loop t row); [done|done|rewrite lookup_insert_ne by done; done|lia|apply lookup_insert_eq|done| | | |].
  { rewrite Iy, length_replicate. lia. }
  { apply Forall_reverse, Va. } { apply Vb. }
  intros m2 s w Hm2 Hs Hv2. split; [done|]. rewrite Hv1, reverse_involutive, (value_zero xt), Z.mul_0_l, Z.add_0_l in Hv2 by done.
  set (P := digits (items xa) * digits (items xb)) in *. assert (0 < P) as HP0.
  { assert (digits (items xa) <> 0) by (intros E; rewrite E in Ea; lia). assert (digits (items xb) <> 0) by (intros E; rewrite E in Eb; lia).
    unfold P. apply Z.mul_pos_pos; lia. }
 
  assert (view m2 !! row = Some (1, w)) as Hrow2 by (rewrite Hv2; apply lookup_insert_eq). apply view_lookup_inv in Hrow2 as (zr & Hzr & _ & _).
  assert (view m2 !! t = Some (s, P)) as Ht2 by (rewrite Hv2, lookup_insert_ne by done; apply lookup_insert_eq).
  apply view_lookup_inv in Ht2 as (zt & Hzt & Szt & Wzt). assert (valid zt) as Vzt by by apply (Hm2 t).
  assert (sign zt = 1) as S1.
  { destruct (valid_sign zt Vzt) as [E|[E|E]]; [rewrite value_zero in Wzt by done; lia|done|lia]. }
  rewrite value_pos in Wzt by done. apply run_bind. eapply run_destroy; [done|]. step run_set_sign. step run_set_neged. apply run_ret.
  assert (sign xa * sign xb = 1 \/ sign xa * sign xb = -1) as Hsign.
  { destruct (sign_cases xa Va) as [Sa _]; [intros E; by apply Za, value_zero|].
    destruct (sign_cases xb Vb) as [Sb _]; [intros E; by apply Zb, value_zero|]. lia. }
  set (x := mk_bigint _ _ _). assert (value x = value xa * value xb) as Wx.
  { unfold x. rewrite signed_value, Wzt, Ea, Eb by done. unfold P. ring. }
  assert (valid x) as Vx.
  { split; cbn [x sign items neged_with_sign]; [apply Vzt|lia| |lia]. intros _. by apply (valid_nonempty zt Vzt); rewrite S1. }
  destruct (frame_finish t (delete row m2) (delete row m2) x) as (G1 & G2 & _); [by apply frame_start, all_valid_delete|done|].
  apply HQ; [done|]. rewrite G2, view_delete, Hv2, delete_insert_eq, delete_insert_ne, delete_insert_eq, delete_id, insert_insert_eq; [|by unfold view; rewrite lookup_fmap, Hrow|congruence].
  rewrite Wx. do 2 f_equal. cbn [x sign]. rewrite Ea, Eb. replace (sign xa * digits (items xa) * (sign xb * digits (items xb))) with (sign xa * sign xb * P) by (unfold P; ring).
  destruct Hsign as [-> | ->]; lia.
Qed.

Lemma exec_mul r a b v z va vb Q :
  v !! r = Some z -> v !! a = Some (Z.sgn va, va) -> v !! b = Some (Z.sgn vb, vb) -> r = a \/ r <> b ->
  recoverable va -> recoverable vb ->
  Q 0 (<[r := (Z.sgn (va * vb), va * vb)]> v) -> exec (bigint_mul (Some r) (Some a) (Some b)) v Q.
Proof using HM HP.
  intros Hr Ha Hb Hrb Ra Rb HQ. unfold bigint_mul. cbn [is_null orb]. apply exec_bind. eapply exec_open_result; [done|].
  intros t v' Hw. destruct (working_lookup r a b v t v' _ _ Hw Hrb Ha Hb) as (Hta & Htb & Ht & Ha' & Hb').
  intros m Hm Hv. rewrite <- Hv in Ht, Ha', Hb'. apply view_lookup_inv in Ht as (xt & Hxt & St & _).
  apply view_lookup_inv in Ha' as (xa & Hxa & Sa & Va). apply view_lookup_inv in Hb' as (xb & Hxb & Sb & Vb).
  step_load. step_load. rewrite Sb. destruct ((sign xa =? 0) || (Z.sgn vb =? 0)) eqn:E0.
  { assert (va * vb = 0) as E by (apply orb_prop in E0 as [E%Z.eqb_eq|E%Z.eqb_eq]; nia). rewrite E in HQ.
    refine (exec_bind _ _ v' Q _ m Hm Hv). eapply exec_set_sign_zero; [rewrite <- Hv; by apply view_lookup|]. by eapply exec_close_result. }
  assert (va <> 0 /\ vb <> 0) as [Na Nb] by lia. clear E0.
  eapply run_magnitudes; [done|done|done|by rewrite Va|by rewrite Vb|]. intros m' ya yb Hm' Hv' Hya Hyb Ga Gb.
  pose proof (view_lookup m a xa Hxa) as Xa. pose proof (view_lookup m b xb Hxb) as Xb. pose proof (view_lookup m t xt Hxt) as Xt.
  rewrite <- Hv' in Xa, Xb, Xt. rewrite (view_lookup m' a ya Hya) in Xa. rewrite (view_lookup m' b yb Hyb) in Xb.
  injection Xa as Eya1 Eya2. injection Xb as Eyb1 Eyb2. apply view_lookup_inv in Xt as (yt & Hyt & Syt & _).
  apply run_or_fail. eapply run_mul_rows; [done|done|done|done|done|done|congruence|done|done|congruence|congruence|].
  intros m2 Hm2 Hv2. split; [done|]. rewrite Eya2, Eyb2, Va, Vb, Hv', Hv in Hv2.
  eapply (exec_close_result r a v t v' z (Z.sgn (va * vb), va * vb)); done.
Qed.
End Products.
