(* ===== verification/BigIntDiv.v ===== *)
(** * Big integers: division *)

From S2P Require Import Prelude BigInt BigIntArith BigIntDigits BigIntTheory BigIntRun BigIntSum BigIntBits BigIntShift BigIntMul.

Section Division.
Context {HM : Machine} {HP : Plenty HM}.

(** ** The long division *)

Lemma exec_normalize p v s n Q :
  v !! p = Some (s, n) -> 0 <= s -> Q 0 (<[p := (Z.sgn n, n)]> v) -> exec (bigint_remove_leading_zeros (Some p)) v Q.
Proof using HM.
  intros Hp Hs HQ m Hm <-. apply view_lookup_inv in Hp as (x & Hx & Es & Ev). assert (valid x) as Vx by by apply (Hm p).
  eapply run_normalize; [done|].
  assert (valid (normalize x) /\ normal (normalize x) /\ value (normalize x) = value x) as (H1 & H2 & H3).
  { destruct (valid_sign x Vx) as [E|[E|E]]; [|apply normalize_correct; split_and!; [apply Vx|lia|lia]|lia].
    rewrite (value_zero x E). unfold normalize. pose proof (strip_zeros_ok _ (valid_items x Vx)).
    case_bool_decide; cbn; rewrite ?E; cbn; split_and!; try done; split; cbn; auto; lia. }
  destruct (exec_replace m p x _ Hm Hx H1) as [G1 G2]. split; [done|]. by rewrite G2, H2, H3, Ev.
Qed.

Lemma testbit_shiftr_step n k : 0 <= k -> n / 2 ^ k = 2 * (n / 2 ^ (k + 1)) + Z.b2z (Z.testbit n k).
Proof using.
  intros Hk. rewrite Z.testbit_spec' by done. rewrite Z.pow_add_r, <- Z.div_div, Z.pow_1_r by lia. by apply Z.div_mod.
Qed.

(** The bits of [a] below [n] are still to come. *)
Lemma exec_div_loop n q t a b temps v0 qv rv va vb Q :
  q <> t -> q <> a -> q <> b -> t <> a -> t <> b ->
  v0 !! a = Some (Z.sgn va, va) -> v0 !! b = Some (Z.sgn vb, vb) -> 0 <= va -> 0 < vb ->
  0 <= qv -> 0 <= rv < vb -> va / 2 ^ Z.of_nat n = qv * vb + rv ->
  Q 0 (<[q := (Z.sgn (va / vb), va / vb)]> (<[t := (Z.sgn (va mod vb), va mod vb)]> v0)) ->
  exec (div_loop n (Some q) (Some t) (Some a) (Some b) temps)
    (<[q := (Z.sgn qv, qv * 2 ^ Z.of_nat n)]> (<[t := (Z.sgn rv, rv)]> v0)) Q.
Proof using HM HP.
  intros Hqt Hqa Hqb Hta Htb Ha Hb Hva Hvb. revert qv rv. induction n as [|n IH]; intros qv rv Hq Hr Hdiv HQ; cbn [div_loop].
  { apply exec_ret. change (2 ^ Z.of_nat 0) with 1 in *. rewrite Z.div_1_r in Hdiv. rewrite Z.mul_1_r.
    assert (va / vb = qv) as <- by (symmetry; apply (Z.div_unique_pos _ _ _ rv); lia).
    assert (va mod vb = rv) as <- by (symmetry; apply (Z.mod_unique_pos _ _ (va / vb)); lia). done. }
  pose proof (testbit_shiftr_step va (Z.of_nat n) ltac:(lia)) as Hbit. rewrite Nat2Z.inj_succ in *. unfold Z.succ in *. rewrite Hdiv in Hbit.
  set (b0 := Z.testbit va (Z.of_nat n)) in *. set (r1 := 2 * rv + Z.b2z b0) in *.
  assert (0 <= Z.b2z b0 <= 1) as Hb0 by (destruct b0; cbn; lia). assert (0 <= r1 < 2 * vb) as Hr1 by lia.
  assert (qv * 2 ^ (Z.of_nat n + 1) = 2 * qv * 2 ^ Z.of_nat n) as Eq by (rewrite Z.pow_add_r by lia; ring). rewrite Eq. clear Eq.
  assert (forall y z w : Z * Z, <[t := w]> (<[q := y]> (<[t := z]> v0)) = <[q := y]> (<[t := w]> v0)) as Hins.
  { intros. rewrite insert_insert_ne by done. by rewrite insert_insert_eq. }
  apply exec_or_fail. eapply exec_shl_one; [rewrite lookup_insert_ne by done; apply lookup_insert_eq|lia|]. rewrite Hins. split; [done|].
  apply exec_bind. eapply exec_get_bit; [rewrite !lookup_insert_ne by done; exact Ha|done|lia|]. fold b0. cbn [fst snd Z.eqb].
  apply exec_or_fail.
  assert (exec (if b0 then bigint_set_bit (Some t) 0 true else mret 0)
    (<[q := (Z.sgn qv, 2 * qv * 2 ^ Z.of_nat n)]> (<[t := (Z.sgn (2 * rv), 2 * rv)]> v0))
    (fun rc v' => rc = 0 /\ v' = <[q := (Z.sgn qv, 2 * qv * 2 ^ Z.of_nat n)]> (<[t := (Z.sgn r1, r1)]> v0))) as Hset.
  { unfold r1. destruct b0; cbn [Z.b2z]; [|apply exec_ret; split; [done|]; by rewrite Z.add_0_r].
    eapply exec_set_bit; [rewrite lookup_insert_ne by done; apply lookup_insert_eq|lia|lia|]. split; [done|]. rewrite Hins.
    assert (Z.lor (2 * rv) (2 ^ 0) = 2 * rv + 1) as -> by (apply (lor_low_add 1); [lia|rewrite Z.mul_comm; apply Z.mod_mul; lia|lia]).
    replace (Z.sgn (2 * rv + 1)) with 1 by lia. done. }
  eapply exec_mono; [exact Hset|]. intros rc v' [-> ->]. split; [done|].
  apply exec_bind. eapply exec_cmp; [rewrite lookup_insert_ne by done; apply lookup_insert_eq|rewrite !lookup_insert_ne by done; exact Hb|apply recoverable_nonneg; lia|apply recoverable_nonneg; lia|].
  assert (va / 2 ^ Z.of_nat n = 2 * qv * vb + r1) as E1 by (unfold r1; lia). clear Hset Hdiv Hbit.
  clearbody r1. destruct (Z.lt_ge_cases r1 vb) as [Hlt|Hge].
  - rewrite (Z.sgn_neg (r1 - vb)) by lia. cbn [Z.eqb Pos.eqb negb].
    assert (Z.sgn qv = Z.sgn (2 * qv)) as -> by lia. apply IH; [lia|lia|done|done].
  - assert ((Z.sgn (r1 - vb) =? -1) = false) as -> by lia. cbn [negb]. apply exec_or_fail.
    eapply exec_sub; [rewrite lookup_insert_ne by done; apply lookup_insert_eq|rewrite lookup_insert_ne by done; apply lookup_insert_eq
      |rewrite !lookup_insert_ne by done; exact Hb|lia|left; lia|left; lia|].
    rewrite Hins. split; [done|]. rewrite (Z.sgn_pos vb) by done. cbn [Z.eqb]. apply exec_or_fail.
    eapply exec_set_bit; [apply lookup_insert_eq|by apply Z.sgn_nonneg|lia|]. rewrite insert_insert_eq. split; [done|].
    assert (Z.lor (2 * qv * 2 ^ Z.of_nat n) (2 ^ Z.of_nat n) = (2 * qv + 1) * 2 ^ Z.of_nat n) as ->.
    { pose proof (Z.pow_pos_nonneg 2 (Z.of_nat n) ltac:(lia) ltac:(lia)). rewrite (lor_low_add (Z.of_nat n + 1)); [lia|lia| |].
      - rewrite (Z.mul_comm 2), <- Z.mul_assoc, <- Z.pow_succ_r by lia. apply Z.mod_mul. lia.
      - rewrite Z.pow_add_r by lia. lia. }
    pose proof (IH (2 * qv + 1) (r1 - vb)) as IH'. rewrite (Z.sgn_pos (2 * qv + 1)) in IH' by lia. apply IH'; [lia|lia|lia|done].
Qed.

Lemma exec_bit_length p v n Q :
  v !! p = Some (Z.sgn n, n) -> 0 < n -> Q (Z.log2 n) v -> exec (bigint_bit_length (Some p)) v Q.
Proof using HM.
  intros Hp Hn HQ m Hm <-. apply view_lookup_inv in Hp as (x & Hx & Es & Ev). rewrite Z.sgn_pos in Es by done.
  eapply run_bit_length; [done|by apply (Hm p)|lia|]. split; [done|]. rewrite <- value_pos, Ev by done. done.
Qed.

(** Where the remainder goes. *)
Definition put_remainder (remainder : option loc) (y : Z * Z) (v : gmap loc (Z * Z)) : gmap loc (Z * Z) :=
  match remainder with Some p => <[p := y]> v | None => v end.

Lemma exec_div_unsigned r remainder a b v z va vb Q :
  v !! r = Some z -> v !! a = Some (Z.sgn va, va) -> v !! b = Some (Z.sgn vb, vb) -> r = a \/ r <> b ->
  (forall p, remainder = Some p -> p <> r /\ is_Some (v !! p)) -> 0 < va -> 0 < vb ->
  Q 0 (<[r := (Z.sgn (va / vb), va / vb)]> (put_remainder remainder (Z.sgn (va mod vb), va mod vb) v)) ->
  exec (bigint_div_unsigned (Some r) remainder (Some a) (Some b)) v Q.
Proof using HM HP.
  intros Hr Ha Hb Hrb Hrem Hva Hvb HQ. unfold bigint_div_unsigned. cbn [is_null orb]. apply exec_bind. eapply exec_open_result; [done|].
  intros t v' Hw. destruct (working_lookup r a b v t v' _ _ Hw Hrb Ha Hb) as (Hta & Htb & Ht & Ha' & Hb').
  apply exec_bind. eapply exec_load; [done|]. intros xb _ Sb _. rewrite Sb, (Z.sgn_pos vb) by done. cbn [Z.eqb].
  apply exec_bind. eapply exec_load; [done|]. intros xa _ Sa _. rewrite Sa, (Z.sgn_pos va) by done. cbn [Z.eqb].
  apply exec_bind. eapply exec_bit_length; [exact Ha'|done|]. apply exec_bind. eapply exec_bit_length; [exact Hb'|done|].
  apply exec_bind, exec_create. intros u Hu. cbn [is_null]. assert (t <> u /\ u <> a /\ u <> b) as (Htu & Hua & Hub) by (split_and!; congruence).
  set (n := Z.to_nat _). assert (va / 2 ^ Z.of_nat n = 0 * vb + 0) as H0.
  { pose proof (Z.log2_nonneg va). unfold n. rewrite Z2Nat.id by lia. cbn. apply Z.div_small. split; [lia|].
    apply Z.log2_lt_pow2; [done|]. lia. }
  clearbody n. apply exec_or_fail.
  replace (<[u := (0, 0)]> v') with (<[t := (Z.sgn 0, 0 * 2 ^ Z.of_nat n)]> (<[u := (Z.sgn 0, 0)]> v')).
  2: { rewrite Z.mul_0_l. apply insert_id. by rewrite lookup_insert_ne. }
  apply (exec_div_loop n t u a b _ v' 0 0 va vb); try done; [lia|]. split; [done|]. clear H0 n.
  set (q := va / vb) in *. set (rm := va mod vb) in *. set (v1 := <[t := (Z.sgn q, q)]> _).
  pose proof (Z.mod_pos_bound va vb Hvb) as Hrm. fold rm in Hrm.
  pose proof (Z.div_pos va vb ltac:(lia) Hvb) as Hq. fold q in Hq.
  assert (exec (if is_null remainder then mret tt
     else bigint_remove_leading_zeros (Some u) ;; bigint_set_bigint remainder (Some u) ;; mret tt) v1
     (fun _ v2 => v2 = put_remainder remainder (Z.sgn rm, rm) v1)) as Hput.
  { destruct remainder as [p|]; cbn [is_null put_remainder]; [|by apply exec_ret]. destruct (Hrem p eq_refl) as [Hpr [y Hy]].
    assert (v1 !! u = Some (Z.sgn rm, rm)) as Hu1 by (unfold v1; rewrite lookup_insert_ne by done; apply lookup_insert_eq).
    apply exec_bind. eapply exec_normalize; [exact Hu1|apply Z.sgn_nonneg; lia|]. rewrite insert_id by done.
    assert (is_Some (v1 !! p)) as [y' Hy'].
    { unfold v1. destruct (decide (t = p)) as [->|]; [rewrite lookup_insert_eq; done|]. rewrite lookup_insert_ne by done.
      destruct (decide (u = p)) as [->|]; [rewrite lookup_insert_eq; done|]. rewrite lookup_insert_ne by done.
      unfold working in Hw. destruct (decide (r = a)); destruct Hw as [? ->]; rewrite lookup_insert_ne; done || congruence. }
    apply exec_bind. eapply exec_set_bigint; [exact Hy'|exact Hu1|]. by apply exec_ret. }
  apply exec_bind. eapply exec_mono; [exact Hput|]. intros _ v2 ->. set (y := (Z.sgn rm, rm)) in *.
  assert (forall p, remainder = Some p -> p <> t /\ p <> u) as Hpt.
  { intros p Hp. destruct (Hrem p Hp) as [Hpr [w Hpw]]. unfold working in Hw.
    destruct (decide (r = a)); destruct Hw as [? ->]; split; try congruence; intros ->; rewrite lookup_insert_ne in Hu; congruence. }
  assert (put_remainder remainder y v1 = <[u := y]> (<[t := (Z.sgn q, q)]> (put_remainder remainder y v'))) as ->.
  { unfold v1. rewrite insert_insert_ne by done. destruct remainder as [p|]; [|done]. destruct (Hpt p eq_refl). cbn.
    rewrite insert_insert_ne by done. f_equal. by rewrite insert_insert_ne. }
  assert (put_remainder remainder y v' !! u = None) as Hun.
  { destruct remainder as [p|]; [|done]. destruct (Hpt p eq_refl). cbn. by rewrite lookup_insert_ne. }
  apply exec_bind. eapply exec_destroy; [apply lookup_insert_eq|]. rewrite delete_insert_eq, delete_id by (by rewrite lookup_insert_ne).
  apply exec_bind. eapply exec_normalize; [apply lookup_insert_eq|by apply Z.sgn_nonneg|]. rewrite insert_insert_eq.
  eapply (exec_close_result r a (put_remainder remainder y v)); [|destruct remainder as [p|]; [cbn; rewrite lookup_insert_ne by apply (Hrem p eq_refl)|]; exact Hr|done].
  unfold working in *. destruct (decide (r = a)), Hw as [H1 ->]; (split; [|destruct remainder as [p|]; [|done]; destruct (Hpt p eq_refl), (Hrem p eq_refl); cbn; rewrite insert_insert_ne; congruence]); [|done].
  destruct remainder as [p|]; [|done]. destruct (Hpt p eq_refl). cbn. by rewrite lookup_insert_ne.
Qed.

(** ** Quotient and remainder of numbers that are not negative *)

Lemma exec_destroy_temp r a v t v' y z b Q :
  working r a v t v' -> v !! r = Some y -> b = bool_decide (Some r = Some a) ->
  Q tt (if decide (r = a) then v else <[r := (0, 0)]> v) -> z = Some t ->
  exec (destroy_all (temp b z)) v' Q.
Proof using HM HP.
  unfold working. intros Hw Hr -> HQ ->. destruct (decide (r = a)) as [->|].
  - rewrite bool_decide_true by done. destruct Hw as [Ht ->]. cbn [temp destroy_all]. apply exec_bind. eapply exec_destroy; [apply lookup_insert_eq|].
    rewrite delete_insert_eq, delete_id by done. by apply exec_ret.
  - rewrite bool_decide_false by congruence. destruct Hw as [-> ->]. by apply exec_ret.
Qed.

Lemma exec_div_with_remainder r remainder a b v z va vb Q :
  v !! r = Some z -> v !! a = Some (Z.sgn va, va) -> v !! b = Some (Z.sgn vb, vb) -> r = a \/ r <> b ->
  (forall p, remainder = Some p -> p <> r /\ is_Some (v !! p)) -> 0 < va -> 0 < vb ->
  Q 0 (<[r := (Z.sgn (va / vb), va / vb)]> (put_remainder remainder (Z.sgn (va mod vb), va mod vb) v)) ->
  exec (bigint_div_with_remainder (Some r) remainder (Some a) (Some b)) v Q.
Proof using HM HP.
  intros Hr Ha Hb Hrb Hrem Hva Hvb HQ. unfold bigint_div_with_remainder. cbn [is_null orb]. apply exec_bind. eapply exec_open_result; [done|].
  intros t v' Hw. destruct (working_lookup r a b v t v' _ _ Hw Hrb Ha Hb) as (Hta & Htb & Ht & Ha' & Hb').
  apply exec_bind. eapply exec_load; [done|]. intros xb _ Sb _. rewrite Sb, (Z.sgn_pos vb) by done. cbn [Z.eqb].
  apply exec_bind. eapply exec_load; [done|]. intros xa _ Sa _. rewrite Sa, (Z.sgn_pos va) by done. cbn [Z.eqb Pos.eqb andb].
  apply exec_bind. eapply exec_destroy_temp; [done|done|done| |done].
  set (v2 := if decide (r = a) then v else _). assert (v2 = v \/ (r <> a /\ v2 = <[r := (0, 0)]> v)) as Hv2 by (unfold v2; destruct (decide (r = a)); auto).
  clearbody v2. destruct Hv2 as [->|[Hne ->]]; [by eapply exec_div_unsigned|].
  eapply exec_div_unsigned; [apply lookup_insert_eq|by rewrite lookup_insert_ne|rewrite lookup_insert_ne; [done|tauto]|done| |done|done|].
  - intros p Hp. destruct (Hrem p Hp). split; [done|]. by rewrite lookup_insert_ne.
  - destruct remainder as [p|]; cbn in *; [|by rewrite insert_insert_eq]. destruct (Hrem p eq_refl).
    rewrite (insert_insert_ne v p r), insert_insert_eq by done. done.
Qed.

Lemma exec_mod r a b v z va vb Q :
  v !! r = Some z -> v !! a = Some (Z.sgn va, va) -> v !! b = Some (Z.sgn vb, vb) -> 0 < va -> 0 < vb ->
  Q 0 (<[r := (Z.sgn (va mod vb), va mod vb)]> v) -> exec (bigint_mod (Some r) (Some a) (Some b)) v Q.
Proof using HM HP.
  intros Hr Ha Hb Hva Hvb HQ. unfold bigint_mod. cbn [is_null orb]. apply exec_bind, exec_create. intros p Hp. apply exec_bind, exec_create. intros q Hq.
  assert (p <> q) as Hpq by (intros ->; by rewrite lookup_insert_eq in Hq). rewrite lookup_insert_ne in Hq by done. cbn [is_null orb].
  assert (p <> a /\ p <> b /\ p <> r /\ q <> a /\ q <> b /\ q <> r) as (? & ? & ? & ? & ? & ?) by (split_and!; congruence).
  apply exec_or_fail. eapply (exec_div_with_remainder p (Some q)); [rewrite lookup_insert_ne by done; apply lookup_insert_eq|rewrite !lookup_insert_ne by done; exact Ha
    |rewrite !lookup_insert_ne by done; exact Hb|by right| |done|done|].
  { intros w [= <-]. split; [done|]. by rewrite lookup_insert_eq. }
  cbn [put_remainder]. rewrite insert_insert_eq. split; [done|]. set (y := (Z.sgn (va mod vb), va mod vb)) in *.
  rewrite (insert_insert_ne _ q p), insert_insert_eq by done. set (v1 := <[p := _]> _).
  assert (v1 !! a = Some (Z.sgn va, va) /\ v1 !! b = Some (Z.sgn vb, vb)) as [Ha1 Hb1] by (unfold v1; rewrite !lookup_insert_ne by done; done).
  apply exec_bind. eapply exec_load; [done|]. intros xa _ Sa _. apply exec_bind. eapply exec_load; [done|]. intros xb _ Sb _.
  rewrite Sa, Sb, (Z.sgn_pos va), (Z.sgn_pos vb) by done. cbn [Z.ltb Z.compare andb]. apply exec_or_fail, exec_ret. split; [done|].
  apply exec_bind. eapply exec_destroy; [unfold v1; apply lookup_insert_eq|]. unfold v1. rewrite delete_insert_eq, delete_id by (by rewrite lookup_insert_ne).
  pose proof (Z.mod_pos_bound va vb Hvb) as Hm. apply exec_bind. eapply exec_normalize; [apply lookup_insert_eq|apply Z.sgn_nonneg; lia|]. rewrite insert_insert_eq.
  apply exec_or_fail. eapply exec_set_bigint; [rewrite lookup_insert_ne by done; exact Hr|apply lookup_insert_eq|]. split; [done|]. fold y.
  apply exec_bind. eapply exec_destroy; [rewrite lookup_insert_ne by done; apply lookup_insert_eq|]. apply exec_ret.
  rewrite insert_insert_ne, delete_insert_eq, delete_id by (done || by rewrite lookup_insert_ne). done.
Qed.
End Division.
