(* ===== verification/BigIntPow.v ===== *)
(** * Big integers: powers and the greatest common divisor *)

From Stdlib Require Import Zdivisibility.
From S2P Require Import Prelude BigInt BigIntArith BigIntDigits BigIntTheory BigIntRun BigIntSum BigIntBits BigIntShift BigIntMul BigIntDiv.

(** ** Small facts about powers *)

Lemma pow_odd_step b e : 0 < e -> Z.odd e = true -> b * (b * b) ^ (e / 2) = b ^ e.
Proof.
  intros He Ho. pose proof (Z.div_mod e 2 ltac:(lia)) as E. rewrite Zmod_odd, Ho in E. pose proof (Z.div_pos e 2 ltac:(lia) ltac:(lia)).
  rewrite <- Z.pow_2_r, <- Z.pow_mul_r by lia. rewrite E at 2. rewrite Z.pow_add_r, Z.pow_1_r by lia. ring.
Qed.

Lemma pow_even_step b e : 0 < e -> Z.odd e = false -> (b * b) ^ (e / 2) = b ^ e.
Proof.
  intros He Ho. pose proof (Z.div_mod e 2 ltac:(lia)) as E. rewrite Zmod_odd, Ho in E. pose proof (Z.div_pos e 2 ltac:(lia) ltac:(lia)).
  rewrite <- Z.pow_2_r, <- Z.pow_mul_r by lia. f_equal. lia.
Qed.

(** Numbers without a common divisor with the modulus. *)
Definition unit_mod (c x : Z) : Prop := 0 < x < c /\ Z.coprime x c.

Lemma unit_mod_intro c x : 1 < c -> Z.coprime x c -> unit_mod c (x mod c).
Proof.
  intros Hc Hx. assert (Z.coprime (x mod c) c) as Hr by (by apply Z.coprime_mod_l_iff). split; [|done].
  pose proof (Z.mod_pos_bound x c ltac:(lia)). destruct (decide (x mod c = 0)) as [E|]; [|lia]. exfalso.
  rewrite E in Hr. unfold Z.coprime in Hr. rewrite Z.gcd_0_l in Hr. lia.
Qed.

Lemma unit_mod_mul c x y : 1 < c -> unit_mod c x -> unit_mod c y -> unit_mod c ((x * y) mod c).
Proof. intros Hc [_ Hx] [_ Hy]. apply unit_mod_intro; [done|]. by apply Z.coprime_mul_l. Qed.

Section Powers.
Context {HM : Machine} {HP : Plenty HM}.

Lemma exec_is_odd p v n Q : v !! p = Some (Z.sgn n, n) -> 0 <= n -> Q (Z.odd n) v -> exec (bigint_is_odd (Some p)) v Q.
Proof using HM.
  intros Hp Hn HQ m Hm <-. apply view_lookup_inv in Hp as (x & Hx & Es & Ev). assert (valid x) as Vx by by apply (Hm p).
  unfold bigint_is_odd. cbn [is_null]. step_load. destruct (Z.eqb_spec (sign x) 0) as [E|E].
  { apply run_ret. split; [done|]. assert (n = 0) as E0 by lia. by rewrite E0 in HQ. }
  assert (sign x = 1) as S1 by (destruct (valid_sign x Vx) as [|[]]; lia). rewrite value_pos in Ev by done.
  pose proof (valid_nonempty x Vx E). apply run_bind. unfold lsb_value. destruct (items x) as [|w l] eqn:El; [done|]. apply run_ret, run_ret.
  split; [done|]. change (Z.land w 1) with (Z.land w (Z.ones 1)). rewrite Z.land_ones by lia. cbn [digits] in Ev.
  assert (Z.odd n = Z.odd w) as E2.
  { rewrite <- Ev, Z.odd_add, Z.odd_mul. change (Z.odd base) with false. by rewrite andb_false_l, xorb_false_r. }
  rewrite E2 in HQ. change (2 ^ 1) with 2. rewrite Zmod_odd. by destruct (Z.odd w).
Qed.

Lemma run_set_word p m x w Q :
  m !! p = Some x -> 0 <= w < 2 ^ 64 ->
  (forall l, Forall item_ok l -> l <> [] -> digits l = w -> Q 0 (<[p := mk_bigint l (sign x) (neged_with_sign x)]> m)) ->
  run (set_word (Some p) w) m Q.
Proof using HM HP.
  intros Hp Hw HQ. unfold set_word. apply run_bind, run_malloc_item. cbn [negb]. rewrite max_base. destruct (Z.ltb_spec (base - 1) w).
  - apply run_bind, run_malloc_item. cbn [negb]. step run_set_items. apply run_ret. rewrite <- max_base, land_max, shiftr_item. apply HQ; [|done|].
    + repeat constructor; [apply item_ok_mod..|apply Z.div_pos; [lia|done]|]. apply Z.div_lt_upper_bound; [done|]. unfold base. lia.
    + cbn [digits]. pose proof (Z.div_mod w base ltac:(done)). lia.
  - step run_set_items. apply run_ret. apply HQ; [repeat constructor; lia|done|cbn [digits]; lia].
Qed.

Lemma exec_set_uint64 p v y w Q :
  v !! p = Some y -> 0 <= w < 2 ^ 64 -> Q 0 (<[p := (Z.sgn w, w)]> v) -> exec (bigint_set_uint64 (Some p) w) v Q.
Proof using HM HP.
  intros Hp Hw HQ m Hm <-. destruct y. apply view_lookup_inv in Hp as (x & Hx & _ & _). unfold bigint_set_uint64.
  step run_destroy_items. destruct (Z.eqb_spec w 0) as [->|].
  - apply run_ret. destruct (exec_replace m p x _ Hm Hx empty_valid) as [H1 H2]. split; [done|]. by rewrite H2.
  - step run_set_sign. eapply run_set_word; [lookup_obj|done|]. intros l Fl Nl Dl. fold_stores.
    destruct (exec_replace m p x _ Hm Hx (positive_valid l false Fl Nl)) as [H1 H2]. split; [done|]. rewrite H2, value_pos by done. cbn [items sign].
    rewrite Dl. replace 1 with (Z.sgn w) by lia. done.
Qed.

Lemma exec_clone q v y Q : v !! q = Some y -> (forall p, v !! p = None -> Q (Some p) (<[p := y]> v)) -> exec (bigint_clone (Some q)) v Q.
Proof using HM HP.
  intros Hq HQ m Hm <-. destruct y. apply view_lookup_inv in Hq as (x & Hx & <- & <-). assert (valid x) as Vx by by apply (Hm q).
  eapply run_clone; [done|by apply valid_copyable|]. intros p Hp. destruct (frame_finish p m m x (frame_start p m Hm) Vx) as (H1 & H2 & _).
  split; [done|]. rewrite H2. apply HQ. unfold view. by rewrite lookup_fmap, Hp.
Qed.

Lemma fuel_bound x : valid x -> value x < 2 ^ Z.of_nat (bits_fuel x).
Proof using.
  intros Hx. pose proof (value_bound x Hx) as Hb. rewrite size_bits in Hb. unfold bits_fuel, BIGINT_ITEM_BITS.
  rewrite Nat2Z.inj_mul. change (Z.of_nat (Z.to_nat 48)) with 48. lia.
Qed.

(** ** Square and multiply *)

Section Loop.
Context (mul : ptr -> ptr -> ptr -> M Z) (f : Z -> Z -> Z) (pre : Z -> Z -> Prop) (I : Z -> Z -> Z -> Prop).
Context (t bp ep : loc) (temps : list ptr) (v0 : gmap loc (Z * Z)).
Context (Htb : t <> bp) (Hte : t <> ep) (Hbe : bp <> ep).

(** The numbers of the loop: the result, the base and the exponent. *)
Let st (r b e : Z) : gmap loc (Z * Z) := <[t := (Z.sgn r, r)]> (<[bp := (Z.sgn b, b)]> (<[ep := (Z.sgn e, e)]> v0)).

Context (Hmul_result : forall r b e Q, pre r b -> Q 0 (st (f r b) b e) -> exec (mul (Some t) (Some t) (Some bp)) (st r b e) Q).
Context (Hmul_base : forall r b e Q, pre b b -> Q 0 (st r (f b b) e) -> exec (mul (Some bp) (Some bp) (Some bp)) (st r b e) Q).
Context (Hstep : forall r b e, 0 < e -> I r b e ->
  pre b b /\ (Z.odd e = true -> pre r b) /\ I (if Z.odd e then f r b else r) (f b b) (e / 2)).

Lemma exec_pow_loop fuel r b e Q :
  I r b e -> 0 <= e < 2 ^ Z.of_nat fuel -> (forall r' b', I r' b' 0 -> Q 0 (st r' b' 0)) ->
  exec (pow_loop mul fuel (Some t) (Some bp) (Some ep) temps) (st r b e) Q.
Proof using All.
  revert r b e. induction fuel as [|fuel IH]; intros r b e HI He HQ; cbn [pow_loop].
  - assert (e = 0) as -> by (change (2 ^ Z.of_nat 0) with 1 in He; lia). apply exec_bind.
    eapply exec_load; [unfold st; rewrite !lookup_insert_ne by done; apply lookup_insert_eq|]. intros x _ -> _. cbn. apply exec_ret. by apply HQ.
  - apply exec_bind. assert (st r b e !! ep = Some (Z.sgn e, e)) as Hep by (unfold st; rewrite !lookup_insert_ne by done; apply lookup_insert_eq).
    eapply exec_load; [exact Hep|]. intros x _ -> _. destruct (decide (e = 0)) as [->|Hne]; [cbn; apply exec_ret; by apply HQ|].
    rewrite Z.sgn_pos by lia. cbn [Z.ltb Z.compare negb]. destruct (Hstep r b e ltac:(lia) HI) as (Pb & Pr & HI').
    apply exec_bind. eapply exec_is_odd; [exact Hep|lia|]. apply exec_or_fail.
    assert (exec (if Z.odd e then mul (Some t) (Some t) (Some bp) else mret 0) (st r b e)
      (fun rc v' => rc = 0 /\ v' = st (if Z.odd e then f r b else r) b e)) as Hodd.
    { destruct (Z.odd e); [by apply Hmul_result; auto|by apply exec_ret]. }
    eapply exec_mono; [exact Hodd|]. intros rc v' [-> ->]. split; [done|]. set (r' := if Z.odd e then f r b else r) in *.
    apply exec_or_fail. apply Hmul_base; [done|]. split; [done|]. apply exec_or_fail.
    eapply (exec_shr_one ep _ e); [unfold st; rewrite !lookup_insert_ne by done; apply lookup_insert_eq|lia|]. split; [done|].
    replace (<[ep := _]> (st r' (f b b) e)) with (st r' (f b b) (e / 2)).
    + apply IH; [done| |done]. rewrite Nat2Z.inj_succ, Z.pow_succ_r in He by lia. split; [apply Z.div_pos; lia|]. apply Z.div_lt_upper_bound; lia.
    + unfold st. rewrite !(insert_insert_ne _ ep) by done. by rewrite insert_insert_eq.
Qed.
End Loop.

(** What [bigint_pow] and [bigint_pow_mod] do when base and exponent are positive. *)
Lemma exec_pow_prologue r a b v z va vb k Q :
  v !! r = Some z -> v !! a = Some (Z.sgn va, va) -> v !! b = Some (Z.sgn vb, vb) -> r = a \/ r <> b -> 0 < va -> 0 < vb ->
  (forall t v', working r a v t v' -> exec (k (Some t) (temp (bool_decide (Some r = Some a)) (Some t))) v' Q) ->
  exec (pow_prologue (Some r) (Some a) (Some b) k) v Q.
Proof using HM HP.
  intros Hr Ha Hb Hrb Hva Hvb Hk. unfold pow_prologue. apply exec_bind. eapply exec_open_result; [done|].
  intros t v' Hw. destruct (working_lookup r a b v t v' _ _ Hw Hrb Ha Hb) as (_ & _ & _ & Ha' & Hb').
  apply exec_bind. eapply exec_load; [done|]. intros xa _ Sa _. apply exec_bind. eapply exec_load; [done|]. intros xb _ Sb _.
  rewrite Sa, Sb, (Z.sgn_pos va), (Z.sgn_pos vb) by done. cbn [Z.eqb Z.ltb Z.compare andb]. by apply Hk.
Qed.

(** The copies of base and exponent go. *)
Lemma exec_destroy_copies t v' bp ep y y1 y2 Q :
  t <> bp -> t <> ep -> bp <> ep -> v' !! bp = None -> v' !! ep = None -> Q tt (<[t := y]> v') ->
  exec (destroy_all [Some bp; Some ep]) (<[t := y]> (<[bp := y1]> (<[ep := y2]> v'))) Q.
Proof using HM.
  intros Htb Hte Hbe Hb He HQ. cbn [destroy_all]. apply exec_bind.
  eapply exec_destroy; [rewrite lookup_insert_ne by done; apply lookup_insert_eq|]. apply exec_bind.
  eapply exec_destroy; [rewrite lookup_delete_ne, !lookup_insert_ne by done; apply lookup_insert_eq|]. apply exec_ret.
  replace (delete ep _) with (<[t := y]> v'); [done|].
  rewrite (insert_insert_ne _ t bp), delete_insert_eq, delete_insert_ne, (delete_insert_ne _ bp ep) by done.
  rewrite (delete_id v' bp), delete_insert_ne, delete_insert_eq, delete_id by done. done.
Qed.

Lemma exec_pow r a b v z va vb Q :
  v !! r = Some z -> v !! a = Some (Z.sgn va, va) -> v !! b = Some (Z.sgn vb, vb) -> r = a \/ r <> b -> 0 < va -> 0 < vb ->
  Q 0 (<[r := (Z.sgn (va ^ vb), va ^ vb)]> v) -> exec (bigint_pow (Some r) (Some a) (Some b)) v Q.
Proof using HM HP.
  intros Hr Ha Hb Hrb Hva Hvb HQ. unfold bigint_pow. cbn [is_null orb]. eapply exec_pow_prologue; [done..|]. intros t v' Hw.
  destruct (working_lookup r a b v t v' _ _ Hw Hrb Ha Hb) as (Hta & Htb & Ht & Ha' & Hb').
  apply exec_bind. eapply exec_clone; [exact Ha'|]. intros bp Hbp. cbn [is_null]. assert (t <> bp /\ bp <> a /\ bp <> b) as (? & ? & ?) by (split_and!; congruence).
  apply exec_bind. eapply exec_clone; [rewrite lookup_insert_ne by done; exact Hb'|]. intros ep Hep. cbn [is_null].
  assert (bp <> ep) by (intros ->; by rewrite lookup_insert_eq in Hep). rewrite lookup_insert_ne in Hep by done. assert (t <> ep) by congruence.
  apply exec_or_fail. eapply exec_set_uint64; [rewrite !lookup_insert_ne by done; exact Ht|lia|]. split; [done|].
  rewrite (insert_insert_ne v' ep bp) by done. apply exec_bind.
  eapply exec_load; [rewrite !lookup_insert_ne by done; apply lookup_insert_eq|]. intros xe Vxe _ Wxe. apply exec_or_fail.
  eapply (exec_pow_loop bigint_mul Z.mul (fun x y => 0 <= x /\ 0 <= y) (fun x y e => 0 <= x /\ 0 <= y /\ x * y ^ e = va ^ vb)); [done..| | | | | |].
  - intros x y e P [Hx Hy] HP'. eapply exec_mul; [apply lookup_insert_eq|apply lookup_insert_eq|rewrite lookup_insert_ne by done; apply lookup_insert_eq|by left|by apply recoverable_nonneg|by apply recoverable_nonneg|].
    by rewrite insert_insert_eq.
  - intros x y e P [_ Hy] HP'. eapply exec_mul; [rewrite lookup_insert_ne by done; apply lookup_insert_eq|rewrite lookup_insert_ne by done; apply lookup_insert_eq|rewrite lookup_insert_ne by done; apply lookup_insert_eq|by left|by apply recoverable_nonneg|by apply recoverable_nonneg|].
    rewrite (insert_insert_ne _ bp t), insert_insert_eq by done. done.
  - intros x y e He (Hx & Hy & E). split_and!; [lia|lia|lia| |nia|].
    + destruct (Z.odd e); nia.
    + destruct (Z.odd e) eqn:Ho; [rewrite <- Z.mul_assoc, pow_odd_step by done; done|by rewrite pow_even_step].
  - split_and!; [lia|lia|]. by rewrite Z.mul_1_l.
  - rewrite <- Wxe. split; [lia|]. by apply fuel_bound.
  - intros x y (Hx & Hy & E). rewrite Z.pow_0_r, Z.mul_1_r in E. split; [done|]. subst x.
    apply exec_bind, exec_destroy_copies; [done..|]. by eapply exec_close_result.
Qed.

(** ** Powers modulo a number *)

Lemma exec_mul_mod p q c v x y vc Q :
  v !! p = Some (Z.sgn x, x) -> v !! q = Some (Z.sgn y, y) -> v !! c = Some (Z.sgn vc, vc) -> p <> c -> 0 < x -> 0 < y -> 0 < vc ->
  Q 0 (<[p := (Z.sgn ((x * y) mod vc), (x * y) mod vc)]> v) -> exec (bigint_mul_mod (Some p) (Some p) (Some q) (Some c)) v Q.
Proof using HM HP.
  intros Hp Hq Hc Hpc Hx Hy Hvc HQ. unfold bigint_mul_mod. cbn [is_null orb].
  apply exec_bind. eapply exec_load; [exact Hc|]. intros xc _ Sc _. rewrite Sc, (Z.sgn_pos vc) by done. cbn [Z.eqb].
  apply exec_bind. eapply exec_load; [exact Hp|]. intros xp _ Sp _.
  apply exec_bind. eapply exec_load; [exact Hq|]. intros xq _ Sq _. rewrite Sp, Sq, (Z.sgn_pos x), (Z.sgn_pos y) by done. cbn [Z.eqb orb].
  apply exec_or_fail. eapply exec_mul; [exact Hp|exact Hp|exact Hq|by left|apply recoverable_nonneg; lia|apply recoverable_nonneg; lia|]. split; [done|].
  apply exec_or_fail. eapply exec_mod; [apply lookup_insert_eq|apply lookup_insert_eq|rewrite lookup_insert_ne by done; exact Hc|by apply Z.mul_pos_pos|done|].
  split; [done|]. apply exec_ret. by rewrite insert_insert_eq.
Qed.

Lemma exec_pow_mod r a b c v z va vb vc Q :
  v !! r = Some z -> v !! a = Some (Z.sgn va, va) -> v !! b = Some (Z.sgn vb, vb) -> v !! c = Some (Z.sgn vc, vc) ->
  r = a \/ (r <> b /\ r <> c) -> 0 < va -> 0 < vb -> 1 < vc -> Z.coprime va vc ->
  Q 0 (<[r := (Z.sgn (va ^ vb mod vc), va ^ vb mod vc)]> v) -> exec (bigint_pow_mod (Some r) (Some a) (Some b) (Some c)) v Q.
Proof using HM HP.
  intros Hr Ha Hb Hc Hrb Hva Hvb Hvc Hco HQ. unfold bigint_pow_mod. cbn [is_null orb].
  eapply exec_pow_prologue; [done|done|done|tauto|done|done|]. intros t v' Hw.
  destruct (working_lookup r a b v t v' _ _ Hw ltac:(tauto) Ha Hb) as (Hta & Htb & Ht & Ha' & Hb').
  destruct (working_lookup r a c v t v' _ _ Hw ltac:(tauto) Ha Hc) as (_ & Htc & _ & _ & Hc').
  apply exec_bind. eapply exec_clone; [exact Ha'|]. intros bp Hbp. cbn [is_null].
  assert (t <> bp /\ bp <> a /\ bp <> b /\ bp <> c) as (? & ? & ? & ?) by (split_and!; congruence).
  apply exec_or_fail. eapply exec_mod; [apply lookup_insert_eq|apply lookup_insert_eq|rewrite lookup_insert_ne by done; exact Hc'|done|lia|].
  rewrite insert_insert_eq. split; [done|].
  apply exec_bind. eapply exec_clone; [rewrite lookup_insert_ne by done; exact Hb'|]. intros ep Hep. cbn [is_null].
  assert (bp <> ep) by (intros ->; by rewrite lookup_insert_eq in Hep). rewrite lookup_insert_ne in Hep by done.
  assert (t <> ep /\ ep <> c) as [? ?] by (split; congruence).
  apply exec_or_fail. eapply exec_set_uint64; [rewrite !lookup_insert_ne by done; exact Ht|lia|]. split; [done|].
  rewrite (insert_insert_ne v' ep bp) by done. apply exec_bind.
  eapply exec_load; [rewrite !lookup_insert_ne by done; apply lookup_insert_eq|]. intros xe Vxe _ Wxe. apply exec_or_fail.
  eapply (exec_pow_loop (fun r x y => bigint_mul_mod r x y (Some c)) (fun x y => (x * y) mod vc) (fun x y => unit_mod vc x /\ unit_mod vc y)
    (fun x y e => unit_mod vc x /\ unit_mod vc y /\ (x * y ^ e) mod vc = va ^ vb mod vc)); [done..| | | | | |].
  - intros x y e P [[Hx _] [Hy _]] HP'. eapply exec_mul_mod; [apply lookup_insert_eq|rewrite lookup_insert_ne by done; apply lookup_insert_eq|rewrite !lookup_insert_ne by done; exact Hc'|done|lia..|].
    by rewrite insert_insert_eq.
  - intros x y e P [_ [Hy _]] HP'. eapply exec_mul_mod; [rewrite lookup_insert_ne by done; apply lookup_insert_eq|rewrite lookup_insert_ne by done; apply lookup_insert_eq|rewrite !lookup_insert_ne by done; exact Hc'|done|lia..|].
    rewrite (insert_insert_ne _ bp t), insert_insert_eq by done. done.
  - intros x y e He (Hx & Hy & E). assert (unit_mod vc ((y * y) mod vc)) as Hyy by by apply unit_mod_mul.
    assert (unit_mod vc (if Z.odd e then (x * y) mod vc else x)) as Hxy by (destruct (Z.odd e); [by apply unit_mod_mul|done]).
    split; [done|]. split; [done|]. split; [done|]. split; [done|]. rewrite <- E, <- Zmult_mod_idemp_r, Z.mod_pow_l, Zmult_mod_idemp_r.
    destruct (Z.odd e) eqn:Ho; [|by rewrite pow_even_step]. rewrite Zmult_mod_idemp_l, <- Z.mul_assoc, pow_odd_step by done. done.
  - split; [split; [lia|apply Z.coprime_1_l]|]. split; [by apply unit_mod_intro|]. by rewrite Z.mul_1_l, Z.mod_pow_l.
  - rewrite <- Wxe. split; [lia|]. by apply fuel_bound.
  - intros x y ([Hx _] & _ & E). rewrite Z.pow_0_r, Z.mul_1_r, Z.mod_small in E by lia. subst x. split; [done|].
    apply exec_bind, exec_destroy_copies; [done..|]. apply exec_bind. eapply exec_normalize; [apply lookup_insert_eq|apply Z.sgn_nonneg; lia|].
    rewrite insert_insert_eq. by eapply exec_close_result.
Qed.

(** ** The greatest common divisor *)

Lemma log2_mod_lt x y : 0 < x < y -> Z.log2 (y mod x) < Z.log2 y.
Proof using.
  intros Hxy. pose proof (Z.mod_pos_bound y x ltac:(lia)). pose proof (Z.div_mod y x ltac:(lia)).
  assert (1 <= y / x) by (apply Z.div_le_lower_bound; lia). assert (y mod x + x <= y) by nia.
  destruct (decide (y mod x = 0)) as [->|]; [apply Z.log2_pos; lia|].
  pose proof (Z.log2_le_mono (2 * (y mod x)) y ltac:(lia)). rewrite Z.log2_double in * by lia. lia.
Qed.

Section Euclid.
Context (p pa pb : loc) (temps : list ptr) (v0 : gmap loc (Z * Z)).
Context (Hab : pa <> pb) (Hpa : p <> pa) (Hpb : p <> pb).

Let st (y : Z * Z) (x b : Z) : gmap loc (Z * Z) := <[p := y]> (<[pa := (Z.sgn x, x)]> (<[pb := (Z.sgn b, b)]> v0)).

Lemma exec_gcd_loop fuel y x b Q :
  0 <= x < b -> (x = 0 \/ Z.log2 x + Z.log2 b < Z.of_nat fuel) ->
  (forall y', Q 0 (st y' 0 (Z.gcd x b))) ->
  exec (gcd_loop fuel (Some p) (Some pa) (Some pb) temps) (st y x b) Q.
Proof using HM HP Hab Hpa Hpb.
  revert y x b. induction fuel as [|fuel IH]; intros y x b Hx Hf HQ; cbn [gcd_loop]; apply exec_bind;
    (eapply exec_load; [unfold st; rewrite lookup_insert_ne by done; apply lookup_insert_eq|]); intros xa _ -> _;
    (destruct (decide (x = 0)) as [->|Hx0]; [cbn; apply exec_ret; by rewrite Z.gcd_0_l, Z.abs_eq in HQ by lia|]).
  { pose proof (Z.log2_nonneg x). pose proof (Z.log2_nonneg b). exfalso. lia. }
  destruct Hf as [|Hf]; [done|]. rewrite Z.sgn_pos by lia. cbn [Z.eqb]. pose proof (Z.mod_pos_bound b x ltac:(lia)) as Hm.
  apply exec_or_fail. eapply (exec_mod p pb pa _ _ b x); [unfold st; apply lookup_insert_eq|unfold st; rewrite !lookup_insert_ne by done; apply lookup_insert_eq
    |unfold st; rewrite lookup_insert_ne by done; rewrite lookup_insert_eq; by rewrite Z.sgn_pos by lia|lia|lia|].
  split; [done|]. unfold st. rewrite insert_insert_eq. apply exec_or_fail.
  eapply (exec_set_bigint pb pa); [rewrite !lookup_insert_ne by done; apply lookup_insert_eq|rewrite lookup_insert_ne by done; apply lookup_insert_eq|].
  split; [done|]. apply exec_or_fail. eapply (exec_set_bigint pa p); [rewrite lookup_insert_ne by done; rewrite lookup_insert_ne by done; apply lookup_insert_eq|rewrite lookup_insert_ne by done; apply lookup_insert_eq|].
  split; [done|].
  replace (<[pa := _]> (<[pb := _]> _)) with (st (Z.sgn (b mod x), b mod x) (b mod x) x).
  - apply IH; [lia| |].
    + pose proof (log2_mod_lt x b ltac:(lia)). lia.
    + intros y'. rewrite Z.gcd_mod_l, Z.gcd_comm. apply HQ.
  - unfold st. rewrite (Z.sgn_pos x) by lia. rewrite (insert_insert_ne _ pb p), (insert_insert_ne _ pb pa), insert_insert_eq by done.
    rewrite (insert_insert_ne _ pa p), insert_insert_eq by done. done.
Qed.
End Euclid.

Lemma log2_fuel x : valid x -> 0 < value x -> Z.log2 (value x) < Z.of_nat (bits_fuel x).
Proof using. intros Hx Hv. apply Z.log2_lt_pow2; [done|]. by apply fuel_bound. Qed.

(** The loop and what follows it, on the copies [qa] of the smaller number and [qb]
    of the greater one. *)
Lemma exec_gcd_tail r a t v v' z p qa qb x y temps Q :
  working r a v t v' -> v !! r = Some z -> is_Some (v' !! t) ->
  v' !! p = None -> v' !! qa = None -> v' !! qb = None -> qa <> qb -> p <> qa -> p <> qb -> 0 <= x < y ->
  Q 0 (<[r := (Z.sgn (Z.gcd x y), Z.gcd x y)]> v) ->
  exec (xa ← load (Some qa);
        xb ← load (Some qb);
        or_fail (gcd_loop (bits_fuel xa + bits_fuel xb) (Some p) (Some qa) (Some qb) temps) (mret (-1)) (
        or_fail (bigint_set_bigint (Some t) (Some qb)) (fail_with (temps ++ [Some qa; Some qb; Some p])) (
        xr ← load (Some t);
        (if sign xr =? -1 then set_sign (Some t) 1 else mret tt) ;;
        bigint_remove_leading_zeros (Some t) ;;
        destroy_all [Some qa; Some qb; Some p] ;;
        close_result (bool_decide (Some r = Some a)) (Some r) (Some t))))
    (<[p := (0, 0)]> (<[qa := (Z.sgn x, x)]> (<[qb := (Z.sgn y, y)]> v'))) Q.
Proof using HM HP.
  intros Hw Hr [w Ht] Hp Hqa Hqb Hab Hpa Hpb Hxy HQ. assert (t <> p /\ t <> qa /\ t <> qb) as (Htp & Hta & Htb) by (split_and!; congruence).
  apply exec_bind. eapply exec_load; [rewrite lookup_insert_ne by done; apply lookup_insert_eq|]. intros xa Va _ Wa.
  apply exec_bind. eapply exec_load; [rewrite !lookup_insert_ne by done; apply lookup_insert_eq|]. intros xb Vb _ Wb.
  apply exec_or_fail. apply exec_gcd_loop; [done..| |].
  { destruct (decide (x = 0)); [by left|right]. rewrite Nat2Z.inj_add. pose proof (log2_fuel xa Va ltac:(lia)). pose proof (log2_fuel xb Vb ltac:(lia)). subst. lia. }
  intros y'. split; [done|]. set (g := Z.gcd x y) in *. pose proof (Z.gcd_nonneg x y : 0 <= g) as Hg. apply exec_or_fail.
  eapply exec_set_bigint; [rewrite !lookup_insert_ne by done; exact Ht|rewrite !lookup_insert_ne by done; apply lookup_insert_eq|]. split; [done|].
  apply exec_bind. eapply exec_load; [apply lookup_insert_eq|]. intros xr _ -> _. assert ((Z.sgn g =? -1) = false) as -> by lia.
  apply exec_bind, exec_ret. apply exec_bind. eapply exec_normalize; [apply lookup_insert_eq|by apply Z.sgn_nonneg|]. rewrite insert_insert_eq.
  cbn [destroy_all]. apply exec_bind, exec_bind. eapply exec_destroy; [rewrite !lookup_insert_ne by done; apply lookup_insert_eq|]. apply exec_bind.
  eapply exec_destroy; [rewrite lookup_delete_ne, !lookup_insert_ne by done; apply lookup_insert_eq|]. apply exec_bind.
  eapply exec_destroy; [rewrite !lookup_delete_ne, lookup_insert_ne by done; apply lookup_insert_eq|]. apply exec_ret.
  replace (delete p _) with (<[t := (Z.sgn g, g)]> v'); [by eapply exec_close_result|].
  apply map_eq. intros q. destruct (decide (q = p)) as [->|]; [by rewrite lookup_delete_eq, lookup_insert_ne|]. rewrite lookup_delete_ne by done.
  destruct (decide (q = qb)) as [->|]; [by rewrite lookup_delete_eq, lookup_insert_ne|]. rewrite lookup_delete_ne by done.
  destruct (decide (q = qa)) as [->|]; [by rewrite lookup_delete_eq, lookup_insert_ne|]. rewrite lookup_delete_ne by done.
  destruct (decide (q = t)) as [->|]; [by rewrite !lookup_insert_eq|]. by rewrite !lookup_insert_ne.
Qed.

Lemma exec_gcd r a b v z va vb Q :
  v !! r = Some z -> v !! a = Some (Z.sgn va, va) -> v !! b = Some (Z.sgn vb, vb) -> r = a \/ (r <> b /\ va <> vb) ->
  0 <= va -> 0 <= vb ->
  Q 0 (<[r := (Z.sgn (Z.gcd va vb), Z.gcd va vb)]> v) -> exec (bigint_gcd (Some r) (Some a) (Some b)) v Q.
Proof using HM HP.
  intros Hr Ha Hb Hrb Hva Hvb HQ. unfold bigint_gcd. cbn [is_null orb]. apply exec_bind. eapply exec_open_result; [done|].
  intros t v' Hw. destruct (working_lookup r a b v t v' _ _ Hw ltac:(tauto) Ha Hb) as (Hta & Htb & Ht & Ha' & Hb').
  apply exec_bind. eapply exec_cmp; [exact Ha'|exact Hb'|by apply recoverable_nonneg|by apply recoverable_nonneg|].
  destruct (decide (va = vb)) as [->|Hne].
  { rewrite Z.sub_diag. cbn [Z.sgn Z.eqb]. destruct Hrb as [->|[_ []]]; [|done]. rewrite bool_decide_true by done. unfold working in Hw. rewrite decide_True in Hw by done.
    destruct Hw as [Htn ->]. apply exec_bind, exec_bind. eapply exec_set_bigint; [exact Ha'|exact Ha'|]. rewrite (insert_id _ a) by done.
    eapply exec_destroy; [apply lookup_insert_eq|]. rewrite delete_insert_eq, delete_id by done. apply exec_ret.
    rewrite Z.gcd_diag, Z.abs_eq, insert_id in HQ by done. done. }
  assert ((Z.sgn (va - vb) =? 0) = false) as -> by lia.
  apply exec_bind. eapply exec_clone; [exact Ha'|]. intros pa Hpa. cbn [is_null]. assert (t <> pa /\ pa <> b) as [? ?] by (split; congruence).
  apply exec_bind. eapply exec_clone; [rewrite lookup_insert_ne by done; exact Hb'|]. intros pb Hpb. cbn [is_null].
  assert (pa <> pb) by (intros ->; by rewrite lookup_insert_eq in Hpb). rewrite lookup_insert_ne in Hpb by done. assert (t <> pb) by congruence.
  apply exec_bind, exec_create. intros p Hp. cbn [is_null].
  assert (p <> pb) by (intros ->; by rewrite lookup_insert_eq in Hp). rewrite lookup_insert_ne in Hp by done.
  assert (p <> pa) by (intros ->; by rewrite lookup_insert_eq in Hp). rewrite lookup_insert_ne in Hp by done.
  destruct (Z.lt_ge_cases va vb).
  - rewrite Z.sgn_neg by lia. cbn [Z.eqb Pos.eqb]. rewrite (insert_insert_ne v' pb pa) by done. by eapply exec_gcd_tail.
  - rewrite Z.sgn_pos by lia. cbn [Z.eqb Pos.eqb]. rewrite Z.gcd_comm in HQ. eapply exec_gcd_tail; try done. lia.
Qed.
End Powers.
