(* ===== verification/BigIntPrime.v ===== *)
(** * Big integers: random numbers and the primality test

    The test of Miller and Rabin never rejects a prime, whatever the random
    numbers are: Fermat's theorem and the square roots of one modulo a prime. *)

From Stdlib Require Import Zdivisibility ZmodInv.
From S2P Require Import Prelude BigInt BigIntArith BigIntDigits BigIntTheory BigIntRun BigIntSum BigIntBits BigIntShift BigIntMul BigIntDiv BigIntPow.

(** ** Arithmetic *)

(** The square roots of one modulo a prime. *)
Lemma prime_sqrt_one n x : Z.prime n -> 0 <= x < n -> (x * x) mod n = 1 -> x = 1 \/ x = n - 1.
Proof.
  intros Hn Hx E. pose proof (Z.prime_ge_2 n Hn). assert ((n | (x - 1) * (x + 1))) as Hd.
  { apply Z.mod_divide; [lia|]. replace ((x - 1) * (x + 1)) with (x * x - 1) by ring. rewrite Zminus_mod, E, (Z.mod_small 1) by lia. done. }
  apply Z.divide_prime_mul in Hd as [[k Hk]|[k Hk]]; [| |done].
  - left. assert (k = 0) as -> by nia. lia.
  - right. assert (k = 1) as -> by nia. lia.
Qed.

Lemma pow_square_mod t d j n : 0 <= d -> 0 <= j -> ((t ^ (d * 2 ^ j) mod n) ^ 2) mod n = t ^ (d * 2 ^ (j + 1)) mod n.
Proof.
  intros Hd Hj. rewrite Z.mod_pow_l, <- Z.pow_mul_r by (try lia; pose proof (Z.pow_nonneg 2 j ltac:(lia)); nia). do 2 f_equal.
  rewrite Z.pow_add_r by lia. ring.
Qed.

Ltac look := first [eassumption | apply lookup_insert_eq | rewrite lookup_insert_ne by congruence; look].

(** Locations are numbers to [lia]: their disequalities only slow it down. *)
Ltac zlia := repeat match goal with H : @eq loc _ _ -> False |- _ => clear H | H : not (@eq loc _ _) |- _ => clear H end; lia.

Section Primes.
Context {HM : Machine} {HP : Plenty HM}.

(** ** Tests on small numbers *)

Lemma exec_is_uint64 p v n w Q :
  v !! p = Some (Z.sgn n, n) -> 0 < n -> 0 <= w < base -> Q (n =? w) v -> exec (bigint_is_uint64 (Some p) w) v Q.
Proof using HM.
  intros Hp Hn Hw HQ m Hm <-. apply view_lookup_inv in Hp as (x & Hx & Es & Ev). assert (valid x) as Vx by by apply (Hm p).
  rewrite Z.sgn_pos in Es by done. rewrite value_pos in Ev by done. unfold bigint_is_uint64. cbn [is_null]. step_load. rewrite Es. cbn [Z.eqb].
  rewrite land_max, shiftr_item, Z.mod_small, Z.div_small by done. cbn [Z.eqb].
  apply run_bind. eapply run_bit_length; [done|apply Vx|lia|]. rewrite Ev.
  assert (Q true (view m) -> n = w -> Q (n =? w) (view m)) by (intros ? ->; by rewrite Z.eqb_refl).
  assert (n <> w -> Q false (view m)) as Hfalse by (intros Hne; by rewrite (proj2 (Z.eqb_neq _ _) Hne) in HQ).
  assert (forall k, k <= Z.log2 n -> 2 ^ k <= n) as Hlog by (intros k Hk; destruct (Z.lt_ge_cases k 0); [rewrite Z.pow_neg_r by done; lia|]; by apply Z.log2_le_pow2).
  destruct (Z.ltb_spec 63 (Z.log2 n)).
  { apply run_ret. split; [done|]. apply Hfalse. pose proof (Hlog 64 ltac:(lia)). unfold base in *. lia. }
  pose proof (valid_nonempty x Vx ltac:(lia)). pose proof (valid_items x Vx) as Hi. apply run_bind. unfold lsb_value.
  destruct (items x) as [|d l]; [done|]. apply run_ret. apply Forall_cons in Hi as [[Hd1 Hd2] _]. cbn [digits] in Ev.
  assert (n mod base = d) as Emod by (rewrite <- Ev, Z.mul_comm, Z_mod_plus_full; by apply Z.mod_small).
  destruct (Z.eqb_spec d w) as [->|Hdw]; cbn [negb]; apply run_ret; (split; [done|]).
  - destruct (Z.leb_spec (Z.log2 n) 47).
    + assert (n < base) by (apply Z.log2_lt_pow2; lia). rewrite Z.mod_small in Emod by lia. rewrite Emod, Z.eqb_refl in HQ. done.
    + apply Hfalse. pose proof (Hlog 48 ltac:(lia)). unfold base in *. lia.
  - apply Hfalse. intros ->. rewrite Z.mod_small in Emod by done. done.
Qed.

Lemma exec_is_even p v n Q : v !! p = Some (Z.sgn n, n) -> 0 < n -> Q (Z.even n) v -> exec (bigint_is_even (Some p)) v Q.
Proof using HM.
  intros Hp Hn HQ m Hm <-. apply view_lookup_inv in Hp as (x & Hx & Es & Ev). assert (valid x) as Vx by by apply (Hm p).
  rewrite Z.sgn_pos in Es by done. rewrite value_pos in Ev by done. unfold bigint_is_even. cbn [is_null]. step_load. rewrite Es. cbn [Z.eqb].
  pose proof (valid_nonempty x Vx ltac:(lia)). destruct (items x) as [|w l]; [done|]. apply run_ret. split; [done|].
  cbn [digits] in Ev. change (Z.land w 1) with (Z.land w (Z.ones 1)). rewrite Z.land_ones by lia. change (2 ^ 1) with 2. rewrite Zmod_odd.
  rewrite <- Ev, <- Z.negb_odd, Z.odd_add, Z.odd_mul in HQ. change (Z.odd base) with false in HQ. rewrite andb_false_l, xorb_false_r in HQ.
  by destruct (Z.odd w).
Qed.

Lemma exec_set_int64 p v y w Q :
  v !! p = Some y -> - 2 ^ 63 <= w < 2 ^ 63 -> Q 0 (<[p := (Z.sgn w, w)]> v) -> exec (bigint_set_int64 (Some p) w) v Q.
Proof using HM HP.
  intros Hp Hw HQ m Hm <-. destruct y. apply view_lookup_inv in Hp as (x & Hx & _ & _). unfold bigint_set_int64. cbn [is_null].
  step run_destroy_items. destruct (Z.eqb_spec w 0) as [->|].
  { apply run_ret. destruct (exec_replace m p x _ Hm Hx empty_valid) as [H1 H2]. split; [done|]. by rewrite H2. }
  destruct (Z.ltb_spec w 0); step run_set_sign; (eapply run_set_word; [lookup_obj| |]).
  - rewrite u64_small; lia.
  - intros l Fl Nl Dl. rewrite u64_small in Dl by lia. fold_stores. assert (valid (mk_bigint l (-1) false)) as Vl by (split; cbn; auto; lia).
    destruct (exec_replace m p x _ Hm Hx Vl) as [H1 H2]. split; [done|]. rewrite H2, value_magnitude by done. cbn [items sign].
    rewrite Dl, Z.opp_involutive, Z.sgn_neg in * by lia. done.
  - lia.
  - intros l Fl Nl Dl. fold_stores. destruct (exec_replace m p x _ Hm Hx (positive_valid l false Fl Nl)) as [H1 H2]. split; [done|].
    rewrite H2, value_pos by done. cbn [items sign]. rewrite Dl, Z.sgn_pos in * by lia. done.
Qed.

Lemma exec_one v Q : (forall p, v !! p = None -> Q (Some p) (<[p := (Z.sgn 1, 1)]> v)) -> exec bigint_one v Q.
Proof using HM HP.
  intros HQ. unfold bigint_one. apply exec_bind, exec_create. intros p Hp. cbn [is_null]. apply exec_bind.
  eapply exec_set_int64; [apply lookup_insert_eq|lia|]. rewrite insert_insert_eq. apply exec_ret. by apply HQ.
Qed.

Lemma exec_two v Q : (forall p, v !! p = None -> Q (Some p) (<[p := (Z.sgn 2, 2)]> v)) -> exec bigint_two v Q.
Proof using HM HP.
  intros HQ. unfold bigint_two. apply exec_bind, exec_create. intros p Hp. cbn [is_null]. apply exec_bind.
  eapply exec_set_int64; [apply lookup_insert_eq|lia|]. rewrite insert_insert_eq. apply exec_ret. by apply HQ.
Qed.

(** ** Random numbers *)

Lemma run_push_random p n m x Q :
  m !! p = Some x ->
  (forall l, Forall item_ok l -> length l = n -> Q true (<[p := mk_bigint (items x ++ l) (sign x) (neged_with_sign x)]> m)) ->
  run (push_random (Some p) n) m Q.
Proof using HM HP.
  revert m x. induction n as [|n IH]; intros m x Hp HQ; cbn [push_random].
  - apply run_ret. specialize (HQ [] ltac:(constructor) eq_refl). rewrite app_nil_r, insert_id in HQ; [done|by destruct x].
  - apply run_bind, run_malloc_item. cbn [negb]. apply run_bind, run_rand64. intros v Hv. step run_push_item. eapply IH; [lookup_obj|].
    intros l Hl Hlen. fold_stores. rewrite <- app_assoc. apply HQ; [|cbn; by rewrite Hlen]. constructor; [rewrite land_max; apply item_ok_mod|done].
Qed.

Lemma exec_rand64 v Q : (forall w, 0 <= w < 2 ^ 64 -> Q w v) -> exec rand64 v Q.
Proof using. intros HQ m Hm <-. apply run_rand64. intros w Hw. split; [done|]. by apply HQ. Qed.

(** A random number below [2 ^ bits]; its leading items may be zero. *)
Lemma exec_random_internal bits v Q :
  0 <= bits ->
  (forall p w, v !! p = None -> 0 <= w < 2 ^ bits -> Q (Some p) (<[p := (if bits =? 0 then 0 else 1, w)]> v)) ->
  exec (bigint_random_internal bits false) v Q.
Proof using HM HP.
  intros Hbits HQ m Hm <-. unfold bigint_random_internal. apply run_bind, run_create. intros p Hp. cbn [is_null].
  assert (view m !! p = None) as Hpv by (unfold view; by rewrite lookup_fmap, Hp).
  destruct (Z.eqb_spec bits 0) as [->|Hb0].
  { apply run_ret. destruct (frame_finish p m m _ (frame_start p m Hm) empty_valid) as (H1 & H2 & _). split; [done|]. rewrite H2. by apply HQ. }
  set (q := bits / BIGINT_ITEM_BITS). set (r := bits mod BIGINT_ITEM_BITS).
  assert (bits = 48 * q + r /\ 0 <= r < 48 /\ 0 <= q) as (Eb & Hr & Hq).
  { split; [by apply Z.div_mod|]. split; [by apply Z.mod_pos_bound|by apply Z.div_pos]. }
  apply run_bind. eapply run_push_random; [lookup_obj|]. intros l Fl Ll. fold_stores. cbn [negb app].
  assert (run (if r =? 0 then mret true else
      ok ← malloc_item; if negb ok then mret false else v ← rand64; push_item (Some p) (Z.land v (Z.shiftl 1 r - 1)) ;; mret true)
    (<[p := mk_bigint l 0 false]> m)
    (fun ok m' => ok = true /\ exists l', m' = <[p := mk_bigint l' 0 false]> m /\ Forall item_ok l' /\ l' <> [] /\ digits l' < 2 ^ bits)) as Hlast.
  { pose proof (digits_bound l Fl) as Hd. rewrite Ll, size_bits, Z2Nat.id in Hd by done. destruct (Z.eqb_spec r 0) as [Er|Er].
    - apply run_ret. split; [done|]. exists l. split; [done|]. split; [done|]. split; [intros ->; cbn in Ll; lia|].
      rewrite Eb, Er, Z.add_0_r. lia.
    - apply run_bind, run_malloc_item. cbn [negb]. apply run_bind, run_rand64. intros w Hw. step run_push_item. apply run_ret. split; [done|].
      eexists. split; [done|]. rewrite Z.shiftl_1_l. replace (2 ^ r - 1) with (Z.ones r) by (rewrite Z.ones_equiv; lia). rewrite Z.land_ones by lia.
      pose proof (Z.pow_pos_nonneg 2 r ltac:(lia) ltac:(lia)). pose proof (Z.mod_pos_bound w (2 ^ r) ltac:(lia)) as Hm'.
      assert (2 ^ r < base) by (apply Z.pow_lt_mono_r; lia).
      split; [apply Forall_app; split; [done|]; constructor; [unfold item_ok; lia|done]|]. split; [by destruct l|].
      rewrite digits_app, Ll, size_bits, Z2Nat.id by done. cbn [digits]. rewrite Eb, Z.pow_add_r by lia. nia. }
  apply run_bind. eapply run_mono; [exact Hlast|]. intros ok m' (-> & l' & -> & Fl' & Nl' & Dl'). cbn [negb].
  step run_set_sign. apply run_ret. pose proof (digits_bound l' Fl').
  destruct (frame_finish p m m _ (frame_start p m Hm) (positive_valid l' false Fl' Nl')) as (H1 & H2 & _). split; [done|]. rewrite H2, value_pos by done.
  apply (HQ p (digits l')); [done|lia].
Qed.

(** A random number from the lower half of a range. *)
Lemma exec_random_range pmin pmax v lo hi Q :
  v !! pmin = Some (Z.sgn lo, lo) -> v !! pmax = Some (Z.sgn hi, hi) -> 0 < lo -> lo + 2 <= hi ->
  (forall p x, v !! p = None -> lo <= x < hi -> Q (Some p) (<[p := (Z.sgn x, x)]> v)) ->
  exec (bigint_random_range (Some pmin) (Some pmax)) v Q.
Proof using HM HP.
  intros Hmin Hmax Hlo Hhi HQ. unfold bigint_random_range. cbn [is_null orb]. apply exec_bind, exec_create. intros p Hp. cbn [is_null].
  assert (p <> pmin /\ p <> pmax) as [? ?] by (split; congruence).
  apply exec_bind. eapply exec_sub; [apply lookup_insert_eq|rewrite lookup_insert_ne by done; exact Hmax|rewrite lookup_insert_ne by done; exact Hmin|lia|left; lia|left; lia|].
  rewrite insert_insert_eq. cbn [Z.eqb]. rewrite (Z.sgn_pos lo) by done. cbn [Z.eqb]. apply exec_bind, exec_create. intros q Hq. cbn [is_null].
  assert (p <> q) by (intros ->; by rewrite lookup_insert_eq in Hq). rewrite lookup_insert_ne in Hq by done. assert (q <> pmin) by congruence.
  apply exec_bind. eapply (exec_bit_length p _ (hi - lo)); [rewrite lookup_insert_ne by done; apply lookup_insert_eq|lia|].
  apply exec_bind, exec_rand64. intros w Hw. set (L := Z.log2 (hi - lo)). assert (1 <= L) as HL by (by apply Z.log2_le_pow2; lia).
  assert ((L =? 0) = false) as -> by lia. pose proof (Z.mod_pos_bound w L ltac:(lia)) as Hbits. set (bits := w mod L) in *.
  assert (2 ^ bits < hi - lo) as Hpow.
  { apply (Z.lt_le_trans _ (2 ^ L)); [apply Z.pow_lt_mono_r; lia|]. by apply Z.log2_spec; lia. }
  apply exec_bind, exec_random_internal; [lia|]. intros u x Hu Hx. cbn [is_null].
  assert (u <> q) by (intros ->; by rewrite lookup_insert_eq in Hu). rewrite lookup_insert_ne in Hu by done.
  assert (u <> p) by (intros ->; by rewrite lookup_insert_eq in Hu). rewrite lookup_insert_ne in Hu by done. assert (u <> pmin) by congruence.
  apply exec_bind. eapply exec_add; [rewrite lookup_insert_ne by done; apply lookup_insert_eq|rewrite !lookup_insert_ne by done; exact Hmin|apply lookup_insert_eq|].
  cbn [Z.eqb]. assert (sum_sign (Z.sgn lo) (if bits =? 0 then 0 else 1) (lo + x) = Z.sgn (lo + x)) as ->.
  { unfold sum_sign. rewrite (Z.sgn_pos lo), (Z.sgn_pos (lo + x)) by lia. cbn [Z.eqb]. by destruct (bits =? 0). }
  cbn [destroy_all]. apply exec_bind, exec_bind. eapply exec_destroy; [rewrite !lookup_insert_ne by done; apply lookup_insert_eq|].
  apply exec_bind. eapply exec_destroy; [rewrite lookup_delete_ne, lookup_insert_ne by done; apply lookup_insert_eq|]. apply exec_ret, exec_ret.
  replace (delete u _) with (<[q := (Z.sgn (lo + x), lo + x)]> v); [apply HQ; [done|lia]|].
  apply map_eq. intros i. destruct (decide (i = u)) as [->|]; [by rewrite lookup_delete_eq, lookup_insert_ne|]. rewrite lookup_delete_ne by done.
  destruct (decide (i = p)) as [->|]; [by rewrite lookup_delete_eq, lookup_insert_ne|]. rewrite lookup_delete_ne by done.
  destruct (decide (i = q)) as [->|]; [by rewrite !lookup_insert_eq|]. by rewrite !lookup_insert_ne.
Qed.

(** ** The test of Miller and Rabin *)

Lemma even_half d : 0 < d -> Z.even d = true -> d = 2 * (d / 2) /\ 0 < d / 2 < d.
Proof using.
  intros Hd He. apply Z.even_spec in He as [k ->]. rewrite (Z.mul_comm 2 k), Z.div_mul by lia. lia.
Qed.

(** The factors two of [d] are counted. *)
Lemma exec_factor_twos fuel pd pr one v0 d k Q :
  pd <> pr -> pd <> one -> pr <> one -> v0 !! one = Some (Z.sgn 1, 1) -> 0 < d < 2 ^ Z.of_nat fuel -> 0 <= k ->
  (forall d' k', 0 < d' -> Z.even d' = false -> k <= k' -> d' * 2 ^ k' = d * 2 ^ k ->
    Q true (<[pd := (Z.sgn d', d')]> (<[pr := (Z.sgn k', k')]> v0))) ->
  exec (factor_twos fuel (Some pd) (Some pr) (Some one)) (<[pd := (Z.sgn d, d)]> (<[pr := (Z.sgn k, k)]> v0)) Q.
Proof using HM HP.
  intros Hdr Hd1 Hr1 H1. revert d k. induction fuel as [|fuel IH]; intros d k Hd Hk HQ; [change (2 ^ Z.of_nat 0) with 1 in Hd; lia|].
  cbn [factor_twos]. apply exec_bind. eapply exec_is_even; [apply lookup_insert_eq|lia|]. destruct (Z.even d) eqn:He; cbn [negb].
  2: { apply exec_ret. apply HQ; [lia|done|lia|done]. }
  destruct (even_half d ltac:(lia) He) as [Ed Hhalf]. apply exec_bind.
  eapply exec_add; [rewrite lookup_insert_ne by done; apply lookup_insert_eq|rewrite lookup_insert_ne by done; apply lookup_insert_eq|rewrite !lookup_insert_ne by done; exact H1|].
  rewrite sum_sign_normal. cbn [Z.eqb]. rewrite (insert_insert_ne _ pr pd), insert_insert_eq by done.
  apply exec_bind. eapply exec_shr_one; [apply lookup_insert_eq|lia|]. rewrite insert_insert_eq. cbn [Z.eqb].
  apply exec_bind. eapply exec_load; [apply lookup_insert_eq|]. intros xd _ -> _. rewrite Z.sgn_pos by lia. cbn [Z.eqb].
  assert (0 < d / 2 < 2 ^ Z.of_nat fuel) as Hd2.
  { rewrite Nat2Z.inj_succ, Z.pow_succ_r in Hd by apply Nat2Z.is_nonneg. clear - Ed Hd Hhalf. lia. }
  pose proof (IH (d / 2) (k + 1) Hd2 ltac:(lia)) as IH'. rewrite (Z.sgn_pos (d / 2)) in IH' by apply Hhalf. apply IH'.
  - intros d' k' Hd' Ho Hk' E. apply HQ; [done|done|lia|]. rewrite E, Z.pow_add_r by lia. rewrite Ed at 2. ring.
Qed.

Section Round.
Context (n t d k : Z) (Hn : Z.prime n) (Hd : 0 < d) (Hk : 1 <= k).

(** The numbers that the squarings of [t ^ d] go through. *)
Definition squares (i : Z) : Z := t ^ (d * 2 ^ i) mod n.

Lemma squares_unit i : 0 <= i -> squares k = 1 -> squares i <> 0.
Proof using Hn Hd Hk.
  intros Hi Hlast E. pose proof (Z.prime_ge_2 n Hn). unfold squares in *. apply Z.mod_divide in E; [|lia].
  assert (forall e, 0 <= e -> (n | t ^ e) -> (n | t)) as Hdiv.
  { intros e He. pattern e. apply natlike_ind; [|clear e He; intros e He IH|done].
    - rewrite Z.pow_0_r. intros H1%Z.divide_1_r_nonneg; lia.
    - rewrite Z.pow_succ_r by done. intros H'. apply Z.divide_prime_mul in H' as [|]; auto. }
  apply Hdiv in E; [|pose proof (Z.pow_nonneg 2 i ltac:(lia)); nia].
  assert (0 < d * 2 ^ k) by (apply Z.mul_pos_pos; [done|apply Z.pow_pos_nonneg; lia]).
  assert ((n | t ^ (d * 2 ^ k))) as Hdk.
  { replace (d * 2 ^ k) with (Z.succ (d * 2 ^ k - 1)) by lia. rewrite Z.pow_succ_r by lia. by apply Z.divide_mul_l. }
  apply Z.mod_divide in Hdk; [|lia]. lia.
Qed.

Context (px pj pr pm one two pa : loc) (v0 : gmap loc (Z * Z)).
Context (Hpr : v0 !! pr = Some (Z.sgn (k - 1), k - 1)) (Hpm : v0 !! pm = Some (Z.sgn (n - 1), n - 1)).
Context (Hone : v0 !! one = Some (Z.sgn 1, 1)) (Htwo : v0 !! two = Some (Z.sgn 2, 2)) (Hpa : v0 !! pa = Some (Z.sgn n, n)).
Context (Hx : px ∉ [pj; pr; pm; one; two; pa]) (Hj : pj ∉ [pr; pm; one; two; pa]).
Context (Hlast : squares k = 1).

Definition round_view (x j : Z) : gmap loc (Z * Z) := <[px := (Z.sgn x, x)]> (<[pj := (Z.sgn j, j)]> v0).

(** The loop stops at [n - 1]. *)
Lemma exec_square_loop fuel j Q :
  0 <= j <= k - 1 -> k - 1 - j <= Z.of_nat fuel -> squares j <> 1 -> (forall j', Q true (round_view (n - 1) j')) ->
  exec (square_loop fuel (Some px) (Some pj) (Some pr) (Some pm) (Some one) (Some two) (Some pa)) (round_view (squares j) j) Q.
Proof using All.
  pose proof (Z.prime_ge_2 n Hn) as Hn2. repeat rewrite not_elem_of_cons in Hx; repeat rewrite not_elem_of_cons in Hj. destruct Hx as (X1 & X2 & X3 & X4 & X5 & X6 & _). destruct Hj as (J1 & J2 & J3 & J4 & J5 & _).
  revert j. induction fuel as [|fuel IH]; intros j Hj0 Hf Hne HQ; cbn [square_loop]; apply exec_bind;
    (eapply (exec_cmp pj pr _ j (k - 1)); [unfold round_view; rewrite lookup_insert_ne by done; apply lookup_insert_eq|unfold round_view; rewrite !lookup_insert_ne by done; exact Hpr
      |apply recoverable_nonneg; zlia|apply recoverable_nonneg; zlia|]);
    (assert (0 <= squares j < n) as Hrange by (apply Z.mod_pos_bound; zlia)); (assert (squares j <> 0) as Hnz by (apply squares_unit; [zlia|done]));
    (assert (j + 1 = k -> squares j = n - 1) as Hfin by
      (intros E; destruct (prime_sqrt_one n (squares j) Hn Hrange) as [|]; [|done|done]; rewrite <- Z.pow_2_r; unfold squares; rewrite pow_square_mod, E by zlia; done)).
  - assert (j + 1 = k) as E by zlia. replace (j - (k - 1)) with 0 by zlia. cbn. apply exec_ret. rewrite Hfin by done. apply HQ.
  - destruct (decide (j + 1 = k)) as [E|Hlt]; [replace (j - (k - 1)) with 0 by zlia; cbn; apply exec_ret; rewrite Hfin by done; apply HQ|].
    rewrite Z.sgn_neg by zlia. cbn [Z.eqb Pos.eqb negb]. apply exec_bind.
    eapply (exec_cmp px pm _ (squares j) (n - 1)); [apply lookup_insert_eq|unfold round_view; rewrite !lookup_insert_ne by done; exact Hpm|apply recoverable_nonneg; zlia|apply recoverable_nonneg; zlia|].
    destruct (Z.eqb_spec (Z.sgn (squares j - (n - 1))) 0) as [E|E]; [apply exec_ret; replace (squares j) with (n - 1) by zlia; apply HQ|].
    apply exec_bind. eapply (exec_pow_mod px px two pa _ _ (squares j) 2 n); [apply lookup_insert_eq|apply lookup_insert_eq|unfold round_view; rewrite !lookup_insert_ne by done; exact Htwo
      |unfold round_view; rewrite !lookup_insert_ne by done; exact Hpa|by left|zlia|zlia|zlia|symmetry; apply Z.coprime_prime_small; [done|zlia]|].
    unfold round_view. rewrite insert_insert_eq. cbn [Z.eqb].
    assert (squares j ^ 2 mod n = squares (j + 1)) as -> by (unfold squares; apply pow_square_mod; zlia).
    assert (squares (j + 1) <> 1) as Hne1.
    { intros E1. destruct (prime_sqrt_one n (squares j) Hn Hrange) as [|]; [|done|zlia]. rewrite <- Z.pow_2_r, <- E1. unfold squares. apply pow_square_mod; zlia. }
    assert (squares (j + 1) <> 0) by (apply squares_unit; [zlia|done]). assert (0 <= squares (j + 1) < n) by (apply Z.mod_pos_bound; zlia).
    apply exec_bind. eapply exec_is_uint64; [apply lookup_insert_eq|zlia|unfold base; zlia|]. rewrite (proj2 (Z.eqb_neq _ _) Hne1). apply exec_bind.
    eapply (exec_add pj pj one); [rewrite lookup_insert_ne by done; apply lookup_insert_eq|rewrite lookup_insert_ne by done; apply lookup_insert_eq|rewrite !lookup_insert_ne by done; exact Hone|].
    rewrite sum_sign_normal, (insert_insert_ne _ pj px), insert_insert_eq by done. apply IH; [zlia|zlia|done|done].
Qed.
End Round.

(** The rounds of the test on a prime [n] with [n - 1 = d * 2 ^ k]. *)
Section Test.
Context (n d k : Z) (Hn : Z.prime n) (Hn7 : 7 <= n) (Hd : 0 < d) (Hk : 1 <= k) (Edk : d * 2 ^ k = n - 1).
Context (px pd pr pm pm2 one two pa : loc).

(** The objects of the test. *)
Definition test_view (v : gmap loc (Z * Z)) : Prop :=
  (exists x, v !! px = Some (Z.sgn x, x)) /\ v !! pd = Some (Z.sgn d, d) /\ v !! pr = Some (Z.sgn (k - 1), k - 1) /\
  v !! pm = Some (Z.sgn (n - 1), n - 1) /\ v !! pm2 = Some (Z.sgn (n - 2), n - 2) /\
  v !! one = Some (Z.sgn 1, 1) /\ v !! two = Some (Z.sgn 2, 2) /\ v !! pa = Some (Z.sgn n, n).
Context (Hx : px ∉ [pd; pr; pm; pm2; one; two; pa]).

Lemma test_view_insert v x : test_view v -> test_view (<[px := (Z.sgn x, x)]> v).
Proof using Hx.
  intros (_ & H). repeat rewrite not_elem_of_cons in Hx. destruct Hx as (? & ? & ? & ? & ? & ? & ? & _).
  split; [exists x; by rewrite lookup_insert_eq|]. by rewrite !lookup_insert_ne.
Qed.

Lemma exec_round fuel v Q :
  test_view v -> k <= Z.of_nat fuel -> (forall x, Q true (<[px := (Z.sgn x, x)]> v)) ->
  exec (miller_rabin_round fuel (Some px) (Some pd) (Some pr) (Some pm) (Some pm2) (Some one) (Some two) (Some pa)) v Q.
Proof using All.
  intros ((x & Vx) & Vd & Vr & Vm & Vm2 & V1 & V2 & Va) Hf HQ. repeat rewrite not_elem_of_cons in Hx. destruct Hx as (X1 & X2 & X3 & X4 & X5 & X6 & X7 & _).
  unfold miller_rabin_round. apply exec_bind. eapply exec_random_range; [exact V2|exact Vm2|zlia|zlia|]. intros pt t Hpt Ht. cbn [is_null].
  assert (pt <> px /\ pt <> pd /\ pt <> pr /\ pt <> pm /\ pt <> one /\ pt <> two /\ pt <> pa) as (T1 & T2 & T3 & T4 & T5 & T6 & T7) by (split_and!; congruence).
  assert (squares n t d k = 1) as Hlast.
  { unfold squares. rewrite Edk. apply Z.fermat_nz; [done|]. rewrite Z.mod_small by zlia. zlia. }
  apply exec_bind. eapply (exec_pow_mod px pt pd pa _ _ t d n);
    [rewrite lookup_insert_ne by done; exact Vx|apply lookup_insert_eq|by rewrite lookup_insert_ne|by rewrite lookup_insert_ne|by right|zlia|done|zlia|symmetry; apply Z.coprime_prime_small; [done|zlia]|].
  replace (t ^ d mod n) with (squares n t d 0) by (unfold squares; by rewrite Z.mul_1_r). cbn [Z.eqb].
  pose proof (squares_unit n t d k Hn Hd Hk 0 ltac:(zlia) Hlast) as Hnz. assert (0 <= squares n t d 0 < n) as Hrange by (apply Z.mod_pos_bound; zlia).
  apply exec_bind. eapply exec_is_uint64; [apply lookup_insert_eq|zlia|unfold base; zlia|]. apply exec_bind.
  assert (forall w y, delete pt (<[px := w]> (<[pt := y]> v)) = <[px := w]> v) as Hclean.
  { intros w y. by rewrite delete_insert_ne, delete_insert_id by done. }
  assert (forall x, exec (bigint_destroy (Some pt) ;; mret true) (<[px := (Z.sgn x, x)]> (<[pt := (Z.sgn t, t)]> v)) Q) as Hdone.
  { intros y. apply exec_bind. eapply exec_destroy; [rewrite lookup_insert_ne by done; apply lookup_insert_eq|]. apply exec_ret. rewrite Hclean. apply HQ. }
  destruct (Z.eqb_spec (squares n t d 0) 1) as [E1|E1]; [apply exec_ret; cbn [negb andb]; apply Hdone|].
  eapply (exec_cmp px pm _ (squares n t d 0) (n - 1)); [apply lookup_insert_eq|by rewrite !lookup_insert_ne|apply recoverable_nonneg; zlia|apply recoverable_nonneg; zlia|].
  destruct (Z.eqb_spec (Z.sgn (squares n t d 0 - (n - 1))) 0) as [E2|E2]; cbn [negb andb]; [apply Hdone|].
  apply exec_bind, exec_create. intros pj Hpj. cbn [is_null]. rewrite lookup_insert_None in Hpj. destruct Hpj as [Hpj Jx].
  rewrite lookup_insert_None in Hpj. destruct Hpj as [Hpj Jt]. apply exec_bind. rewrite insert_insert_ne by done.
  change (<[px := _]> _) with (round_view px pj (<[pt := (Z.sgn t, t)]> v) (squares n t d 0) 0).
  eapply (exec_square_loop n t d k Hn Hd Hk px pj pr pm one two pa (<[pt := (Z.sgn t, t)]> v)); [by rewrite lookup_insert_ne..| | |exact Hlast|zlia|zlia|exact E1|].
  { repeat rewrite not_elem_of_cons. split_and!; try congruence; by apply not_elem_of_nil. }
  { repeat rewrite not_elem_of_cons. split_and!; try congruence; by apply not_elem_of_nil. }
  intros j'. cbn [negb]. unfold round_view. apply exec_bind. eapply exec_destroy; [rewrite lookup_insert_ne by done; apply lookup_insert_eq|].
  rewrite delete_insert_ne, delete_insert_id by (try done; by rewrite lookup_insert_ne). apply exec_bind.
  eapply (exec_cmp px pm _ (n - 1) (n - 1)); [apply lookup_insert_eq|by rewrite !lookup_insert_ne|apply recoverable_nonneg; zlia|apply recoverable_nonneg; zlia|].
  rewrite Z.sub_diag. apply Hdone.
Qed.

Lemma exec_rounds try fuel v Q :
  test_view v -> k <= Z.of_nat fuel -> (forall x, Q true (<[px := (Z.sgn x, x)]> v)) ->
  exec (miller_rabin_rounds try fuel (Some px) (Some pd) (Some pr) (Some pm) (Some pm2) (Some one) (Some two) (Some pa)) v Q.
Proof using All.
  revert v. induction try as [|try IH]; intros v Hv Hf HQ; cbn [miller_rabin_rounds].
  - apply exec_ret. destruct Hv as [[x Vx] _]. rewrite <- (insert_id v px (Z.sgn x, x)) by done. apply HQ.
  - apply exec_bind. apply exec_round; [done|done|]. intros x. cbn [negb]. apply IH; [by apply test_view_insert|done|].
    intros y. rewrite insert_insert_eq. apply HQ.
Qed.
End Test.

(** The test accepts every prime from seven on, whatever the random numbers, and leaves no object behind. *)
Lemma exec_is_prime p v n Q :
  v !! p = Some (Z.sgn n, n) -> Z.prime n -> 7 <= n -> Q true v -> exec (bigint_is_prime (Some p)) v Q.
Proof using HM HP.
  intros Hp Hn Hn7 HQ. unfold bigint_is_prime, bigint_is_prime_miller_rabin. cbn [is_null].
  apply exec_bind. eapply exec_load; [exact Hp|]. intros xa _ -> _. rewrite (Z.sgn_pos n) by zlia. cbn [Z.leb Z.compare].
  apply exec_bind. eapply exec_is_uint64; [exact Hp|zlia|unfold base; zlia|]. rewrite (proj2 (Z.eqb_neq n 2)) by zlia.
  apply exec_bind. eapply exec_is_uint64; [exact Hp|zlia|unfold base; zlia|]. rewrite (proj2 (Z.eqb_neq n 3)) by zlia.
  apply exec_bind. eapply exec_is_uint64; [exact Hp|zlia|unfold base; zlia|]. rewrite (proj2 (Z.eqb_neq n 1)) by zlia.
  apply exec_bind. eapply exec_is_even; [exact Hp|zlia|]. assert (Z.even n = false) as Hodd.
  { destruct (Z.even n) eqn:E; [|done]. apply Z.even_spec in E as [h E]. assert ((2 | n)) as Hdiv by (exists h; zlia).
    apply Z.divide_prime_r in Hdiv; [|done]. zlia. }
  rewrite Hodd. apply exec_bind, exec_one. intros one H1. apply exec_bind, exec_two. intros two H2. cbn [is_null orb].
  rewrite lookup_insert_None in H2. destruct H2 as [H2 D12].
  apply exec_bind. eapply exec_clone; [rewrite !lookup_insert_ne by congruence; exact Hp|]. intros pm Hpm. cbn [is_null].
  repeat (rewrite lookup_insert_None in Hpm; destruct Hpm as [Hpm ?]). set (v1 := <[two := (Z.sgn 2, 2)]> (<[one := (Z.sgn 1, 1)]> v)).
  assert (v1 !! one = Some (Z.sgn 1, 1) /\ v1 !! two = Some (Z.sgn 2, 2) /\ v1 !! p = Some (Z.sgn n, n)) as (V1 & V2 & V3).
  { subst v1. split_and!; [rewrite lookup_insert_ne by congruence; apply lookup_insert_eq|apply lookup_insert_eq|by rewrite !lookup_insert_ne by congruence]. }
  apply exec_bind. eapply (exec_sub pm pm one); [apply lookup_insert_eq|apply lookup_insert_eq|rewrite lookup_insert_ne by congruence; exact V1
    |rewrite Z.sgn_pos by zlia; zlia|left; by rewrite (Z.sgn_pos n) by zlia|left; zlia|]. rewrite insert_insert_eq. cbn [Z.sgn Z.eqb].
  apply exec_bind. eapply exec_clone; [apply lookup_insert_eq|]. intros pd Hpd. cbn [is_null].
  apply exec_bind, exec_create. intros pr Hpr. cbn [is_null].
  apply exec_bind. eapply exec_load; [rewrite lookup_insert_ne by (intros ->; by rewrite lookup_insert_eq in Hpr); apply lookup_insert_eq|]. intros xd Vd _ Ed.
  repeat (rewrite lookup_insert_None in Hpd; destruct Hpd as [Hpd ?]). repeat (rewrite lookup_insert_None in Hpr; destruct Hpr as [Hpr ?]).
  assert (forall q, v1 !! q = None -> q <> one /\ q <> two /\ q <> p) as Hfresh by (intros q Hq; split_and!; congruence).
  destruct (Hfresh pd Hpd) as (? & ? & ?), (Hfresh pr Hpr) as (? & ? & ?).
  rewrite (insert_insert_ne _ pr pd) by done. set (v2 := <[pm := (Z.sgn (n - 1), n - 1)]> v1).
  assert (v2 !! one = Some (Z.sgn 1, 1)) as W1 by (subst v2; by rewrite lookup_insert_ne by congruence).
  assert (forall q, v2 !! q = None -> q <> one /\ q <> two /\ q <> p /\ q <> pm) as Hfresh2.
  { subst v2. intros q [Hq ?]%lookup_insert_None. destruct (Hfresh q Hq) as (? & ? & ?). auto. }
  pose proof (fuel_bound xd Vd) as Hfuel. rewrite Ed in Hfuel. apply exec_bind.
  eapply (exec_factor_twos _ pd pr one v2 (n - 1) 0); [done|done|done|exact W1|zlia|zlia|].
  intros d k Hd Hdo Hk Edk. rewrite Z.mul_1_r in Edk. cbn [negb].
  assert (1 <= k) as Hk1.
  { destruct (decide (k = 0)) as [->|]; [|zlia]. rewrite Z.mul_1_r in Edk. subst d. rewrite Z.even_sub, Hodd in Hdo. done. }
  assert (k < Z.of_nat (bits_fuel xd)) as Hkf.
  { apply (Z.pow_lt_mono_r_iff 2); [zlia|zlia|]. apply (Z.le_lt_trans _ (n - 1)); [|done]. rewrite <- Edk.
    pose proof (Z.pow_pos_nonneg 2 k ltac:(zlia) ltac:(zlia)). clear - Hd H. nia. }
  apply exec_bind. eapply (exec_sub pr pr one); [rewrite lookup_insert_ne by done; apply lookup_insert_eq|rewrite lookup_insert_ne by done; apply lookup_insert_eq
    |rewrite !lookup_insert_ne by done; exact W1|rewrite Z.sgn_pos by zlia; zlia|left; by rewrite (Z.sgn_pos k) by zlia|left; zlia|].
  rewrite (insert_insert_ne _ pr pd), insert_insert_eq by done. cbn [Z.sgn Z.eqb].
  apply exec_bind, exec_create. intros px Hpx. cbn [is_null]. repeat (rewrite lookup_insert_None in Hpx; destruct Hpx as [Hpx ?]).
  destruct (Hfresh2 px Hpx) as (? & ? & ? & ?).
  apply exec_bind. eapply exec_clone; [subst v2; rewrite !lookup_insert_ne by congruence; exact V3|]. intros pm2 Hpm2. cbn [is_null].
  repeat (rewrite lookup_insert_None in Hpm2; destruct Hpm2 as [Hpm2 ?]). destruct (Hfresh2 pm2 Hpm2) as (? & ? & ? & ?).
  apply exec_bind. eapply (exec_sub pm2 pm2 two); [apply lookup_insert_eq|apply lookup_insert_eq|subst v2; rewrite !lookup_insert_ne by congruence; exact V2
    |rewrite Z.sgn_pos by zlia; zlia|left; by rewrite (Z.sgn_pos n) by zlia|left; zlia|]. rewrite insert_insert_eq. cbn [Z.sgn Z.eqb].
  apply exec_bind. assert (pm <> one /\ pm <> two /\ pm <> p) as (? & ? & ?) by (split_and!; congruence).
  eapply (exec_rounds n d k Hn Hn7 Hd Hk1 Edk px pd pr pm pm2 one two p); [| |zlia|].
  { repeat rewrite not_elem_of_cons. split_and!; try congruence; by apply not_elem_of_nil. }
  { subst v2. split; [exists 0; rewrite lookup_insert_ne by congruence; apply lookup_insert_eq|]. split_and!; look. }
  intros x. cbn [destroy_all]. subst v2 v1. apply exec_bind.
  do 7 (apply exec_bind; eapply exec_destroy; [rewrite ?lookup_delete_ne by congruence; look|]). apply exec_ret, exec_ret.
  replace (delete two _) with v; [done|]. repeat (rewrite lookup_insert_None in Hpd; destruct Hpd as [Hpd ?]).
  repeat (rewrite lookup_insert_None in Hpr; destruct Hpr as [Hpr ?]). repeat (rewrite lookup_insert_None in Hpx; destruct Hpx as [Hpx ?]).
  repeat (rewrite lookup_insert_None in Hpm2; destruct Hpm2 as [Hpm2 ?]). clear - Hpm H1 H2 Hpd Hpr Hpx Hpm2.
  apply map_eq. intros i. rewrite !lookup_delete, !lookup_insert. do 7 (case_decide; [by subst|]). done.
Qed.
End Primes.
