(* ===== verification/BigIntText.v ===== *)
(** * Big integers: text

    [bigint_set_str] reads what [bigint_to_str] prints: hexadecimal digits in
    groups of twelve, one group for each item. *)

From S2P Require Import Prelude BigInt BigIntArith BigIntDigits BigIntTheory BigIntRun BigIntSum BigIntBits.

(** ** Numerals *)

Definition nibble (d : Z) : Prop := 0 <= d < 16.

(** The number that digits denote, most significant first, behind [acc]. *)
Fixpoint numeral (acc : Z) (ds : list Z) : Z :=
  match ds with [] => acc | d :: ds => numeral (16 * acc + d) ds end.

Abbreviation spells := (Forall2 (fun c d => hex_digit c = Some d)).

(** The texts of a number, in either case and with any leading zeros. *)
Definition text (n : Z) (s : list Z) : Prop :=
  exists cs ds, s = (if n <? 0 then [45] else []) ++ cs /\ spells cs ds /\ numeral 0 ds = Z.abs n.

Lemma hex_digit_range c d : hex_digit c = Some d -> nibble d /\ c <> 45.
Proof.
  unfold hex_digit, nibble. destruct (Z.leb_spec 48 c), (Z.leb_spec c 57), (Z.leb_spec 65 c), (Z.leb_spec c 70), (Z.leb_spec 97 c), (Z.leb_spec c 102);
    cbn; intros [= <-]; lia.
Qed.

Lemma hex_digit_print d : nibble d -> hex_digit (digit_to_hex d) = Some d.
Proof.
  unfold nibble. intros Hd. assert (d ∈ seqZ 0 16) as Hin by (apply elem_of_seqZ; lia). clear Hd. revert d Hin. apply Forall_forall.
  cbn. repeat constructor.
Qed.

Lemma spells_nibbles cs ds : spells cs ds -> Forall nibble ds.
Proof. induction 1 as [|c d cs ds Hc _ IH]; constructor; [by apply (hex_digit_range c)|done]. Qed.

Lemma numeral_app acc xs ys : numeral acc (xs ++ ys) = numeral (numeral acc xs) ys.
Proof. revert acc. induction xs as [|x xs IH]; intros acc; [done|]. apply IH. Qed.

Lemma numeral_acc acc ds : numeral acc ds = acc * 16 ^ Z.of_nat (length ds) + numeral 0 ds.
Proof.
  revert acc. induction ds as [|d ds IH]; intros acc; cbn [numeral length]; [rewrite Z.pow_0_r; lia|].
  rewrite (IH (16 * acc + d)), (IH (16 * 0 + d)), Nat2Z.inj_succ, Z.pow_succ_r by lia. lia.
Qed.

Lemma numeral_bound ds : Forall nibble ds -> 0 <= numeral 0 ds < 16 ^ Z.of_nat (length ds).
Proof.
  induction 1 as [|d ds Hd _ IH]; cbn [numeral length]; [lia|]. unfold nibble in Hd.
  rewrite (numeral_acc (16 * 0 + d)), Nat2Z.inj_succ, Z.pow_succ_r by lia. nia.
Qed.

(** ** Reading *)

Lemma hex_value_spells cs ds acc :
  spells cs ds -> 0 <= acc -> (acc + 1) * 16 ^ Z.of_nat (length ds) <= 2 ^ 64 -> hex_value acc cs = Some (numeral acc ds).
Proof.
  intros Hs. revert acc. induction Hs as [|c d cs ds Hc Hs IH]; intros acc Ha Hb; cbn [hex_value numeral]; [done|]. rewrite Hc.
  destruct (hex_digit_range c d Hc) as [Hd _]. unfold nibble in Hd. cbn [length] in Hb. rewrite Nat2Z.inj_succ, Z.pow_succ_r in Hb by lia.
  pose proof (Z.pow_pos_nonneg 16 (Z.of_nat (length ds)) ltac:(lia) ltac:(lia)). rewrite Z.shiftl_mul_pow2 by lia.
  rewrite (u64_small (acc * 2 ^ 4)), u64_small by nia. rewrite (Z.mul_comm acc). apply IH; nia.
Qed.

Lemma skip_zeros_spells cs ds : spells cs ds ->
  exists ds', spells (skip_while (Z.eqb 48) cs) ds' /\ numeral 0 ds' = numeral 0 ds /\
    (ds' = [] \/ 16 ^ (Z.of_nat (length ds') - 1) <= numeral 0 ds).
Proof.
  induction 1 as [|c d cs ds Hc Hs (ds' & H1 & H2 & H3)]; cbn [skip_while]; [exists []; split_and!; [constructor|done|by left]|].
  destruct (Z.eqb_spec 48 c) as [<-|Hne].
  - injection Hc as <-. exists ds'. done.
  - exists (d :: ds). split; [by constructor|]. split; [done|]. right. cbn [numeral length]. rewrite numeral_acc.
    replace (Z.of_nat (S (length ds)) - 1) with (Z.of_nat (length ds)) by lia.
    pose proof (numeral_bound ds (spells_nibbles cs ds Hs)). pose proof (Z.pow_pos_nonneg 16 (Z.of_nat (length ds)) ltac:(lia) ltac:(lia)).
    destruct (hex_digit_range c d Hc) as [Hd _]. assert (d <> 0); [|unfold nibble in Hd; nia]. intros ->. revert Hc. unfold hex_digit.
    destruct (Z.leb_spec 48 c), (Z.leb_spec c 57), (Z.leb_spec 65 c), (Z.leb_spec c 70), (Z.leb_spec 97 c), (Z.leb_spec c 102); cbn; intros [=]; lia.
Qed.

(** Numbers with fewer than 2^32 hexadecimal digits. *)
Definition readable (n : Z) : Prop := Z.log2 (Z.abs n) < 4 * (2 ^ 32 - 1).

Lemma readable_length n (ds : list Z) : readable n -> ds = [] \/ 16 ^ (Z.of_nat (length ds) - 1) <= Z.abs n -> Z.of_nat (length ds) < 2 ^ 32.
Proof.
  unfold readable. intros Hr [->|Hb]; [cbn; lia|]. destruct ds as [|d ds]; [cbn; lia|].
  change 16 with (2 ^ 4) in Hb. rewrite <- Z.pow_mul_r in Hb by (cbn [length]; lia).
  apply Z.log2_le_mono in Hb. rewrite Z.log2_pow2 in Hb by (cbn [length]; lia). lia.
Qed.

Section Text.
Context {HM : Machine} {HP : Plenty HM}.

Lemma run_set_str_loop parts pl cs ds next m Q :
  spells cs ds -> length ds = match parts with O => O | S k => (pl + 12 * k)%nat end -> (pl <= 12)%nat -> (pl = 12)%nat \/ next = [] ->
  Forall item_ok next ->
  (forall l, Forall item_ok l -> length l = (parts + length next)%nat -> digits l = numeral (digits next) ds -> Q (Some l) m) ->
  run (set_str_loop parts pl cs next) m Q.
Proof using HM HP.
  revert pl cs ds next. induction parts as [|parts IH]; intros pl cs ds next Hs Hlen Hpl Hfull Hok HQ; cbn [set_str_loop].
  - apply run_ret. destruct ds; [|done]. by apply HQ.
  - assert (spells (take pl cs) (take pl ds)) as Hhead by by apply Forall2_take.
    assert (length (take pl ds) = pl) as Hpl' by (rewrite length_take; lia).
    pose proof (numeral_bound _ (spells_nibbles _ _ Hhead)) as Hb. rewrite Hpl' in Hb.
    assert (16 ^ Z.of_nat pl <= base) as Hbase by (change base with (16 ^ 12); apply Z.pow_le_mono_r; lia).
    rewrite (hex_value_spells _ _ 0 Hhead) by (rewrite ?Hpl'; unfold base in *; lia).
    apply run_bind, run_malloc_item. cbn [negb]. eapply (IH _ _ (drop pl ds)); [by apply Forall2_drop| |done|by left| |].
    + rewrite length_drop, Hlen. destruct parts as [|parts]; [lia|]. change (Z.to_nat BIGINT_ITEM_HEX_DIGITS) with 12%nat. lia.
    + constructor; [unfold item_ok; lia|done].
    + intros l Hl Ll Dl. apply HQ; [done|cbn in Ll; lia|]. rewrite Dl. rewrite <- (take_drop pl ds) at 3. rewrite numeral_app. f_equal.
      cbn [digits]. rewrite (numeral_acc (digits next)), Hpl'. destruct Hfull as [->| ->]; [change (16 ^ Z.of_nat 12) with base|cbn [digits]]; lia.
Qed.

(** Any text of [n] is read as [n]. *)
Lemma exec_set_str p v y n s Q :
  v !! p = Some y -> text n s -> readable n -> Q 0 (<[p := (Z.sgn n, n)]> v) -> exec (bigint_set_str (Some p) (Some s)) v Q.
Proof using HM HP.
  intros Hp (cs & ds & -> & Hs & Hn) Hread HQ m Hm <-. destruct y. apply view_lookup_inv in Hp as (x & Hx & _ & _). assert (valid x) as Vx by by apply (Hm p).
  unfold bigint_set_str. cbn [is_null].
  assert (match (if n <? 0 then [45] else []) ++ cs with c :: rest => if c =? 45 then (-1, rest) else (1, (if n <? 0 then [45] else []) ++ cs)
    | [] => (1, (if n <? 0 then [45] else []) ++ cs) end = (if n <? 0 then -1 else 1, cs)) as ->.
  { destruct (n <? 0); [done|]. cbn [app]. destruct Hs as [|c d cs ds Hc]; [done|]. destruct (hex_digit_range c d Hc) as [_ Hc'].
    by rewrite (proj2 (Z.eqb_neq _ _) Hc'). }
  destruct (skip_zeros_spells cs ds Hs) as (ds' & Hs' & Hn' & Hpos). rewrite Hn in Hn', Hpos. pose proof (Forall2_length _ _ _ Hs') as Hlen.
  pose proof (readable_length n ds' Hread Hpos) as H32.
  set (str := skip_while (Z.eqb 48) cs) in *. rewrite Hlen, u32_small by lia. destruct (Z.eqb_spec (Z.of_nat (length ds')) 0) as [E|E].
  { assert (n = 0) as -> by (destruct ds'; [|done]; cbn in Hn'; lia). step run_set_sign. apply run_ret.
    assert (valid (mk_bigint (items x) 0 (neged_with_sign x))) as V0 by (split; cbn; [apply Vx|by left|done|done]).
    destruct (exec_replace m p x _ Hm Hx V0) as [H1 H2]. split; [done|]. by rewrite H2. }
  step run_destroy_items. step run_set_sign. set (len := Z.of_nat (length ds')) in *. unfold BIGINT_ITEM_HEX_DIGITS.
  pose proof (Z.div_mod len 12 ltac:(lia)) as Hdiv. pose proof (Z.mod_pos_bound len 12 ltac:(lia)) as Hmod. pose proof (Z.div_pos len 12 ltac:(lia) ltac:(lia)) as Hq.
  set (q := len / 12) in *. set (r := len mod 12) in *. clearbody q r.
  rewrite (i32_small q), (i32_small r) by lia. rewrite i32_small by (destruct (Z.eqb_spec r 0); lia).
  apply run_bind. eapply (run_set_str_loop _ _ _ ds' []); [done| | |by right|constructor|].
  - destruct (Z.eqb_spec r 0); (destruct (Z.to_nat _) eqn:Ek; [lia|]); lia.
  - destruct (Z.eqb_spec r 0); lia.
  - intros l Fl Ll Dl. step run_set_items. apply run_ret. cbn [digits] in Dl. rewrite Hn' in Dl.
    assert (l <> []) as Nl by (intros ->; cbn in Ll; destruct (Z.eqb_spec r 0); lia). assert (0 < Z.abs n) as Hn0.
    { destruct Hpos as [->|Hpos]; [done|]. pose proof (Z.pow_pos_nonneg 16 (Z.of_nat (length ds') - 1) ltac:(lia) ltac:(lia)). lia. }
    assert (valid (mk_bigint l (if n <? 0 then -1 else 1) false)) as Vl by (split; cbn; [done|destruct (n <? 0); auto|done|lia]).
    destruct (exec_replace m p x _ Hm Hx Vl) as [H1 H2]. split; [done|]. rewrite H2. cbn [sign]. unfold value. cbn [sign items neged_with_sign].
    rewrite Dl. destruct (Z.ltb_spec n 0); cbn; [rewrite (Z.sgn_neg n), Z.abs_neq, Z.opp_involutive in * by lia|rewrite (Z.sgn_pos n), Z.abs_eq in * by lia]; done.
Qed.

(** ** Printing *)

Lemma hex_digits_spells n v acc : exists cs ds,
  hex_digits n v acc = cs ++ acc /\ spells cs ds /\ length ds = n /\ numeral 0 ds = v mod 16 ^ Z.of_nat n.
Proof using.
  revert v acc. induction n as [|n IH]; intros v acc; cbn [hex_digits].
  - exists [], []. split; [done|]. split; [constructor|]. split; [done|]. by rewrite Z.mod_1_r.
  - destruct (IH (v / 16) (digit_to_hex (v mod 16) :: acc)) as (cs & ds & E & Hs & Hl & Hv). exists (cs ++ [digit_to_hex (v mod 16)]), (ds ++ [v mod 16]).
    split; [by rewrite E, <- app_assoc|]. split; [apply Forall2_app; [done|]; constructor; [|constructor]; apply hex_digit_print; by apply Z.mod_pos_bound|].
    split; [rewrite length_app; cbn; lia|]. rewrite numeral_app, Hv. cbn [numeral]. rewrite Nat2Z.inj_succ, Z.pow_succ_r by lia.
    pose proof (Z.pow_pos_nonneg 16 (Z.of_nat n) ltac:(lia) ltac:(lia)). rewrite Z.rem_mul_r by lia. lia.
Qed.

Lemma print_hex_spells v : item_ok v -> v <> 0 -> exists cs ds, print_hex v = cs /\ spells cs ds /\ (length ds <= 12)%nat /\ numeral 0 ds = v.
Proof using.
  intros [H1 H2] H0. unfold print_hex. destruct (hex_digits_spells (Z.to_nat (Z.log2 v / 4 + 1)) v []) as (cs & ds & E & Hs & Hl & Hv).
  exists cs, ds. rewrite app_nil_r in E. split; [done|]. split; [done|]. pose proof (Z.log2_nonneg v).
  assert (Z.log2 v < 48) as H48 by (apply Z.log2_lt_pow2; [lia|done]). pose proof (Z.div_mod (Z.log2 v) 4 ltac:(lia)). pose proof (Z.mod_pos_bound (Z.log2 v) 4 ltac:(lia)).
  split; [rewrite Hl; lia|]. rewrite Hv. apply Z.mod_small. split; [lia|]. rewrite Z2Nat.id by lia.
  apply (Z.lt_le_trans _ (2 ^ Z.succ (Z.log2 v))); [apply Z.log2_spec; lia|]. change 16 with (2 ^ 4). rewrite <- Z.pow_mul_r by lia. apply Z.pow_le_mono_r; lia.
Qed.

Lemma print_hex12_spells v : item_ok v -> exists ds, spells (print_hex12 v) ds /\ length ds = 12%nat /\ numeral 0 ds = v.
Proof using.
  intros Hv. assert (exists cs ds, (if v =? 0 then [48] else print_hex v) = cs /\ spells cs ds /\ (length ds <= 12)%nat /\ numeral 0 ds = v) as (cs & ds & E & Hs & Hl & Hn).
  { destruct (Z.eqb_spec v 0) as [->|H0]; [|by apply print_hex_spells]. exists [48], [0]. split; [done|]. split; [by repeat constructor|]. split; [cbn; lia|done]. }
  unfold print_hex12. rewrite E. pose proof (Forall2_length _ _ _ Hs) as El. rewrite El. exists (replicate (12 - length ds) 0 ++ ds).
  split; [apply Forall2_app; [by apply Forall2_replicate|done]|]. split; [rewrite length_app, length_replicate; lia|].
  rewrite numeral_app. replace (numeral 0 (replicate _ 0)) with 0; [done|]. induction (12 - length ds)%nat as [|k IH]; [done|exact IH].
Qed.

Lemma print_rest_spells l acc : Forall item_ok l -> exists ds,
  spells (l ≫= print_hex12) ds /\ numeral acc ds = digits (reverse l) + acc * size (length l).
Proof using.
  intros Hl. revert acc. induction Hl as [|v l Hv _ IH]; intros acc; [exists []; split; [by apply Forall2_nil|]; change (acc = 0 + acc * size 0); rewrite size_0; lia|].
  destruct (print_hex12_spells v Hv) as (d1 & H1 & L1 & N1). destruct (IH (numeral acc d1)) as (d2 & H2 & N2). exists (d1 ++ d2). split.
  - by apply Forall2_app.
  - rewrite numeral_app, N2, numeral_acc, N1, L1, reverse_cons, digits_app, length_reverse. cbn [digits length]. rewrite size_S. change (16 ^ Z.of_nat 12) with base. lia.
Qed.

(** The object that is printed holds the magnitude. *)
Lemma exec_to_str p v n Q :
  v !! p = Some (Z.sgn n, n) -> recoverable n -> (forall s, text n s -> Q (Some s) v) -> exec (bigint_to_str (Some p)) v Q.
Proof using HM.
  intros Hp Hr HQ m Hm <-. apply view_lookup_inv in Hp as (x & Hx & Es & Ev). assert (valid x) as Vx by by apply (Hm p).
  assert (~ collapsed x) as Hc by (apply recoverable_not_collapsed; [done|by rewrite Ev]).
  assert (sign x = 0 -> text n [48]) as H0.
  { intros E. assert (n = 0) as -> by (rewrite <- Ev; by apply value_zero). exists [48], [0]. split; [done|]. split; [by repeat constructor|done]. }
  unfold bigint_to_str. cbn [is_null]. step_load. case_bool_decide as Hnil.
  { apply run_ret. split; [done|]. apply HQ, H0. destruct (decide (sign x = 0)); [done|]. by destruct (valid_nonempty x Vx). }
  destruct (Z.eqb_spec (sign x) 0) as [E|E]; [apply run_ret; split; [done|]; by apply HQ, H0|].
  destruct (to_magnitude_digits x Vx Hc E) as [Hd _]. pose proof (to_magnitude_same x Vx Hc) as Hsame. pose proof Hsame as [Vy Sy Wy].
  apply run_bind. assert (run (if (sign x <? 0) && neged_with_sign x then bigint_neg_with_sign_inplace (Some p) true ;; mret tt else mret tt) m
    (fun _ m' => m' = <[p := to_magnitude x]> m)) as Hmag.
  { unfold to_magnitude. destruct ((sign x <? 0) && neged_with_sign x); [|apply run_ret; by rewrite insert_id].
    apply run_bind. eapply run_negate; [done|done|by left|]. by apply run_ret. }
  eapply run_mono; [exact Hmag|]. intros [] m' ->. set (y := to_magnitude x) in *. step_load.
  destruct (exec_replace m p x y Hm Hx Vy) as [H1 H2].
  assert (view (<[p := y]> m) = view m) as Hview by (rewrite H2, Sy, Wy; apply insert_id; by apply view_lookup).
  destruct (skip_while (Z.eqb 0) (reverse (items y))) as [|v rest] eqn:Eskip.
  { exfalso. assert (digits (items y) = 0) as Hy0 by (apply strip_zeros_nil; [apply Vy|]; unfold strip_zeros; by rewrite Eskip). lia. }
  assert (strip_zeros (items y) = reverse rest ++ [v]) as Estrip by (unfold strip_zeros; by rewrite Eskip, reverse_cons).
  pose proof (strip_zeros_last _ _ _ (valid_items y Vy) Estrip) as Hv. pose proof (strip_zeros_ok _ (valid_items y Vy)) as Hok. rewrite Estrip in Hok.
  apply Forall_app in Hok as [Hrest [Hvok _]%Forall_cons]. rewrite <- (digits_strip_zeros (items y)), Estrip, digits_app, length_reverse in Hd.
  destruct (print_hex_spells v Hvok ltac:(lia)) as (c1 & d1 & E1 & S1 & _ & N1). rewrite Forall_reverse in Hrest.
  destruct (print_rest_spells rest v Hrest) as (d2 & S2 & N2). apply run_ret. rewrite Hview. split; [done|]. apply HQ.
  exists (c1 ++ (rest ≫= print_hex12)), (d1 ++ d2). rewrite E1. split.
  - f_equal. destruct (Z.ltb_spec (sign x) 0), (Z.ltb_spec n 0); [done| |lia|done]. exfalso. lia.
  - split; [by apply Forall2_app|]. rewrite numeral_app, N1, N2. cbn [digits] in Hd. lia.
Qed.
End Text.
