(* ===== verification/BigIntClaims.v ===== *)
(** * Big integers: the properties

    What the operations compute, from a heap of valid objects with memory for
    every request, and concrete runs that show where the code departs from it. *)

From Stdlib Require Import Zdivisibility.
From S2P Require Import Prelude BigInt BigIntArith BigIntDigits BigIntTheory BigIntRun BigIntSum BigIntBits BigIntShift BigIntMul BigIntDiv BigIntPow BigIntPrime BigIntText.

(** ** Numbers in a heap *)

(** A register file of integers and the objects that hold them. *)
Definition numbers (regs : gmap loc Z) : gmap loc (Z * Z) := (fun n => (Z.sgn n, n)) <$> regs.

Definition holds (s : heap) (regs : gmap loc Z) : Prop := all_valid (objs s) /\ view (objs s) = numbers regs.

(** A call returns zero and leaves the heap with these numbers. *)
Definition computes (c : M Z) (s : heap) (regs : gmap loc Z) : Prop := exists s', c s = Done (0, s') /\ holds s' regs.

Lemma numbers_lookup regs p n : regs !! p = Some n -> numbers regs !! p = Some (Z.sgn n, n).
Proof. intros Hp. unfold numbers. by rewrite lookup_fmap, Hp. Qed.

Lemma numbers_insert regs p n : numbers (<[p := n]> regs) = <[p := (Z.sgn n, n)]> (numbers regs).
Proof. unfold numbers. by rewrite fmap_insert. Qed.

(** ** Programs *)

Inductive instr : Type :=
| Iset (r : loc) (w : Z)
| Icopy (r a : loc)
| Iadd (r a b : loc)
| Isub (r a b : loc)
| Imul (r a b : loc)
| Idiv (q r a b : loc)
| Imod (r a b : loc)
| Ipow (r a b : loc)
| Ipow_mod (r a b c : loc)
| Igcd (r a b : loc).

Section Programs.
Context {HM : Machine}.

Definition call (i : instr) : M Z :=
  match i with
  | Iset r w => bigint_set_int64 (Some r) w
  | Icopy r a => bigint_set_bigint (Some r) (Some a)
  | Iadd r a b => bigint_add (Some r) (Some a) (Some b)
  | Isub r a b => bigint_sub (Some r) (Some a) (Some b)
  | Imul r a b => bigint_mul (Some r) (Some a) (Some b)
  | Idiv q r a b => bigint_div_with_remainder (Some q) (Some r) (Some a) (Some b)
  | Imod r a b => bigint_mod (Some r) (Some a) (Some b)
  | Ipow r a b => bigint_pow (Some r) (Some a) (Some b)
  | Ipow_mod r a b c => bigint_pow_mod (Some r) (Some a) (Some b) (Some c)
  | Igcd r a b => bigint_gcd (Some r) (Some a) (Some b)
  end.

(** The calls one after the other, to the first that fails. *)
Fixpoint calls (prog : list instr) : M Z :=
  match prog with
  | [] => mret 0
  | i :: prog => rc ← call i; if rc =? 0 then calls prog else mret rc
  end.
End Programs.

(** A power of two is the only magnitude that a chain of zero items can stand for. *)
Definition recoverableb (v : Z) : bool := (0 <=? v) || negb (- v =? 2 ^ Z.log2 (- v)).

Lemma recoverableb_spec v : recoverableb v = true -> recoverable v.
Proof.
  unfold recoverableb. intros [H%Z.leb_le|H]%orb_prop n Hn ->; [pose proof (size_pos n); lia|].
  rewrite Z.opp_involutive, size_bits in H. rewrite Z.log2_pow2 in H by lia. by rewrite Z.eqb_refl in H.
Qed.

Definition writable (regs : gmap loc Z) (r : loc) : bool := bool_decide (is_Some (regs !! r)).

(** The numbers that an instruction is defined on, and its meaning there. *)
Definition meaning (i : instr) (regs : gmap loc Z) : option (gmap loc Z) :=
  match i with
  | Iset r w => if writable regs r && ((- 2 ^ 63 <=? w) && (w <? 2 ^ 63)) then Some (<[r := w]> regs) else None
  | Icopy r a => x ← regs !! a; if writable regs r then Some (<[r := x]> regs) else None
  | Iadd r a b => x ← regs !! a; y ← regs !! b; if writable regs r then Some (<[r := x + y]> regs) else None
  | Isub r a b =>
    x ← regs !! a; y ← regs !! b;
    if writable regs r && (negb (x =? 0) && ((y =? 0) || (Z.sgn y =? Z.sgn x)) && (y <=? x)) then Some (<[r := x - y]> regs) else None
  | Imul r a b =>
    x ← regs !! a; y ← regs !! b;
    if writable regs r && (bool_decide (r = a \/ r <> b) && (recoverableb x && recoverableb y)) then Some (<[r := x * y]> regs) else None
  | Idiv q r a b =>
    x ← regs !! a; y ← regs !! b;
    if writable regs q && writable regs r && (bool_decide ((q = a \/ q <> b) /\ r <> q) && ((0 <? x) && (0 <? y)))
    then Some (<[q := x / y]> (<[r := x mod y]> regs)) else None
  | Imod r a b => x ← regs !! a; y ← regs !! b; if writable regs r && ((0 <? x) && (0 <? y)) then Some (<[r := x mod y]> regs) else None
  | Ipow r a b =>
    x ← regs !! a; y ← regs !! b;
    if writable regs r && (bool_decide (r = a \/ r <> b) && ((0 <? x) && (0 <? y))) then Some (<[r := x ^ y]> regs) else None
  | Ipow_mod r a b c =>
    x ← regs !! a; y ← regs !! b; n ← regs !! c;
    if writable regs r && (bool_decide (r = a \/ r <> b /\ r <> c) && ((0 <? x) && (0 <? y) && (1 <? n) && (Z.gcd x n =? 1)))
    then Some (<[r := x ^ y mod n]> regs) else None
  | Igcd r a b =>
    x ← regs !! a; y ← regs !! b;
    if writable regs r && (bool_decide (r = a \/ r <> b /\ x <> y) && ((0 <=? x) && (0 <=? y))) then Some (<[r := Z.gcd x y]> regs) else None
  end.

Fixpoint meanings (prog : list instr) (regs : gmap loc Z) : option (gmap loc Z) :=
  match prog with [] => Some regs | i :: prog => regs ← meaning i regs; meanings prog regs end.

Lemma writable_view regs r : writable regs r = true -> exists z, numbers regs !! r = Some z.
Proof. intros [x Hx]%bool_decide_eq_true. exists (Z.sgn x, x). by apply numbers_lookup. Qed.

(** Splits the guard of an instruction. *)
Ltac guards :=
  repeat match goal with
  | H : mbind _ (?regs !! ?p) = Some _ |- _ => let E := fresh "R" in destruct (regs !! p) eqn:E; [cbn in H|done]; apply numbers_lookup in E
  | H : (if ?b then Some _ else None) = Some _ |- _ => let E := fresh "G" in destruct b eqn:E; [injection H as <-|done]
  | H : (_ && _)%bool = true |- _ => apply andb_prop in H as [? ?]
  | H : writable _ _ = true |- _ => apply writable_view in H as [? ?]
  | H : bool_decide _ = true |- _ => apply bool_decide_eq_true in H
  | H : recoverableb _ = true |- _ => apply recoverableb_spec in H
  end.

Section Refinement.
Context {HM : Machine} {HP : Plenty HM}.

(** Every instruction does what it means. *)
Lemma exec_call i regs regs' Q : meaning i regs = Some regs' -> Q 0 (numbers regs') -> exec (call i) (numbers regs) Q.
Proof using HM HP.
  intros Hi HQ. destruct i; cbn [meaning] in Hi; guards; rewrite ?numbers_insert in HQ; cbn [call].
  - eapply exec_set_int64; [eassumption|lia|done].
  - eapply exec_set_bigint; eassumption.
  - eapply exec_add; [eassumption..|]. by rewrite sum_sign_normal.
  - eapply exec_sub; [eassumption..|lia|lia|lia|]. destruct (Z.eqb_spec (Z.sgn z0) 0); [|done]. by replace z0 with 0 in * by lia; rewrite Z.sub_0_r in *.
  - eapply exec_mul; [eassumption..|done].
  - eapply exec_div_with_remainder; [eassumption..|tauto| |lia|lia|done]. intros ? [= <-]. split; [tauto|by eexists].
  - eapply exec_mod; [eassumption..|lia|lia|done].
  - eapply exec_pow; [eassumption..|lia|lia|done].
  - eapply exec_pow_mod; [eassumption..|lia|lia|lia|unfold Z.coprime; lia|done].
  - eapply exec_gcd; [eassumption..|lia|lia|done].
Qed.

Lemma exec_calls prog regs regs' : meanings prog regs = Some regs' -> exec (calls prog) (numbers regs) (fun rc v => rc = 0 /\ v = numbers regs').
Proof using HM HP.
  revert regs. induction prog as [|i prog IH]; intros regs; cbn [meanings calls]; [intros [= <-]; by apply exec_ret|].
  destruct (meaning i regs) as [regs1|] eqn:Hi; [cbn|done]. intros Hp. apply exec_bind. eapply exec_call; [done|]. by apply IH.
Qed.

Lemma exec_computes c s regs regs' : holds s regs -> exec c (numbers regs) (fun rc v => rc = 0 /\ v = numbers regs') -> computes c s regs'.
Proof using.
  intros [Hv Hn] Hc. destruct (run_done c s _ (Hc (objs s) Hv Hn)) as (rc & s' & E & Hv' & -> & Hn'). by exists s'.
Qed.
End Refinement.

(** ** Types *)

(** The instructions that are defined on every valid object, over the objects of [G]. *)
Definition well_typed (G : gset loc) (i : instr) : Prop :=
  match i with
  | Iset r w => r ∈ G /\ - 2 ^ 63 <= w < 2 ^ 63
  | Icopy r a => r ∈ G /\ a ∈ G
  | Iadd r a b => r ∈ G /\ a ∈ G /\ b ∈ G
  | _ => False
  end.

Lemma dom_insert_view (v : gmap loc (Z * Z)) p y z : v !! p = Some y -> dom (<[p := z]> v) = dom v.
Proof. intros Hp. apply dom_insert_lookup_L. by exists y. Qed.

Section Types.
Context {HM : Machine} {HP : Plenty HM}.

Lemma exec_call_typed i v Q : well_typed (dom v) i -> (forall v', dom v' = dom v -> Q 0 v') -> exec (call i) v Q.
Proof using HM HP.
  intros Hi HQ. destruct i as [r w|r a|r a b| | | | | | |]; cbn [well_typed] in Hi; try done; cbn [call].
  - destruct Hi as [[y Hr]%elem_of_dom Hw]. eapply exec_set_int64; [eassumption|done|]. by eapply HQ, dom_insert_view.
  - destruct Hi as [[y Hr]%elem_of_dom [x Ha]%elem_of_dom]. eapply exec_set_bigint; [eassumption..|]. by eapply HQ, dom_insert_view.
  - destruct Hi as ([y Hr]%elem_of_dom & [[sa va] Ha]%elem_of_dom & [[sb vb] Hb]%elem_of_dom). eapply exec_add; [eassumption..|]. by eapply HQ, dom_insert_view.
Qed.

Lemma exec_calls_typed prog v : Forall (well_typed (dom v)) prog -> exec (calls prog) v (fun rc v' => rc = 0 /\ dom v' = dom v).
Proof using HM HP.
  revert v. induction prog as [|i prog IH]; intros v Hp; cbn [calls]; [by apply exec_ret|]. apply Forall_cons in Hp as [Hi Hp].
  apply exec_bind, exec_call_typed; [done|]. intros v' Hd. rewrite <- Hd in Hp. intros m Hm Hv. eapply run_mono; [by apply (IH v')|].
  intros rc m' (H1 & H2 & H3). split; [done|]. split; [done|congruence].
Qed.
End Types.

(** ** The theorems *)

Section Claims.
Context {HM : Machine} {HP : Plenty HM}.

(** C34.  A program of calls on big integers computes what it means: on registers
    that hold integers, a sequence of assignments, sums, differences, signed
    products, quotients with remainder, powers, modular powers and greatest
    common divisors (within the guards of [meaning]) runs to its end, every call
    returns 0, and the registers hold the results of the arithmetic on [Z]; no
    temporary object stays behind and operands keep their values although the
    calls change how they are represented.  Allocations succeed ([Plenty]). *)
Theorem bigint_program_refines prog s regs regs' :
  holds s regs -> meanings prog regs = Some regs' -> computes (calls prog) s regs'.
Proof using HM HP. intros Hs Hp. eapply exec_computes; [done|]. by apply exec_calls. Qed.

(** Well-typed sums do not go wrong while allocations succeed: from any heap of
    valid objects, a program of assignments, copies and sums over objects of the heap runs to its
    end without a NULL dereference, every call returns 0, and the heap consists
    of the same objects, all valid. *)
Theorem bigint_sums_type_safe prog s :
  all_valid (objs s) -> Forall (well_typed (dom (objs s))) prog ->
  exists s', calls prog s = Done (0, s') /\ all_valid (objs s') /\ dom (objs s') = dom (objs s).
Proof using HM HP.
  intros Hv Hp. rewrite <- (dom_fmap_L (fun x => (sign x, value x)) (objs s)) in Hp.
  destruct (run_done (calls prog) s _ (exec_calls_typed prog _ Hp (objs s) Hv eq_refl)) as (rc & s' & E & Hv' & -> & Hd).
  exists s'. split; [done|]. split; [done|]. unfold view in Hd. by rewrite !dom_fmap_L in Hd.
Qed.

(** Addition is exact for operands of any sign and any length, and for any
    aliasing of the result with the operands. *)
Theorem bigint_add_correct s regs r a b x y :
  holds s regs -> regs !! a = Some x -> regs !! b = Some y -> is_Some (regs !! r) ->
  computes (bigint_add (Some r) (Some a) (Some b)) s (<[r := x + y]> regs).
Proof using HM HP.
  intros Hs Ha%numbers_lookup Hb%numbers_lookup [z Hr%numbers_lookup]. eapply exec_computes; [done|].
  eapply exec_add; [eassumption..|]. by rewrite sum_sign_normal, numbers_insert.
Qed.

(** Multiplication is exact for operands of any sign, unless an operand is
    a negative power of the base (whose two's complement may have lost its
    magnitude) or the result is the second operand only. *)
Theorem bigint_mul_correct s regs r a b x y :
  holds s regs -> regs !! a = Some x -> regs !! b = Some y -> is_Some (regs !! r) -> r = a \/ r <> b -> recoverable x -> recoverable y ->
  computes (bigint_mul (Some r) (Some a) (Some b)) s (<[r := x * y]> regs).
Proof using HM HP.
  intros Hs Ha%numbers_lookup Hb%numbers_lookup [z Hr%numbers_lookup] Hrb Hx Hy. eapply exec_computes; [done|].
  eapply exec_mul; [eassumption..|]. by rewrite numbers_insert.
Qed.

(** Modular exponentiation by squaring ends and gives [x ^ y mod n] for a
    base that is prime to the modulus. *)
Theorem bigint_pow_mod_correct s regs r a b c x y n :
  holds s regs -> regs !! a = Some x -> regs !! b = Some y -> regs !! c = Some n -> is_Some (regs !! r) -> r = a \/ r <> b /\ r <> c ->
  0 < x -> 0 < y -> 1 < n -> Z.gcd x n = 1 ->
  computes (bigint_pow_mod (Some r) (Some a) (Some b) (Some c)) s (<[r := x ^ y mod n]> regs).
Proof using HM HP.
  intros Hs Ha%numbers_lookup Hb%numbers_lookup Hc%numbers_lookup [z Hr%numbers_lookup] Hrb Hx Hy Hn Hco. eapply exec_computes; [done|].
  eapply exec_pow_mod; [eassumption..|]. by rewrite numbers_insert.
Qed.

(** C35.  The primality test never rejects a prime: for a prime from seven on
    [bigint_is_prime] ends with true whatever random numbers it draws, and
    leaves the numbers of the heap as they were.  Allocations succeed
    ([Plenty]). *)
Theorem bigint_is_prime_accepts s regs p n :
  holds s regs -> regs !! p = Some n -> Z.prime n -> 7 <= n ->
  exists s', bigint_is_prime (Some p) s = Done (true, s') /\ holds s' regs.
Proof using HM HP.
  intros [Hv Hs] Hp%numbers_lookup Hn Hn7.
  destruct (run_done _ s _ (exec_is_prime p (numbers regs) n (fun b v => b = true /\ v = numbers regs) Hp Hn Hn7 ltac:(done) (objs s) Hv Hs)) as (b & s' & E & Hv' & -> & Hs').
  by exists s'.
Qed.

(** C36.  [bigint_set_str] reads back what [bigint_to_str] prints: the text of a
    number, read into another object, gives the same number, whatever its sign
    and however the object that was printed represents it.  The number is not a
    negative power of the base 2^48 ([recoverable]; the two's complement of such
    a number may have lost its magnitude, and prints as 0) and has fewer than
    2^32 hexadecimal digits ([readable]; the length of the text is cut to 32
    bits), and allocations succeed ([Plenty]). *)
Theorem bigint_str_roundtrip s regs p q n :
  holds s regs -> regs !! p = Some n -> is_Some (regs !! q) -> recoverable n -> readable n ->
  exists str s', bigint_to_str (Some p) s = Done (Some str, s') /\ holds s' regs /\
    computes (bigint_set_str (Some q) (Some str)) s' (<[q := n]> regs).
Proof using HM HP.
  intros [Hv Hs] Hp%numbers_lookup [z Hq%numbers_lookup] Hr Hread.
  destruct (run_done _ s _ (exec_to_str p (numbers regs) n (fun r v => exists str, r = Some str /\ text n str /\ v = numbers regs) Hp Hr ltac:(intros str Ht; by exists str) (objs s) Hv Hs))
    as (r & s' & E & Hv' & str & -> & Ht & Hs').
  exists str, s'. split; [done|]. split; [done|]. eapply exec_computes; [done|]. eapply exec_set_str; [eassumption..|]. by rewrite numbers_insert.
Qed.
End Claims.

(** ** Concrete heaps *)

Module Witness.

#[local] Instance machine : Machine := {| room _ := true; rand n := Z.of_nat n * 7919 + 12345 |}.
#[local] Instance machine_plenty : Plenty machine := fun _ => eq_refl.

(** The object of a number of one item. *)
Definition object_of (n : Z) : bigint_t := if n =? 0 then mk_bigint [] 0 false else mk_bigint [Z.abs n] (Z.sgn n) false.
Definition heap_of (regs : gmap loc Z) : heap := mk_heap (object_of <$> regs) 0 0.

Lemma object_of_valid n : Z.abs n < base -> valid (object_of n) /\ sign (object_of n) = Z.sgn n /\ value (object_of n) = n.
Proof.
  intros Hn. unfold object_of. destruct (Z.eqb_spec n 0) as [->|H0]; [by split; [apply empty_valid|]|]. unfold value. cbn [sign items digits neged_with_sign].
  split; [split; cbn; [repeat constructor; lia|lia|done|lia]|]. split; [done|]. destruct (Z.eqb_spec (Z.sgn n) 0), (Z.ltb_spec 0 (Z.sgn n)); lia.
Qed.

Lemma heap_of_holds regs : bool_decide (map_Forall (fun _ n => Z.abs n < base) regs) = true -> holds (heap_of regs) regs.
Proof.
  intros Hr%bool_decide_eq_true. split.
  - intros p x. unfold heap_of. cbn. rewrite lookup_fmap, fmap_Some. intros (n & Hn & ->). by apply object_of_valid, (Hr p).
  - unfold view, numbers, heap_of. cbn. rewrite <- map_fmap_compose. apply map_fmap_ext. intros p n Hn. cbn.
    destruct (object_of_valid n (Hr p n Hn)) as (_ & -> & ->). done.
Qed.

Definition regs : gmap loc Z := {[1%positive := 0xF1; 2%positive := -7; 3%positive := 10; 4%positive := 0; 5%positive := 0]}.

Lemma bigint_program_witness :
  computes (calls [Imul 4 1 2; Iadd 5 4 1; Icopy 4 3; Ipow 4 4 3; Idiv 5 3 4 1; Igcd 3 3 4; Icopy 1 5; Iset 2 9; Ipow_mod 5 4 3 2; Isub 4 4 5]) (heap_of regs)
    {[1%positive := 41493775; 2%positive := 9; 3%positive := 25; 4%positive := 9999999999; 5%positive := 1]}.
Proof.
  apply (bigint_program_refines _ _ regs); [by apply heap_of_holds|]. vm_compute. reflexivity.
Defined.

Lemma bigint_sums_witness :
  exists s', calls [Iadd 1 1 2; Icopy 2 1; Iset 3 (-5)] (heap_of regs) = Done (0, s') /\ all_valid (objs s') /\ dom (objs s') = dom (objs (heap_of regs)).
Proof.
  apply bigint_sums_type_safe; [by apply (heap_of_holds regs)|]. repeat constructor; vm_compute; done.
Defined.

Lemma bigint_add_witness : computes (bigint_add (Some 2) (Some 1) (Some 2))%positive (heap_of regs) (<[2%positive := 0xF1 + -7]> regs).
Proof. by apply bigint_add_correct; [apply heap_of_holds|..|exists (-7)]. Defined.

Lemma bigint_mul_witness : computes (bigint_mul (Some 2) (Some 2) (Some 1))%positive (heap_of regs) (<[2%positive := -7 * 0xF1]> regs).
Proof.
  by apply bigint_mul_correct; [apply heap_of_holds|..|exists (-7)|left|apply recoverableb_spec|apply recoverableb_spec].
Defined.

Lemma bigint_pow_mod_witness :
  computes (bigint_pow_mod (Some 4) (Some 3) (Some 1) (Some 1))%positive (heap_of regs) (<[4%positive := 10 ^ 0xF1 mod 0xF1]> regs).
Proof. by apply bigint_pow_mod_correct; [apply heap_of_holds| | | |exists 0|right| | | |]. Defined.

Lemma prime_11 : Z.prime 11.
Proof. split; [lia|]. intros n Hn [k Hk]. assert (n = 2 \/ n = 3 \/ n = 4 \/ n = 5 \/ n = 6 \/ n = 7 \/ n = 8 \/ n = 9 \/ n = 10) as H by lia. lia. Qed.

Lemma bigint_is_prime_witness : exists s', bigint_is_prime (Some 1%positive) (heap_of {[1%positive := 11]}) = Done (true, s') /\ holds s' {[1%positive := 11]}.
Proof. by apply (bigint_is_prime_accepts _ _ _ 11); [apply heap_of_holds| |apply prime_11|]. Defined.

Lemma bigint_str_witness : exists str s', bigint_to_str (Some 2%positive) (heap_of regs) = Done (Some str, s') /\ holds s' regs /\
  computes (bigint_set_str (Some 4%positive) (Some str)) s' (<[4%positive := -7]> regs).
Proof. by apply bigint_str_roundtrip; [apply heap_of_holds|..|exists 0|apply recoverableb_spec|]. Defined.
End Witness.
