(* ===== verification/BigIntRuns.v ===== *)
(** * Big integers: concrete runs

    Runs of the operations on numbers given as text, where the result is not
    the arithmetic one or the machine stops. *)

From Stdlib Require Import Ascii String.
From S2P Require Import Prelude BigInt BigIntArith.

#[local] Instance steady : Machine := {| room _ := true; rand n := Z.of_nat n * 7919 + 12345 |}.

Definition codes (s : string) : list Z := map (fun c => Z.of_nat (nat_of_ascii c)) (list_ascii_of_string s).

Definition num (s : string) : M ptr := p ← bigint_create; bigint_set_str p (Some (codes s)) ;; mret p.

(** The outcome of a command in an empty heap. *)
Definition result {A} (c : M A) : outcome A :=
  match c (mk_heap ∅ 0 0) with Done (x, _) => Done x | Halted => Halted | OutOfFuel => OutOfFuel end.

(** The text of the result of an operation into a new object. *)
Definition binary (op : ptr -> ptr -> ptr -> M Z) (x y : string) : outcome (option (list Z)) :=
  result (a ← num x; b ← num y; r ← bigint_create; op r a b ;; bigint_to_str r).

Abbreviation prints c s := (c = Done (Some (codes s))).

(** What the operations are meant to do. *)
Example runs_as_expected :
  prints (binary bigint_add "-1" "FFFFFFFFFFFF000000000001") "FFFFFFFFFFFF000000000000" /\
  prints (binary bigint_mul "-123456789ABCDEF0" "FEDCBA987654321") "-121FA00AD77D7422236D88FE5618CF0" /\
  prints (binary bigint_div "123456789ABCDEF0123456789" "FEDCBA98765") "124924924924DF" /\
  prints (binary bigint_gcd "48" "36") "12".
Proof. vm_compute. auto. Qed.

(** 5 - (-7) is not 12. *)
Example sub_signs_wrong : prints (binary bigint_sub "5" "-7") "-FFFFFFFFFFF4".
Proof. reflexivity. Qed.

(** A difference whose two's complement has a zero item on top loses the item. *)
Example sub_loses_item : prints (binary bigint_sub "5" "FFFFFFFFFFFF00000000000A") "-5".
Proof. reflexivity. Qed.

(** The sum -2^48 is stored as the complement of zero and prints as zero. *)
Example add_collapses : prints (binary bigint_add "-1" "-FFFFFFFFFFFF") "0".
Proof. reflexivity. Qed.

(** Bit operations on negative numbers lose a zero item on top. *)
Example and_negative_wrong : prints (binary bigint_and "-FFFFFFFFFFFF" "-FFFFFFFFFFFE") "0".
Proof. reflexivity. Qed.

Example xor_negative_wrong : prints (binary bigint_xor "-FFFFFFFFFFFF" "1") "0".
Proof. reflexivity. Qed.

(** A quotient of different signs is one too small when the division is exact. *)
Example div_exact_wrong : prints (binary bigint_div "-6" "3") "-3".
Proof. reflexivity. Qed.

Example mod_exact_wrong : prints (binary bigint_mod "-6" "3") "FFFFFFFFFFFD" /\ prints (binary bigint_mod "6" "-3") "-3".
Proof. vm_compute. auto. Qed.

(** The remainder of zero is minus the divisor. *)
Example mod_zero_wrong : prints (binary bigint_mod "0" "3") "-3".
Proof. reflexivity. Qed.

(** The greatest common divisor of equal numbers, into another object, is zero. *)
Example gcd_equal_wrong : prints (binary bigint_gcd "6" "6") "0".
Proof. reflexivity. Qed.

(** 6^2 mod 3 is not 1. *)
Example pow_mod_zero_wrong : prints (result (a ← num "6"; b ← num "2"; c ← num "3"; r ← bigint_create; bigint_pow_mod r a b c ;; bigint_to_str r)) "1".
Proof. reflexivity. Qed.

(** -5 shifted left by four into another object. *)
Example shl_negative_wrong : prints (binary (fun r a _ => bigint_shl r a 4) "-5" "0") "-FFFFFFFFFFB0".
Proof. reflexivity. Qed.

(** The result is cleared before the second operand is read when they are one object. *)
Example mul_into_second_wrong : prints (result (a ← num "5"; b ← num "7"; bigint_mul b a b ;; bigint_to_str b)) "0".
Proof. reflexivity. Qed.

(** The test whether five is prime divides by zero; the comparison of a short
    number with a long word follows a null pointer. *)
Example is_prime_five_halts : result (a ← num "5"; bigint_is_prime a) = Halted.
Proof. vm_compute. reflexivity. Qed.

Example is_uint64_halts : result (a ← num "5"; bigint_is_uint64 a (2 ^ 48 + 5)) = Halted.
Proof. reflexivity. Qed.
