(* ===== verification/Quicksort.v ===== *)
(** * Quicksort ([cc/lib/quicksort.64.c])

    The array of pointers is a list of the objects they point to.  [None] is an
    access outside the array or a loop that does not end. *)

From S2P Require Import Prelude.

Section Quicksort.
Context {A : Type} (comparator : A -> A -> Z).

(** [while (comparator(array[i], array[pivot]) < 0) i++] *)
Fixpoint scan_up (fuel : nat) (array : list A) (pivot i : nat) : option nat :=
  match fuel with
  | O => None
  | S fuel =>
    x ← array !! i; p ← array !! pivot;
    if comparator x p <? 0 then scan_up fuel array pivot (S i) else Some i
  end.

Fixpoint scan_down (array : list A) (pivot j : nat) : option nat :=
  x ← array !! j; p ← array !! pivot;
  if 0 <? comparator x p then match j with O => Some O | S j' => scan_down array pivot j' end else Some j.

Definition swap (array : list A) (i j : nat) : option (list A) :=
  x ← array !! i; y ← array !! j; Some (<[j := x]> (<[i := y]> array)).

(** [while (i <= j)] *)
Fixpoint partition (fuel : nat) (array : list A) (pivot i j : nat) : option (list A * nat * nat) :=
  match fuel with
  | O => None
  | S fuel =>
    if bool_decide (i <= j)%nat then
      i ← scan_up (S (length array)) array pivot i;
      j ← scan_down array pivot j;
      if bool_decide (i < j)%nat then
        array ← swap array i j;
        partition fuel array pivot (S i) (pred j)
      else if bool_decide (i = j) then Some (array, S i, pred j)
      else partition fuel array pivot i j
    else Some (array, i, j)
  end.

Fixpoint quicksort2_partial (fuel : nat) (array : list A) (start end_ : nat) : option (list A) :=
  match fuel with
  | O => None
  | S fuel =>
    '(array, i, j) ← partition (S (S (length array))) array start start end_;
    array ← (if bool_decide (start < j)%nat then quicksort2_partial fuel array start j else Some array);
    if bool_decide (i < end_)%nat then quicksort2_partial fuel array i end_ else Some array
  end.

(** The end of an empty array is [2^64 - 1]. *)
Definition quicksort2 (array : list A) : option (list A) :=
  match length array with
  | O => None
  | S n => quicksort2_partial (S n) array 0 n
  end.
End Quicksort.

(** ** Correctness *)

Section Theory.
Context {A : Type} (comparator : A -> A -> Z) (key : A -> Z).
(** The comparator follows the keys of the items in [D]. *)
Context (D : A -> Prop) (Hlt : forall x y, D x -> D y -> (comparator x y <? 0) = (key x <? key y)) (Hgt : forall x y, D x -> D y -> (0 <? comparator x y) = (key y <? key x)).

(** [within s e P a]: the items from [s] to before [e] satisfy [P]. *)
Definition within (s e : nat) (P : Z -> Prop) (a : list A) : Prop := forall k x, (s <= k < e)%nat -> a !! k = Some x -> P (key x).

(** What a routine may do to the items from [s] to [e]: exchange them. *)
Record shuffles (s e : nat) (a a' : list A) : Prop := {
  shuffles_perm : a ≡ₚ a';
  shuffles_outside : forall k, (k < s \/ e < k)%nat -> a' !! k = a !! k;
  shuffles_inside : forall k, (s <= k <= e)%nat -> exists k', (s <= k' <= e)%nat /\ a' !! k = a !! k';
}.

Definition sorted_range (s e : nat) (a : list A) : Prop :=
  forall k l x y, (s <= k)%nat -> (k <= l <= e)%nat -> a !! k = Some x -> a !! l = Some y -> key x <= key y.

Lemma shuffles_refl s e a : shuffles s e a a.
Proof using. split; [done|done|]. intros k Hk. by exists k. Qed.

Lemma shuffles_length s e a a' : shuffles s e a a' -> length a' = length a.
Proof using. intros [Hp _ _]. by rewrite Hp. Qed.

Lemma shuffles_Forall s e P a a' : shuffles s e a a' -> Forall P a -> Forall P a'.
Proof using. intros [Hp _ _]. by rewrite Hp. Qed.

Lemma shuffles_trans s e a b c : shuffles s e a b -> shuffles s e b c -> shuffles s e a c.
Proof using.
  intros [P1 O1 I1] [P2 O2 I2]. split; [by rewrite P1| |].
  - intros k Hk. by rewrite O2, O1.
  - intros k Hk. destruct (I2 k Hk) as (k' & Hk' & ->). by apply I1.
Qed.

Lemma shuffles_weaken s e s' e' a b : (s' <= s)%nat -> (e <= e')%nat -> shuffles s e a b -> shuffles s' e' a b.
Proof using.
  intros Hs He [P O I]. split; [done|intros k Hk; apply O; lia|].
  intros k Hk. destruct (decide (s <= k <= e)%nat) as [H|H]; [destruct (I k H) as (k' & ? & ?); exists k'; split; [lia|done]|].
  exists k. split; [done|]. apply O. lia.
Qed.

Lemma within_shuffles s e s' e' P a b : shuffles s e a b -> (s' <= s /\ e < e' \/ e' <= s \/ e < s')%nat -> within s' e' P a -> within s' e' P b.
Proof using.
  intros [_ O I] Hd Ha k x Hk Hx. destruct (decide (s <= k <= e)%nat) as [H|H]; [|rewrite O in Hx by lia; by apply (Ha k)].
  destruct (I k H) as (k' & Hk' & E). rewrite E in Hx. apply (Ha k'); [lia|done].
Qed.

Lemma swap_shuffles s e (a : list A) i j x y :
  (s <= i)%nat -> (i < j <= e)%nat -> a !! i = Some x -> a !! j = Some y -> shuffles s e a (<[j := x]> (<[i := y]> a)).
Proof using.
  intros Hs Hij Hi Hj. split.
  - rewrite <- (take_drop_middle a i x Hi) at 1. rewrite <- (take_drop_middle (<[j := x]> _) i y) at 1.
    2: { rewrite list_lookup_insert_ne, list_lookup_insert_eq; [done|by eapply lookup_lt_Some|lia]. }
    rewrite take_insert_ge, take_insert_ge by lia. apply Permutation_app_head.
    assert (drop (S i) (<[j := x]> (<[i := y]> a)) = <[j - S i := x]> (drop (S i) a))%nat as ->.
    { by rewrite drop_insert_ge, drop_insert_lt by lia. }
    assert (drop (S i) a !! (j - S i)%nat = Some y) as Hd by (rewrite lookup_drop; by replace (S i + (j - S i))%nat with j by lia).
    set (d := drop (S i) a) in *. set (n := (j - S i)%nat) in *. rewrite <- (take_drop_middle d n y Hd) at 1.
    rewrite insert_take_drop by (by eapply lookup_lt_Some). rewrite <- (Permutation_middle _ _ y), <- (Permutation_middle _ _ x). apply perm_swap.
  - intros k Hk. by rewrite !list_lookup_insert_ne by lia.
  - intros k Hk. destruct (decide (k = j)) as [->|]; [exists i; split; [lia|]; rewrite list_lookup_insert_eq; [done|rewrite length_insert; by eapply lookup_lt_Some]|].
    rewrite list_lookup_insert_ne by done. destruct (decide (k = i)) as [->|]; [exists j; split; [lia|]; by rewrite list_lookup_insert_eq by (by eapply lookup_lt_Some)|].
    exists k. split; [done|]. by rewrite list_lookup_insert_ne.
Qed.

Lemma scan_up_spec fuel a pivot p i m x :
  Forall D a -> a !! pivot = Some p -> (i <= m)%nat -> a !! m = Some x -> key p <= key x -> (m - i < fuel)%nat ->
  exists i' y, scan_up comparator fuel a pivot i = Some i' /\ (i <= i' <= m)%nat /\ within i i' (fun v => v < key p) a /\ a !! i' = Some y /\ key p <= key y.
Proof using Hlt.
  intros HD Hp Hi Hm Hx. pose proof (proj1 (Forall_lookup _ _) HD) as HDl. revert i Hi. induction fuel as [|fuel IH]; intros i Hi Hf; [lia|]. cbn [scan_up].
  assert (is_Some (a !! i)) as [z Hz] by (apply lookup_lt_is_Some; apply lookup_lt_Some in Hm; lia). rewrite Hz, Hp. cbn. rewrite Hlt by eauto.
  destruct (Z.ltb_spec (key z) (key p)).
  - assert (i <> m) by (intros ->; simplify_eq; lia). destruct (IH (S i) ltac:(lia) ltac:(lia)) as (i' & y & -> & Hi' & Hw & Hy & Hk).
    exists i', y. split; [done|]. split; [lia|]. split; [|done]. intros k v Hk' Hv. destruct (decide (k = i)) as [->|]; [by simplify_eq|]. apply (Hw k); [lia|done].
  - exists i, z. split; [done|]. split; [lia|]. split; [intros k v ?; lia|]. done.
Qed.

Lemma scan_down_spec a pivot p j m x :
  Forall D a -> a !! pivot = Some p -> (m <= j < length a)%nat -> a !! m = Some x -> key x <= key p ->
  exists j' y, scan_down comparator a pivot j = Some j' /\ (m <= j' <= j)%nat /\ within (S j') (S j) (fun v => key p < v) a /\ a !! j' = Some y /\ key y <= key p.
Proof using Hgt.
  intros HD Hp Hj Hm Hx. pose proof (proj1 (Forall_lookup _ _) HD) as HDl. induction j as [|j IH].
  - assert (m = 0)%nat as -> by lia. cbn. rewrite Hm, Hp. cbn. rewrite Hgt by eauto. destruct (Z.ltb_spec (key p) (key x)); [lia|].
    exists 0%nat, x. split; [done|]. split; [lia|]. split; [intros k v ?; lia|]. done.
  - cbn [scan_down]. assert (is_Some (a !! S j)) as [z Hz] by (apply lookup_lt_is_Some; lia). rewrite Hz, Hp. cbn. rewrite Hgt by eauto.
    destruct (Z.ltb_spec (key p) (key z)).
    + assert (m <> S j) by (intros ->; simplify_eq; lia). destruct (IH ltac:(lia)) as (j' & y & -> & Hj' & Hw & Hy & Hk).
      exists j', y. split; [done|]. split; [lia|]. split; [|done]. intros k v Hk' Hv. destruct (decide (k = S j)) as [->|]; [by simplify_eq|]. apply (Hw k); [lia|done].
    + exists (S j), z. split; [done|]. split; [lia|]. split; [intros k v ?; lia|]. done.
Qed.

(** The state of the partition from its second round on: the pivot is the
    item at [s], and the item behind [j] stops the search upwards. *)
Lemma partition_rounds fuel a s e i j p :
  Forall D a -> a !! s = Some p -> (s < i)%nat -> (i <= S j)%nat -> (S j <= e)%nat -> (e < length a)%nat ->
  within s i (fun v => v <= key p) a -> within (S j) (S e) (fun v => key p <= v) a -> (S j - i < fuel)%nat ->
  exists a' i' j', partition comparator fuel a s i j = Some (a', i', j') /\ shuffles s e a a' /\
    (s < i')%nat /\ (j' < i')%nat /\ (j' < e)%nat /\ within s i' (fun v => v <= key p) a' /\ within (S j') (S e) (fun v => key p <= v) a'.
Proof using Hlt Hgt.
  revert a i j. induction fuel as [|fuel IH]; intros a i j HD Hp Hsi Hij Hje Hlen Hlo Hhi Hf; [lia|]. cbn [partition].
  case_bool_decide as Hle; [|exists a, i, j; split; [done|]; split; [apply shuffles_refl|]; split_and!; [lia|lia|lia|done|done]].
  assert (is_Some (a !! S j)) as [z Hz] by (apply lookup_lt_is_Some; lia). pose proof (Hhi (S j) z ltac:(lia) Hz) as Hzp. cbn beta in Hzp.
  destruct (scan_up_spec (S (length a)) a s p i (S j) z HD Hp ltac:(lia) Hz Hzp ltac:(lia)) as (i1 & x & -> & Hi1 & Hup & Hx & Hxp). cbn [mbind option_bind].
  destruct (scan_down_spec a s p j s p HD Hp ltac:(lia) Hp ltac:(lia)) as (j1 & y & -> & Hj1 & Hdown & Hy & Hyp). cbn [mbind option_bind].
  assert (within s i1 (fun v => v <= key p) a) as Hlo1.
  { intros k v Hk Hv. destruct (decide (k < i)%nat); [by apply (Hlo k); [lia|]|]. apply Z.lt_le_incl. apply (Hup k); [lia|done]. }
  assert (within (S j1) (S e) (fun v => key p <= v) a) as Hhi1.
  { intros k v Hk Hv. destruct (decide (j < k)%nat); [by apply (Hhi k); [lia|]|]. apply Z.lt_le_incl. apply (Hdown k); [lia|done]. }
  case_bool_decide as Hlt1.
  - unfold swap. rewrite Hx, Hy. cbn [mbind option_bind]. set (b := <[j1 := x]> (<[i1 := y]> a)).
    assert (shuffles s e a b) as Hsh by (apply swap_shuffles; [lia|lia|done|done]). pose proof (shuffles_length _ _ _ _ Hsh) as Hlb.
    assert (forall k v, b !! k = Some v -> v = x /\ k = j1 \/ v = y /\ k = i1 \/ a !! k = Some v /\ k <> j1 /\ k <> i1) as Hb.
    { intros k v. subst b. destruct (decide (k = j1)) as [->|]; [rewrite list_lookup_insert_eq by (rewrite length_insert; lia); intros [= ->]; by left|].
      rewrite list_lookup_insert_ne by done. destruct (decide (k = i1)) as [->|]; [rewrite list_lookup_insert_eq by lia; intros [= ->]; auto|].
      rewrite list_lookup_insert_ne by done. auto. }
    destruct (IH b (S i1) (pred j1)) as (a' & i' & j' & E & Hsh' & Hrest); [by eapply shuffles_Forall| |lia|lia|lia|lia| | |lia|].
    + subst b. by rewrite !list_lookup_insert_ne by lia.
    + intros k v Hk Hv. destruct (Hb k v Hv) as [[_ ?]|[[-> _]|(Hv' & _ & ?)]]; [lia|done|]. apply (Hlo1 k); [lia|done].
    + intros k v Hk Hv. destruct (Hb k v Hv) as [[-> _]|[[_ ?]|(Hv' & ? & _)]]; [done|lia|]. apply (Hhi1 k); [lia|done].
    + exists a', i', j'. split; [done|]. split; [by eapply shuffles_trans|done].
  - case_bool_decide as Heq.
    + subst j1. simplify_eq. exists a, (S i1), (pred i1). split; [done|]. split; [apply shuffles_refl|]. split_and!; [lia|lia|lia| |].
      * intros k v Hk Hv. destruct (decide (k = i1)) as [->|]; [by simplify_eq|]. apply (Hlo1 k); [lia|done].
      * intros k v Hk Hv. destruct (decide (k = i1)) as [->|]; [by simplify_eq|]. apply (Hhi1 k); [lia|done].
    + destruct fuel as [|fuel']; [lia|]. cbn [partition]. rewrite bool_decide_false by lia.
      exists a, i1, j1. split; [done|]. split; [apply shuffles_refl|]. split_and!; [lia|lia|lia|done|done].
Qed.

(** The first round takes the item at the start for the pivot, and the exchange puts another there. *)
Lemma partition_spec fuel a s e :
  Forall D a -> (s <= e)%nat -> (e < length a)%nat -> (e - s + 2 <= fuel)%nat ->
  exists a' i j p, partition comparator fuel a s s e = Some (a', i, j) /\ shuffles s e a a' /\
    (s < i)%nat /\ (s < j -> j < i /\ j < e)%nat /\ within s i (fun v => v <= p) a' /\ within (S j) (S e) (fun v => p <= v) a' /\ (j < i)%nat.
Proof using Hlt Hgt.
  intros HD Hse Hlen Hf. destruct fuel as [|fuel]; [lia|]. cbn [partition]. rewrite bool_decide_true by done.
  assert (is_Some (a !! s)) as [x Hx] by (apply lookup_lt_is_Some; lia).
  destruct (scan_up_spec (S (length a)) a s x s s x HD Hx ltac:(lia) Hx ltac:(lia) ltac:(lia)) as (i1 & x1 & -> & Hi1 & _). assert (i1 = s) as -> by lia. cbn [mbind option_bind].
  destruct (scan_down_spec a s x e s x HD Hx ltac:(lia) Hx ltac:(lia)) as (j1 & y & -> & Hj1 & Hdown & Hy & Hyp). cbn [mbind option_bind].
  case_bool_decide as Hlt1.
  - unfold swap. rewrite Hx, Hy. cbn [mbind option_bind]. set (b := <[j1 := x]> (<[s := y]> a)).
    assert (shuffles s e a b) as Hsh by (apply swap_shuffles; [lia|lia|done|done]). pose proof (shuffles_length _ _ _ _ Hsh) as Hlb.
    assert (b !! s = Some y) as Hbs by (subst b; rewrite list_lookup_insert_ne, list_lookup_insert_eq by lia; done).
    destruct (partition_rounds fuel b s e (S s) (pred j1) y) as (a' & i & j & E & Hsh' & H1 & H2 & H3 & H4 & H5); [by eapply shuffles_Forall|done|lia|lia|lia|lia| | |lia|].
    + intros k v Hk Hv. assert (k = s) as -> by lia. simplify_eq. lia.
    + intros k v Hk Hv. subst b. destruct (decide (k = j1)) as [->|]; [rewrite list_lookup_insert_eq in Hv by (rewrite length_insert; lia); by simplify_eq|].
      rewrite !list_lookup_insert_ne in Hv by lia. pose proof (Hdown k v ltac:(lia) Hv) as Hv'. cbn beta in Hv'. lia.
    + exists a', i, j, (key y). split; [done|]. split; [by eapply shuffles_trans|]. split_and!; [done|lia|done|done|done].
  - assert (j1 = s) as -> by lia. rewrite bool_decide_true by done. exists a, (S s), (pred s), (key x). split; [done|]. split; [apply shuffles_refl|].
    split_and!; [lia|lia| | |lia].
    + intros k v Hk Hv. assert (k = s) as -> by lia. simplify_eq. lia.
    + intros k v Hk Hv. destruct (decide (k = s)) as [->|]; [simplify_eq; lia|]. destruct (decide (k < s)%nat); [exfalso; lia|].
      apply Z.lt_le_incl. apply (Hdown k); [lia|done].
Qed.

Lemma sorted_range_single s e a : (e <= s)%nat -> sorted_range s e a.
Proof using. intros He k l x y H1 H2 Hx Hy. assert (k = l) as -> by lia. simplify_eq. lia. Qed.

Lemma sorted_range_outside s e s' e' a b : shuffles s e a b -> (e' < s \/ e < s')%nat -> sorted_range s' e' a -> sorted_range s' e' b.
Proof using. intros [_ O _] Hd Ha k l x y H1 H2 Hx Hy. rewrite O in Hx, Hy by lia. by apply (Ha k l). Qed.

(** Two sorted parts around items equal to the pivot. *)
Lemma sorted_range_join s i j e p a :
  (j < i)%nat -> sorted_range s j a -> sorted_range i e a -> within s i (fun v => v <= p) a -> within (S j) (S e) (fun v => p <= v) a -> sorted_range s e a.
Proof using.
  intros Hji Hl Hr Hlo Hhi k l x y H1 H2 Hx Hy. destruct (decide (l <= j)%nat); [by apply (Hl k l); [lia|lia|..]|].
  destruct (decide (i <= k)%nat); [by apply (Hr k l); [lia|lia|..]|]. apply (Z.le_trans _ p); [apply (Hlo k); [lia|done]|apply (Hhi l); [lia|done]].
Qed.

Lemma quicksort2_partial_spec fuel a s e :
  Forall D a -> (s <= e)%nat -> (e < length a)%nat -> (e - s < fuel)%nat ->
  exists a', quicksort2_partial comparator fuel a s e = Some a' /\ shuffles s e a a' /\ sorted_range s e a'.
Proof using Hlt Hgt.
  revert a s e. induction fuel as [|fuel IH]; intros a s e HD Hse Hlen Hf; [lia|]. cbn [quicksort2_partial].
  destruct (partition_spec (S (S (length a))) a s e HD Hse Hlen ltac:(lia)) as (a1 & i & j & p & -> & Sh1 & Hi & Hj & Hlo & Hhi & Hji). cbn [mbind option_bind].
  pose proof (shuffles_length _ _ _ _ Sh1) as L1. pose proof (shuffles_Forall _ _ _ _ _ Sh1 HD) as D1.
  assert (exists a2, (if bool_decide (s < j)%nat then quicksort2_partial comparator fuel a1 s j else Some a1) = Some a2 /\
    shuffles s j a1 a2 /\ sorted_range s j a2) as (a2 & -> & Sh2 & So2).
  { case_bool_decide; [apply IH; (done || lia)|]. exists a1. split; [done|]. split; [apply shuffles_refl|]. apply sorted_range_single. lia. }
  pose proof (shuffles_length _ _ _ _ Sh2) as L2. pose proof (shuffles_Forall _ _ _ _ _ Sh2 D1) as D2. cbn [mbind option_bind].
  assert (exists a3, (if bool_decide (i < e)%nat then quicksort2_partial comparator fuel a2 i e else Some a2) = Some a3 /\
    shuffles i e a2 a3 /\ sorted_range i e a3) as (a3 & -> & Sh3 & So3).
  { case_bool_decide; [apply IH; (done || lia)|]. exists a2. split; [done|]. split; [apply shuffles_refl|]. apply sorted_range_single. lia. }
  exists a3. split; [done|]. split.
  - apply (shuffles_trans _ _ _ a1); [done|]. apply (shuffles_trans _ _ _ a2); [|by apply (shuffles_weaken i e); [lia|lia|]].
    destruct (decide (s < j)%nat); [by apply (shuffles_weaken s j); [lia|lia|]|]. destruct (decide (j < s)%nat); [|by apply (shuffles_weaken s j); [lia|lia|]].
    apply (shuffles_weaken s j); [lia|lia|done].
  - apply (sorted_range_join s i j e p); [done|by apply (sorted_range_outside i e _ _ a2); [|left; lia|]|done| |].
    + apply (within_shuffles i e _ _ _ a2); [done|lia|]. apply (within_shuffles s j _ _ _ a1); [done|lia|done].
    + apply (within_shuffles i e _ _ _ a2); [done|lia|]. apply (within_shuffles s j _ _ _ a1); [done|lia|done].
Qed.

Lemma quicksort2_ok a : Forall D a -> a <> [] -> exists a', quicksort2 comparator a = Some a' /\ a ≡ₚ a' /\ sorted_range 0 (length a) a'.
Proof using Hlt Hgt.
  intros HD Ha. unfold quicksort2. destruct (length a) as [|n] eqn:E; [by destruct a|].
  destruct (quicksort2_partial_spec (S n) a 0 n HD ltac:(lia) ltac:(lia) ltac:(lia)) as (a' & -> & Sh & So). exists a'. split; [done|]. split; [apply Sh|].
  intros k l x y H1 H2 Hx Hy. apply (So k l); [done| |done|done]. apply lookup_lt_Some in Hy. rewrite (shuffles_length _ _ _ _ Sh) in Hy. lia.
Qed.
End Theory.
