(* ===== verification/Deflate.v ===== *)
(** * DEFLATE compression ([cc/lib/deflate.64.c])

    A buffer that is written is the list of its bytes; a buffer that is read is
    the list of the bytes behind its position.  Allocations succeed; arrays are
    lists, and an access outside of one is [None] (or [Halted] in the decoder,
    a command over its input and output). *)

From S2P Require Import Prelude Quicksort.

Definition DEFLATE_MAX_MATCH : Z := 258.
Definition DEFLATE_MIN_MATCH : Z := 3.
Definition DEFLATE_WINDOW_SIZE : Z := 32768.
Definition DEFLATE_HASHTABLE_SIZE : Z := 15.
Definition DEFLATE_HASHTABLE_MUL : Z := 2654435761.
Definition DEFLATE_HASHTABLE_PREV_SIZE : Z := 32765.
Definition DEFLATE_NO_POS : Z := -1.
Definition DEFLATE_MAX_BLOCK_SIZE : Z := 65535.
Definition DEFLATE_MAX_BITS_LIMIT : nat := 16.

Record deflate_match_t := mk_match { best_size : Z; best_pos : Z }.

Record bit_buffer_t := mk_bit_buffer { buffer : list Z; byte : Z; bit_count : Z }.

Record huffman_decode_table_t := mk_decode_table { counts : list Z; symbols : list Z }.

Record huffman_encode_table_t := mk_encode_table { codes : list Z; lengths : list Z }.

Record huffman_encode_freq_t := mk_freqs { literal_freqs : list Z; distance_freqs : list Z; extra_bits_count : Z }.

(** ** Tables *)

Definition huffman_encode_fixed : huffman_encode_table_t := mk_encode_table [
  12; 140; 76; 204; 44; 172; 108; 236; 28; 156; 92; 220; 60; 188; 124; 252; 2; 130; 66; 194; 34;
  162; 98; 226; 18; 146; 82; 210; 50; 178; 114; 242; 10; 138; 74; 202; 42; 170; 106; 234; 26; 154;
  90; 218; 58; 186; 122; 250; 6; 134; 70; 198; 38; 166; 102; 230; 22; 150; 86; 214; 54; 182; 118;
  246; 14; 142; 78; 206; 46; 174; 110; 238; 30; 158; 94; 222; 62; 190; 126; 254; 1; 129; 65; 193;
  33; 161; 97; 225; 17; 145; 81; 209; 49; 177; 113; 241; 9; 137; 73; 201; 41; 169; 105; 233; 25;
  153; 89; 217; 57; 185; 121; 249; 5; 133; 69; 197; 37; 165; 101; 229; 21; 149; 85; 213; 53; 181;
  117; 245; 13; 141; 77; 205; 45; 173; 109; 237; 29; 157; 93; 221; 61; 189; 125; 253; 19; 275; 147;
  403; 83; 339; 211; 467; 51; 307; 179; 435; 115; 371; 243; 499; 11; 267; 139; 395; 75; 331; 203;
  459; 43; 299; 171; 427; 107; 363; 235; 491; 27; 283; 155; 411; 91; 347; 219; 475; 59; 315; 187;
  443; 123; 379; 251; 507; 7; 263; 135; 391; 71; 327; 199; 455; 39; 295; 167; 423; 103; 359; 231;
  487; 23; 279; 151; 407; 87; 343; 215; 471; 55; 311; 183; 439; 119; 375; 247; 503; 15; 271; 143;
  399; 79; 335; 207; 463; 47; 303; 175; 431; 111; 367; 239; 495; 31; 287; 159; 415; 95; 351; 223;
  479; 63; 319; 191; 447; 127; 383; 255; 511; 0; 64; 32; 96; 16; 80; 48; 112; 8; 72; 40; 104; 24;
  88; 56; 120; 4; 68; 36; 100; 20; 84; 52; 116; 3; 131; 67; 195; 35; 163; 99; 163] [
  8; 8; 8; 8; 8; 8; 8; 8; 8; 8; 8; 8; 8; 8; 8; 8; 8; 8; 8; 8; 8; 8; 8; 8; 8; 8; 8; 8; 8; 8; 8; 8;
  8; 8; 8; 8; 8; 8; 8; 8; 8; 8; 8; 8; 8; 8; 8; 8; 8; 8; 8; 8; 8; 8; 8; 8; 8; 8; 8; 8; 8; 8; 8; 8;
  8; 8; 8; 8; 8; 8; 8; 8; 8; 8; 8; 8; 8; 8; 8; 8; 8; 8; 8; 8; 8; 8; 8; 8; 8; 8; 8; 8; 8; 8; 8; 8;
  8; 8; 8; 8; 8; 8; 8; 8; 8; 8; 8; 8; 8; 8; 8; 8; 8; 8; 8; 8; 8; 8; 8; 8; 8; 8; 8; 8; 8; 8; 8; 8;
  8; 8; 8; 8; 8; 8; 8; 8; 8; 8; 8; 8; 8; 8; 8; 8; 9; 9; 9; 9; 9; 9; 9; 9; 9; 9; 9; 9; 9; 9; 9; 9;
  9; 9; 9; 9; 9; 9; 9; 9; 9; 9; 9; 9; 9; 9; 9; 9; 9; 9; 9; 9; 9; 9; 9; 9; 9; 9; 9; 9; 9; 9; 9; 9;
  9; 9; 9; 9; 9; 9; 9; 9; 9; 9; 9; 9; 9; 9; 9; 9; 9; 9; 9; 9; 9; 9; 9; 9; 9; 9; 9; 9; 9; 9; 9; 9;
  9; 9; 9; 9; 9; 9; 9; 9; 9; 9; 9; 9; 9; 9; 9; 9; 9; 9; 9; 9; 9; 9; 9; 9; 9; 9; 9; 9; 9; 9; 9; 9;
  7; 7; 7; 7; 7; 7; 7; 7; 7; 7; 7; 7; 7; 7; 7; 7; 7; 7; 7; 7; 7; 7; 7; 7; 8; 8; 8; 8; 8; 8; 8; 8].

(** The rest of the arrays is zero. *)
Definition huffman_encode_distance_fixed : huffman_encode_table_t := mk_encode_table ([
  0; 16; 8; 24; 4; 20; 12; 28; 2; 18; 10; 26; 6; 22; 14; 30; 1; 17; 9; 25; 5; 21; 13; 29; 3; 19;
  11; 27; 7; 23; 15; 31] ++ replicate 256 0) ([
  5; 5; 5; 5; 5; 5; 5; 5; 5; 5; 5; 5; 5; 5; 5; 5; 5; 5; 5; 5; 5; 5; 5; 5; 5; 5; 5; 5; 5; 5; 5; 5] ++ replicate 256 0).

Definition huffman_decode_fixed_lengths : huffman_decode_table_t := mk_decode_table [
  0; 0; 0; 0; 0; 0; 0; 24; 152; 112; 0; 0; 0; 0; 0; 0] [
  256; 257; 258; 259; 260; 261; 262; 263; 264; 265; 266; 267; 268; 269; 270; 271; 272; 273; 274;
  275; 276; 277; 278; 279; 0; 1; 2; 3; 4; 5; 6; 7; 8; 9; 10; 11; 12; 13; 14; 15; 16; 17; 18; 19;
  20; 21; 22; 23; 24; 25; 26; 27; 28; 29; 30; 31; 32; 33; 34; 35; 36; 37; 38; 39; 40; 41; 42; 43;
  44; 45; 46; 47; 48; 49; 50; 51; 52; 53; 54; 55; 56; 57; 58; 59; 60; 61; 62; 63; 64; 65; 66; 67;
  68; 69; 70; 71; 72; 73; 74; 75; 76; 77; 78; 79; 80; 81; 82; 83; 84; 85; 86; 87; 88; 89; 90; 91;
  92; 93; 94; 95; 96; 97; 98; 99; 100; 101; 102; 103; 104; 105; 106; 107; 108; 109; 110; 111; 112;
  113; 114; 115; 116; 117; 118; 119; 120; 121; 122; 123; 124; 125; 126; 127; 128; 129; 130; 131;
  132; 133; 134; 135; 136; 137; 138; 139; 140; 141; 142; 143; 280; 281; 282; 283; 284; 285; 286;
  287; 144; 145; 146; 147; 148; 149; 150; 151; 152; 153; 154; 155; 156; 157; 158; 159; 160; 161;
  162; 163; 164; 165; 166; 167; 168; 169; 170; 171; 172; 173; 174; 175; 176; 177; 178; 179; 180;
  181; 182; 183; 184; 185; 186; 187; 188; 189; 190; 191; 192; 193; 194; 195; 196; 197; 198; 199;
  200; 201; 202; 203; 204; 205; 206; 207; 208; 209; 210; 211; 212; 213; 214; 215; 216; 217; 218;
  219; 220; 221; 222; 223; 224; 225; 226; 227; 228; 229; 230; 231; 232; 233; 234; 235; 236; 237;
  238; 239; 240; 241; 242; 243; 244; 245; 246; 247; 248; 249; 250; 251; 252; 253; 254; 255].

Definition huffman_decode_fixed_distances : huffman_decode_table_t := mk_decode_table [
  0; 0; 0; 0; 0; 30; 0; 0; 0; 0; 0; 0; 0; 0; 0; 0] ([
  0; 1; 2; 3; 4; 5; 6; 7; 8; 9; 10; 11; 12; 13; 14; 15; 16; 17; 18; 19; 20; 21; 22; 23; 24; 25; 26;
  27; 28; 29] ++ replicate 258 0).

Definition huffman_length_base : list Z := [
  3; 4; 5; 6; 7; 8; 9; 10; 11; 13; 15; 17; 19; 23; 27; 31; 35; 43; 51; 59; 67; 83; 99; 115; 131;
  163; 195; 227; 258].
Definition huffman_length_extra_bits : list Z := [
  0; 0; 0; 0; 0; 0; 0; 0; 1; 1; 1; 1; 2; 2; 2; 2; 3; 3; 3; 3; 4; 4; 4; 4; 5; 5; 5; 5; 0].
Definition huffman_distance_base : list Z := [
  1; 2; 3; 4; 5; 7; 9; 13; 17; 25; 33; 49; 65; 97; 129; 193; 257; 385; 513; 769; 1025; 1537; 2049;
  3073; 4097; 6145; 8193; 12289; 16385; 24577].
Definition huffman_distance_extra_bits : list Z := [
  0; 0; 0; 0; 1; 1; 2; 2; 3; 3; 4; 4; 5; 5; 6; 6; 7; 7; 8; 8; 9; 9; 10; 10; 11; 11; 12; 12; 13; 13].
Definition huffman_code_lengths : list Z := [
  16; 17; 18; 0; 8; 7; 9; 6; 10; 5; 11; 4; 12; 3; 13; 2; 14; 1; 15].

(** [while (base[i] <= x) i++]: the guards of the callers end it inside the table. *)
Fixpoint find_index (base : list Z) (x i : Z) : Z :=
  match base with
  | b :: base => if b <=? x then find_index base x (i + 1) else i
  | [] => i
  end.

Definition huffman_find_length_index (length : Z) : Z :=
  if length <? 3 then -1 else if 258 <? length then -1 else if length =? 258 then 28
  else find_index huffman_length_base length 0 - 1.

Definition huffman_find_distance_index (distance : Z) : Z :=
  if distance <? 1 then -1 else if 32768 <? distance then -1 else if 24577 <=? distance then 29
  else find_index huffman_distance_base distance 0 - 1.

(** ** Streams of bits *)

Fixpoint get_loop (n : nat) (i result : Z) (b : bit_buffer_t) : Z * bit_buffer_t :=
  match n with
  | O => (result, b)
  | S n =>
    let refilled := if bit_count b =? 0 then match buffer b with [] => None | x :: rest => Some (mk_bit_buffer rest x 8) end else Some b in
    match refilled with
    | None => (-1, b)
    | Some b =>
      get_loop n (i + 1) (Z.lor result (Z.shiftl (Z.land (byte b) 1) i)) (mk_bit_buffer (buffer b) (Z.shiftr (byte b) 1) (bit_count b - 1))
    end
  end.

Definition bit_buffer_get (b : bit_buffer_t) (n : Z) : Z * bit_buffer_t := get_loop (Z.to_nat n) 0 0 b.

Fixpoint put_loop (n : nat) (bits : Z) (b : bit_buffer_t) : bit_buffer_t :=
  match n with
  | O => b
  | S n =>
    let b := if bit_count b =? 8 then mk_bit_buffer (buffer b ++ [byte b]) 0 0 else b in
    put_loop n (Z.shiftr bits 1) (mk_bit_buffer (buffer b) (u8 (Z.lor (byte b) (Z.shiftl (Z.land bits 1) (bit_count b)))) (bit_count b + 1))
  end.

Definition bit_buffer_put (b : bit_buffer_t) (n bits : Z) : bit_buffer_t := put_loop (Z.to_nat n) bits b.

Definition bit_buffer_push (b : bit_buffer_t) : bit_buffer_t :=
  if bit_count b =? 0 then b else mk_bit_buffer (buffer b ++ [byte b]) 0 0.

Definition bitbuffer_discard (b : bit_buffer_t) : bit_buffer_t := mk_bit_buffer (buffer b) 0 0.

(** ** The decoder *)

Record inflate_t := mk_inflate { input : bit_buffer_t; output : list Z }.

Abbreviation M := (cmd inflate_t).

Definition get_bits (n : Z) : M Z := fun s =>
  let '(v, b) := bit_buffer_get (input s) n in Done (v, mk_inflate b (output s)).

Definition append_bytes (bytes : list Z) : M unit := fun s => Done (tt, mk_inflate (input s) (output s ++ bytes)).

(** An element of an array. *)
Definition item (l : list Z) (i : Z) : M Z :=
  match (if 0 <=? i then l !! Z.to_nat i else None) with Some x => mret x | None => cpu_hlt end.

(** [buffer_get_byte] of the input: zero at its end. *)
Definition get_byte : M Z := fun s =>
  match buffer (input s) with
  | [] => Done (0, s)
  | x :: rest => Done (x, mk_inflate (mk_bit_buffer rest (byte (input s)) (bit_count (input s))) (output s))
  end.

Definition discard : M unit := fun s => Done (tt, mk_inflate (bitbuffer_discard (input s)) (output s)).

Definition bit_buffer_get_16le : M Z :=
  lo ← get_byte; hi ← get_byte; mret (Z.lor lo (u16 (Z.shiftl hi 8))).

(** [buffer_get_bytes] of the input, at least one byte. *)
Definition take_bytes (n : nat) : M (list Z) := fun s =>
  let rest := buffer (input s) in
  if bool_decide (n <= length rest)%nat
  then Done (take n rest, mk_inflate (mk_bit_buffer (drop n rest) (byte (input s)) (bit_count (input s))) (output s))
  else Halted.

Definition deflate_inflate_uncompressed_block : M Z :=
  discard ;;
  len ← bit_buffer_get_16le;
  nlen ← bit_buffer_get_16le;
  if negb (len =? Z.land (Z.lnot nlen) 0xFFFF) then mret (-1) else
  data ← (if len =? 0 then mret [] else take_bytes (Z.to_nat len));
  append_bytes data ;;
  mret 0.

(** The loop of [huffman_decode] over [counts] from its second element. *)
Fixpoint decode_loop (cs : list Z) (count cur : Z) : M (option (Z * Z)) :=
  match cs with
  | [] => cpu_hlt
  | c :: cs =>
    bit ← get_bits 1;
    if bit <? 0 then mret None else
    let cur := Z.lor (Z.shiftl cur 1) bit in
    let count := count + c in
    let cur := cur - c in
    if 0 <=? cur then decode_loop cs count cur else mret (Some (count, cur))
  end.

Definition huffman_decode (table : huffman_decode_table_t) (max_symbol : Z) : M Z :=
  r ← decode_loop (tail (counts table)) 0 0;
  match r with
  | None => mret (-1)
  | Some (count, cur) =>
    if (count + cur <? 0) || (max_symbol <? count + cur) then mret (-1) else item (symbols table) (count + cur)
  end.

(** [buffer_peek_byte_at_position] of the output. *)
Definition peek_output (pos : Z) : M Z := fun s =>
  if Z.of_nat (length (output s)) <? u64 (pos + 1) then Done (0, s) else item (output s) pos s.

Fixpoint copy_loop (n : nat) (pos : Z) : M unit :=
  match n with
  | O => mret tt
  | S n => x ← peek_output pos; append_bytes [x] ;; copy_loop n (u64 (pos + 1))
  end.

Definition output_position : M Z := fun s => Done (Z.of_nat (length (output s)), s).

Fixpoint deflate_inflate_block (fuel : nat) (lengths distances : huffman_decode_table_t) : M Z :=
  match fuel with
  | O => out_of_fuel
  | S fuel =>
    symbol ← huffman_decode lengths 288;
    if symbol <? 0 then mret (-1) else
    if symbol <? 256 then append_bytes [symbol] ;; deflate_inflate_block fuel lengths distances else
    if symbol =? 256 then mret 0 else
    let symbol := symbol - 257 in
    extra ← item huffman_length_extra_bits symbol;
    base ← item huffman_length_base symbol;
    bits ← get_bits extra;
    let length := bits + base in
    if length <? 0 then mret (-1) else
    distance_symbol ← huffman_decode distances 30;
    if distance_symbol <? 0 then mret (-1) else
    extra ← item huffman_distance_extra_bits distance_symbol;
    base ← item huffman_distance_base distance_symbol;
    bits ← get_bits extra;
    let distance := bits + base in
    if distance <? 0 then mret (-1) else
    pos ← output_position;
    copy_loop (Z.to_nat length) (u64 (pos - distance)) ;;
    deflate_inflate_block fuel lengths distances
  end.

(** [counts[lengths[i]]++] for each symbol; [None] when a length is too long. *)
Fixpoint count_lengths (lens : list Z) (max_length : Z) (counts : list Z) : option (list Z) :=
  match lens with
  | [] => Some counts
  | l :: lens => if max_length <? l then None else count_lengths lens max_length (alter (fun c => u16 (c + 1)) (Z.to_nat l) counts)
  end.

(** The running sums of the counts. *)
Fixpoint offsets_of (counts : list Z) (count : Z) : list Z :=
  match counts with [] => [] | c :: counts => u16 count :: offsets_of counts (count + c) end.

Fixpoint place_symbols (lens : list Z) (i : Z) (offsets symbols : list Z) : list Z :=
  match lens with
  | [] => symbols
  | l :: lens =>
    if l =? 0 then place_symbols lens (i + 1) offsets symbols else
    let o := offsets !!! Z.to_nat l in
    place_symbols lens (i + 1) (<[Z.to_nat l := u16 (o + 1)]> offsets) (<[Z.to_nat o := i]> symbols)
  end.

(** The fields of [out] when it is built, all zero before. *)
Definition huffman_decode_table_build (lens : list Z) (max_length : Z) : option huffman_decode_table_t :=
  match count_lengths lens max_length (replicate 16 0) with
  | None => None
  | Some counts =>
    let counts := <[0%nat := 0]> counts in
    Some (mk_decode_table counts (place_symbols lens 0 (offsets_of counts 0) (replicate 288 0)))
  end.

(** [lengths[huffman_code_lengths[i]] = bit] *)
Fixpoint read_code_lengths (order : list Z) (lens : list Z) : M (option (list Z)) :=
  match order with
  | [] => mret (Some lens)
  | o :: order =>
    bit ← get_bits 3;
    if bit <? 0 then mret None else read_code_lengths order (<[Z.to_nat o := bit]> lens)
  end.

(** [do { lengths[count++] = rep; } while (length)] *)
Fixpoint repeat_length (n : nat) (rep : Z) (lens : list Z) (count : nat) : option (list Z * nat) :=
  match n with
  | O => Some (lens, count)
  | S n => if bool_decide (count < length lens)%nat then repeat_length n rep (<[count := rep]> lens) (S count) else None
  end.

(** The loop that fills [lengths]: each round writes at least one of them. *)
Fixpoint lengths_loop (fuel : nat) (codes : huffman_decode_table_t) (total count : nat) (lens : list Z) : M (option (list Z)) :=
  match fuel with
  | O => out_of_fuel
  | S fuel =>
    if bool_decide (total <= count)%nat then mret (Some lens) else
    symbol ← huffman_decode codes 19;
    let store n rep := match repeat_length n rep lens count with Some (lens, count) => lengths_loop fuel codes total count lens | None => cpu_hlt end in
    if bool_decide (count = 0)%nat && (symbol =? 16) then mret None else
    if symbol <? 0 then mret None else
    if symbol <? 16 then store 1%nat symbol else
    if symbol <? 19 then
      bit ← get_bits (if symbol =? 16 then 2 else if symbol =? 17 then 3 else 7);
      if bit <? 0 then mret None else
      rep ← (if symbol =? 16 then item lens (Z.of_nat count - 1) else mret 0);
      store (Z.to_nat (bit + (if symbol =? 18 then 11 else 3))) rep
    else mret None
  end.

(** The two tables of a dynamic block, or an error. *)
Definition huffman_decode_table_decode : M (option (huffman_decode_table_t * huffman_decode_table_t)) :=
  bit ← get_bits 5;
  if bit <? 0 then mret None else
  let literals := 257 + bit in
  bit ← get_bits 5;
  if bit <? 0 then mret None else
  let distances := 1 + bit in
  bit ← get_bits 4;
  if bit <? 0 then mret None else
  let clengths := 4 + bit in
  lens ← read_code_lengths (take (Z.to_nat clengths) huffman_code_lengths) (replicate 320 0);
  match lens with
  | None => mret None
  | Some lens =>
    match huffman_decode_table_build (take 19 lens) 7 with
    | None => mret None
    | Some codes =>
      let total := Z.to_nat (literals + distances) in
      lens ← lengths_loop (S total) codes total 0 lens;
      match lens with
      | None => mret None
      | Some lens =>
        match huffman_decode_table_build (take (Z.to_nat literals) lens) 15,
              huffman_decode_table_build (take (Z.to_nat distances) (drop (Z.to_nat literals) lens)) 15 with
        | Some l, Some d => mret (Some (l, d))
        | _, _ => mret None
        end
      end
    end
  end.

(** Every round of the loops below reads at least one bit. *)
Definition input_fuel (b : bit_buffer_t) : nat := S (8 * length (buffer b) + Z.to_nat (bit_count b)).

Fixpoint inflate_loop (fuel bits : nat) : M Z :=
  match fuel with
  | O => out_of_fuel
  | S fuel =>
    bit ← get_bits 1;
    if bit =? -1 then mret (-1) else
    let last := bit =? 1 in
    type ← get_bits 2;
    if type =? -1 then mret (-1) else
    ret ← (if type =? 0 then deflate_inflate_uncompressed_block
           else if type =? 1 then deflate_inflate_block bits huffman_decode_fixed_lengths huffman_decode_fixed_distances
           else if type =? 2 then
             tables ← huffman_decode_table_decode;
             match tables with None => mret (-1) | Some (lengths, distances) => deflate_inflate_block bits lengths distances end
           else mret (-1));
    if negb (ret =? 0) then mret ret else
    if last : bool then mret 0 else inflate_loop fuel bits
  end.

Definition deflate_inflate (input out : list Z) : outcome (Z * list Z) :=
  let b := mk_bit_buffer input 0 0 in
  match inflate_loop (input_fuel b) (input_fuel b) (mk_inflate b out) with
  | Done (ret, s) => Done (ret, output s)
  | Halted => Halted
  | OutOfFuel => OutOfFuel
  end.
