(* ===== verification/DeflateEncode.v ===== *)
(** * DEFLATE compression: the encoder ([cc/lib/deflate.64.c]) *)

From S2P Require Import Prelude Quicksort Deflate.

Definition i16 (z : Z) : Z := let r := z mod 2 ^ 16 in if r <? 2 ^ 15 then r else r - 2 ^ 16.

(** ** Matches *)

(** [deflate_hashtable_t] is one array: [prev] and behind it [head].  The
    index of a write to [prev] may lie in [head]. *)
Definition hashtable := gmap Z Z.

Definition cell (ht : hashtable) (i : Z) : Z :=
  default (if i <? DEFLATE_HASHTABLE_PREV_SIZE then 0 else DEFLATE_NO_POS) (ht !! i).

Definition head_index (h : Z) : Z := DEFLATE_HASHTABLE_PREV_SIZE + h.

Definition deflate_hash4 (data : Z) : Z := Z.shiftr (u32 (data * DEFLATE_HASHTABLE_MUL)) (32 - DEFLATE_HASHTABLE_SIZE).

Definition deflate_hash_insert (pos h : Z) (ht : hashtable) : hashtable :=
  <[head_index h := pos]> (<[pos mod DEFLATE_WINDOW_SIZE := cell ht (head_index h)]> ht).

(** [buffer_peek_byte_at_position] and [buffer_peek_ints] of three bytes. *)
Definition peek (block : list Z) (p : Z) : Z := default 0 (block !! Z.to_nat p).

Definition peek_ints3 (block : list Z) (p : Z) : Z :=
  if Z.of_nat (length block) <? p + 3 then 0 else peek block p + 256 * (peek block (p + 1) + 256 * peek block (p + 2)).

(** [j] is counted up while the bytes at [i + j] and [p + j] are equal. *)
Fixpoint match_loop (fuel : nat) (block : list Z) (i p j limit : Z) : Z :=
  match fuel with
  | O => j
  | S fuel =>
    if j <? limit then
      if peek block (i + j) =? peek block (p + j) then match_loop fuel block i p (j + 1) limit else j
    else j
  end.

Definition match_to (block : list Z) (i p j limit : Z) : Z := match_loop (Z.to_nat (limit - j)) block i p j limit.

(** The loop along the chain of positions with the same hash. *)
Fixpoint bestmatch_loop (fuel : nat) (block : list Z) (ht : hashtable) (in_p max_match start best_size best_pos i max_match_step : Z) : deflate_match_t :=
  match fuel with
  | O => mk_match best_size best_pos
  | S fuel =>
    if (i =? DEFLATE_NO_POS) || (max_match_step <=? 0) || (i <? start) then mk_match best_size best_pos else
    let max_match_step := (if 32 <=? best_size then Z.shiftr max_match_step 2 else max_match_step) - 1 in
    let limit := Z.min best_size max_match in
    let j := match_to block i in_p 0 limit in
    let prev_i := cell ht (i mod DEFLATE_HASHTABLE_PREV_SIZE) in
    if j <? limit then bestmatch_loop fuel block ht in_p max_match start best_size best_pos prev_i max_match_step else
    let j := match_to block i in_p j max_match in
    let better := (DEFLATE_MIN_MATCH <=? j) && (best_size <? j) in
    let best_size := if better then j else best_size in
    let best_pos := if better then i else best_pos in
    if (j =? max_match) || (prev_i =? i) then mk_match best_size best_pos
    else bestmatch_loop fuel block ht in_p max_match start best_size best_pos prev_i max_match_step
  end.

Definition deflate_find_bestmatch (block : list Z) (in_len in_p : Z) (ht : hashtable) : deflate_match_t * hashtable :=
  let max_match := Z.min (in_len - in_p) DEFLATE_MAX_MATCH in
  let start := Z.max 0 (in_p - DEFLATE_WINDOW_SIZE) in
  let hash := deflate_hash4 (peek_ints3 block in_p) in
  (bestmatch_loop 4096 block ht in_p max_match start 0 (-1) (cell ht (head_index hash)) 4096, deflate_hash_insert in_p hash ht).

Definition incr (l : list Z) (i : Z) : list Z := alter (fun c => u64 (c + 1)) (Z.to_nat i) l.

(** The words of the block; [None] when a length or a distance has no code. *)
Fixpoint lz77_loop (fuel : nat) (block : list Z) (in_p : Z) (ht : hashtable) (freqs : huffman_encode_freq_t) : option (list Z * huffman_encode_freq_t) :=
  let in_len := Z.of_nat (length block) in
  match fuel with
  | O => None
  | S fuel =>
    if in_len <=? in_p then Some ([], freqs) else
    let '(dpm, ht) := deflate_find_bestmatch block in_len in_p ht in
    if negb (best_pos dpm =? DEFLATE_NO_POS) && (DEFLATE_MIN_MATCH <=? best_size dpm) then
      let distance := in_p - best_pos dpm in
      let length_idx := huffman_find_length_index (u16 (best_size dpm)) in
      let dist_idx := huffman_find_distance_index (u16 distance) in
      if (length_idx =? -1) || (dist_idx =? -1) then None else
      let freqs := mk_freqs (incr (literal_freqs freqs) (257 + length_idx)) (incr (distance_freqs freqs) dist_idx)
        (u64 (extra_bits_count freqs + (huffman_length_extra_bits !!! Z.to_nat length_idx + huffman_distance_extra_bits !!! Z.to_nat dist_idx))) in
      '(out, freqs) ← lz77_loop fuel block (in_p + best_size dpm) ht freqs;
      Some (0xFFFF :: u16 (best_size dpm) :: u16 distance :: out, freqs)
    else
      let symbol := peek block in_p in
      '(out, freqs) ← lz77_loop fuel block (in_p + 1) ht (mk_freqs (incr (literal_freqs freqs) symbol) (distance_freqs freqs) (extra_bits_count freqs));
      Some (symbol :: out, freqs)
  end.

Definition deflate_deflate_lz77 (block : list Z) : option (list Z * huffman_encode_freq_t) :=
  '(out, freqs) ← lz77_loop (S (length block)) block 0 ∅ (mk_freqs (replicate 288 0) (replicate 30 0) 0);
  Some (out, mk_freqs (<[256%nat := 1]> (literal_freqs freqs)) (distance_freqs freqs) (extra_bits_count freqs)).

(** ** Blocks *)

Definition le16 (x : Z) : list Z := [x mod 256; (x / 256) mod 256].

Definition deflate_deflate_no_compress (block : list Z) (b : bit_buffer_t) (is_last_block : bool) : Z * bit_buffer_t :=
  let in_len := Z.of_nat (length block) in
  if DEFLATE_MAX_BLOCK_SIZE <? in_len then (-1, b) else
  let b := bit_buffer_put b 1 (if is_last_block then 1 else 0) in
  let b := bit_buffer_put b 2 0 in
  let b := bit_buffer_push b in
  (0, mk_bit_buffer (buffer b ++ le16 in_len ++ le16 (Z.land (Z.lnot in_len) 0xFFFF) ++ block) (byte b) (bit_count b)).

(** The sum of the products of two arrays. *)
Fixpoint weighted (freqs lens : list Z) : Z :=
  match freqs, lens with f :: freqs, l :: lens => f * l + weighted freqs lens | _, _ => 0 end.

Definition deflate_deflate_calculate_out_size (freqs : huffman_encode_freq_t) (symbols distances : huffman_encode_table_t) : Z :=
  u64 (weighted (literal_freqs freqs) (lengths symbols) + weighted (distance_freqs freqs) (lengths distances) + extra_bits_count freqs).

(** The code of a symbol is written. *)
Definition put_symbol (table : huffman_encode_table_t) (b : bit_buffer_t) (symbol : Z) : option bit_buffer_t :=
  len ← lengths table !! Z.to_nat symbol; code ← codes table !! Z.to_nat symbol; Some (bit_buffer_put b len code).

Fixpoint deflate_words (words : list Z) (b : bit_buffer_t) (symbols distances : huffman_encode_table_t) : option (Z * bit_buffer_t) :=
  match words with
  | [] => Some (0, b)
  | w :: words =>
    if w =? 0xFFFF then
      match words with
      | length :: distance :: words =>
        let length_idx := huffman_find_length_index length in
        if (length_idx =? -1) || (28 <? length_idx) then Some (-1, b) else
        length_base ← huffman_length_base !! Z.to_nat length_idx;
        length_extra_bits ← huffman_length_extra_bits !! Z.to_nat length_idx;
        b ← put_symbol symbols b (257 + length_idx);
        let b := bit_buffer_put b length_extra_bits (u16 (length - length_base)) in
        let distance_idx := huffman_find_distance_index distance in
        if (distance_idx =? -1) || (29 <? distance_idx) then Some (-1, b) else
        distance_base ← huffman_distance_base !! Z.to_nat distance_idx;
        distance_extra_bits ← huffman_distance_extra_bits !! Z.to_nat distance_idx;
        b ← put_symbol distances b distance_idx;
        let b := bit_buffer_put b distance_extra_bits (u16 (distance - distance_base)) in
        deflate_words words b symbols distances
      | _ => None
      end
    else b ← put_symbol symbols b w; deflate_words words b symbols distances
  end.

Definition deflate_deflate_block (words : list Z) (b : bit_buffer_t) (symbols distances : huffman_encode_table_t) : option (Z * bit_buffer_t) :=
  '(ret, b) ← deflate_words words b symbols distances;
  if negb (ret =? 0) then Some (ret, b) else b ← put_symbol symbols b 256; Some (0, b).

(** ** Huffman codes *)

Record huffman_symbol_freq_t := mk_symbol_freq { symbol : Z; freq : Z }.

Record huffman_bit_level_info_t := mk_level { level : Z; last_freq : Z; next_char_freq : Z; next_pair_freq : Z; needed : Z }.

Definition three_way (x y : Z) (otherwise : Z) : Z := if x <? y then -1 else if y <? x then 1 else otherwise.

Definition huffman_sort_by_symbol (a b : huffman_symbol_freq_t) : Z := three_way (symbol a) (symbol b) 0.
Definition huffman_sort_by_freq (a b : huffman_symbol_freq_t) : Z := three_way (freq a) (freq b) (three_way (symbol a) (symbol b) 0).

Definition reverse_bits (bits : Z) (bit_count : nat) : Z :=
  (fix go n bits result := match n with O => result | S n => go n (Z.shiftr bits 1) (i16 (Z.lor (i16 (Z.shiftl result 1)) (Z.land bits 1))) end) bit_count bits 0.

Definition MAX_FREQ : Z := 0xFFFFFFFF.

(** An assignment to an array. *)
Definition put {A} (l : list A) (i : nat) (x : A) : option (list A) := if bool_decide (i < length l)%nat then Some (<[i := x]> l) else None.

Definition HUFFMAN_LEAF_COUNT (x y : nat) : nat := x * DEFLATE_MAX_BITS_LIMIT + y.

(** [for(i = 0; i < level; i++) LEAF_COUNT(level, i) = LEAF_COUNT(level - 1, i)] *)
Fixpoint copy_row (n : nat) (level : nat) (leaf_counts : list Z) : option (list Z) :=
  match n with
  | O => Some leaf_counts
  | S n =>
    leaf_counts ← copy_row n level leaf_counts;
    x ← leaf_counts !! HUFFMAN_LEAF_COUNT (pred level) n;
    put leaf_counts (HUFFMAN_LEAF_COUNT level n) x
  end.

(** [while(bit_level_infos[level - 1].needed > 0) level--] *)
Fixpoint descend (infos : list huffman_bit_level_info_t) (level : nat) : option nat :=
  match level with
  | O => None
  | S l => bli ← infos !! l; if 0 <? needed bli then descend infos l else Some level
  end.

Definition set_needed (n : Z) (x : huffman_bit_level_info_t) := mk_level (level x) (last_freq x) (next_char_freq x) (next_pair_freq x) n.
Definition set_next_pair (f : Z) (x : huffman_bit_level_info_t) := mk_level (level x) (last_freq x) (next_char_freq x) f (needed x).

Definition update {A} (l : list A) (i : nat) (f : A -> A) : option (list A) := x ← l !! i; Some (<[i := f x]> l).

(** The loop over the levels. *)
Fixpoint levels_loop (fuel : nat) (symbol_freqs : list huffman_symbol_freq_t) (max_bits : nat)
    (infos : list huffman_bit_level_info_t) (leaf_counts : list Z) (lvl : nat) : option (list Z) :=
  match fuel with
  | O => None
  | S fuel =>
    bli ← infos !! lvl;
    if (next_pair_freq bli =? MAX_FREQ) && (next_char_freq bli =? MAX_FREQ) then
      infos ← update infos lvl (set_needed 0);
      infos ← update infos (S lvl) (set_next_pair MAX_FREQ);
      levels_loop fuel symbol_freqs max_bits infos leaf_counts (S lvl)
    else
    let prev_freq := last_freq bli in
    '(bli, leaf_counts, infos) ←
      (if next_char_freq bli <? next_pair_freq bli then
         n ← leaf_counts !! HUFFMAN_LEAF_COUNT lvl lvl;
         let n := n + 1 in
         leaf_counts ← put leaf_counts (HUFFMAN_LEAF_COUNT lvl lvl) n;
         x ← symbol_freqs !! Z.to_nat n;
         Some (mk_level (level bli) (next_char_freq bli) (freq x) (next_pair_freq bli) (needed bli), leaf_counts, infos)
       else
         leaf_counts ← copy_row lvl lvl leaf_counts;
         infos ← update infos (pred lvl) (set_needed 2);
         Some (mk_level (level bli) (next_pair_freq bli) (next_char_freq bli) (next_pair_freq bli) (needed bli), leaf_counts, infos));
    let bli := set_needed (needed bli - 1) bli in
    infos ← put infos lvl bli;
    if needed bli =? 0 then
      if bool_decide (lvl = max_bits) then Some leaf_counts else
      infos ← update infos (S lvl) (set_next_pair (u32 (prev_freq + last_freq bli)));
      levels_loop fuel symbol_freqs max_bits infos leaf_counts (S lvl)
    else
      lvl ← descend infos lvl;
      levels_loop fuel symbol_freqs max_bits infos leaf_counts lvl
  end.

Definition zero_level : huffman_bit_level_info_t := mk_level 0 0 0 0 0.

(** The infos and the leaf counts before the loop. *)
Definition init_infos (symbol_freqs : list huffman_symbol_freq_t) (count : Z) (max_bits : nat) : option (list huffman_bit_level_info_t) :=
  s0 ← symbol_freqs !! 0%nat; s1 ← symbol_freqs !! 1%nat; s2 ← symbol_freqs !! 2%nat;
  let info i := mk_level (Z.of_nat i) (freq s1) (freq s2) (u32 (freq s0 + freq s1)) 0 in
  let infos := zero_level :: map info (seq 1 max_bits) ++ replicate (15 - max_bits) zero_level in
  infos ← update infos 1%nat (set_next_pair MAX_FREQ);
  update infos max_bits (set_needed (2 * count - 4)).

Definition init_leaf_counts (max_bits : nat) : list Z :=
  fold_left (fun l i => <[HUFFMAN_LEAF_COUNT i i := 2]> l) (seq 1 max_bits) (replicate 256 0).

(** [bit_counts]: bytes, by length from one. *)
Fixpoint bit_counts_of (leaf_counts : list Z) (max_bits level : nat) : list Z :=
  match level with
  | O => []
  | S l => u8 (leaf_counts !!! HUFFMAN_LEAF_COUNT max_bits level - leaf_counts !!! HUFFMAN_LEAF_COUNT max_bits l) :: bit_counts_of leaf_counts max_bits l
  end.

Fixpoint assign_codes (items : list huffman_symbol_freq_t) (code : Z) (len : nat) (table : huffman_encode_table_t) : Z * huffman_encode_table_t :=
  match items with
  | [] => (code, table)
  | x :: items =>
    let i := Z.to_nat (symbol x) in
    assign_codes items (u16 (code + 1)) len (mk_encode_table (<[i := u16 (reverse_bits code len)]> (codes table)) (<[i := Z.of_nat len]> (lengths table)))
  end.

(** The codes of the lengths from [len] on; [count] symbols are left. *)
Fixpoint assign_lengths (bit_counts : list Z) (len : nat) (code count : Z) (symbol_freqs : list huffman_symbol_freq_t) (table : huffman_encode_table_t)
    : option huffman_encode_table_t :=
  match bit_counts with
  | [] => Some table
  | c :: bit_counts =>
    let code := u16 (Z.shiftl code 1) in
    if c =? 0 then assign_lengths bit_counts (S len) code count symbol_freqs table else
    if count <? c then None else
    let start := Z.to_nat (count - c) in
    symbol_freqs ← quicksort2_partial huffman_sort_by_symbol (length symbol_freqs) symbol_freqs start (Z.to_nat (count - 1));
    let '(code, table) := assign_codes (take (Z.to_nat c) (drop start symbol_freqs)) code len table in
    assign_lengths bit_counts (S len) code (count - c) symbol_freqs table
  end.

Definition huffman_encode_build_table_internal (symbol_freqs : list huffman_symbol_freq_t) (max_bits : Z) (table : huffman_encode_table_t)
    : option (bool * huffman_encode_table_t) :=
  let count := Z.of_nat (length symbol_freqs) in
  let max_bits := Z.to_nat (Z.min max_bits (count - 1)) in
  let symbol_freqs := symbol_freqs ++ [mk_symbol_freq 0xFFFF MAX_FREQ] in
  infos ← init_infos symbol_freqs count max_bits;
  leaf_counts ← levels_loop (64 * length symbol_freqs) symbol_freqs max_bits infos (init_leaf_counts max_bits) max_bits;
  if negb (leaf_counts !!! HUFFMAN_LEAF_COUNT max_bits max_bits =? count) then Some (false, table) else
  table ← assign_lengths (bit_counts_of leaf_counts max_bits max_bits) 1 0 count symbol_freqs table;
  Some (true, table).

(** The symbols in use, from symbol [i] on. *)
Fixpoint used_symbols (freqs : list Z) (i : Z) : list huffman_symbol_freq_t :=
  match freqs with
  | [] => []
  | f :: freqs => let f := u32 f in (if 0 <? f then [mk_symbol_freq i f] else []) ++ used_symbols freqs (i + 1)
  end.

Definition empty_table : huffman_encode_table_t := mk_encode_table (replicate 288 0) (replicate 288 0).

(** The table and the last symbol in use, of a fresh table. *)
Definition huffman_encode_build_table (freqs : list Z) (max_bits : Z) : option (bool * huffman_encode_table_t * Z) :=
  let symbol_freqs := used_symbols freqs 0 in
  let max_used := match last symbol_freqs with Some x => symbol x | None => 0 end in
  if bool_decide (length symbol_freqs <= 2)%nat then
    let table := imap (fun i x => (i, symbol x)) symbol_freqs in
    let table := fold_left (fun t ix => mk_encode_table (<[Z.to_nat ix.2 := Z.of_nat ix.1]> (codes t)) (<[Z.to_nat ix.2 := 1]> (lengths t))) table empty_table in
    Some (true, table, max_used)
  else
    symbol_freqs ← quicksort2 huffman_sort_by_freq symbol_freqs;
    '(res, table) ← huffman_encode_build_table_internal symbol_freqs max_bits empty_table;
    Some (res, table, max_used).

(** ** The header of a dynamic block *)

(** The lengths are compressed in their own array: [out_idx] follows [in_idx]. *)
Record rle_t := mk_rle { code_lengths : list Z; out_idx : nat; code_freqs : list Z }.

Definition emit (x : Z) (r : rle_t) : option rle_t :=
  l ← put (code_lengths r) (out_idx r) x; Some (mk_rle l (S (out_idx r)) (code_freqs r)).

Definition count_code (x : Z) (r : rle_t) : rle_t := mk_rle (code_lengths r) (out_idx r) (incr (code_freqs r) x).

(** [while(count >= low)]: a code and the number of repetitions, at most [high]. *)
Fixpoint emit_repeats (fuel : nat) (code low high count : Z) (r : rle_t) : option (Z * rle_t) :=
  match fuel with
  | O => None
  | S fuel =>
    if count <? low then Some (count, r) else
    let n := Z.min high count in
    r ← emit code r; r ← emit (n - low) r;
    emit_repeats fuel code low high (count - n) (count_code code r)
  end.

Fixpoint emit_plain (n : nat) (size : Z) (r : rle_t) : option rle_t :=
  match n with
  | O => Some r
  | S n => r ← emit size r; emit_plain n size (count_code size r)
  end.

(** A run of [count] lengths [size]. *)
Definition emit_run (size count : Z) (r : rle_t) : option rle_t :=
  let fuel := S (Z.to_nat count) in
  '(count, r) ←
    (if negb (size =? 0) then
       r ← emit size r; emit_repeats fuel 16 3 6 (count - 1) (count_code size r)
     else
       '(count, r) ← emit_repeats fuel 18 11 138 count r;
       if 3 <=? count then r ← emit 17 r; r ← emit (count - 3) r; Some (0, count_code 17 r) else Some (count, r));
  emit_plain (Z.to_nat count) size r.

Fixpoint rle_loop (fuel : nat) (in_idx : nat) (size count : Z) (r : rle_t) : option rle_t :=
  if size =? 255 then Some r else
  match fuel with
  | O => None
  | S fuel =>
    next_size ← code_lengths r !! in_idx;
    if next_size =? size then rle_loop fuel (S in_idx) size (count + 1) r else
    r ← emit_run size count r;
    rle_loop fuel (S in_idx) next_size 1 r
  end.

(** The codes are written; a code from 16 on is followed by its repetitions. *)
Fixpoint put_lengths (l : list Z) (table : huffman_encode_table_t) (b : bit_buffer_t) (bits : Z) : option (bit_buffer_t * Z) :=
  match l with
  | [] => None
  | c :: l =>
    if c =? 255 then Some (b, bits) else
    len ← lengths table !! Z.to_nat c;
    b ← put_symbol table b c;
    let extra := if c =? 16 then 2 else if c =? 17 then 3 else if c =? 18 then 7 else 0 in
    if extra =? 0 then put_lengths l table b (bits + len) else
    match l with
    | x :: l => put_lengths l table (bit_buffer_put b extra x) (bits + len + extra)
    | [] => None
    end
  end.

Definition put_header (max_used_symbol max_used_distance : Z) (table : huffman_encode_table_t) (l : list Z) : option (bit_buffer_t * Z) :=
  let header := mk_bit_buffer [] 0 0 in
  let header := bit_buffer_put header 5 (u64 (max_used_symbol + 1 - 257)) in
  let header := bit_buffer_put header 5 max_used_distance in
  let header := bit_buffer_put header 4 (18 + 1 - 4) in
  let header := fold_left (fun h o => bit_buffer_put h 3 (lengths table !!! Z.to_nat o)) huffman_code_lengths header in
  '(header, bits) ← put_lengths l table header (14 + 3 * 19);
  Some (bit_buffer_push header, bits).

(** The tables and the header with its number of bits; [Some None] is a failure. *)
Definition huffman_encode_build_tables_and_code (freqs : huffman_encode_freq_t)
    : option (option (huffman_encode_table_t * huffman_encode_table_t * bit_buffer_t * Z)) :=
  '(ok, syms, max_used_symbol) ← huffman_encode_build_table (literal_freqs freqs) 15;
  if negb ok then Some None else
  '(ok, dists, max_used_distance) ← huffman_encode_build_table (distance_freqs freqs) 15;
  if negb ok then Some None else
  let l := take (S (Z.to_nat max_used_symbol)) (lengths syms) ++ take (S (Z.to_nat max_used_distance)) (lengths dists) ++ [255] in
  size ← l !! 0%nat;
  r ← rle_loop (length l) 1 size 1 (mk_rle l 0 (replicate 288 0));
  l ← put (code_lengths r) (out_idx r) 255;
  '(ok, table, _) ← huffman_encode_build_table (code_freqs r) 7;
  if negb ok then Some None else
  '(header, bits) ← put_header max_used_symbol max_used_distance table l;
  Some (Some (syms, dists, header, bits)).

(** ** The stream *)

(** [for(i = 0; i < dyn_header_len; i++)]: the bits of the header are copied. *)
Fixpoint copy_bits (n : nat) (from b : bit_buffer_t) : bit_buffer_t :=
  match n with
  | O => b
  | S n => let '(bit, from) := bit_buffer_get from 1 in copy_bits n from (bit_buffer_put b 1 bit)
  end.

Definition deflate_one (block : list Z) (is_last_block : bool) (b : bit_buffer_t) : option (Z * bit_buffer_t) :=
  match deflate_deflate_lz77 block with
  | None => Some (-1, b)
  | Some (words, freqs) =>
    tables ← huffman_encode_build_tables_and_code freqs;
    match tables with
    | None => Some (-1, b)
    | Some (dyn_symbols, dyn_distances, dyn_header, dyn_header_len) =>
      let nocompress_len := (if bit_count b <=? 5 then 8 - bit_count b else 16 - bit_count b) + (16 + 16 + Z.of_nat (length block) * 8) in
      let fixedcompress_len := deflate_deflate_calculate_out_size freqs huffman_encode_fixed huffman_encode_distance_fixed in
      let dyncompress_len := u64 (deflate_deflate_calculate_out_size freqs dyn_symbols dyn_distances + dyn_header_len) in
      let last := if is_last_block then 1 else 0 in
      '(ret, b) ←
        (if nocompress_len <? fixedcompress_len then Some (deflate_deflate_no_compress block b is_last_block)
         else if fixedcompress_len <? dyncompress_len then
           deflate_deflate_block words (bit_buffer_put (bit_buffer_put b 1 last) 2 1) huffman_encode_fixed huffman_encode_distance_fixed
         else
           let b := copy_bits (Z.to_nat dyn_header_len) dyn_header (bit_buffer_put (bit_buffer_put b 1 last) 2 2) in
           deflate_deflate_block words b dyn_symbols dyn_distances);
      Some (ret, if is_last_block then bit_buffer_push b else b)
    end
  end.

Fixpoint deflate_loop (fuel : nat) (input : list Z) (b : bit_buffer_t) : option (Z * bit_buffer_t) :=
  match fuel with
  | O => None
  | S fuel =>
    if bool_decide (input = []) then Some (0, b) else
    let block_len := Nat.min (length input) (Z.to_nat DEFLATE_MAX_BLOCK_SIZE) in
    let rest := drop block_len input in
    '(ret, b) ← deflate_one (take block_len input) (bool_decide (rest = [])) b;
    if negb (ret =? 0) then Some (ret, b) else deflate_loop fuel rest b
  end.

Definition deflate_deflate (input out : list Z) : option (Z * list Z) :=
  '(ret, b) ← deflate_loop (S (length input)) input (mk_bit_buffer out 0 0);
  Some (ret, buffer b).
