(* ===== verification/DeflateBits.v ===== *)
(** * DEFLATE: streams of bits

    Readers and writers as lists of bits, and the rules for commands of the
    decoder on the bits that are left to read and the bytes written. *)

From S2P Require Import Prelude Deflate.

(** ** Numbers and bits, least significant first *)

Fixpoint bits_of (n : nat) (v : Z) : list bool :=
  match n with O => [] | S n => Z.odd v :: bits_of n (v / 2) end.

Fixpoint num (l : list bool) : Z := match l with [] => 0 | b :: l => Z.b2z b + 2 * num l end.

Definition bytes_bits (l : list Z) : list bool := l ≫= bits_of 8.

Definition is_byte (x : Z) : Prop := 0 <= x < 256.

Lemma length_bits_of n v : length (bits_of n v) = n.
Proof. revert v. induction n; intros v; cbn; auto. Qed.

Lemma num_bits_of n v : num (bits_of n v) = v mod 2 ^ Z.of_nat n.
Proof.
  revert v. induction n as [|n IH]; intros v; [by rewrite Z.mod_1_r|]. cbn [bits_of num].
  rewrite IH, Nat2Z.inj_succ, Z.pow_succ_r by lia. pose proof (Z.pow_pos_nonneg 2 (Z.of_nat n) ltac:(lia) ltac:(lia)).
  rewrite Z.rem_mul_r by lia. rewrite (Zmod_odd v). by destruct (Z.odd v).
Qed.

Lemma num_bound l : 0 <= num l < 2 ^ Z.of_nat (length l).
Proof.
  induction l as [|b l IH]; cbn [num length]; [cbn; lia|]. rewrite Nat2Z.inj_succ, Z.pow_succ_r by lia. destruct b; cbn [Z.b2z]; lia.
Qed.

Lemma num_app l1 l2 : num (l1 ++ l2) = num l1 + 2 ^ Z.of_nat (length l1) * num l2.
Proof.
  induction l1 as [|b l1 IH]; cbn [num length app]; [cbn; lia|]. rewrite IH, Nat2Z.inj_succ, Z.pow_succ_r by lia. lia.
Qed.

Lemma bits_of_num l : bits_of (length l) (num l) = l.
Proof.
  induction l as [|b l IH]; [done|]. cbn [length bits_of num]. rewrite Z.odd_add, Z.odd_mul, andb_false_l, xorb_false_r, (Z.mul_comm 2), Z.div_add by lia.
  replace (Z.b2z b / 2) with 0 by by destruct b. rewrite Z.add_0_l, IH. f_equal. by destruct b.
Qed.

Lemma num_inj l1 l2 : length l1 = length l2 -> num l1 = num l2 -> l1 = l2.
Proof. intros Hl Hn. by rewrite <- (bits_of_num l1), <- (bits_of_num l2), Hl, Hn. Qed.

Lemma bits_of_mod n v : bits_of n (v mod 2 ^ Z.of_nat n) = bits_of n v.
Proof. apply num_inj; [by rewrite !length_bits_of|]. rewrite !num_bits_of. apply Z.mod_mod. pose proof (Z.pow_pos_nonneg 2 (Z.of_nat n)). lia. Qed.

Lemma bits_of_split n m v : bits_of (n + m) v = bits_of n v ++ bits_of m (v / 2 ^ Z.of_nat n).
Proof.
  revert v. induction n as [|n IH]; intros v; cbn [Nat.add bits_of app]; [by rewrite Z.div_1_r|]. rewrite IH, Nat2Z.inj_succ, Z.pow_succ_r by lia.
  do 3 f_equal. pose proof (Z.pow_pos_nonneg 2 (Z.of_nat n)). rewrite Z.div_div by lia. done.
Qed.

Lemma length_bytes_bits l : length (bytes_bits l) = (8 * length l)%nat.
Proof. induction l as [|x l IH]; [done|]. cbn [bytes_bits mbind list_bind]. rewrite length_app, length_bits_of. cbn [length]. unfold bytes_bits in IH. lia. Qed.

Lemma bytes_bits_app l1 l2 : bytes_bits (l1 ++ l2) = bytes_bits l1 ++ bytes_bits l2.
Proof. apply bind_app. Qed.

Lemma bytes_bits_cons x l : bytes_bits (x :: l) = bits_of 8 x ++ bytes_bits l.
Proof. done. Qed.

(** ** Writers *)

Record writer_ok (b : bit_buffer_t) : Prop := {
  writer_bytes : Forall is_byte (buffer b);
  writer_count : 0 <= bit_count b <= 8;
  writer_byte : 0 <= byte b < 2 ^ bit_count b;
}.

Definition written (b : bit_buffer_t) : list bool := bytes_bits (buffer b) ++ bits_of (Z.to_nat (bit_count b)) (byte b).

Lemma written_length b : writer_ok b -> Z.of_nat (length (written b)) mod 8 = bit_count b mod 8.
Proof.
  intros [_ Hc _]. unfold written. rewrite length_app, length_bytes_bits, length_bits_of, Nat2Z.inj_add, Z2Nat.id, Nat2Z.inj_mul by lia.
  change (Z.of_nat 8) with 8. rewrite Z.add_comm, (Z.mul_comm 8), Z.mod_add by lia. done.
Qed.

Definition flush (b : bit_buffer_t) : bit_buffer_t := if bit_count b =? 8 then mk_bit_buffer (buffer b ++ [byte b]) 0 0 else b.

Lemma flush_ok b : writer_ok b -> writer_ok (flush b) /\ written (flush b) = written b /\ bit_count (flush b) < 8.
Proof.
  intros [Hb Hc Hy]. unfold flush. destruct (Z.eqb_spec (bit_count b) 8) as [E|E]; [|split; [done|]; split; [done|lia]]. rewrite E in Hy.
  split; [split; cbn; [apply Forall_app; split; [done|]; constructor; [unfold is_byte; lia|constructor]|lia|lia]|]. split; [|cbn; lia].
  unfold written. rewrite E. cbn [buffer byte bit_count]. rewrite bytes_bits_app. cbn [bits_of Z.to_nat]. by rewrite !app_nil_r.
Qed.

Lemma put_bit_ok b bits : writer_ok b ->
  let b' := mk_bit_buffer (buffer (flush b)) (u8 (Z.lor (byte (flush b)) (Z.shiftl (Z.land bits 1) (bit_count (flush b))))) (bit_count (flush b) + 1) in
  writer_ok b' /\ written b' = written b ++ [Z.odd bits].
Proof.
  intros Hb. destruct (flush_ok b Hb) as ([F1 F2 F3] & <- & Hlt). set (c := flush b) in *. cbn zeta.
  assert (Z.land bits 1 = Z.b2z (Z.odd bits)) as -> by (change 1 with (Z.ones 1); rewrite Z.land_ones by lia; change (2 ^ 1) with 2; rewrite Zmod_odd; by destruct (Z.odd bits)).
  rewrite Z.shiftl_mul_pow2 by lia. rewrite (Z.lor_comm (byte c)), (lor_low_add (bit_count c)) by (try lia; by rewrite Z.mod_mul by lia).
  set (k := bit_count c) in *. set (v := Z.b2z (Z.odd bits) * 2 ^ k + byte c).
  assert (2 ^ (k + 1) = 2 * 2 ^ k) as Hp by (rewrite Z.pow_add_r by lia; lia).
  assert (2 ^ (k + 1) <= 2 ^ 8) as H8 by (apply Z.pow_le_mono_r; lia).
  assert (0 <= v < 2 ^ (k + 1)) as Hv by (subst v; destruct (Z.odd bits); cbn [Z.b2z]; lia).
  assert (u8 v = v) as -> by (unfold u8; apply Z.mod_small; lia).
  split; [split; cbn [buffer bit_count byte]; [done|lia|done]|]. unfold written. cbn [buffer bit_count byte]. fold k. rewrite <- app_assoc. f_equal.
  rewrite Z2Nat.inj_add by lia. rewrite bits_of_split. f_equal.
  - rewrite <- (bits_of_mod _ v), Z2Nat.id by lia. f_equal. subst v. rewrite Z.add_comm, Z.mod_add by lia. apply Z.mod_small. lia.
  - cbn [bits_of]. f_equal. rewrite Z2Nat.id by lia. subst v. rewrite Z.add_comm, Z.div_add, Z.div_small by lia. by destruct (Z.odd bits).
Qed.

Lemma put_ok b n bits : writer_ok b -> writer_ok (bit_buffer_put b n bits) /\ written (bit_buffer_put b n bits) = written b ++ bits_of (Z.to_nat n) bits.
Proof.
  unfold bit_buffer_put. intros Hb. revert b bits Hb. induction (Z.to_nat n) as [|k IH]; intros b bits Hb; cbn [put_loop bits_of]; [by rewrite app_nil_r|].
  fold (flush b). destruct (put_bit_ok b bits Hb) as [H1 H2]. destruct (IH _ (Z.shiftr bits 1) H1) as [H3 H4]. split; [done|].
  rewrite H4, H2, <- app_assoc. cbn [app]. by rewrite Z.shiftr_div_pow2 by lia.
Qed.

(** The last byte is filled with zeros. *)
Definition padding (n : nat) : list bool := replicate (Z.to_nat ((- Z.of_nat n) mod 8)) false.

Lemma padding_length n : Z.of_nat (length (padding n)) = (- Z.of_nat n) mod 8.
Proof. unfold padding. rewrite length_replicate, Z2Nat.id; [done|]. by apply Z.mod_pos_bound. Qed.

Lemma bits_of_high k n v : 0 <= v < 2 ^ Z.of_nat k -> bits_of (k + n) v = bits_of k v ++ replicate n false.
Proof.
  intros Hv. rewrite bits_of_split. f_equal. rewrite Z.div_small by done. induction n as [|n IH]; cbn; [done|]. by f_equal.
Qed.

Lemma push_ok b : writer_ok b ->
  writer_ok (bit_buffer_push b) /\ bit_count (bit_buffer_push b) = 0 /\ written (bit_buffer_push b) = written b ++ padding (length (written b)).
Proof.
  intros Hb. pose proof (written_length b Hb) as Hl. destruct Hb as [H1 H2 H3]. unfold bit_buffer_push. destruct (Z.eqb_spec (bit_count b) 0) as [E|E].
  { split; [done|]. split; [done|]. unfold padding. rewrite E, Z.mod_0_l in Hl by lia. rewrite (Z_mod_zero_opp_full _ _ Hl). by rewrite app_nil_r. }
  split; [split; cbn; [|lia|lia]|].
  { apply Forall_app. split; [done|]. constructor; [|constructor]. assert (2 ^ bit_count b <= 2 ^ 8) by (apply Z.pow_le_mono_r; lia). unfold is_byte. lia. }
  split; [done|]. unfold written at 1. cbn [buffer byte bit_count]. change (bits_of (Z.to_nat 0) 0) with (@nil bool).
  rewrite app_nil_r, bytes_bits_app. set (pad := padding _). unfold written. rewrite <- app_assoc. apply (f_equal (app _)).
  change (bytes_bits [byte b]) with (bits_of 8 (byte b) ++ []). rewrite app_nil_r.
  replace 8%nat with (Z.to_nat (bit_count b) + Z.to_nat (8 - bit_count b))%nat at 1 by lia. rewrite bits_of_high by (by rewrite Z2Nat.id by lia). f_equal.
  subst pad. unfold padding. do 2 f_equal. rewrite <- (Z.sub_0_l (Z.of_nat _)), Zminus_mod, Hl, <- Zminus_mod. rewrite Z.sub_0_l.
  destruct (decide (bit_count b = 8)) as [E8|E8]; [by rewrite E8|]. rewrite <- (Z.mod_add (- bit_count b) 1), Z.mod_small by lia. lia.
Qed.

(** ** Readers *)

Record reader_ok (b : bit_buffer_t) : Prop := {
  reader_bytes : Forall is_byte (buffer b);
  reader_count : 0 <= bit_count b < 8;
}.

Definition unread (b : bit_buffer_t) : list bool := bits_of (Z.to_nat (bit_count b)) (byte b) ++ bytes_bits (buffer b).

Lemma unread_length b : reader_ok b -> Z.of_nat (length (unread b)) mod 8 = bit_count b.
Proof.
  intros [_ Hc]. unfold unread. rewrite length_app, length_bytes_bits, length_bits_of, Nat2Z.inj_add, Z2Nat.id, Nat2Z.inj_mul by lia.
  change (Z.of_nat 8) with 8. rewrite (Z.mul_comm 8), Z.mod_add by lia. by apply Z.mod_small.
Qed.

(** What a writer has pushed can be read. *)
Lemma reader_of_writer b : writer_ok b -> bit_count b = 0 -> reader_ok (mk_bit_buffer (buffer b) 0 0) /\ unread (mk_bit_buffer (buffer b) 0 0) = written b.
Proof.
  intros [H1 H2 H3] E. split; [by split; cbn; [|lia]|]. unfold unread, written. rewrite E. cbn [buffer byte bit_count Z.to_nat bits_of app]. by rewrite app_nil_r.
Qed.

Definition refill (b : bit_buffer_t) : option bit_buffer_t :=
  if bit_count b =? 0 then match buffer b with [] => None | x :: rest => Some (mk_bit_buffer rest x 8) end else Some b.

Lemma refill_ok b x l : reader_ok b -> unread b = x :: l ->
  exists c, refill b = Some c /\ Z.land (byte c) 1 = Z.b2z x /\
    let c' := mk_bit_buffer (buffer c) (Z.shiftr (byte c) 1) (bit_count c - 1) in reader_ok c' /\ unread c' = l.
Proof.
  intros [H1 H2] E.
  assert (exists c, refill b = Some c /\ Forall is_byte (buffer c) /\ 0 < bit_count c <= 8 /\ unread c = x :: l) as (c & Hc & C1 & C2 & C3).
  { unfold refill. destruct (Z.eqb_spec (bit_count b) 0) as [E0|E0]; [|exists b; split; [done|]; split; [done|]; split; [lia|done]].
    unfold unread in E. rewrite E0 in E. cbn [Z.to_nat bits_of app] in E. destruct (buffer b) as [|w rest]; [done|]. apply Forall_cons in H1 as [Hw Hr].
    eexists. split; [done|]. split; [done|]. split; [cbn; lia|]. done. }
  exists c. split; [done|]. unfold unread in C3. destruct (Z.to_nat (bit_count c)) as [|n] eqn:En; [lia|]. cbn [bits_of app] in C3. injection C3 as Ex El.
  assert (Z.land (byte c) 1 = Z.b2z x) as Hx.
  { subst x. change 1 with (Z.ones 1). rewrite Z.land_ones by lia. change (2 ^ 1) with 2. rewrite Zmod_odd. by destruct (Z.odd (byte c)). }
  split; [done|]. cbn zeta. split; [split; cbn; [done|lia]|]. unfold unread. cbn [buffer byte bit_count]. rewrite Z.shiftr_div_pow2 by lia.
  replace (Z.to_nat (bit_count c - 1)) with n by lia. done.
Qed.

Lemma get_loop_ok l1 l2 i result b : reader_ok b -> unread b = l1 ++ l2 -> 0 <= i -> 0 <= result < 2 ^ i ->
  exists b', get_loop (length l1) i result b = (result + 2 ^ i * num l1, b') /\ reader_ok b' /\ unread b' = l2.
Proof.
  revert i result b. induction l1 as [|x l1 IH]; intros i result b Hb E Hi Hr; cbn [length get_loop num].
  - exists b. split; [f_equal; lia|]. done.
  - fold (refill b). destruct (refill_ok b x (l1 ++ l2) Hb E) as (c & -> & Hx & Hc & Ec). cbn zeta in *. rewrite Hx.
    rewrite Z.shiftl_mul_pow2, (Z.lor_comm result), (lor_low_add i) by (try lia; by rewrite Z.mod_mul by lia).
    assert (2 ^ (i + 1) = 2 * 2 ^ i) as Hp by (rewrite Z.pow_add_r by lia; lia).
    destruct (IH (i + 1) (Z.b2z x * 2 ^ i + result) _ Hc Ec) as (b' & -> & Hb' & Eb'); [lia|destruct x; cbn [Z.b2z]; lia|].
    exists b'. split; [f_equal; rewrite Hp; lia|done].
Qed.

Lemma get_ok l1 l2 b n : reader_ok b -> unread b = l1 ++ l2 -> Z.of_nat (length l1) = n ->
  exists b', bit_buffer_get b n = (num l1, b') /\ reader_ok b' /\ unread b' = l2.
Proof.
  intros Hb E <-. unfold bit_buffer_get. rewrite Nat2Z.id. destruct (get_loop_ok l1 l2 0 0 b Hb E) as (b' & -> & H); [lia|lia|].
  exists b'. split; [f_equal; lia|done].
Qed.

(** ** Commands of the decoder *)

(** [c] run with the bits [l] to read and the output [o]. *)
Definition decodes {A} (c : M A) (l : list bool) (o : list Z) (Q : A -> list bool -> list Z -> Prop) : Prop :=
  forall s, reader_ok (input s) -> unread (input s) = l -> output s = o ->
  wp c s (fun a s' => reader_ok (input s') /\ Q a (unread (input s')) (output s')) False.

Lemma decodes_ret {A} (x : A) l o Q : Q x l o -> decodes (mret x) l o Q.
Proof. intros HQ s Hs <- <-. by split. Qed.

Lemma decodes_bind {A B} (c : M A) (k : A -> M B) l o Q :
  decodes c l o (fun a l' o' => decodes (k a) l' o' Q) -> decodes (mbind k c) l o Q.
Proof.
  intros Hc s Hs Hl Ho. apply wp_bind. eapply wp_mono; [by apply Hc|]. cbn beta. intros a s' [Hs' Hk]. by apply Hk.
Qed.

Lemma decodes_mono {A} (c : M A) l o (Q R : A -> list bool -> list Z -> Prop) :
  decodes c l o Q -> (forall a l' o', Q a l' o' -> R a l' o') -> decodes c l o R.
Proof. intros Hc HR s Hs Hl Ho. eapply wp_mono; [by apply Hc|]. cbn beta. intros a s' [? ?]. auto. Qed.

Lemma decodes_get l1 l2 n o Q : Z.of_nat (length l1) = n -> Q (num l1) l2 o -> decodes (get_bits n) (l1 ++ l2) o Q.
Proof.
  intros Hn HQ s Hs Hl <-. destruct (get_ok l1 l2 (input s) n Hs Hl Hn) as (b & E & Hb & Eb). unfold wp, get_bits. rewrite E. cbn. by rewrite Eb.
Qed.

Lemma decodes_append bytes l o Q : Q tt l (o ++ bytes) -> decodes (append_bytes bytes) l o Q.
Proof. intros HQ s Hs <- <-. by split. Qed.

Lemma decodes_item t i x l o Q : 0 <= i -> t !! Z.to_nat i = Some x -> Q x l o -> decodes (item t i) l o Q.
Proof. intros Hi Hx HQ s Hs <- <-. unfold wp, item. destruct (Z.leb_spec 0 i); [|lia]. rewrite Hx. by split. Qed.
