(* ===== verification/DeflateHuffman.v ===== *)
(** * DEFLATE: canonical codes and their decoding tables *)

From S2P Require Import Prelude Deflate DeflateBits.

(** ** Bits of a code, most significant first *)

Definition msb_bits (n : nat) (v : Z) : list bool := reverse (bits_of n v).

Lemma msb_bits_S n v : msb_bits (S n) v = Z.odd (v / 2 ^ Z.of_nat n) :: msb_bits n v.
Proof. unfold msb_bits. rewrite <- (Nat.add_1_r n), bits_of_split, reverse_app. done. Qed.

(** ** Canonical codes: lengths, ranks and first codes *)

Fixpoint cnt (l : Z) (lens : list Z) : Z := match lens with [] => 0 | x :: lens => Z.b2z (x =? l) + cnt l lens end.

Lemma cnt_nonneg l lens : 0 <= cnt l lens.
Proof. induction lens as [|x lens IH]; cbn; [lia|]. destruct (x =? l); cbn; lia. Qed.

Lemma cnt_app l xs ys : cnt l (xs ++ ys) = cnt l xs + cnt l ys.
Proof. induction xs as [|x xs IH]; cbn [cnt app]; [lia|]. rewrite IH. lia. Qed.

Lemma cnt_take_lt l lens s : lens !! s = Some l -> cnt l (take s lens) < cnt l lens.
Proof.
  intros Hs. rewrite <- (take_drop_middle lens s l Hs) at 2. rewrite cnt_app. cbn [cnt]. rewrite Z.eqb_refl. cbn [Z.b2z]. pose proof (cnt_nonneg l (drop (S s) lens)). lia.
Qed.

Lemma cnt_take_le l lens s s' : (s <= s')%nat -> cnt l (take s lens) <= cnt l (take s' lens).
Proof.
  intros Hs. replace s' with (s + (s' - s))%nat by lia. rewrite <- take_take_drop, cnt_app. pose proof (cnt_nonneg l (take (s' - s) (drop s lens))). lia.
Qed.

(** The number of symbols of length [l] in use. *)
Definition used (lens : list Z) (l : nat) : Z := if bool_decide (l = 0)%nat then 0 else cnt (Z.of_nat l) lens.

Lemma used_nonneg lens l : 0 <= used lens l.
Proof. unfold used. case_bool_decide; [done|]. apply cnt_nonneg. Qed.

(** The symbols of length less than [l]. *)
Fixpoint below (c : nat -> Z) (l : nat) : Z := match l with O => 0 | S l => below c l + c l end.

Fixpoint first_code (c : nat -> Z) (l : nat) : Z := match l with O => 0 | S l => 2 * (first_code c l + c l) end.

Definition rank (lens : list Z) (s : nat) : Z := cnt (lens !!! s) (take s lens).

Section Counts.
Context (c : nat -> Z) (Hc : forall l, 0 <= c l).

Lemma below_mono l l' : (l <= l')%nat -> below c l <= below c l'.
Proof using Hc. induction 1 as [|l' _ IH]; [lia|]. cbn. pose proof (Hc l'). lia. Qed.

Lemma below_nonneg l : 0 <= below c l.
Proof using Hc. apply (below_mono 0). lia. Qed.

Lemma below_lt l l' : (l < l')%nat -> below c l + c l <= below c l'.
Proof using Hc. intros H. apply (below_mono (S l)). done. Qed.

Lemma first_code_nonneg l : 0 <= first_code c l.
Proof using Hc. induction l as [|l IH]; cbn; [lia|]. pose proof (Hc l). lia. Qed.

(** A code is greater than the codes of shorter lengths, read at its own length. *)
Lemma first_code_prefix i k : 2 ^ Z.of_nat (S k) * (first_code c i + c i) <= first_code c (i + S k).
Proof using Hc.
  induction k as [|k IH].
  - rewrite Nat.add_1_r. cbn [first_code]. change (2 ^ Z.of_nat 1) with 2. lia.
  - rewrite Nat.add_succ_r. cbn [first_code]. rewrite (Nat2Z.inj_succ (S k)), Z.pow_succ_r by lia. pose proof (Hc (i + S k)%nat). lia.
Qed.
End Counts.

Lemma below_ext c d l : (forall k, (k < l)%nat -> c k = d k) -> below c l = below d l.
Proof. induction l as [|l IH]; intros H; cbn; [done|]. rewrite IH, (H l) by (intros; auto with lia). done. Qed.

(** All symbols together. *)
Lemma below_used lens l : below (used lens) l <= Z.of_nat (length lens).
Proof.
  assert (forall lens, below (used lens) l = Z.of_nat (length (filter (fun x => 0 < x < Z.of_nat l) lens))) as Hall.
  { clear lens. intros lens. induction lens as [|x lens IH].
    - cbn. induction l as [|l IH]; [done|]. cbn [below]. rewrite IH. unfold used. by case_bool_decide.
    - rewrite filter_cons.
      assert (below (used (x :: lens)) l = below (used lens) l + Z.b2z (bool_decide (0 < x < Z.of_nat l))) as ->.
      { clear. induction l as [|l IH]; [cbn; rewrite bool_decide_false by lia; done|]. cbn [below]. rewrite IH.
        assert (used (x :: lens) l = used lens l + Z.b2z (bool_decide (0 < x /\ x = Z.of_nat l))) as ->.
        { unfold used. cbn [cnt]. repeat case_bool_decide; destruct (Z.eqb_spec x (Z.of_nat l)); cbn [Z.b2z]; lia. }
        repeat case_bool_decide; cbn [Z.b2z]; lia. }
      case_decide as E; [rewrite bool_decide_true by done|rewrite bool_decide_false by done]; cbn [Z.b2z length]; lia. }
  rewrite Hall. pose proof (length_filter (fun x => 0 < x < Z.of_nat l) lens). lia.
Qed.

(** ** Decoding *)

Lemma append_bit v k : v / 2 ^ Z.of_nat k = 2 * (v / 2 ^ Z.of_nat (S k)) + Z.b2z (Z.odd (v / 2 ^ Z.of_nat k)).
Proof.
  assert (2 ^ Z.of_nat (S k) = 2 ^ Z.of_nat k * 2) as -> by (rewrite Nat2Z.inj_succ, Z.pow_succ_r by lia; lia).
  rewrite <- Z.div_div by (pose proof (Z.pow_pos_nonneg 2 (Z.of_nat k)); lia). set (w := v / _). pose proof (Z.div2_odd w). rewrite Z.div2_div in *. done.
Qed.

Lemma lor_shifted_bit cur (b : bool) : Z.lor (Z.shiftl cur 1) (Z.b2z b) = 2 * cur + Z.b2z b.
Proof.
  rewrite Z.shiftl_mul_pow2 by lia. change (2 ^ 1) with 2. rewrite (lor_low_add 1); [lia|lia|apply Z.mod_mul; lia|destruct b; cbn; lia].
Qed.

Lemma decode_loop_ok c (Hc : forall l, 0 <= c l) k i v cs rest o Q :
  (forall j, (j <= k)%nat -> cs !! j = Some (c (S i + j)%nat)) ->
  first_code c (i + S k) <= v < first_code c (i + S k) + c (i + S k)%nat ->
  (forall count cur, count + cur = below c (i + S k) + v - first_code c (i + S k) -> Q (Some (count, cur)) rest o) ->
  decodes (decode_loop cs (below c (S i)) (v / 2 ^ Z.of_nat (S k) - first_code c i - c i)) (msb_bits (S k) v ++ rest) o Q.
Proof.
  revert i cs. induction k as [|k IH]; intros i cs Hcs Hv HQ.
  all: pose proof (Hcs 0%nat ltac:(lia)) as H0; destruct cs as [|x cs]; [done|]; injection H0 as ->; rewrite Nat.add_0_r.
  all: rewrite msb_bits_S; rewrite <- app_comm_cons; change (?x :: ?l) with ([x] ++ l); cbn [decode_loop].
  all: apply decodes_bind, decodes_get; [done|]; cbn [num]; rewrite Z.mul_0_r, Z.add_0_r, lor_shifted_bit.
  all: match goal with |- context [Z.odd (?w / 2 ^ Z.of_nat ?n)] => pose proof (append_bit w n) as Hap; set (bit := Z.odd (w / 2 ^ Z.of_nat n)) in * end.
  all: assert (0 <= Z.b2z bit <= 1) as Hbit by (by destruct bit; cbn); destruct (Z.ltb_spec (Z.b2z bit) 0); [lia|].
  - change (2 ^ Z.of_nat 0) with 1 in *. rewrite Z.div_1_r in Hap. rewrite Nat.add_1_r in *. cbn [first_code below] in *.
    destruct (Z.leb_spec 0 (2 * (v / 2 ^ Z.of_nat 1 - first_code c i - c i) + Z.b2z bit - c (S i))); [lia|]. apply decodes_ret, HQ. lia.
  - pose proof (first_code_prefix c Hc (S i) k) as Hp. replace (S i + S k)%nat with (i + S (S k))%nat in Hp by lia.
    assert (first_code c (S i) + c (S i) <= v / 2 ^ Z.of_nat (S k)) by (apply Z.div_le_lower_bound; lia).
    replace (2 * (v / 2 ^ Z.of_nat (S (S k)) - first_code c i - c i) + Z.b2z bit - c (S i)) with (v / 2 ^ Z.of_nat (S k) - first_code c (S i) - c (S i)) by (cbn [first_code]; lia).
    destruct (Z.leb_spec 0 (v / 2 ^ Z.of_nat (S k) - first_code c (S i) - c (S i))); [|lia]. apply (IH (S i)).
    + intros j Hj. specialize (Hcs (S j) ltac:(lia)). change (cs !! j = Some (c (S i + S j)%nat)) in Hcs. rewrite Hcs. do 2 f_equal. lia.
    + by replace (S i + S k)%nat with (i + S (S k))%nat by lia.
    + by replace (S i + S k)%nat with (i + S (S k))%nat by lia.
Qed.

(** ** The decoding table of a list of lengths *)

Lemma used_cons x lens l : (0 < l)%nat -> used (x :: lens) l = Z.b2z (x =? Z.of_nat l) + used lens l.
Proof. intros Hl. unfold used. rewrite bool_decide_false by lia. done. Qed.

Lemma used_bound lens l : used lens l <= Z.of_nat (length lens).
Proof. pose proof (below_used lens (S l)). cbn [below] in *. pose proof (below_nonneg (used lens) (used_nonneg lens) l). lia. Qed.

(** [f i] is added to every element. *)
Lemma count_lengths_ok lens max cs : Forall (fun x => 0 <= x <= max) lens -> max <= 15 -> length cs = 16%nat ->
  Forall (fun c => 0 <= c /\ c + Z.of_nat (length lens) < 2 ^ 16) cs ->
  exists cs', count_lengths lens max cs = Some cs' /\ length cs' = 16%nat /\
    forall l c, cs !! l = Some c -> cs' !! l = Some (c + cnt (Z.of_nat l) lens).
Proof.
  revert cs. induction lens as [|x lens IH]; intros cs Hl Hm H16 Hcs; cbn [count_lengths].
  { exists cs. split; [done|]. split; [done|]. intros l c ->. cbn. f_equal. lia. }
  apply Forall_cons in Hl as [Hx Hl]. destruct (Z.ltb_spec max x); [lia|].
  destruct (IH (alter (fun c => u16 (c + 1)) (Z.to_nat x) cs)) as (cs' & E & H1 & H2); [done|done|by rewrite length_alter| |].
  - apply Forall_lookup. intros l c Hlk. rewrite Forall_lookup in Hcs. cbn [length] in Hcs. destruct (decide (l = Z.to_nat x)) as [->|Hne].
    + rewrite list_lookup_alter_eq in Hlk. destruct (cs !! Z.to_nat x) as [d|] eqn:Ed; [|done]. injection Hlk as <-. specialize (Hcs _ _ Ed).
      unfold u16. rewrite Z.mod_small by lia. lia.
    + rewrite list_lookup_alter_ne in Hlk by done. specialize (Hcs _ _ Hlk). lia.
  - exists cs'. split; [done|]. split; [done|]. intros l c Hlk. cbn [cnt]. destruct (Z.eqb_spec x (Z.of_nat l)) as [->|Hne].
    + rewrite Nat2Z.id in *. rewrite (H2 l (u16 (c + 1))) by (by rewrite list_lookup_alter_eq, Hlk). cbn [Z.b2z]. f_equal.
      rewrite Forall_lookup in Hcs. specialize (Hcs _ _ Hlk). cbn [length] in Hcs. unfold u16. rewrite Z.mod_small by lia. lia.
    + cbn [Z.b2z]. rewrite (H2 l c); [f_equal; lia|]. by rewrite list_lookup_alter_ne by lia.
Qed.

Lemma counts_ok lens max : Forall (fun x => 0 <= x <= max) lens -> max <= 15 -> (length lens < 1000)%nat ->
  exists cs, count_lengths lens max (replicate 16 0) = Some cs /\ <[0%nat := 0]> cs = map (used lens) (seq 0 16).
Proof.
  intros Hl Hm Hn. destruct (count_lengths_ok lens max (replicate 16 0)) as (cs & E & H1 & H2); [done|done|done| |].
  { apply Forall_replicate. change (2 ^ 16) with 65536. lia. }
  exists cs. split; [done|]. apply list_eq_same_length with 16%nat; [by rewrite length_map, length_seq|by rewrite length_insert|].
  intros i x y Hi Hx Hy. rewrite list_lookup_fmap in Hy. rewrite lookup_seq_lt in Hy by done. injection Hy as <-. unfold used. cbn [Nat.add]. case_bool_decide as E0.
  - subst i. rewrite list_lookup_insert_eq in Hx by lia. by injection Hx.
  - rewrite list_lookup_insert_ne in Hx by lia. rewrite (H2 i 0) in Hx by (by apply lookup_replicate_2). injection Hx as <-. lia.
Qed.

Lemma offsets_ok c n k count : (forall l, 0 <= c l) -> count + below c (k + n) - below c k < 2 ^ 16 -> 0 <= count ->
  forall l, (l < n)%nat -> offsets_of (map c (seq k n)) count !! l = Some (count + below c (k + l) - below c k).
Proof.
  intros Hc. revert k count. induction n as [|n IH]; intros k count Hb H0 l Hl; [lia|]. cbn [seq map offsets_of].
  pose proof (below_mono c Hc k (k + S n)). destruct l as [|l]; cbn [lookup list_lookup].
  - rewrite Nat.add_0_r. unfold u16. rewrite Z.mod_small by lia. f_equal. lia.
  - pose proof (Hc k). rewrite (IH (S k) (count + c k)); [|rewrite Nat.add_succ_comm; cbn [below]; lia|lia|lia]. rewrite Nat.add_succ_comm. cbn [below]. f_equal. lia.
Qed.

Lemma offsets_start lens l : (length lens < 1000)%nat -> (l < 16)%nat -> offsets_of (map (used lens) (seq 0 16)) 0 !! l = Some (below (used lens) l).
Proof.
  intros Hn Hl. pose proof (below_used lens 16) as Hb. rewrite (offsets_ok _ 16 0 0 (used_nonneg lens)); [|change (below (used lens) 0) with 0; rewrite Nat.add_0_l; lia|lia|lia].
  rewrite Nat.add_0_l. change (below (used lens) 0) with 0. by rewrite Z.add_0_l, Z.sub_0_r.
Qed.

(** The place of a symbol in the table. *)
Definition place (lens : list Z) (s : nat) (l : Z) : Z := below (used lens) (Z.to_nat l) + cnt l (take s lens).

Lemma used_pos lens l : 0 < l -> used lens (Z.to_nat l) = cnt l lens.
Proof. intros Hl. unfold used. rewrite bool_decide_false by lia. by rewrite Z2Nat.id by lia. Qed.

Lemma place_bound lens s l : 0 < l -> lens !! s = Some l -> 0 <= place lens s l < below (used lens) (S (Z.to_nat l)).
Proof.
  intros Hl Hs. unfold place. cbn [below]. pose proof (below_nonneg _ (used_nonneg lens) (Z.to_nat l)). pose proof (cnt_nonneg l (take s lens)).
  pose proof (cnt_take_lt _ _ _ Hs). rewrite used_pos by done. lia.
Qed.

Lemma place_inj lens s l s' l' : 0 < l -> 0 < l' -> (s' < s)%nat -> lens !! s = Some l -> lens !! s' = Some l' -> place lens s l <> place lens s' l'.
Proof.
  intros Hl Hl' Hlt Hs Hs'. pose proof (place_bound _ _ _ Hl Hs). pose proof (place_bound _ _ _ Hl' Hs'). destruct (Z.lt_trichotomy l l') as [H1|[->|H1]].
  - pose proof (below_mono _ (used_nonneg lens) (S (Z.to_nat l)) (Z.to_nat l')). unfold place in *. pose proof (cnt_nonneg l' (take s' lens)). lia.
  - unfold place. pose proof (cnt_take_le l' lens (S s') s Hlt) as H1. erewrite (take_S_r _ s') in H1 by done. rewrite cnt_app in H1. cbn [cnt] in H1. rewrite Z.eqb_refl in H1. cbn [Z.b2z] in H1. lia.
  - pose proof (below_mono _ (used_nonneg lens) (S (Z.to_nat l')) (Z.to_nat l)). unfold place in *. pose proof (cnt_nonneg l (take s lens)). lia.
Qed.

Lemma place_symbols_ok all todo k offsets syms : todo = drop k all -> Forall (fun x => 0 <= x <= 15) all ->
  (length all <= length syms)%nat -> (length all < 1000)%nat ->
  (forall l, 0 < l <= 15 -> offsets !! Z.to_nat l = Some (below (used all) (Z.to_nat l) + cnt l (take k all))) ->
  (forall s l, (s < k)%nat -> all !! s = Some l -> 0 < l -> syms !! Z.to_nat (place all s l) = Some (Z.of_nat s)) ->
  forall s l, all !! s = Some l -> 0 < l -> place_symbols todo (Z.of_nat k) offsets syms !! Z.to_nat (place all s l) = Some (Z.of_nat s).
Proof.
  revert k offsets syms. induction todo as [|x todo IH]; intros k offsets syms Et Hall Hn H1000 Ho Hs; cbn [place_symbols].
  { intros s l Hlk Hl. apply Hs; [|done|done]. apply lookup_lt_Some in Hlk. apply (f_equal length) in Et. rewrite length_drop in Et. cbn in Et. lia. }
  assert (all !! k = Some x) as Hk by (rewrite <- (Nat.add_0_r k), <- lookup_drop, <- Et; done).
  assert (todo = drop (S k) all) as Et' by (rewrite <- Nat.add_1_r, <- drop_drop, <- Et; done).
  pose proof (proj1 (Forall_lookup _ _) Hall _ _ Hk) as Hx. cbn beta in Hx.
  replace (Z.of_nat k + 1) with (Z.of_nat (S k)) by lia. destruct (Z.eqb_spec x 0) as [E0|E0].
  - apply IH; [done..| |].
    + intros l Hl. rewrite Ho by done. erewrite (take_S_r all k) by done. rewrite cnt_app. cbn [cnt]. destruct (Z.eqb_spec x l); [lia|]. cbn [Z.b2z]. f_equal. lia.
    + intros s l Hs' Hlk Hl. apply Hs; [|done|done]. destruct (decide (s = k)) as [->|]; [|lia]. rewrite Hlk in Hk. injection Hk as ->. lia.
  - assert (0 < x <= 15) as Hx' by lia. rewrite (list_lookup_total_correct _ _ _ (Ho x Hx')). fold (place all k x).
    pose proof (place_bound all k x ltac:(lia) Hk) as Hpb. pose proof (below_used all (S (Z.to_nat x))) as Hbu. set (p := place all k x) in *.
    apply IH; [done|done|by rewrite length_insert|done| |].
    + intros l Hl. erewrite (take_S_r all k) by done. rewrite cnt_app. cbn [cnt]. destruct (Z.eqb_spec x l) as [<-|Hne].
      * rewrite list_lookup_insert_eq by (eapply lookup_lt_Some; by apply Ho). unfold u16. change (2 ^ 16) with 65536. rewrite Z.mod_small by lia. cbn [Z.b2z]. f_equal. subst p. unfold place. lia.
      * rewrite list_lookup_insert_ne by lia. rewrite Ho by done. cbn [Z.b2z]. f_equal. lia.
    + intros s l Hs' Hlk Hl. destruct (decide (s = k)) as [->|Hsk].
      * rewrite Hlk in Hk. injection Hk as ->. fold p. apply list_lookup_insert_eq. lia.
      * pose proof (place_inj all k x s l ltac:(lia) Hl ltac:(lia) Hk Hlk) as Hpi. pose proof (place_bound _ _ _ Hl Hlk). fold p in Hpi.
        rewrite list_lookup_insert_ne by lia. apply Hs; [lia|done|done].
Qed.

(** ** Decoding a symbol *)

Lemma huffman_decode_code c (Hc : forall l, 0 <= c l) table max_symbol l v s rest o (Q : Z -> list bool -> list Z -> Prop) :
  counts table = map c (seq 0 16) -> c 0%nat = 0 -> (0 < l <= 15)%nat -> v < 2 ^ Z.of_nat l ->
  first_code c l <= v < first_code c l + c l -> below c l + v - first_code c l <= max_symbol ->
  symbols table !! Z.to_nat (below c l + v - first_code c l) = Some s ->
  Q s rest o -> decodes (huffman_decode table max_symbol) (msb_bits l v ++ rest) o Q.
Proof.
  intros Hcs H0 Hl Hv Hfirst Hmax Hs HQ. unfold huffman_decode. rewrite Hcs. destruct l as [|k]; [lia|]. apply decodes_bind.
  pose proof (first_code_nonneg c Hc (S k)). pose proof (below_nonneg c Hc (S k)).
  assert (0 = v / 2 ^ Z.of_nat (S k) - first_code c 0 - c 0%nat) as Hcur by (rewrite Z.div_small, H0 by lia; done).
  assert (forall i, (i < 15)%nat -> tail (map c (seq 0 16)) !! i = Some (c (S i))) as Htl.
  { intros i Hi. change (tail (map c (seq 0 16))) with (map c (seq 1 15)). rewrite list_lookup_fmap, lookup_seq_lt by done. done. }
  rewrite Hcur at 2. replace 0 with (below c 1) at 1 by (cbn [below]; lia). apply (decode_loop_ok c Hc k 0).
  - intros j Hj. by rewrite Htl by lia.
  - done.
  - intros count cur ->. cbn [Nat.add]. set (p := below c (S k) + v - first_code c (S k)) in *.
    destruct (Z.ltb_spec p 0); [lia|]. destruct (Z.ltb_spec max_symbol p); [lia|]. cbn [orb]. eapply decodes_item; [lia|exact Hs|exact HQ].
Qed.

(** The code of a symbol: canonical, the shorter ones first, then by symbol. *)
Definition code_of (lens : list Z) (s : nat) (l : Z) : Z := first_code (used lens) (Z.to_nat l) + cnt l (take s lens).

Lemma huffman_decode_ok lens max table max_symbol s l rest o Q :
  huffman_decode_table_build lens max = Some table -> Forall (fun x => 0 <= x <= max) lens -> max <= 15 -> (length lens <= 288)%nat ->
  lens !! s = Some l -> 0 < l -> code_of lens s l < 2 ^ l -> Z.of_nat (length lens) <= max_symbol + 1 ->
  Q (Z.of_nat s) rest o -> decodes (huffman_decode table max_symbol) (msb_bits (Z.to_nat l) (code_of lens s l) ++ rest) o Q.
Proof.
  intros Eb Hl Hm Hn Hs Hl0 Hcode Hms HQ. unfold huffman_decode_table_build in Eb. destruct (counts_ok lens max Hl Hm ltac:(lia)) as (cs & Ec & Hcs).
  rewrite Ec, Hcs in Eb. apply (inj Some) in Eb. subst table.
  assert (Forall (fun x => 0 <= x <= 15) lens) as Hl15 by (eapply Forall_impl; [done|]; cbn beta; lia).
  pose proof (proj1 (Forall_lookup _ _) Hl15 _ _ Hs) as Hlr. cbn beta in Hlr.
  pose proof (cnt_take_lt _ _ _ Hs) as Hrank. pose proof (cnt_nonneg l (take s lens)). pose proof (place_bound lens s l Hl0 Hs) as Hpb. pose proof (below_used lens (S (Z.to_nat l))) as Hbu.
  assert (below (used lens) (Z.to_nat l) + code_of lens s l - first_code (used lens) (Z.to_nat l) = place lens s l) as Ep by (unfold code_of, place; lia).
  apply (huffman_decode_code (used lens) (used_nonneg lens)) with (s := Z.of_nat s); [done|done|lia|by rewrite Z2Nat.id by lia| | | |done].
  - rewrite used_pos by done. unfold code_of. lia.
  - lia.
  - rewrite Ep. cbn [symbols]. assert (length lens <= length (replicate 288 0%Z))%nat as Hn' by (rewrite length_replicate; exact Hn).
    revert Hn'. generalize (replicate 288 0%Z). intros syms Hn'. change 0 with (Z.of_nat 0) at 1. eapply (place_symbols_ok lens lens 0); [symmetry; apply drop_0|exact Hl15|exact Hn'|lia| |intros; lia|exact Hs|exact Hl0].
    intros l' Hl'. rewrite take_0. cbn [cnt]. rewrite Z.add_0_r. apply offsets_start; lia.
Qed.
