(* ===== verification/DeflateBlock.v ===== *)
(** * DEFLATE: a block and its words

    The words of a block describe bytes; what the encoder writes for them, the
    decoder reads back, for any pair of tables that agree on the symbols. *)

From S2P Require Import Prelude Deflate DeflateEncode DeflateBits.

(** ** What the words stand for *)

Fixpoint copy (n : nat) (distance : nat) (o : list Z) : list Z :=
  match n with O => o | S n => copy n distance (o ++ [o !!! (length o - distance)%nat]) end.

Definition valid_match (length distance position : Z) : bool :=
  (3 <=? length) && (length <=? 258) && (1 <=? distance) && (distance <=? 32768) && (distance <=? position).

(** The output behind [o] after the words. *)
Fixpoint expand (words : list Z) (o : list Z) : option (list Z) :=
  match words with
  | [] => Some o
  | w :: words =>
    if w =? 0xFFFF then
      match words with
      | len :: distance :: words =>
        if valid_match len distance (Z.of_nat (length o)) then expand words (copy (Z.to_nat len) (Z.to_nat distance) o) else None
      | _ => None
      end
    else if (0 <=? w) && (w <? 256) then expand words (o ++ [w]) else None
  end.

(** The symbols in use. *)
Fixpoint words_use (S D : Z -> Prop) (words : list Z) : Prop :=
  match words with
  | [] => True
  | w :: words =>
    if w =? 0xFFFF then
      match words with
      | len :: distance :: words => S (257 + huffman_find_length_index len) /\ D (huffman_find_distance_index distance) /\ words_use S D words
      | _ => False
      end
    else S w /\ words_use S D words
  end.

(** ** Tables that agree *)

(** What one end writes for [s] is not empty, and the other end reads [s] back. *)
Class Codec (enc : huffman_encode_table_t) (dec : huffman_decode_table_t) (max : Z) (P : Z -> Prop) : Prop := {
  codec_bits s : P s -> exists len code, lengths enc !! Z.to_nat s = Some len /\ codes enc !! Z.to_nat s = Some code /\ 0 < len /\
    forall rest o (Q : Z -> list bool -> list Z -> Prop), Q s rest o -> decodes (huffman_decode dec max) (bits_of (Z.to_nat len) code ++ rest) o Q;
}.

Lemma put_symbol_ok enc dec max P `{!Codec enc dec max P} b s : writer_ok b -> P s ->
  exists b' e, put_symbol enc b s = Some b' /\ writer_ok b' /\ written b' = written b ++ e /\ (0 < length e)%nat /\
    forall rest o (Q : Z -> list bool -> list Z -> Prop), Q s rest o -> decodes (huffman_decode dec max) (e ++ rest) o Q.
Proof.
  intros Hb Hs. destruct (codec_bits s Hs) as (len & code & E1 & E2 & Hl & Hdec). destruct (put_ok b len code Hb) as [H1 H2].
  exists (bit_buffer_put b len code), (bits_of (Z.to_nat len) code). unfold put_symbol. rewrite E1, E2. split; [done|]. split; [done|]. split; [done|].
  split; [rewrite length_bits_of; lia|done].
Qed.

(** ** Lengths and distances *)

(** The entry found is the last one that is not greater. *)
Lemma find_index_spec base x i : let r := find_index base x i in i <= r <= i + Z.of_nat (length base) /\
  (forall b, i < r -> base !! Z.to_nat (r - i - 1) = Some b -> b <= x) /\ (forall b, base !! Z.to_nat (r - i) = Some b -> x < b).
Proof.
  revert i. induction base as [|b base IH]; intros i; cbn [find_index length]; [split; [lia|]; split; intros; [lia|done]|].
  destruct (Z.leb_spec b x) as [Hb|Hb]; [|split; [lia|]; split; [intros; lia|]; rewrite Z.sub_diag; by intros ? [= <-]].
  destruct (IH (i + 1)) as (H1 & H2 & H3). set (r := find_index base x (i + 1)) in *. split; [lia|]. split.
  - intros b' _. destruct (decide (r = i + 1)) as [->|]; [replace (i + 1 - i - 1) with 0 by lia; by intros [= <-]|]. intros Hl. apply H2; [lia|].
    replace (Z.to_nat (r - i - 1)) with (S (Z.to_nat (r - (i + 1) - 1))) in Hl by lia. done.
  - intros b' Hl. apply H3. replace (Z.to_nat (r - i)) with (S (Z.to_nat (r - (i + 1)))) in Hl by lia. done.
Qed.

(** The ranges of the entries meet. *)
Definition steps_ok (base extra : list Z) : bool :=
  forallb (fun k => match base !! k, base !! S k, extra !! k with Some b, Some b', Some e => (0 <=? b) && (0 <=? e) && (b' <=? b + 2 ^ e) | _, _, _ => true end) (seq 0 (length base)).

Lemma extra_bits_value e x b : 0 <= e -> 0 <= b <= x -> x < 65536 -> x - b < 2 ^ e -> num (bits_of (Z.to_nat e) (u16 (x - b))) + b = x.
Proof.
  intros He Hb Hx Hlt. rewrite num_bits_of, Z2Nat.id by done. unfold u16. change (2 ^ 16) with 65536. rewrite (Z.mod_small (x - b) 65536), Z.mod_small by lia. lia.
Qed.

(** An [x] between the first and the last entry. *)
Lemma index_bits base extra first top x : steps_ok base extra = true -> length extra = length base -> base !! 0%nat = Some first -> last base = Some top -> first <= x < top -> x < 65536 ->
  let i := find_index base x 0 - 1 in exists b e, 0 <= i <= Z.of_nat (length base) - 2 /\ base !! Z.to_nat i = Some b /\ extra !! Z.to_nat i = Some e /\
    0 <= e /\ num (bits_of (Z.to_nat e) (u16 (x - b))) + b = x.
Proof.
  intros Hsteps Hlen Hfirst Htop Hx H16. destruct (find_index_spec base x 0) as (H1 & H2 & H3). set (r := find_index base x 0) in *. cbn zeta. rewrite last_lookup in Htop.
  assert (0 < r) as Hr by (destruct (decide (r = 0)) as [E|]; [|lia]; rewrite E in H3; specialize (H3 _ Hfirst); lia).
  assert (r < Z.of_nat (length base)) as Hr2.
  { destruct (decide (r = Z.of_nat (length base))) as [E|]; [|lia]. rewrite E in H2, Hr. specialize (H2 top Hr). replace (Z.to_nat (Z.of_nat (length base) - 0 - 1)) with (pred (length base)) in H2 by lia. specialize (H2 Htop). lia. }
  destruct (lookup_lt_is_Some_2 base (Z.to_nat (r - 1))) as [b Hb]; [lia|]. destruct (lookup_lt_is_Some_2 base (Z.to_nat r)) as [b' Hb']; [lia|]. destruct (lookup_lt_is_Some_2 extra (Z.to_nat (r - 1))) as [e He]; [lia|].
  unfold steps_ok in Hsteps. rewrite forallb_forall in Hsteps. specialize (Hsteps (Z.to_nat (r - 1)) ltac:(apply in_seq; lia)). rewrite Hb, He in Hsteps. replace (S (Z.to_nat (r - 1))) with (Z.to_nat r) in Hsteps by lia. rewrite Hb' in Hsteps.
  rewrite !andb_true_iff, !Z.leb_le in Hsteps. destruct Hsteps as [[Hb0 He0] Hst]. specialize (H2 b Hr). rewrite Z.sub_0_r in H2, H3. specialize (H2 Hb). specialize (H3 _ Hb').
  exists b, e. split; [lia|]. split; [done|]. split; [done|]. split; [done|]. apply extra_bits_value; lia.
Qed.

Lemma length_bits x : 3 <= x <= 258 -> let i := huffman_find_length_index x in exists b e, 0 <= i <= 28 /\ huffman_length_base !! Z.to_nat i = Some b /\
  huffman_length_extra_bits !! Z.to_nat i = Some e /\ 0 <= e /\ num (bits_of (Z.to_nat e) (u16 (x - b))) + b = x.
Proof.
  intros Hx. unfold huffman_find_length_index. destruct (Z.ltb_spec x 3); [lia|]. destruct (Z.ltb_spec 258 x); [lia|]. destruct (Z.eqb_spec x 258) as [->|Hne].
  - exists 258, 0. split; [lia|]. split; [done|]. split; [done|]. split; [lia|reflexivity].
  - destruct (index_bits huffman_length_base huffman_length_extra_bits 3 258 x) as (b & e & Hi & Hrest); [reflexivity|reflexivity|reflexivity|reflexivity|lia|lia|]. exists b, e. split; [|done].
    change (Z.of_nat (length huffman_length_base)) with 29 in Hi. lia.
Qed.

Lemma distance_bits x : 1 <= x <= 32768 -> let i := huffman_find_distance_index x in exists b e, 0 <= i <= 29 /\ huffman_distance_base !! Z.to_nat i = Some b /\
  huffman_distance_extra_bits !! Z.to_nat i = Some e /\ 0 <= e /\ num (bits_of (Z.to_nat e) (u16 (x - b))) + b = x.
Proof.
  intros Hx. unfold huffman_find_distance_index. destruct (Z.ltb_spec x 1); [lia|]. destruct (Z.ltb_spec 32768 x); [lia|]. destruct (Z.leb_spec 24577 x) as [Hge|Hlt].
  - exists 24577, 13. split; [lia|]. split; [done|]. split; [done|]. split; [lia|]. apply extra_bits_value; lia.
  - destruct (index_bits huffman_distance_base huffman_distance_extra_bits 1 24577 x) as (b & e & Hi & Hrest); [reflexivity|reflexivity|reflexivity|reflexivity|lia|lia|]. exists b, e. split; [|done].
    change (Z.of_nat (length huffman_distance_base)) with 30 in Hi. lia.
Qed.

(** ** Copies *)

Lemma length_copy n d o : length (copy n d o) = (length o + n)%nat.
Proof. revert o. induction n as [|n IH]; intros o; cbn [copy]; [lia|]. rewrite IH, length_app. cbn. lia. Qed.

Lemma decodes_position l o Q : Q (Z.of_nat (length o)) l o -> decodes output_position l o Q.
Proof. intros HQ s Hs <- <-. by split. Qed.

Lemma decodes_peek pos l o Q : (pos < length o)%nat -> Z.of_nat (length o) < 2 ^ 64 -> Q (o !!! pos) l o -> decodes (peek_output (Z.of_nat pos)) l o Q.
Proof.
  intros Hp Ho HQ s Hs <- <-. unfold wp, peek_output. unfold u64. rewrite Z.mod_small by lia. destruct (Z.ltb_spec (Z.of_nat (length (output s))) (Z.of_nat pos + 1)); [lia|].
  apply decodes_item with (x := output s !!! pos) (l := unread (input s)) (o := output s); [lia| |done|done|done|done]. rewrite Nat2Z.id. by apply list_lookup_lookup_total_lt.
Qed.

Lemma copy_loop_ok n d l o Q : (1 <= d <= length o)%nat -> Z.of_nat (length o + n) < 2 ^ 64 -> Q tt l (copy n d o) ->
  decodes (copy_loop n (Z.of_nat (length o - d))) l o Q.
Proof.
  revert o. induction n as [|n IH]; intros o Hd Ho HQ; cbn [copy_loop]; [by apply decodes_ret|].
  apply decodes_bind, decodes_peek; [lia|lia|]. apply decodes_bind, decodes_append.
  replace (u64 (Z.of_nat (length o - d) + 1)) with (Z.of_nat (length (o ++ [o !!! (length o - d)%nat]) - d)) by (unfold u64; rewrite Z.mod_small, length_app by lia; cbn [length]; lia).
  apply IH; [rewrite length_app; lia| |done]. rewrite length_app. cbn [length]. lia.
Qed.

Lemma valid_matchP len d p : valid_match len d p = true <-> 3 <= len <= 258 /\ 1 <= d <= 32768 /\ d <= p.
Proof. unfold valid_match. rewrite !andb_true_iff, !Z.leb_le. lia. Qed.

(** The cases of a list of words that expands. *)
Lemma expand_case (R : list Z -> list Z -> Prop) o' :
  R [] o' ->
  (forall w ws o, 0 <= w < 256 -> expand ws (o ++ [w]) = Some o' -> R ws (o ++ [w]) -> R (w :: ws) o) ->
  (forall len d ws o, 3 <= len <= 258 -> 1 <= d <= 32768 -> d <= Z.of_nat (length o) -> expand ws (copy (Z.to_nat len) (Z.to_nat d) o) = Some o' ->
    R ws (copy (Z.to_nat len) (Z.to_nat d) o) -> R (0xFFFF :: len :: d :: ws) o) ->
  forall ws o, expand ws o = Some o' -> R ws o.
Proof.
  intros Hnil Hlit Hmatch ws. induction ws as [ws IH] using (induction_ltof1 _ length). unfold ltof in IH. intros o E.
  destruct ws as [|w ws]; cbn [expand] in E; [by injection E as ->|]. destruct (Z.eqb_spec w 0xFFFF) as [->|Hw].
  - destruct ws as [|len [|d ws]]; [done|done|]. destruct (valid_match len d (Z.of_nat (length o))) eqn:Ev; [|done]. apply valid_matchP in Ev as (H1 & H2 & H3).
    apply Hmatch; [done..|]. apply IH; [cbn; lia|done].
  - destruct (Z.leb_spec 0 w), (Z.ltb_spec w 256); try done. cbn [andb] in E. apply Hlit; [lia|done|]. apply IH; [cbn; lia|done].
Qed.

Lemma expand_length ws o o' : expand ws o = Some o' -> (length o <= length o')%nat.
Proof.
  revert ws o. apply (expand_case (fun _ o => (length o <= length o')%nat)); [done| |].
  - intros w ws o _ _ H. rewrite length_app in H. lia.
  - intros len d ws o _ _ _ _ H. rewrite length_copy in H. lia.
Qed.

(** ** Words *)

Section Words.
Context (symbols distances : huffman_encode_table_t) (dsymbols ddistances : huffman_decode_table_t) (S D : Z -> Prop).
Context `{!Codec symbols dsymbols 288 S} `{!Codec distances ddistances 30 D}.

(** The bits [e], followed by bits that decode to the end of the block, decode from [o]. *)
Definition block_decodes (e : list bool) (o o' : list Z) : Prop :=
  forall fuel k rest Q, (length e + k <= fuel)%nat ->
  (forall fuel, (k <= fuel)%nat -> decodes (deflate_inflate_block fuel dsymbols ddistances) rest o' Q) ->
  decodes (deflate_inflate_block fuel dsymbols ddistances) (e ++ rest) o Q.

Lemma block_decodes_app e1 e2 o1 o2 o3 : block_decodes e1 o1 o2 -> block_decodes e2 o2 o3 -> block_decodes (e1 ++ e2) o1 o3.
Proof.
  intros H1 H2 fuel k rest Q Hf Hr. rewrite <- app_assoc. rewrite length_app in Hf. apply (H1 fuel (length e2 + k)%nat); [lia|]. intros f' Hf'.
  by apply (H2 f' k).
Qed.

Lemma literal_ok b w o : writer_ok b -> S w -> 0 <= w < 256 ->
  exists b' e, put_symbol symbols b w = Some b' /\ writer_ok b' /\ written b' = written b ++ e /\ block_decodes e o (o ++ [w]).
Proof using Codec0.
  intros Hb Hs Hw. destruct (put_symbol_ok _ _ _ _ b w Hb Hs) as (b' & e & E1 & E2 & E3 & He & Hdec). exists b', e. split; [done|]. split; [done|]. split; [done|].
  intros fuel k rest Q Hf Hr. destruct fuel as [|fuel]; [lia|]. cbn [deflate_inflate_block]. apply decodes_bind, Hdec.
  destruct (Z.ltb_spec w 0); [lia|]. destruct (Z.ltb_spec w 256); [|lia]. apply decodes_bind, decodes_append, Hr. lia.
Qed.

Lemma match_ok b len d o : writer_ok b -> 3 <= len <= 258 -> 1 <= d <= 32768 -> d <= Z.of_nat (length o) -> Z.of_nat (length o) + len < 2 ^ 64 ->
  S (257 + huffman_find_length_index len) -> D (huffman_find_distance_index d) ->
  exists b' e, (forall ws, deflate_words (0xFFFF :: len :: d :: ws) b symbols distances = deflate_words ws b' symbols distances) /\
    writer_ok b' /\ written b' = written b ++ e /\ block_decodes e o (copy (Z.to_nat len) (Z.to_nat d) o).
Proof using Codec0 Codec1.
  intros Hb Hlen Hd Hdo Ho Hs HD. destruct (length_bits len Hlen) as (lb & le & Hi & El & Ele & Hle & Hln). destruct (distance_bits d Hd) as (db & de & Hj & Ed & Ede & Hde & Hdn).
  set (i := huffman_find_length_index len) in *. set (j := huffman_find_distance_index d) in *.
  destruct (put_symbol_ok _ _ _ _ b (257 + i) Hb Hs) as (b1 & e1 & P1 & W1 & E1 & He1 & Dec1). destruct (put_ok b1 le (u16 (len - lb)) W1) as [W2 E2].
  destruct (put_symbol_ok _ _ _ _ _ j W2 HD) as (b3 & e3 & P3 & W3 & E3 & He3 & Dec3). destruct (put_ok b3 de (u16 (d - db)) W3) as [W4 E4].
  eexists _, (e1 ++ bits_of (Z.to_nat le) (u16 (len - lb)) ++ e3 ++ bits_of (Z.to_nat de) (u16 (d - db))). split; [|split; [exact W4|split]].
  - intros ws. cbn [deflate_words]. rewrite Z.eqb_refl. fold i j. rewrite (proj2 (Z.eqb_neq i (-1))), (proj2 (Z.ltb_ge 28 i)) by lia. cbn [orb]. rewrite El. cbn [mbind option_bind]. rewrite Ele. cbn [mbind option_bind]. rewrite P1. cbn [mbind option_bind].
    rewrite (proj2 (Z.eqb_neq j (-1))), (proj2 (Z.ltb_ge 29 j)) by lia. cbn [orb]. rewrite Ed. cbn [mbind option_bind]. rewrite Ede. cbn [mbind option_bind]. rewrite P3. done.
  - rewrite E4, E3, E2, E1, <- !app_assoc. done.
  - intros fuel k rest Q Hf Hr. rewrite <- !app_assoc. rewrite length_app in Hf. destruct fuel as [|fuel]; [lia|]. cbn [deflate_inflate_block]. apply decodes_bind, Dec1.
    destruct (Z.ltb_spec (257 + i) 0); [lia|]. destruct (Z.ltb_spec (257 + i) 256); [lia|]. destruct (Z.eqb_spec (257 + i) 256); [lia|].
    replace (257 + i - 257) with i by lia. apply decodes_bind. eapply decodes_item; [lia|done|]. apply decodes_bind. eapply decodes_item; [lia|done|].
    apply decodes_bind, decodes_get; [rewrite length_bits_of; lia|]. rewrite Hln. destruct (Z.ltb_spec len 0); [lia|]. apply decodes_bind, Dec3.
    destruct (Z.ltb_spec j 0); [lia|]. apply decodes_bind. eapply decodes_item; [lia|done|]. apply decodes_bind. eapply decodes_item; [lia|done|].
    apply decodes_bind, decodes_get; [rewrite length_bits_of; lia|]. rewrite Hdn. destruct (Z.ltb_spec d 0); [lia|]. apply decodes_bind, decodes_position.
    replace (u64 (Z.of_nat (length o) - d)) with (Z.of_nat (length o - Z.to_nat d)) by (unfold u64; rewrite Z.mod_small by lia; lia).
    apply decodes_bind, copy_loop_ok; [lia|lia|]. apply Hr. lia.
Qed.

Lemma words_ok ws b o o' : writer_ok b -> expand ws o = Some o' -> Z.of_nat (length o') < 2 ^ 64 -> words_use S D ws ->
  exists b' e, deflate_words ws b symbols distances = Some (0, b') /\ writer_ok b' /\ written b' = written b ++ e /\ block_decodes e o o'.
Proof using Codec0 Codec1.
  intros Hb He Ho' Huse. revert ws o He b Hb Huse.
  apply (expand_case (fun ws o => forall b, writer_ok b -> words_use S D ws ->
    exists b' e, deflate_words ws b symbols distances = Some (0, b') /\ writer_ok b' /\ written b' = written b ++ e /\ block_decodes e o o')).
  - intros b Hb _. exists b, []. split; [done|]. split; [done|]. split; [by rewrite app_nil_r|]. intros fuel k rest Q Hf Hr. by apply Hr.
  - intros w ws o Hw Hex IH b Hb Huse. cbn [words_use] in Huse. rewrite (proj2 (Z.eqb_neq w 0xFFFF)) in Huse by lia. destruct Huse as [Hs Huse].
    destruct (literal_ok b w o Hb Hs Hw) as (b1 & e1 & P1 & W1 & E1 & D1). destruct (IH b1 W1 Huse) as (b2 & e2 & P2 & W2 & E2 & D2).
    exists b2, (e1 ++ e2). cbn [deflate_words]. rewrite (proj2 (Z.eqb_neq w 0xFFFF)) by lia. rewrite P1. cbn [mbind option_bind]. split; [done|]. split; [done|].
    split; [by rewrite E2, E1, <- app_assoc|]. by eapply block_decodes_app.
  - intros len d ws o Hlen Hd Hdo Hex IH b Hb Huse. cbn [words_use] in Huse. rewrite Z.eqb_refl in Huse. destruct Huse as (Hs & HD & Huse).
    apply expand_length in Hex. rewrite length_copy in Hex.
    destruct (match_ok b len d o Hb Hlen Hd Hdo ltac:(lia) Hs HD) as (b1 & e1 & P1 & W1 & E1 & D1). destruct (IH b1 W1 Huse) as (b2 & e2 & P2 & W2 & E2 & D2).
    exists b2, (e1 ++ e2). rewrite P1. split; [done|]. split; [done|]. split; [by rewrite E2, E1, <- app_assoc|]. by eapply block_decodes_app.
Qed.

(** A whole block. *)
Lemma block_ok ws b o o' : writer_ok b -> expand ws o = Some o' -> Z.of_nat (length o') < 2 ^ 64 -> words_use S D ws -> S 256 ->
  exists b' e, deflate_deflate_block ws b symbols distances = Some (0, b') /\ writer_ok b' /\ written b' = written b ++ e /\
    forall fuel rest (Q : Z -> list bool -> list Z -> Prop), (length e <= fuel)%nat -> Q 0 rest o' -> decodes (deflate_inflate_block fuel dsymbols ddistances) (e ++ rest) o Q.
Proof using Codec0 Codec1.
  intros Hb He Ho' Huse H256. destruct (words_ok ws b o o' Hb He Ho' Huse) as (b1 & e1 & P1 & W1 & E1 & D1).
  destruct (put_symbol_ok _ _ _ _ b1 256 W1 H256) as (b2 & e2 & P2 & W2 & E2 & He2 & Dec2). exists b2, (e1 ++ e2). unfold deflate_deflate_block.
  rewrite P1. cbn [mbind option_bind]. cbn [Z.eqb negb]. rewrite P2. split; [done|]. split; [done|]. split; [by rewrite E2, E1, <- app_assoc|].
  intros fuel rest Q Hf HQ. rewrite <- app_assoc. rewrite length_app in Hf. apply (D1 fuel (length e2)); [lia|]. intros f Hf'. destruct f as [|f]; [lia|].
  cbn [deflate_inflate_block]. apply decodes_bind, Dec2. by apply decodes_ret.
Qed.
End Words.
