(* ===== verification/DeflateFixed.v ===== *)
(** * DEFLATE: the fixed tables agree *)

From S2P Require Import Prelude Deflate DeflateEncode DeflateBits DeflateHuffman DeflateBlock.

(** ** A code of a table, checked *)

Definition count_at (dec : huffman_decode_table_t) (l : nat) : Z := nth l (counts dec) 0.

Definition code_ok (dec : huffman_decode_table_t) (max s len code : Z) : bool :=
  let n := Z.to_nat len in let v := num (reverse (bits_of n code)) in let c := count_at dec in
  (0 <? len) && (len <=? 15) && (first_code c n <=? v) && (v <? first_code c n + c n) && (below c n + v - first_code c n <=? max) &&
  bool_decide (symbols dec !! Z.to_nat (below c n + v - first_code c n) = Some s).

Definition symbol_ok (enc : huffman_encode_table_t) (dec : huffman_decode_table_t) (max s : Z) : bool :=
  match lengths enc !! Z.to_nat s, codes enc !! Z.to_nat s with Some len, Some code => code_ok dec max s len code | _, _ => false end.

Definition table_ok (dec : huffman_decode_table_t) : bool :=
  forallb (fun c => 0 <=? c) (counts dec) && bool_decide (length (counts dec) = 16%nat) && (count_at dec 0 =? 0).

Lemma checked_codec enc dec max (P : Z -> Prop) : table_ok dec = true -> (forall s, P s -> symbol_ok enc dec max s = true) -> Codec enc dec max P.
Proof.
  unfold table_ok. rewrite !andb_true_iff, forallb_forall, bool_decide_eq_true, Z.eqb_eq. intros ((Hnn & H16) & H0) HP. split. intros s Hs.
  specialize (HP s Hs). unfold symbol_ok in HP. destruct (lengths enc !! Z.to_nat s) as [len|]; [|done]. destruct (codes enc !! Z.to_nat s) as [code|]; [|done].
  unfold code_ok in HP. rewrite !andb_true_iff, !Z.leb_le, !Z.ltb_lt, bool_decide_eq_true in HP. destruct HP as (((((H1 & H2) & H3) & H4) & H5) & H6).
  exists len, code. split; [done|]. split; [done|]. split; [done|]. intros rest o Q HQ. set (n := Z.to_nat len) in *. set (v := num (reverse (bits_of n code))) in *.
  replace (bits_of n code) with (msb_bits n v); [|].
  - assert (forall l, 0 <= count_at dec l) as Hc.
    { intros l. unfold count_at. destruct (nth_in_or_default l (counts dec) 0) as [Hin| ->]; [|lia]. apply Z.leb_le, Hnn, Hin. }
    apply (huffman_decode_code (count_at dec) Hc) with (s := s); [|done|lia| |lia|done|done|done].
    + apply list_eq_same_length with 16%nat; [by rewrite length_map, length_seq|done|]. intros i x y Hi Hx Hy. rewrite list_lookup_fmap, lookup_seq_lt in Hy by done. injection Hy as <-.
      unfold count_at. cbn [Nat.add]. symmetry. by apply nth_lookup_Some.
    + pose proof (num_bound (reverse (bits_of n code))) as Hb. rewrite length_reverse, length_bits_of in Hb. lia.
  - unfold msb_bits, v. rewrite <- (length_bits_of n code) at 1. rewrite <- (length_reverse (bits_of n code)), bits_of_num. apply reverse_involutive.
Qed.

(** ** The fixed tables *)

Lemma fixed_symbols_ok : forallb (symbol_ok huffman_encode_fixed huffman_decode_fixed_lengths 288) (seqZ 0 286) = true.
Proof. vm_compute. reflexivity. Qed.

Lemma fixed_distances_ok : forallb (symbol_ok huffman_encode_distance_fixed huffman_decode_fixed_distances 30) (seqZ 0 30) = true.
Proof. vm_compute. reflexivity. Qed.

#[export] Instance fixed_symbols_codec : Codec huffman_encode_fixed huffman_decode_fixed_lengths 288 (fun s => 0 <= s < 286).
Proof.
  apply checked_codec; [vm_compute; reflexivity|]. intros s Hs. eapply forallb_forall; [exact fixed_symbols_ok|]. apply list_elem_of_In, elem_of_seqZ. lia.
Qed.

#[export] Instance fixed_distances_codec : Codec huffman_encode_distance_fixed huffman_decode_fixed_distances 30 (fun s => 0 <= s < 30).
Proof.
  apply checked_codec; [vm_compute; reflexivity|]. intros s Hs. eapply forallb_forall; [exact fixed_distances_ok|]. apply list_elem_of_In, elem_of_seqZ. lia.
Qed.

(** Any words that expand can be written with them. *)
Lemma words_use_all ws o o' : expand ws o = Some o' -> words_use (fun s => 0 <= s < 286) (fun s => 0 <= s < 30) ws.
Proof.
  revert ws o. apply expand_case; [done| |].
  - intros w ws o Hw _ IH. cbn [words_use]. rewrite (proj2 (Z.eqb_neq w 0xFFFF)) by lia. split; [lia|done].
  - intros len d ws o Hlen Hd _ _ IH. cbn [words_use]. rewrite Z.eqb_refl. destruct (length_bits len Hlen) as (? & ? & ? & _). destruct (distance_bits d Hd) as (? & ? & ? & _).
    split; [lia|]. split; [lia|done].
Qed.
