(* ===== verification/DeflateMatch.v ===== *)
(** * DEFLATE: matches and the words of a block *)

From S2P Require Import Prelude Deflate DeflateEncode DeflateBits DeflateBlock.

(** ** Matches *)

Lemma peek_lookup block p : 0 <= p < Z.of_nat (length block) -> block !! Z.to_nat p = Some (peek block p).
Proof. intros Hp. unfold peek. destruct (lookup_lt_is_Some_2 block (Z.to_nat p)) as [x ->]; [lia|done]. Qed.

(** The block has the same [n] bytes at both places. *)
Definition same_bytes (block : list Z) (i p n : Z) : Prop := forall j, 0 <= j < n -> peek block (i + j) = peek block (p + j).

Lemma match_to_ok block i p j limit : 0 <= j -> same_bytes block i p j -> let r := match_to block i p j limit in
  j <= r <= Z.max j limit /\ same_bytes block i p r.
Proof.
  unfold match_to. intros Hj Hs. assert (limit - j <= Z.of_nat (Z.to_nat (limit - j))) as Hf by lia. revert Hf. generalize (Z.to_nat (limit - j)) as fuel. intros fuel.
  revert j Hj Hs. induction fuel as [|fuel IH]; intros j Hj Hs Hf; cbn [match_loop]; [split; [lia|done]|].
  destruct (Z.ltb_spec j limit) as [Hlt|Hge]; [|split; [lia|done]]. destruct (Z.eqb_spec (peek block (i + j)) (peek block (p + j))) as [E|E]; [|split; [lia|done]].
  destruct (IH (j + 1)) as [H1 H2]; [lia| |lia|split; [lia|done]]. intros k Hk. destruct (decide (k = j)) as [->|]; [done|]. apply Hs. lia.
Qed.

(** A match found at [in_p]: none, or bytes before it within the window. *)
Definition match_ok_at (block : list Z) (in_p max_match size pos : Z) : Prop :=
  pos = DEFLATE_NO_POS \/
  (0 <= pos < in_p /\ in_p - pos <= 32768 /\ 3 <= size <= max_match /\ same_bytes block pos in_p size).

Lemma bestmatch_loop_ok fuel block ht in_p max_match size pos i step :
  0 < in_p -> (forall j, -1 <= cell ht j < in_p) -> -1 <= i < in_p -> 0 <= size <= max_match -> match_ok_at block in_p max_match size pos ->
  let r := bestmatch_loop fuel block ht in_p max_match (Z.max 0 (in_p - DEFLATE_WINDOW_SIZE)) size pos i step in
  match_ok_at block in_p max_match (best_size r) (best_pos r).
Proof.
  intros Hp Hht. revert size pos i step. induction fuel as [|fuel IH]; intros size pos i step Hi Hsize Hok; cbn [bestmatch_loop]; [done|].
  destruct (Z.eqb_spec i DEFLATE_NO_POS) as [|Hi1]; [done|]. cbn [orb]. destruct (step <=? 0); [done|]. cbn [orb].
  unfold DEFLATE_NO_POS, DEFLATE_WINDOW_SIZE in *. destruct (Z.ltb_spec i (Z.max 0 (in_p - 32768))) as [|Hi2]; [done|].
  set (limit := Z.min size max_match). set (j0 := match_to block i in_p 0 limit). cbn zeta.
  destruct (match_to_ok block i in_p 0 limit) as [H1 H2]; [lia|intros k Hk; lia|]. fold j0 in H1, H2.
  destruct (j0 <? limit); [by apply IH|].
  destruct (match_to_ok block i in_p j0 max_match) as [H3 H4]; [lia|done|]. set (j := match_to block i in_p j0 max_match) in *.
  assert (forall better : bool, better = (DEFLATE_MIN_MATCH <=? j) && (size <? j) ->
    0 <= (if better then j else size) <= max_match /\ match_ok_at block in_p max_match (if better then j else size) (if better then i else pos)) as Hb.
  { intros [|] E; [|done]. symmetry in E. rewrite andb_true_iff, Z.leb_le, Z.ltb_lt in E. unfold DEFLATE_MIN_MATCH in E. split; [lia|]. right.
    split; [lia|]. split; [lia|]. split; [lia|done]. }
  specialize (Hb _ eq_refl) as [Hb1 Hb2]. destruct ((j =? max_match) || (cell ht (i mod DEFLATE_HASHTABLE_PREV_SIZE) =? i)); [done|]. by apply IH.
Qed.

(** Positions in the hash table are in front of the next one. *)
Definition table_before (ht : hashtable) (in_p : Z) : Prop := if in_p =? 0 then ht = ∅ else forall j, -1 <= cell ht j < in_p.

Lemma cell_insert ht i x j : cell (<[i := x]> ht) j = if j =? i then x else cell ht j.
Proof. unfold cell, hashtable. destruct (Z.eqb_spec j i) as [->|]; [by rewrite lookup_insert_eq|by rewrite lookup_insert_ne by done]. Qed.

Lemma hash_nonneg x : 0 <= deflate_hash4 x.
Proof. unfold deflate_hash4. apply Z.shiftr_nonneg. unfold u32. apply Z.mod_pos_bound. done. Qed.

Lemma empty_cell j : -1 <= cell ∅ j < 1.
Proof. unfold cell, hashtable. rewrite lookup_empty. cbn. unfold DEFLATE_NO_POS. destruct (j <? _); lia. Qed.

Lemma hash_insert_before ht in_p h next : 0 <= in_p < next -> table_before ht in_p -> table_before (deflate_hash_insert in_p h ht) next.
Proof.
  intros Hp Ht. unfold table_before in *. destruct (Z.eqb_spec next 0); [lia|].
  assert (forall j, -1 <= cell ht j < next) as Hc.
  { intros j. destruct (Z.eqb_spec in_p 0) as [E|E]; [subst ht; pose proof (empty_cell j); lia|]. specialize (Ht j). lia. }
  intros j. unfold deflate_hash_insert. rewrite !cell_insert. destruct (j =? _); [lia|]. destruct (j =? _); apply Hc.
Qed.

Lemma find_bestmatch_ok block in_p ht next : 0 <= in_p < Z.of_nat (length block) -> table_before ht in_p ->
  let '(m, ht') := deflate_find_bestmatch block (Z.of_nat (length block)) in_p ht in
  match_ok_at block in_p (Z.min (Z.of_nat (length block) - in_p) DEFLATE_MAX_MATCH) (best_size m) (best_pos m) /\ (in_p < next -> table_before ht' next).
Proof.
  intros Hp Ht. unfold deflate_find_bestmatch. set (h := deflate_hash4 _). split; [|intros; apply hash_insert_before; [lia|done]].
  unfold table_before in Ht. destruct (Z.eqb_spec in_p 0) as [E|E].
  - subst ht. left. assert (cell ∅ (head_index h) = DEFLATE_NO_POS) as ->; [|done].
    unfold cell, hashtable. rewrite lookup_empty. unfold head_index. assert (0 <= h) by apply hash_nonneg. cbn [default]. destruct (Z.ltb_spec (DEFLATE_HASHTABLE_PREV_SIZE + h) DEFLATE_HASHTABLE_PREV_SIZE); [lia|done].
  - apply bestmatch_loop_ok; [lia|done|apply Ht|unfold DEFLATE_MAX_MATCH; lia|by left].
Qed.

(** ** Words *)

Lemma copy_same n d o block p : (1 <= d <= p)%nat -> (p + n <= length block)%nat ->
  (forall j, (j < n)%nat -> block !! (p - d + j)%nat = block !! (p + j)%nat) ->
  copy n d (o ++ take p block) = o ++ take (p + n) block.
Proof.
  revert p. induction n as [|n IH]; intros p Hd Hn Hs; cbn [copy]; [by rewrite Nat.add_0_r|].
  destruct (lookup_lt_is_Some_2 block p) as [x Hx]; [lia|].
  assert ((o ++ take p block) !!! (length (o ++ take p block) - d)%nat = x) as ->.
  { apply list_lookup_total_correct. rewrite length_app, length_take, lookup_app_r by lia. rewrite lookup_take_lt by lia.
    replace (length o + p `min` length block - d - length o)%nat with (p - d + 0)%nat by lia. rewrite Hs by lia. by rewrite Nat.add_0_r. }
  rewrite <- app_assoc, <- (take_S_r block p x Hx). rewrite IH; [do 2 f_equal; lia|lia|lia|]. intros j Hj.
  specialize (Hs (S j) ltac:(lia)). replace (S p - d + j)%nat with (p - d + S j)%nat by lia. by replace (S p + j)%nat with (p + S j)%nat by lia.
Qed.

(** Frequencies: one word was counted for each at most [n] symbols of a kind. *)
Record freqs_ok (block : list Z) (n : Z) (f : huffman_encode_freq_t) : Prop := {
  freqs_literals : length (literal_freqs f) = 288%nat;
  freqs_distances : length (distance_freqs f) = 30%nat;
  freqs_literal_range : Forall (fun x => 0 <= x <= n) (literal_freqs f);
  freqs_distance_range : Forall (fun x => 0 <= x <= n) (distance_freqs f);
  freqs_used (s : nat) : 0 < peek (literal_freqs f) (Z.of_nat s) -> Z.of_nat s ∈ block \/ 257 <= Z.of_nat s < 286;
}.

Definition freqs_le (f g : list Z) : Prop := forall s, peek f s <= peek g s.

Lemma peek_incr l i s n : Forall (fun x => 0 <= x <= n) l -> n < 2 ^ 64 - 1 -> 0 <= i < Z.of_nat (length l) -> 0 <= s ->
  peek (incr l i) s = peek l s + Z.b2z (s =? i).
Proof.
  intros Hl Hn Hi Hs. unfold peek, incr. destruct (Z.eqb_spec s i) as [->|Hne]; cbn [Z.b2z].
  - rewrite list_lookup_alter_eq. destruct (lookup_lt_is_Some_2 l (Z.to_nat i)) as [x Hx]; [lia|]. rewrite Hx. cbn [fmap option_fmap option_map default].
    pose proof (proj1 (Forall_lookup _ _) Hl _ _ Hx). cbn beta in *. unfold u64. rewrite Z.mod_small by lia. done.
  - rewrite list_lookup_alter_ne by lia. lia.
Qed.

Lemma incr_range l i n : Forall (fun x => 0 <= x <= n) l -> n < 2 ^ 64 - 1 -> Forall (fun x => 0 <= x <= n + 1) (incr l i).
Proof.
  intros Hl Hn. apply Forall_lookup. intros k x. unfold incr. rewrite Forall_lookup in Hl. destruct (decide (k = Z.to_nat i)) as [->|Hne].
  - rewrite list_lookup_alter_eq. destruct (l !! Z.to_nat i) as [y|] eqn:Ey; [|done]. intros [= <-]. specialize (Hl _ _ Ey). unfold u64. rewrite Z.mod_small by lia. lia.
  - rewrite list_lookup_alter_ne by done. intros Hx. specialize (Hl _ _ Hx). lia.
Qed.

Lemma incr_le l i n : Forall (fun x => 0 <= x <= n) l -> n < 2 ^ 64 - 1 -> 0 <= i < Z.of_nat (length l) -> freqs_le l (incr l i).
Proof.
  intros Hl Hn Hi s. destruct (Z.leb_spec 0 s) as [Hs|Hs]; [rewrite (peek_incr _ _ _ n) by done; destruct (s =? i); cbn; lia|].
  unfold peek. replace (Z.to_nat s) with (Z.to_nat 0) by lia. change (default 0 (l !! Z.to_nat 0)) with (peek l 0). change (default 0 (incr l i !! Z.to_nat 0)) with (peek (incr l i) 0).
  rewrite (peek_incr _ _ _ n) by done. destruct (0 =? i); cbn; lia.
Qed.

Lemma freqs_literal block n f s : freqs_ok block n f -> n < 2 ^ 64 - 1 -> 0 <= s < 256 -> s ∈ block ->
  freqs_ok block (n + 1) (mk_freqs (incr (literal_freqs f) s) (distance_freqs f) (extra_bits_count f)).
Proof.
  intros [H1 H2 H3 H4 H5] Hn Hs Hin. split; cbn [literal_freqs distance_freqs]; [by unfold incr; rewrite length_alter|done|by apply incr_range| |].
  - eapply Forall_impl; [done|]. cbn beta. lia.
  - intros k. rewrite (peek_incr _ _ _ n) by (done || lia). destruct (Z.eqb_spec (Z.of_nat k) s) as [->|]; [by left|]. cbn. rewrite Z.add_0_r. apply H5.
Qed.

Lemma freqs_match block n f i j e : freqs_ok block n f -> n < 2 ^ 64 - 1 -> 0 <= i <= 28 -> 0 <= j <= 29 ->
  freqs_ok block (n + 1) (mk_freqs (incr (literal_freqs f) (257 + i)) (incr (distance_freqs f) j) e).
Proof.
  intros [H1 H2 H3 H4 H5] Hn Hi Hj. split; cbn [literal_freqs distance_freqs]; [by unfold incr; rewrite length_alter..|by apply incr_range|by apply incr_range|].
  intros k. rewrite (peek_incr _ _ _ n) by (done || lia). destruct (Z.eqb_spec (Z.of_nat k) (257 + i)) as [->|]; [right; lia|]. cbn. rewrite Z.add_0_r. apply H5.
Qed.

Lemma freqs_ok_mono block n m f : freqs_ok block n f -> n <= m -> freqs_ok block m f.
Proof. intros [H1 H2 H3 H4 H5] Hm. split; [done|done| | |done]; (eapply Forall_impl; [done|]; cbn beta; lia). Qed.

Definition uses (freqs : list Z) (s : Z) : Prop := 0 <= s /\ 0 < peek freqs s.

Lemma lz77_loop_ok fuel block in_p ht f : Forall is_byte block -> Z.of_nat (length block) <= 65535 -> 0 <= in_p <= Z.of_nat (length block) ->
  table_before ht in_p -> freqs_ok block in_p f -> Z.of_nat (length block) - in_p < Z.of_nat fuel ->
  exists out f', lz77_loop fuel block in_p ht f = Some (out, f') /\
    (forall o, expand out (o ++ take (Z.to_nat in_p) block) = Some (o ++ block)) /\ freqs_ok block (Z.of_nat (length block)) f' /\
    freqs_le (literal_freqs f) (literal_freqs f') /\ freqs_le (distance_freqs f) (distance_freqs f') /\
    words_use (uses (literal_freqs f')) (uses (distance_freqs f')) out.
Proof.
  intros Hb Hlen. revert in_p ht f. induction fuel as [|fuel IH]; intros in_p ht f Hp Ht Hf Hfuel; [lia|]. cbn [lz77_loop].
  destruct (Z.leb_spec (Z.of_nat (length block)) in_p) as [Hend|Hmid].
  { exists [], f. split; [done|]. split; [intros o; cbn [expand]; by rewrite take_ge by lia|]. split; [apply (freqs_ok_mono _ in_p); [done|lia]|]. split; [by intros s|]. split; [by intros s|done]. }
  pose proof (find_bestmatch_ok block in_p ht) as Hbm. destruct (deflate_find_bestmatch block (Z.of_nat (length block)) in_p ht) as [m ht'].
  pose proof (peek_lookup block in_p ltac:(lia)) as Hpk. pose proof (proj1 (Forall_lookup _ _) Hb _ _ Hpk) as Hbyte. unfold is_byte in Hbyte. set (x := peek block in_p) in *.
  destruct (negb (best_pos m =? DEFLATE_NO_POS) && (DEFLATE_MIN_MATCH <=? best_size m)) eqn:Em.
  - apply andb_true_iff in Em as [E1 _]. apply negb_true_iff, Z.eqb_neq in E1.
    destruct (Hbm (in_p + best_size m) ltac:(lia) Ht) as [[|(M1 & M2 & M3 & M4)] M5]; [done|]. unfold DEFLATE_MAX_MATCH in M3. set (n := best_size m) in *. set (pos := best_pos m) in *.
    assert (u16 n = n) as -> by (unfold u16; apply Z.mod_small; lia). assert (u16 (in_p - pos) = in_p - pos) as -> by (unfold u16; apply Z.mod_small; lia). set (d := in_p - pos) in *.
    destruct (length_bits n ltac:(lia)) as (lb & le & Hi & _). destruct (distance_bits d ltac:(lia)) as (db & de & Hj & _).
    set (i := huffman_find_length_index n) in *. set (j := huffman_find_distance_index d) in *.
    rewrite (proj2 (Z.eqb_neq i (-1))), (proj2 (Z.eqb_neq j (-1))) by lia. cbn [orb].
    match goal with |- context [lz77_loop fuel block _ ht' ?g] => destruct (IH (in_p + n) ht' g) as (out & f' & E & X1 & X2 & X3 & X4 & X5) end;
      [lia|apply M5; lia|apply (freqs_ok_mono _ (in_p + 1)); [apply freqs_match; [done|lia|lia|lia]|lia]|lia|].
    cbn [literal_freqs distance_freqs] in X3, X4. rewrite E. cbn [mbind option_bind]. destruct Hf as [F1 F2 F3 F4 F5].
    eexists _, f'. split; [done|]. split; [|split; [done|split; [|split]]].
    + intros o. cbn [expand]. rewrite Z.eqb_refl. rewrite (proj2 (valid_matchP n d _)) by (rewrite length_app, length_take; lia).
      rewrite copy_same; [rewrite <- X1; do 3 f_equal; lia|lia|lia|]. intros k Hk. specialize (M4 (Z.of_nat k) ltac:(lia)).
      replace (Z.to_nat in_p - Z.to_nat d + k)%nat with (Z.to_nat (pos + Z.of_nat k)) by lia. replace (Z.to_nat in_p + k)%nat with (Z.to_nat (in_p + Z.of_nat k)) by lia.
      rewrite !peek_lookup by lia. by f_equal.
    + intros s. etrans; [apply (incr_le _ (257 + i) in_p); [done|lia|lia]|apply X3].
    + intros s. etrans; [apply (incr_le _ j in_p); [done|lia|lia]|apply X4].
    + cbn [words_use]. rewrite Z.eqb_refl. fold i j. split; [|split; [|done]].
      * split; [lia|]. specialize (X3 (257 + i)). rewrite (peek_incr _ _ _ in_p), Z.eqb_refl in X3 by (done || lia). cbn [Z.b2z] in X3.
        pose proof (peek_lookup (literal_freqs f) (257 + i) ltac:(lia)) as Hl. pose proof (proj1 (Forall_lookup _ _) F3 _ _ Hl). cbn beta in *. lia.
      * split; [lia|]. specialize (X4 j). rewrite (peek_incr _ _ _ in_p), Z.eqb_refl in X4 by (done || lia). cbn [Z.b2z] in X4.
        pose proof (peek_lookup (distance_freqs f) j ltac:(lia)) as Hl. pose proof (proj1 (Forall_lookup _ _) F4 _ _ Hl). cbn beta in *. lia.
  - destruct (Hbm (in_p + 1) ltac:(lia) Ht) as [_ M5].
    destruct (IH (in_p + 1) ht' (mk_freqs (incr (literal_freqs f) x) (distance_freqs f) (extra_bits_count f))) as (out & f' & E & X1 & X2 & X3 & X4 & X5);
      [lia|apply M5; lia|apply freqs_literal; [done|lia|lia|by eapply list_elem_of_lookup_2]|lia|].
    cbn [literal_freqs distance_freqs] in X3, X4. rewrite E. cbn [mbind option_bind]. destruct Hf as [F1 F2 F3 F4 F5].
    eexists _, f'. split; [done|]. split; [|split; [done|split; [|split; [done|]]]].
    + intros o. cbn [expand]. rewrite (proj2 (Z.eqb_neq x 0xFFFF)) by lia. destruct (Z.leb_spec 0 x), (Z.ltb_spec x 256); try lia. cbn [andb].
      rewrite <- app_assoc, <- (take_S_r block _ x Hpk). rewrite <- X1. do 3 f_equal. lia.
    + intros s. etrans; [apply (incr_le _ x in_p); [done|lia|lia]|apply X3].
    + cbn [words_use]. rewrite (proj2 (Z.eqb_neq x 0xFFFF)) by lia. split; [|done]. split; [lia|].
      specialize (X3 x). rewrite (peek_incr _ _ _ in_p), Z.eqb_refl in X3 by (done || lia). cbn [Z.b2z] in X3.
      pose proof (peek_lookup (literal_freqs f) x ltac:(lia)) as Hl. pose proof (proj1 (Forall_lookup _ _) F3 _ _ Hl). cbn beta in *. lia.
Qed.

Lemma words_use_mono (S S' D D' : Z -> Prop) ws : (forall s, S s -> S' s) -> (forall s, D s -> D' s) -> words_use S D ws -> words_use S' D' ws.
Proof.
  intros HS HD. induction ws as [ws IH] using (induction_ltof1 _ length). unfold ltof in IH. destruct ws as [|w ws]; cbn [words_use]; [done|].
  destruct (w =? 0xFFFF); [|intros [? ?]; split; [auto|]; by apply IH; [cbn; lia|]]. destruct ws as [|l [|d ws]]; [done|done|]. intros (? & ? & ?).
  split; [auto|]. split; [auto|]. by apply IH; [cbn; lia|].
Qed.

(** The frequencies of a whole block, the end of the block included. *)
Record block_freqs (block : list Z) (f : huffman_encode_freq_t) : Prop := {
  block_literals : length (literal_freqs f) = 288%nat;
  block_distances : length (distance_freqs f) = 30%nat;
  block_literal_range : Forall (fun x => 0 <= x <= 65535) (literal_freqs f);
  block_distance_range : Forall (fun x => 0 <= x <= 65535) (distance_freqs f);
  block_end : uses (literal_freqs f) 256;
  block_used (s : nat) : 0 < peek (literal_freqs f) (Z.of_nat s) -> Z.of_nat s ∈ block \/ 256 <= Z.of_nat s < 286;
}.

Lemma lz77_ok block : Forall is_byte block -> Z.of_nat (length block) <= 65535 ->
  exists words f, deflate_deflate_lz77 block = Some (words, f) /\ (forall o, expand words o = Some (o ++ block)) /\ block_freqs block f /\
    words_use (uses (literal_freqs f)) (uses (distance_freqs f)) words.
Proof.
  intros Hb Hlen. unfold deflate_deflate_lz77.
  destruct (lz77_loop_ok (S (length block)) block 0 ∅ (mk_freqs (replicate 288 0) (replicate 30 0) 0)) as (words & f & E & X1 & [F1 F2 F3 F4 F5] & X3 & X4 & X5);
    [done|done|lia|done| |lia|].
  { split; cbn [literal_freqs distance_freqs]; [done|done|apply Forall_replicate; lia|apply Forall_replicate; lia|]. intros s. unfold peek.
    destruct (replicate 288 0 !! Z.to_nat (Z.of_nat s)) as [x|] eqn:Ex; [|done]. apply lookup_replicate in Ex as [-> _]. done. }
  rewrite E. cbn [mbind option_bind]. eexists words, _. split; [done|]. cbn [literal_freqs distance_freqs].
  assert (forall s, 0 <= s -> peek (<[256%nat := 1]> (literal_freqs f)) s = if s =? 256 then 1 else peek (literal_freqs f) s) as Hpk.
  { intros s Hs. unfold peek. destruct (Z.eqb_spec s 256) as [->|]; [rewrite list_lookup_insert_eq by (rewrite F1; lia); done|rewrite list_lookup_insert_ne by lia; done]. }
  split; [|split; [split; cbn [literal_freqs distance_freqs]|]].
  - intros o. specialize (X1 o). cbn [Z.to_nat] in X1. by rewrite take_0, app_nil_r in X1.
  - by rewrite length_insert.
  - done.
  - apply Forall_insert; [|lia]. eapply Forall_impl; [exact F3|]. cbn beta. lia.
  - eapply Forall_impl; [exact F4|]. cbn beta. lia.
  - split; [lia|]. by rewrite Hpk.
  - intros s. rewrite Hpk by lia. destruct (Z.eqb_spec (Z.of_nat s) 256) as [->|]; [right; lia|]. intros H. destruct (F5 s H); [by left|right; lia].
  - eapply words_use_mono; [| |exact X5]; [|done]. intros s [Hs Hp]. split; [done|]. rewrite Hpk by done. destruct (s =? 256); [lia|done].
Qed.
