(* ===== verification/DeflateLevels.v ===== *)
(** * DEFLATE: lengths of codes

    The loop over the levels merges leaves and pairs: an item of a level is a
    leaf or a pair of items of the level below.  A row of the leaf counts says
    how many leaves of each level the items of a level hold. *)

From S2P Require Import Prelude Deflate DeflateEncode DeflateBits.

#[export] Instance level_inhabited : Inhabited huffman_bit_level_info_t := populate zero_level.
#[export] Instance symbol_freq_inhabited : Inhabited huffman_symbol_freq_t := populate (mk_symbol_freq 0 0).

(** ** Rows *)

(** The items of a level: its leaves, and a pair for two items of the level below. *)
Fixpoint items (r : nat -> Z) (l : nat) : Z := match l with O => 0 | S l => r (S l) + items r l / 2 end.

Record row_ok (r : nat -> Z) (l : nat) : Prop := {
  row_zero : r 0%nat = 0;
  row_mono i : (i < l)%nat -> r i <= r (S i);
  row_even i : (i < l)%nat -> items r i mod 2 = 0;
}.

Lemma items_ext r r' l : (forall i, (1 <= i <= l)%nat -> r i = r' i) -> items r l = items r' l.
Proof. induction l as [|l IH]; intros H; cbn [items]; [done|]. rewrite IH by (intros; apply H; lia). by rewrite H by lia. Qed.

Lemma row_ok_ext r r' l : (forall i, (i <= l)%nat -> r i = r' i) -> row_ok r l -> row_ok r' l.
Proof.
  intros H [H1 H2 H3]. split; [by rewrite <- H by lia| |]; intros i Hi; [rewrite <- !H by lia; by apply H2|].
  rewrite <- (items_ext r) by (intros; apply H; lia). by apply H3.
Qed.

Lemma row_ok_le r l k : (k <= l)%nat -> row_ok r l -> row_ok r k.
Proof. intros Hk [H1 H2 H3]. split; [done| |]; intros i Hi; [apply H2|apply H3]; lia. Qed.

Lemma row_nonneg r l : row_ok r l -> 0 <= r l.
Proof.
  induction l as [|l IH]; intros Hr; [by rewrite (row_zero _ _ Hr)|]. pose proof (row_mono _ _ Hr l ltac:(lia)).
  pose proof (IH (row_ok_le _ _ _ (Nat.le_succ_diag_r l) Hr)). lia.
Qed.

(** A level has at most twice as many items as leaves. *)
Lemma items_bound r l : row_ok r l -> 0 <= items r l <= 2 * r l.
Proof.
  induction l as [|l IH]; intros Hr; cbn [items]; [rewrite (row_zero _ _ Hr); lia|].
  pose proof (IH (row_ok_le _ _ _ (Nat.le_succ_diag_r l) Hr)). pose proof (row_mono _ _ Hr l ltac:(lia)). pose proof (row_nonneg _ _ Hr).
  assert (0 <= items r l / 2 <= r l) by (split; [apply Z.div_pos; lia|apply Z.div_le_upper_bound; lia]). lia.
Qed.

Lemma row_mono_le r l i j : row_ok r l -> (i <= j <= l)%nat -> r i <= r j.
Proof.
  intros Hr [Hij Hj]. induction Hij as [|j Hij IH]; [lia|]. pose proof (row_mono _ _ Hr j ltac:(lia)). specialize (IH ltac:(lia)). lia.
Qed.

(** With all the items that are needed, every leaf is in use. *)
Lemma items_all_leaves r l n : row_ok r l -> 3 <= n -> r l <= n -> items r l = 2 * n - 2 -> r l = n.
Proof.
  intros Hr Hn Hle Hi. destruct (Z.eq_dec (r l) n) as [|Hne]; [done|]. exfalso.
  assert (forall k, (k <= l)%nat -> 2 * n - 2 <= items r (l - k)) as Hall; [|specialize (Hall l (le_n l)); rewrite Nat.sub_diag in Hall; cbn in Hall; lia].
  induction k as [|k IH]; intros Hk; [rewrite Nat.sub_0_r; lia|]. specialize (IH ltac:(lia)). destruct (l - k)%nat as [|j] eqn:Ej; [lia|].
  replace (l - S k)%nat with j by lia. cbn [items] in IH. pose proof (row_mono_le r l (S j) l Hr ltac:(lia)). pose proof (row_even _ _ Hr j ltac:(lia)).
  pose proof (Z.div_mod (items r j) 2 ltac:(lia)). lia.
Qed.

(** ** What a level can hold at most: all the leaves, and all the pairs *)

Fixpoint capacity (n : Z) (l : nat) : Z := match l with O => 0 | S l => n + capacity n l / 2 end.

Lemma capacity_deficit n l : 0 < n -> 2 ^ Z.of_nat l * (2 * n - capacity n (S l) - 1) < n.
Proof.
  intros Hn. induction l as [|l IH]; [change (2 ^ Z.of_nat 0) with 1; change (capacity n 1) with (n + 0 / 2); rewrite Z.div_0_l by lia; lia|].
  rewrite Nat2Z.inj_succ, Z.pow_succ_r by lia. change (capacity n (S (S l))) with (n + capacity n (S l) / 2). set (c := capacity n (S l)) in *.
  pose proof (Z.pow_pos_nonneg 2 (Z.of_nat l)). assert (2 * (2 * n - (n + c / 2) - 1) <= 2 * n - c - 1) by (pose proof (Z.div_mod c 2); pose proof (Z.mod_pos_bound c 2); lia). nia.
Qed.

Lemma capacity_enough n l : 3 <= n <= 2 ^ Z.of_nat l -> 2 * n - 2 <= capacity n l.
Proof.
  intros Hn. destruct l as [|l]; [cbn in Hn; lia|]. pose proof (capacity_deficit n l ltac:(lia)). rewrite Nat2Z.inj_succ, Z.pow_succ_r in Hn by lia.
  pose proof (Z.pow_pos_nonneg 2 (Z.of_nat l)). nia.
Qed.

(** ** The state of the loop *)

Definition row (leaf_counts : list Z) (l i : nat) : Z := leaf_counts !!! HUFFMAN_LEAF_COUNT l i.

(** Frequencies of a level stay below this. *)
Definition freq_limit (l : nat) : Z := 65535 * 2 ^ Z.of_nat l.

Lemma freq_limit_S l : freq_limit (S l) = 2 * freq_limit l.
Proof. unfold freq_limit. rewrite Nat2Z.inj_succ, Z.pow_succ_r by lia. lia. Qed.

Lemma freq_limit_range l : (l <= 15)%nat -> 65535 <= freq_limit l < 2 ^ 31.
Proof.
  intros Hl. unfold freq_limit. pose proof (Z.pow_pos_nonneg 2 (Z.of_nat l)). assert (2 ^ Z.of_nat l <= 2 ^ 15) by (apply Z.pow_le_mono_r; lia). lia.
Qed.

Section Levels.
Context (sf : list huffman_symbol_freq_t) (n : Z) (max : nat).

Definition freq_at (i : Z) : Z := freq (sf !!! Z.to_nat i).

(** The symbols by frequency, and the end mark. *)
Record sorted_freqs : Prop := {
  sf_length : Z.of_nat (length sf) = n + 1;
  sf_count : 3 <= n <= 2 ^ Z.of_nat max;
  sf_max : (2 <= max <= 15)%nat;
  sf_range i : 0 <= i < n -> 1 <= freq_at i <= 65535;
  sf_mono i j : 0 <= i <= j -> j < n -> freq_at i <= freq_at j;
  sf_end : freq_at n = MAX_FREQ;
}.

Context (Hsf : sorted_freqs).

Record level_ok (l : nat) (I : huffman_bit_level_info_t) (r : nat -> Z) : Prop := {
  level_row : row_ok r l;
  level_leaves : 2 <= r l <= n;
  level_char : next_char_freq I = freq_at (r l);
  level_last : freq_at (r l - 1) <= last_freq I <= freq_limit l;
  level_last_char : last_freq I <= next_char_freq I;
  level_last_pair : last_freq I <= next_pair_freq I;
  level_pair : next_pair_freq I = MAX_FREQ \/ next_pair_freq I <= freq_limit l;
  level_first : l = 1%nat -> next_pair_freq I = MAX_FREQ;
  level_needed : 0 <= needed I /\ ((l < max)%nat -> needed I <= 2);
}.

(** Level [l] with [J] and [s], and the level above it with [I] and [r]. *)
Record link_ok (l : nat) (J : huffman_bit_level_info_t) (s : nat -> Z) (I : huffman_bit_level_info_t) (r : nat -> Z) : Prop := {
  link_pair : next_pair_freq I <> MAX_FREQ ->
    items s l + needed J = items r l + 2 /\ next_pair_freq I <= 2 * last_freq J /\ (needed J = 0 -> last_freq J < next_pair_freq I);
  link_done : next_pair_freq I = MAX_FREQ -> needed J = 0 /\ items s l = capacity n l /\ items r l = 2 * (capacity n l / 2);
}.

Record levels_ok (infos : list huffman_bit_level_info_t) (lc : list Z) (lvl : nat) : Prop := {
  lv_infos : length infos = 16%nat;
  lv_counts : length lc = 256%nat;
  lv_level l : (1 <= l <= max)%nat -> level_ok l (infos !!! l) (row lc l);
  lv_link l : (1 <= l < max)%nat -> link_ok l (infos !!! l) (row lc l) (infos !!! S l) (row lc (S l));
  lv_top : items (row lc max) max + needed (infos !!! max) = 2 * n - 2;
  lv_zero : needed (infos !!! 0%nat) = 0;
  lv_cursor : (1 <= lvl <= max)%nat;
  lv_below : needed (infos !!! pred lvl) = 0;
  lv_above l : (lvl <= l <= max)%nat -> 0 < needed (infos !!! l);
}.

Lemma last_pos l I r : level_ok l I r -> 1 <= last_freq I.
Proof using Hsf. intros [_ H2 _ H4 _ _ _ _ _]. pose proof (sf_range Hsf (r l - 1) ltac:(lia)). lia. Qed.

(** ** One item more *)

Definition took (J J' : huffman_bit_level_info_t) : Prop :=
  last_freq J <= last_freq J' /\ needed J' = needed J - 1 /\ next_pair_freq J' = next_pair_freq J.

Lemma take_leaf l I r r' : level_ok l I r -> (1 <= l)%nat -> next_char_freq I < next_pair_freq I -> 0 < needed I -> next_pair_freq I <= MAX_FREQ ->
  (forall i, (i < l)%nat -> r' i = r i) -> r' l = r l + 1 ->
  let I' := mk_level (level I) (next_char_freq I) (freq_at (r l + 1)) (next_pair_freq I) (needed I - 1) in
  r l + 1 <= n /\ level_ok l I' r' /\ took I I' /\ items r' l = items r l + 1.
Proof using Hsf.
  intros [H1 H2 H3 H4 H5 H6 H7 H8 H9] Hl Hlt Hn Hmax Hr Hrl. cbn zeta. pose proof (sf_end Hsf) as Hend.
  assert (r l < n) as Hrn by (destruct (decide (r l = n)) as [E|]; [rewrite E in H3; lia|lia]). split; [lia|].
  pose proof (sf_range Hsf (r l) ltac:(lia)) as Hf. destruct l as [|k]; [lia|].
  assert (forall i, (i < S k)%nat -> items r' i = items r i) as Hit by (intros i Hi; apply items_ext; intros; apply Hr; lia).
  split; [|split].
  - split; cbn [next_char_freq last_freq next_pair_freq needed]; [|lia|by rewrite Hrl| | |lia|done|done|lia].
    + destruct H1 as [R1 R2 R3]. split; [by rewrite Hr by lia| |].
      * intros i Hi. rewrite (Hr i Hi). specialize (R2 i Hi). destruct (decide (S i = S k)) as [E|]; [injection E as ->; lia|]. by rewrite Hr by lia.
      * intros i Hi. rewrite Hit by done. by apply R3.
    + rewrite Hrl. replace (r (S k) + 1 - 1) with (r (S k)) by lia. rewrite H3. assert (65535 <= freq_limit (S k)); [|lia].
      unfold freq_limit. pose proof (Z.pow_pos_nonneg 2 (Z.of_nat (S k))). lia.
    + rewrite H3. destruct (decide (r (S k) + 1 = n)) as [->|]; [rewrite Hend; unfold MAX_FREQ; lia|]. apply (sf_mono Hsf); lia.
  - unfold took. cbn. lia.
  - cbn [items]. rewrite Hit, Hrl by lia. lia.
Qed.

Lemma take_pair k I r J s r' : level_ok (S k) I r -> level_ok k J s -> link_ok k J s I r -> needed J = 0 -> 0 < needed I ->
  next_pair_freq I <> MAX_FREQ -> next_pair_freq I <= next_char_freq I ->
  (forall i, (i <= k)%nat -> r' i = s i) -> r' (S k) = r (S k) ->
  let I' := mk_level (level I) (next_pair_freq I) (next_char_freq I) (next_pair_freq I) (needed I - 1) in
  level_ok (S k) I' r' /\ took I I' /\ items r' (S k) = items r (S k) + 1 /\ items r' k = items s k /\ items s k = items r k + 2.
Proof using Hsf.
  intros HI HJ HL Hn HnI Hmax Hle Hr Hrl. cbn zeta. destruct (link_pair _ _ _ _ _ HL Hmax) as (L1 & L2 & L3). specialize (L3 Hn). rewrite Hn in L1.
  assert (items r' k = items s k) as Hk by (apply items_ext; intros; apply Hr; lia).
  assert (s k <= r (S k)) as Hsr.
  { destruct HI as [_ I2 I3 _ _ _ _ _ _]. destruct HJ as [_ J2 _ J4 _ _ _ _ _]. destruct (decide (r (S k) = n)) as [->|]; [lia|]. rewrite I3 in Hle.
    destruct (Z.le_gt_cases (s k) (r (S k))) as [|Hgt]; [done|]. pose proof (sf_mono Hsf (r (S k)) (s k - 1) ltac:(lia) ltac:(lia)). lia. }
  pose proof (level_row _ _ _ HI) as [R1 R2 R3]. pose proof (level_row _ _ _ HJ) as HRs. destruct HI as [_ I2 I3 I4 I5 I6 I7 I8 I9].
  split; [|split; [unfold took; cbn; lia|split; [|split; [done|lia]]]].
  - split; cbn [next_char_freq last_freq next_pair_freq needed]; [|lia|by rewrite Hrl| |done|lia|done|done|lia].
    + split; [rewrite Hr by lia; apply (row_zero _ _ HRs)| |].
      * intros i Hi. rewrite (Hr i) by lia. destruct (decide (i = k)) as [->|]; [lia|]. rewrite Hr by lia. apply (row_mono _ _ HRs). lia.
      * intros i Hi. destruct (decide (i = k)) as [->|]; [rewrite Hk; replace (items s k) with (items r k + 1 * 2) by lia; rewrite Z.mod_add by lia; by apply R3|].
        rewrite (items_ext r' s) by (intros; apply Hr; lia). apply (row_even _ _ HRs). lia.
    + rewrite Hrl. destruct I7; [done|]. lia.
  - cbn [items]. rewrite Hrl, Hk. replace (items s k) with (items r k + 1 * 2) by lia. rewrite Z.div_add by lia. lia.
Qed.

(** ** Between two items: level [lvl] has just got one, its last one had [prev] *)

Record link_mid (l : nat) (prev : Z) (J : huffman_bit_level_info_t) (s : nat -> Z) (I : huffman_bit_level_info_t) (r : nat -> Z) : Prop := {
  mid_pair : next_pair_freq I <> MAX_FREQ;
  mid_items : items s l + needed J = items r l + 2;
  mid_prev : next_pair_freq I <= 2 * prev;
  mid_last : 1 <= prev <= last_freq J;
}.

Record levels_mid (infos : list huffman_bit_level_info_t) (lc : list Z) (lvl : nat) (prev : Z) : Prop := {
  md_infos : length infos = 16%nat;
  md_counts : length lc = 256%nat;
  md_level l : (1 <= l <= max)%nat -> level_ok l (infos !!! l) (row lc l);
  md_link l : (1 <= l < max)%nat -> l <> lvl -> link_ok l (infos !!! l) (row lc l) (infos !!! S l) (row lc (S l));
  md_mid : (lvl < max)%nat -> link_mid lvl prev (infos !!! lvl) (row lc lvl) (infos !!! S lvl) (row lc (S lvl));
  md_top : items (row lc max) max + needed (infos !!! max) = 2 * n - 2;
  md_zero : needed (infos !!! 0%nat) = 0;
  md_cursor : (1 <= lvl <= max)%nat;
  md_above l : (lvl < l <= max)%nat -> 0 < needed (infos !!! l);
}.

Lemma link_took l J s I r J' s' : link_ok l J s I r -> took J J' -> items s' l = items s l + 1 -> 0 < needed J -> 1 <= last_freq J ->
  link_mid l (last_freq J) J' s' I r.
Proof.
  intros [L1 L2] (T1 & T2 & T3) Hi Hn Hl. destruct (decide (next_pair_freq I = MAX_FREQ)) as [E|E]; [specialize (L2 E); lia|].
  destruct (L1 E) as (H1 & H2 & H3). split; [done|lia|lia|lia].
Qed.

Lemma link_mid_ok l prev J s I r : link_mid l prev J s I r -> 0 < needed J -> link_ok l J s I r.
Proof. intros [M1 M2 M3 M4] Hn. split; [|done]. intros _. split; [done|]. lia. Qed.

Lemma link_mid_done l prev J s I r : link_mid l prev J s I r -> needed J = 0 -> (S l <= max)%nat -> level_ok l J s -> level_ok (S l) I r ->
  let I' := set_next_pair (u32 (prev + last_freq J)) I in link_ok l J s I' r /\ level_ok (S l) I' r /\ next_pair_freq I' <> MAX_FREQ.
Proof using Hsf.
  intros [M1 M2 M3 M4] Hn Hl HJ HI. cbn zeta. pose proof (sf_max Hsf). pose proof (freq_limit_range (S l) ltac:(lia)) as Hlim. rewrite freq_limit_S in Hlim.
  destruct (level_last _ _ _ HJ) as [_ HlJ].
  assert (u32 (prev + last_freq J) = prev + last_freq J) as -> by (unfold u32; apply Z.mod_small; lia).
  assert (prev + last_freq J <> MAX_FREQ) as Hne by (unfold MAX_FREQ; lia).
  split; [|split; [|done]].
  - split; cbn [set_next_pair next_pair_freq]; [|lia]. intros _. rewrite Hn in *. split; [done|]. lia.
  - destruct HI as [I1 I2 I3 I4 I5 I6 I7 I8 I9]. split; cbn [set_next_pair next_pair_freq next_char_freq last_freq needed]; [done|done|done|done|done|lia| | |done].
    + right. rewrite freq_limit_S. lia.
    + intros E. pose proof (level_leaves _ _ _ HJ). assert (l = 0%nat) as -> by lia. pose proof (row_zero _ _ (level_row _ _ _ HJ)). lia.
Qed.

(** The lowest level on the way down that needs no item. *)
Lemma descend_ok infos l : length infos = 16%nat -> (1 <= l <= 15)%nat -> needed (infos !!! 0%nat) = 0 ->
  exists l', descend infos l = Some l' /\ (1 <= l' <= l)%nat /\ needed (infos !!! pred l') <= 0 /\ forall k, (l' <= k < l)%nat -> 0 < needed (infos !!! k).
Proof.
  intros Hlen Hl H0. induction l as [|l IH]; [lia|]. cbn [descend]. rewrite (list_lookup_lookup_total_lt infos l) by lia. cbn [mbind option_bind].
  destruct (Z.ltb_spec 0 (needed (infos !!! l))) as [Hn|Hn].
  - destruct l as [|l]; [lia|]. destruct IH as (l' & E & H1 & H2 & H3); [lia|]. exists l'. split; [done|]. split; [lia|]. split; [done|]. intros k Hk.
    destruct (decide (k = S l)) as [->|]; [done|]. apply H3. lia.
  - exists (S l). split; [done|]. split; [lia|]. split; [done|]. intros. lia.
Qed.

Lemma mid_descend infos lc lvl prev : levels_mid infos lc lvl prev -> 0 < needed (infos !!! lvl) ->
  exists lvl', descend infos lvl = Some lvl' /\ levels_ok infos lc lvl'.
Proof using Hsf.
  intros [M1 M2 M3 M4 M5 M6 M7 M8 M9] Hn. pose proof (sf_max Hsf) as Hmax. destruct (descend_ok infos lvl) as (l' & E & D1 & D2 & D3); [done|lia|done|].
  exists l'. split; [done|]. split; [done|done|done| |done|done|lia| |].
  - intros l Hl. destruct (decide (l = lvl)) as [->|]; [|by apply M4]. apply (link_mid_ok _ prev); [apply M5; lia|done].
  - destruct (decide (l' = 1)%nat) as [->|]; [done|]. pose proof (proj1 (level_needed _ _ _ (M3 (pred l') ltac:(lia)))). lia.
  - intros l Hl. destruct (decide (l < lvl)%nat); [apply D3; lia|]. destruct (decide (l = lvl)) as [->|]; [done|]. apply M9. lia.
Qed.

Lemma link_ok_ext l J s I r J' s' I' r' : link_ok l J s I r -> needed J' = needed J -> last_freq J' = last_freq J -> next_pair_freq I' = next_pair_freq I ->
  items s' l = items s l -> items r' l = items r l -> link_ok l J' s' I' r'.
Proof. intros [L1 L2] E0 E1 E2 E3 E4. by split; rewrite E0, ?E1, E2, E3, E4. Qed.

Lemma update_info (infos : list huffman_bit_level_info_t) l f : length infos = 16%nat -> (l <= 15)%nat -> update infos l f = Some (<[l := f (infos !!! l)]> infos).
Proof. intros Hlen Hl. unfold update. by rewrite (list_lookup_lookup_total_lt infos l) by lia. Qed.

(** The level is complete: the level above has a new pair. *)
Lemma mid_done infos lc lvl prev : levels_mid infos lc lvl prev -> needed (infos !!! lvl) = 0 -> (lvl < max)%nat ->
  let I := set_next_pair (u32 (prev + last_freq (infos !!! lvl))) (infos !!! S lvl) in
  levels_ok (<[S lvl := I]> infos) lc (S lvl) /\ next_pair_freq (infos !!! S lvl) <> MAX_FREQ /\ next_pair_freq I <> MAX_FREQ.
Proof using Hsf.
  intros [M1 M2 M3 M4 M5 M6 M7 M8 M9] Hn Hlt. cbn zeta. pose proof (sf_max Hsf) as Hmax.
  destruct (link_mid_done lvl prev _ _ _ _ (M5 Hlt) Hn Hlt (M3 lvl ltac:(lia)) (M3 (S lvl) ltac:(lia))) as (D1 & D2 & D3). cbn zeta in *.
  set (I := set_next_pair _ _) in *. pose proof (mid_pair _ _ _ _ _ _ (M5 Hlt)) as Hp. split; [|done].
  assert (<[S lvl := I]> infos !!! S lvl = I) as HeqI by (apply list_lookup_total_insert_eq; lia).
  assert (forall l, l <> S lvl -> <[S lvl := I]> infos !!! l = infos !!! l) as HneI by (intros l Hl; apply list_lookup_total_insert_ne; lia).
  assert (forall l, needed (<[S lvl := I]> infos !!! l) = needed (infos !!! l)) as Hneed.
  { intros l. destruct (decide (l = S lvl)) as [->|]; [by rewrite HeqI|by rewrite HneI]. }
  split; [by rewrite length_insert|done| | |by rewrite Hneed|by rewrite Hneed|lia|by rewrite Hneed|].
  - intros l Hl. destruct (decide (l = S lvl)) as [->|]; [by rewrite HeqI|]. rewrite HneI by done. by apply M3.
  - intros l Hl. destruct (decide (l = lvl)) as [->|Hne]; [by rewrite HeqI, HneI by lia|]. rewrite (HneI (S l)) by lia.
    eapply link_ok_ext; [by apply M4|apply Hneed| |done|done|done]. destruct (decide (l = S lvl)) as [->|]; [by rewrite HeqI|by rewrite HneI].
  - intros l Hl. rewrite Hneed. apply M9. lia.
Qed.

(** The end: all the leaves are in use. *)
Lemma mid_end infos lc prev : levels_mid infos lc max prev -> needed (infos !!! max) = 0 ->
  row_ok (row lc max) max /\ items (row lc max) max = 2 * n - 2 /\ row lc max max = n.
Proof using Hsf.
  intros [M1 M2 M3 M4 M5 M6 M7 M8 M9] Hn. specialize (M3 max ltac:(lia)). pose proof (level_row _ _ _ M3) as Hr. pose proof (level_leaves _ _ _ M3) as Hl. pose proof (sf_count Hsf).
  assert (items (row lc max) max = 2 * n - 2) as Hi by lia. split; [done|]. split; [done|]. eapply items_all_leaves; [done|lia|lia|done].
Qed.

(** No leaves and no pairs are left for the level. *)
Lemma exhausted infos lc lvl : levels_ok infos lc lvl -> next_pair_freq (infos !!! lvl) = MAX_FREQ -> next_char_freq (infos !!! lvl) = MAX_FREQ ->
  items (row lc lvl) lvl = capacity n lvl.
Proof using Hsf.
  intros [L1 L2 L3 L4 L5 L6 L7 L8 L9] Hp Hc. pose proof (L3 lvl ltac:(lia)) as HI. pose proof (level_leaves _ _ _ HI). rewrite (level_char _ _ _ HI) in Hc.
  assert (row lc lvl lvl = n) as Hn.
  { destruct (decide (row lc lvl lvl = n)) as [|]; [done|]. pose proof (sf_range Hsf (row lc lvl lvl) ltac:(lia)). unfold MAX_FREQ in Hc. lia. }
  destruct lvl as [|[|k]]; [lia| |].
  - cbn [items capacity]. by rewrite Hn.
  - cbn [items capacity] in *. rewrite Hn. destruct (link_done _ _ _ _ _ (L4 (S k) ltac:(lia)) Hp) as (_ & _ & E). cbn [items capacity] in E. rewrite E.
    rewrite (Z.mul_comm 2), Z.div_mul by lia. done.
Qed.

Lemma exhaust_ok infos lc lvl : levels_ok infos lc lvl -> next_pair_freq (infos !!! lvl) = MAX_FREQ -> next_char_freq (infos !!! lvl) = MAX_FREQ ->
  let J := set_needed 0 (infos !!! lvl) in let I := set_next_pair MAX_FREQ (infos !!! S lvl) in
  (lvl < max)%nat /\ levels_ok (<[S lvl := I]> (<[lvl := J]> infos)) lc (S lvl) /\ next_pair_freq (infos !!! S lvl) <> MAX_FREQ.
Proof using Hsf.
  intros HL Hp Hc. pose proof (exhausted _ _ _ HL Hp Hc) as Hcap. destruct HL as [L1 L2 L3 L4 L5 L6 L7 L8 L9]. cbn zeta. pose proof (sf_max Hsf) as Hmax. pose proof (sf_count Hsf) as Hcnt.
  pose proof (L9 lvl ltac:(lia)) as Hn. assert (lvl < max)%nat as Hlt.
  { destruct (decide (lvl = max)) as [->|]; [|lia]. pose proof (capacity_enough n max Hcnt). lia. }
  split; [done|]. set (J := set_needed 0 _). set (I := set_next_pair _ _). set (infos' := <[S lvl := I]> _).
  assert (infos' !!! S lvl = I) as HI by (apply list_lookup_total_insert_eq; rewrite length_insert; lia).
  assert (infos' !!! lvl = J) as HJ by (unfold infos'; rewrite list_lookup_total_insert_ne by lia; apply list_lookup_total_insert_eq; lia).
  assert (forall l, l <> S lvl -> l <> lvl -> infos' !!! l = infos !!! l) as Hne by (intros l H1 H2; unfold infos'; by rewrite !list_lookup_total_insert_ne by done).
  pose proof (L4 lvl ltac:(lia)) as Hlk. destruct (decide (next_pair_freq (infos !!! S lvl) = MAX_FREQ)) as [E|E]; [pose proof (link_done _ _ _ _ _ Hlk E); lia|]. split; [|done].
  destruct (link_pair _ _ _ _ _ Hlk E) as (K1 & _ & _). pose proof (level_needed _ _ _ (L3 lvl ltac:(lia))) as [_ Hn2]. specialize (Hn2 Hlt).
  pose proof (row_even _ _ (level_row _ _ _ (L3 (S lvl) ltac:(lia))) lvl ltac:(lia)) as Hev.
  assert (forall l, l <> lvl -> needed (infos' !!! l) = needed (infos !!! l)) as Hneed.
  { intros l Hl. destruct (decide (l = S lvl)) as [->|]; [by rewrite HI|by rewrite Hne]. }
  split; [by unfold infos'; rewrite !length_insert|done| | |by rewrite Hneed by lia|by rewrite Hneed by lia|lia|cbn [pred]; by rewrite HJ|].
  - intros l Hl. destruct (decide (l = S lvl)) as [->|]; [|destruct (decide (l = lvl)) as [->|]].
    + rewrite HI. destruct (L3 (S lvl) ltac:(lia)) as [I1 I2 I3 I4 I5 I6 I7 I8 I9]. split; cbn [I set_next_pair next_pair_freq next_char_freq last_freq needed]; [done..| |by left|done|done].
      pose proof (freq_limit_range (S lvl) ltac:(lia)). unfold MAX_FREQ. lia.
    + rewrite HJ. destruct (L3 lvl ltac:(lia)) as [I1 I2 I3 I4 I5 I6 I7 I8 I9]. split; cbn [J set_needed next_pair_freq next_char_freq last_freq needed]; [done..|lia].
    + rewrite Hne by done. by apply L3.
  - intros l Hl. destruct (decide (l = lvl)) as [->|].
    + rewrite HI, HJ. split; [done|]. intros _. split; [done|]. split; [done|]. rewrite <- Hcap. pose proof (Z.div_mod (items (row lc lvl) lvl) 2 ltac:(lia)). pose proof (Z.mod_pos_bound (items (row lc lvl) lvl) 2 ltac:(lia)).
      pose proof (Z.div_mod (items (row lc (S lvl)) lvl) 2 ltac:(lia)). lia.
    + eapply link_ok_ext; [by apply L4|by apply Hneed| | |done|done].
      * destruct (decide (l = S lvl)) as [->|]; [by rewrite HI|by rewrite Hne].
      * destruct (decide (S l = lvl)) as [->|]; [by rewrite HJ|]. by rewrite Hne by lia.
  - intros l Hl. rewrite Hneed by lia. apply L9. lia.
Qed.

(** ** One item more in the arrays *)

Lemma level_ok_ext l I r r' : (forall i, (i <= l)%nat -> r' i = r i) -> level_ok l I r -> level_ok l I r'.
Proof. intros H [H1 H2 H3 H4 H5 H6 H7 H8 H9]. split; rewrite ?H by lia; try done. eapply row_ok_ext; [|done]. intros. by rewrite H. Qed.

Lemma took_mid infos lc lvl infos' lc' : levels_ok infos lc lvl -> length infos' = 16%nat -> length lc' = 256%nat ->
  (forall l i, (l <= max)%nat -> (i <= l)%nat -> l <> lvl -> row lc' l i = row lc l i) ->
  (forall l, l <> lvl -> l <> pred lvl -> infos' !!! l = infos !!! l) ->
  took (infos !!! lvl) (infos' !!! lvl) -> items (row lc' lvl) lvl = items (row lc lvl) lvl + 1 -> level_ok lvl (infos' !!! lvl) (row lc' lvl) ->
  (forall k, lvl = S k -> (1 <= k)%nat -> level_ok k (infos' !!! k) (row lc k) /\ next_pair_freq (infos' !!! k) = next_pair_freq (infos !!! k) /\
    link_ok k (infos' !!! k) (row lc k) (infos' !!! lvl) (row lc' lvl)) ->
  needed (infos' !!! 0%nat) = 0 -> levels_mid infos' lc' lvl (last_freq (infos !!! lvl)).
Proof using Hsf.
  intros [L1 L2 L3 L4 L5 L6 L7 L8 L9] Hlen1 Hlen2 Hrow Hinf Htook Hitems Hlvl Hbelow H0. pose proof (sf_max Hsf) as Hmax. pose proof (L9 lvl ltac:(lia)) as Hn.
  assert (forall l k, (l <= max)%nat -> (k <= l)%nat -> l <> lvl -> items (row lc' l) k = items (row lc l) k) as Hit by (intros l k Hl Hk Hne; apply items_ext; intros; apply Hrow; lia).
  split; [done|done| | | | |done|lia|].
  - intros l Hl. destruct (decide (l = lvl)) as [->|Hne]; [done|]. apply (level_ok_ext _ _ (row lc l)); [intros; apply Hrow; lia|].
    destruct (decide (lvl = S l)) as [E|]; [apply (Hbelow l E); lia|]. rewrite Hinf by lia. by apply L3.
  - intros l Hl Hne. destruct (decide (lvl = S l)) as [E|Hne2].
    + destruct (Hbelow l E) as (_ & _ & B3); [lia|]. subst lvl. eapply link_ok_ext; [exact B3|done|done|done|apply Hit; lia|done].
    + rewrite (Hinf l) by lia. eapply link_ok_ext; [by apply L4|done|done| |apply Hit; lia|apply Hit; lia].
      destruct (decide (lvl = S (S l))) as [E|]; [destruct (Hbelow (S l) E) as (_ & B2 & _); [lia|done]|by rewrite Hinf by lia].
  - intros Hlt. rewrite (Hinf (S lvl)) by lia. pose proof (link_took lvl _ _ _ _ _ _ (L4 lvl ltac:(lia)) Htook Hitems Hn (last_pos _ _ _ (L3 lvl ltac:(lia)))) as [K1 K2 K3 K4].
    split; [done| |done|done]. by rewrite (Hit (S lvl)) by lia.
  - destruct (decide (max = lvl)) as [->|]; [destruct Htook as (_ & T2 & _); lia|]. rewrite Hit, Hinf by lia. done.
  - intros l Hl. rewrite Hinf by lia. apply L9. lia.
Qed.

Lemma row_insert lc l i x l' i' : (i <= 15)%nat -> (i' <= 15)%nat -> length lc = 256%nat -> (l <= 15)%nat ->
  row (<[HUFFMAN_LEAF_COUNT l i := x]> lc) l' i' = if bool_decide (l' = l /\ i' = i) then x else row lc l' i'.
Proof.
  intros Hi Hi' Hlen Hl. unfold row, HUFFMAN_LEAF_COUNT, DEFLATE_MAX_BITS_LIMIT. case_bool_decide as E.
  - destruct E as [-> ->]. apply list_lookup_total_insert_eq. lia.
  - apply list_lookup_total_insert_ne. lia.
Qed.

Lemma copy_row_ok m lvl lc : length lc = 256%nat -> (1 <= lvl <= 15)%nat -> (m <= lvl)%nat ->
  exists lc', copy_row m lvl lc = Some lc' /\ length lc' = 256%nat /\
    forall l i, (l <= 15)%nat -> (i <= 15)%nat -> row lc' l i = if bool_decide (l = lvl /\ (i < m)%nat) then row lc (pred lvl) i else row lc l i.
Proof.
  intros Hlen Hlvl. induction m as [|m IH]; intros Hm; cbn [copy_row].
  { exists lc. split; [done|]. split; [done|]. intros l i _ _. by rewrite bool_decide_false by lia. }
  destruct (IH ltac:(lia)) as (lc1 & E1 & Hlen1 & Hrow1). rewrite E1. cbn [mbind option_bind].
  assert (lc1 !! HUFFMAN_LEAF_COUNT (pred lvl) m = Some (row lc (pred lvl) m)) as ->.
  { specialize (Hrow1 (pred lvl) m ltac:(lia) ltac:(lia)). rewrite bool_decide_false in Hrow1 by lia. rewrite <- Hrow1. apply list_lookup_lookup_total_lt.
    unfold HUFFMAN_LEAF_COUNT, DEFLATE_MAX_BITS_LIMIT. lia. }
  cbn [mbind option_bind]. unfold put. rewrite bool_decide_true by (unfold HUFFMAN_LEAF_COUNT, DEFLATE_MAX_BITS_LIMIT; lia).
  eexists. split; [done|]. split; [by rewrite length_insert|]. intros l i Hl Hi. rewrite row_insert by lia. rewrite Hrow1 by lia.
  repeat case_bool_decide; try done; try lia. destruct H as [-> ->]. done.
Qed.

Lemma leaf_ok infos lc lvl : levels_ok infos lc lvl -> let I := infos !!! lvl in next_char_freq I < next_pair_freq I ->
  let k := row lc lvl lvl + 1 in let I' := mk_level (level I) (next_char_freq I) (freq_at k) (next_pair_freq I) (needed I - 1) in
  let lc' := <[HUFFMAN_LEAF_COUNT lvl lvl := k]> lc in
  0 <= k <= n /\ levels_mid (<[lvl := I']> infos) lc' lvl (last_freq I) /\ items (row lc' lvl) lvl = items (row lc lvl) lvl + 1 /\
  forall l, (l <= max)%nat -> l <> lvl -> items (row lc' l) l = items (row lc l) l.
Proof using Hsf.
  intros HL I Hlt k I' lc'. pose proof HL as [L1 L2 L3 L4 L5 L6 L7 L8 L9]. pose proof (sf_max Hsf) as Hmax. pose proof (L3 lvl ltac:(lia)) as HI. fold I in HI.
  assert (forall l i, (l <= max)%nat -> (i <= l)%nat -> row lc' l i = if bool_decide (l = lvl /\ i = lvl) then k else row lc l i) as Hrow by (intros; apply row_insert; lia).
  destruct (take_leaf lvl I (row lc lvl) (row lc' lvl)) as (T1 & T2 & T3 & T4); [done|lia|done|by apply L9; lia| | | |].
  { destruct (level_pair _ _ _ HI) as [->|Hp]; [done|]. pose proof (freq_limit_range lvl ltac:(lia)). unfold MAX_FREQ. lia. }
  { intros i Hi. rewrite Hrow by lia. by rewrite bool_decide_false by lia. }
  { rewrite Hrow by lia. by rewrite bool_decide_true by done. }
  pose proof (level_leaves _ _ _ HI). split; [lia|]. assert (<[lvl := I']> infos !!! lvl = I') as HI' by (apply list_lookup_total_insert_eq; lia).
  assert (forall l, l <> lvl -> <[lvl := I']> infos !!! l = infos !!! l) as Hne by (intros; by apply list_lookup_total_insert_ne).
  split; [|split; [done|]].
  - apply took_mid with lc; [done|by rewrite length_insert|by unfold lc'; rewrite length_insert| |by intros; apply Hne|by rewrite HI'|done|by rewrite HI'| |].
    + intros l i Hl Hi Hl'. rewrite Hrow by lia. by rewrite bool_decide_false by lia.
    + intros j -> Hj. rewrite HI', Hne by lia. split; [apply L3; lia|]. split; [done|]. eapply link_ok_ext; [apply L4; lia|done|done|done|done|].
      apply items_ext. intros i Hi. rewrite Hrow by lia. by rewrite bool_decide_false by lia.
    + by rewrite Hne by lia.
  - intros l Hl Hl'. apply items_ext. intros i Hi. rewrite Hrow by lia. by rewrite bool_decide_false by lia.
Qed.

Lemma pair_ok infos lc lvl : levels_ok infos lc lvl -> let I := infos !!! lvl in next_pair_freq I <= next_char_freq I -> next_pair_freq I <> MAX_FREQ ->
  let I' := mk_level (level I) (next_pair_freq I) (next_char_freq I) (next_pair_freq I) (needed I - 1) in
  exists lc', copy_row lvl lvl lc = Some lc' /\
    levels_mid (<[lvl := I']> (<[pred lvl := set_needed 2 (infos !!! pred lvl)]> infos)) lc' lvl (last_freq I) /\
    items (row lc' lvl) lvl = items (row lc lvl) lvl + 1 /\ forall l, (l <= max)%nat -> l <> lvl -> items (row lc' l) l = items (row lc l) l.
Proof using Hsf.
  intros HL I Hle Hmx I'. pose proof HL as [L1 L2 L3 L4 L5 L6 L7 L8 L9]. pose proof (sf_max Hsf) as Hmax. pose proof (L3 lvl ltac:(lia)) as HI. fold I in HI.
  destruct (copy_row_ok lvl lvl lc) as (lc' & Ec & Hlen' & Hrow); [done|lia|lia|]. exists lc'. split; [done|].
  destruct lvl as [|[|k]]; [lia|by pose proof (level_first _ _ _ HI eq_refl)|]. cbn [pred] in *. set (J := infos !!! S k) in *. set (infos' := <[S (S k) := I']> _).
  pose proof (L3 (S k) ltac:(lia)) as HJ. pose proof (L4 (S k) ltac:(lia)) as HL'. fold J in HJ, HL', L8. fold I in HL'.
  destruct (take_pair (S k) I (row lc (S (S k))) J (row lc (S k)) (row lc' (S (S k)))) as (T1 & T2 & T3 & T4 & T5); [done|done|done|done|by apply L9; lia|done|done| | |].
  { intros i Hi. rewrite Hrow by lia. by rewrite bool_decide_true by lia. }
  { rewrite Hrow by lia. by rewrite bool_decide_false by lia. }
  fold I' in T1, T2.
  assert (infos' !!! S (S k) = I') as HI' by (apply list_lookup_total_insert_eq; rewrite length_insert; lia).
  assert (infos' !!! S k = set_needed 2 J) as HJ' by (unfold infos'; rewrite list_lookup_total_insert_ne by lia; apply list_lookup_total_insert_eq; lia).
  assert (forall l, l <> S k -> l <> S (S k) -> infos' !!! l = infos !!! l) as Hne by (intros l H1 H2; unfold infos'; by rewrite !list_lookup_total_insert_ne by lia).
  split; [|split; [done|]].
  - apply took_mid with lc; [done|by unfold infos'; rewrite !length_insert|done| |by intros; apply Hne|by rewrite HI'|done|by rewrite HI'| |].
    + intros l i Hl Hi Hl'. rewrite Hrow by lia. by rewrite bool_decide_false by lia.
    + intros j [= <-] _. rewrite HI', HJ'. split; [|split; [done|]].
      * destruct HJ as [J1 J2 J3 J4 J5 J6 J7 J8 J9]. split; cbn [set_needed next_pair_freq next_char_freq last_freq needed]; [done..|lia].
      * destruct (link_pair _ _ _ _ _ HL' Hmx) as (K1 & K2 & _). split; [|done]. intros _. cbn [set_needed needed last_freq I' next_pair_freq]. split; [lia|]. split; [done|]. lia.
    + by rewrite Hne by lia.
  - intros l Hl Hl'. apply items_ext. intros i Hi. rewrite Hrow by lia. by rewrite bool_decide_false by lia.
Qed.

(** ** Termination *)

Fixpoint total (g : nat -> Z) (k : nat) : Z := match k with O => 0 | S k => total g k + g (S k) end.

Lemma total_le g g' k : (forall l, (1 <= l <= k)%nat -> g' l <= g l) -> total g' k <= total g k.
Proof. induction k as [|k IH]; intros H; cbn [total]; [lia|]. pose proof (H (S k) ltac:(lia)). specialize (IH ltac:(intros; apply H; lia)). lia. Qed.

Lemma total_lt g g' k l0 : (1 <= l0 <= k)%nat -> (forall l, (1 <= l <= k)%nat -> l <> l0 -> g' l <= g l) -> g' l0 <= g l0 - 1 -> total g' k <= total g k - 1.
Proof.
  induction k as [|k IH]; intros Hk H H0; [lia|]. cbn [total]. destruct (decide (l0 = S k)) as [->|Hne].
  - pose proof (total_le g g' k ltac:(intros; apply H; lia)). lia.
  - pose proof (H (S k) ltac:(lia) ltac:(done)). specialize (IH ltac:(lia) ltac:(intros; apply H; lia) H0). lia.
Qed.

Lemma total_const g c k : (forall l, (1 <= l <= k)%nat -> g l <= c) -> total g k <= c * Z.of_nat k.
Proof. induction k as [|k IH]; intros H; cbn [total]; [lia|]. pose proof (H (S k) ltac:(lia)). specialize (IH ltac:(intros; apply H; lia)). lia. Qed.

Lemma total_nonneg g k : (forall l, (1 <= l <= k)%nat -> 0 <= g l) -> 0 <= total g k.
Proof. induction k as [|k IH]; intros H; cbn [total]; [lia|]. pose proof (H (S k) ltac:(lia)). specialize (IH ltac:(intros; apply H; lia)). lia. Qed.

(** The items a level may still get, and whether it may get pairs. *)
Definition left_over (infos : list huffman_bit_level_info_t) (lc : list Z) (l : nat) : Z :=
  2 * n - items (row lc l) l + Z.b2z (negb (next_pair_freq (infos !!! l) =? MAX_FREQ)).

Definition measure (infos : list huffman_bit_level_info_t) (lc : list Z) : Z := total (left_over infos lc) max.

Lemma left_over_nonneg infos lc l : level_ok l (infos !!! l) (row lc l) -> 0 <= left_over infos lc l.
Proof. intros H. pose proof (items_bound _ _ (level_row _ _ _ H)). pose proof (level_leaves _ _ _ H). unfold left_over. destruct (negb _); cbn [Z.b2z]; lia. Qed.

Lemma measure_nonneg infos lc lvl : levels_ok infos lc lvl -> 0 <= measure infos lc.
Proof. intros HL. apply total_nonneg. intros l Hl. by apply left_over_nonneg, (lv_level _ _ _ HL). Qed.

Lemma mid_measure infos lc infos' lc' lvl : (1 <= lvl <= max)%nat -> (forall l, next_pair_freq (infos' !!! l) = next_pair_freq (infos !!! l)) ->
  items (row lc' lvl) lvl = items (row lc lvl) lvl + 1 -> (forall l, (l <= max)%nat -> l <> lvl -> items (row lc' l) l = items (row lc l) l) ->
  measure infos' lc' <= measure infos lc - 1.
Proof.
  intros Hl Hp Hi Hne. apply (total_lt _ _ _ lvl); [done| |]; [intros l Hl' Hl2|]; unfold left_over; rewrite Hp; [rewrite Hne by lia|rewrite Hi]; lia.
Qed.


(** ** The loop *)

Definition final_row (lc : list Z) : Prop := row_ok (row lc max) max /\ items (row lc max) max = 2 * n - 2 /\ row lc max max = n.

(** What follows an item. *)
Definition after_item (fuel : nat) (infos : list huffman_bit_level_info_t) (lc : list Z) (lvl : nat) (prev : Z) : option (list Z) :=
  let bli := infos !!! lvl in
  if needed bli =? 0 then
    if bool_decide (lvl = max) then Some lc else
    infos ← update infos (S lvl) (set_next_pair (u32 (prev + last_freq bli)));
    levels_loop fuel sf max infos lc (S lvl)
  else
    lvl ← descend infos lvl;
    levels_loop fuel sf max infos lc lvl.

Lemma levels_loop_leaf fuel infos lc lvl : levels_ok infos lc lvl -> let I := infos !!! lvl in next_char_freq I < next_pair_freq I ->
  let k := row lc lvl lvl + 1 in let I' := mk_level (level I) (next_char_freq I) (freq_at k) (next_pair_freq I) (needed I - 1) in
  levels_loop (S fuel) sf max infos lc lvl = after_item fuel (<[lvl := I']> infos) (<[HUFFMAN_LEAF_COUNT lvl lvl := k]> lc) lvl (last_freq I).
Proof using Hsf.
  intros HL I Hlt k I'. pose proof (leaf_ok infos lc lvl HL Hlt) as (Hk & _). destruct HL as [L1 L2 _ _ _ _ L7 _ _]. pose proof (sf_max Hsf) as Hmax. pose proof (sf_length Hsf) as Hsl.
  cbn [levels_loop]. rewrite (list_lookup_lookup_total_lt infos lvl) by lia. cbn [mbind option_bind]. fold I.
  replace ((next_pair_freq I =? MAX_FREQ) && (next_char_freq I =? MAX_FREQ)) with false by (destruct (Z.eqb_spec (next_pair_freq I) MAX_FREQ), (Z.eqb_spec (next_char_freq I) MAX_FREQ); (done || lia)).
  rewrite (proj2 (Z.ltb_lt _ _) Hlt).
  assert ((HUFFMAN_LEAF_COUNT lvl lvl < length lc)%nat) as Hix by (unfold HUFFMAN_LEAF_COUNT, DEFLATE_MAX_BITS_LIMIT; lia).
  rewrite (list_lookup_lookup_total_lt lc) by done. cbn [mbind option_bind]. fold (row lc lvl lvl). fold k. unfold put. rewrite (bool_decide_true (HUFFMAN_LEAF_COUNT lvl lvl < length lc)%nat) by done. cbn [mbind option_bind].
  rewrite (list_lookup_lookup_total_lt sf) by lia. cbn [mbind option_bind]. fold (freq_at k). rewrite (bool_decide_true (lvl < length infos)%nat) by lia. unfold after_item.
  rewrite list_lookup_total_insert_eq by lia. done.
Qed.

Lemma levels_loop_pair fuel infos lc lc' lvl : levels_ok infos lc lvl -> let I := infos !!! lvl in next_pair_freq I <= next_char_freq I -> next_pair_freq I <> MAX_FREQ ->
  let I' := mk_level (level I) (next_pair_freq I) (next_char_freq I) (next_pair_freq I) (needed I - 1) in
  copy_row lvl lvl lc = Some lc' ->
  levels_loop (S fuel) sf max infos lc lvl =
  after_item fuel (<[lvl := I']> (<[pred lvl := set_needed 2 (infos !!! pred lvl)]> infos)) lc' lvl (last_freq I).
Proof using Hsf.
  intros [L1 L2 _ _ _ _ L7 _ _] I Hle Hmx I' Hc. pose proof (sf_max Hsf) as Hmax. cbn [levels_loop]. rewrite (list_lookup_lookup_total_lt infos lvl) by lia. cbn [mbind option_bind]. fold I.
  rewrite (proj2 (Z.eqb_neq _ _) Hmx). cbn [andb]. rewrite (proj2 (Z.ltb_ge _ _) Hle), Hc. cbn [mbind option_bind]. rewrite update_info by lia. cbn [mbind option_bind].
  unfold put. rewrite length_insert, (bool_decide_true (lvl < length infos)%nat) by lia. cbn [mbind option_bind]. unfold after_item. rewrite list_lookup_total_insert_eq by (rewrite length_insert; lia). done.
Qed.

Lemma levels_loop_exhaust fuel infos lc lvl : levels_ok infos lc lvl -> (lvl < max)%nat -> next_pair_freq (infos !!! lvl) = MAX_FREQ -> next_char_freq (infos !!! lvl) = MAX_FREQ ->
  levels_loop (S fuel) sf max infos lc lvl =
  levels_loop fuel sf max (<[S lvl := set_next_pair MAX_FREQ (infos !!! S lvl)]> (<[lvl := set_needed 0 (infos !!! lvl)]> infos)) lc (S lvl).
Proof using Hsf.
  intros [L1 L2 _ _ _ _ L7 _ _] Hlt Hp Hc. pose proof (sf_max Hsf) as Hmax. cbn [levels_loop]. rewrite (list_lookup_lookup_total_lt infos lvl) by lia. cbn [mbind option_bind].
  rewrite Hp, Hc, Z.eqb_refl. cbn [andb]. rewrite update_info by lia. cbn [mbind option_bind]. rewrite update_info by (rewrite ?length_insert; lia). cbn [mbind option_bind].
  by rewrite list_lookup_total_insert_ne by lia.
Qed.

Lemma after_item_ok fuel infos lc lvl prev :
  (forall infos lc lvl, levels_ok infos lc lvl -> measure infos lc < Z.of_nat fuel -> exists lc', levels_loop fuel sf max infos lc lvl = Some lc' /\ final_row lc') ->
  levels_mid infos lc lvl prev -> measure infos lc < Z.of_nat fuel -> exists lc', after_item fuel infos lc lvl prev = Some lc' /\ final_row lc'.
Proof using Hsf.
  intros IH HM Hf. unfold after_item. pose proof (sf_max Hsf) as Hmax. destruct (Z.eqb_spec (needed (infos !!! lvl)) 0) as [E|E].
  - case_bool_decide as El; [subst lvl; exists lc; split; [done|by eapply mid_end]|]. pose proof (md_cursor _ _ _ _ HM). pose proof (md_infos _ _ _ _ HM) as Hlen.
    destruct (mid_done _ _ _ _ HM E ltac:(lia)) as (D1 & D2 & D3). rewrite update_info by lia. cbn [mbind option_bind]. apply IH; [done|].
    assert (measure (<[S lvl := set_next_pair (u32 (prev + last_freq (infos !!! lvl))) (infos !!! S lvl)]> infos) lc <= measure infos lc); [|lia].
    apply total_le. intros l Hl. unfold left_over. destruct (decide (l = S lvl)) as [->|]; [|by rewrite list_lookup_total_insert_ne by lia].
    rewrite list_lookup_total_insert_eq by lia. rewrite (proj2 (Z.eqb_neq _ _) D2), (proj2 (Z.eqb_neq _ _) D3). lia.
  - pose proof (level_needed _ _ _ (md_level _ _ _ _ HM lvl (md_cursor _ _ _ _ HM))) as [Hn _]. destruct (mid_descend _ _ _ _ HM ltac:(lia)) as (l' & Ed & Hok). rewrite Ed. cbn [mbind option_bind]. by apply IH.
Qed.

(** An item was taken: less is left over. *)
Ltac measured HM infos lc Hcur Hlen HI Hne :=
  match type of HM with levels_mid ?infos' ?lc' ?lvl _ =>
    cut (measure infos' lc' <= measure infos lc - 1); [lia|]; apply (mid_measure _ _ _ _ lvl Hcur); [|exact HI|exact Hne];
    let l := fresh in intros l; rewrite ?list_lookup_total_insert, ?length_insert, Hlen; repeat case_decide; naive_solver
  end.

Lemma levels_loop_ok fuel infos lc lvl : levels_ok infos lc lvl -> measure infos lc < Z.of_nat fuel ->
  exists lc', levels_loop fuel sf max infos lc lvl = Some lc' /\ final_row lc'.
Proof using Hsf.
  revert infos lc lvl. induction fuel as [|fuel IH]; intros infos lc lvl HL Hf; [pose proof (measure_nonneg _ _ _ HL); lia|].
  pose proof (sf_max Hsf) as Hmax. pose proof (lv_cursor _ _ _ HL) as Hcur. pose proof (lv_infos _ _ _ HL) as Hlen.
  destruct (decide (next_char_freq (infos !!! lvl) < next_pair_freq (infos !!! lvl))) as [Hlt|Hge].
  { rewrite levels_loop_leaf by done. destruct (leaf_ok _ _ _ HL Hlt) as (_ & HM & HI & Hne). eapply after_item_ok; [done|exact HM|].
    measured HM infos lc Hcur Hlen HI Hne. }
  destruct (decide (next_pair_freq (infos !!! lvl) = MAX_FREQ)) as [Hp|Hp].
  - pose proof (lv_level _ _ _ HL lvl Hcur) as HI. pose proof (level_leaves _ _ _ HI). pose proof (level_char _ _ _ HI) as Hchar.
    assert (next_char_freq (infos !!! lvl) = MAX_FREQ) as Hc.
    { destruct (decide (row lc lvl lvl = n)) as [E|]; [rewrite Hchar, E; apply (sf_end Hsf)|]. pose proof (sf_range Hsf (row lc lvl lvl) ltac:(lia)). rewrite Hp, Hchar in Hge. unfold MAX_FREQ in Hge. lia. }
    destruct (exhaust_ok _ _ _ HL Hp Hc) as (Hlt & HL' & Hne). rewrite levels_loop_exhaust by done. apply IH; [done|].
    assert (measure (<[S lvl := set_next_pair MAX_FREQ (infos !!! S lvl)]> (<[lvl := set_needed 0 (infos !!! lvl)]> infos)) lc <= measure infos lc - 1); [|lia].
    apply (total_lt _ _ _ (S lvl)); [lia| |].
    + intros l Hl Hl'. unfold left_over. rewrite list_lookup_total_insert_ne by lia. destruct (decide (l = lvl)) as [->|]; [by rewrite list_lookup_total_insert_eq by lia|by rewrite list_lookup_total_insert_ne by done].
    + unfold left_over. rewrite list_lookup_total_insert_eq by (rewrite length_insert; lia). cbn [set_next_pair next_pair_freq]. rewrite Z.eqb_refl, (proj2 (Z.eqb_neq _ _) Hne). cbn. lia.
  - destruct (pair_ok _ _ _ HL ltac:(lia) Hp) as (lc' & Ec & HM & HI & Hne). rewrite (levels_loop_pair _ _ _ lc') by (done || lia). eapply after_item_ok; [done|exact HM|].
    measured HM infos lc Hcur Hlen HI Hne.
Qed.

(** ** The start *)

Lemma init_leaf_counts_all : forallb (fun m => bool_decide (length (init_leaf_counts m) = 256%nat) && forallb (fun l => forallb (fun i =>
  row (init_leaf_counts m) l i =? (if bool_decide (1 <= l <= m /\ i = l)%nat then 2 else 0)) (seq 0 16)) (seq 0 16)) (seq 0 16) = true.
Proof. vm_compute. reflexivity. Qed.

Lemma init_row m : (m <= 15)%nat -> length (init_leaf_counts m) = 256%nat /\
  forall l i, (l <= 15)%nat -> (i <= 15)%nat -> row (init_leaf_counts m) l i = if bool_decide (1 <= l <= m /\ i = l)%nat then 2 else 0.
Proof.
  intros Hm. pose proof init_leaf_counts_all as H. rewrite forallb_forall in H. specialize (H m ltac:(apply in_seq; lia)). rewrite andb_true_iff, bool_decide_eq_true, forallb_forall in H.
  destruct H as [H1 H2]. split; [done|]. intros l i Hl Hi. specialize (H2 l ltac:(apply in_seq; lia)). rewrite forallb_forall in H2. apply Z.eqb_eq, H2, in_seq. lia.
Qed.

Definition start_info (l : nat) : huffman_bit_level_info_t :=
  mk_level (Z.of_nat l) (freq_at 1) (freq_at 2) (if bool_decide (l = 1%nat) then MAX_FREQ else freq_at 0 + freq_at 1) (if bool_decide (l = max) then 2 * n - 4 else 0).

Lemma init_infos_ok : exists infos, init_infos sf n max = Some infos /\ length infos = 16%nat /\ needed (infos !!! 0%nat) = 0 /\
  forall l, (1 <= l <= max)%nat -> infos !!! l = start_info l.
Proof using Hsf.
  pose proof (sf_max Hsf) as Hmax. pose proof (sf_length Hsf) as Hlen. pose proof (sf_count Hsf) as Hc. unfold init_infos.
  do 3 (rewrite (list_lookup_lookup_total_lt sf) by lia; cbn [mbind option_bind]).
  change (freq (sf !!! 0%nat)) with (freq_at 0). change (freq (sf !!! 1%nat)) with (freq_at 1). change (freq (sf !!! 2%nat)) with (freq_at 2).
  pose proof (sf_range Hsf 0 ltac:(lia)) as F0. pose proof (sf_range Hsf 1 ltac:(lia)) as F1. assert (u32 (freq_at 0 + freq_at 1) = freq_at 0 + freq_at 1) as -> by (unfold u32; apply Z.mod_small; lia).
  set (base := zero_level :: _). assert (length base = 16%nat) as Hb by (unfold base; cbn [length]; rewrite length_app, length_map, length_seq, length_replicate; lia).
  assert (forall l, (1 <= l <= max)%nat -> base !!! l = mk_level (Z.of_nat l) (freq_at 1) (freq_at 2) (freq_at 0 + freq_at 1) 0) as Hbl.
  { intros l Hl. apply list_lookup_total_correct. unfold base. destruct l as [|l]; [lia|]. rewrite lookup_cons. rewrite lookup_app_l by (rewrite length_map, length_seq; lia).
    rewrite list_lookup_fmap, lookup_seq_lt by lia. done. }
  rewrite update_info by (done || lia). cbn [mbind option_bind]. rewrite update_info by (rewrite ?length_insert; (done || lia)). rewrite (list_lookup_total_insert_ne base 1 max) by lia. rewrite !Hbl by lia.
  eexists. split; [done|]. split; [by rewrite !length_insert|]. split; [by rewrite !list_lookup_total_insert_ne by lia|].
  intros l Hl. unfold start_info. rewrite !list_lookup_total_insert, !length_insert, Hb. repeat case_decide; repeat case_bool_decide; try lia; subst; try done. by rewrite Hbl by lia.
Qed.

Lemma start_ok infos : length infos = 16%nat -> needed (infos !!! 0%nat) = 0 -> (forall l, (1 <= l <= max)%nat -> infos !!! l = start_info l) ->
  levels_ok infos (init_leaf_counts max) max.
Proof using Hsf.
  intros Hlen H0 Hinf. pose proof (sf_max Hsf) as Hmax. pose proof (sf_count Hsf) as Hc. destruct (init_row max ltac:(lia)) as [Hl256 Hrow]. set (lc := init_leaf_counts max) in *.
  pose proof (sf_range Hsf 0 ltac:(lia)) as F0. pose proof (sf_range Hsf 1 ltac:(lia)) as F1. pose proof (sf_mono Hsf 1 2 ltac:(lia) ltac:(lia)) as F12. pose proof (sf_mono Hsf 0 1 ltac:(lia) ltac:(lia)) as F01.
  assert (forall l, (1 <= l <= max)%nat -> row lc l l = 2) as Hd by (intros l Hl; rewrite Hrow by lia; by rewrite bool_decide_true by lia).
  assert (forall l i, (l <= max)%nat -> (i < l)%nat -> row lc l i = 0) as Hz by (intros l i Hl Hi; rewrite Hrow by lia; by rewrite bool_decide_false by lia).
  assert (forall l i, (l <= max)%nat -> (i < l)%nat -> items (row lc l) i = 0) as Hiz.
  { intros l i Hl. induction i as [|i IH]; intros Hi; [done|]. cbn [items]. rewrite Hz, IH by lia. done. }
  assert (forall l, (1 <= l <= max)%nat -> items (row lc l) l = 2) as Hid.
  { intros [|l] Hl; [lia|]. cbn [items]. rewrite Hd, Hiz by lia. done. }
  split; [done|done| | | |done|lia| |].
  - intros l Hl. pose proof (freq_limit_range l ltac:(lia)) as Hlim. rewrite Hinf by done. split; unfold start_info; cbn [next_char_freq last_freq next_pair_freq needed].
    + split; [by apply Hz; lia| |intros i Hi; by rewrite Hiz by lia]. intros i Hi. rewrite (Hz l i) by lia. destruct (decide (S i = l)) as [->|]; [rewrite Hd by lia; lia|rewrite Hz by lia; lia].
    + rewrite Hd by done. lia.
    + by rewrite Hd by done.
    + rewrite Hd by done. change (2 - 1) with 1. lia.
    + lia.
    + case_bool_decide; [unfold MAX_FREQ; lia|lia].
    + case_bool_decide as E; [by left|]. right. destruct l as [|l]; [lia|]. rewrite freq_limit_S. pose proof (freq_limit_range l ltac:(lia)). lia.
    + intros ->. done.
    + case_bool_decide; lia.
  - intros l Hl. rewrite !Hinf by lia. split; unfold start_info; cbn [next_char_freq last_freq next_pair_freq needed];
      rewrite (bool_decide_false (S l = 1%nat)), (bool_decide_false (l = max)) by lia; intros Hp; [rewrite Hid, Hiz by lia; lia|unfold MAX_FREQ in Hp; lia].
  - rewrite Hid, Hinf by lia. unfold start_info. cbn [needed]. rewrite bool_decide_true by done. lia.
  - destruct max as [|[|k]] eqn:Em; [lia|lia|]. cbn [pred]. rewrite Hinf by lia. unfold start_info. cbn [needed]. by rewrite bool_decide_false by lia.
  - intros l Hl. assert (l = max) as -> by lia. rewrite Hinf by lia. unfold start_info. cbn [needed]. rewrite bool_decide_true by done. lia.
Qed.

(** The loop ends, and all the leaves are in use. *)
Lemma levels_ok_end : exists infos lc, init_infos sf n max = Some infos /\ levels_loop (64 * length sf) sf max infos (init_leaf_counts max) max = Some lc /\ final_row lc.
Proof using Hsf.
  destruct init_infos_ok as (infos & E & H1 & H2 & H3). pose proof (start_ok infos H1 H2 H3) as HL. pose proof (sf_max Hsf) as Hmax. pose proof (sf_length Hsf) as Hlen. pose proof (sf_count Hsf).
  destruct (levels_loop_ok (64 * length sf) infos (init_leaf_counts max) max HL) as (lc & El & Hf).
  - assert (measure infos (init_leaf_counts max) <= (2 * n + 1) * Z.of_nat max); [|nia]. apply total_const. intros l Hl. unfold left_over.
    pose proof (items_bound _ _ (level_row _ _ _ (lv_level _ _ _ HL l Hl))). destruct (negb _); cbn [Z.b2z]; lia.
  - by exists infos, lc.
Qed.
End Levels.
