(* ===== verification/DeflateTable.v ===== *)
(** * DEFLATE: the codes of an encoding table are canonical *)

From S2P Require Import Prelude Quicksort Deflate DeflateEncode DeflateBits DeflateHuffman DeflateBlock DeflateMatch DeflateLevels.

(** ** Bits reversed *)

Lemma reverse_bits_ok v n : 0 <= v < 2 ^ Z.of_nat n -> (n <= 15)%nat -> u16 (reverse_bits v n) = num (msb_bits n v) /\ bits_of n (u16 (reverse_bits v n)) = msb_bits n v.
Proof.
  intros Hv Hn. unfold reverse_bits.
  set (go := fix go n bits result := match n with O => result | S n => go n (Z.shiftr bits 1) (i16 (Z.lor (i16 (Z.shiftl result 1)) (Z.land bits 1))) end).
  assert (forall k bits result j, 0 <= result < 2 ^ j -> 0 <= j -> j + Z.of_nat k <= 15 -> go k bits result = result * 2 ^ Z.of_nat k + num (msb_bits k bits)) as Hgo.
  { induction k as [|k IH]; intros bits result j Hr Hj Hjk; [cbn; lia|]. cbn [go]. fold go.
    assert (2 ^ (j + 1) = 2 * 2 ^ j) as Hp by (rewrite Z.pow_add_r by lia; lia). assert (2 ^ (j + 1) <= 2 ^ 15) by (apply Z.pow_le_mono_r; lia).
    assert (forall x, 0 <= x < 2 ^ 15 -> i16 x = x) as Hi by (intros x Hx; unfold i16; rewrite Z.mod_small by lia; destruct (Z.ltb_spec x (2 ^ 15)); lia).
    assert (Z.land bits 1 = Z.b2z (Z.odd bits)) as -> by (change 1 with (Z.ones 1); rewrite Z.land_ones by lia; change (2 ^ 1) with 2; rewrite Zmod_odd; by destruct (Z.odd bits)).
    rewrite Z.shiftl_mul_pow2 by lia. change (2 ^ 1) with 2. rewrite (Hi (result * 2)) by lia. replace (result * 2) with (Z.shiftl result 1) by (rewrite Z.shiftl_mul_pow2 by lia; lia). rewrite lor_shifted_bit.
    rewrite Hi by (destruct (Z.odd bits); cbn [Z.b2z]; lia). rewrite (IH _ _ (j + 1)) by (destruct (Z.odd bits); cbn [Z.b2z]; lia).
    unfold msb_bits. cbn [bits_of]. rewrite reverse_cons, num_app, length_reverse, length_bits_of. cbn [num]. rewrite Z.shiftr_div_pow2 by lia. change (2 ^ 1) with 2.
    rewrite Nat2Z.inj_succ, Z.pow_succ_r by lia. lia. }
  rewrite (Hgo n v 0 0) by lia. rewrite Z.mul_0_l, Z.add_0_l. pose proof (num_bound (msb_bits n v)) as Hb. assert (length (msb_bits n v) = n) as Hl by (unfold msb_bits; by rewrite length_reverse, length_bits_of).
  rewrite Hl in Hb. assert (2 ^ Z.of_nat n <= 2 ^ 15) by (apply Z.pow_le_mono_r; lia). assert (u16 (num (msb_bits n v)) = num (msb_bits n v)) as -> by (unfold u16; apply Z.mod_small; lia).
  split; [done|]. rewrite <- Hl at 1. apply bits_of_num.
Qed.

(** ** One symbol more *)

Lemma cnt_zero l lens : (forall s, lens !! s <> Some l) -> cnt l lens = 0.
Proof.
  induction lens as [|x lens IH]; intros H; cbn [cnt]; [done|]. rewrite IH by (intros s; apply (H (S s))). destruct (Z.eqb_spec x l) as [->|]; [by destruct (H 0%nat)|done].
Qed.

Lemma cnt_insert l lens s b : lens !! s = Some 0 -> 0 < l -> cnt l (<[s := b]> lens) = cnt l lens + Z.b2z (b =? l).
Proof.
  intros Hs Hl. rewrite insert_take_drop by (by eapply lookup_lt_Some). rewrite <- (take_drop_middle lens s 0 Hs) at 3. rewrite !cnt_app. cbn [cnt].
  rewrite (proj2 (Z.eqb_neq 0 l)) by lia. cbn [Z.b2z]. lia.
Qed.

Lemma cnt_take_insert l lens s b k : lens !! s = Some 0 -> 0 < l ->
  cnt l (take k (<[s := b]> lens)) = cnt l (take k lens) + (if bool_decide (s < k)%nat then Z.b2z (b =? l) else 0).
Proof.
  intros Hs Hl. case_bool_decide as E; [|rewrite take_insert_ge by lia; lia]. rewrite take_insert_lt by done. rewrite cnt_insert; [done| |done]. by rewrite lookup_take_lt.
Qed.

Section Codes.
Context (c : nat -> Z) (Hc : forall l, 0 <= c l).

(** The code of a symbol comes behind those of the symbols of its length before it. *)
Definition canonical (table : huffman_encode_table_t) : Prop :=
  forall s l, lengths table !! s = Some l -> 0 < l ->
  codes table !! s = Some (u16 (reverse_bits (first_code c (Z.to_nat l) + cnt l (take s (lengths table))) (Z.to_nat l))).

Definition table_ok (table : huffman_encode_table_t) : Prop := length (codes table) = 288%nat /\ length (lengths table) = 288%nat.

Definition symbol_nat (x : huffman_symbol_freq_t) : nat := Z.to_nat (symbol x).

Lemma assign_codes_ok xs code (b : nat) table : canonical table -> table_ok table -> (0 < b <= 15)%nat ->
  StronglySorted (fun x y => symbol_nat x < symbol_nat y)%nat xs -> Forall (fun x => lengths table !! symbol_nat x = Some 0) xs ->
  (forall s x, lengths table !! s = Some (Z.of_nat b) -> x ∈ xs -> (s < symbol_nat x)%nat) ->
  code = first_code c b + cnt (Z.of_nat b) (lengths table) -> code + Z.of_nat (length xs) <= 2 ^ Z.of_nat b ->
  exists table', assign_codes xs code b table = (code + Z.of_nat (length xs), table') /\ canonical table' /\ table_ok table' /\
    (forall s, lengths table' !! s = if bool_decide (s ∈ map symbol_nat xs) then Some (Z.of_nat b) else lengths table !! s) /\
    (forall l, 0 < l -> cnt l (lengths table') = cnt l (lengths table) + (if l =? Z.of_nat b then Z.of_nat (length xs) else 0)).
Proof using Hc.
  revert code table. induction xs as [|x xs IH]; intros code table Hcan Htab Hb Hsort Hz Hlt Hcode Hbound; cbn [assign_codes].
  { exists table. cbn [length]. split; [f_equal; lia|]. split; [done|]. split; [done|]. split; [by intros s|]. intros l Hl. destruct (l =? _); lia. }
  pose proof (first_code_nonneg c Hc b) as Hf0. pose proof (cnt_nonneg (Z.of_nat b) (lengths table)) as Hc0. assert (2 ^ Z.of_nat b <= 2 ^ 15) as H15 by (apply Z.pow_le_mono_r; lia). cbn [length] in Hbound.
  assert (u16 (code + 1) = code + 1) as -> by (unfold u16; apply Z.mod_small; lia). fold (symbol_nat x).
  apply StronglySorted_inv in Hsort as [Hsort Hx]. apply Forall_cons in Hz as [Hzx Hz]. set (s0 := symbol_nat x) in *. destruct Htab as [T1 T2]. rewrite Forall_forall in Hx, Hz.
  set (table1 := mk_encode_table _ _). pose proof (lookup_lt_Some _ _ _ Hzx) as Hs0.
  assert (forall s, lengths table1 !! s = if bool_decide (s = s0) then Some (Z.of_nat b) else lengths table !! s) as Hl1.
  { intros s. cbn. case_bool_decide as E; [subst s; by apply list_lookup_insert_eq|by apply list_lookup_insert_ne]. }
  assert (forall l k, 0 < l -> cnt l (take k (lengths table1)) = cnt l (take k (lengths table)) + (if bool_decide (s0 < k)%nat then Z.b2z (Z.of_nat b =? l) else 0)) as Hct by (intros; by apply cnt_take_insert).
  assert (canonical table1) as Hcan1.
  { intros s l Hs Hl. rewrite Hct by done. rewrite Hl1 in Hs. cbn [table1 codes]. case_bool_decide as E.
    - subst s. injection Hs as <-. rewrite bool_decide_false by lia. rewrite Nat2Z.id, list_lookup_insert_eq by lia. do 3 f_equal. rewrite Hcode, Z.add_0_r. f_equal.
      rewrite <- (take_drop s0 (lengths table)) at 1. rewrite cnt_app. rewrite (cnt_zero _ (drop s0 _)); [lia|]. intros k Hk. rewrite lookup_drop in Hk.
      specialize (Hlt _ x Hk ltac:(by constructor)). fold s0 in Hlt. lia.
    - rewrite list_lookup_insert_ne by done. rewrite (Hcan s l Hs Hl). do 4 f_equal. destruct (Z.eqb_spec (Z.of_nat b) l) as [<-|]; cbn [Z.b2z]; [|by destruct (bool_decide _); rewrite Z.add_0_r].
      specialize (Hlt s x Hs ltac:(by constructor)). fold s0 in Hlt. rewrite bool_decide_false by lia. by rewrite Z.add_0_r. }
  destruct (IH (code + 1) table1) as (table' & E & C1 & C2 & C3 & C4); [done|by split; cbn; rewrite length_insert|done|done| | | |lia|].
  - apply Forall_forall. intros y Hy. rewrite Hl1. specialize (Hx y Hy). rewrite bool_decide_false by lia. by apply Hz.
  - intros s y Hs Hy. rewrite Hl1 in Hs. case_bool_decide as Es; [subst s; by apply Hx|]. apply Hlt; [done|by constructor].
  - cbn [table1 lengths]. rewrite cnt_insert by (done || lia). rewrite Z.eqb_refl. cbn [Z.b2z]. lia.
  - exists table'. split; [rewrite E; f_equal; cbn [length]; lia|]. split; [done|]. split; [done|]. split.
    + intros s. rewrite C3, Hl1. cbn [map]. destruct (decide (s ∈ map symbol_nat xs)) as [Hin|Hin].
      * rewrite !bool_decide_true by (try done; by constructor). done.
      * rewrite (bool_decide_false (s ∈ map symbol_nat xs)) by done. fold s0. destruct (decide (s = s0)) as [->|Hne].
        -- rewrite !bool_decide_true by (try done; by constructor). done.
        -- rewrite !bool_decide_false; [done| |done]. intros [?|?]%elem_of_cons; [done|done].
    + intros l Hl. rewrite C4 by done. cbn [table1 lengths length]. rewrite cnt_insert by (done || lia). destruct (Z.eqb_spec l (Z.of_nat b)) as [->|Hne].
      * rewrite Z.eqb_refl. cbn [Z.b2z]. lia.
      * rewrite (proj2 (Z.eqb_neq (Z.of_nat b) l)) by done. cbn [Z.b2z]. lia.
Qed.

Lemma strongly_sorted_lookup {A} (R : A -> A -> Prop) l : (forall i j x y, (i < j)%nat -> l !! i = Some x -> l !! j = Some y -> R x y) -> StronglySorted R l.
Proof.
  induction l as [|x l IH]; intros H; constructor.
  - apply IH. intros i j y z Hij Hy Hz. by apply (H (S i) (S j)); [lia| |].
  - apply Forall_lookup. intros i y Hy. by apply (H 0%nat (S i)); [lia| |].
Qed.

Lemma shuffles_take {A} s e k (a a' : list A) : shuffles s e a a' -> (e < k)%nat -> take k a ≡ₚ take k a'.
Proof.
  intros Hs Hk. assert (drop k a' = drop k a) as Hd by (apply list_eq; intros i; rewrite !lookup_drop; apply (shuffles_outside _ _ _ _ Hs); lia).
  apply (Permutation_app_inv_r (drop k a)). rewrite take_drop. etrans; [apply (shuffles_perm _ _ _ _ Hs)|]. by rewrite <- Hd, take_drop.
Qed.

Lemma sort_by_symbol_lt x y : (huffman_sort_by_symbol x y <? 0) = (symbol x <? symbol y).
Proof. unfold huffman_sort_by_symbol, three_way. destruct (Z.ltb_spec (symbol x) (symbol y)); [done|]. by destruct (symbol y <? symbol x). Qed.

Lemma sort_by_symbol_gt x y : (0 <? huffman_sort_by_symbol x y) = (symbol y <? symbol x).
Proof. unfold huffman_sort_by_symbol, three_way. destruct (Z.ltb_spec (symbol x) (symbol y)); [destruct (Z.ltb_spec (symbol y) (symbol x)); [lia|done]|]. by destruct (symbol y <? symbol x). Qed.

(** The last [m] of the first [count] symbols, sorted. *)
Lemma sort_slice sf (count m : nat) : (0 < m <= count)%nat -> (count <= length sf)%nat -> NoDup (map symbol_nat (take count sf)) -> Forall (fun x => 0 <= symbol x) (take count sf) ->
  exists sf', quicksort2_partial huffman_sort_by_symbol (length sf) sf (count - m) (count - 1) = Some sf' /\ length sf' = length sf /\ take count sf' ≡ₚ take count sf /\
    StronglySorted (fun x y => symbol_nat x < symbol_nat y)%nat (take m (drop (count - m) sf')).
Proof.
  intros Hm Hcount Hnd Hpos. destruct (quicksort2_partial_spec huffman_sort_by_symbol symbol (fun _ => True)) with (fuel := length sf) (a := sf) (s := (count - m)%nat) (e := (count - 1)%nat) as (sf' & E & Hsh & Hso).
  - intros x y _ _. apply sort_by_symbol_lt.
  - intros x y _ _. apply sort_by_symbol_gt.
  - by apply Forall_true.
  - lia.
  - lia.
  - lia.
  - exists sf'. split; [done|]. split; [by eapply shuffles_length|]. assert (take count sf' ≡ₚ take count sf) as Hp by (symmetry; eapply shuffles_take; [done|lia]). split; [done|].
    apply strongly_sorted_lookup. intros i j x y Hij Hx Hy. apply lookup_take_Some in Hx as [Hx Hi]. apply lookup_take_Some in Hy as [Hy Hj]. rewrite lookup_drop in Hx, Hy.
    pose proof (Hso (count - m + i)%nat (count - m + j)%nat x y ltac:(lia) ltac:(lia) Hx Hy) as Hle. assert (Forall (fun x => 0 <= symbol x) (take count sf')) as Hpos' by (by rewrite Hp).
    assert (NoDup (map symbol_nat (take count sf'))) as Hnd' by (by rewrite Hp).
    pose proof (proj1 (Forall_lookup _ _) Hpos' (count - m + i)%nat x ltac:(rewrite lookup_take_lt by lia; done)). pose proof (proj1 (Forall_lookup _ _) Hpos' (count - m + j)%nat y ltac:(rewrite lookup_take_lt by lia; done)). cbn beta in *.
    destruct (decide (symbol_nat x = symbol_nat y)) as [Heq|]; [|unfold symbol_nat in *; lia]. exfalso.
    assert (count - m + i = count - m + j)%nat; [|lia]. eapply (NoDup_lookup _ _ _ (symbol_nat x) Hnd').
    + rewrite list_lookup_fmap, lookup_take_lt, Hx by lia. done.
    + rewrite list_lookup_fmap, lookup_take_lt, Hy by lia. cbn. by rewrite Heq.
Qed.

Context (max : nat) (Hmax : (max <= 15)%nat) (Hkraft : forall l, (1 <= l <= max)%nat -> first_code c l + c l <= 2 ^ Z.of_nat l).

Record assigned (xs : list huffman_symbol_freq_t) (b : nat) (table table' : huffman_encode_table_t) : Prop := {
  as_canonical : canonical table';
  as_table : table_ok table';
  as_used s : s ∈ map symbol_nat xs -> exists l, lengths table' !! s = Some l /\ 0 < l <= Z.of_nat max;
  as_rest s : s ∉ map symbol_nat xs -> lengths table' !! s = lengths table !! s;
  as_cnt l : 0 < l -> cnt l (lengths table') = cnt l (lengths table) + (if Z.of_nat b <=? l then if l <=? Z.of_nat max then c (Z.to_nat l) else 0 else 0);
}.

Lemma assign_lengths_ok k b code count sf table : (b + k = S max)%nat -> (1 <= b)%nat -> 0 <= code -> 2 * code = first_code c b ->
  count = below c (S max) - below c b -> (Z.to_nat count <= length sf)%nat ->
  NoDup (map symbol_nat (take (Z.to_nat count) sf)) -> Forall (fun x => 0 <= symbol x /\ lengths table !! symbol_nat x = Some 0) (take (Z.to_nat count) sf) ->
  (forall s l, lengths table !! s = Some l -> 0 <= l < Z.of_nat b) -> canonical table -> table_ok table ->
  exists table', assign_lengths (map c (seq b k)) b code count sf table = Some table' /\ assigned (take (Z.to_nat count) sf) b table table'.
Proof using Hc Hmax Hkraft.
  revert b code count sf table. induction k as [|k IH]; intros b code count sf table Hbk Hb Hcode0 Hcode Hcount Hlen Hnd Hz Hlt Hcan Htab; cbn [seq map assign_lengths].
  { exists table. split; [done|]. replace b with (S max) in * by lia. rewrite Z.sub_diag in Hcount. subst count. cbn [Z.to_nat take map]. split; [done|done| |done|].
    - intros s Hs. by apply elem_of_nil in Hs.
    - intros l Hl. destruct (Z.leb_spec (Z.of_nat (S max)) l), (Z.leb_spec l (Z.of_nat max)); lia. }
  pose proof (Hkraft b ltac:(lia)) as Hkr. pose proof (Hc b) as Hcb. pose proof (first_code_nonneg c Hc b) as Hf. assert (2 ^ Z.of_nat b <= 2 ^ 15) as H15 by (apply Z.pow_le_mono_r; lia).
  assert (u16 (Z.shiftl code 1) = first_code c b) as -> by (rewrite Z.shiftl_mul_pow2 by lia; change (2 ^ 1) with 2; unfold u16; rewrite Z.mod_small by lia; lia).
  pose proof (below_mono c Hc (S b) (S max) ltac:(lia)) as Hmono. set (total := below c (S max)) in *. cbn [below] in Hmono.
  assert (cnt (Z.of_nat b) (lengths table) = 0) as Hcz by (apply cnt_zero; intros s Hs; specialize (Hlt _ _ Hs); lia).
  destruct (Z.eqb_spec (c b) 0) as [E0|E0].
  { destruct (IH (S b) (first_code c b) count sf table) as (table' & E & [A1 A2 A3 A4 A5]); [lia|lia|lia|cbn [first_code]; lia|cbn [below]; lia|done|done|done| |done|done|].
    { intros s l Hs. specialize (Hlt _ _ Hs). lia. }
    exists table'. split; [done|]. split; [done|done|done|done|]. intros l Hl. rewrite A5 by done. destruct (Z.leb_spec (Z.of_nat (S b)) l), (Z.leb_spec (Z.of_nat b) l); try lia.
    assert (l = Z.of_nat b) as -> by lia. rewrite Nat2Z.id, E0. destruct (_ <=? _); lia. }
  destruct (Z.ltb_spec count (c b)) as [|Hle]; [lia|]. set (m := Z.to_nat (c b)). set (cn := Z.to_nat count) in *.
  destruct (sort_slice sf cn m) as (sf' & E & Hlen' & Hp & Hss); [lia|lia|done|eapply Forall_impl; [exact Hz|]; by intros ? [??]|].
  replace (Z.to_nat (count - c b)) with (cn - m)%nat by lia. replace (Z.to_nat (count - 1)) with (cn - 1)%nat by lia. rewrite E. cbn [mbind option_bind].
  set (slice := take m (drop (cn - m) sf')) in *. assert (length slice = m) as Hls by (unfold slice; rewrite length_take, length_drop; lia).
  assert (take cn sf' = take (cn - m) sf' ++ slice) as Hsplit by (unfold slice; rewrite take_take_drop; f_equal; lia).
  assert (NoDup (map symbol_nat (take cn sf'))) as Hnd' by (by rewrite Hp). assert (Forall (fun x => 0 <= symbol x /\ lengths table !! symbol_nat x = Some 0) (take cn sf')) as Hz' by (by rewrite Hp).
  rewrite Hsplit, map_app in Hnd'. rewrite Hsplit in Hz'. apply NoDup_app in Hnd' as (N1 & N2 & N3). apply Forall_app in Hz' as [Z1 Z2].
  destruct (assign_codes_ok slice (first_code c b) b table) as (table1 & E1 & C1 & C2 & C3 & C4); [done|done|lia|done|eapply Forall_impl; [exact Z2|]; by intros ? [??]| |lia|lia|].
  { intros s x Hs _. specialize (Hlt _ _ Hs). lia. }
  rewrite E1. destruct (IH (S b) (first_code c b + Z.of_nat (length slice)) (count - c b) sf' table1) as (table' & E2 & [A1 A2 A3 A4 A5]);
    [lia|lia|lia|cbn [first_code]; lia|cbn [below]; lia|lia|by replace (Z.to_nat (count - c b)) with (cn - m)%nat by lia| | |done|done|].
  { replace (Z.to_nat (count - c b)) with (cn - m)%nat by lia. rewrite Forall_forall in Z1 |- *. intros x Hx. destruct (Z1 x Hx) as [? ?]. split; [done|]. rewrite C3, bool_decide_false; [done|].
    apply N2. apply list_elem_of_fmap. by exists x. }
  { intros s l Hs. rewrite C3 in Hs. case_bool_decide; [injection Hs as <-; lia|]. specialize (Hlt _ _ Hs). lia. }
  replace (Z.to_nat (count - c b)) with (cn - m)%nat in * by lia. exists table'. split; [done|].
  assert (forall s, s ∈ map symbol_nat (take cn sf) <-> s ∈ map symbol_nat (take (cn - m) sf') \/ s ∈ map symbol_nat slice) as Hin.
  { intros s. rewrite <- Hp, Hsplit, map_app. apply elem_of_app. }
  split; [done|done| | |].
  - intros s Hs. destruct (decide (s ∈ map symbol_nat (take (cn - m) sf'))) as [H1|H1]; [by apply A3|]. apply Hin in Hs as [Hs|Hs]; [done|].
    exists (Z.of_nat b). split; [|lia]. rewrite A4, C3 by done. by rewrite bool_decide_true.
  - intros s Hs. rewrite Hin in Hs. rewrite A4, C3 by tauto. by rewrite bool_decide_false by tauto.
  - intros l Hl. rewrite A5, C4 by done. destruct (Z.eqb_spec l (Z.of_nat b)) as [->|].
    + destruct (Z.leb_spec (Z.of_nat (S b)) (Z.of_nat b)), (Z.leb_spec (Z.of_nat b) (Z.of_nat b)), (Z.leb_spec (Z.of_nat b) (Z.of_nat max)); try lia. rewrite Nat2Z.id. lia.
    + destruct (Z.leb_spec (Z.of_nat (S b)) l), (Z.leb_spec (Z.of_nat b) l); try lia.
Qed.
End Codes.

(** ** The lengths of the last row *)

Section Row.
Context (lc : list Z) (n : Z) (max : nat) (Hn : 3 <= n <= 255) (Hmax : (2 <= max <= 15)%nat) (Hfinal : final_row n max lc).

Definition row_count (b : nat) : Z := if bool_decide (1 <= b <= max)%nat then row lc max (S max - b) - row lc max (max - b) else 0.

Lemma row_count_range b : 0 <= row_count b <= 255.
Proof using Hn Hmax Hfinal.
  destruct Hfinal as (Hr & _ & Htop). unfold row_count. case_bool_decide as E; [|lia]. pose proof (row_mono _ _ Hr (max - b) ltac:(lia)) as Hm. replace (S (max - b)) with (S max - b)%nat in Hm by lia.
  pose proof (row_mono_le _ _ (S max - b) max Hr ltac:(lia)). pose proof (row_nonneg _ _ (row_ok_le _ max (max - b) ltac:(lia) Hr)). lia.
Qed.

Lemma bit_counts_ok : bit_counts_of lc max max = map row_count (seq 1 max).
Proof using Hn Hmax Hfinal.
  assert (forall level, (level <= max)%nat -> bit_counts_of lc max level = map row_count (seq (S (max - level)) level)) as H; [|rewrite H by lia; do 2 f_equal; lia].
  induction level as [|level IH]; intros Hl; [done|]. cbn [bit_counts_of seq map]. rewrite IH by lia. replace (S (max - S level)) with (max - level)%nat by lia. f_equal.
  pose proof (row_count_range (max - level)) as Hr. unfold row_count in *. rewrite bool_decide_true in * by lia. unfold row in *.
  replace (S max - (max - level))%nat with (S level) in * by lia. replace (max - (max - level))%nat with level in * by lia. unfold u8. apply Z.mod_small. lia.
Qed.

Lemma row_count_total : below row_count (S max) = n.
Proof using Hn Hmax Hfinal.
  destruct Hfinal as (Hr & _ & Htop). assert (forall b, (b <= max)%nat -> below row_count (S b) = n - row lc max (max - b)) as H.
  { induction b as [|b IH]; intros Hb.
    - cbn [below]. rewrite Nat.sub_0_r, Htop. unfold row_count. rewrite bool_decide_false by lia. lia.
    - change (below row_count (S (S b))) with (below row_count (S b) + row_count (S b)). rewrite IH by lia. unfold row_count. rewrite bool_decide_true by lia. replace (S max - S b)%nat with (max - b)%nat by lia. lia. }
  rewrite H by lia. rewrite Nat.sub_diag. rewrite (row_zero _ _ Hr). lia.
Qed.

Lemma row_even_half b : (1 <= b <= max)%nat -> let j := (max - b)%nat in items (row lc max) (S max - b) = row lc max (S j) + items (row lc max) j / 2 /\ 2 * (items (row lc max) j / 2) = items (row lc max) j.
Proof using Hn Hmax Hfinal.
  intros Hb. destruct Hfinal as (Hr & _ & _). replace (S max - b)%nat with (S (max - b)) by lia. cbn zeta. split; [done|].
  pose proof (row_even _ _ Hr (max - b) ltac:(lia)). pose proof (Z.div_mod (items (row lc max) (max - b)) 2). lia.
Qed.

Lemma row_unused b : (1 <= b <= max)%nat -> 2 ^ Z.of_nat b - first_code row_count b = 2 * row lc max (S max - b) - items (row lc max) (S max - b).
Proof using Hn Hmax Hfinal.
  intros Hb. induction b as [|b IH]; [lia|]. destruct b as [|b].
  - destruct Hfinal as (_ & Hi & Htop). replace (S max - 1)%nat with max by lia. rewrite Hi, Htop. cbn [first_code]. unfold row_count. rewrite bool_decide_false by lia. change (2 ^ Z.of_nat 1) with 2. lia.
  - specialize (IH ltac:(lia)). pose proof (row_even_half (S b) ltac:(lia)) as [E1 E2]. change (first_code row_count (S (S b))) with (2 * (first_code row_count (S b) + row_count (S b))).
    rewrite Nat2Z.inj_succ, Z.pow_succ_r by lia. rewrite E1 in IH. replace (S max - S (S b))%nat with (max - S b)%nat by lia. unfold row_count at 2. rewrite bool_decide_true by lia.
    replace (S max - S b)%nat with (S (max - S b)) in * by lia. lia.
Qed.

Lemma row_kraft b : (1 <= b <= max)%nat -> first_code row_count b + row_count b <= 2 ^ Z.of_nat b.
Proof using Hn Hmax Hfinal.
  intros Hb. pose proof (row_unused b Hb) as Hu. pose proof (row_even_half b Hb) as [E1 E2]. destruct Hfinal as (Hr & _ & _). pose proof (items_bound _ _ (row_ok_le _ max (max - b) ltac:(lia) Hr)).
  unfold row_count at 2. rewrite bool_decide_true by lia. rewrite E1 in Hu. replace (S max - b)%nat with (S (max - b)) in * by lia. lia.
Qed.
End Row.

(** ** Tables *)

(** A complete table for the symbols in [U], with codes of at most [limit] bits. *)
Record good_table (U : nat -> Prop) (limit : Z) (table : huffman_encode_table_t) : Prop := {
  good_sizes : table_ok table;
  good_used s : U s -> exists l, lengths table !! s = Some l /\ 0 < l;
  good_unused s l : lengths table !! s = Some l -> ~ U s -> l = 0;
  good_range s l : lengths table !! s = Some l -> 0 <= l <= limit;
  good_code s l : lengths table !! s = Some l -> 0 < l -> 0 <= code_of (lengths table) s l < 2 ^ l /\
    codes table !! s = Some (u16 (reverse_bits (code_of (lengths table) s l) (Z.to_nat l)));
}.

Lemma first_code_ext c d l : (forall k, (k < l)%nat -> c k = d k) -> first_code c l = first_code d l.
Proof. induction l as [|l IH]; intros H; cbn; [done|]. rewrite IH, (H l) by (intros; auto with lia). done. Qed.

Lemma canonical_code c table s l : (forall l, 0 <= c l) -> canonical c table -> (forall k, used (lengths table) k = c k) -> lengths table !! s = Some l -> 0 < l ->
  first_code c (Z.to_nat l) + c (Z.to_nat l) <= 2 ^ Z.of_nat (Z.to_nat l) ->
  0 <= code_of (lengths table) s l < 2 ^ l /\ codes table !! s = Some (u16 (reverse_bits (code_of (lengths table) s l) (Z.to_nat l))).
Proof.
  intros Hc Hcan Hused Hs Hl Hkraft. unfold code_of. rewrite (first_code_ext _ c) by done. split; [|by apply Hcan].
  pose proof (first_code_nonneg c Hc (Z.to_nat l)). pose proof (cnt_nonneg l (take s (lengths table))). pose proof (cnt_take_lt _ _ _ Hs).
  rewrite <- (Hused (Z.to_nat l)), used_pos, Z2Nat.id in Hkraft by lia. lia.
Qed.

Lemma cnt_replicate l k : 0 < l -> cnt l (replicate k 0) = 0.
Proof. intros Hl. apply cnt_zero. intros s Hs. apply lookup_replicate in Hs as [? _]. lia. Qed.

Lemma internal_ok xs limit : 3 <= Z.of_nat (length xs) <= 255 -> 2 <= limit <= 15 -> Z.of_nat (length xs) <= 2 ^ limit ->
  Forall (fun x => 0 <= symbol x < 288 /\ 1 <= freq x <= 65535) xs -> NoDup (map symbol_nat xs) ->
  (forall i j x y, (i <= j)%nat -> xs !! i = Some x -> xs !! j = Some y -> freq x <= freq y) ->
  exists table, huffman_encode_build_table_internal xs limit empty_table = Some (true, table) /\ good_table (fun s => s ∈ map symbol_nat xs) limit table.
Proof.
  intros Hn Hlim Hpow Hall Hnd Hsorted. unfold huffman_encode_build_table_internal. set (n := Z.of_nat (length xs)) in *. set (max := Z.to_nat (Z.min limit (n - 1))).
  set (sf := xs ++ [mk_symbol_freq 0xFFFF MAX_FREQ]).
  assert (forall i, 0 <= i < n -> exists x, xs !! Z.to_nat i = Some x /\ freq_at sf i = freq x) as Hat.
  { intros i Hi. destruct (lookup_lt_is_Some_2 xs (Z.to_nat i)) as [x Hx]; [lia|]. exists x. split; [done|]. unfold freq_at. f_equal. apply list_lookup_total_correct. unfold sf. by apply lookup_app_l_Some. }
  assert (sorted_freqs sf n max) as Hsf.
  { split; [unfold sf; rewrite length_app; cbn [length]; lia| |lia| | |].
    - split; [lia|]. unfold max. rewrite Z2Nat.id by lia. destruct (Z.min_spec limit (n - 1)) as [[_ ->]|[_ ->]]; [done|]. replace n with (n - 1 + 1) at 1 by lia.
      pose proof (Z.pow_gt_lin_r 2 (n - 1) ltac:(lia)). lia.
    - intros i Hi. destruct (Hat i Hi) as (x & Hx & ->). apply (proj1 (Forall_lookup _ _) Hall _ _ Hx).
    - intros i j Hij Hj. destruct (Hat i ltac:(lia)) as (x & Hx & ->). destruct (Hat j ltac:(lia)) as (y & Hy & ->). eapply Hsorted; [|exact Hx|exact Hy]. lia.
    - unfold freq_at, sf, n. rewrite Nat2Z.id. rewrite lookup_total_app_r, Nat.sub_diag by lia. done. }
  destruct (levels_ok_end sf n max Hsf) as (infos & lc & E1 & E2 & Hfin). rewrite E1. cbn [mbind option_bind]. rewrite E2. cbn [mbind option_bind].
  pose proof Hfin as (_ & _ & Htop). fold (row lc max max). rewrite Htop, Z.eqb_refl. cbn [negb]. pose proof (sf_max _ _ _ Hsf) as Hmax.
  rewrite (bit_counts_ok lc n max ltac:(lia) Hmax Hfin). set (c := row_count lc max). pose proof (row_count_range lc n max ltac:(lia) Hmax Hfin) as Hcr. fold c in Hcr.
  assert (take (Z.to_nat n) sf = xs) as Htake by (unfold sf, n; rewrite Nat2Z.id, take_app_length; done).
  assert (forall l, 0 <= c l) as Hc by (intros l; apply Hcr). pose proof (row_kraft lc n max ltac:(lia) Hmax Hfin) as Hkraft. fold c in Hkraft.
  destruct (assign_lengths_ok c Hc max ltac:(lia) Hkraft max 1 0 n sf empty_table) as (table & E3 & [A1 A2 A3 A4 A5]).
  - lia.
  - lia.
  - lia.
  - cbn [first_code]. unfold c, row_count. rewrite bool_decide_false by lia. lia.
  - unfold c. rewrite (row_count_total lc n max ltac:(lia) Hmax Hfin). cbn [below]. unfold row_count. rewrite bool_decide_false by lia. lia.
  - unfold sf. rewrite length_app. lia.
  - by rewrite Htake.
  - rewrite Htake. eapply Forall_impl; [exact Hall|]. intros x [Hx _]. split; [lia|]. unfold empty_table, symbol_nat. cbn [lengths]. apply lookup_replicate_2. lia.
  - intros s l Hs. unfold empty_table in Hs. cbn [lengths] in Hs. apply lookup_replicate in Hs as [-> _]. lia.
  - intros s l Hs Hl. unfold empty_table in Hs. cbn [lengths] in Hs. apply lookup_replicate in Hs as [-> _]. lia.
  - by split.
  - rewrite E3. cbn [mbind option_bind]. exists table. split; [done|]. rewrite Htake in *.
    assert (forall s l, lengths table !! s = Some l -> 0 <= l <= Z.of_nat max) as Hrange.
    { intros s l Hs. destruct (decide (s ∈ map symbol_nat xs)) as [Hin|Hin]; [destruct (A3 s Hin) as (l' & Hs' & ?); rewrite Hs in Hs'; injection Hs' as <-; lia|].
      rewrite A4 in Hs by done. unfold empty_table in Hs. cbn [lengths] in Hs. apply lookup_replicate in Hs as [-> _]. lia. }
    assert (forall k, used (lengths table) k = c k) as Hused.
    { intros k. unfold used. case_bool_decide as E0; [subst k; unfold c, row_count; by rewrite bool_decide_false by lia|]. rewrite A5 by lia. unfold empty_table. cbn [lengths]. rewrite cnt_replicate by lia.
      rewrite Nat2Z.id. destruct (Z.leb_spec (Z.of_nat 1) (Z.of_nat k)); [|lia]. destruct (Z.leb_spec (Z.of_nat k) (Z.of_nat max)); [lia|]. unfold c, row_count. rewrite bool_decide_false by lia. lia. }
    split; [done| | | |].
    + intros s Hs. destruct (A3 s Hs) as (l & ? & ?). exists l. split; [done|lia].
    + intros s l Hs Hu. rewrite A4 in Hs by done. unfold empty_table in Hs. cbn [lengths] in Hs. by apply lookup_replicate in Hs as [-> _].
    + intros s l Hs. specialize (Hrange s l Hs). lia.
    + intros s l Hs Hl. specialize (Hrange s l Hs). apply (canonical_code c); [done|done|done|done|done|]. apply Hkraft. lia.
Qed.

(** ** The symbols in use *)

Definition in_use (freqs : list Z) (s : nat) : Prop := 0 < peek freqs (Z.of_nat s).

Lemma used_symbols_ok freqs i : Forall (fun f => 0 <= f <= 65535) freqs -> 0 <= i ->
  Forall (fun x => i <= symbol x < i + Z.of_nat (length freqs) /\ 1 <= freq x <= 65535) (used_symbols freqs i) /\
  StronglySorted (fun x y => symbol_nat x < symbol_nat y)%nat (used_symbols freqs i) /\
  forall s, (Z.to_nat i + s)%nat ∈ map symbol_nat (used_symbols freqs i) <-> in_use freqs s.
Proof.
  revert i. induction freqs as [|f freqs IH]; intros i Hf Hi; cbn [used_symbols].
  { split; [done|]. split; [constructor|]. intros s. split; [by intros ?%elem_of_nil|done]. }
  apply Forall_cons in Hf as [Hf0 Hf]. destruct (IH (i + 1) Hf ltac:(lia)) as (H1 & H2 & H3). assert (u32 f = f) as -> by (unfold u32; apply Z.mod_small; lia).
  assert (Forall (fun x => i <= symbol x < i + Z.of_nat (length (f :: freqs)) /\ 1 <= freq x <= 65535) (used_symbols freqs (i + 1))) as H1' by (eapply Forall_impl; [exact H1|]; cbn [length]; lia).
  assert (forall s, (Z.to_nat i + S s)%nat ∈ map symbol_nat (used_symbols freqs (i + 1)) <-> in_use (f :: freqs) (S s)) as H3'.
  { intros s. replace (Z.to_nat i + S s)%nat with (Z.to_nat (i + 1) + s)%nat by lia. rewrite H3. unfold in_use, peek. by rewrite !Nat2Z.id. }
  assert (forall x, x ∈ used_symbols freqs (i + 1) -> (Z.to_nat i < symbol_nat x)%nat) as H4 by (intros x Hx; rewrite Forall_forall in H1; specialize (H1 x Hx); unfold symbol_nat; lia).
  destruct (Z.ltb_spec 0 f) as [Hpos|Hz]; cbn [app].
  - split; [constructor; [cbn [symbol freq length]; lia|done]|]. split; [constructor; [done|]; apply Forall_forall; intros x Hx; apply H4, Hx|]. intros [|s]; cbn [map].
    + rewrite Nat.add_0_r. split; [intros _; change (0 < f); lia|intros _; by constructor].
    + rewrite elem_of_cons, <- H3'. unfold symbol_nat at 1. cbn [symbol]. split; [intros [?|?]; [lia|done]|by right].
  - split; [done|]. split; [done|]. intros [|s]; [|done]. rewrite Nat.add_0_r. split; [|change (0 < f -> Z.to_nat i ∈ map symbol_nat (used_symbols freqs (i + 1))); lia].
    intros (x & Ex & Hx)%list_elem_of_fmap. specialize (H4 x Hx). lia.
Qed.

Lemma in_use_uses freqs s : uses freqs s <-> 0 <= s /\ in_use freqs (Z.to_nat s).
Proof. unfold uses, in_use. split; intros [? ?]; (split; [done|]); [by rewrite Z2Nat.id|rewrite Z2Nat.id in *; done]. Qed.

Lemma strongly_sorted_nodup (xs : list huffman_symbol_freq_t) : StronglySorted (fun x y => symbol_nat x < symbol_nat y)%nat xs -> NoDup (map symbol_nat xs).
Proof.
  induction 1 as [|x xs _ IH Hx]; constructor; [|done]. intros (y & Ey & Hy)%list_elem_of_fmap. rewrite Forall_forall in Hx. specialize (Hx y Hy). lia.
Qed.

(** The last symbol in use. *)
Lemma last_symbol xs x : StronglySorted (fun x y => symbol_nat x < symbol_nat y)%nat xs -> last xs = Some x -> x ∈ xs /\ forall s, s ∈ map symbol_nat xs -> (s <= symbol_nat x)%nat.
Proof.
  intros Hs. revert x. induction Hs as [|y xs Hs IH Hy]; intros x Hl; [done|]. destruct xs as [|z xs].
  - injection Hl as ->. split; [by constructor|]. intros s [->|Hs']%elem_of_cons; [done|by apply elem_of_nil in Hs'].
  - destruct (IH x Hl) as [H1 H2]. split; [by constructor|]. intros s [->|Hs']%elem_of_cons; [|by apply H2]. rewrite Forall_forall in Hy. specialize (Hy x H1). lia.
Qed.

Definition freq_key (x : huffman_symbol_freq_t) : Z := freq x * 65536 + symbol x.

Lemma sort_by_freq_key x y : 0 <= symbol x < 65536 -> 0 <= symbol y < 65536 ->
  (huffman_sort_by_freq x y <? 0) = (freq_key x <? freq_key y) /\ (0 <? huffman_sort_by_freq x y) = (freq_key y <? freq_key x).
Proof.
  intros Hx Hy. unfold huffman_sort_by_freq, three_way, freq_key. split.
  all: destruct (Z.ltb_spec (freq x) (freq y)), (Z.ltb_spec (freq y) (freq x)), (Z.ltb_spec (symbol x) (symbol y)), (Z.ltb_spec (symbol y) (symbol x)); cbn [Z.ltb Z.compare]; symmetry; (apply Z.ltb_lt; lia) || (apply Z.ltb_ge; lia).
Qed.

Lemma good_table_ext (U V : nat -> Prop) limit table : (forall s, U s <-> V s) -> good_table U limit table -> good_table V limit table.
Proof. intros H [G1 G2 G3 G4 G5]. split; [done| | |done|done]; [intros s Hs; by apply G2, H|intros s l Hs Hv; apply (G3 s l Hs); by rewrite H]. Qed.

Lemma cnt_empty l : 0 < l -> cnt l (lengths empty_table) = 0.
Proof. apply cnt_replicate. Qed.

(** One or two symbols have codes of one bit. *)
Lemma short_table xs limit : (length xs <= 2)%nat -> 1 <= limit -> Forall (fun x => 0 <= symbol x < 288) xs -> StronglySorted (fun x y => symbol_nat x < symbol_nat y)%nat xs ->
  good_table (fun s => s ∈ map symbol_nat xs) limit
    (fold_left (fun t ix => mk_encode_table (<[Z.to_nat ix.2 := Z.of_nat ix.1]> (codes t)) (<[Z.to_nat ix.2 := 1]> (lengths t))) (imap (fun i x => (i, symbol x)) xs) empty_table).
Proof.
  intros Hlen Hlim Hr Hs. set (c := fun l : nat => if bool_decide (l = 1)%nat then Z.of_nat (length xs) else 0). assert (forall l, 0 <= c l) as Hc by (intros l; unfold c; case_bool_decide; lia).
  assert (forall s l, lengths empty_table !! s = Some l -> l = 0) as Hz by (intros s l H; apply lookup_replicate in H as [-> _]; done).
  destruct (assign_codes_ok c Hc xs 0 1 empty_table) as (table & E & C1 & C2 & C3 & C4).
  - intros s l H Hl. specialize (Hz s l H). lia.
  - done.
  - lia.
  - done.
  - eapply Forall_impl; [exact Hr|]. intros x Hx. unfold symbol_nat, empty_table. cbn [lengths]. apply lookup_replicate_2. cbn beta in Hx. lia.
  - intros s x H. specialize (Hz _ _ H). lia.
  - cbn [first_code]. by rewrite cnt_empty by lia.
  - change (2 ^ Z.of_nat 1) with 2. lia.
  - match goal with |- good_table _ _ ?t => assert (t = (assign_codes xs 0 1 empty_table).2) as -> by (destruct xs as [|x [|y [|z xs]]]; [reflexivity|reflexivity|reflexivity|cbn in Hlen; lia]) end.
    rewrite E. cbn [snd]. assert (forall k, used (lengths table) k = c k) as Hused.
    { intros k. unfold used, c. repeat case_bool_decide; try lia; rewrite C4, cnt_empty by lia; destruct (Z.eqb_spec (Z.of_nat k) (Z.of_nat 1)); lia. }
    assert (forall s l, lengths table !! s = Some l -> s ∈ map symbol_nat xs /\ l = 1 \/ (s ∉ map symbol_nat xs) /\ l = 0) as Hl.
    { intros s l H. rewrite C3 in H. case_bool_decide; [left; by injection H as <-|right; split; [done|by apply (Hz s)]]. }
    split; [done| | | |].
    + intros s H. exists 1. rewrite C3. by rewrite bool_decide_true.
    + intros s l H Hn. destruct (Hl s l H) as [[??]|[??]]; [done|done].
    + intros s l H. destruct (Hl s l H) as [[??]|[??]]; lia.
    + intros s l H Hp. destruct (Hl s l H) as [[? ->]|[??]]; [|lia]. apply (canonical_code c); [done|done|done|done|done|].
      change (first_code c (Z.to_nat 1)) with 0. change (Z.of_nat (length xs) <= 2). lia.
Qed.

Lemma sort_by_freq_ok xs : Forall (fun x => 0 <= symbol x < 288 /\ 1 <= freq x <= 65535) xs -> xs <> [] ->
  exists ys, quicksort2 huffman_sort_by_freq xs = Some ys /\ xs ≡ₚ ys /\ forall i j x y, (i <= j)%nat -> ys !! i = Some x -> ys !! j = Some y -> freq x <= freq y.
Proof.
  intros Hall Hne. destruct (quicksort2_ok huffman_sort_by_freq freq_key (fun x => 0 <= symbol x < 65536)) with (a := xs) as (ys & E & Hp & Hso).
  - intros x y Hx Hy. by apply sort_by_freq_key.
  - intros x y Hx Hy. by apply sort_by_freq_key.
  - eapply Forall_impl; [exact Hall|]. cbn beta. lia.
  - done.
  - exists ys. split; [done|]. split; [done|]. intros i j x y Hij Hx Hy. assert (Forall (fun x => 0 <= symbol x < 288 /\ 1 <= freq x <= 65535) ys) as Hall' by (by rewrite <- Hp).
    pose proof (proj1 (Forall_lookup _ _) Hall' _ _ Hx). pose proof (proj1 (Forall_lookup _ _) Hall' _ _ Hy). cbn beta in *.
    pose proof (lookup_lt_Some _ _ _ Hy) as Hj. rewrite <- Hp in Hj. specialize (Hso i j x y ltac:(lia) ltac:(lia) Hx Hy). unfold freq_key in Hso. lia.
Qed.

(** The table, and the last symbol in use. *)
Record built (freqs : list Z) (limit : Z) (table : huffman_encode_table_t) (max_used : Z) : Prop := {
  built_table : good_table (in_use freqs) limit table;
  built_max s : in_use freqs s -> Z.of_nat s <= max_used;
  built_range : 0 <= max_used < Z.max 1 (Z.of_nat (length freqs));
  built_last : (exists s, in_use freqs s) -> in_use freqs (Z.to_nat max_used);
  built_none : (forall s, ~ in_use freqs s) -> max_used = 0;
}.

Lemma build_ok freqs limit : Forall (fun f => 0 <= f <= 65535) freqs -> (length freqs <= 288)%nat -> 2 <= limit <= 15 ->
  Z.of_nat (length (used_symbols freqs 0)) <= Z.min 255 (2 ^ limit) ->
  exists table max_used, huffman_encode_build_table freqs limit = Some (true, table, max_used) /\ built freqs limit table max_used.
Proof.
  intros Hf Hlen Hlim Hcount. unfold huffman_encode_build_table. destruct (used_symbols_ok freqs 0 Hf ltac:(lia)) as (U1 & U2 & U3). cbn [Z.to_nat Nat.add] in U3. set (xs := used_symbols freqs 0) in *.
  assert (Forall (fun x => 0 <= symbol x < 288 /\ 1 <= freq x <= 65535) xs) as Hall by (eapply Forall_impl; [exact U1|]; cbn beta; lia).
  set (m := match last xs with Some x => symbol x | None => 0 end).
  assert (forall table, good_table (in_use freqs) limit table -> built freqs limit table m) as Hb.
  { intros table Ht. destruct (last xs) as [x|] eqn:Ex.
    - destruct (last_symbol xs x U2 Ex) as [Hx Hle]. rewrite Forall_forall in U1. specialize (U1 x Hx). split; unfold m; [done| |lia| |].
      + intros s Hs. apply U3, Hle in Hs. unfold symbol_nat in Hs. lia.
      + intros _. apply U3. fold (symbol_nat x). apply list_elem_of_fmap. by exists x.
      + intros Hno. destruct (Hno (symbol_nat x)). apply U3, list_elem_of_fmap. by exists x.
    - apply last_None in Ex. rewrite Ex in U3. split; unfold m; [done| |lia| |done]; [intros s Hs; by apply U3, elem_of_nil in Hs|intros [s Hs]; by apply U3, elem_of_nil in Hs]. }
  case_bool_decide as Hshort.
  - eexists _, m. split; [done|]. apply Hb. eapply good_table_ext; [exact U3|]. apply short_table; [done|lia|eapply Forall_impl; [exact Hall|]; cbn beta; lia|done].
  - destruct (sort_by_freq_ok xs Hall) as (ys & E & Hp & Hso); [intros E; rewrite E in Hshort; cbn in Hshort; lia|]. rewrite E. cbn [mbind option_bind].
    destruct (internal_ok ys limit) as (table & E2 & Ht); [rewrite <- Hp; lia|done|rewrite <- Hp; lia|by rewrite <- Hp| |done|].
    { rewrite <- Hp. by apply strongly_sorted_nodup. }
    rewrite E2. cbn [mbind option_bind]. exists table, m. split; [done|]. apply Hb. eapply good_table_ext; [|exact Ht]. intros s. cbn beta. rewrite <- Hp. apply U3.
Qed.
