(* ===== verification/DeflateHeader.v ===== *)
(** * DEFLATE: the header of a dynamic block

    The lengths of the codes are written with repetitions and read back; the
    tables built from them agree with those of the encoder. *)

From S2P Require Import Prelude Quicksort Deflate DeflateEncode DeflateBits DeflateHuffman DeflateBlock DeflateMatch DeflateLevels DeflateTable.

(** ** A good table and the table built from its lengths *)

Lemma cnt_take_all l lens k : 0 < l -> (forall s, (k <= s)%nat -> forall x, lens !! s = Some x -> x = 0) -> cnt l (take k lens) = cnt l lens.
Proof.
  intros Hl Hz. rewrite <- (take_drop k lens) at 2. rewrite cnt_app, (cnt_zero l (drop k lens)); [lia|]. intros s Hs. rewrite lookup_drop in Hs.
  specialize (Hz (k + s)%nat ltac:(lia) _ Hs). lia.
Qed.

Lemma good_codec U limit table k max : good_table U limit table -> limit <= 15 -> (k <= 288)%nat -> Z.of_nat k <= max + 1 -> (forall s, U s -> (s < k)%nat) ->
  exists dec, huffman_decode_table_build (take k (lengths table)) limit = Some dec /\ Codec table dec max (fun s => 0 <= s /\ U (Z.to_nat s)).
Proof.
  intros [[G0 G1] G2 G3 G4 G5] Hlim Hk Hmax HU. set (lens := take k (lengths table)).
  assert (length lens <= k)%nat as Hlk by (unfold lens; rewrite length_take; lia).
  assert (Forall (fun x => 0 <= x <= limit) lens) as Hall.
  { apply Forall_lookup. intros s x Hs. apply lookup_take_Some in Hs as [Hs _]. by eapply G4. }
  destruct (counts_ok lens limit Hall Hlim ltac:(lia)) as (cs & Ec & _). unfold huffman_decode_table_build at 1. rewrite Ec. eexists. split; [done|].
  assert (forall s, (k <= s)%nat -> forall x, lengths table !! s = Some x -> x = 0) as Hz.
  { intros s Hs x Hx. apply (G3 s x Hx). intros Hu. specialize (HU s Hu). lia. }
  assert (forall l, used lens l = used (lengths table) l) as Hused.
  { intros l. unfold used. case_bool_decide; [done|]. apply cnt_take_all; [lia|done]. }
  split. intros s [Hs Hu]. destruct (G2 _ Hu) as (l & Hl & Hpos). destruct (G5 _ _ Hl Hpos) as [Hcode Hcodes]. specialize (HU _ Hu). pose proof (G4 _ _ Hl).
  exists l. eexists. split; [done|]. split; [exact Hcodes|]. split; [done|]. intros rest o Q HQ. set (n := Z.to_nat s) in *.
  assert (code_of lens n l = code_of (lengths table) n l) as Eco.
  { unfold code_of. rewrite (first_code_ext (used lens) (used (lengths table))) by done. do 2 f_equal. unfold lens. rewrite take_take. f_equal. lia. }
  rewrite (proj2 (reverse_bits_ok _ (Z.to_nat l) ltac:(rewrite Z2Nat.id by lia; done) ltac:(lia))). rewrite <- Eco.
  eapply (huffman_decode_ok lens limit); [|done|done|lia| |done|rewrite Eco; lia|lia|].
  - unfold huffman_decode_table_build. by rewrite Ec.
  - unfold lens. by rewrite lookup_take_lt.
  - unfold n. by rewrite Z2Nat.id.
Qed.

(** The symbols in use are not too many. *)
Lemma used_symbols_bound freqs (l : list nat) : Forall (fun f => 0 <= f <= 65535) freqs -> (forall s, in_use freqs s -> s ∈ l) -> (length (used_symbols freqs 0) <= length l)%nat.
Proof.
  intros Hf Hin. destruct (used_symbols_ok freqs 0 Hf ltac:(lia)) as (_ & U2 & U3). rewrite <- (length_map symbol_nat). apply NoDup_incl_length; [apply NoDup_ListNoDup; by apply strongly_sorted_nodup|].
  intros s Hs. apply list_elem_of_In in Hs. apply list_elem_of_In, Hin, U3, Hs.
Qed.

(** ** Lengths with repetitions *)

(** What a code from 16 on with [x] repeats behind [o]. *)
Definition repeat_of (c x : Z) (o : list Z) : option (list Z) :=
  if (c =? 16) && (0 <=? x) && (x <=? 3) then v ← last o; Some (replicate (Z.to_nat (x + 3)) v)
  else if (c =? 17) && (0 <=? x) && (x <=? 7) then Some (replicate (Z.to_nat (x + 3)) 0)
  else if (c =? 18) && (0 <=? x) && (x <=? 127) then Some (replicate (Z.to_nat (x + 11)) 0)
  else None.

Fixpoint rle_decode (ws o : list Z) : option (list Z) :=
  match ws with
  | [] => Some o
  | c :: ws =>
    if (0 <=? c) && (c <? 16) then rle_decode ws (o ++ [c]) else
    match ws with
    | x :: ws => match repeat_of c x o with Some l => rle_decode ws (o ++ l) | None => None end
    | [] => None
    end
  end.

(** The codes, without the repetitions. *)
Fixpoint codes_use (P : Z -> Prop) (ws : list Z) : Prop :=
  match ws with
  | [] => True
  | c :: ws => P c /\ if c <? 16 then codes_use P ws else match ws with _ :: ws => codes_use P ws | [] => False end
  end.

Lemma codes_use_app P ws1 ws2 : codes_use P ws1 -> codes_use P ws2 -> codes_use P (ws1 ++ ws2).
Proof.
  intros H1 H2. induction ws1 as [ws1 IH] using (induction_ltof1 _ length). unfold ltof in IH. destruct ws1 as [|c ws1]; [done|]. cbn [codes_use app] in *. destruct H1 as [Hc H1]. split; [done|].
  destruct (c <? 16); [apply IH; [cbn; lia|done]|]. destruct ws1 as [|x ws1]; [done|]. cbn [app]. apply IH; [cbn; lia|done].
Qed.

Lemma codes_use_mono (P Q : Z -> Prop) ws : (forall c, P c -> Q c) -> codes_use P ws -> codes_use Q ws.
Proof.
  intros HPQ. induction ws as [ws IH] using (induction_ltof1 _ length). unfold ltof in IH. destruct ws as [|c ws]; [done|]. cbn [codes_use]. intros [Hc H]. split; [auto|].
  destruct (c <? 16); [apply IH; [cbn; lia|done]|]. destruct ws as [|x ws]; [done|]. apply IH; [cbn; lia|done].
Qed.

Lemma rle_decode_app ws1 ws2 o o' : rle_decode ws1 o = Some o' -> rle_decode (ws1 ++ ws2) o = rle_decode ws2 o'.
Proof.
  revert o. induction ws1 as [ws1 IH] using (induction_ltof1 _ length). unfold ltof in IH. intros o H. destruct ws1 as [|c ws1]; [by injection H as ->|]. cbn [rle_decode app] in *.
  destruct ((0 <=? c) && (c <? 16)); [apply IH; [cbn; lia|done]|]. destruct ws1 as [|x ws1]; [done|]. cbn [app]. destruct (repeat_of c x o); [|done]. apply IH; [cbn; lia|done].
Qed.

(** ** The encoder of the repetitions *)

Record code_freqs_ok (n : Z) (f : list Z) : Prop := {
  cf_length : length f = 288%nat;
  cf_range : Forall (fun x => 0 <= x <= n) f;
  cf_used s : in_use f s -> (s < 19)%nat;
}.

Record rle_ok (r : rle_t) : Prop := {
  rle_out : (out_idx r <= length (code_lengths r) <= 1000)%nat;
  rle_freqs : code_freqs_ok (Z.of_nat (out_idx r)) (code_freqs r);
}.

(** [ws] was written. *)
Record writes (r r' : rle_t) (ws : list Z) : Prop := {
  w_ok : rle_ok r';
  w_len : length (code_lengths r') = length (code_lengths r);
  w_out : out_idx r' = (out_idx r + length ws)%nat;
  w_take : take (out_idx r') (code_lengths r') = take (out_idx r) (code_lengths r) ++ ws;
  w_rest k : (out_idx r' <= k)%nat -> code_lengths r' !! k = code_lengths r !! k;
  w_le : freqs_le (code_freqs r) (code_freqs r');
  w_use : codes_use (uses (code_freqs r')) ws;
}.

Lemma writes_nil r : rle_ok r -> writes r r [].
Proof. intros Hr. split; [done|done|cbn; lia|by rewrite app_nil_r|done|by intros s|done]. Qed.

Lemma uses_le f g s : freqs_le f g -> uses f s -> uses g s.
Proof. intros H [Hs Hp]. split; [done|]. specialize (H s). lia. Qed.

Lemma writes_trans r1 r2 r3 ws1 ws2 : writes r1 r2 ws1 -> writes r2 r3 ws2 -> writes r1 r3 (ws1 ++ ws2).
Proof.
  intros [A1 A2 A3 A4 A5 A6 A7] [B1 B2 B3 B4 B5 B6 B7]. split; [done|by rewrite B2|rewrite length_app; lia|by rewrite B4, A4, app_assoc| | |].
  - intros k Hk. rewrite B5 by done. apply A5. lia.
  - intros s. etrans; [apply A6|apply B6].
  - apply codes_use_app; [|done]. eapply codes_use_mono; [|exact A7]. intros s. by apply uses_le.
Qed.

(** A code with [ws] behind it. *)
Lemma put_take {A} (l : list A) i x : (i < length l)%nat -> put l i x = Some (<[i := x]> l) /\ take (S i) (<[i := x]> l) = take i l ++ [x].
Proof.
  intros Hi. unfold put. rewrite bool_decide_true by done. split; [done|]. rewrite (take_S_r _ i x) by (by apply list_lookup_insert_eq). by rewrite take_insert_ge by lia.
Qed.

Lemma count_freqs n f c : code_freqs_ok n f -> n < 2000 -> 0 <= c < 19 -> code_freqs_ok (n + 1) (incr f c) /\ freqs_le f (incr f c) /\ uses (incr f c) c.
Proof.
  intros [F1 F2 F3] Hn Hc. split; [split|split].
  - unfold incr. by rewrite length_alter.
  - apply incr_range; [done|lia].
  - intros s. unfold in_use. rewrite (peek_incr _ _ _ n) by (done || lia). destruct (Z.eqb_spec (Z.of_nat s) c); [lia|]. cbn [Z.b2z]. rewrite Z.add_0_r. apply F3.
  - apply (incr_le _ _ n); [done|lia|lia].
  - split; [lia|]. rewrite (peek_incr _ _ _ n) by (done || lia). rewrite Z.eqb_refl. cbn [Z.b2z]. pose proof (peek_lookup f c ltac:(lia)) as Hl. pose proof (proj1 (Forall_lookup _ _) F2 _ _ Hl). cbn beta in *. lia.
Qed.

Lemma code_freqs_mono n m f : code_freqs_ok n f -> n <= m -> code_freqs_ok m f.
Proof. intros [F1 F2 F3] Hm. split; [done| |done]. eapply Forall_impl; [exact F2|]. cbn beta. lia. Qed.

Lemma emit_plain_one r c : rle_ok r -> 0 <= c < 16 -> (out_idx r < length (code_lengths r))%nat ->
  exists r', emit c r = Some r' /\ writes r (count_code c r') [c].
Proof.
  intros [Hr Hf] Hc Ho. destruct (put_take (code_lengths r) (out_idx r) c Ho) as [E1 E2]. unfold emit. rewrite E1. cbn [mbind option_bind]. eexists. split; [done|].
  destruct (count_freqs _ _ c Hf ltac:(lia) ltac:(lia)) as (F1 & F2 & F3). unfold count_code. split; cbn [code_lengths out_idx code_freqs length].
  - split; cbn [code_lengths out_idx code_freqs]; [rewrite length_insert; lia|]. by replace (Z.of_nat (S (out_idx r))) with (Z.of_nat (out_idx r) + 1) by lia.
  - by rewrite length_insert.
  - lia.
  - done.
  - intros k Hk. by rewrite list_lookup_insert_ne by lia.
  - done.
  - cbn [codes_use]. split; [done|]. by rewrite (proj2 (Z.ltb_lt c 16)) by lia.
Qed.

Lemma emit_repeat_one r c x : rle_ok r -> 16 <= c < 19 -> (S (out_idx r) < length (code_lengths r))%nat ->
  exists r1 r', emit c r = Some r1 /\ emit x r1 = Some r' /\ writes r (count_code c r') [c; x].
Proof.
  intros [Hr Hf] Hc Ho. destruct (put_take (code_lengths r) (out_idx r) c ltac:(lia)) as [E1 E2]. unfold emit. rewrite E1. cbn [mbind option_bind]. eexists _, _. split; [done|]. cbn [code_lengths out_idx code_freqs].
  destruct (put_take (<[out_idx r := c]> (code_lengths r)) (S (out_idx r)) x ltac:(rewrite length_insert; lia)) as [E3 E4]. rewrite E3. cbn [mbind option_bind]. split; [done|].
  destruct (count_freqs _ _ c Hf ltac:(lia) ltac:(lia)) as (F1 & F2 & F3). unfold count_code. split; cbn [code_lengths out_idx code_freqs length].
  - split; cbn [code_lengths out_idx code_freqs]; [rewrite !length_insert; lia|]. apply (code_freqs_mono (Z.of_nat (out_idx r) + 1)); [done|lia].
  - by rewrite !length_insert.
  - lia.
  - rewrite E4, E2, <- app_assoc. done.
  - intros k Hk. by rewrite !list_lookup_insert_ne by lia.
  - done.
  - cbn [codes_use]. split; [done|]. rewrite (proj2 (Z.ltb_ge c 16)) by lia. done.
Qed.

Lemma rle_decode_plain c ws o : 0 <= c < 16 -> rle_decode (c :: ws) o = rle_decode ws (o ++ [c]).
Proof. intros Hc. cbn [rle_decode]. destruct (Z.leb_spec 0 c), (Z.ltb_spec c 16); try lia. done. Qed.

Lemma rle_decode_repeat c x ws o l : 16 <= c -> repeat_of c x o = Some l -> rle_decode (c :: x :: ws) o = rle_decode ws (o ++ l).
Proof. intros Hc E. cbn [rle_decode]. destruct (Z.ltb_spec c 16); [lia|]. rewrite andb_false_r, E. done. Qed.

Lemma emit_plain_ok n size r : rle_ok r -> 0 <= size < 16 -> (out_idx r + n <= length (code_lengths r))%nat ->
  exists r', emit_plain n size r = Some r' /\ writes r r' (replicate n size) /\ forall o, rle_decode (replicate n size) o = Some (o ++ replicate n size).
Proof.
  intros Hr Hs. revert r Hr. induction n as [|n IH]; intros r Hr Ho; cbn [emit_plain replicate].
  { exists r. split; [done|]. split; [by apply writes_nil|]. intros o. by rewrite app_nil_r. }
  destruct (emit_plain_one r size Hr Hs ltac:(lia)) as (r1 & E & W). rewrite E. cbn [mbind option_bind].
  destruct (IH (count_code size r1)) as (r' & E' & W' & D'); [by apply (w_ok _ _ _ W)|rewrite (w_out _ _ _ W), (w_len _ _ _ W); cbn [length]; lia|].
  exists r'. split; [done|]. split; [by eapply (writes_trans _ _ _ [size])|]. intros o. rewrite rle_decode_plain by done. rewrite D', <- app_assoc. done.
Qed.

Lemma emit_repeats_ok (good : list Z -> Prop) v code low high fuel count r : rle_ok r -> 16 <= code < 19 -> 3 <= low <= high -> 0 <= count ->
  (forall n o, low <= n <= high -> good o -> repeat_of code (n - low) o = Some (replicate (Z.to_nat n) v) /\ good (o ++ replicate (Z.to_nat n) v)) ->
  Z.of_nat (out_idx r) + count <= Z.of_nat (length (code_lengths r)) -> count < Z.of_nat fuel ->
  exists count' r' ws, emit_repeats fuel code low high count r = Some (count', r') /\ writes r r' ws /\ 0 <= count' <= count /\ count' < low /\ Z.of_nat (length ws) <= count - count' /\
    forall o, good o -> rle_decode ws o = Some (o ++ replicate (Z.to_nat (count - count')) v).
Proof.
  intros Hr Hcode Hlow Hc Hexp. revert count r Hr Hc. induction fuel as [|fuel IH]; intros count r Hr Hc Ho Hf; [lia|]. cbn [emit_repeats]. destruct (Z.ltb_spec count low) as [Hlt|Hge].
  { exists count, r, []. split; [done|]. split; [by apply writes_nil|]. split; [lia|]. split; [lia|]. split; [cbn; lia|]. intros o _. rewrite Z.sub_diag. cbn [Z.to_nat replicate]. by rewrite app_nil_r. }
  set (n := Z.min high count). destruct (emit_repeat_one r code (n - low) Hr Hcode ltac:(lia)) as (r1 & r2 & E1 & E2 & W). rewrite E1. cbn [mbind option_bind]. rewrite E2. cbn [mbind option_bind].
  destruct (IH (count - n) (count_code code r2)) as (count' & r' & ws & E & W' & C1 & C2 & C3 & D); [apply (w_ok _ _ _ W)|lia|rewrite (w_out _ _ _ W), (w_len _ _ _ W); cbn [length]; lia|lia|].
  exists count', r', ([code; n - low] ++ ws). split; [done|]. split; [by eapply writes_trans|]. split; [lia|]. split; [lia|]. split; [cbn [length app]; lia|]. intros o Hgood.
  destruct (Hexp n o ltac:(lia) Hgood) as [X1 X2]. cbn [app]. rewrite (rle_decode_repeat code _ _ _ _ ltac:(lia) X1). rewrite D by done. rewrite <- app_assoc, <- replicate_add. do 3 f_equal. lia.
Qed.

Lemma last_replicate n (v : Z) o : (0 < n)%nat -> last (o ++ replicate n v) = Some v.
Proof. intros Hn. destruct n as [|n]; [lia|]. rewrite replicate_S_end, app_assoc. apply last_snoc. Qed.

Lemma emit_run_ok size count r : rle_ok r -> 0 <= size < 16 -> 1 <= count -> Z.of_nat (out_idx r) + count <= Z.of_nat (length (code_lengths r)) ->
  exists r' ws, emit_run size count r = Some r' /\ writes r r' ws /\ Z.of_nat (length ws) <= count /\ forall o, rle_decode ws o = Some (o ++ replicate (Z.to_nat count) size).
Proof.
  intros Hr Hs Hc Ho. unfold emit_run.
  assert (exists count' r1 ws, (if negb (size =? 0) then r ← emit size r; emit_repeats (S (Z.to_nat count)) 16 3 6 (count - 1) (count_code size r)
     else '(count, r) ← emit_repeats (S (Z.to_nat count)) 18 11 138 count r;
       if 3 <=? count then r ← emit 17 r; r ← emit (count - 3) r; Some (0, count_code 17 r) else Some (count, r)) = Some (count', r1) /\
     writes r r1 ws /\ 0 <= count' <= count /\ Z.of_nat (length ws) <= count - count' /\ forall o, rle_decode ws o = Some (o ++ replicate (Z.to_nat (count - count')) size)) as (count' & r1 & ws & E & W & C1 & C2 & D).
  { destruct (Z.eqb_spec size 0) as [->|Hne]; cbn [negb].
    - destruct (emit_repeats_ok (fun _ => True) 0 18 11 138 (S (Z.to_nat count)) count r) as (c1 & r1 & ws & E & W & C1 & C2 & C3 & D); [done|lia|lia|lia| |lia|lia|].
      { intros n o Hn _. split; [|done]. unfold repeat_of. cbn [Z.eqb Pos.eqb andb]. destruct (Z.leb_spec 0 (n - 11)), (Z.leb_spec (n - 11) 127); try lia. do 2 f_equal. lia. }
      rewrite E. cbn [mbind option_bind]. destruct (Z.leb_spec 3 c1) as [H3|H3]; [|exists c1, r1, ws; split; [done|]; split; [done|]; split; [lia|]; split; [lia|]; intros o; by apply D].
      destruct (emit_repeat_one r1 17 (c1 - 3)) as (r2 & r3 & E1 & E2 & W2); [apply (w_ok _ _ _ W)|lia|rewrite (w_out _ _ _ W), (w_len _ _ _ W); lia|]. rewrite E1. cbn [mbind option_bind]. rewrite E2. cbn [mbind option_bind].
      exists 0, (count_code 17 r3), (ws ++ [17; c1 - 3]). split; [done|]. split; [by eapply writes_trans|]. split; [lia|]. split; [rewrite length_app; cbn [length]; lia|]. intros o.
      rewrite (rle_decode_app _ _ _ _ (D o I)). rewrite (rle_decode_repeat _ _ _ _ (replicate (Z.to_nat c1) 0)); [|lia|].
      + cbn [rle_decode]. rewrite <- app_assoc, <- replicate_add. do 3 f_equal. lia.
      + unfold repeat_of. cbn [Z.eqb Pos.eqb andb]. destruct (Z.leb_spec 0 (c1 - 3)), (Z.leb_spec (c1 - 3) 7); try lia. do 2 f_equal. lia.
    - destruct (emit_plain_one r size Hr Hs ltac:(lia)) as (r1 & E1 & W1). rewrite E1. cbn [mbind option_bind].
      destruct (emit_repeats_ok (fun o => last o = Some size) size 16 3 6 (S (Z.to_nat count)) (count - 1) (count_code size r1)) as (c1 & r2 & ws & E & W & C1 & C2 & C3 & D); [apply (w_ok _ _ _ W1)|lia|lia|lia| |rewrite (w_out _ _ _ W1), (w_len _ _ _ W1); cbn [length]; lia|lia|].
      { intros n o Hn Hlast. split; [|apply last_replicate; lia]. unfold repeat_of. cbn [Z.eqb Pos.eqb andb]. destruct (Z.leb_spec 0 (n - 3)), (Z.leb_spec (n - 3) 3); try lia. cbn [andb]. rewrite Hlast. cbn [mbind option_bind]. do 2 f_equal. lia. }
      exists c1, r2, ([size] ++ ws). split; [done|]. split; [by eapply writes_trans|]. split; [lia|]. split; [cbn [length app]; lia|]. intros o. cbn [app]. rewrite rle_decode_plain by done.
      rewrite D by apply last_snoc. rewrite <- app_assoc. do 2 f_equal. replace (Z.to_nat (count - c1)) with (S (Z.to_nat (count - 1 - c1))) by lia. done. }
  rewrite E. cbn [mbind option_bind]. destruct (emit_plain_ok (Z.to_nat count') size r1) as (r2 & E2 & W2 & D2); [apply (w_ok _ _ _ W)|done|rewrite (w_out _ _ _ W), (w_len _ _ _ W); lia|].
  exists r2, (ws ++ replicate (Z.to_nat count') size). split; [done|]. split; [by eapply writes_trans|]. split; [rewrite length_app, length_replicate; lia|]. intros o.
  rewrite (rle_decode_app _ _ _ _ (D o)), D2, <- app_assoc, <- replicate_add. do 3 f_equal. lia.
Qed.

(** The lengths [ls] followed by the end mark are compressed in place. *)
Lemma rle_loop_ok ls fuel in_idx size count r : Forall (fun x => 0 <= x < 16) ls -> rle_ok r -> length (code_lengths r) = S (length ls) ->
  1 <= count -> Z.of_nat (out_idx r) + count <= Z.of_nat in_idx -> (in_idx <= S (length ls))%nat -> (S (length ls) - in_idx <= fuel)%nat ->
  (forall k, (in_idx <= k)%nat -> code_lengths r !! k = (ls ++ [255]) !! k) ->
  take in_idx (ls ++ [255]) = take (in_idx - Z.to_nat count) ls ++ replicate (Z.to_nat count) size ->
  (size = 255 -> in_idx = S (length ls) /\ count = 1) -> (0 <= size < 16 -> (in_idx <= length ls)%nat) -> (size = 255 \/ 0 <= size < 16) ->
  rle_decode (take (out_idx r) (code_lengths r)) [] = Some (take (in_idx - Z.to_nat count) ls) ->
  codes_use (uses (code_freqs r)) (take (out_idx r) (code_lengths r)) ->
  exists r', rle_loop fuel in_idx size count r = Some r' /\ rle_ok r' /\ length (code_lengths r') = S (length ls) /\ (out_idx r' <= length ls)%nat /\
    rle_decode (take (out_idx r') (code_lengths r')) [] = Some ls /\ codes_use (uses (code_freqs r')) (take (out_idx r') (code_lengths r')).
Proof.
  intros Hls. revert in_idx size count r. induction fuel as [|fuel IH]; intros in_idx size count r Hr Hlen Hc Ho Hin Hf Hrest Hrun H255 Hsz Hsize Hdec Huse.
  all: cbn [rle_loop]; destruct (Z.eqb_spec size 255) as [->|Hne].
  1, 3: destruct (H255 eq_refl) as [-> ->]; exists r; split; [done|]; split; [done|]; split; [done|]; split; [lia|]; split; [|done]; rewrite Hdec; f_equal; apply take_ge; lia.
  { destruct Hsize as [|Hsize]; [done|]. specialize (Hsz Hsize). lia. }
  destruct Hsize as [|Hsize]; [done|]. specialize (Hsz Hsize). destruct (lookup_lt_is_Some_2 (ls ++ [255]) in_idx) as [x Hx]; [rewrite length_app; cbn [length]; lia|].
  rewrite Hrest, Hx by lia. cbn [mbind option_bind].
  assert (x = 255 /\ in_idx = length ls \/ 0 <= x < 16 /\ (in_idx < length ls)%nat /\ ls !! in_idx = Some x) as Hxs.
  { destruct (decide (in_idx = length ls)) as [->|]; [left; rewrite list_lookup_middle in Hx by done; by injection Hx as <-|right].
    rewrite lookup_app_l in Hx by lia. split; [apply (proj1 (Forall_lookup _ _) Hls _ _ Hx)|]. split; [lia|done]. }
  assert (take (S in_idx) (ls ++ [255]) = take in_idx (ls ++ [255]) ++ [x]) as Hts by (by apply take_S_r).
  destruct (Z.eqb_spec x size) as [->|Hnx].
  - apply IH; [done|done|lia|lia|lia|lia|intros k Hk; apply Hrest; lia| |lia| |by right| |done].
    + rewrite Hts, Hrun, <- app_assoc, <- replicate_S_end. replace (Z.to_nat (count + 1)) with (S (Z.to_nat count)) by lia. by replace (S in_idx - S (Z.to_nat count))%nat with (in_idx - Z.to_nat count)%nat by lia.
    + intros _. destruct Hxs as [[-> _]|(_ & ? & _)]; lia.
    + by replace (S in_idx - Z.to_nat (count + 1))%nat with (in_idx - Z.to_nat count)%nat by lia.
  - destruct (emit_run_ok size count r Hr Hsize Hc) as (r1 & ws & E & W & Hlw & D); [lia|]. rewrite E. cbn [mbind option_bind].
    assert (take in_idx (ls ++ [255]) = take in_idx ls) as Hti by (by rewrite take_app_le by lia).
    apply IH; [apply (w_ok _ _ _ W)|by rewrite (w_len _ _ _ W)|lia|rewrite (w_out _ _ _ W); lia|lia|lia| | | | | | |].
    + intros k Hk. rewrite (w_rest _ _ _ W) by (rewrite (w_out _ _ _ W); lia). apply Hrest. lia.
    + rewrite Hts, Hti. change (Z.to_nat 1) with 1%nat. replace (S in_idx - 1)%nat with in_idx by lia. done.
    + intros ->. destruct Hxs as [[_ ->]|(? & _)]; lia.
    + intros ?. destruct Hxs as [[-> _]|(_ & ? & _)]; lia.
    + destruct Hxs as [[-> _]|(? & _)]; [by left|by right].
    + rewrite (w_take _ _ _ W), (rle_decode_app _ _ _ _ Hdec), D. change (Z.to_nat 1) with 1%nat. replace (S in_idx - 1)%nat with in_idx by lia. by rewrite <- Hrun, Hti.
    + rewrite (w_take _ _ _ W). apply codes_use_app; [|apply (w_use _ _ _ W)]. eapply codes_use_mono; [|exact Huse]. intros s. apply uses_le, (w_le _ _ _ W).
Qed.

Lemma rle_ok_all ls : Forall (fun x => 0 <= x < 16) ls -> (0 < length ls < 1000)%nat ->
  exists size r, (ls ++ [255]) !! 0%nat = Some size /\ rle_loop (length (ls ++ [255])) 1 size 1 (mk_rle (ls ++ [255]) 0 (replicate 288 0)) = Some r /\
    rle_ok r /\ (out_idx r < length (code_lengths r))%nat /\ rle_decode (take (out_idx r) (code_lengths r)) [] = Some ls /\ codes_use (uses (code_freqs r)) (take (out_idx r) (code_lengths r)).
Proof.
  intros Hls Hlen. destruct ls as [|x ls]; [cbn in Hlen; lia|]. exists x. apply Forall_cons in Hls as Hx. destruct Hx as [Hx _].
  destruct (rle_loop_ok (x :: ls) (length ((x :: ls) ++ [255])) 1 x 1 (mk_rle ((x :: ls) ++ [255]) 0 (replicate 288 0))) as (r & E & R1 & R2 & R3 & R4 & R5); cbn [code_lengths out_idx code_freqs].
  - done.
  - split; cbn [code_lengths out_idx code_freqs]; [rewrite length_app; cbn [length] in *; lia|]. split; [done|apply Forall_replicate; lia|].
    intros s. unfold in_use, peek. destruct (replicate 288 0 !! Z.to_nat (Z.of_nat s)) as [y|] eqn:Ey; [|done]. apply lookup_replicate in Ey as [-> _]. done.
  - rewrite length_app. cbn [length]. lia.
  - lia.
  - lia.
  - cbn [length]. lia.
  - rewrite length_app. cbn [length]. lia.
  - done.
  - done.
  - lia.
  - cbn [length]. lia.
  - by right.
  - done.
  - done.
  - exists r. split; [done|]. split; [done|]. split; [done|]. split; [lia|done].
Qed.

(** ** Writing and reading the lengths *)

(** The number of bits behind a code. *)
Definition extra_of (c : Z) : Z := if c =? 16 then 2 else if c =? 17 then 3 else if c =? 18 then 7 else 0.

Lemma rle_case (R : list Z -> list Z -> Prop) o' :
  R [] o' ->
  (forall c ws o, 0 <= c < 16 -> rle_decode ws (o ++ [c]) = Some o' -> R ws (o ++ [c]) -> R (c :: ws) o) ->
  (forall c x ws o v n, 16 <= c < 19 -> 0 <= x < 2 ^ extra_of c -> n = Z.to_nat (x + (if c =? 18 then 11 else 3)) -> (0 < n)%nat -> (c = 16 -> last o = Some v) -> (c <> 16 -> v = 0) ->
    rle_decode ws (o ++ replicate n v) = Some o' -> R ws (o ++ replicate n v) -> R (c :: x :: ws) o) ->
  forall ws o, rle_decode ws o = Some o' -> R ws o.
Proof.
  intros Hnil Hlit Hrep ws. induction ws as [ws IH] using (induction_ltof1 _ length). unfold ltof in IH. intros o E.
  destruct ws as [|c ws]; cbn [rle_decode] in E; [by injection E as ->|]. destruct (Z.leb_spec 0 c), (Z.ltb_spec c 16); cbn [andb] in E.
  { apply Hlit; [lia|done|]. apply IH; [cbn; lia|done]. }
  all: destruct ws as [|x ws]; [done|]; destruct (repeat_of c x o) as [l|] eqn:Er; [|done]; unfold repeat_of in Er.
  all: destruct (Z.eqb_spec c 16); [|destruct (Z.eqb_spec c 17); [|destruct (Z.eqb_spec c 18); [|done]]]; try lia; subst c; cbn [andb] in Er.
  all: destruct (Z.leb_spec 0 x); [|done].
  - destruct (Z.leb_spec x 3); [|done]. cbn [andb] in Er. destruct (last o) as [v|] eqn:El; [|done]. injection Er as <-.
    eapply (Hrep 16 x ws o v); [lia|cbn; lia|done|cbn; lia|done|lia|exact E|apply IH; [cbn; lia|done]].
  - destruct (Z.leb_spec x 7); [|done]. injection Er as <-. eapply (Hrep 17 x ws o 0); [lia|cbn; lia|done|cbn; lia|lia|done|exact E|apply IH; [cbn; lia|done]].
  - destruct (Z.leb_spec x 127); [|done]. injection Er as <-. eapply (Hrep 18 x ws o 0); [lia|cbn; lia|done|cbn; lia|lia|done|exact E|apply IH; [cbn; lia|done]].
Qed.

Lemma rle_decode_length ws o o' : rle_decode ws o = Some o' -> (length o <= length o')%nat.
Proof.
  revert ws o. apply (rle_case (fun _ o => (length o <= length o')%nat)); [done| |].
  - intros c ws o _ _ H. rewrite length_app in H. lia.
  - intros c x ws o v n _ _ _ _ _ _ _ H. rewrite length_app in H. lia.
Qed.

Lemma repeat_length_ok n v lens count : (count + n <= length lens)%nat ->
  exists lens', repeat_length n v lens count = Some (lens', (count + n)%nat) /\ length lens' = length lens /\ take (count + n) lens' = take count lens ++ replicate n v.
Proof.
  revert lens count. induction n as [|n IH]; intros lens count Hn; cbn [repeat_length replicate].
  { exists lens. rewrite Nat.add_0_r, app_nil_r. done. }
  rewrite bool_decide_true by lia. destruct (IH (<[count := v]> lens) (S count)) as (lens' & E & H1 & H2); [rewrite length_insert; lia|].
  exists lens'. rewrite E. split; [do 2 f_equal; lia|]. rewrite length_insert in H1. split; [done|]. replace (count + S n)%nat with (S count + n)%nat by lia. rewrite H2.
  rewrite (proj2 (put_take lens count v ltac:(lia))), <- app_assoc. done.
Qed.

Section Lengths.
Context (table : huffman_encode_table_t) (dec : huffman_decode_table_t) (P : Z -> Prop) `{!Codec table dec 19 P}.

(** The bits [e] add the lengths from [o] to [o']. *)
Definition lengths_decode (e : list bool) (o o' : list Z) : Prop :=
  forall fuel total lens rest out (Q : option (list Z) -> list bool -> list Z -> Prop),
  (length o' <= total <= 320)%nat -> length lens = 320%nat -> take (length o) lens = o -> (total - length o < fuel)%nat ->
  (forall fuel lens, length lens = 320%nat -> take (length o') lens = o' -> (total - length o' < fuel)%nat -> decodes (lengths_loop fuel dec total (length o') lens) rest out Q) ->
  decodes (lengths_loop fuel dec total (length o) lens) (e ++ rest) out Q.

Lemma lengths_plain e c o o' : (forall rest out (Q : Z -> list bool -> list Z -> Prop), Q c rest out -> decodes (huffman_decode dec 19) (e ++ rest) out Q) ->
  0 <= c < 16 -> forall e', lengths_decode e' (o ++ [c]) o' -> (length (o ++ [c]) <= length o')%nat -> lengths_decode (e ++ e') o o'.
Proof.
  intros Hdec Hc e' He' Hlen fuel total lens rest out Q Htot Hl Ho Hf Hnext. rewrite length_app in Hlen. cbn [length] in Hlen. destruct fuel as [|fuel]; [lia|]. cbn [lengths_loop]. rewrite bool_decide_false by lia.
  rewrite <- app_assoc. apply decodes_bind, Hdec. rewrite (proj2 (Z.eqb_neq c 16)), andb_false_r by lia. destruct (Z.ltb_spec c 0); [lia|]. destruct (Z.ltb_spec c 16); [|lia].
  destruct (repeat_length_ok 1 c lens (length o)) as (lens' & E & H1 & H2); [lia|]. rewrite E. cbn zeta beta.
  replace (length o + 1)%nat with (length (o ++ [c])) in H2 |- * by (rewrite length_app; done). apply He'; [done|lia| |rewrite length_app; cbn [length]; lia|done]. rewrite H2, Ho. done.
Qed.

Lemma lengths_repeat e c x v n o o' : (forall rest out (Q : Z -> list bool -> list Z -> Prop), Q c rest out -> decodes (huffman_decode dec 19) (e ++ rest) out Q) ->
  16 <= c < 19 -> 0 <= x < 2 ^ extra_of c -> n = Z.to_nat (x + (if c =? 18 then 11 else 3)) -> (0 < n)%nat -> (c = 16 -> last o = Some v) -> (c <> 16 -> v = 0) ->
  forall e', lengths_decode e' (o ++ replicate n v) o' -> (length (o ++ replicate n v) <= length o')%nat -> lengths_decode (e ++ bits_of (Z.to_nat (extra_of c)) x ++ e') o o'.
Proof.
  intros Hdec Hc Hx Hn Hn0 Hlast Hv e' He' Hlen fuel total lens rest out Q Htot Hl Ho Hf Hnext. rewrite length_app, length_replicate in Hlen. destruct fuel as [|fuel]; [lia|]. cbn [lengths_loop]. rewrite (bool_decide_false (total <= length o)%nat) by lia.
  rewrite <- !app_assoc. apply decodes_bind, Hdec.
  assert (bool_decide (length o = 0)%nat && (c =? 16) = false) as ->.
  { destruct (Z.eqb_spec c 16) as [E|]; [|apply andb_false_r]. specialize (Hlast E). rewrite bool_decide_false; [done|]. intros E0. by apply length_zero_iff_nil in E0 as ->. }
  destruct (Z.ltb_spec c 0); [lia|]. destruct (Z.ltb_spec c 16); [lia|]. destruct (Z.ltb_spec c 19); [|lia].
  assert ((if c =? 16 then 2 else if c =? 17 then 3 else 7) = extra_of c) as ->.
  { unfold extra_of. destruct (Z.eqb_spec c 16); [done|]. destruct (Z.eqb_spec c 17); [done|]. destruct (Z.eqb_spec c 18); [done|lia]. }
  assert (0 <= extra_of c) as He0 by (unfold extra_of; repeat destruct (_ =? _); lia).
  apply decodes_bind, decodes_get; [rewrite length_bits_of; lia|]. rewrite num_bits_of, Z2Nat.id, Z.mod_small by lia. destruct (Z.ltb_spec x 0); [lia|]. apply decodes_bind.
  destruct (repeat_length_ok n v lens (length o)) as (lens' & E & R1 & R2); [lia|].
  assert (decodes (match repeat_length (Z.to_nat (x + (if c =? 18 then 11 else 3))) v lens (length o) with Some (lens, count) => lengths_loop fuel dec total count lens | None => cpu_hlt end) (e' ++ rest) out Q) as Hgo.
  { rewrite <- Hn, E. replace (length o + n)%nat with (length (o ++ replicate n v)) in R2 |- * by (rewrite length_app, length_replicate; done).
    apply He'; [done|lia|by rewrite R2, Ho|rewrite length_app, length_replicate; lia|done]. }
  destruct (Z.eqb_spec c 16) as [E16|E16].
  - specialize (Hlast E16). rewrite last_lookup in Hlast. assert (0 < length o)%nat as Hlo by (destruct o; [done|cbn; lia]).
    eapply decodes_item; [lia| |exact Hgo]. replace (Z.to_nat (Z.of_nat (length o) - 1)) with (pred (length o)) by lia. rewrite <- (lookup_take_lt lens (length o)), Ho by lia. done.
  - apply decodes_ret. rewrite (Hv E16) in Hgo. exact Hgo.
Qed.

Lemma put_lengths_ok ws o o' tail b bits : rle_decode ws o = Some o' -> codes_use P ws -> writer_ok b ->
  exists b' e, put_lengths (ws ++ 255 :: tail) table b bits = Some (b', bits + Z.of_nat (length e)) /\ writer_ok b' /\ written b' = written b ++ e /\ lengths_decode e o o'.
Proof using Codec0.
  intros Hd Hu Hb. revert ws o Hd b bits Hb Hu.
  apply (rle_case (fun ws o => forall b bits, writer_ok b -> codes_use P ws ->
    exists b' e, put_lengths (ws ++ 255 :: tail) table b bits = Some (b', bits + Z.of_nat (length e)) /\ writer_ok b' /\ written b' = written b ++ e /\ lengths_decode e o o')).
  - intros b bits Hb _. exists b, []. cbn [app put_lengths length]. split; [do 2 f_equal; lia|]. split; [done|]. split; [by rewrite app_nil_r|].
    intros fuel total lens rest out Q Htot Hl Ho Hf Hnext. by apply Hnext.
  - intros c ws o Hc Hd IH b bits Hb [Hc' Hu]. rewrite (proj2 (Z.ltb_lt c 16)) in Hu by lia. destruct (codec_bits c Hc') as (len & code & E1 & E2 & Hlen & Hdec).
    destruct (put_ok b len code Hb) as [W1 W2]. destruct (IH (bit_buffer_put b len code) (bits + len) W1 Hu) as (b' & e & E & W3 & W4 & D).
    exists b', (bits_of (Z.to_nat len) code ++ e). cbn [app put_lengths]. rewrite (proj2 (Z.eqb_neq c 255)) by lia. unfold put_symbol. rewrite E1, E2. cbn [mbind option_bind].
    rewrite (proj2 (Z.eqb_neq c 16)), (proj2 (Z.eqb_neq c 17)), (proj2 (Z.eqb_neq c 18)) by lia. cbn [Z.eqb]. rewrite E. split; [do 2 f_equal; rewrite length_app, length_bits_of; lia|].
    split; [done|]. split; [by rewrite W4, W2, <- app_assoc|]. apply lengths_plain with c; [done|done|done|by eapply rle_decode_length].
  - intros c x ws o v n Hc Hx Hn Hn0 Hlast Hv Hd IH b bits Hb [Hc' Hu]. rewrite (proj2 (Z.ltb_ge c 16)) in Hu by lia. destruct (codec_bits c Hc') as (len & code & E1 & E2 & Hlen & Hdec).
    destruct (put_ok b len code Hb) as [W1 W2]. destruct (put_ok _ (extra_of c) x W1) as [W1' W2'].
    destruct (IH (bit_buffer_put (bit_buffer_put b len code) (extra_of c) x) (bits + len + extra_of c) W1' Hu) as (b' & e & E & W3 & W4 & D).
    exists b', (bits_of (Z.to_nat len) code ++ bits_of (Z.to_nat (extra_of c)) x ++ e). cbn [app put_lengths]. rewrite (proj2 (Z.eqb_neq c 255)) by lia. unfold put_symbol. rewrite E1, E2. cbn [mbind option_bind].
    change (if c =? 16 then 2 else if c =? 17 then 3 else if c =? 18 then 7 else 0) with (extra_of c).
    assert (0 < extra_of c) as He0 by (unfold extra_of; destruct (Z.eqb_spec c 16); [lia|]; destruct (Z.eqb_spec c 17); [lia|]; destruct (Z.eqb_spec c 18); lia).
    rewrite (proj2 (Z.eqb_neq (extra_of c) 0)), E by lia. split; [do 2 f_equal; rewrite !length_app, !length_bits_of; lia|]. split; [done|]. split; [by rewrite W4, W2', W2, <- !app_assoc|].
    eapply lengths_repeat; [exact Hdec|done|done|done|done|done|done|done|by eapply rle_decode_length].
Qed.
End Lengths.

(** ** The lengths of the code for lengths *)

Section Order.
Context (t : list Z).

Definition order_bits (order : list Z) : list bool := order ≫= (fun o => bits_of 3 (t !!! Z.to_nat o)).
Definition order_lens (order : list Z) (lens : list Z) : list Z := fold_left (fun l o => <[Z.to_nat o := t !!! Z.to_nat o]> l) order lens.

Lemma put_order_ok order b : writer_ok b ->
  let b' := fold_left (fun h o => bit_buffer_put h 3 (t !!! Z.to_nat o)) order b in writer_ok b' /\ written b' = written b ++ order_bits order.
Proof.
  revert b. induction order as [|o order IH]; intros b Hb; cbn [fold_left]; [by rewrite app_nil_r|]. destruct (put_ok b 3 (t !!! Z.to_nat o) Hb) as [W1 W2].
  destruct (IH _ W1) as [W3 W4]. split; [done|]. rewrite W4, W2, <- app_assoc. done.
Qed.

Lemma read_order_ok order lens rest out Q : (forall o, o ∈ order -> 0 <= t !!! Z.to_nat o < 8) -> Q (Some (order_lens order lens)) rest out ->
  decodes (read_code_lengths order lens) (order_bits order ++ rest) out Q.
Proof.
  revert lens. induction order as [|o order IH]; intros lens Ht HQ; cbn [read_code_lengths]; [by apply decodes_ret|].
  change (order_bits (o :: order)) with (bits_of 3 (t !!! Z.to_nat o) ++ order_bits order). rewrite <- app_assoc. pose proof (Ht o ltac:(by constructor)) as Ho.
  apply decodes_bind, decodes_get; [by rewrite length_bits_of|]. rewrite num_bits_of. change (2 ^ Z.of_nat 3) with 8. rewrite Z.mod_small by lia. destruct (Z.ltb_spec (t !!! Z.to_nat o) 0); [lia|].
  apply IH; [intros o' Ho'; apply Ht; by constructor|done].
Qed.

Lemma order_lens_lookup order lens i : (i < length lens)%nat -> length (order_lens order lens) = length lens /\
  order_lens order lens !! i = if bool_decide (i ∈ map Z.to_nat order) then Some (t !!! i) else lens !! i.
Proof.
  revert lens. induction order as [|o order IH]; intros lens Hi; cbn [order_lens fold_left map]; [done|].
  destruct (IH (<[Z.to_nat o := t !!! Z.to_nat o]> lens) ltac:(by rewrite length_insert)) as [H1 H2]. fold (order_lens order (<[Z.to_nat o := t !!! Z.to_nat o]> lens)). rewrite H1, H2, length_insert. split; [done|].
  destruct (decide (i ∈ map Z.to_nat order)) as [Hin|Hin]; [by rewrite !bool_decide_true by (try done; by constructor)|]. rewrite (bool_decide_false _ Hin).
  destruct (decide (i = Z.to_nat o)) as [->|Hne]; [rewrite bool_decide_true by constructor; by apply list_lookup_insert_eq|].
  rewrite list_lookup_insert_ne by done. rewrite bool_decide_false; [done|]. intros [?|?]%elem_of_cons; done.
Qed.

Lemma order_lens_all : (19 <= length t)%nat -> take 19 (order_lens huffman_code_lengths (replicate 320 0)) = take 19 t /\ length (order_lens huffman_code_lengths (replicate 320 0)) = 320%nat.
Proof.
  intros Ht. destruct (order_lens_lookup huffman_code_lengths (replicate 320 0) 0) as [Hlen _]; [cbn; lia|]. split; [|done].
  apply list_eq. intros i. destruct (decide (i < 19)%nat) as [Hi|Hi]; [|rewrite !lookup_take_ge by lia; done]. rewrite !lookup_take_lt by lia.
  assert (i < length (replicate 320 0%Z))%nat as Hi' by (rewrite length_replicate; lia). rewrite (proj2 (order_lens_lookup _ _ i Hi')). rewrite bool_decide_true; [by rewrite list_lookup_lookup_total_lt by lia|].
  assert (forallb (fun i => bool_decide (i ∈ map Z.to_nat huffman_code_lengths)) (seq 0 19) = true) as H by (vm_compute; reflexivity).
  rewrite forallb_forall in H. specialize (H i ltac:(apply in_seq; lia)). by apply bool_decide_eq_true in H.
Qed.
End Order.

(** ** The whole header *)

Lemma take_app_parts {A} (l a b : list A) n : take n l = a ++ b -> take (length a) l = a /\ take (n - length a) (drop (length a) l) = b.
Proof.
  intros E. assert (length a <= n)%nat as Hn by (apply (f_equal length) in E; rewrite length_take, length_app in E; lia). split.
  - replace (length a) with (length a `min` n)%nat at 1 by lia. rewrite <- take_take, E. apply take_app_length.
  - rewrite take_drop_commute. replace (length a + (n - length a))%nat with n by lia. rewrite E. apply drop_app_length.
Qed.

Lemma put_value b n v : writer_ok b -> 0 <= n -> 0 <= v < 2 ^ n -> writer_ok (bit_buffer_put b n v) /\ written (bit_buffer_put b n v) = written b ++ bits_of (Z.to_nat n) v /\
  num (bits_of (Z.to_nat n) v) = v /\ Z.of_nat (length (bits_of (Z.to_nat n) v)) = n.
Proof.
  intros Hb Hn Hv. destruct (put_ok b n v Hb) as [H1 H2]. split; [done|]. split; [done|]. rewrite num_bits_of, length_bits_of, Z2Nat.id by done. split; [by apply Z.mod_small|done].
Qed.

(** What the header says of the two tables is read back. *)
Lemma header_ok table dec (P : Z -> Prop) A B ws tail : Codec table dec 19 P -> huffman_decode_table_build (take 19 (lengths table)) 7 = Some dec ->
  length (lengths table) = 288%nat -> (forall s l, lengths table !! s = Some l -> 0 <= l <= 7) ->
  (257 <= length A <= 286)%nat -> (1 <= length B <= 30)%nat -> rle_decode ws [] = Some (A ++ B) -> codes_use P ws ->
  exists header e, put_header (Z.of_nat (length A) - 1) (Z.of_nat (length B) - 1) table (ws ++ 255 :: tail) = Some (header, Z.of_nat (length e)) /\
    reader_ok header /\ (exists pad, unread header = e ++ pad) /\
    forall rest out Q dl dd, huffman_decode_table_build A 15 = Some dl -> huffman_decode_table_build B 15 = Some dd -> Q (Some (dl, dd)) rest out ->
      decodes huffman_decode_table_decode (e ++ rest) out Q.
Proof.
  intros HC Hbuild Hlen Hrange HA HB Hdec Huse. unfold put_header.
  assert (u64 (Z.of_nat (length A) - 1 + 1 - 257) = Z.of_nat (length A) - 257) as -> by (unfold u64; rewrite Z.mod_small by lia; lia).
  assert (writer_ok (mk_bit_buffer [] 0 0)) as W0 by (split; cbn; [constructor|lia|lia]).
  destruct (put_value _ 5 (Z.of_nat (length A) - 257) W0 ltac:(lia) ltac:(lia)) as (W1 & E1 & N1 & L1). set (b1 := bit_buffer_put _ 5 _) in *.
  destruct (put_value b1 5 (Z.of_nat (length B) - 1) W1 ltac:(lia) ltac:(lia)) as (W2 & E2 & N2 & L2). set (b2 := bit_buffer_put b1 5 _) in *.
  destruct (put_value b2 4 (18 + 1 - 4) W2 ltac:(lia) ltac:(lia)) as (W3 & E3 & N3 & L3). set (b3 := bit_buffer_put b2 4 _) in *.
  destruct (put_order_ok (lengths table) huffman_code_lengths b3 W3) as [W4 E4]. set (b4 := fold_left _ _ _) in *.
  destruct (put_lengths_ok table dec P ws [] (A ++ B) tail b4 (14 + 3 * 19) Hdec Huse W4) as (b5 & e & Ep & W5 & E5 & Hld). rewrite Ep. cbn [mbind option_bind].
  destruct (push_ok b5 W5) as (W6 & C6 & E6). set (e1 := bits_of _ _) in E1. set (e2 := bits_of _ _) in E2. set (e3 := bits_of _ _) in E3. fold e1 in N1, L1. fold e2 in N2, L2. fold e3 in N3, L3.
  assert (length (order_bits (lengths table) huffman_code_lengths) = 57%nat) as Lo by reflexivity.
  exists (bit_buffer_push b5), (e1 ++ e2 ++ e3 ++ order_bits (lengths table) huffman_code_lengths ++ e). split; [|split; [|split]].
  - do 2 f_equal. rewrite !length_app, Lo. lia.
  - destruct W6 as [V1 V2 V3]. split; [done|]. lia.
  - exists (padding (length (written b5))). assert (bit_buffer_push b5 = mk_bit_buffer (buffer (bit_buffer_push b5)) 0 0) as Ebp.
    { destruct W6 as [_ _ V3]. rewrite C6 in V3. destruct (bit_buffer_push b5) as [bu by_ bc]. cbn in *. f_equal; lia. }
    rewrite Ebp. rewrite (proj2 (reader_of_writer _ W6 C6)), E6, E5, E4, E3, E2, E1. cbn [written buffer bytes_bits mbind list_bind bit_count byte Z.to_nat bits_of app]. by rewrite <- !app_assoc.
  - intros rest out Q dl dd Hdl Hdd HQ. rewrite <- !app_assoc. unfold huffman_decode_table_decode.
    apply decodes_bind, decodes_get; [done|]. rewrite N1. destruct (Z.ltb_spec (Z.of_nat (length A) - 257) 0); [lia|].
    apply decodes_bind, decodes_get; [done|]. rewrite N2. destruct (Z.ltb_spec (Z.of_nat (length B) - 1) 0); [lia|].
    apply decodes_bind, decodes_get; [done|]. rewrite N3. change (18 + 1 - 4 <? 0) with false. cbv iota. change (take (Z.to_nat (4 + (18 + 1 - 4))) huffman_code_lengths) with huffman_code_lengths.
    apply decodes_bind, read_order_ok.
    { intros o Ho. destruct (lengths table !! Z.to_nat o) as [l|] eqn:El; [rewrite (list_lookup_total_correct _ _ _ El); specialize (Hrange _ _ El); lia|].
      rewrite list_lookup_total_alt, El. cbn. lia. }
    destruct (order_lens_all (lengths table) ltac:(lia)) as [O1 O2]. set (lens := order_lens _ _ _) in *. rewrite O1, Hbuild.
    replace (257 + (Z.of_nat (length A) - 257)) with (Z.of_nat (length A)) by lia. replace (1 + (Z.of_nat (length B) - 1)) with (Z.of_nat (length B)) by lia.
    rewrite <- Nat2Z.inj_add, !Nat2Z.id. apply decodes_bind. change 0%nat with (length (@nil Z)) at 1.
    apply Hld; [rewrite length_app; lia|done|done|cbn [length]; lia|]. intros fuel lens' Hl' Ht' Hf'. rewrite length_app in *. destruct fuel as [|fuel]; [lia|]. cbn [lengths_loop].
    rewrite bool_decide_true by lia. apply decodes_ret. destruct (take_app_parts _ _ _ _ Ht') as [P1 P2]. replace (length A + length B - length A)%nat with (length B) in P2 by lia.
    rewrite P1, P2, Hdl, Hdd. by apply decodes_ret.
Qed.
