(* ===== verification/DeflateStream.v ===== *)
(** * DEFLATE: dynamic, fixed and stored blocks, and the stream *)

From S2P Require Import Prelude Quicksort Deflate DeflateEncode DeflateBits DeflateHuffman DeflateBlock DeflateFixed DeflateMatch DeflateLevels DeflateTable DeflateHeader.

(** ** The tables of a dynamic block *)

(** A block can have a dynamic table: fewer than 256 symbols are in use. *)
Definition few_symbols (block : list Z) : Prop := (length (remove_dups block) <= 225)%nat.

Lemma few_symbols_count block f : Forall is_byte block -> block_freqs block f -> few_symbols block -> Z.of_nat (length (used_symbols (literal_freqs f) 0)) <= 255.
Proof.
  intros Hb [F1 F2 F3 F4 F5 F6] Hfew. assert (length (used_symbols (literal_freqs f) 0) <= length (map Z.to_nat (remove_dups block) ++ seq 256 30))%nat as H.
  - apply used_symbols_bound; [done|]. intros s Hs. apply elem_of_app. destruct (F6 s Hs) as [Hin|Hr]; [left|right].
    + apply list_elem_of_fmap. exists (Z.of_nat s). split; [by rewrite Nat2Z.id|by apply elem_of_remove_dups].
    + apply list_elem_of_In, in_seq. lia.
  - rewrite length_app, length_map, length_seq in H. unfold few_symbols in Hfew. lia.
Qed.

Lemma codec_ext enc dec max (P Q : Z -> Prop) : (forall s, Q s -> P s) -> Codec enc dec max P -> Codec enc dec max Q.
Proof. intros H HC. split. intros s Hs. apply HC, H, Hs. Qed.

Lemma tables_ok block f : Forall is_byte block -> block_freqs block f -> few_symbols block ->
  exists syms dists header e, huffman_encode_build_tables_and_code f = Some (Some (syms, dists, header, Z.of_nat (length e))) /\
    reader_ok header /\ (exists pad, unread header = e ++ pad) /\
    exists dl dd, Codec syms dl 288 (uses (literal_freqs f)) /\ Codec dists dd 30 (uses (distance_freqs f)) /\
      forall rest out (Q : option (huffman_decode_table_t * huffman_decode_table_t) -> list bool -> list Z -> Prop), Q (Some (dl, dd)) rest out -> decodes huffman_decode_table_decode (e ++ rest) out Q.
Proof.
  intros Hb Hbf Hfew. pose proof (few_symbols_count block f Hb Hbf Hfew) as Hcount. destruct Hbf as [F1 F2 F3 F4 F5 F6]. unfold huffman_encode_build_tables_and_code.
  destruct (build_ok (literal_freqs f) 15 F3 ltac:(lia) ltac:(lia)) as (syms & mu & E1 & [S1 S2 S3 S4 _]); [change (2 ^ 15) with 32768; lia|]. rewrite E1. cbn [mbind option_bind negb].
  assert (Z.of_nat (length (used_symbols (distance_freqs f) 0)) <= 30) as Hcd.
  { pose proof (used_symbols_bound (distance_freqs f) (seq 0 30) F4) as H. rewrite length_seq in H. cut (length (used_symbols (distance_freqs f) 0) <= 30)%nat; [lia|]. apply H. intros s Hs. apply list_elem_of_In, in_seq.
    destruct (decide (s < 30)%nat); [lia|]. unfold in_use, peek in Hs. rewrite Nat2Z.id, lookup_ge_None_2 in Hs by lia. done. }
  destruct (build_ok (distance_freqs f) 15 F4 ltac:(lia) ltac:(lia)) as (dists & md & E2 & [D1 D2 D3 D4 _]); [change (2 ^ 15) with 32768; lia|]. rewrite E2. cbn [mbind option_bind negb].
  destruct (proj1 (in_use_uses _ _) F5) as [_ H256]. assert (256 <= mu <= 285) as Hmu.
  { split; [specialize (S2 _ H256); lia|]. specialize (S4 ltac:(by eexists)). destruct (F6 _ S4) as [Hin|]; [|lia]. rewrite Forall_forall in Hb. specialize (Hb _ Hin). unfold is_byte in Hb. lia. }
  set (A := take (S (Z.to_nat mu)) (lengths syms)). set (B := take (S (Z.to_nat md)) (lengths dists)).
  assert (length A = S (Z.to_nat mu)) as LA by (unfold A; rewrite length_take, (proj2 (good_sizes _ _ _ S1)); lia).
  assert (length B = S (Z.to_nat md)) as LB by (unfold B; rewrite length_take, (proj2 (good_sizes _ _ _ D1)); lia).
  assert (Forall (fun x => 0 <= x < 16) (A ++ B)) as Hls.
  { apply Forall_app. split; apply Forall_lookup; intros s x Hs; apply lookup_take_Some in Hs as [Hs _]; [pose proof (good_range _ _ _ S1 _ _ Hs)|pose proof (good_range _ _ _ D1 _ _ Hs)]; lia. }
  destruct (rle_ok_all (A ++ B) Hls) as (size & r & E3 & E4 & [R1 R2] & R3 & R4 & R5); [rewrite length_app; lia|]. rewrite app_assoc, E3. cbn [mbind option_bind]. rewrite E4. cbn [mbind option_bind].
  unfold put at 1. rewrite bool_decide_true by done. cbn [mbind option_bind]. destruct R2 as [C1 C2 C3].
  assert (length (used_symbols (code_freqs r) 0) <= 19)%nat as Hcc.
  { apply (used_symbols_bound _ (seq 0 19)); [eapply Forall_impl; [exact C2|]; cbn beta; lia|]. intros s Hs. apply list_elem_of_In, in_seq. specialize (C3 s Hs). lia. }
  destruct (build_ok (code_freqs r) 7) as (table & mt & E5 & [T1 _ _ _ _]); [eapply Forall_impl; [exact C2|]; cbn beta; lia|lia|lia|change (2 ^ 7) with 128; lia|]. rewrite E5. cbn [mbind option_bind negb].
  destruct (good_codec _ _ table 19 19 T1) as (dec & Edec & HC); [lia|lia|lia|apply C3|].
  rewrite insert_take_drop by done. set (ws := take (out_idx r) (code_lengths r)) in *.
  destruct (header_ok table dec (fun s => 0 <= s /\ in_use (code_freqs r) (Z.to_nat s)) A B ws (drop (S (out_idx r)) (code_lengths r))) as (header & e & Eh & Hr & Hun & Hd);
    [done|done|apply (good_sizes _ _ _ T1)|apply (good_range _ _ _ T1)|lia|lia|done| |].
  { eapply codes_use_mono; [|exact R5]. intros s. apply in_use_uses. }
  replace (Z.of_nat (length A) - 1) with mu in Eh by lia. replace (Z.of_nat (length B) - 1) with md in Eh by lia. rewrite Eh. cbn [mbind option_bind].
  exists syms, dists, header, e. split; [done|]. split; [done|]. split; [done|].
  destruct (good_codec _ _ syms (S (Z.to_nat mu)) 288 S1) as (dl & El & HCl); [lia|lia|lia|intros s Hs; specialize (S2 s Hs); lia|].
  destruct (good_codec _ _ dists (S (Z.to_nat md)) 30 D1) as (dd & Ed & HCd); [lia|lia|lia|intros s Hs; specialize (D2 s Hs); lia|].
  exists dl, dd. split; [eapply codec_ext; [|exact HCl]; intros s; apply in_use_uses|]. split; [eapply codec_ext; [|exact HCd]; intros s; apply in_use_uses|].
  intros rest out Q HQ. by apply (Hd rest out Q dl dd).
Qed.

(** ** Copied bits *)

Lemma copy_bits_ok e pad from b : reader_ok from -> unread from = e ++ pad -> writer_ok b ->
  writer_ok (copy_bits (length e) from b) /\ written (copy_bits (length e) from b) = written b ++ e.
Proof.
  revert from b. induction e as [|x e IH]; intros from b Hr Hu Hb; cbn [length copy_bits]; [by rewrite app_nil_r|].
  destruct (get_ok [x] (e ++ pad) from 1 Hr Hu eq_refl) as (from' & E & Hr' & Hu'). rewrite E. destruct (put_ok b 1 (num [x]) Hb) as [W1 W2].
  destruct (IH from' (bit_buffer_put b 1 (num [x])) Hr' Hu' W1) as [W3 W4]. split; [done|]. rewrite W4, W2, <- app_assoc. f_equal. cbn [Z.to_nat Pos.to_nat]. by destruct x.
Qed.

(** ** Whole bytes of the input *)

Lemma bytes_bits_inj l1 l2 : Forall is_byte l1 -> Forall is_byte l2 -> bytes_bits l1 = bytes_bits l2 -> l1 = l2.
Proof.
  intros H1. revert l2. induction H1 as [|x l1 Hx H1 IH]; intros l2 H2 E.
  - destruct l2; [done|]. apply (f_equal length) in E. rewrite !length_bytes_bits in E. cbn in E. lia.
  - destruct H2 as [|y l2 Hy H2]; [apply (f_equal length) in E; rewrite !length_bytes_bits in E; cbn in E; lia|]. rewrite !bytes_bits_cons in E. apply app_inj_1 in E as [E1 E2]; [|by rewrite !length_bits_of].
    f_equal; [|by apply IH]. apply (f_equal num) in E1. rewrite !num_bits_of in E1. unfold is_byte in *. change (2 ^ Z.of_nat 8) with 256 in E1. by rewrite !Z.mod_small in E1.
Qed.

Lemma aligned b : reader_ok b -> Z.of_nat (length (unread b)) mod 8 = 0 -> bit_count b = 0 /\ unread b = bytes_bits (buffer b).
Proof. intros Hb H. rewrite unread_length in H by done. split; [done|]. unfold unread. by rewrite H. Qed.

Lemma decodes_discard pad l o (Q : unit -> list bool -> list Z -> Prop) : Z.of_nat (length pad) < 8 -> Z.of_nat (length l) mod 8 = 0 -> Q tt l o -> decodes discard (pad ++ l) o Q.
Proof.
  intros Hp Hl HQ s Hs Hu <-. pose proof (unread_length _ Hs) as Hc. rewrite Hu, length_app, Nat2Z.inj_add, Z.add_mod, Hl, Z.add_0_r, Z.mod_mod, Z.mod_small in Hc by lia.
  unfold wp, discard. cbn [input output bitbuffer_discard]. destruct Hs as [H1 H2]. split; [split; cbn; [done|lia]|]. unfold unread in *. cbn [bitbuffer_discard buffer byte bit_count Z.to_nat bits_of app].
  apply app_inj_1 in Hu as [_ ->]; [done|]. rewrite length_bits_of. lia.
Qed.

Lemma decodes_bytes bs l o (Q : list Z -> list bool -> list Z -> Prop) : Forall is_byte bs -> Z.of_nat (length l) mod 8 = 0 -> Q bs l o -> decodes (take_bytes (length bs)) (bytes_bits bs ++ l) o Q.
Proof.
  intros Hbs Hl HQ s Hs Hu <-. destruct (aligned _ Hs) as [Hc Hb].
  { rewrite Hu, length_app, length_bytes_bits, Nat2Z.inj_add, Nat2Z.inj_mul, Z.add_mod, Hl, (Z.mul_comm (Z.of_nat 8)) by lia. change (Z.of_nat 8) with 8. by rewrite Z.mod_mul by lia. }
  unfold wp, take_bytes. pose proof (f_equal length Hb) as Hlen. rewrite Hu, length_app, !length_bytes_bits in Hlen. destruct Hs as [H1 H2].
  rewrite bool_decide_true by lia. rewrite Hu in Hb. rewrite <- (take_drop (length bs) (buffer (input s))), bytes_bits_app in Hb.
  apply app_inj_1 in Hb as [B1 B2]; [|rewrite !length_bytes_bits, length_take; lia]. apply bytes_bits_inj in B1; [|done|by apply Forall_take]. split; cbn [input output].
  - split; cbn; [by apply Forall_drop|done].
  - rewrite <- B1. unfold unread. cbn [buffer byte bit_count]. rewrite Hc. cbn [Z.to_nat bits_of app]. by rewrite <- B2.
Qed.

Lemma decodes_byte x l o (Q : Z -> list bool -> list Z -> Prop) : is_byte x -> Z.of_nat (length l) mod 8 = 0 -> Q x l o -> decodes get_byte (bits_of 8 x ++ l) o Q.
Proof.
  intros Hx Hl HQ s Hs Hu Ho. pose proof (decodes_bytes [x] l o (fun bs l o => Q x l o /\ bs = [x]) ltac:(by constructor) Hl ltac:(done) s Hs ltac:(rewrite Hu; by rewrite bytes_bits_cons, app_nil_r) Ho) as Hw.
  unfold wp, take_bytes, get_byte in *. cbn [length] in Hw. destruct (buffer (input s)) as [|y ys]; [by rewrite bool_decide_false in Hw by (cbn; lia)|].
  rewrite bool_decide_true in Hw by (cbn [length]; lia). cbn [take drop input output] in *. destruct Hw as (H1 & H2 & E). injection E as ->. by split.
Qed.

Lemma decodes_16le x l o (Q : Z -> list bool -> list Z -> Prop) : 0 <= x < 65536 -> Z.of_nat (length l) mod 8 = 0 -> Q x l o -> decodes bit_buffer_get_16le (bytes_bits (le16 x) ++ l) o Q.
Proof.
  intros Hx Hl HQ. unfold le16. rewrite !bytes_bits_cons. cbn [bytes_bits mbind list_bind]. rewrite app_nil_r, <- app_assoc. unfold bit_buffer_get_16le.
  pose proof (Z.mod_pos_bound x 256 ltac:(lia)). pose proof (Z.mod_pos_bound (x / 256) 256 ltac:(lia)). assert (x / 256 < 256) by (apply Z.div_lt_upper_bound; lia). pose proof (Z.div_pos x 256 ltac:(lia) ltac:(lia)).
  apply decodes_bind, decodes_byte; [done| |]. { rewrite length_app, length_bits_of, Nat2Z.inj_add, Z.add_mod, Hl by lia. done. }
  apply decodes_bind, decodes_byte; [done|done|]. apply decodes_ret. rewrite (Z.mod_small (x / 256)) by lia.
  rewrite Z.shiftl_mul_pow2 by lia. change (2 ^ 8) with 256. unfold u16. rewrite (Z.mod_small (x / 256 * 256)) by lia. rewrite Z.lor_comm, (lor_low_add 8); [|lia|apply Z.mod_mul; lia|change (2 ^ 8) with 256; lia].
  replace (x / 256 * 256 + x mod 256) with x by (pose proof (Z.div_mod x 256); lia). done.
Qed.

(** ** Stored blocks *)

Lemma length_le16 x : length (le16 x) = 2%nat.
Proof. done. Qed.

Lemma not16 x : 0 <= x <= 65535 -> Z.land (Z.lnot x) 0xFFFF = 65535 - x.
Proof. intros Hx. change (Z.land (Z.lnot x) 0xFFFF) with (Z.land (Z.lnot x) (Z.ones 16)). rewrite Z.land_ones by lia. unfold Z.lnot. change (2 ^ 16) with 65536. replace (Z.pred (- x)) with (65535 - x + -1 * 65536) by lia. rewrite Z.mod_add by lia. apply Z.mod_small. lia. Qed.

Definition stored (block : list Z) : list Z := le16 (Z.of_nat (length block)) ++ le16 (65535 - Z.of_nat (length block)) ++ block.

Lemma stored_bytes block : Forall is_byte block -> Forall is_byte (stored block).
Proof.
  intros Hb. assert (forall x, Forall is_byte (le16 x)) as Hl by (intros x; repeat constructor; unfold is_byte; apply Z.mod_pos_bound; lia).
  apply Forall_app. split; [done|]. apply Forall_app. by split.
Qed.

Lemma stored_decodes pad block rest o (Q : Z -> list bool -> list Z -> Prop) : Z.of_nat (length pad) < 8 -> Forall is_byte block -> Z.of_nat (length block) <= 65535 -> Z.of_nat (length rest) mod 8 = 0 ->
  Q 0 rest (o ++ block) -> decodes deflate_inflate_uncompressed_block (pad ++ bytes_bits (stored block) ++ rest) o Q.
Proof.
  intros Hp Hb Hlen Hr HQ. assert (forall l, Z.of_nat (length (bytes_bits l ++ rest)) mod 8 = 0) as Hal.
  { intros l. rewrite length_app, length_bytes_bits, Nat2Z.inj_add, Nat2Z.inj_mul, Z.add_mod, Hr, (Z.mul_comm (Z.of_nat 8)) by lia. change (Z.of_nat 8) with 8. by rewrite Z.mod_mul by lia. }
  unfold deflate_inflate_uncompressed_block, stored. apply decodes_bind, decodes_discard; [done|apply Hal|]. rewrite !bytes_bits_app, <- !app_assoc. apply decodes_bind, decodes_16le; [lia|rewrite app_assoc, <- bytes_bits_app; apply Hal|].
  apply decodes_bind, decodes_16le; [lia|apply Hal|]. rewrite not16 by lia. replace (65535 - (65535 - Z.of_nat (length block))) with (Z.of_nat (length block)) by lia. rewrite Z.eqb_refl. cbn [negb].
  apply decodes_bind. destruct (Z.eqb_spec (Z.of_nat (length block)) 0) as [E|E].
  - destruct block; [|cbn in E; lia]. apply decodes_ret. cbn [bytes_bits mbind list_bind app]. apply decodes_bind, decodes_append. by apply decodes_ret.
  - rewrite Nat2Z.id. apply decodes_bytes; [done|done|]. apply decodes_bind, decodes_append. by apply decodes_ret.
Qed.

(** ** Blocks in the stream *)

(** The bits [e] of a block at bit [p] of the stream turn [o] into [o'], and the decoder goes on behind them. *)
Definition block_reads (last : bool) (p : nat) (e : list bool) (o o' : list Z) : Prop :=
  forall fuel bits rest (Q : Z -> list bool -> list Z -> Prop), (length e <= bits)%nat -> Z.of_nat (p + length e + length rest) mod 8 = 0 ->
  (if last then Q 0 rest o' else decodes (inflate_loop fuel bits) rest o' Q) -> decodes (inflate_loop (S fuel) bits) (e ++ rest) o Q.

Definition block_type (bits : nat) (tp : Z) : M Z :=
  if tp =? 0 then deflate_inflate_uncompressed_block
  else if tp =? 1 then deflate_inflate_block bits huffman_decode_fixed_lengths huffman_decode_fixed_distances
  else if tp =? 2 then
    tables ← huffman_decode_table_decode;
    match tables with None => mret (-1) | Some (lengths, distances) => deflate_inflate_block bits lengths distances end
  else mret (-1).

(** The three bits in front of a block. *)
Lemma put_block_header b (last : bool) t : writer_ok b -> 0 <= t < 4 ->
  let b' := bit_buffer_put (bit_buffer_put b 1 (if last then 1 else 0)) 2 t in writer_ok b' /\ written b' = written b ++ [last] ++ bits_of 2 t.
Proof.
  intros Hb Ht. destruct (put_ok b 1 (if last then 1 else 0) Hb) as [W1 E1]. destruct (put_ok _ 2 t W1) as [W2 E2]. split; [done|]. rewrite E2, E1, <- app_assoc. do 2 f_equal. by destruct last.
Qed.

Lemma block_reads_intro last p t e o o' : 0 <= t < 3 ->
  (forall bits rest (R : Z -> list bool -> list Z -> Prop), (length ([last] ++ bits_of 2 t ++ e) <= bits)%nat -> Z.of_nat (p + length ([last] ++ bits_of 2 t ++ e) + length rest) mod 8 = 0 -> R 0 rest o' -> decodes (block_type bits t) (e ++ rest) o R) ->
  block_reads last p ([last] ++ bits_of 2 t ++ e) o o'.
Proof.
  intros Ht Hbody fuel bits rest Q Hb Hal HQ. cbn [inflate_loop]. rewrite <- !app_assoc. apply decodes_bind, decodes_get; [done|]. replace (num [last]) with (Z.b2z last) by (by destruct last).
  rewrite (proj2 (Z.eqb_neq (Z.b2z last) (-1))) by (by destruct last). apply decodes_bind, decodes_get; [by rewrite length_bits_of|]. rewrite num_bits_of. change (2 ^ Z.of_nat 2) with 4. rewrite Z.mod_small by lia.
  rewrite (proj2 (Z.eqb_neq t (-1))) by lia. apply decodes_bind. apply (Hbody bits rest); [done|done|]. cbn [Z.eqb negb]. destruct last; [by apply decodes_ret|done].
Qed.

Lemma stored_ok block b last o : writer_ok b -> Forall is_byte block -> Z.of_nat (length block) <= 65535 ->
  exists b' e, deflate_deflate_no_compress block b last = (0, b') /\ writer_ok b' /\ written b' = written b ++ e /\ (0 < length e)%nat /\ block_reads last (length (written b)) e o (o ++ block).
Proof.
  intros Hb Hbytes Hlen. unfold deflate_deflate_no_compress. rewrite (proj2 (Z.ltb_ge DEFLATE_MAX_BLOCK_SIZE _)) by (unfold DEFLATE_MAX_BLOCK_SIZE; lia). cbn zeta.
  destruct (put_block_header b last 0 Hb ltac:(lia)) as [W1 E1]. cbn zeta in W1, E1. set (b1 := bit_buffer_put _ 2 0) in *. destruct (push_ok b1 W1) as (W2 & C2 & E2). rewrite not16 by lia.
  change (le16 (Z.of_nat (length block)) ++ le16 (65535 - Z.of_nat (length block)) ++ block) with (stored block). set (b2 := bit_buffer_push b1) in *.
  eexists _, ([last] ++ bits_of 2 0 ++ padding (length (written b1)) ++ bytes_bits (stored block)). split; [done|]. split; [|split; [|split; [cbn; lia|]]].
  - destruct W2 as [V1 V2 V3]. split; cbn [buffer byte bit_count]; [apply Forall_app; split; [done|by apply stored_bytes]|done|done].
  - unfold written at 1. cbn [buffer byte bit_count]. rewrite C2. cbn [Z.to_nat bits_of]. rewrite app_nil_r, bytes_bits_app.
    assert (bytes_bits (buffer b2) = written b2) as -> by (unfold written; rewrite C2; cbn [Z.to_nat bits_of]; by rewrite app_nil_r). rewrite E2, E1, <- !app_assoc. done.
  - apply block_reads_intro; [lia|]. intros bits rest R Hbits Hal HR. rewrite <- app_assoc. unfold block_type. cbn [Z.eqb]. pose proof (padding_length (length (written b1))) as Hpl. pose proof (Z.mod_pos_bound (- Z.of_nat (length (written b1))) 8 ltac:(lia)) as Hpb.
    apply stored_decodes; [lia|done|done| |done]. rewrite E1, !length_app, length_bytes_bits, length_bits_of in *. cbn [length] in *.
    rewrite <- Hal. pose proof (Z.div_mod (- Z.of_nat (length (written b) + (1 + 2))) 8 ltac:(lia)) as Hdm.
    set (q := - Z.of_nat (length (written b) + (1 + 2)) / 8) in *. rewrite <- (Z.mod_add (Z.of_nat (length rest)) (- q + Z.of_nat (length (stored block))) 8) by lia. f_equal. lia.
Qed.

Lemma one_ok block b last o : writer_ok b -> Forall is_byte block -> Z.of_nat (length block) <= 65535 -> few_symbols block -> Z.of_nat (length (o ++ block)) < 2 ^ 64 ->
  exists b' e, deflate_one block last b = Some (0, if last then bit_buffer_push b' else b') /\ writer_ok b' /\ written b' = written b ++ e /\ (0 < length e)%nat /\
    block_reads last (length (written b)) e o (o ++ block).
Proof.
  intros Hb Hbytes Hlen Hfew Ho. unfold deflate_one. destruct (lz77_ok block Hbytes Hlen) as (words & f & E1 & Hex & Hf & Huse). rewrite E1.
  destruct (tables_ok block f Hbytes Hf Hfew) as (syms & dists & header & e & E2 & Hr & (pad & Hpad) & dl & dd & HCl & HCd & Hdec). rewrite E2. cbn [mbind option_bind].
  destruct (_ <? _); [|destruct (_ <? _)].
  - destruct (stored_ok block b last o Hb Hbytes Hlen) as (b' & e' & E & W & Ew & Hne & Hd). rewrite E. exists b', e'. done.
  - destruct (put_block_header b last 1 Hb ltac:(lia)) as [W1 Ew1]. cbn zeta in W1, Ew1. cbn zeta.
    destruct (block_ok huffman_encode_fixed huffman_encode_distance_fixed huffman_decode_fixed_lengths huffman_decode_fixed_distances (fun s => 0 <= s < 286) (fun s => 0 <= s < 30) words _ o (o ++ block) W1 (Hex o) Ho) as (b' & e' & E & W & Ew & Hd); [apply (words_use_all _ o (o ++ block)), Hex|lia|].
    rewrite E. cbn [mbind option_bind]. exists b', ([last] ++ bits_of 2 1 ++ e'). split; [done|]. split; [done|]. split; [by rewrite Ew, Ew1, <- !app_assoc|]. split; [cbn; lia|].
    apply block_reads_intro; [lia|]. intros bits rest R Hbits _ HR. unfold block_type. cbn [Z.eqb Pos.eqb]. apply Hd; [rewrite !length_app in Hbits; lia|done].
  - destruct (put_block_header b last 2 Hb ltac:(lia)) as [W1 Ew1]. cbn zeta in W1, Ew1. cbn zeta. rewrite Nat2Z.id. destruct (copy_bits_ok e pad header _ Hr Hpad W1) as [W2 Ew2].
    destruct (block_ok syms dists dl dd (uses (literal_freqs f)) (uses (distance_freqs f)) words _ o (o ++ block) W2 (Hex o) Ho Huse (block_end _ _ Hf)) as (b' & e' & E & W & Ew & Hd).
    rewrite E. cbn [mbind option_bind]. exists b', ([last] ++ bits_of 2 2 ++ e ++ e'). split; [done|]. split; [done|]. split; [by rewrite Ew, Ew2, Ew1, <- !app_assoc|]. split; [cbn; lia|].
    apply block_reads_intro; [lia|]. intros bits rest R Hbits _ HR. unfold block_type. cbn [Z.eqb Pos.eqb]. rewrite <- app_assoc. apply decodes_bind, Hdec. apply Hd; [rewrite !length_app in Hbits; lia|done].
Qed.

(** ** The stream *)

(** Every block of the input has few symbols. *)
Definition blocks_ok (input : list Z) : Prop :=
  forall k, few_symbols (take (Z.to_nat DEFLATE_MAX_BLOCK_SIZE) (drop (Z.to_nat DEFLATE_MAX_BLOCK_SIZE * k) input)).

Lemma deflate_loop_ok fuel input b o : writer_ok b -> Forall is_byte input -> input <> [] -> blocks_ok input -> Z.of_nat (length (o ++ input)) < 2 ^ 64 -> (length input < fuel)%nat ->
  exists b' e, deflate_loop fuel input b = Some (0, b') /\ writer_ok b' /\ bit_count b' = 0 /\ written b' = written b ++ e /\
    forall fuel bits, (length e < fuel)%nat -> (length e <= bits)%nat -> decodes (inflate_loop fuel bits) e o (fun ret _ o' => ret = 0 /\ o' = o ++ input).
Proof.
  revert input b o. induction fuel as [|fuel IH]; intros input b o Hb Hbytes Hne Hok Ho Hf; [lia|]. cbn [deflate_loop]. rewrite bool_decide_false by done.
  unfold blocks_ok in *. assert (Z.of_nat (Z.to_nat DEFLATE_MAX_BLOCK_SIZE) = 65535) as Hm by (by rewrite Z2Nat.id). set (m := Z.to_nat DEFLATE_MAX_BLOCK_SIZE) in *. clearbody m. set (n := (length input `min` m)%nat). assert (take n input = take m input) as Ht.
  { unfold n. destruct (Nat.min_spec (length input) m) as [[? ->]|[? ->]]; [rewrite !take_ge by lia; done|done]. }
  assert (drop n input = drop m input) as Hd.
  { unfold n. destruct (Nat.min_spec (length input) m) as [[? ->]|[? ->]]; [rewrite !drop_ge by lia; done|done]. }
  rewrite Ht, Hd. set (block := take m input). set (rest := drop m input). assert (input = block ++ rest) as Ein by (symmetry; apply take_drop). rewrite Ein, !length_app in Ho.
  assert (0 < length block)%nat as Hbl by (unfold block; rewrite length_take; destruct input; [done|cbn [length]; lia]).
  destruct (one_ok block b (bool_decide (rest = [])) o Hb) as (b1 & e1 & E1 & W1 & Ew1 & Hne1 & Hd1); [by apply Forall_take|unfold block; rewrite length_take; lia|specialize (Hok 0%nat); by rewrite Nat.mul_0_r, drop_0 in Hok|rewrite length_app; lia|].
  rewrite E1. cbn [mbind option_bind Z.eqb negb]. case_bool_decide as Erest.
  - destruct (push_ok b1 W1) as (W2 & C2 & E2). destruct fuel as [|fuel]; [rewrite Ein, length_app in Hf; lia|]. cbn [deflate_loop]. rewrite bool_decide_true by done.
    eexists _, (e1 ++ padding (length (written b1))). split; [done|]. split; [done|]. split; [done|]. split; [by rewrite E2, Ew1, <- app_assoc|]. intros f bits Hf1 Hbits. rewrite length_app in *.
    destruct f as [|f]; [lia|]. apply Hd1; [lia| |].
    + rewrite Nat2Z.inj_add, padding_length, Ew1, length_app. apply Z.mod_divide; [lia|]. rewrite Nat2Z.inj_add. set (x := Z.of_nat (length (written b)) + Z.of_nat (length e1)).
      exists (- (- x / 8)). pose proof (Z.div_mod (- x) 8). lia.
    + split; [done|]. by rewrite Ein, Erest, app_nil_r.
  - destruct (IH rest b1 (o ++ block)) as (b' & e & E & W & C & Ew & Hdec); [done|by apply Forall_drop|done| |rewrite !length_app; lia|rewrite Ein, length_app in Hf; lia|].
    { intros k. unfold rest. rewrite drop_drop. replace (m + m * k)%nat with (m * S k)%nat by lia. apply Hok. }
    rewrite E. exists b', (e1 ++ e). split; [done|]. split; [done|]. split; [done|]. split; [by rewrite Ew, Ew1, <- app_assoc|]. intros f bits Hf1 Hbits. rewrite length_app in *.
    destruct f as [|f]; [lia|]. apply Hd1; [lia| |].
    + rewrite Ew1 in Ew. pose proof (written_length b' W) as Hwl. rewrite C, Ew, !length_app in Hwl. rewrite Hwl. done.
    + eapply decodes_mono; [apply Hdec; lia|]. cbn beta. intros a l' o' [-> ->]. split; [done|]. by rewrite Ein, app_assoc.
Qed.

Lemma deflate_ok input o : Forall is_byte input -> input <> [] -> blocks_ok input -> Z.of_nat (length (o ++ input)) < 2 ^ 64 ->
  exists out, deflate_deflate input [] = Some (0, out) /\ Forall is_byte out /\ deflate_inflate out o = Done (0, o ++ input).
Proof.
  intros Hbytes Hne Hok Ho. unfold deflate_deflate. assert (writer_ok (mk_bit_buffer [] 0 0)) as W0 by (split; cbn; [constructor|lia|lia]).
  destruct (deflate_loop_ok (S (length input)) input _ o W0 Hbytes Hne Hok Ho ltac:(lia)) as (b & e & E & W & C & Ew & Hd). rewrite E. cbn [mbind option_bind].
  exists (buffer b). split; [done|]. split; [apply (writer_bytes _ W)|]. destruct (reader_of_writer b W C) as [Hr Hu]. unfold deflate_inflate.
  change (written (mk_bit_buffer [] 0 0) ++ e) with e in Ew. assert (length e = (8 * length (buffer b))%nat) as Hlen.
  { rewrite <- Ew, <- Hu. unfold unread. cbn [bit_count byte buffer Z.to_nat bits_of app]. apply length_bytes_bits. }
  unfold input_fuel. cbn [buffer bit_count Z.to_nat].
  pose proof (Hd (S (8 * length (buffer b) + 0)) (S (8 * length (buffer b) + 0)) ltac:(lia) ltac:(lia) (mk_inflate (mk_bit_buffer (buffer b) 0 0) o) Hr ltac:(by rewrite <- Ew) eq_refl) as Hw.
  unfold wp in Hw. destruct (inflate_loop _ _ _) as [[ret s]| |]; [|done|done]. by destruct Hw as (_ & -> & ->).
Qed.
