(* ===== verification/DeflateClaims.v ===== *)
(** * DEFLATE and quicksort: the claims and concrete runs *)

From S2P Require Import Prelude Quicksort Deflate DeflateEncode DeflateBits DeflateHuffman DeflateBlock DeflateMatch DeflateLevels DeflateTable DeflateHeader DeflateStream.

(** ** Sorting *)

(** C39.  [quicksort2] with a comparator that follows a key on the items of a
    non-empty array ends, stays inside the array, and leaves the same items in
    the order of their keys. *)
Theorem quicksort2_sorts {A : Type} (comparator : A -> A -> Z) (key : A -> Z) (a : list A) :
  (forall x y, x ∈ a -> y ∈ a -> (comparator x y <? 0) = (key x <? key y)) ->
  (forall x y, x ∈ a -> y ∈ a -> (0 <? comparator x y) = (key y <? key x)) -> a <> [] ->
  exists a', quicksort2 comparator a = Some a' /\ a ≡ₚ a' /\
    forall i j x y, (i <= j)%nat -> a' !! i = Some x -> a' !! j = Some y -> key x <= key y.
Proof.
  intros Hlt Hgt Ha. destruct (quicksort2_ok comparator key (fun x => x ∈ a) Hlt Hgt a) as (a' & E & Hp & Hs); [by apply Forall_forall|done|].
  exists a'. split; [done|]. split; [done|]. intros i j x y Hij Hx Hy. pose proof (lookup_lt_Some _ _ _ Hy) as Hj. rewrite <- Hp in Hj. apply (Hs i j); [lia|lia|done|done].
Qed.

Lemma quicksort2_witness :
  exists a', quicksort2 huffman_sort_by_symbol (map (fun s => mk_symbol_freq s 1) [5; 2; 9; 2; 7]) = Some a' /\
    map (fun s => mk_symbol_freq s 1) [5; 2; 9; 2; 7] ≡ₚ a' /\
    forall i j x y, (i <= j)%nat -> a' !! i = Some x -> a' !! j = Some y -> symbol x <= symbol y.
Proof.
  apply (quicksort2_sorts huffman_sort_by_symbol symbol); [intros x y _ _; apply sort_by_symbol_lt|intros x y _ _; apply sort_by_symbol_gt|discriminate].
Defined.

(** ** Words *)

(** C37.  [deflate_deflate_lz77] of a block of at most 65535 bytes succeeds: the
    words stand for the block behind any earlier output, with matches of 3 to
    258 bytes at most 32768 bytes back, and every symbol they use, and the end
    of the block, has a positive frequency. *)
Theorem lz77_correct block : Forall is_byte block -> Z.of_nat (length block) <= 65535 ->
  exists words f, deflate_deflate_lz77 block = Some (words, f) /\ (forall o, expand words o = Some (o ++ block)) /\
    words_use (uses (literal_freqs f)) (uses (distance_freqs f)) words /\ uses (literal_freqs f) 256.
Proof.
  intros Hb Hlen. destruct (lz77_ok block Hb Hlen) as (words & f & E & Hex & Hf & Hu). exists words, f. split; [done|]. split; [done|]. split; [done|]. apply (block_end _ _ Hf).
Qed.

Ltac bytes := repeat (constructor; [unfold is_byte; lia|]); constructor.

Lemma lz77_witness : exists words f, deflate_deflate_lz77 [1; 2; 3; 1; 2; 3; 1; 2; 3] = Some (words, f) /\
  (forall o, expand words o = Some (o ++ [1; 2; 3; 1; 2; 3; 1; 2; 3])) /\ words_use (uses (literal_freqs f)) (uses (distance_freqs f)) words /\ uses (literal_freqs f) 256.
Proof. apply lz77_correct; [bytes|cbn; lia]. Defined.

(** ** Codes *)

(** C8.  For at most 255 symbols in use, at most two to the power of the
    length limit, with frequencies below 65536, [huffman_encode_build_table]
    succeeds: exactly the symbols in use get codes, of at most [limit] bits, and
    the table [huffman_decode_table_build] makes of the lengths reads each of
    these codes as its symbol, whatever follows it. *)
Theorem huffman_codes_roundtrip freqs limit : Forall (fun f => 0 <= f <= 65535) freqs -> (length freqs <= 288)%nat -> 2 <= limit <= 15 ->
  Z.of_nat (length (used_symbols freqs 0)) <= Z.min 255 (2 ^ limit) ->
  exists table max_used dec, huffman_encode_build_table freqs limit = Some (true, table, max_used) /\
    huffman_decode_table_build (take (S (Z.to_nat max_used)) (lengths table)) limit = Some dec /\
    (forall s l, lengths table !! s = Some l -> ~ in_use freqs s -> l = 0) /\
    forall s, in_use freqs s -> exists len code, lengths table !! s = Some len /\ 0 < len <= limit /\ codes table !! s = Some code /\
      forall rest o, decodes (huffman_decode dec 288) (bits_of (Z.to_nat len) code ++ rest) o (fun r l o' => r = Z.of_nat s /\ l = rest /\ o' = o).
Proof.
  intros Hf Hlen Hlim Hn. destruct (build_ok freqs limit Hf Hlen Hlim Hn) as (table & m & E & [B1 B2 B3 B4 B5]).
  destruct (good_codec _ _ table (S (Z.to_nat m)) 288 B1) as (dec & Ed & HC); [lia|lia|lia|intros s Hs; specialize (B2 s Hs); lia|].
  exists table, m, dec. split; [done|]. split; [done|]. split; [apply (good_unused _ _ _ B1)|]. intros s Hs.
  destruct (HC) as [Hbits]. destruct (Hbits (Z.of_nat s)) as (len & code & E1 & E2 & Hpos & Hdec); [split; [lia|by rewrite Nat2Z.id]|]. rewrite Nat2Z.id in E1, E2.
  exists len, code. split; [done|]. split; [pose proof (good_range _ _ _ B1 _ _ E1); lia|]. split; [done|]. intros rest o. by apply Hdec.
Qed.

Lemma huffman_codes_witness : exists table max_used dec, huffman_encode_build_table [7; 0; 1; 1; 20; 3] 15 = Some (true, table, max_used) /\
    huffman_decode_table_build (take (S (Z.to_nat max_used)) (lengths table)) 15 = Some dec /\
    (forall s l, lengths table !! s = Some l -> ~ in_use [7; 0; 1; 1; 20; 3] s -> l = 0) /\
    forall s, in_use [7; 0; 1; 1; 20; 3] s -> exists len code, lengths table !! s = Some len /\ 0 < len <= 15 /\ codes table !! s = Some code /\
      forall rest o, decodes (huffman_decode dec 288) (bits_of (Z.to_nat len) code ++ rest) o (fun r l o' => r = Z.of_nat s /\ l = rest /\ o' = o).
Proof. apply huffman_codes_roundtrip; [repeat (constructor; [lia|]); constructor|cbn; lia|lia|vm_compute; discriminate]. Defined.

(** ** The stream *)

Lemma blocks_ok_short input : (length input <= 225)%nat -> blocks_ok input.
Proof.
  intros H k. unfold few_symbols. assert (forall l : list Z, (length (remove_dups l) <= length l)%nat) as Hr.
  { induction l as [|x l IH]; [done|]. cbn [remove_dups]. case_decide; cbn [length]; lia. }
  etrans; [apply Hr|]. rewrite length_take, length_drop. lia.
Qed.

(** C7.  A non-empty input, each block of 65535 bytes of it with at most 225
    different bytes, is compressed without an error, and [deflate_inflate] of
    the result succeeds and appends the input to its output.  Compression runs
    through matches, frequencies, length-limited codes, the header of dynamic
    blocks and the choice among stored, fixed and dynamic blocks. *)
Theorem deflate_roundtrip input o : Forall is_byte input -> input <> [] -> blocks_ok input -> Z.of_nat (length (o ++ input)) < 2 ^ 64 ->
  exists out, deflate_deflate input [] = Some (0, out) /\ deflate_inflate out o = Done (0, o ++ input).
Proof. intros H1 H2 H3 H4. destruct (deflate_ok input o H1 H2 H3 H4) as (out & E & _ & D). by exists out. Qed.

Lemma deflate_roundtrip_witness : exists out, deflate_deflate [116; 111; 32; 98; 101; 32; 111; 114; 32; 110; 111; 116; 32; 116; 111; 32; 98; 101] [] = Some (0, out) /\
  deflate_inflate out [] = Done (0, [116; 111; 32; 98; 101; 32; 111; 114; 32; 110; 111; 116; 32; 116; 111; 32; 98; 101]).
Proof. apply (deflate_roundtrip _ []); [bytes|discriminate|apply blocks_ok_short; cbn; lia|cbn; lia]. Defined.
