(* ===== verification/DeflateRuns.v ===== *)
(** * DEFLATE: runs on concrete inputs *)

From S2P Require Import Prelude Quicksort Deflate DeflateEncode.

(** The number of codes of a length is kept in one byte.  When 256 symbols
    share the length 8, the last row has 256 leaves on every level; the counts
    made of it are zero and no symbol gets a code. *)
Lemma bit_counts_wrap : let leaf_counts := replicate 129 0 ++ replicate 127 256 in
  (leaf_counts !!! HUFFMAN_LEAF_COUNT 8 8 = 256 /\ leaf_counts !!! HUFFMAN_LEAF_COUNT 8 0 = 0) /\ bit_counts_of leaf_counts 8 8 = replicate 8 0 /\
  assign_lengths (bit_counts_of leaf_counts 8 8) 1 0 256 (used_symbols (replicate 256 1) 0) empty_table = Some empty_table.
Proof. vm_compute. repeat split. Qed.

(** Nothing is written for an empty input, which is not a stream. *)
Lemma deflate_empty_input : deflate_deflate [] [] = Some (0, []) /\ deflate_inflate [] [] = Done (-1, []).
Proof. split; reflexivity. Qed.

(** A stored block that promises more bytes than there are is read beyond the input. *)
Lemma inflate_stored_overread : deflate_inflate [1; 5; 0; 250; 255; 65] [] = Halted.
Proof. vm_compute. reflexivity. Qed.

(** Inputs of one byte, of equal bytes, and with matches. *)
Lemma deflate_runs : forallb (fun input => match deflate_deflate input [] with
    | Some (0, out) => match deflate_inflate out [] with Done (0, r) => bool_decide (r = input) | _ => false end
    | _ => false end)
  [[0]; replicate 40 7; [1; 2; 3; 1; 2; 3; 1; 2; 3]; concat (replicate 4 (seqZ 60 20))] = true.
Proof. vm_compute. reflexivity. Qed.
