(* ===== verification/Zpack.v ===== *)
(** * The zpack format ([cc/lib/zpack.64.c])

    Buffers are lists of bytes as in [Deflate], whose commands on the input and
    the output of a decoder are used here; allocations succeed and give zeroed
    memory. *)

From S2P Require Import Prelude Deflate DeflateEncode.

Definition ZPACK_MAX_MATCH : Z := 0x3f + 0x40 + 4.
Definition ZPACK_MIN_MATCH : Z := 4.
Definition ZPACK_WINDOW_SIZE : Z := 16383.
Definition ZPACK_HASHTABLE_SIZE : Z := 15.
Definition ZPACK_HASHTABLE_MUL : Z := 2654435761.
Definition ZPACK_HASHTABLE_PREV_SIZE : Z := 16384.
Definition ZPACK_NO_POS : Z := -1.

Record zpack_match_t := mk_zpack_match { zp_size : Z; zp_pos : Z }.

Record zpack_hashtable_t := mk_zpack_hashtable { zp_prev : gmap Z Z; zp_head : gmap Z Z }.

Definition prev_at (ht : zpack_hashtable_t) (i : Z) : Z := default 0 (zp_prev ht !! i).
Definition head_at (ht : zpack_hashtable_t) (h : Z) : Z := default ZPACK_NO_POS (zp_head ht !! h).

Definition zpack_hash4 (data : Z) : Z := Z.shiftr (u32 (data * ZPACK_HASHTABLE_MUL)) (32 - ZPACK_HASHTABLE_SIZE).

Definition zpack_hash_insert (pos h : Z) (ht : zpack_hashtable_t) : zpack_hashtable_t :=
  mk_zpack_hashtable (<[pos mod ZPACK_WINDOW_SIZE := head_at ht h]> (zp_prev ht)) (<[h := pos]> (zp_head ht)).

(** [buffer_peek_ints] of four bytes. *)
Definition peek_ints4 (block : list Z) (p : Z) : Z :=
  if Z.of_nat (length block) <? p + 4 then 0
  else peek block p + 256 * (peek block (p + 1) + 256 * (peek block (p + 2) + 256 * peek block (p + 3))).

Fixpoint zpack_match_loop (fuel : nat) (block : list Z) (ht : zpack_hashtable_t) (in_p max_match start best_size best_pos i max_match_step : Z) : zpack_match_t :=
  match fuel with
  | O => mk_zpack_match best_size best_pos
  | S fuel =>
    if (i =? ZPACK_NO_POS) || (max_match_step <=? 0) || (i <? start) then mk_zpack_match best_size best_pos else
    let max_match_step := (if 32 <=? best_size then Z.shiftr max_match_step 2 else max_match_step) - 1 in
    let limit := Z.min best_size max_match in
    let j := match_to block i in_p 0 limit in
    let prev_i := prev_at ht (i mod ZPACK_HASHTABLE_PREV_SIZE) in
    if j <? limit then zpack_match_loop fuel block ht in_p max_match start best_size best_pos prev_i max_match_step else
    let j := match_to block i in_p j max_match in
    let better := (ZPACK_MIN_MATCH <=? j) && (best_size <? j) in
    let best_size := if better then j else best_size in
    let best_pos := if better then i else best_pos in
    if (j =? max_match) || (prev_i =? i) then mk_zpack_match best_size best_pos
    else zpack_match_loop fuel block ht in_p max_match start best_size best_pos prev_i max_match_step
  end.

Definition zpack_find_bestmatch (block : list Z) (in_len in_p : Z) (ht : zpack_hashtable_t) : zpack_match_t * zpack_hashtable_t :=
  let max_match := Z.min (in_len - in_p) ZPACK_MAX_MATCH in
  let start := Z.max 0 (in_p - ZPACK_WINDOW_SIZE) in
  let hash := zpack_hash4 (peek_ints4 block in_p) in
  (zpack_match_loop 4096 block ht in_p max_match start 0 (-1) (head_at ht hash) 4096, zpack_hash_insert in_p hash ht).

(** The individual bytes are written, after their number. *)
Definition flush_individuals (out individuals : list Z) : list Z :=
  if bool_decide (individuals = []) then out
  else out ++ [u8 (Z.lor (Z.of_nat (length individuals) - 1) 0xC0)] ++ individuals.

Definition zpack_copy (best_size offset : Z) : list Z :=
  u8 (best_size - 4) :: (if 0xBF <? offset then [u8 (Z.lor (Z.shiftr offset 8) 0xC0); u8 (Z.land offset 0xFF)] else [u8 offset]).

(** The input is taken to end at its capacity, beyond which [buffer_seek] fails. *)
Fixpoint zpack_loop (fuel : nat) (block : list Z) (in_p : Z) (ht : zpack_hashtable_t) (individuals out : list Z) : option (Z * list Z) :=
  let in_len := Z.of_nat (length block) in
  match fuel with
  | O => None
  | S fuel =>
    if in_len <=? in_p then Some (0, flush_individuals out individuals) else
    let '(zpm, ht) := zpack_find_bestmatch block in_len in_p ht in
    if negb (zp_pos zpm =? -1) && (3 <? zp_size zpm) then
      let out := flush_individuals out individuals in
      if in_len <? in_p + zp_size zpm then Some (-1, out) else
      zpack_loop fuel block (in_p + zp_size zpm) ht [] (out ++ zpack_copy (zp_size zpm) (in_p - zp_pos zpm))
    else
      let individuals := individuals ++ [peek block in_p] in
      if Z.of_nat (length individuals) =? 0x40 then zpack_loop fuel block (in_p + 1) ht [] (flush_individuals out individuals)
      else zpack_loop fuel block (in_p + 1) ht individuals out
  end.

Definition zpack_pack (input out : list Z) : option (Z * list Z) :=
  zpack_loop (S (length input)) input 0 (mk_zpack_hashtable ∅ ∅) [] out.

(** ** The decoder *)

Definition remaining : M Z := fun s => Done (Z.of_nat (length (buffer (input s))), s).

(** The distance of a copy: one byte, or fourteen bits. *)
Definition zpack_offset : M Z :=
  offset ← get_byte;
  if Z.land offset 0xC0 =? 0xC0 then lo ← get_byte; mret (Z.lor (Z.shiftl (Z.land offset 0x3f) 8) lo) else mret offset.

(** Every round reads at least one byte. *)
Fixpoint zpack_unpack_loop (fuel : nat) : M Z :=
  match fuel with
  | O => out_of_fuel
  | S fuel =>
    n ← remaining;
    if n =? 0 then mret 0 else
    size ← get_byte;
    if Z.land size 0xC0 =? 0xC0 then
      data ← take_bytes (Z.to_nat (Z.land size 0x3f + 1));
      append_bytes data ;;
      zpack_unpack_loop fuel
    else
      offset ← zpack_offset;
      pos ← output_position;
      copy_loop (Z.to_nat (size + 4)) (u64 (pos - offset)) ;;
      zpack_unpack_loop fuel
  end.

Definition zpack_unpack (input out : list Z) : outcome (Z * list Z) :=
  match zpack_unpack_loop (S (length input)) (mk_inflate (mk_bit_buffer input 0 0) out) with
  | Done (ret, s) => Done (ret, output s)
  | Halted => Halted
  | OutOfFuel => OutOfFuel
  end.
