(* ===== verification/ZpackProps.v ===== *)
(** * The zpack format: what is packed is unpacked *)

From S2P Require Import Prelude Deflate DeflateEncode DeflateBits DeflateBlock DeflateMatch DeflateStream Zpack.

(** ** Matches *)

Definition zpack_match_ok (block : list Z) (in_p max_match size pos : Z) : Prop :=
  pos = ZPACK_NO_POS \/ (0 <= pos < in_p /\ in_p - pos <= 16383 /\ 4 <= size <= max_match /\ same_bytes block pos in_p size).

Definition positions_before (ht : zpack_hashtable_t) (in_p : Z) : Prop :=
  (forall h, -1 <= head_at ht h < in_p) /\ (forall i, -1 <= prev_at ht i < Z.max 1 in_p).

Lemma zpack_match_loop_ok fuel block ht in_p max_match size pos i step :
  0 <= in_p -> positions_before ht in_p -> -1 <= i < in_p -> 0 <= size <= max_match -> zpack_match_ok block in_p max_match size pos ->
  let r := zpack_match_loop fuel block ht in_p max_match (Z.max 0 (in_p - ZPACK_WINDOW_SIZE)) size pos i step in
  zpack_match_ok block in_p max_match (zp_size r) (zp_pos r).
Proof.
  intros Hp [_ Hht]. revert size pos i step. induction fuel as [|fuel IH]; intros size pos i step Hi Hsize Hok; cbn [zpack_match_loop]; [done|].
  destruct (Z.eqb_spec i ZPACK_NO_POS) as [|Hi1]; [done|]. cbn [orb]. destruct (step <=? 0); [done|]. cbn [orb].
  unfold ZPACK_NO_POS, ZPACK_WINDOW_SIZE in *. destruct (Z.ltb_spec i (Z.max 0 (in_p - 16383))) as [|Hi2]; [done|]. replace (Z.max 1 in_p) with in_p in Hht by lia.
  set (limit := Z.min size max_match). set (j0 := match_to block i in_p 0 limit). cbn zeta.
  destruct (match_to_ok block i in_p 0 limit) as [H1 H2]; [lia|intros k Hk; lia|]. fold j0 in H1, H2.
  destruct (j0 <? limit); [by apply IH|].
  destruct (match_to_ok block i in_p j0 max_match) as [H3 H4]; [lia|done|]. set (j := match_to block i in_p j0 max_match) in *.
  assert (forall better : bool, better = (ZPACK_MIN_MATCH <=? j) && (size <? j) ->
    0 <= (if better then j else size) <= max_match /\ zpack_match_ok block in_p max_match (if better then j else size) (if better then i else pos)) as Hb.
  { intros [|] E; [|done]. symmetry in E. rewrite andb_true_iff, Z.leb_le, Z.ltb_lt in E. unfold ZPACK_MIN_MATCH in E. split; [lia|]. right.
    split; [lia|]. split; [lia|]. split; [lia|done]. }
  specialize (Hb _ eq_refl) as [Hb1 Hb2]. destruct ((j =? max_match) || (prev_at ht (i mod ZPACK_HASHTABLE_PREV_SIZE) =? i)); [done|]. by apply IH.
Qed.

Lemma hash_insert_positions ht in_p h next : 0 <= in_p < next -> positions_before ht in_p -> positions_before (zpack_hash_insert in_p h ht) next.
Proof.
  intros Hp [H1 H2]. split.
  - intros h'. unfold head_at. cbn. destruct (decide (h' = h)) as [->|]; [rewrite lookup_insert_eq; cbn; lia|]. rewrite lookup_insert_ne by done. specialize (H1 h'). unfold head_at in H1. lia.
  - intros i. unfold prev_at. cbn. destruct (decide (i = in_p mod ZPACK_WINDOW_SIZE)) as [->|]; [rewrite lookup_insert_eq; cbn; specialize (H1 h); lia|]. rewrite lookup_insert_ne by done.
    specialize (H2 i). unfold prev_at in H2. lia.
Qed.

Lemma zpack_find_ok block in_p ht next : 0 <= in_p < Z.of_nat (length block) -> positions_before ht in_p ->
  let '(m, ht') := zpack_find_bestmatch block (Z.of_nat (length block)) in_p ht in
  zpack_match_ok block in_p (Z.min (Z.of_nat (length block) - in_p) 131) (zp_size m) (zp_pos m) /\ (in_p < next -> positions_before ht' next).
Proof.
  intros Hp Ht. unfold zpack_find_bestmatch. split; [|intros; apply hash_insert_positions; [lia|done]].
  apply zpack_match_loop_ok; [lia|done|apply Ht|unfold ZPACK_MAX_MATCH; lia|by left].
Qed.

(** ** Decoding *)

Lemma decodes_remaining bs o (Q : Z -> list bool -> list Z -> Prop) : Forall is_byte bs -> Q (Z.of_nat (length bs)) (bytes_bits bs) o -> decodes remaining (bytes_bits bs) o Q.
Proof.
  intros Hbs HQ s Hs Hu <-. destruct (aligned _ Hs) as [_ Hb]; [rewrite Hu, length_bytes_bits, Nat2Z.inj_mul, Z.mul_comm; by apply Z.mod_mul|].
  rewrite Hu in Hb. apply bytes_bits_inj in Hb; [|done|apply Hs]. unfold wp, remaining. split; [done|]. by rewrite Hu, <- Hb.
Qed.

Lemma bytes_aligned bs : Z.of_nat (length (bytes_bits bs)) mod 8 = 0.
Proof. rewrite length_bytes_bits, Nat2Z.inj_mul, Z.mul_comm. by apply Z.mod_mul. Qed.

Lemma decodes_next x bs o (Q : Z -> list bool -> list Z -> Prop) : is_byte x -> Q x (bytes_bits bs) o -> decodes get_byte (bytes_bits (x :: bs)) o Q.
Proof. intros Hx HQ. rewrite bytes_bits_cons. apply decodes_byte; [done|apply bytes_aligned|done]. Qed.

(** The bytes [bs], to the end of the input, turn the output [o] into [o']. *)
Definition unpacks (bs o o' : list Z) : Prop :=
  Forall is_byte bs /\ forall fuel, (length bs < fuel)%nat -> decodes (zpack_unpack_loop fuel) (bytes_bits bs) o (fun ret _ out => ret = 0 /\ out = o').

Lemma unpacks_nil o : unpacks [] o o.
Proof. split; [constructor|]. intros [|fuel] Hf; [lia|]. cbn [zpack_unpack_loop]. apply decodes_bind, decodes_remaining; [constructor|]. by apply decodes_ret. Qed.

Lemma tag_ok n : 0 <= n < 64 -> u8 (Z.lor n 0xC0) = 192 + n /\ Z.land (192 + n) 0xC0 = 0xC0 /\ Z.land (192 + n) 0x3f = n.
Proof.
  intros Hn. assert (forallb (fun n => (u8 (Z.lor n 0xC0) =? 192 + n) && (Z.land (192 + n) 0xC0 =? 0xC0) && (Z.land (192 + n) 0x3f =? n)) (seqZ 0 64) = true) as H by (vm_compute; reflexivity).
  rewrite forallb_forall in H. specialize (H n ltac:(apply list_elem_of_In, elem_of_seqZ; lia)). rewrite !andb_true_iff, !Z.eqb_eq in H. tauto.
Qed.

Lemma untagged n : 0 <= n < 192 -> (Z.land n 0xC0 =? 0xC0) = false.
Proof.
  intros Hn. assert (forallb (fun n => negb (Z.land n 0xC0 =? 0xC0)) (seqZ 0 192) = true) as H by (vm_compute; reflexivity).
  rewrite forallb_forall in H. specialize (H n ltac:(apply list_elem_of_In, elem_of_seqZ; lia)). by apply negb_true_iff in H.
Qed.

Lemma unpacks_run ind bs o o' : (1 <= length ind <= 64)%nat -> Forall is_byte ind -> unpacks bs (o ++ ind) o' -> unpacks (flush_individuals [] ind ++ bs) o o'.
Proof.
  intros Hlen Hind [Hbs Hd]. unfold flush_individuals. rewrite bool_decide_false by (intros ->; cbn in Hlen; lia). cbn [app]. destruct (tag_ok (Z.of_nat (length ind) - 1) ltac:(lia)) as (T1 & T2 & T3). rewrite T1.
  assert (is_byte (192 + (Z.of_nat (length ind) - 1))) as Ht by (unfold is_byte; lia).
  assert (Forall is_byte ((192 + (Z.of_nat (length ind) - 1)) :: ind ++ bs)) as Hall by (constructor; [done|]; apply Forall_app; by split). split; [done|].
  intros [|fuel] Hf; [lia|]. cbn [length] in Hf. rewrite length_app in Hf. cbn [zpack_unpack_loop]. apply decodes_bind, decodes_remaining; [done|]. rewrite (proj2 (Z.eqb_neq _ 0)) by (cbn [length]; lia).
  apply decodes_bind, decodes_next; [done|]. rewrite T2, Z.eqb_refl, T3. replace (Z.to_nat (Z.of_nat (length ind) - 1 + 1)) with (length ind) by lia. rewrite bytes_bits_app.
  apply decodes_bind, decodes_bytes; [done|apply bytes_aligned|]. apply decodes_bind, decodes_append. apply Hd. lia.
Qed.

Lemma unpacks_copy n d bs o o' : 4 <= n <= 131 -> 1 <= d <= 16383 -> d <= Z.of_nat (length o) -> Z.of_nat (length o) + n < 2 ^ 64 ->
  unpacks bs (copy (Z.to_nat n) (Z.to_nat d) o) o' -> unpacks (zpack_copy n d ++ bs) o o'.
Proof.
  intros Hn Hd Hdo Ho [Hbs Hdec]. unfold zpack_copy. assert (u8 (n - 4) = n - 4) as -> by (unfold u8; apply Z.mod_small; lia).
  assert (exists offs, (if 0xBF <? d then [u8 (Z.lor (Z.shiftr d 8) 0xC0); u8 (Z.land d 0xFF)] else [u8 d]) = offs /\ Forall is_byte offs /\ (0 < length offs)%nat /\
    forall rest out (Q : Z -> list bool -> list Z -> Prop), Q d (bytes_bits rest) out -> decodes zpack_offset (bytes_bits (offs ++ rest)) out Q) as (offs & -> & Hoffs & Hol & Hoff).
  { destruct (Z.ltb_spec 0xBF d) as [Hbig|Hsmall].
    - rewrite Z.shiftr_div_pow2 by lia. change (2 ^ 8) with 256. pose proof (Z.div_pos d 256 ltac:(lia) ltac:(lia)). assert (d / 256 < 64) by (apply Z.div_lt_upper_bound; lia).
      destruct (tag_ok (d / 256) ltac:(lia)) as (T1 & T2 & T3). rewrite T1. change 0xFF with (Z.ones 8). rewrite Z.land_ones by lia. change (2 ^ 8) with 256. pose proof (Z.mod_pos_bound d 256 ltac:(lia)) as Hmod.
      assert (u8 (d mod 256) = d mod 256) as -> by (unfold u8; apply Z.mod_small; lia). eexists. split; [done|]. split; [constructor; [unfold is_byte; lia|constructor; [done|constructor]]|]. split; [cbn; lia|].
      intros rest out Q HQ. unfold zpack_offset. cbn [app]. apply decodes_bind, decodes_next; [unfold is_byte; lia|]. rewrite T2, Z.eqb_refl, T3. apply decodes_bind, decodes_next; [done|]. apply decodes_ret.
      rewrite Z.shiftl_mul_pow2 by lia. change (2 ^ 8) with 256. rewrite (lor_low_add 8); [|lia|apply Z.mod_mul; lia|done]. replace (d / 256 * 256 + d mod 256) with d by (pose proof (Z.div_mod d 256); lia). done.
    - assert (u8 d = d) as -> by (unfold u8; apply Z.mod_small; lia). eexists. split; [done|]. split; [constructor; [unfold is_byte; lia|constructor]|]. split; [cbn; lia|].
      intros rest out Q HQ. unfold zpack_offset. cbn [app]. apply decodes_bind, decodes_next; [unfold is_byte; lia|]. rewrite untagged by lia. by apply decodes_ret. }
  cbn [app]. assert (Forall is_byte ((n - 4) :: offs ++ bs)) as Hall by (constructor; [unfold is_byte; lia|]; apply Forall_app; by split). split; [done|].
  intros [|fuel] Hf; [lia|]. cbn [length] in Hf. rewrite length_app in Hf. cbn [zpack_unpack_loop]. apply decodes_bind, decodes_remaining; [done|]. rewrite (proj2 (Z.eqb_neq _ 0)) by (cbn [length]; lia).
  apply decodes_bind, decodes_next; [unfold is_byte; lia|]. rewrite untagged by lia. apply decodes_bind, Hoff. apply decodes_bind, decodes_position. replace (n - 4 + 4) with n by lia.
  replace (u64 (Z.of_nat (length o) - d)) with (Z.of_nat (length o - Z.to_nat d)) by (unfold u64; rewrite Z.mod_small by lia; lia).
  apply decodes_bind, copy_loop_ok; [lia|lia|]. apply Hdec. lia.
Qed.

Lemma flush_app out ind : flush_individuals out ind = out ++ flush_individuals [] ind.
Proof. unfold flush_individuals. case_bool_decide; [by rewrite app_nil_r|done]. Qed.

Lemma unpacks_flush ind bs o o' : (length ind <= 64)%nat -> Forall is_byte ind -> unpacks bs (o ++ ind) o' -> unpacks (flush_individuals [] ind ++ bs) o o'.
Proof. intros Hl Hi H. destruct ind as [|x ind]; [cbn; by rewrite app_nil_r in H|]. apply unpacks_run; [cbn [length] in *; lia|done|done]. Qed.

(** ** Packing *)

Lemma zpack_loop_ok fuel block in_p ht ind out : Forall is_byte block -> 0 <= in_p <= Z.of_nat (length block) -> positions_before ht in_p -> (length ind < 64)%nat ->
  Z.of_nat (length ind) <= in_p -> take (Z.to_nat in_p) block = take (Z.to_nat in_p - length ind) block ++ ind -> Z.of_nat (length block) - in_p < Z.of_nat fuel ->
  exists tail, zpack_loop fuel block in_p ht ind out = Some (0, out ++ tail) /\
    forall o, Z.of_nat (length (o ++ block)) < 2 ^ 64 -> unpacks tail (o ++ take (Z.to_nat in_p - length ind) block) (o ++ block).
Proof.
  intros Hb. revert in_p ht ind out. induction fuel as [|fuel IH]; intros in_p ht ind out Hp Ht Hind Hle Htake Hf; [lia|]. cbn [zpack_loop].
  assert (Forall is_byte ind) as Hib by (assert (Forall is_byte (take (Z.to_nat in_p) block)) as Hx by (by apply Forall_take); rewrite Htake in Hx; by apply Forall_app in Hx as [_ ?]).
  destruct (Z.leb_spec (Z.of_nat (length block)) in_p) as [Hend|Hmid].
  { exists (flush_individuals [] ind ++ []). split; [by rewrite flush_app, app_nil_r|]. intros o Ho. apply unpacks_flush; [lia|done|]. rewrite <- app_assoc, <- Htake, take_ge by lia. apply unpacks_nil. }
  pose proof (zpack_find_ok block in_p ht) as Hm. destruct (zpack_find_bestmatch block (Z.of_nat (length block)) in_p ht) as [m ht'].
  pose proof (peek_lookup block in_p ltac:(lia)) as Hpk. pose proof (proj1 (Forall_lookup _ _) Hb _ _ Hpk) as Hbyte. set (x := peek block in_p) in *.
  destruct (negb (zp_pos m =? -1) && (3 <? zp_size m)) eqn:Em.
  - apply andb_true_iff in Em as [E1 _]. apply negb_true_iff, Z.eqb_neq in E1. destruct (Hm (in_p + zp_size m) ltac:(lia) Ht) as [[|(M1 & M2 & M3 & M4)] M5]; [done|]. set (n := zp_size m) in *. set (pos := zp_pos m) in *.
    destruct (Z.ltb_spec (Z.of_nat (length block)) (in_p + n)); [lia|].
    destruct (IH (in_p + n) ht' [] (flush_individuals out ind ++ zpack_copy n (in_p - pos))) as (tail & E & Hu); [lia|apply M5; lia|cbn; lia|cbn; lia|cbn [length]; by rewrite Nat.sub_0_r, app_nil_r|lia|].
    exists (flush_individuals [] ind ++ zpack_copy n (in_p - pos) ++ tail). split; [by rewrite E, flush_app, <- !app_assoc|]. intros o Ho. apply unpacks_flush; [lia|done|]. rewrite <- app_assoc, <- Htake.
    rewrite length_app in Ho. apply unpacks_copy; [lia|lia|rewrite length_app, length_take; lia|rewrite length_app, length_take; lia|].
    rewrite copy_same; [|lia|lia|].
    + specialize (Hu o ltac:(rewrite length_app; lia)). cbn [length] in Hu. rewrite Nat.sub_0_r in Hu. by replace (Z.to_nat in_p + Z.to_nat n)%nat with (Z.to_nat (in_p + n)) by lia.
    + intros k Hk. specialize (M4 (Z.of_nat k) ltac:(lia)). replace (Z.to_nat in_p - Z.to_nat (in_p - pos) + k)%nat with (Z.to_nat (pos + Z.of_nat k)) by lia. replace (Z.to_nat in_p + k)%nat with (Z.to_nat (in_p + Z.of_nat k)) by lia.
      rewrite !peek_lookup by lia. by f_equal.
  - destruct (Hm (in_p + 1) ltac:(lia) Ht) as [_ M5]. specialize (M5 ltac:(lia)).
    assert (take (Z.to_nat (in_p + 1)) block = take (Z.to_nat in_p - length ind) block ++ ind ++ [x]) as Htake1.
    { replace (Z.to_nat (in_p + 1)) with (S (Z.to_nat in_p)) by lia. rewrite (take_S_r block _ x Hpk), Htake. by rewrite <- app_assoc. }
    destruct (Z.eqb_spec (Z.of_nat (length (ind ++ [x]))) 0x40) as [E64|E64].
    + destruct (IH (in_p + 1) ht' [] (flush_individuals out (ind ++ [x]))) as (tail & E & Hu); [lia|done|cbn; lia|cbn; lia|cbn [length]; by rewrite Nat.sub_0_r, app_nil_r|lia|].
      exists (flush_individuals [] (ind ++ [x]) ++ tail). split; [by rewrite E, flush_app, <- app_assoc|]. intros o Ho. apply unpacks_flush; [lia|apply Forall_app; split; [done|by constructor]|].
      rewrite <- app_assoc, <- Htake1. specialize (Hu o Ho). cbn [length] in Hu. by rewrite Nat.sub_0_r in Hu.
    + rewrite length_app in E64. cbn [length] in E64. destruct (IH (in_p + 1) ht' (ind ++ [x]) out) as (tail & E & Hu); [lia|done|rewrite length_app; cbn [length]; lia|rewrite length_app; cbn [length]; lia| |lia|].
      * rewrite Htake1, length_app. cbn [length]. do 2 f_equal. lia.
      * exists tail. split; [done|]. intros o Ho. specialize (Hu o Ho). rewrite length_app in Hu. cbn [length] in Hu. by replace (Z.to_nat (in_p + 1) - (length ind + 1))%nat with (Z.to_nat in_p - length ind)%nat in Hu by lia.
Qed.

(** C38.  [zpack_pack] of any bytes succeeds, and [zpack_unpack] of the result
    succeeds and appends these bytes to its output. *)
Theorem zpack_roundtrip data o : Forall is_byte data -> Z.of_nat (length (o ++ data)) < 2 ^ 64 ->
  exists out, zpack_pack data [] = Some (0, out) /\ Forall is_byte out /\ zpack_unpack out o = Done (0, o ++ data).
Proof.
  intros Hb Ho. unfold zpack_pack. assert (positions_before (mk_zpack_hashtable ∅ ∅) 0) as H0.
  { split; intros h; unfold head_at, prev_at; cbn [zp_head zp_prev]; rewrite lookup_empty; cbn; unfold ZPACK_NO_POS; lia. }
  destruct (zpack_loop_ok (S (length data)) data 0 _ [] [] Hb ltac:(lia) H0 ltac:(cbn; lia) ltac:(cbn; lia) ltac:(done) ltac:(lia)) as (tail & E & Hu).
  destruct (Hu o Ho) as [Ht Hd]. exists tail. split; [done|]. split; [done|]. unfold zpack_unpack. cbn [Z.to_nat length Nat.sub take] in Hd. rewrite take_0, app_nil_r in Hd.
  pose proof (Hd (S (length tail)) ltac:(lia) (mk_inflate (mk_bit_buffer tail 0 0) o)) as Hw. cbn [input output] in Hw. specialize (Hw ltac:(split; [done|cbn; lia]) ltac:(done) eq_refl).
  unfold wp in Hw. destruct (zpack_unpack_loop _ _) as [[ret s]| |]; [|done|done]. by destruct Hw as (_ & -> & ->).
Qed.

Lemma zpack_roundtrip_witness : exists out, zpack_pack [1; 2; 3; 4; 1; 2; 3; 4; 1; 2; 3; 4; 5] [] = Some (0, out) /\ Forall is_byte out /\
  zpack_unpack out [7] = Done (0, [7] ++ [1; 2; 3; 4; 1; 2; 3; 4; 1; 2; 3; 4; 5]).
Proof. apply (zpack_roundtrip _ [7]); [repeat (constructor; [unfold is_byte; lia|]); constructor|cbn; lia]. Defined.

(** A copy that is cut off takes zero for its distance: the byte at the end of
    the output, which does not exist yet, is zero. *)
Lemma zpack_truncated_copy : zpack_unpack [0] [5] = Done (0, [5; 0; 0; 0; 0]).
Proof. vm_compute. reflexivity. Qed.
